(* ===== verification/_CoqProject ===== *)
-Q . S2P
Prelude.v
GoStrings.v
Liveness.v
Domain.v
Corroboration.v
PriorityPolicy.v
Scheduler.v
Fixture.v
Envelope.v
Recovery.v
Order.v
FairShare.v
Admission.v
Passes.v
Lanes.v
PassSpec.v
LaneSpec.v
TickSpec.v
Safety.v
Totality.v
Headroom.v
Membership.v
Operations.v
Failure.v
Effects.v
Store.v
Inbox.v
Ledger.v
Demands.v
Ports.v
Projection.v
Discharge.v
Reconcile.v
Bindings.v
Knowledge.v
Drain.v
DrainSpec.v
DrainSafety.v
Provision.v
ProvisionSafety.v
Router.v
Queue.v
Advertise.v
HostProbe.v
HostSpec.v
Releases.v
UpdateDrain.v
Config.v
Labels.v
Validation.v
ScopeRules.v
Configure.v
ConfigSpec.v
ConfigureSpec.v
LabelSpec.v
Inventory.v
Tick.v
QueueSpec.v
AdvertiseSpec.v
Grounding.v
Outbox.v
ProjectionSpec.v
Durability.v
DischargeSpec.v
Claiming.v
Authority.v
ReconcileSpec.v
InventorySpec.v
EngineSpec.v
Worker.v
Broker.v
Sessions.v
SessionSpec.v
Poll.v
Yield.v
Guard.v
Provisioning.v
SetAudit.v
