(* ===== verification/Prelude.v ===== *)
(** * Tart Runner Fleet: a verification development

    The fleet runs GitHub Actions jobs on single-use virtual machines and
    containers.  On every tick a node observes its queue, its instances and its
    host; a pure scheduler turns the observation into a plan of spawns and
    drains; the plan is written to a durable outbox in SQLite; workers claim the
    operations of the outbox and hand them to executors, which drive a machine
    and its runner through ports; and every instance row moves through one state
    machine until it is deleted.  What GitHub says about jobs reaches a durable
    inbox, as broker messages and as complete REST snapshots; the queues of a tick
    are read from it, and the executors ask it whether a runner may be removed.
    Every poll tells GitHub how much more the node can take.  Beside this loop a
    watchdog decides whether the node may go on serving a scale set that has
    stopped taking work, an update controller drains the node for a newer release,
    a node that cannot take work withdraws its sessions, a guard keeps the lease of
    the one controller, and an operator may discharge an operation that stopped
    retrying, or provision, replace and retire scale sets.
    The development models these decisions and proves what they promise each
    other.

    ** The program and the files

    Foundations.
    - [Prelude]: Go's 64-bit integers with their wrap-around, instants and
      saturating durations, the stable sort, and the lemmas and tactics the
      other files share.
    - [GoStrings]: the functions of package [strings] the pure code calls.

    Domain (internal/domain).
    - [Liveness]: guestliveness.go.  [Observe] folds probes, [Confirmed] judges.
    - [Domain]: domain.go.  Demand keys, resource vectors, instances and their
      state machine [CanTransitionTo], what an instance charges, the host mode.
    - [Corroboration]: corroboration.go and emptyexit.go.
    - [PriorityPolicy]: priority.go.  Tiers, rules and the glob matcher.

    Scheduler (internal/scheduler/scheduler.go), in the order of a tick.
    - [Scheduler]: configuration, state, input, operations, plan.
    - [Fixture]: a concrete node on which the witnesses are evaluated.
    - [Envelope]: [linuxFree], [linuxFreeAged] and [freeCapacity].
    - [Recovery]: [assignmentRecoveries] and the silence and occupancy reports.
    - [Order]: [normalizedDemands], the bands, tiers and round-robin.
    - [Admission]: [exactSelect] with [betterAdmission].
    - [Passes]: [planLinux] and [appendMacSpawns], the two admission passes.
    - [Lanes]: the macOS, Linux, handoff, remainder and exclusive lanes, and
      [PlanTick], which composes them.
    - [Headroom]: headroom.go.  [PartitionHeadroom] divides what the node could
      still start among its scale sets.
    - [PassSpec], [LaneSpec], [TickSpec]: the contracts between these layers.
      [Admits] is what a pass promises a lane, [Lane] what a lane promises the
      tick, [Tick] what the tick promises of its plan.

    Membership (internal/membership).
    - [Membership]: watchdog.go and adoption.go.  [Climb] is the set of
      histories one bound set can have under [advance].

    Durable operations (internal/operations, internal/lifecycle,
    internal/adapters/sqlite).
    - [Operations]: validity of rows and plans, and the cycle search.
    - [Failure]: failure codes, the stop ladder, the retry policy.
    - [Store]: the tables as one record [Db] and every transaction on them as a
      function from database to database or an error.
    - [Inbox]: inbox.go.  The ledger of broker messages, demands, logical jobs
      and snapshots as one record [Inbox], with its transactions.
    - [Projection]: the second half of inbox.go.  A demand is projected onto the
      instance that runs it, in several transactions that others may come
      between.
    - [Reconcile]: internal/reconcile.  [Commit] turns the plan of a tick into a
      durable plan and applies it.
    - [Outbox]: the transactions as one step relation [DbStep], the databases
      [Reachable] from the empty one, the invariant [Consistent] and what no
      transaction undoes.
    - [Discharge]: internal/discharge and the request of internal/adminapi.  The
      operator's discharge and the automatic recovery of a dead cleanup.
    - [Worker]: worker.go.  One batch, the settlement of each operation and the
      lease renewals that race with it.

    Executors (internal/lifecycle).
    - [Effects]: a body of code that calls ports is a tree of calls, [Prog]; an
      environment answers each call from the whole history, [run] executes it,
      and [wp] speaks of all its runs at once.  [execute] runs it on a state
      that others may change between two calls.
    - [Ports]: the calls of the executors, their errors and shared helpers.
    - [Knowledge]: what an executor knows from the calls it has made, and the
      contract of a store behind them.
    - [Drain]: [DrainExecutor.Execute], with a guard for each phase.
    - [Provision]: [ProvisionExecutor.Execute].
    - [Router]: control.go, an implementation of the runner ports over the scale
      sets and the durable demands.

    Application (internal/app).
    - [Bindings]: demand.go.  Which scale sets a queued job belongs to, and when it
      is proved to be another node's.
    - [Queue]: demand.go.  The coordinator between the inbox and the scheduler: the
      queue of a binding, broker messages, REST snapshots and expiries.
    - [HostProbe]: internal/executor/host.go and the host half of inventory.go.  The
      guardrails and the host a tick plans on.
    - [Inventory]: inventory.go.  Rows and machine readings become the instances of
      a tick, with the memory of power readings and probes it keeps between ticks.
    - [Advertise]: advertise.go and scalesetinstances.go.  The headroom of every
      scale set and the capacity a poll advertises.
    - [Tick]: tick.go and tick_failure.go.  One tick, from reading the scheduler's
      state to committing the plan, as one program that contains those of [Queue]
      and [Reconcile].

    GitHub (internal/adapters/githubscaleset) and the daemon (internal/daemon).
    - [Broker]: session.go, pollcause.go, errors.go.  The words for a failure, and
      the policy that classifies one and gives a session up.
    - [Poll]: scaleset.go.  One poll of a session, the commit of its message through
      [Queue] and the acknowledgement; jobs, secrets and runners.
    - [Sessions]: runtime.go, [recoveringScaleSetSource].  The session of a binding:
      each operation is a program over the broker, and a poll is the sequence of
      sections it runs under the lock, which others may come between.
    - [Yield]: sessionyield.go.  When a node withdraws its sessions and rejoins.
    - [Guard]: runtime.go, the acquisition and the renewal of the authority lease.
    - [Provisioning]: provision.go and internal/provision.  [Provision_Run],
      [Recreate] and [Retire], as programs over the administration calls.
    - [SetAudit]: internal/scalesetaudit and its caller in runtime.go.  Which sets GitHub
      stopped delivering for.

    Updates (internal/autoupdate, internal/daemon/updatedrain.go).
    - [Releases]: versions, the waiting release, the prune and the promotion.
    - [UpdateDrain]: the drain of a node for a release and its controller.

    Configuration (internal/config, internal/app/config.go).
    - [Config]: config.go.  The wire record and the settings, with every default
      and normalisation between them, in both directions.
    - [Labels]: labels.go.  The canonical label of a vector, the label sets of a
      node and what a scale set advertises.
    - [Validation]: [Validate] with all its parts, [Decode] and [Encode].
    - [ScopeRules]: [ValidateAuthority], for one flat list and for scopes.
    - [Configure]: app/config.go.  The scheduler's configuration and the bindings
      of the coordinator, made of the settings.

    ** What the theorems show

    - [Safety]: a plan never takes the node over its budget or envelope, a
      repository over its cap, or a macOS profile over its limit; it spawns
      each demand once and drains only idle or justly recovered instances.  The
      hypothesis [wellFormed] asks for positive profile vectors filed under
      their own name, observed quantities that fit 64-bit sums, and, where
      macOS admission is not exclusive, one macOS profile in the queue.  Two
      theorems show what the handoff lane does without the last clause.
    - [Headroom]: what is offered to the scale sets could all start at once, the
      division ends and keeps nothing back.
    - [Totality]: a tick always returns a plan, and fails closed.
    - [Admission]: the bounded search returns a best combination.
    - [FairShare]: what fair share may exchange, and that escalation bounds how
      long a tier can be overtaken.
    - [Recovery]: an instance is recovered only for a cause that holds, and the
      report to the operator agrees with the decision.
    - [Liveness], [Domain], [Corroboration], [PriorityPolicy], [Membership],
      [Operations], [Failure]: each rule against a declarative statement of it.
    - [Durability], [Claiming], [Authority]: over every sequence of
      transactions, operations run in dependency order, effects are recorded
      once, transitions are legal, a claim hands out what can run, plans apply
      once and in order, and the lease is exclusive.  One theorem shows a
      blocked operation that nothing releases.
    - [Ledger]: a redelivered broker message changes nothing, a new one is never
      refused by the ledger, and the cursor moves forward only, across restarts
      of the broker's numbering.
    - [Demands]: a demand's status is the furthest reported; it leaves the queue
      only by completion, by counted absences that are really that many newer
      snapshots, or by its time to live.
    - [DrainSpec], [DrainSafety], [ProvisionSafety]: whatever the ports answer,
      each step of an executor rests on evidence obtained in the same execution,
      and what an execution returns is true of the row.
    - [Router], [Grounding]: the drain over the router, and over the inbox
      behind it, so that a removal rests on what the broker reported.
    - [ProjectionSpec]: whatever others write in between, a projection writes only
      what the durable demand entitles it to, and has caught up when it succeeds.
    - [ReconcileSpec]: a commit writes nothing but its plan, and after a committed
      tick the durable rows are the node the scheduler planned, so what [Safety]
      shows of that node holds of the rows.
    - [QueueSpec]: a queue is what the broker vouches for, a snapshot is recorded as
      it was routed, and a message is durable before it is acted on.
    - [EngineSpec]: a tick acts on what it read in the same tick, and spawns nothing
      for a demand an observed instance serves.
    - [HostSpec], [InventorySpec]: an inventory is what was read in the same
      observation, a machine is believed to be off only after an unbroken run of
      readings, and a host that refuses admission starts nothing.
    - [AdvertiseSpec]: an advertised capacity can be honoured.
    - [Releases], [UpdateDrain]: the order of versions, what a prune keeps,
      that a promotion completes or restores, that a drain is bounded and that a
      restart resumes its schedule.
    - [ConfigSpec]: a decoded file can be persisted, and reading it again gives the
      settings that were written.
    - [ConfigureSpec]: a decoded file is a configuration the scheduler can run,
      which discharges the hypotheses of [Safety] and [Totality] on profiles, caps
      and bounds; and what its bindings declare to GitHub can run at once.
    - [LabelSpec]: at most one binding takes a job that names a canonical label, and
      its guest has the vector the label spells.
    - [DischargeSpec]: a discharge retires the row before the machine, and a cleanup
      is resumed at most three times.
    - [Worker]: a batch is a run of the outbox, and a guest that will not
      stop is met with rising force across attempts.
    - [Poll]: a message of GitHub is acknowledged only when all of it is durable.
    - [SessionSpec]: over every interleaving of polls, yields and the end, a binding
      leaks no session and a session GitHub will not release is given up.  One
      theorem shows that a throttled poll is never reported as one.
    - [Yield]: a node yields only when it was idle for the whole bound.
    - [Guard]: the acquisition of the lease ends, and a controller surrenders
      with its lease if its timers are no later than assumed.
    - [Provisioning]: a provisioning run never deletes, a retirement deletes only
      what nobody needs, and a replacement interrupted anywhere can be resumed.
    - [SetAudit]: a verdict of the audit is an unbroken run of readings.

    ** Conventions

    - A Go integer is a [Z]; each operation that can overflow wraps.
    - An instant is a [Z] of nanoseconds since Go's zero time.
    - A string enumeration is an inductive type, with a constructor for any
      other string where the source has a default branch.
    - A map is a [gmap].  Where the source ranges over a map, the definition
      takes the order as an argument or the result is shown independent of it.
    - A panic is [None].  An error of the store is the left of a sum.
    - Identifiers made by hashing (the classes [ContentAddress], [PlanDigest],
      [CleanupIdentity], [DemandDigest]) and the JSON texts of a plan and of the
      scheduler's state ([PlanEncoding], [StateDecoding]) are arbitrary functions.
    - A floating-point number of a host reading is compared exactly; what the
      conversion to an integer does out of range is the class [FloatToInt].
    - What the standard library says of a URL or an address in a configuration is
      the class [NetText]; the sum behind a durable key is the class [ScopeSum], and
      the one behind the identity of an assigned job the class [JobSum].
    - An error of GitHub or of the network is a [Fault]: what the code asks of it with
      [errors.Is] and [errors.As].
    - A check of a configuration is an [option Invalid]; [>>>] makes the next check
      when the one before found nothing.
    - [sort.Slice] is any permutation that is sorted (the class [SliceSort]).
    - A store transaction is atomic: SQLite serialises writers, and an error
      rolls back.

    ** Fuel

    The loops of the source are structural recursions here, except these.  The
    cycle search recurses at most [searchFuel] deep, one more than the
    number of operations plus one, and is proved to return.  [doomedOf] repeats
    the recursive query once more than there are dependencies, and is proved to
    be the transitive closure.  The rounds of [PartitionHeadroom] repeat while one
    grants a slot, at most as often as there is room ([passFuel]), and are proved to
    end.  The acquisition of the lease tries at most [fuel] times; 46 tries are proved
    to be enough when a retry takes no less than its pause.  The renewal loop has no
    end, and what is shown of it holds after any number of turns.  The doubling loops ([holdLoop], [backoffLoop], [exclusionLoop]) run over the
    count they are given, as in the source.

    ** What is not modelled

    Input and output: the adapters of tart, podman, Linux and macOS, the HTTP and the
    credentials behind the calls to GitHub, the wiring and the goroutines of the
    daemon, the administration API, the command line, telemetry, the service managers
    behind an update, the cache gate and the guest bootstrap.  Of the configuration, the JSON text, the comparison of several
    nodes, the policy projection and the reports made of the settings are left out.
    [Tick] has the inventory as a call, of which [Inventory] is the program.  Of the store,
    the schema migrations and most status queries are left out.  The polling loops
    of the executors run as often as the clock port answers.  In
    [GoStrings] text is ASCII. *)

From Stdlib Require Import ZArith Lia String Ascii Permutation Sorted.
From stdpp Require Import base tactics list gmap strings numbers.

#[global] Open Scope Z_scope.

(** ** Automation *)

Create HintDb fleet discriminated.

(** Case analysis on the first [match] or [if] of the goal, keeping the
    equation under a generated name. *)
Ltac split_match :=
  match goal with
  | |- context [ match ?x with _ => _ end ] => destruct x eqn:?
  end.

Ltac split_match_in H :=
  match type of H with
  | context [ match ?x with _ => _ end ] => destruct x eqn:?
  end.

(** Turn the boolean tests of the source into propositions. *)
Ltac bool_to_prop :=
  repeat match goal with
  | H : (_ && _)%bool = true |- _ => apply andb_true_iff in H as [? ?]
  | H : (_ || _)%bool = false |- _ => apply orb_false_iff in H as [? ?]
  | H : (_ || _)%bool = true |- _ => apply orb_true_iff in H
  | H : (_ && _)%bool = false |- _ => apply andb_false_iff in H
  | H : negb _ = true |- _ => apply negb_true_iff in H
  | H : negb _ = false |- _ => apply negb_false_iff in H
  | H : (_ <=? _) = true |- _ => apply Z.leb_le in H
  | H : (_ <=? _) = false |- _ => apply Z.leb_gt in H
  | H : (_ <? _) = true |- _ => apply Z.ltb_lt in H
  | H : (_ <? _) = false |- _ => apply Z.ltb_ge in H
  | H : (_ =? _) = true |- _ => apply Z.eqb_eq in H
  | H : (_ =? _) = false |- _ => apply Z.eqb_neq in H
  | H : bool_decide _ = true |- _ => apply bool_decide_eq_true_1 in H
  | H : bool_decide _ = false |- _ => apply bool_decide_eq_false_1 in H
  end.

(** ** Go's 64-bit integers

    [int], [int64] and [time.Duration] are 64-bit two's complement on every
    platform the fleet builds for.  They are modelled as [Z] with the wrap-around
    of each arithmetic operation written out. *)

Definition maxInt64 : Z := 9223372036854775807.
Definition minInt64 : Z := -9223372036854775808.

Definition wrap64 (z : Z) : Z :=
  (z + 9223372036854775808) mod 18446744073709551616 - 9223372036854775808.

Definition add64 (a b : Z) : Z := wrap64 (a + b).
Definition sub64 (a b : Z) : Z := wrap64 (a - b).
Definition mul64 (a b : Z) : Z := wrap64 (a * b).

Definition int64 (z : Z) : Prop := minInt64 <= z <= maxInt64.

Lemma wrap64_id z : int64 z -> wrap64 z = z.
Proof.
  unfold int64, wrap64, minInt64, maxInt64. intros H.
  rewrite Z.mod_small; lia.
Qed.

Lemma wrap64_int64 z : int64 (wrap64 z).
Proof.
  unfold int64, wrap64, minInt64, maxInt64.
  pose proof (Z.mod_pos_bound (z + 9223372036854775808) 18446744073709551616).
  lia.
Qed.

Lemma add64_exact a b : int64 (a + b) -> add64 a b = a + b.
Proof. apply wrap64_id. Qed.

(** A subtraction guarded by the comparison [b <= a] of non-negative values
    never wraps. *)
Lemma sub64_exact a b : 0 <= b -> b <= a -> a <= maxInt64 -> sub64 a b = a - b.
Proof.
  intros ???. apply wrap64_id. unfold int64, minInt64, maxInt64 in *. lia.
Qed.

(** ** Go's [time.Time] and [time.Duration]

    An instant is the number of nanoseconds since [time.Time{}], so the zero
    value is [0] and [IsZero] is a test against it.  The monotonic reading Go
    keeps beside the wall clock is not modelled.  [Sub] saturates at the range
    of [time.Duration], as the standard library documents. *)

Definition Time := Z.
Definition Duration := Z.

Definition zeroTime : Time := 0.
Definition IsZero (t : Time) : bool := t =? 0.
Definition Before (t u : Time) : bool := t <? u.
Definition After (t u : Time) : bool := u <? t.
Definition TimeEqual (t u : Time) : bool := t =? u.
Definition TimeAdd (t : Time) (d : Duration) : Time := t + d.
Definition TimeSub (t u : Time) : Duration :=
  Z.max minInt64 (Z.min maxInt64 (t - u)).

Definition Nanosecond : Duration := 1.
Definition Millisecond : Duration := 1000000.
Definition Second : Duration := 1000000000.
Definition Minute : Duration := 60 * Second.
Definition Hour : Duration := 60 * Minute.

(** Seconds from year 1 to 1970, the [unixToInternal] of package time. *)
Definition unixToInternal : Z := 62135596800.
Definition Unix (t : Time) : Z := t / Second - unixToInternal.

Lemma TimeSub_int64 t u : int64 (TimeSub t u).
Proof. unfold int64, TimeSub, minInt64, maxInt64. lia. Qed.

Lemma TimeSub_exact t u : int64 (t - u) -> TimeSub t u = t - u.
Proof. unfold int64, TimeSub. lia. Qed.

(** Waiting longer never shortens a measured wait. *)
Lemma TimeSub_mono t t' u : t <= t' -> TimeSub t u <= TimeSub t' u.
Proof. unfold TimeSub. lia. Qed.

(** ** Loops

    [for cond := true; cond; { ... }]: one turn returns the next state and whether
    to go on.  The fuel [k] allows [2 ^ k] turns, so it can be chosen as the
    logarithm of any bound without slowing down evaluation. *)

Section Loop.
Context {S : Type} (turn : S -> S * bool).

Fixpoint repeatWhile (k : nat) (s : S) : S * bool :=
  match k with
  | O => turn s
  | Datatypes.S k => let '(s', again) := repeatWhile k s in if again then repeatWhile k s' else (s', false)
  end.

(** What every turn keeps holds at the end. *)
Lemma repeatWhile_keeps (P : S -> Prop) :
  (forall s, P s -> P (fst (turn s))) -> forall k s, P s -> P (fst (repeatWhile k s)).
Proof.
  intros HP. induction k as [|k IH]; intros s Hs; simpl; [by apply HP|].
  pose proof (IH s Hs) as H1. destruct (repeatWhile k s) as [s' []]; [by apply IH|done].
Qed.

(** A loop that stops has just made a turn that asked for no other. *)
Lemma repeatWhile_last (P : S -> Prop) :
  (forall s, P s -> P (fst (turn s))) -> forall k s s', P s -> repeatWhile k s = (s', false) ->
  exists s1, P s1 /\ turn s1 = (s', false).
Proof.
  intros HP. induction k as [|k IH]; intros s s' Hs; simpl; [by exists s|].
  pose proof (repeatWhile_keeps P HP k s Hs) as H1. pose proof (IH s) as H0.
  destruct (repeatWhile k s) as [s1 []]; intros E; [by apply (IH s1)|]. injection E as <-. by apply H0.
Qed.

(** A measure that each turn lowers is enough fuel when it is below [2 ^ k]. *)
Lemma repeatWhile_progress (P : S -> Prop) (m : S -> Z) :
  (forall s, P s -> P (fst (turn s)) /\ 0 <= m s /\ (snd (turn s) = true -> m (fst (turn s)) < m s)) ->
  forall k s, P s -> snd (repeatWhile k s) = true -> 2 ^ Z.of_nat k <= m s - m (fst (repeatWhile k s)).
Proof.
  intros HP. induction k as [|k IH]; intros s Hs.
  { simpl. intros Hg. destruct (HP s Hs) as (_ & _ & Hm). specialize (Hm Hg). lia. }
  rewrite Nat2Z.inj_succ, Z.pow_succ_r by lia. simpl.
  pose proof (repeatWhile_keeps P (fun s Hs => proj1 (HP s Hs)) k s Hs) as H1. pose proof (IH s Hs) as I1.
  destruct (repeatWhile k s) as [s1 []]; simpl in *; [|done]. intros Hg. specialize (I1 eq_refl).
  specialize (IH s1 H1 Hg). lia.
Qed.

Lemma repeatWhile_stops (P : S -> Prop) (m : S -> Z) :
  (forall s, P s -> P (fst (turn s)) /\ 0 <= m s /\ (snd (turn s) = true -> m (fst (turn s)) < m s)) ->
  forall k s, P s -> m s < 2 ^ Z.of_nat k -> snd (repeatWhile k s) = false.
Proof.
  intros HP k s Hs Hm. destruct (snd (repeatWhile k s)) eqn:E; [|done].
  pose proof (repeatWhile_progress P m HP k s Hs E) as Hk.
  pose proof (repeatWhile_keeps P (fun s Hs => proj1 (HP s Hs)) k s Hs) as H1.
  destruct (HP _ H1) as (_ & H0 & _). lia.
Qed.

End Loop.

(** ** Sorting

    [sort.SliceStable] with the comparison [less]: the stable insertion sort.
    Where the source calls [sort.Slice], the comparison is a strict total order
    on the elements, and [sorted_unique] shows every sorted arrangement is this
    one. *)

Section Sort.
Context {A : Type} (less : A -> A -> bool).

Fixpoint insertBy (x : A) (l : list A) : list A :=
  match l with
  | [] => [x]
  | y :: l' => if less y x then y :: insertBy x l' else x :: y :: l'
  end.

Fixpoint sortBy (l : list A) : list A :=
  match l with
  | [] => []
  | x :: l' => insertBy x (sortBy l')
  end.

Lemma insertBy_perm x l : Permutation (insertBy x l) (x :: l).
Proof.
  induction l as [|y l IH]; simpl; [done|].
  destruct (less y x); [|done].
  rewrite IH. apply perm_swap.
Qed.

Lemma sortBy_perm l : Permutation (sortBy l) l.
Proof.
  induction l as [|x l IH]; simpl; [done|].
  by rewrite insertBy_perm, IH.
Qed.

Lemma sortBy_length l : length (sortBy l) = length l.
Proof. apply Permutation_length, sortBy_perm. Qed.

Lemma sortBy_in x l : In x (sortBy l) <-> In x l.
Proof.
  split; apply Permutation_in; [|symmetry]; apply sortBy_perm.
Qed.

(** [before a b]: [a] may stand in front of [b]. *)
Definition before (a b : A) : Prop := less b a = false.

Section Weak.
Hypothesis less_irrefl : forall a, less a a = false.
Hypothesis less_cotrans : forall a b c, less a b = false -> less b c = false -> less a c = false.
Hypothesis less_asym : forall a b, less a b = true -> less b a = false.

Lemma insertBy_sorted x l : StronglySorted before l -> StronglySorted before (insertBy x l).
Proof.
  induction 1 as [|y l Hs IH Hy]; simpl; [repeat constructor|].
  destruct (less y x) eqn:E.
  - constructor; [done|].
    apply List.Forall_forall. intros z Hz.
    apply (Permutation_in _ (insertBy_perm x l)) in Hz as [<-|Hz].
    + by apply less_asym.
    + rewrite List.Forall_forall in Hy. by apply Hy.
  - constructor; [by constructor|].
    constructor; [done|].
    eapply List.Forall_impl; [|exact Hy]. intros z Hz.
    unfold before in *. by eapply less_cotrans.
Qed.

Lemma sortBy_sorted l : StronglySorted before (sortBy l).
Proof.
  induction l; simpl; [constructor|]. by apply insertBy_sorted.
Qed.
End Weak.

(** When no two distinct elements tie, the sorted arrangement is unique, so the
    outcome does not depend on the sorting algorithm. *)
Lemma sorted_unique l1 l2 :
  (forall a b, In a l1 -> In b l1 -> less a b = false -> less b a = false -> a = b) ->
  StronglySorted before l1 -> StronglySorted before l2 -> Permutation l1 l2 -> l1 = l2.
Proof.
  revert l2. induction l1 as [|x l1 IH]; intros l2 Htot S1 S2 HP.
  { apply Permutation_nil in HP. by subst. }
  destruct l2 as [|y l2].
  { symmetry in HP. by apply Permutation_nil in HP. }
  apply StronglySorted_inv in S1 as [S1 F1]. apply StronglySorted_inv in S2 as [S2 F2].
  rewrite List.Forall_forall in F1, F2.
  assert (x = y) as <-.
  { assert (In x (y :: l2)) as [->|Hx] by (eapply Permutation_in; [exact HP|by left]); [done|].
    assert (In y (x :: l1)) as [->|Hy]
      by (eapply Permutation_in; [symmetry; exact HP|by left]); [done|].
    apply Htot; [by left|by right| |].
    - by apply F2.
    - by apply F1. }
  f_equal. apply IH; [|done|done|by eapply Permutation_cons_inv].
  intros a b Ha Hb. apply Htot; by right.
Qed.

End Sort.

#[export] Hint Resolve sortBy_perm insertBy_perm : fleet.

(** ** Sublists and filters *)

Section Lists.
Context {A : Type}.
Implicit Types l : list A.

Lemma sublist_In l1 l2 x : l1 `sublist_of` l2 -> In x l1 -> In x l2.
Proof.
  induction 1; simpl; [done| |]; intuition.
Qed.

Lemma sublist_Forall (P : A -> Prop) l1 l2 : l1 `sublist_of` l2 -> Forall P l2 -> Forall P l1.
Proof.
  intros Hs. rewrite !List.Forall_forall. intros H x Hx. apply H. by eapply sublist_In.
Qed.

Lemma sublist_NoDup_map {B} (f : A -> B) l1 l2 :
  l1 `sublist_of` l2 -> List.NoDup (map f l2) -> List.NoDup (map f l1).
Proof.
  induction 1 as [|x l1 l2 Hs IH|x l1 l2 Hs IH]; simpl; intros Hn; [constructor| |];
    inversion_clear Hn as [|? ? Hx Hn']; [|by apply IH].
  constructor; [|by apply IH]. rewrite !in_map_iff in *.
  intros (y & Hy & Hin). apply Hx. exists y. split; [done|]. by eapply sublist_In.
Qed.

Lemma filter_sublist (f : A -> bool) l : List.filter f l `sublist_of` l.
Proof.
  induction l as [|x l IH]; simpl; [constructor|]. destruct (f x); by constructor.
Qed.

Lemma filter_negb_perm (f : A -> bool) l :
  Permutation (List.filter f l ++ List.filter (fun x => negb (f x)) l) l.
Proof.
  induction l as [|x l IH]; simpl; [done|]. destruct (f x); simpl; [by constructor|].
  rewrite <- Permutation_middle. by constructor.
Qed.

Lemma NoDup_map_perm {B} (f : A -> B) l1 l2 :
  Permutation l1 l2 -> List.NoDup (map f l2) -> List.NoDup (map f l1).
Proof.
  intros HP. apply Permutation_NoDup. apply Permutation_map. by symmetry.
Qed.

Lemma in_bind_option {B} (f : A -> option B) l y :
  In y (l ≫= (fun x => option_list (f x))) <-> exists x, In x l /\ f x = Some y.
Proof.
  induction l as [|x l IH]; [split; [done|by intros (? & [] & _)]|].
  rewrite bind_cons, in_app_iff, IH. split.
  - intros [Hy|(z & Hz & Hf)]; [|exists z; split; [by right|done]].
    exists x. split; [by left|]. destruct (f x); [|done]. by destruct Hy as [->|[]].
  - intros (z & [->|Hz] & Hf); [left; rewrite Hf; by left|right; eauto].
Qed.

Lemma NoDup_app_split l1 l2 :
  List.NoDup (l1 ++ l2) <-> List.NoDup l1 /\ List.NoDup l2 /\ (forall x, In x l1 -> ~ In x l2).
Proof.
  induction l1 as [|x l1 IH]; simpl.
  - split; [intros; repeat split; auto using List.NoDup_nil|tauto].
  - rewrite !NoDup_cons_iff, IH, in_app_iff. split.
    + intros (Hx & Hn1 & Hn2 & Hd). repeat split; try tauto. intros y [<-|Hy]; [tauto|auto].
    + intros ((Hx & Hn1) & Hn2 & Hd). repeat split; auto. intros [?|?]; [done|]. by apply (Hd x); auto.
Qed.

Lemma filter_perm (f : A -> bool) l1 l2 :
  Permutation l1 l2 -> Permutation (List.filter f l1) (List.filter f l2).
Proof.
  induction 1; simpl; [done| | |by etransitivity].
  - destruct (f x); [by constructor|done].
  - destruct (f x), (f y); try done. apply perm_swap.
Qed.

Lemma filter_all (f : A -> bool) l : (forall x, In x l -> f x = true) -> List.filter f l = l.
Proof.
  induction l as [|x l IH]; intros H; simpl; [done|].
  rewrite (H x), IH; [done| |by left]. intros; apply H; by right.
Qed.

End Lists.
