(* ===== verification/GoStrings.v ===== *)
(** * Go strings

    The parts of packages [strings] and [sort] the fleet's pure code calls, on
    byte strings.  Text is ASCII: [ToLower] and the white-space tests are the
    ASCII halves of the Unicode-aware originals. *)

From Stdlib Require Import ZArith Lia String Ascii NArith.
From stdpp Require Import base tactics list strings pretty.
From S2P Require Import Prelude.

Abbreviation bytes := (list ascii).

Definition bytesOf (s : string) : bytes := list_ascii_of_string s.

Lemma bytesOf_inj s t : bytesOf s = bytesOf t -> s = t.
Proof.
  intros H. apply (f_equal string_of_list_ascii) in H.
  unfold bytesOf in H. by rewrite !string_of_list_ascii_of_string in H.
Qed.

Lemma bytesOf_app s t : bytesOf (s +:+ t)%string = bytesOf s ++ bytesOf t.
Proof. unfold bytesOf. induction s as [|c s IH]; simpl; [done|]. by f_equal. Qed.

(** ** The order of strings: bytewise lexicographic *)

Fixpoint bytesLess (a b : bytes) : bool :=
  match a, b with
  | _, [] => false
  | [], _ :: _ => true
  | x :: a', y :: b' =>
      if (N_of_ascii x <? N_of_ascii y)%N then true
      else if (N_of_ascii y <? N_of_ascii x)%N then false
      else bytesLess a' b'
  end.

Definition strLess (a b : string) : bool := bytesLess (bytesOf a) (bytesOf b).

Lemma N_of_ascii_inj a b : N_of_ascii a = N_of_ascii b -> a = b.
Proof.
  intros H. apply (f_equal ascii_of_N) in H. by rewrite !ascii_N_embedding in H.
Qed.

Lemma bytesLess_irrefl a : bytesLess a a = false.
Proof. induction a as [|x a IH]; simpl; [done|]. by rewrite N.ltb_irrefl. Qed.

Lemma bytesLess_asym a b : bytesLess a b = true -> bytesLess b a = false.
Proof.
  revert b. induction a as [|x a IH]; intros [|y b]; simpl; try done.
  destruct (N.ltb_spec (N_of_ascii x) (N_of_ascii y)),
    (N.ltb_spec (N_of_ascii y) (N_of_ascii x)); try done; try lia. by apply IH.
Qed.

Lemma bytesLess_total a b : bytesLess a b = false -> bytesLess b a = false -> a = b.
Proof.
  revert b. induction a as [|x a IH]; intros [|y b]; simpl; try done.
  destruct (N.ltb_spec (N_of_ascii x) (N_of_ascii y)),
    (N.ltb_spec (N_of_ascii y) (N_of_ascii x)); try done; try lia.
  intros. f_equal; [apply N_of_ascii_inj; lia|by apply IH].
Qed.

Lemma bytesLess_cotrans a b c :
  bytesLess a b = false -> bytesLess b c = false -> bytesLess a c = false.
Proof.
  revert b c. induction a as [|x a IH]; intros [|y b] [|z c]; simpl; try done.
  destruct (N.ltb_spec (N_of_ascii x) (N_of_ascii y)),
    (N.ltb_spec (N_of_ascii y) (N_of_ascii x)),
    (N.ltb_spec (N_of_ascii y) (N_of_ascii z)),
    (N.ltb_spec (N_of_ascii z) (N_of_ascii y)),
    (N.ltb_spec (N_of_ascii x) (N_of_ascii z)),
    (N.ltb_spec (N_of_ascii z) (N_of_ascii x)); try done; try lia.
  apply IH.
Qed.

Lemma strLess_irrefl a : strLess a a = false.
Proof. apply bytesLess_irrefl. Qed.

Lemma strLess_asym a b : strLess a b = true -> strLess b a = false.
Proof. apply bytesLess_asym. Qed.

Lemma strLess_total a b : strLess a b = false -> strLess b a = false -> a = b.
Proof. intros. by apply bytesOf_inj, bytesLess_total. Qed.

Lemma strLess_cotrans a b c :
  strLess a b = false -> strLess b c = false -> strLess a c = false.
Proof. apply bytesLess_cotrans. Qed.

(** ** Case, prefixes and occurrences *)

Definition lowerChar (c : ascii) : ascii :=
  let n := nat_of_ascii c in
  if ((65 <=? n)%nat && (n <=? 90)%nat)%bool then ascii_of_nat (n + 32) else c.

Definition ToLower (s : bytes) : bytes := map lowerChar s.

Fixpoint HasPrefix (s prefix : bytes) {struct prefix} : bool :=
  match prefix, s with
  | [], _ => true
  | c :: p, d :: s' => bool_decide (c = d) && HasPrefix s' p
  | _ :: _, [] => false
  end.

Lemma HasPrefix_spec s p : HasPrefix s p = true <-> exists w, s = p ++ w.
Proof.
  revert s. induction p as [|c p IH]; intros s; simpl.
  { split; [intros _; by exists s|done]. }
  destruct s as [|d s]; [by split; [|intros [w ?]]|].
  rewrite andb_true_iff, bool_decide_eq_true, IH. split.
  - intros [-> [w ->]]. by exists w.
  - intros [w [= -> ->]]. split; [done|by exists w].
Qed.

Definition HasSuffix (s suffix : bytes) : bool := HasPrefix (rev s) (rev suffix).

Lemma HasSuffix_spec s x : HasSuffix s x = true <-> exists w, s = w ++ x.
Proof.
  unfold HasSuffix. rewrite HasPrefix_spec. split; intros [w H].
  - exists (rev w). rewrite <- (rev_involutive s), H, rev_app_distr, rev_involutive. done.
  - exists (rev w). by rewrite H, rev_app_distr.
Qed.

(** [strings.Index]: the first position at which [sub] occurs. *)
Fixpoint Index (s sub : bytes) : option nat :=
  if HasPrefix s sub then Some 0%nat
  else match s with
       | [] => None
       | _ :: s' => S <$> Index s' sub
       end.

(** The earliest occurrence: nothing before it, and any decomposition of the
    text around [sub] starts at or after it. *)
Lemma Index_earliest s sub x y :
  s = x ++ sub ++ y ->
  exists i z, Index s sub = Some i /\ drop (i + length sub) s = z ++ y /\ (i <= length x)%nat.
Proof.
  revert s. induction x as [|c x IH]; intros s ->; simpl.
  { exists 0%nat, []. split.
    - assert (HasPrefix (sub ++ y) sub = true) as E by (apply HasPrefix_spec; by exists y).
      destruct (sub ++ y); simpl; by rewrite E.
    - split; [|lia]. simpl. by rewrite drop_app_length. }
  destruct (HasPrefix (c :: x ++ sub ++ y) sub) eqn:E.
  - apply HasPrefix_spec in E as [w Hw].
    exists 0%nat, (take (length w - length y) w). split; [done|]. split; [|lia].
    rewrite Hw. simpl. rewrite drop_app_length.
    rewrite <- (take_drop (length w - length y) w) at 1. f_equal.
    assert (length y <= length w)%nat as Hle.
    { apply (f_equal length) in Hw. simpl in Hw. rewrite !length_app in Hw. lia. }
    assert (length (c :: x ++ sub) = length sub + (length w - length y))%nat as Hk.
    { apply (f_equal length) in Hw. simpl in *. rewrite !length_app in *. lia. }
    apply (f_equal (drop (length sub + (length w - length y)))) in Hw.
    rewrite drop_app_add in Hw. rewrite <- Hw, <- Hk.
    change (c :: x ++ sub ++ y) with ((c :: x) ++ sub ++ y).
    rewrite app_assoc. by rewrite drop_app_length.
  - destruct (IH (x ++ sub ++ y) eq_refl) as (i & z & Hi & Hd & Hl).
    exists (S i), z. rewrite Hi. split; [done|]. simpl. split; [done|lia].
Qed.

Lemma Index_sound s sub i :
  Index s sub = Some i -> exists x y, s = x ++ sub ++ y /\ drop (i + length sub) s = y.
Proof.
  revert i. induction s as [|c s IH]; intros i; simpl.
  - destruct (HasPrefix [] sub) eqn:E; [|done]. intros [= <-].
    apply HasPrefix_spec in E as [w Hw]. exists [], w. split; [done|].
    rewrite Hw. simpl. by rewrite drop_app_length.
  - destruct (HasPrefix (c :: s) sub) eqn:E.
    + intros [= <-]. apply HasPrefix_spec in E as [w Hw]. exists [], w. split; [done|].
      rewrite Hw. simpl. by rewrite drop_app_length.
    + destruct (Index s sub) as [j|]; [|done]. intros [= <-].
      destruct (IH j eq_refl) as (x & y & -> & Hd). exists (c :: x), y. split; [done|].
      simpl. done.
Qed.

(** [strings.Split] with a one-byte separator. *)
Fixpoint SplitOn (sep : ascii) (s : bytes) : list bytes :=
  match s with
  | [] => [[]]
  | c :: s' =>
      if bool_decide (c = sep) then [] :: SplitOn sep s'
      else match SplitOn sep s' with
           | [] => [[c]]
           | w :: ws => (c :: w) :: ws
           end
  end.

Lemma SplitOn_nonempty sep s : SplitOn sep s <> [].
Proof.
  induction s as [|c s IH]; simpl; [done|].
  case_bool_decide; [done|]. by destruct (SplitOn sep s).
Qed.

(** ** White space *)

Definition isSpace (c : ascii) : bool :=
  let n := nat_of_ascii c in
  (((9 <=? n)%nat && (n <=? 13)%nat) || (n =? 32)%nat)%bool.

Fixpoint trimLeft (s : bytes) : bytes :=
  match s with
  | c :: s' => if isSpace c then trimLeft s' else s
  | [] => []
  end.

Definition TrimSpace (s : bytes) : bytes := rev (trimLeft (rev (trimLeft s))).

(** [strings.ContainsAny] *)
Definition ContainsAny (s chars : bytes) : bool :=
  existsb (fun c => bool_decide (c ∈ chars)) s.

(** [strings.Cut] at a one-byte separator: before, after, found. *)
Fixpoint CutAt (sep : ascii) (s : bytes) : option (bytes * bytes) :=
  match s with
  | [] => None
  | c :: s' =>
      if bool_decide (c = sep) then Some ([], s')
      else match CutAt sep s' with
           | Some (a, b) => Some (c :: a, b)
           | None => None
           end
  end.

Lemma CutAt_Some sep s a b : CutAt sep s = Some (a, b) <-> s = a ++ sep :: b /\ sep ∉ a.
Proof.
  revert a b. induction s as [|c s IH]; intros a b; simpl.
  { split; [done|]. intros [H _]. by destruct a. }
  case_bool_decide as E.
  - subst c. split.
    + intros [= <- <-]. split; [done|]. apply not_elem_of_nil.
    + intros [H Hn]. destruct a as [|d a]; [by injection H as ->|].
      injection H as <- _. exfalso. apply Hn. left.
  - destruct (CutAt sep s) as [[a' b']|].
    + split.
      * intros [= <- <-]. destruct (proj1 (IH a' b') eq_refl) as [-> Hn].
        split; [done|]. rewrite not_elem_of_cons. by split.
      * intros [H Hn]. destruct a as [|d a]; [by injection H|]. injection H as <- H.
        rewrite not_elem_of_cons in Hn. destruct Hn as [_ Hn].
        by injection (proj2 (IH a b) (conj H Hn)) as -> ->.
    + split; [done|]. intros [H Hn]. destruct a as [|d a]; [by injection H|].
      injection H as <- H. rewrite not_elem_of_cons in Hn. destruct Hn as [_ Hn].
      by pose proof (proj2 (IH a b) (conj H Hn)).
Qed.

(** [strings.Join]. *)
Fixpoint Join (parts : list string) (sep : string) : string :=
  match parts with
  | [] => ""
  | [p] => p
  | p :: rest => (p +:+ sep +:+ Join rest sep)%string
  end.

(** ** Decimal numbers contain no separator *)

Lemma pretty_N_go_free x s :
  "/"%char ∉ bytesOf s -> "/"%char ∉ bytesOf (pretty_N_go x s).
Proof.
  revert s. induction (N.lt_wf_0 x) as [x _ IH]; intros s Hs.
  assert (x = 0 ∨ 0 < x)%N as [->|Hx] by lia; [by rewrite pretty_N_go_0|].
  rewrite pretty_N_go_step by done. apply IH; [by apply N.div_lt|].
  unfold bytesOf. simpl. rewrite not_elem_of_cons. split; [|done].
  unfold pretty_N_char. by repeat case_match.
Qed.

Lemma pretty_Z_free (x : Z) : "/"%char ∉ bytesOf (pretty x).
Proof.
  assert (forall n : N, "/"%char ∉ bytesOf (pretty n)) as Hn.
  { intros n. unfold pretty, pretty_N. case_decide.
    - apply (bool_decide_unpack _). by vm_compute.
    - apply pretty_N_go_free, not_elem_of_nil. }
  destruct x; unfold pretty, pretty_Z.
  - apply (bool_decide_unpack _). by vm_compute.
  - apply Hn.
  - unfold bytesOf. simpl. rewrite not_elem_of_cons. split; [done|apply Hn].
Qed.

(** The last separator of a string is found from either side. *)
Lemma split_last_unique {A} (c : A) a b a' b' :
  a ++ c :: b = a' ++ c :: b' -> c ∉ b -> c ∉ b' -> a = a' /\ b = b'.
Proof.
  revert a'. induction a as [|x a IH]; intros [|x' a'] H Hb Hb'; simpl in H.
  - by injection H as ->.
  - injection H as -> ->. exfalso. apply Hb. rewrite elem_of_app. right. left.
  - injection H as -> <-. exfalso. apply Hb'. rewrite elem_of_app. right. left.
  - injection H as -> H. destruct (IH a' H Hb Hb') as [-> ->]. done.
Qed.
