(* ===== verification/Liveness.v ===== *)
(** * Guest liveness (internal/domain/guestliveness.go)

    The three-valued guest probe, the accumulator a caller carries between
    probes, and the bound that turns an unbroken run of refusals into a verdict.
    [trailing] is the specification: the times of the refusals at the newest end
    of a probe history.  The accumulator is shown to be a summary of it, and the
    verdict to be a statement about it. *)

From Stdlib Require Import ZArith Lia.
From stdpp Require Import base tactics list strings.
From S2P Require Import Prelude.

Inductive GuestLiveness :=
  | GuestLivenessUnknown
  | GuestLivenessAlive
  | GuestLivenessRefused
  | GuestLivenessOther (s : string).

#[export] Instance GuestLiveness_eq_dec : EqDecision GuestLiveness.
Proof. solve_decision. Defined.

Record GuestLivenessPolicy := {
  ConsecutiveRefusals : Z;
  Window : Duration
}.

Definition Enabled (p : GuestLivenessPolicy) : bool :=
  (0 <? ConsecutiveRefusals p) && (0 <? Window p).

Record GuestLivenessState := {
  Refusals : Z;
  RefusedSince : Time;
  LastAlive : Time;
  LastProbe : Time
}.

Definition zeroGuestLivenessState : GuestLivenessState :=
  {| Refusals := 0; RefusedSince := zeroTime; LastAlive := zeroTime; LastProbe := zeroTime |}.

Definition Observe (p : GuestLivenessPolicy) (state : GuestLivenessState)
    (liveness : GuestLiveness) (now : Time) : GuestLivenessState :=
  match liveness with
  | GuestLivenessRefused =>
      {| Refusals := add64 (Refusals state) 1;
         RefusedSince := if IsZero (RefusedSince state) then now else RefusedSince state;
         LastAlive := LastAlive state; LastProbe := now |}
  | GuestLivenessAlive =>
      {| Refusals := 0; RefusedSince := zeroTime; LastAlive := now; LastProbe := now |}
  | _ =>
      {| Refusals := 0; RefusedSince := zeroTime;
         LastAlive := LastAlive state; LastProbe := now |}
  end.

(** [Silence]: the duration, and whether it is a measurable fact. *)
Definition Silence (s : GuestLivenessState) (now : Time) : Duration * bool :=
  if IsZero (RefusedSince s) || Before now (RefusedSince s)
  then (0, false)
  else (TimeSub now (RefusedSince s), true).

Definition Confirmed (p : GuestLivenessPolicy) (state : GuestLivenessState) (now : Time) : bool :=
  if negb (Enabled p) || (Refusals state <? ConsecutiveRefusals p) then false
  else let '(silence, measured) := Silence state now in
       measured && (Window p <=? silence).

(** ** Probe histories, newest first *)

Abbreviation probe := (prod GuestLiveness Time).

Fixpoint observed (p : GuestLivenessPolicy) (h : list probe) : GuestLivenessState :=
  match h with
  | [] => zeroGuestLivenessState
  | (l, t) :: h' => Observe p (observed p h') l t
  end.

(** The times of the unbroken run of refusals at the newest end, newest first. *)
Fixpoint trailing (h : list probe) : list Time :=
  match h with
  | (GuestLivenessRefused, t) :: h' => t :: trailing h'
  | _ => []
  end.

(** When the run began: its oldest refusal, zero when there is no run. *)
Definition runBegan (h : list probe) : Time := List.last (trailing h) zeroTime.

Arguments runBegan : simpl never.

Definition dated (h : list probe) : Prop := Forall (fun pr : probe => snd pr <> zeroTime) h.

Lemma trailing_length h : (length (trailing h) <= length h)%nat.
Proof. induction h as [|[[] t] h IH]; simpl; lia. Qed.

Lemma trailing_dated h : dated h -> Forall (fun t => t <> zeroTime) (trailing h).
Proof.
  induction 1 as [|[[] t] h Ht Hh IH]; simpl in *; constructor; auto.
Qed.

Lemma last_In {A} (l : list A) d : l <> [] -> In (List.last l d) l.
Proof.
  induction l as [|x l IH]; [done|]. intros _.
  destruct l as [|y l]; [by left|]. right. by apply IH.
Qed.

Lemma runBegan_zero h : dated h -> (runBegan h = zeroTime <-> trailing h = []).
Proof.
  intros Hd. apply trailing_dated in Hd. unfold runBegan. split.
  - intros E. destruct (trailing h) as [|t l] eqn:T; [done|].
    exfalso. rewrite List.Forall_forall in Hd.
    eapply Hd; [|exact E]. by apply last_In.
  - by intros ->.
Qed.

(** The bound takes no part in accumulating. *)
Lemma observed_policy p q h : observed p h = observed q h.
Proof. induction h as [|[l t] h IH]; simpl; [done|]. by rewrite IH. Qed.

(** The accumulator is a summary of the history. *)
Lemma observed_summary p h :
  dated h -> Z.of_nat (length h) <= maxInt64 ->
  Refusals (observed p h) = Z.of_nat (length (trailing h)) /\
  RefusedSince (observed p h) = runBegan h.
Proof.
  induction h as [|[l t] h IH]; intros Hd Hlen; [done|].
  inversion_clear Hd as [|? ? Ht Hd']. simpl in Ht, Hlen.
  destruct (IH Hd') as [IR IS]; [lia|].
  pose proof (trailing_length h) as Htl.
  destruct l; simpl; try done.
  rewrite IR, IS. split.
  - rewrite add64_exact; [lia|]. unfold int64, minInt64. lia.
  - assert (runBegan ((GuestLivenessRefused, t) :: h)
      = match trailing h with [] => t | _ => runBegan h end) as ->
      by (unfold runBegan; simpl; by destruct (trailing h)).
    unfold IsZero. pose proof (runBegan_zero h Hd') as Hz.
    destruct (Z.eqb_spec (runBegan h) 0) as [E|E].
    + apply Hz in E. by rewrite E.
    + destruct (trailing h) eqn:T; [|done].
      exfalso. apply E. by apply Hz.
Qed.

(** The verdict, read off the history. *)
Lemma Confirmed_trailing (p : GuestLivenessPolicy) (h : list probe) (now : Time)
    (Hd : dated h) (Hlen : Z.of_nat (length h) <= maxInt64) (Hnow : int64 (now - runBegan h)) :
  Confirmed p (observed p h) now = true <->
  0 < ConsecutiveRefusals p /\ 0 < Window p /\
  ConsecutiveRefusals p <= Z.of_nat (length (trailing h)) /\
  Window p <= now - runBegan h.
Proof.
  destruct (observed_summary p h Hd Hlen) as [HR HS].
  unfold Confirmed, Silence, Enabled. rewrite HR, HS.
  unfold IsZero, Before.
  pose proof (runBegan_zero h Hd) as Hz.
  assert (runBegan h = 0 -> trailing h = []) as Hz' by apply Hz.
  rewrite (TimeSub_exact _ _ Hnow).
  destruct (Z.ltb_spec 0 (ConsecutiveRefusals p)), (Z.ltb_spec 0 (Window p)),
    (Z.ltb_spec (Z.of_nat (length (trailing h))) (ConsecutiveRefusals p)),
    (Z.eqb_spec (runBegan h) 0) as [E|E], (Z.ltb_spec now (runBegan h)); simpl;
    rewrite ?Z.leb_le; try (split; [done|lia]); try lia.
  all: rewrite (Hz' E) in *; simpl in *; split; [done|lia].
Qed.

(** a guest is confirmed dead exactly when the policy states both bounds and the unbroken
    run of refusals at the end of the probe history is at least as long as the count and began at
    least the window ago; an answered or inconclusive probe anywhere in between resets both. *)
Theorem guest_confirmed_iff_trailing_run (p : GuestLivenessPolicy) (h : list probe) (now : Time)
    (Hd : dated h) (Hlen : Z.of_nat (length h) <= maxInt64) (Hnow : int64 (now - runBegan h)) :
  Confirmed p (observed p h) now = true <->
  0 < ConsecutiveRefusals p /\ 0 < Window p /\
  ConsecutiveRefusals p <= Z.of_nat (length (trailing h)) /\
  Window p <= now - runBegan h.
Proof. by apply Confirmed_trailing. Qed.

Lemma guest_confirmed_iff_trailing_run_witness :
  Confirmed {| ConsecutiveRefusals := 3; Window := 45 |}
    (observed {| ConsecutiveRefusals := 3; Window := 45 |}
       [(GuestLivenessRefused, 60); (GuestLivenessRefused, 30); (GuestLivenessRefused, 10);
        (GuestLivenessAlive, 5)]) 60 = true.
Proof.
  apply (guest_confirmed_iff_trailing_run {| ConsecutiveRefusals := 3; Window := 45 |}
    [(GuestLivenessRefused, 60); (GuestLivenessRefused, 30); (GuestLivenessRefused, 10);
     (GuestLivenessAlive, 5)] 60).
  - repeat constructor; discriminate.
  - vm_compute. discriminate.
  - vm_compute. split; discriminate.
  - vm_compute. repeat split; discriminate.
Defined.
