(* ===== verification/Domain.v ===== *)
(** * The domain vocabulary (internal/domain/domain.go)

    Demand keys, observations, resource vectors, profiles, demands, the instance
    state machine, instances and what they charge the host, the host mode and
    the name and image grammars.  A Go string type with named constants is an
    inductive type with those constants and one constructor for any other
    string, because the source has a default branch for it. *)

From Stdlib Require Import ZArith Lia String Ascii.
From stdpp Require Import base tactics list gmap strings pretty relations.
From S2P Require Import Prelude GoStrings Liveness.

(** ** Demand keys *)

Record DemandKey := {
  key_Repo : string;
  key_RunID : Z;
  key_Attempt : Z;
  key_JobID : Z
}.

#[export] Instance DemandKey_eq_dec : EqDecision DemandKey.
Proof. solve_decision. Defined.

#[export] Instance DemandKey_countable : Countable DemandKey.
Proof.
  refine (inj_countable'
    (fun k => (key_Repo k, key_RunID k, key_Attempt k, key_JobID k))
    (fun '(r, n, a, j) => {| key_Repo := r; key_RunID := n; key_Attempt := a; key_JobID := j |}) _).
  by intros [].
Defined.

Definition zeroDemandKey : DemandKey :=
  {| key_Repo := ""; key_RunID := 0; key_Attempt := 0; key_JobID := 0 |}.

Definition DemandKey_String (k : DemandKey) : string :=
  (key_Repo k +:+ "/" +:+ pretty (key_RunID k) +:+ "/" +:+ pretty (key_Attempt k)
    +:+ "/" +:+ pretty (key_JobID k))%string.

(** [Validate] returns an error; [true] is the nil error. *)
Definition DemandKey_Validate (k : DemandKey) : bool :=
  negb (bool_decide (key_Repo k = "") || (key_RunID k <=? 0) || (key_Attempt k <=? 0)
        || (key_JobID k <=? 0)).

(** ** Observations *)

Inductive ObservationState :=
  | ObservationFresh
  | ObservationStale
  | ObservationUnavailable
  | ObservationOther (s : string).

#[export] Instance ObservationState_eq_dec : EqDecision ObservationState.
Proof. solve_decision. Defined.

Record Observation (T : Type) := {
  obs_State : ObservationState;
  obs_Value : T;
  obs_ObservedAt : Time;
  obs_Reason : string
}.
Arguments obs_State {T}. Arguments obs_Value {T}.
Arguments obs_ObservedAt {T}. Arguments obs_Reason {T}.
Arguments Build_Observation {T}.

Definition Fresh {T} (value : T) (observedAt : Time) : Observation T :=
  Build_Observation ObservationFresh value observedAt "".

Definition Stale {T} (value : T) (observedAt : Time) (reason : string) : Observation T :=
  Build_Observation ObservationStale value observedAt reason.

(** The zero value of the type parameter is passed explicitly. *)
Definition Unavailable {T} (zero : T) (reason : string) : Observation T :=
  Build_Observation ObservationUnavailable zero zeroTime reason.

Definition Usable {T} (o : Observation T) : bool :=
  bool_decide (obs_State o = ObservationFresh).

(** ** Resource vectors *)

Record Resources := { CPU : Z; MemoryMB : Z; Slots : Z }.

#[export] Instance Resources_eq_dec : EqDecision Resources.
Proof. solve_decision. Defined.

Definition zeroResources : Resources := {| CPU := 0; MemoryMB := 0; Slots := 0 |}.

Definition Add (r other : Resources) : Resources :=
  {| CPU := add64 (CPU r) (CPU other);
     MemoryMB := add64 (MemoryMB r) (MemoryMB other);
     Slots := add64 (Slots r) (Slots other) |}.

Definition CanFit (r required : Resources) : bool :=
  (CPU required <=? CPU r) && (MemoryMB required <=? MemoryMB r) && (Slots required <=? Slots r).

Definition Sub (r other : Resources) : Resources * bool :=
  if negb (CanFit r other) then (zeroResources, false)
  else ({| CPU := sub64 (CPU r) (CPU other);
           MemoryMB := sub64 (MemoryMB r) (MemoryMB other);
           Slots := sub64 (Slots r) (Slots other) |}, true).

(** ** Profiles and demands *)

Inductive Platform :=
  | PlatformLinux
  | PlatformMacOS
  | PlatformOther (s : string).

#[export] Instance Platform_eq_dec : EqDecision Platform.
Proof. solve_decision. Defined.

Abbreviation Route := string (only parsing).
Abbreviation ProfileID := string (only parsing).

Inductive SchedulingClass :=
  | SchedulingStandard
  | SchedulingControlPlane
  | SchedulingOther (s : string).

#[export] Instance SchedulingClass_eq_dec : EqDecision SchedulingClass.
Proof. solve_decision. Defined.

Record Profile := {
  profile_ID : ProfileID;
  profile_Platform : Platform;
  profile_Route : Route;
  profile_Resources : Resources;
  profile_MaxActive : Z;
  profile_OccupancyBudget : Duration
}.

Definition zeroProfile : Profile :=
  {| profile_ID := ""; profile_Platform := PlatformOther ""; profile_Route := "";
     profile_Resources := zeroResources; profile_MaxActive := 0;
     profile_OccupancyBudget := 0 |}.

Inductive Event :=
  | EventPullRequest
  | EventPush
  | EventSchedule
  | EventOther (s : string).

#[export] Instance Event_eq_dec : EqDecision Event.
Proof. solve_decision. Defined.

Inductive RunStatus :=
  | RunQueued
  | RunInProgress
  | RunOther (s : string).

#[export] Instance RunStatus_eq_dec : EqDecision RunStatus.
Proof. solve_decision. Defined.

(** [Priority] of internal/domain/priority.go: a demand's resolved tier. *)
Record Priority := { Tier : string; Rank : Z }.

#[export] Instance Priority_eq_dec : EqDecision Priority.
Proof. solve_decision. Defined.

Definition zeroPriority : Priority := {| Tier := ""; Rank := 0 |}.

Record Demand := {
  demand_Key : DemandKey;
  demand_CreatedAt : Time;
  demand_NotBefore : Time;
  demand_Profile : ProfileID;
  demand_Route : Route;
  demand_Platform : Platform;
  demand_Event : Event;
  demand_RunStatus : RunStatus;
  demand_Priority : Priority
}.

#[export] Instance Demand_eq_dec : EqDecision Demand.
Proof. solve_decision. Defined.

(** [domain.Demand{Key: k}]. *)
Definition keyedDemand (k : DemandKey) : Demand :=
  {| demand_Key := k; demand_CreatedAt := zeroTime; demand_NotBefore := zeroTime;
     demand_Profile := ""; demand_Route := ""; demand_Platform := PlatformOther "";
     demand_Event := EventOther ""; demand_RunStatus := RunOther "";
     demand_Priority := zeroPriority |}.

(** ** The instance state machine *)

Inductive InstanceState :=
  | InstancePlanned
  | InstanceCloning
  | InstanceBooting
  | InstanceReachable
  | InstanceRegistering
  | InstanceOnlineIdle
  | InstanceAssigned
  | InstanceRunning
  | InstanceDraining
  | InstanceDeregistering
  | InstanceStopping
  | InstanceDeleted
  | InstanceFailed
  | InstanceOther (s : string).

#[export] Instance InstanceState_eq_dec : EqDecision InstanceState.
Proof. solve_decision. Defined.

Definition state_eqb (a b : InstanceState) : bool := bool_decide (a = b).

Definition CanTransitionTo (s next : InstanceState) : bool :=
  if negb (state_eqb s InstanceDeleted) && negb (state_eqb s InstanceFailed)
     && state_eqb next InstanceFailed then true
  else match s with
  | InstancePlanned => state_eqb next InstanceCloning || state_eqb next InstanceDraining
  | InstanceCloning => state_eqb next InstanceBooting || state_eqb next InstanceDraining
  | InstanceBooting => state_eqb next InstanceReachable || state_eqb next InstanceDraining
  | InstanceReachable => state_eqb next InstanceRegistering || state_eqb next InstanceDraining
  | InstanceRegistering => state_eqb next InstanceOnlineIdle || state_eqb next InstanceAssigned
  | InstanceOnlineIdle => state_eqb next InstanceAssigned || state_eqb next InstanceDraining
  | InstanceAssigned =>
      state_eqb next InstanceRunning || state_eqb next InstanceOnlineIdle
      || state_eqb next InstanceDraining
  | InstanceRunning => state_eqb next InstanceDraining
  | InstanceDraining => state_eqb next InstanceDeregistering || state_eqb next InstanceRunning
  | InstanceDeregistering => state_eqb next InstanceStopping
  | InstanceStopping => state_eqb next InstanceDeleted
  | InstanceFailed => state_eqb next InstancePlanned
  | _ => false
  end.

Definition TearingDown (s : InstanceState) : bool :=
  match s with
  | InstanceDraining | InstanceDeregistering | InstanceStopping => true
  | _ => false
  end.

Definition Provisioning (s : InstanceState) : bool :=
  state_eqb s InstanceCloning || state_eqb s InstanceBooting || state_eqb s InstanceReachable.

(** ** Power readings *)

Inductive InstancePower :=
  | InstancePowerUnknown
  | InstancePowerRunning
  | InstancePowerStopped
  | InstancePowerAbsent
  | InstancePowerOther (s : string).

#[export] Instance InstancePower_eq_dec : EqDecision InstancePower.
Proof. solve_decision. Defined.

Definition ProvenIdle (p : InstancePower) : bool :=
  bool_decide (p = InstancePowerStopped) || bool_decide (p = InstancePowerAbsent).

Inductive PowerReadReason :=
  | PowerReadOK
  | PowerReadPermission
  | PowerReadDescriptors
  | PowerReadMemory
  | PowerReadInterrupted
  | PowerReadIO
  | PowerReadTimeout
  | PowerReadMissing
  | PowerReadOther
  | PowerReadUnlisted (s : string).

#[export] Instance PowerReadReason_eq_dec : EqDecision PowerReadReason.
Proof. solve_decision. Defined.

Record PowerReadFailure := { failure_Reason : PowerReadReason; failure_Latency : Duration }.

Definition zeroPowerReadFailure : PowerReadFailure :=
  {| failure_Reason := PowerReadOK; failure_Latency := 0 |}.

Definition Unreadable (f : PowerReadFailure) : bool :=
  negb (bool_decide (failure_Reason f = PowerReadOK)).

(** ** Instances *)

Record Instance_ := {
  inst_ID : string;
  inst_Repo : string;
  inst_Demand : DemandKey;
  inst_Platform : Platform;
  inst_Profile : ProfileID;
  inst_Route : Route;
  inst_Resources : Resources;
  inst_State : InstanceState;
  inst_Power : InstancePower;
  inst_RecoveryReady : bool;
  inst_AssignedSince : Time;
  inst_RunningSince : Time;
  inst_ProvisioningSince : Time;
  inst_JobInactive : bool;
  inst_OccupiedSince : Time;
  inst_Guest : GuestLivenessState;
  inst_PowerRun : GuestLivenessState;
  inst_PowerUnreadable : PowerReadFailure;
  inst_PowerRetracted : bool;
  inst_Attempts : Z;
  inst_RetryAt : Time
}.

(** A composite literal that names only the first nine fields. *)
Definition instanceLiteral (id repo : string) (demand : DemandKey) (platform : Platform)
    (profile : ProfileID) (route : Route) (resources : Resources) (state : InstanceState)
    (power : InstancePower) : Instance_ :=
  {| inst_ID := id; inst_Repo := repo; inst_Demand := demand; inst_Platform := platform;
     inst_Profile := profile; inst_Route := route; inst_Resources := resources;
     inst_State := state; inst_Power := power; inst_RecoveryReady := false;
     inst_AssignedSince := zeroTime; inst_RunningSince := zeroTime;
     inst_ProvisioningSince := zeroTime; inst_JobInactive := false;
     inst_OccupiedSince := zeroTime; inst_Guest := zeroGuestLivenessState;
     inst_PowerRun := zeroGuestLivenessState; inst_PowerUnreadable := zeroPowerReadFailure;
     inst_PowerRetracted := false; inst_Attempts := 0; inst_RetryAt := zeroTime |}.

Definition Live (i : Instance_) : bool := negb (state_eqb (inst_State i) InstanceDeleted).

Definition IncarnatesDemand (i : Instance_) : bool :=
  negb (bool_decide (inst_Demand i = zeroDemandKey))
  && negb (state_eqb (inst_State i) InstanceDeleted)
  && negb (state_eqb (inst_State i) InstanceFailed).

Definition HoldsAssignment (i : Instance_) : bool :=
  IncarnatesDemand i && negb (TearingDown (inst_State i)).

Definition ConsumesHostResources (i : Instance_) : bool :=
  if negb (Live i) then false
  else if negb (TearingDown (inst_State i)) || negb (ProvenIdle (inst_Power i)) then true
  else negb (bool_decide (inst_Power i = InstancePowerAbsent))
       && negb (state_eqb (inst_State i) InstanceStopping).

Definition Occupancy_ (i : Instance_) (now : Time) : Duration * bool :=
  if negb (ConsumesHostResources i) || IsZero (inst_OccupiedSince i)
     || Before now (inst_OccupiedSince i)
  then (0, false)
  else (TimeSub now (inst_OccupiedSince i), true).

Definition CanRetry (i : Instance_) (now : Time) (maxAttempts : Z) : bool :=
  state_eqb (inst_State i) InstanceFailed && (0 <? maxAttempts)
  && (inst_Attempts i <? maxAttempts) && negb (Before now (inst_RetryAt i)).

(** ** The host *)

Inductive HostMode := HostIdle | HostLinux | HostMacOS | HostMixed.

(** [None] is the error "unknown live instance platform". *)
Fixpoint hostPlatforms (instances : list Instance_) (linux macos : bool) : option (bool * bool) :=
  match instances with
  | [] => Some (linux, macos)
  | i :: rest =>
      if negb (ConsumesHostResources i) then hostPlatforms rest linux macos
      else match inst_Platform i with
           | PlatformLinux => hostPlatforms rest true macos
           | PlatformMacOS => hostPlatforms rest linux true
           | PlatformOther _ => None
           end
  end.

Definition DeriveHostMode (instances : list Instance_) : option HostMode :=
  match hostPlatforms instances false false with
  | None => None
  | Some (true, true) => Some HostMixed
  | Some (true, false) => Some HostLinux
  | Some (false, true) => Some HostMacOS
  | Some (false, false) => Some HostIdle
  end.

(** The pressure snapshot is carried for operators; its floating-point readings
    take no part in any decision modelled here and are left out. *)
Record HostPressure := {
  AvailableMemoryMB : Z;
  FreeDiskGB : Z;
  SwapUsedMB : Z;
  SwapOuts : Z;
  SwapOutRateObserved : bool;
  AdmissionAllowed : bool;
  AdmissionReason : string;
  FreeInodes : Z;
  TotalInodes : Z
}.

Definition zeroHostPressure : HostPressure :=
  {| AvailableMemoryMB := 0; FreeDiskGB := 0; SwapUsedMB := 0; SwapOuts := 0;
     SwapOutRateObserved := false; AdmissionAllowed := false; AdmissionReason := "";
     FreeInodes := 0; TotalInodes := 0 |}.

Record Host := {
  host_Available : Resources;
  host_Capacity : Resources;
  host_Pressure : HostPressure
}.

Record Reservation := {
  res_Demand : DemandKey;
  res_Profile : ProfileID;
  res_Resources : Resources;
  res_Since : Time
}.

(** ** Names and image references *)

Definition isAlnum (c : ascii) : bool :=
  let n := nat_of_ascii c in
  ((48 <=? n)%nat && (n <=? 57)%nat) || ((65 <=? n)%nat && (n <=? 90)%nat)
  || ((97 <=? n)%nat && (n <=? 122)%nat).

(** The class [[A-Za-z0-9._-]]. *)
Definition isNameChar (c : ascii) : bool :=
  isAlnum c || bool_decide (c = "."%char) || bool_decide (c = "_"%char) || bool_decide (c = "-"%char).

(** [^[A-Za-z0-9][A-Za-z0-9._-]{0,127}$]: no newline is in the class, so [$]
    without the multi-line flag is the end of the text. *)
Definition instanceName (name : string) : bool :=
  match name with
  | EmptyString => false
  | String c rest =>
      isAlnum c && forallb isNameChar (list_ascii_of_string rest)
      && (String.length rest <=? 127)%nat
  end.

Definition ValidateInstanceName (name : string) : bool :=
  negb (negb (instanceName name) || bool_decide (name = ".") || bool_decide (name = "..")).

Definition ValidateImageReference (image : string) : bool :=
  let b := bytesOf image in
  if bool_decide (image = "") || negb (bool_decide (TrimSpace b = b)) then false
  else if HasPrefix b ["-"%char] then false
  else negb (ContainsAny b [" "; "009"; "010"; "013"; "000"]%char).

(** ** Lemmas on resource vectors

    [vadd], [vsum] and [vle] are the exact integer vectors the wrapped Go
    arithmetic is compared with. *)

Definition vadd (a b : Resources) : Resources :=
  {| CPU := CPU a + CPU b; MemoryMB := MemoryMB a + MemoryMB b; Slots := Slots a + Slots b |}.

Definition vsum (l : list Resources) : Resources := foldr vadd zeroResources l.

Definition vle (a b : Resources) : Prop :=
  CPU a <= CPU b /\ MemoryMB a <= MemoryMB b /\ Slots a <= Slots b.

Definition nonneg (r : Resources) : Prop := vle zeroResources r.

Definition in_range (r : Resources) : Prop :=
  CPU r <= maxInt64 /\ MemoryMB r <= maxInt64 /\ Slots r <= maxInt64.

Ltac vec :=
  unfold nonneg, in_range, vle, vadd, zeroResources in *; simpl in *;
  repeat match goal with H : _ /\ _ |- _ => destruct H end;
  repeat split; try lia.

#[export] Instance vle_preorder : PreOrder vle.
Proof. split; [intros a; vec|intros a b c ??; vec]. Qed.

Lemma vadd_comm a b : vadd a b = vadd b a.
Proof. unfold vadd. f_equal; lia. Qed.

Lemma vadd_assoc a b c : vadd a (vadd b c) = vadd (vadd a b) c.
Proof. unfold vadd. simpl. f_equal; lia. Qed.

Lemma vadd_zero_l a : vadd zeroResources a = a.
Proof. by destruct a. Qed.

Lemma vadd_zero_r a : vadd a zeroResources = a.
Proof. rewrite vadd_comm. apply vadd_zero_l. Qed.

Lemma vsum_app l1 l2 : vsum (l1 ++ l2) = vadd (vsum l1) (vsum l2).
Proof.
  induction l1 as [|x l1 IH]; simpl; [by rewrite vadd_zero_l|].
  by rewrite IH, vadd_assoc.
Qed.

Lemma vsum_nonneg l : Forall nonneg l -> nonneg (vsum l).
Proof. induction 1; [vec|]. simpl. vec. Qed.

#[export] Instance vsum_perm : Proper (Permutation ==> eq) vsum.
Proof.
  induction 1; simpl; try congruence.
  by rewrite !vadd_assoc, (vadd_comm y x).
Qed.

Lemma CanFit_spec r q : CanFit r q = true <-> vle q r.
Proof.
  unfold CanFit, vle. rewrite !andb_true_iff, !Z.leb_le. tauto.
Qed.

Lemma CanFit_mono r r' q : vle r r' -> CanFit r q = true -> CanFit r' q = true.
Proof. rewrite !CanFit_spec. intros ??. by etransitivity. Qed.

(** A subtraction that succeeds on non-negative in-range vectors is exact. *)
Lemma Sub_exact r q r' :
  nonneg q -> in_range r -> Sub r q = (r', true) -> vle q r /\ vadd q r' = r.
Proof.
  intros Hq Hr. unfold Sub. destruct (CanFit r q) eqn:E; [|done]. simpl.
  apply CanFit_spec in E. intros [= <-]. split; [done|].
  destruct q as [qc qm qs], r as [rc rm rs].
  unfold vadd, nonneg, in_range, vle in *; simpl in *.
  destruct Hq as (?&?&?), Hr as (?&?&?), E as (?&?&?).
  f_equal; rewrite sub64_exact; lia.
Qed.

Lemma Sub_fits r q : vle q r -> snd (Sub r q) = true.
Proof. intros H. apply CanFit_spec in H. unfold Sub. by rewrite H. Qed.

Lemma Sub_refused r q : snd (Sub r q) = false -> Sub r q = (zeroResources, false).
Proof. unfold Sub. by destruct (CanFit r q). Qed.

Lemma Add_exact a b :
  nonneg a -> nonneg b -> in_range (vadd a b) -> Add a b = vadd a b.
Proof.
  intros Ha Hb H. unfold Add, vadd. vec.
  f_equal; apply add64_exact; unfold int64, minInt64, maxInt64 in *; lia.
Qed.

#[export] Hint Resolve CanFit_mono Sub_fits vsum_nonneg : fleet.

(** ** Demand identities *)

(** The printed demand key is an identity: two keys that print alike are the same key,
    although a repository slug may itself contain slashes and digits. *)
Theorem demand_key_string_injective (k k' : DemandKey) :
  DemandKey_String k = DemandKey_String k' <-> k = k'.
Proof.
  split; [|by intros ->]. destruct k as [r n a j], k' as [r' n' a' j'].
  unfold DemandKey_String. simpl. intros H.
  apply (f_equal bytesOf) in H. rewrite !bytesOf_app in H.
  change (bytesOf "/") with ["/"%char] in H. simpl in H.
  assert (forall (u v w x : bytes), u ++ "/"%char :: v ++ "/"%char :: w ++ "/"%char :: x
    = ((u ++ "/"%char :: v) ++ "/"%char :: w) ++ "/"%char :: x) as Hre.
  { intros. by rewrite <- !app_assoc. }
  rewrite !Hre in H.
  apply split_last_unique in H as [H Hj]; [|apply pretty_Z_free..].
  apply split_last_unique in H as [H Ha]; [|apply pretty_Z_free..].
  apply split_last_unique in H as [H Hn]; [|apply pretty_Z_free..].
  apply bytesOf_inj in H, Hj, Ha, Hn.
  apply (inj pretty) in Hj, Ha, Hn. by subst.
Qed.

(** ** The instance state machine *)

Definition known (s : InstanceState) : Prop :=
  match s with InstanceOther _ => False | _ => True end.

(** One edge of the machine that is not the failure edge. *)
Definition edge (a b : InstanceState) : Prop :=
  CanTransitionTo a b = true /\ b <> InstanceFailed.

Definition committed (s : InstanceState) : Prop :=
  s = InstanceDeregistering \/ s = InstanceStopping \/ s = InstanceDeleted.

Lemma committed_edge a b : committed a -> edge a b -> committed b.
Proof.
  intros [->|[->| ->]] [H Hf]; unfold committed;
    destruct b; vm_compute in H; try discriminate; auto; by destruct Hf.
Qed.

(** past deregistration a teardown is committed: short of the failure edge, no sequence of
    transitions leads anywhere but deregistering, stopping and deleted, so the instance can never
    be handed a job again. *)
Theorem teardown_is_committed (s t : InstanceState)
    (Hs : s = InstanceDeregistering \/ s = InstanceStopping) (Hr : rtc edge s t) :
  t = InstanceDeregistering \/ t = InstanceStopping \/ t = InstanceDeleted.
Proof.
  assert (committed s) as Hc by (unfold committed; tauto). clear Hs.
  induction Hr as [|s m t He Hr IH]; [done|]. eauto using committed_edge.
Qed.

Lemma teardown_is_committed_witness :
  InstanceDeleted = InstanceDeregistering \/ InstanceDeleted = InstanceStopping
  \/ InstanceDeleted = InstanceDeleted.
Proof.
  apply (teardown_is_committed InstanceDeregistering InstanceDeleted); [by left|].
  apply (rtc_l _ _ InstanceStopping); [split; [reflexivity|discriminate]|].
  apply (rtc_l _ _ InstanceDeleted); [split; [reflexivity|discriminate]|apply rtc_refl].
Defined.

(** The shortest way out: the next state on a path to deletion. *)
Definition wayOut (s : InstanceState) : InstanceState :=
  match s with
  | InstanceRegistering => InstanceOnlineIdle
  | InstanceDraining => InstanceDeregistering
  | InstanceDeregistering => InstanceStopping
  | InstanceStopping => InstanceDeleted
  | InstanceFailed => InstancePlanned
  | _ => InstanceDraining
  end.

Lemma wayOut_edge s : known s -> s <> InstanceDeleted -> edge s (wayOut s).
Proof. intros Hk Hd. split; destruct s; by try reflexivity. Qed.

(** no state of the machine is a trap: from every state an instance can be in, a sequence of
    allowed transitions that never fails leads to deleted, and deleted is the only state with no
    way out. *)
Theorem every_instance_can_be_deleted (s : InstanceState) (Hk : known s) :
  rtc edge s InstanceDeleted /\
  ((forall n, CanTransitionTo s n = false) <-> s = InstanceDeleted).
Proof.
  split.
  - assert (forall t, known t -> t <> InstanceDeleted ->
      rtc edge (wayOut t) InstanceDeleted -> rtc edge t InstanceDeleted) as step.
    { intros t ???. eapply rtc_l; [by apply wayOut_edge|done]. }
    pose proof (rtc_refl edge InstanceDeleted) as Hd.
    pose proof (step InstanceStopping I ltac:(done) Hd) as Hs.
    pose proof (step InstanceDeregistering I ltac:(done) Hs) as Hg.
    pose proof (step InstanceDraining I ltac:(done) Hg) as Hn.
    pose proof (step InstancePlanned I ltac:(done) Hn) as Hp.
    pose proof (step InstanceOnlineIdle I ltac:(done) Hn) as Ho.
    destruct s; try done; by apply step.
  - split; [|by intros ->; intros []].
    intros H. destruct (decide (s = InstanceDeleted)) as [|Hne]; [done|].
    destruct (wayOut_edge s Hk Hne) as [E _]. by rewrite H in E.
Qed.

Lemma every_instance_can_be_deleted_witness :
  rtc edge InstanceRegistering InstanceDeleted.
Proof. apply (every_instance_can_be_deleted InstanceRegistering). exact I. Defined.

(** ** What an instance charges the host *)

(** an instance gives its resource vector back only when it is deleted, when it is tearing
    down and its VM is proven absent, or when it has reached stopping with its VM powered off; an
    unread power state and every non-cleanup state go on charging the host. *)
Theorem vector_released_only_on_proof (i : Instance_) :
  ConsumesHostResources i = false <->
  inst_State i = InstanceDeleted \/
  (TearingDown (inst_State i) = true /\ inst_Power i = InstancePowerAbsent) \/
  (inst_State i = InstanceStopping /\ inst_Power i = InstancePowerStopped).
Proof.
  unfold ConsumesHostResources, Live, ProvenIdle, state_eqb.
  destruct (inst_State i), (inst_Power i); simpl; intuition congruence.
Qed.

(** the host mode is read off the platforms of the instances that charge the host: it is an
    error exactly when one of them has an unknown platform, and otherwise names the platforms
    present. *)
Theorem host_mode_names_live_platforms (l : list Instance_) :
  let live p := existsb (fun i => ConsumesHostResources i && bool_decide (inst_Platform i = p)) l in
  DeriveHostMode l =
    if existsb (fun i => ConsumesHostResources i &&
         match inst_Platform i with PlatformOther _ => true | _ => false end) l then None
    else Some (match live PlatformLinux, live PlatformMacOS with
               | true, true => HostMixed
               | true, false => HostLinux
               | false, true => HostMacOS
               | false, false => HostIdle
               end).
Proof.
  simpl. unfold DeriveHostMode.
  assert (forall lx mc, hostPlatforms l lx mc =
    if existsb (fun i => ConsumesHostResources i &&
         match inst_Platform i with PlatformOther _ => true | _ => false end) l then None
    else Some (lx || existsb (fun i => ConsumesHostResources i
                 && bool_decide (inst_Platform i = PlatformLinux)) l,
               mc || existsb (fun i => ConsumesHostResources i
                 && bool_decide (inst_Platform i = PlatformMacOS)) l)) as ->.
  { induction l as [|i l IH]; intros lx mc; simpl; [by rewrite !orb_false_r|].
    destruct (ConsumesHostResources i); simpl; [|apply IH].
    destruct (inst_Platform i); simpl; rewrite ?IH; [..|done];
      split_match; try done; by rewrite ?orb_true_r. }
  destruct (existsb _ l); [done|]. simpl.
  by destruct (existsb _ l), (existsb _ l).
Qed.
