(* ===== verification/Corroboration.v ===== *)
(** * Corroborated readings and empty exits
      (internal/domain/corroboration.go, internal/domain/emptyexit.go)

    A destructive recovery may not rest on a single power reading: a [stopped]
    reading of an instance the fleet is not tearing down is reported as unknown
    until an unbroken run of them meets a bound, and a longer bound once the
    premise has been disproven about that instance.  Beside it, the backoff that
    spaces out launches for a demand whose instances keep leaving empty. *)

From Stdlib Require Import ZArith Lia.
From stdpp Require Import base tactics list strings.
From S2P Require Import Prelude Liveness Domain.

(** ** Power *)

Definition PowerSignal (power : InstancePower) : GuestLiveness :=
  match power with
  | InstancePowerRunning => GuestLivenessAlive
  | InstancePowerStopped => GuestLivenessRefused
  | _ => GuestLivenessUnknown
  end.

Definition PowerCorroboration : GuestLivenessPolicy :=
  {| ConsecutiveRefusals := 3; Window := 45 * Second |}.

Definition PowerRetractedFactor : Z := 8.

Definition powerBound (retracted : bool) : GuestLivenessPolicy :=
  if retracted
  then {| ConsecutiveRefusals := ConsecutiveRefusals PowerCorroboration;
          Window := mul64 (Window PowerCorroboration) PowerRetractedFactor |}
  else PowerCorroboration.

Definition CorroboratedPower (power : InstancePower) (state : InstanceState)
    (run : GuestLivenessState) (retracted : bool) (now : Time) : InstancePower :=
  if negb (bool_decide (power = InstancePowerStopped)) || TearingDown state
     || Confirmed (powerBound retracted) run now
  then power
  else InstancePowerUnknown.

(** A history of power readings, newest first, as probes. *)
Definition readings (h : list (InstancePower * Time)) : list probe :=
  map (fun '(p, t) => (PowerSignal p, t)) h.

(** for an instance the fleet is not tearing down, a stopped reading is passed on exactly when
    the newest readings are at least three consecutive stopped ones spanning at least 45 seconds
    (six minutes once the premise has been retracted); every other reading is passed on as it came,
    and an uncorroborated stop becomes unknown, never running or absent. *)
Theorem stopped_reading_needs_corroboration
    (h : list (InstancePower * Time)) (power : InstancePower) (state : InstanceState)
    (retracted : bool) (now : Time)
    (Hd : dated (readings h)) (Hlen : Z.of_nat (length h) <= maxInt64)
    (Hnow : int64 (now - runBegan (readings h))) (Hs : TearingDown state = false) :
  let run := observed PowerCorroboration (readings h) in
  let span := (if retracted then 360 else 45) * Second in
  CorroboratedPower power state run retracted now =
    if bool_decide (power = InstancePowerStopped)
    then if (3 <=? Z.of_nat (length (trailing (readings h))))
            && (span <=? now - runBegan (readings h))
         then InstancePowerStopped else InstancePowerUnknown
    else power.
Proof.
  simpl. unfold CorroboratedPower. rewrite Hs.
  case_bool_decide as E; simpl; [subst power|done].
  rewrite (observed_policy PowerCorroboration (powerBound retracted)).
  assert (Z.of_nat (length (readings h)) <= maxInt64) as Hlen'
    by (unfold readings; by rewrite length_map).
  pose proof (Confirmed_trailing (powerBound retracted) (readings h) now Hd Hlen' Hnow) as HC.
  assert (ConsecutiveRefusals (powerBound retracted) = 3) as Hc by by destruct retracted.
  assert (Window (powerBound retracted) = (if retracted then 360 else 45) * Second) as Hw
    by by destruct retracted.
  rewrite Hc, Hw in HC.
  assert (0 < (if retracted then 360 else 45) * Second) by by destruct retracted.
  destruct (Confirmed _ _ _), (3 <=? _) eqn:E1, (_ <=? now - _) eqn:E2; simpl; try done;
    bool_to_prop; exfalso; intuition (try discriminate; try lia).
Qed.

Lemma stopped_reading_needs_corroboration_witness :
  CorroboratedPower InstancePowerStopped InstanceRunning
    (observed PowerCorroboration (readings
      [(InstancePowerStopped, 100 * Second); (InstancePowerRunning, 50 * Second);
       (InstancePowerStopped, 40 * Second)])) false (100 * Second) = InstancePowerUnknown.
Proof.
  refine (stopped_reading_needs_corroboration
    [(InstancePowerStopped, 100 * Second); (InstancePowerRunning, 50 * Second);
     (InstancePowerStopped, 40 * Second)] InstancePowerStopped InstanceRunning false
    (100 * Second) _ _ _ eq_refl).
  - repeat constructor; vm_compute; discriminate.
  - vm_compute; discriminate.
  - vm_compute; split; discriminate.
Defined.

(** ** Empty exits *)

Record EmptyExits := {
  exits_Count : Z;
  exits_Last : Time;
  exits_Unassigned : Z;
  exits_Assigned : Time
}.

Record EmptyExitPolicy := {
  Tolerated : Z;
  Base : Duration;
  Cap : Duration
}.

Definition EmptyExitBackoff : EmptyExitPolicy :=
  {| Tolerated := 2; Base := 5 * Minute; Cap := 15 * Minute |}.

Definition Exceeded (p : EmptyExitPolicy) (exits : EmptyExits) : bool :=
  (0 <? Base p) && (Tolerated p <? exits_Count exits) && negb (IsZero (exits_Last exits)).

(** The doubling loop of [RetryAt]: [n] rounds, left early at the cap. *)
Fixpoint holdLoop (n : nat) (hold cap : Duration) : Duration :=
  match n with
  | O => hold
  | S n' => if cap <=? hold then hold else holdLoop n' (mul64 hold 2) cap
  end.

Definition RetryAt (p : EmptyExitPolicy) (exits : EmptyExits) : Time :=
  if negb (Exceeded p exits) then exits_Last exits
  else
    let hold := holdLoop (Z.to_nat (sub64 (sub64 (exits_Count exits) (Tolerated p)) 1))
                  (Base p) (Cap p) in
    TimeAdd (exits_Last exits) (Z.min hold (Cap p)).

Definition Holds (p : EmptyExitPolicy) (exits : EmptyExits) (now : Time) : bool :=
  Exceeded p exits && negb (After (exits_Last exits) now) && Before now (RetryAt p exits).

(** The loop computes the capped power of two, as long as doubling a value
    below the cap cannot leave the 64-bit range. *)
Lemma holdLoop_spec n hold cap :
  0 < hold -> 2 * cap <= maxInt64 ->
  Z.min (holdLoop n hold cap) cap = Z.min (hold * 2 ^ Z.of_nat n) cap.
Proof.
  revert hold. induction n as [|n IH]; intros hold Hh Hc.
  { simpl. f_equal. lia. }
  rewrite Nat2Z.inj_succ, Z.pow_succ_r by lia. simpl.
  assert (1 <= 2 ^ Z.of_nat n) by (apply (Z.pow_le_mono_r 2 0); lia).
  destruct (Z.leb_spec cap hold).
  - rewrite !Z.min_r; nia.
  - assert (mul64 hold 2 = hold * 2) as ->.
    { apply wrap64_id. unfold int64, minInt64. lia. }
    rewrite IH by lia. f_equal. nia.
Qed.

(** a demand whose instances left empty more often than tolerated is held for
    [min(Base * 2^(Count-Tolerated-1), Cap)] from the last exit, and for nothing when the exit lies
    ahead of the clock; so a hold never outlasts [Cap] and always ends by itself. *)
Theorem empty_exit_hold_is_capped_doubling (p : EmptyExitPolicy) (exits : EmptyExits) (now : Time)
    (Hb : 0 < Base p) (Hc : 2 * Cap p <= maxInt64)
    (Ht : 0 <= Tolerated p < exits_Count exits) (Hn : exits_Count exits <= maxInt64)
    (Hl : exits_Last exits <> zeroTime) :
  let hold := Z.min (Base p * 2 ^ (exits_Count exits - Tolerated p - 1)) (Cap p) in
  RetryAt p exits = exits_Last exits + hold /\
  (Holds p exits now = true <-> exits_Last exits <= now < exits_Last exits + hold).
Proof.
  simpl.
  assert (Exceeded p exits = true) as HE.
  { unfold Exceeded, IsZero. rewrite !andb_true_iff, !Z.ltb_lt, negb_true_iff, Z.eqb_neq.
    unfold zeroTime in Hl. lia. }
  assert (RetryAt p exits = exits_Last exits
    + Z.min (Base p * 2 ^ (exits_Count exits - Tolerated p - 1)) (Cap p)) as HR.
  { unfold RetryAt. rewrite HE. simpl. unfold TimeAdd. f_equal.
    rewrite (sub64_exact (exits_Count exits)) by lia.
    rewrite sub64_exact by lia.
    rewrite holdLoop_spec by done. by rewrite Z2Nat.id by lia. }
  split; [done|].
  unfold Holds, After, Before. rewrite HE, HR. simpl.
  rewrite andb_true_iff, negb_true_iff, Z.ltb_ge, Z.ltb_lt. lia.
Qed.

Lemma empty_exit_hold_is_capped_doubling_witness :
  Holds EmptyExitBackoff
    {| exits_Count := 4; exits_Last := 1000 * Second; exits_Unassigned := 0; exits_Assigned := 0 |}
    (1000 * Second + 9 * Minute) = true.
Proof.
  apply (empty_exit_hold_is_capped_doubling EmptyExitBackoff
    {| exits_Count := 4; exits_Last := 1000 * Second; exits_Unassigned := 0; exits_Assigned := 0 |}
    (1000 * Second + 9 * Minute)); vm_compute; repeat split; discriminate.
Defined.
