(* ===== verification/PriorityPolicy.v ===== *)
(** * Priority tiers (internal/domain/priority.go)

    A declared tier claims a demand through glob rules on the repository, the
    workflow ref and the job name.  The matcher walks the literal segments of a
    pattern, taking the earliest occurrence of each; [Glob] is the declarative
    meaning of a pattern, and the walk is shown to decide it. *)

From Stdlib Require Import ZArith Lia String Ascii.
From stdpp Require Import base tactics list strings.
From S2P Require Import Prelude GoStrings Domain.

Record PriorityMatch := { match_Scope : string; match_WorkflowRef : string; match_JobName : string }.

Record PriorityTier := { tier_Name : string; tier_Match : list PriorityMatch }.

Record PriorityPolicy := { Tiers : list PriorityTier }.

Record DemandFacts := { facts_Repo : string; facts_WorkflowRef : string; facts_JobName : string }.

Definition DefaultPriorityTier : string := "default".

Definition PriorityTierName (p : Priority) : string :=
  if bool_decide (Tier p = "") then DefaultPriorityTier else Tier p.

Definition Declared (p : PriorityPolicy) : bool := (0 <? length (Tiers p))%nat.

(** The middle segments: each is found at its earliest position. *)
Fixpoint walkSegments (segments : list bytes) (value : bytes) : option bytes :=
  match segments with
  | [] => Some value
  | seg :: rest =>
      match Index value seg with
      | None => None
      | Some i => walkSegments rest (drop (i + length seg) value)
      end
  end.

Definition matchSegments (segments : list bytes) (value : bytes) : bool :=
  match segments with
  | [] => false
  | [only] => bool_decide (only = value)
  | first :: rest =>
      if negb (HasPrefix value first) then false
      else match walkSegments (removelast rest) (drop (length first) value) with
           | None => false
           | Some tail => HasSuffix tail (List.last rest [])
           end
  end.

Definition matchesPriorityPattern (pattern value : string) : bool :=
  matchSegments (SplitOn "*" (ToLower (bytesOf pattern))) (ToLower (bytesOf value)).

Definition matches (m : PriorityMatch) (facts : DemandFacts) : bool :=
  if bool_decide (match_Scope m = "") && bool_decide (match_WorkflowRef m = "")
     && bool_decide (match_JobName m = "") then false
  else forallb (fun '(pat, v) => bool_decide (pat = "") || matchesPriorityPattern pat v)
    [(match_Scope m, facts_Repo facts); (match_WorkflowRef m, facts_WorkflowRef facts);
     (match_JobName m, facts_JobName facts)].

(** The loop over the tiers, with the index of the tier at the head. *)
Fixpoint classifyFrom (total index : Z) (tiers : list PriorityTier) (facts : DemandFacts) : Priority :=
  match tiers with
  | [] => zeroPriority
  | tier :: rest =>
      if existsb (fun rule => matches rule facts) (tier_Match tier)
      then {| Tier := tier_Name tier; Rank := total - index |}
      else classifyFrom total (index + 1) rest facts
  end.

Definition Classify (p : PriorityPolicy) (facts : DemandFacts) : Priority :=
  classifyFrom (Z.of_nat (length (Tiers p))) 0 (Tiers p) facts.

(** ** The meaning of a pattern *)

Inductive Glob : bytes -> bytes -> Prop :=
  | glob_end : Glob [] []
  | glob_literal c p v : c <> "*"%char -> Glob p v -> Glob (c :: p) (c :: v)
  | glob_star_none p v : Glob p v -> Glob ("*"%char :: p) v
  | glob_star_more p c v : Glob ("*"%char :: p) v -> Glob ("*"%char :: p) (c :: v).

#[local] Hint Constructors Glob : fleet.

Lemma glob_star p v : Glob ("*"%char :: p) v <-> exists x y, v = x ++ y /\ Glob p y.
Proof.
  split.
  - remember ("*"%char :: p) as q eqn:Eq. induction 1 as [|c q v Hc H IH|q v H IH|q c v H IH];
      try done; injection Eq as ?; subst; try done.
    + by exists [], v.
    + destruct (IH eq_refl) as (x & y & -> & Hy). by exists (c :: x), y.
  - intros (x & y & -> & Hy). induction x; simpl; auto with fleet.
Qed.

Lemma glob_literals w p v :
  "*"%char ∉ w -> (Glob (w ++ p) v <-> exists y, v = w ++ y /\ Glob p y).
Proof.
  revert v. induction w as [|c w IH]; intros v Hw; simpl.
  { split; [intros ?; by exists v|by intros (y & -> & Hy)]. }
  rewrite not_elem_of_cons in Hw. destruct Hw as [Hc Hw]. split.
  - intros H. inversion H; subst; try done.
    apply IH in H4 as (y & -> & Hy); [|done]. by exists y.
  - intros (y & -> & Hy). constructor; [done|]. apply IH; [done|]. by exists y.
Qed.

(** What follows the first [*]: the segments in order, the last one at the end. *)
Fixpoint floating (segs : list bytes) (v : bytes) : Prop :=
  match segs with
  | [] => False
  | [last] => exists x, v = x ++ last
  | s :: rest => exists x y, v = x ++ s ++ y /\ floating rest y
  end.

Definition anchored (segs : list bytes) (v : bytes) : Prop :=
  match segs with
  | [] => False
  | [only] => v = only
  | first :: rest => exists y, v = first ++ y /\ floating rest y
  end.

Lemma floating_extend segs z v : floating segs v -> floating segs (z ++ v).
Proof.
  destruct segs as [|s [|s' segs]]; simpl; [done|..].
  - intros [x ->]. exists (z ++ x). by rewrite app_assoc.
  - intros (x & y & -> & Hy). exists (z ++ x), y. by rewrite app_assoc.
Qed.

Lemma floating_anchored segs v :
  segs <> [] -> (floating segs v <-> exists x y, v = x ++ y /\ anchored segs y).
Proof.
  destruct segs as [|s [|s' segs]]; simpl; [done|..]; intros _.
  - split; [intros [x ->]; eauto|intros (x & y & -> & ->); eauto].
  - split.
    + intros (x & y & -> & Hy). exists x, (s ++ y). split; [done|]. by exists y.
    + intros (x & y & -> & z & -> & Hz). by exists x, z.
Qed.

Lemma SplitOn_free s : Forall (fun w => "*"%char ∉ w) (SplitOn "*" s).
Proof.
  induction s as [|c s IH]; simpl; [repeat constructor; apply not_elem_of_nil|].
  case_bool_decide; [constructor; [apply not_elem_of_nil|done]|].
  destruct (SplitOn "*" s) as [|w ws]; [repeat constructor; by apply not_elem_of_cons, conj, not_elem_of_nil|].
  inversion_clear IH. constructor; [|done]. rewrite not_elem_of_cons. by split.
Qed.

Lemma Glob_anchored p v : Glob p v <-> anchored (SplitOn "*" p) v.
Proof.
  revert v. induction p as [|c p IH]; intros v; simpl.
  { split; [by inversion 1|intros ->; constructor]. }
  pose proof (SplitOn_nonempty "*" p) as Hne.
  case_bool_decide as E; [subst c|].
  - rewrite glob_star. destruct (SplitOn "*" p) as [|w ws]; [done|]. simpl.
    setoid_rewrite IH.
    rewrite <- (floating_anchored (w :: ws)) by done.
    split; [intros H; by exists v|by intros (y & -> & H)].
  - destruct (SplitOn "*" p) as [|w ws] eqn:ES; [done|].
    assert (Glob (c :: p) v <-> exists y, v = c :: y /\ Glob p y) as ->.
    { split; [inversion 1; subst; [eauto|done..]|]. intros (y & -> & Hy). by constructor. }
    setoid_rewrite IH. destruct ws as [|w' ws]; simpl.
    + split; [intros (y & -> & ->); done|intros ->; eauto].
    + split.
      * intros (y & -> & z & -> & Hz). by exists z.
      * intros (z & -> & Hz). exists (w ++ z). split; [done|]. by exists z.
Qed.

(** The greedy walk decides the floating match. *)
Lemma walk_spec segs v :
  segs <> [] ->
  (match walkSegments (removelast segs) v with
   | None => False
   | Some tail => HasSuffix tail (List.last segs []) = true
   end <-> floating segs v).
Proof.
  revert v. induction segs as [|s segs IH]; intros v; [done|]. intros _.
  destruct segs as [|s' segs].
  { simpl. apply HasSuffix_spec. }
  change (removelast (s :: s' :: segs)) with (s :: removelast (s' :: segs)).
  change (List.last (s :: s' :: segs) []) with (List.last (s' :: segs) []).
  cbn [walkSegments]. split.
  - destruct (Index v s) as [i|] eqn:Ei; [|done].
    apply Index_sound in Ei as (x & y & -> & Hd). rewrite Hd. intros H.
    apply IH in H; [|done]. by exists x, y.
  - intros (x & y & Hv & Hy).
    destruct (Index_earliest v s x y Hv) as (i & z & -> & Hd & _). rewrite Hd.
    apply IH; [done|]. by apply floating_extend.
Qed.

Lemma matchSegments_anchored segs v :
  matchSegments segs v = true <-> anchored segs v.
Proof.
  destruct segs as [|s [|s' segs]]; [by split|..].
  { simpl. rewrite bool_decide_eq_true. naive_solver. }
  unfold matchSegments, anchored.
  pose proof (walk_spec (s' :: segs) (drop (length s) v) ltac:(done)) as W.
  destruct (HasPrefix v s) eqn:E; cbn [negb].
  - apply HasPrefix_spec in E as [w ->]. rewrite drop_app_length in W |- *.
    split.
    + intros H. exists w. split; [done|]. apply W. by destruct (walkSegments _ _).
    + intros (y & Hy & Hf). apply app_inv_head in Hy as ->. apply W in Hf.
      by destruct (walkSegments _ _).
  - split; [done|]. intros (y & -> & _).
    assert (HasPrefix (s ++ y) s = true) by (apply HasPrefix_spec; eauto). congruence.
Qed.

(** The segment walk decides the glob language: a pattern matches a value exactly when the
    value is the pattern with each [*] replaced by some text, compared without regard to case;
    taking the earliest occurrence of each segment never loses a match. *)
Theorem pattern_match_is_glob (pattern value : string) :
  matchesPriorityPattern pattern value = true <->
  Glob (ToLower (bytesOf pattern)) (ToLower (bytesOf value)).
Proof.
  unfold matchesPriorityPattern. by rewrite matchSegments_anchored, <- Glob_anchored.
Qed.

(** A rule claims a demand when it declares a facet and every declared facet matches. *)
Definition claims (m : PriorityMatch) (facts : DemandFacts) : Prop :=
  let facet pat v := pat = ""%string \/ Glob (ToLower (bytesOf pat)) (ToLower (bytesOf v)) in
  ~ (match_Scope m = ""%string /\ match_WorkflowRef m = ""%string /\ match_JobName m = ""%string) /\
  facet (match_Scope m) (facts_Repo facts) /\
  facet (match_WorkflowRef m) (facts_WorkflowRef facts) /\
  facet (match_JobName m) (facts_JobName facts).

Lemma matches_claims m facts : matches m facts = true <-> claims m facts.
Proof.
  assert (forall pat v, matchesPriorityPattern pat v = true <->
    Glob (ToLower (bytesOf pat)) (ToLower (bytesOf v))) as HG
    by (intros; unfold matchesPriorityPattern; by rewrite matchSegments_anchored, <- Glob_anchored).
  unfold matches, claims. simpl.
  rewrite <- !HG.
  repeat case_bool_decide; simpl; rewrite ?andb_true_r, ?andb_true_iff; intuition congruence.
Qed.

(** classification takes the first tier, in the declared order, one of whose rules claims the
    demand; its rank counts the tiers from that one to the end, so an earlier tier always outranks
    a later one and every declared tier outranks the default tier, which is what an unclaimed
    demand gets. *)
Theorem classify_takes_first_claiming_tier (p : PriorityPolicy) (facts : DemandFacts) :
  (exists before tier after,
     Tiers p = before ++ tier :: after /\
     (forall t m, In t before -> In m (tier_Match t) -> ~ claims m facts) /\
     (exists m, In m (tier_Match tier) /\ claims m facts) /\
     Classify p facts = {| Tier := tier_Name tier; Rank := Z.of_nat (length after) + 1 |}) \/
  ((forall t m, In t (Tiers p) -> In m (tier_Match t) -> ~ claims m facts) /\
   Classify p facts = zeroPriority).
Proof.
  unfold Classify.
  assert (forall total i ts, total = i + Z.of_nat (length ts) ->
    (exists before tier after, ts = before ++ tier :: after /\
      (forall t m, In t before -> In m (tier_Match t) -> ~ claims m facts) /\
      (exists m, In m (tier_Match tier) /\ claims m facts) /\
      classifyFrom total i ts facts = {| Tier := tier_Name tier; Rank := Z.of_nat (length after) + 1 |})
    \/ ((forall t m, In t ts -> In m (tier_Match t) -> ~ claims m facts) /\
        classifyFrom total i ts facts = zeroPriority)) as H; [|by apply H].
  intros total i ts. revert i. induction ts as [|t ts IH]; intros i Hi; simpl; [by right|].
  destruct (existsb (fun rule => matches rule facts) (tier_Match t)) eqn:E.
  - apply existsb_exists in E as (m & Hm & Hc). apply matches_claims in Hc.
    left. exists [], t, ts. repeat split; [done|by exists m|].
    f_equal. simpl in Hi. lia.
  - assert (forall m, In m (tier_Match t) -> ~ claims m facts) as Hno.
    { intros m Hm Hc. apply matches_claims in Hc.
      assert (existsb (fun rule => matches rule facts) (tier_Match t) = true) as E'
        by (apply existsb_exists; by exists m). congruence. }
    destruct (IH (i + 1)) as [(b & t' & a & -> & Hb & Ht & ->)|[Ha ->]]; [simpl in Hi; lia|left|right].
    + exists (t :: b), t', a. repeat split; [|done]. intros u m [<-|Hu]; eauto.
    + split; [|done]. intros u m [<-|Hu]; eauto.
Qed.
