(* ===== verification/Scheduler.v ===== *)
(** * Scheduler vocabulary (internal/scheduler/scheduler.go)

    The planner's configuration, durable state, input, operations and plan, the
    interface through which an operation or a plan gets its content address, and
    the small accessors the passes share. *)

From Stdlib Require Import ZArith Lia String.
From stdpp Require Import base tactics list gmap strings.
From S2P Require Import Prelude GoStrings Liveness Domain.

Record Config := {
  LinuxCapacity : Resources;
  FairnessAge : Duration;
  AssignedTimeout : Duration;
  RepoCaps : gmap string Z;
  RepoSchedulingClasses : gmap string SchedulingClass;
  Profiles : gmap ProfileID Profile;
  MacOSExclusive : bool;
  MixedPlatformAdmission : bool;
  MixedProfileCohorts : bool;
  ElasticHostEnvelope : bool;
  HostBudget : Resources;
  PriorityEscalation : Duration;
  cfg_GuestLiveness : GuestLivenessPolicy
}.

Record MacHandoff := {
  mac_Demand : DemandKey;
  mac_Profile : ProfileID;
  mac_Since : Time;
  mac_BackfillAdmitted : bool
}.

Record LinuxHandoff := {
  linux_Demand : DemandKey;
  linux_Since : Time;
  linux_BackfillAdmitted : bool
}.

(** The pointers of [State] are options. *)
Record State := {
  st_Reservation : option Reservation;
  st_DRRCursor : string;
  st_MacHandoff : option MacHandoff;
  st_LinuxHandoff : option LinuxHandoff
}.

Definition zeroState : State :=
  {| st_Reservation := None; st_DRRCursor := ""; st_MacHandoff := None; st_LinuxHandoff := None |}.

Record Input := {
  Now : Time;
  in_Config : Config;
  in_Demands : Observation (list Demand);
  in_Instances : Observation (list Instance_);
  in_Host : Observation Host;
  Prior : State
}.

Inductive OperationKind := OperationSpawn | OperationDrain.

#[export] Instance OperationKind_eq_dec : EqDecision OperationKind.
Proof. solve_decision. Defined.

Record Operation := {
  op_ID : string;
  op_Kind : OperationKind;
  op_Demand : DemandKey;
  op_Instance : string;
  op_Profile : ProfileID;
  op_Route : Route;
  op_DependsOn : list string;
  op_Recovery : bool;
  op_ConfirmedInactive : bool;
  op_StalledAssignment : bool;
  op_LingeringRunner : bool;
  op_OccupancyExceeded : bool;
  op_GuestUnresponsive : bool;
  op_ProvisionStalled : bool
}.

Inductive PlanStatus := PlanReady | PlanBlockedObservation | PlanInvalidObservation.

#[export] Instance PlanStatus_eq_dec : EqDecision PlanStatus.
Proof. solve_decision. Defined.

(** [ReservationAxisEmpty] is the empty string: no judgement was published. *)
Inductive ReservationAxis :=
  | ReservationAxisEmpty
  | ReservationAxisVector
  | ReservationAxisRepositoryCap
  | ReservationAxisBoth
  | ReservationAxisNone.

#[export] Instance ReservationAxis_eq_dec : EqDecision ReservationAxis.
Proof. solve_decision. Defined.

Record Envelope := { env_Free : Resources; env_AgedFree : Resources }.

Definition zeroEnvelope : Envelope := {| env_Free := zeroResources; env_AgedFree := zeroResources |}.

Record Plan := {
  plan_ID : string;
  plan_Status : PlanStatus;
  plan_Operations : list Operation;
  plan_Next : State;
  plan_Reason : string;
  plan_ReservationAxis : ReservationAxis;
  plan_Envelope : Envelope
}.

(** [Plan{Status: status, Next: next}]. *)
Definition newPlan (status : PlanStatus) (next : State) : Plan :=
  {| plan_ID := ""; plan_Status := status; plan_Operations := []; plan_Next := next;
     plan_Reason := ""; plan_ReservationAxis := ReservationAxisEmpty;
     plan_Envelope := zeroEnvelope |}.

(** ** Content addresses

    [stableID] hashes the JSON encoding of a value.  The passes use it only
    through these two operations. *)

Class ContentAddress := {
  operationAddress : Operation -> string;
  planAddress : PlanStatus -> list Operation -> State -> string
}.

(** ** Field updates *)

Definition withReservation (s : State) (r : option Reservation) : State :=
  {| st_Reservation := r; st_DRRCursor := st_DRRCursor s;
     st_MacHandoff := st_MacHandoff s; st_LinuxHandoff := st_LinuxHandoff s |}.

Definition withDRRCursor (s : State) (c : string) : State :=
  {| st_Reservation := st_Reservation s; st_DRRCursor := c;
     st_MacHandoff := st_MacHandoff s; st_LinuxHandoff := st_LinuxHandoff s |}.

Definition withMacHandoff (s : State) (h : option MacHandoff) : State :=
  {| st_Reservation := st_Reservation s; st_DRRCursor := st_DRRCursor s;
     st_MacHandoff := h; st_LinuxHandoff := st_LinuxHandoff s |}.

Definition withLinuxHandoff (s : State) (h : option LinuxHandoff) : State :=
  {| st_Reservation := st_Reservation s; st_DRRCursor := st_DRRCursor s;
     st_MacHandoff := st_MacHandoff s; st_LinuxHandoff := h |}.

Definition withNext (p : Plan) (s : State) : Plan :=
  {| plan_ID := plan_ID p; plan_Status := plan_Status p; plan_Operations := plan_Operations p;
     plan_Next := s; plan_Reason := plan_Reason p;
     plan_ReservationAxis := plan_ReservationAxis p; plan_Envelope := plan_Envelope p |}.

Definition withOperations (p : Plan) (ops : list Operation) : Plan :=
  {| plan_ID := plan_ID p; plan_Status := plan_Status p; plan_Operations := ops;
     plan_Next := plan_Next p; plan_Reason := plan_Reason p;
     plan_ReservationAxis := plan_ReservationAxis p; plan_Envelope := plan_Envelope p |}.

Definition withAxis (p : Plan) (a : ReservationAxis) : Plan :=
  {| plan_ID := plan_ID p; plan_Status := plan_Status p; plan_Operations := plan_Operations p;
     plan_Next := plan_Next p; plan_Reason := plan_Reason p;
     plan_ReservationAxis := a; plan_Envelope := plan_Envelope p |}.

Definition withReason (p : Plan) (r : string) : Plan :=
  {| plan_ID := plan_ID p; plan_Status := plan_Status p; plan_Operations := plan_Operations p;
     plan_Next := plan_Next p; plan_Reason := r;
     plan_ReservationAxis := plan_ReservationAxis p; plan_Envelope := plan_Envelope p |}.

Definition withEnvelope (p : Plan) (e : Envelope) : Plan :=
  {| plan_ID := plan_ID p; plan_Status := plan_Status p; plan_Operations := plan_Operations p;
     plan_Next := plan_Next p; plan_Reason := plan_Reason p;
     plan_ReservationAxis := plan_ReservationAxis p; plan_Envelope := e |}.

Definition withID (p : Plan) (id : string) : Plan :=
  {| plan_ID := id; plan_Status := plan_Status p; plan_Operations := plan_Operations p;
     plan_Next := plan_Next p; plan_Reason := plan_Reason p;
     plan_ReservationAxis := plan_ReservationAxis p; plan_Envelope := plan_Envelope p |}.

(** [plan.Operations = append(plan.Operations, ops...)]. *)
Definition appendOperations (p : Plan) (ops : list Operation) : Plan :=
  withOperations p (plan_Operations p ++ ops).

(** [in.Instances = domain.Fresh(instances, in.Instances.ObservedAt)]. *)
Definition withInstances (i : Input) (instances : list Instance_) : Input :=
  {| Now := Now i; in_Config := in_Config i; in_Demands := in_Demands i;
     in_Instances := Fresh instances (obs_ObservedAt (in_Instances i));
     in_Host := in_Host i; Prior := Prior i |}.

(** ** Accessors *)

Definition instancesOf (i : Input) : list Instance_ := obs_Value (in_Instances i).

(** [config.Profiles[id]]: a missing key reads as the zero profile. *)
Definition profileOf (c : Config) (id : ProfileID) : Profile :=
  default zeroProfile (Profiles c !! id).

(** [config.RepoSchedulingClasses[repo]]. *)
Definition classOf (c : Config) (repo : string) : SchedulingClass :=
  default (SchedulingOther "") (RepoSchedulingClasses c !! repo).

(** A [map[string]int]: a missing key reads as zero. *)
Definition countOf (m : gmap string Z) (k : string) : Z := default 0 (m !! k).

Definition incr (m : gmap string Z) (k : string) : gmap string Z := <[k := countOf m k + 1]> m.

Lemma countOf_empty k : countOf ∅ k = 0.
Proof. unfold countOf. by rewrite lookup_empty. Qed.

Lemma countOf_incr m k k' :
  countOf (incr m k) k' = countOf m k' + (if decide (k = k') then 1 else 0).
Proof.
  unfold incr, countOf. case_decide as E.
  - subst. by rewrite lookup_insert_eq.
  - rewrite lookup_insert_ne by done. lia.
Qed.

(** ** Operations *)

Section Operations.
Context `{ContentAddress}.

Definition addressed (op : Operation) : Operation :=
  {| op_ID := operationAddress op; op_Kind := op_Kind op; op_Demand := op_Demand op;
     op_Instance := op_Instance op; op_Profile := op_Profile op; op_Route := op_Route op;
     op_DependsOn := op_DependsOn op; op_Recovery := op_Recovery op;
     op_ConfirmedInactive := op_ConfirmedInactive op;
     op_StalledAssignment := op_StalledAssignment op;
     op_LingeringRunner := op_LingeringRunner op;
     op_OccupancyExceeded := op_OccupancyExceeded op;
     op_GuestUnresponsive := op_GuestUnresponsive op;
     op_ProvisionStalled := op_ProvisionStalled op |}.

Definition spawnOperation (demand : Demand) (dependencies : list string) : Operation :=
  addressed
    {| op_ID := ""; op_Kind := OperationSpawn; op_Demand := demand_Key demand; op_Instance := "";
       op_Profile := demand_Profile demand; op_Route := demand_Route demand;
       op_DependsOn := dependencies; op_Recovery := false; op_ConfirmedInactive := false;
       op_StalledAssignment := false; op_LingeringRunner := false; op_OccupancyExceeded := false;
       op_GuestUnresponsive := false; op_ProvisionStalled := false |}.

Definition drainOperation (instance : Instance_) : Operation :=
  addressed
    {| op_ID := ""; op_Kind := OperationDrain; op_Demand := zeroDemandKey;
       op_Instance := inst_ID instance; op_Profile := inst_Profile instance;
       op_Route := inst_Route instance; op_DependsOn := []; op_Recovery := false;
       op_ConfirmedInactive := false; op_StalledAssignment := false; op_LingeringRunner := false;
       op_OccupancyExceeded := false; op_GuestUnresponsive := false; op_ProvisionStalled := false |}.

(** [operation.DependsOn = deps; operation.ID = stableID("op", operation)]: the
    hash still covers the previous ID, which the encoding contains. *)
Definition withDependencies (op : Operation) (deps : list string) : Operation :=
  addressed
    {| op_ID := op_ID op; op_Kind := op_Kind op; op_Demand := op_Demand op;
       op_Instance := op_Instance op; op_Profile := op_Profile op; op_Route := op_Route op;
       op_DependsOn := deps; op_Recovery := op_Recovery op;
       op_ConfirmedInactive := op_ConfirmedInactive op;
       op_StalledAssignment := op_StalledAssignment op;
       op_LingeringRunner := op_LingeringRunner op;
       op_OccupancyExceeded := op_OccupancyExceeded op;
       op_GuestUnresponsive := op_GuestUnresponsive op;
       op_ProvisionStalled := op_ProvisionStalled op |}.

Definition operationIDs (operations : list Operation) : list string := map op_ID operations.

(** [finish]: the normalisation of an empty operation list to nil is the identity
    on lists. *)
Definition finish (plan : Plan) : Plan :=
  withID plan (planAddress (plan_Status plan) (plan_Operations plan) (plan_Next plan)).

End Operations.

Definition isSpawn (op : Operation) : bool := bool_decide (op_Kind op = OperationSpawn).
Definition isDrain (op : Operation) : bool := bool_decide (op_Kind op = OperationDrain).

Definition containsSpawn (operations : list Operation) : bool := existsb isSpawn operations.
Definition containsDrain (operations : list Operation) : bool := existsb isDrain operations.

Definition spawnedDemands (operations : list Operation) : list Demand :=
  map (fun op => keyedDemand (op_Demand op)) (List.filter isSpawn operations).

Definition removeInstance (instances : list Instance_) (id : string) : list Instance_ :=
  List.filter (fun i => negb (bool_decide (inst_ID i = id))) instances.

(** [sort.Slice] by identity.  Instance IDs are the primary key of the durable
    store, so no two observed instances tie. *)
Definition sortedInstances (instances : list Instance_) : list Instance_ :=
  sortBy (fun a b => strLess (inst_ID a) (inst_ID b)) instances.
