(* ===== verification/Fixture.v ===== *)
(** * A concrete node

    Profiles, demands, instances and observations of a small node.  The
    witnesses of the scheduler's theorems evaluate the definitions on it. *)

From Stdlib Require Import ZArith String.
From stdpp Require Import base list gmap strings.
From S2P Require Import Prelude GoStrings Liveness Domain Scheduler.

Module Node.

Definition vec (cpu memory slots : Z) : Resources :=
  {| CPU := cpu; MemoryMB := memory; Slots := slots |}.

Definition profile (id : ProfileID) (platform : Platform) (resources : Resources) (maxActive : Z)
    : Profile :=
  {| profile_ID := id; profile_Platform := platform; profile_Route := ("route-" +:+ id)%string;
     profile_Resources := resources; profile_MaxActive := maxActive;
     profile_OccupancyBudget := 2 * Hour |}.

Definition profiles : gmap ProfileID Profile :=
  <["small" := profile "small" PlatformLinux (vec 2 2048 1) 0]>
  (<["large" := profile "large" PlatformLinux (vec 6 8192 1) 0]>
  (<["mac" := profile "mac" PlatformMacOS (vec 4 8192 1) 2]> ∅)).

Definition config : Config :=
  {| LinuxCapacity := vec 8 16384 4; FairnessAge := 10 * Minute; AssignedTimeout := 5 * Minute;
     RepoCaps := <["acme/app" := 2]> ∅; RepoSchedulingClasses := ∅; Profiles := profiles;
     MacOSExclusive := true; MixedPlatformAdmission := false; MixedProfileCohorts := false;
     ElasticHostEnvelope := false; HostBudget := zeroResources;
     PriorityEscalation := 0;
     cfg_GuestLiveness := {| ConsecutiveRefusals := 3; Window := 5 * Minute |} |}.

(** The same node without exclusive macOS admission, with a second macOS
    profile [builder] larger than [mac]. *)
Definition sharedProfiles : gmap ProfileID Profile :=
  <["builder" := profile "builder" PlatformMacOS (vec 6 8192 1) 1]> profiles.

Definition sharedConfig (mixedPlatforms mixedCohorts : bool) : Config :=
  {| LinuxCapacity := vec 8 16384 4; FairnessAge := 10 * Minute; AssignedTimeout := 5 * Minute;
     RepoCaps := <["acme/app" := 4]> ∅; RepoSchedulingClasses := ∅; Profiles := sharedProfiles;
     MacOSExclusive := false; MixedPlatformAdmission := mixedPlatforms;
     MixedProfileCohorts := mixedCohorts; ElasticHostEnvelope := false; HostBudget := zeroResources;
     PriorityEscalation := 0;
     cfg_GuestLiveness := {| ConsecutiveRefusals := 3; Window := 5 * Minute |} |}.

Definition now : Time := 100 * Hour.

Definition key (repo : string) (job : Z) : DemandKey :=
  {| key_Repo := repo; key_RunID := 10; key_Attempt := 1; key_JobID := job |}.

Definition demand (repo : string) (job : Z) (id : ProfileID) (platform : Platform) (age : Duration)
    : Demand :=
  {| demand_Key := key repo job; demand_CreatedAt := now - age; demand_NotBefore := zeroTime;
     demand_Profile := id; demand_Route := ("route-" +:+ id)%string; demand_Platform := platform;
     demand_Event := EventPush; demand_RunStatus := RunQueued; demand_Priority := zeroPriority |}.

Definition linuxDemand (repo : string) (job : Z) (age : Duration) : Demand :=
  demand repo job "small" PlatformLinux age.

Definition largeDemand (repo : string) (job : Z) (age : Duration) : Demand :=
  demand repo job "large" PlatformLinux age.

Definition macDemand (repo : string) (job : Z) (age : Duration) : Demand :=
  demand repo job "mac" PlatformMacOS age.

Definition builderDemand (repo : string) (job : Z) (age : Duration) : Demand :=
  demand repo job "builder" PlatformMacOS age.

Definition instance (id repo : string) (job : Z) (platform : Platform) (profile : ProfileID)
    (resources : Resources) (state : InstanceState) : Instance_ :=
  instanceLiteral id repo (key repo job) platform profile ("route-" +:+ profile)%string resources
    state InstancePowerRunning.

Definition host : Host :=
  {| host_Available := vec 8 16384 4; host_Capacity := vec 12 32768 8;
     host_Pressure := zeroHostPressure |}.

Definition inputUnder (c : Config) (demands : list Demand) (instances : list Instance_) : Input :=
  {| Now := now; in_Config := c; in_Demands := Fresh demands now;
     in_Instances := Fresh instances now; in_Host := Fresh host now; Prior := zeroState |}.

Definition input (demands : list Demand) (instances : list Instance_) : Input :=
  inputUnder config demands instances.

(** A mixed node with one instance running, a Linux and a macOS demand queued. *)
Definition mixedInput : Input :=
  inputUnder (sharedConfig true false)
    [macDemand "acme/app" 1 (60 * Minute); linuxDemand "acme/app" 2 (50 * Minute)]
    [instance "i1" "acme/lib" 9 PlatformLinux "small" (vec 2 2048 1) InstanceRunning].

End Node.

(** A readable content address: enough to evaluate plans. *)
Definition plainAddress : ContentAddress := {|
  operationAddress op :=
    ((match op_Kind op with OperationSpawn => "spawn:" | OperationDrain => "drain:" end)
      +:+ DemandKey_String (op_Demand op) +:+ ":" +:+ op_Instance op)%string;
  planAddress status ops next := ("plan:" +:+ Join (map op_ID ops) ";")%string
|}.
