(* ===== verification/Envelope.v ===== *)
(** * The admission envelope (internal/scheduler/scheduler.go)

    What one tick may hand out: the static cross-platform constant or the
    elastic physical bound, each clamped by the measured residual and narrowed
    by the operator's host budget. *)

From Stdlib Require Import ZArith Lia String.
From stdpp Require Import base tactics list gmap strings.
From S2P Require Import Prelude GoStrings Liveness Domain Scheduler.

Definition admissionsPerTick : Z := 4.

Definition minResources (a b : Resources) : Resources :=
  {| CPU := Z.min (CPU a) (CPU b); MemoryMB := Z.min (MemoryMB a) (MemoryMB b);
     Slots := Z.min (Slots a) (Slots b) |}.

Definition physicalBound (configured total live : Z) : Z :=
  if total <=? 0 then configured else Z.min configured (Z.max 0 (sub64 total live)).

Definition budgetBound (free budget live : Resources) : Resources :=
  {| CPU := physicalBound (CPU free) (CPU budget) (CPU live);
     MemoryMB := physicalBound (MemoryMB free) (MemoryMB budget) (MemoryMB live);
     Slots := physicalBound (Slots free) (Slots budget) (Slots live) |}.

(** The loops of [staticFree] and [elasticFree]: [None] is the early return of
    the zero vector. *)
Fixpoint chargeAll (charged : Instance_ -> bool) (free : Resources) (instances : list Instance_)
    : option Resources :=
  match instances with
  | [] => Some free
  | i :: rest =>
      if charged i then
        let '(free', ok) := Sub free (inst_Resources i) in
        if ok then chargeAll charged free' rest else None
      else chargeAll charged free rest
  end.

Definition staticFree (input : Input) (instances : list Instance_) : Resources :=
  match chargeAll ConsumesHostResources (LinuxCapacity (in_Config input)) instances with
  | None => zeroResources
  | Some free => minResources free (host_Available (obs_Value (in_Host input)))
  end.

Fixpoint addLive (live : Resources) (instances : list Instance_) : Resources :=
  match instances with
  | [] => live
  | i :: rest =>
      addLive (if ConsumesHostResources i then Add live (inst_Resources i) else live) rest
  end.

Definition liveResources (instances : list Instance_) : Resources :=
  addLive zeroResources instances.

Definition linuxCharge (i : Instance_) : bool :=
  ConsumesHostResources i && bool_decide (inst_Platform i = PlatformLinux).

Definition elasticFree (input : Input) (instances : list Instance_) (live : Resources) (aged : bool)
    : Resources :=
  match chargeAll linuxCharge (LinuxCapacity (in_Config input)) instances with
  | None => zeroResources
  | Some configured =>
      let total := host_Capacity (obs_Value (in_Host input)) in
      let free :=
        {| CPU := physicalBound (CPU configured) (CPU total) (CPU live);
           MemoryMB := physicalBound (MemoryMB configured) (MemoryMB total) (MemoryMB live);
           Slots := physicalBound (Slots configured) (Slots total) (Slots live) |} in
      let available := host_Available (obs_Value (in_Host input)) in
      let available' :=
        if aged
        then {| CPU := CPU free; MemoryMB := MemoryMB available; Slots := Slots available |}
        else available in
      minResources free available'
  end.

Definition freeCapacity (input : Input) (instances : list Instance_) (aged : bool) : Resources :=
  let live := liveResources instances in
  let free :=
    if ElasticHostEnvelope (in_Config input)
    then elasticFree input instances live aged
    else staticFree input instances in
  budgetBound free (HostBudget (in_Config input)) live.

Definition linuxFree (input : Input) : Resources := freeCapacity input (instancesOf input) false.
Definition linuxFreeAged (input : Input) : Resources := freeCapacity input (instancesOf input) true.

(** ** Repository slots *)

Definition releasedItsRepositorySlot (state : InstanceState) : bool :=
  match state with
  | InstanceDeregistering | InstanceStopping | InstanceDeleted | InstanceFailed => true
  | _ => false
  end.

(** Whether an instance is charged to its repository's concurrency cap. *)
Definition chargesRepository (i : Instance_) : bool :=
  negb (negb (Live i) || state_eqb (inst_State i) InstanceOnlineIdle
        || releasedItsRepositorySlot (inst_State i)).

Fixpoint countRepos (counts : gmap string Z) (instances : list Instance_) : gmap string Z :=
  match instances with
  | [] => counts
  | i :: rest =>
      countRepos (if chargesRepository i then incr counts (inst_Repo i) else counts) rest
  end.

Definition activeRepoCounts (instances : list Instance_) : gmap string Z := countRepos ∅ instances.

Definition repoCapLimit (caps : gmap string Z) (repo : string) : Z :=
  let limit := countOf caps repo in
  if 0 <? limit then limit else 1.

(** The count of demands of one repository among those already selected. *)
Definition selectedOf (repo : string) (selected : list Demand) : Z :=
  Z.of_nat (length (List.filter (fun d => bool_decide (key_Repo (demand_Key d) = repo)) selected)).

Definition admissionAxis (resources free : Resources) (repo : string) (base : gmap string Z)
    (selected : list Demand) (caps : gmap string Z) : ReservationAxis :=
  let count := countOf base repo + selectedOf repo selected in
  let vector := negb (CanFit free resources) in
  let capped := repoCapLimit caps repo <=? count in
  if vector && capped then ReservationAxisBoth
  else if vector then ReservationAxisVector
  else if capped then ReservationAxisRepositoryCap
  else ReservationAxisNone.

Definition feasible (resources free : Resources) (repo : string) (base : gmap string Z)
    (selected : list Demand) (caps : gmap string Z) : bool :=
  bool_decide (admissionAxis resources free repo base selected caps = ReservationAxisNone).

(** ** Lemmas *)

(** The exact vector a set of charged instances holds. *)
Definition heldBy (charged : Instance_ -> bool) (instances : list Instance_) : Resources :=
  vsum (map inst_Resources (List.filter charged instances)).

Definition held (instances : list Instance_) : Resources := heldBy ConsumesHostResources instances.

Definition nonneg_instances (instances : list Instance_) : Prop :=
  Forall (fun i => nonneg (inst_Resources i)) instances.

Lemma heldBy_app f l1 l2 : heldBy f (l1 ++ l2) = vadd (heldBy f l1) (heldBy f l2).
Proof. unfold heldBy. by rewrite List.filter_app, map_app, vsum_app. Qed.

Lemma heldBy_nonneg f l : nonneg_instances l -> nonneg (heldBy f l).
Proof.
  intros H. apply vsum_nonneg. apply List.Forall_map. apply List.Forall_forall.
  intros x Hx. apply List.filter_In in Hx as [Hx _].
  unfold nonneg_instances in H. rewrite List.Forall_forall in H. by apply H.
Qed.

Lemma chargeAll_exact charged free l free' :
  nonneg_instances l -> in_range free ->
  chargeAll charged free l = Some free' -> vadd (heldBy charged l) free' = free.
Proof.
  revert free. induction l as [|i l IH]; intros free Hl Hr; simpl.
  { intros [= ->]. unfold heldBy. simpl. apply vadd_zero_l. }
  inversion_clear Hl as [|? ? Hi Hl']. unfold heldBy. simpl.
  destruct (charged i); [|by apply IH].
  destruct (Sub free (inst_Resources i)) as [free1 []] eqn:E; [|done].
  destruct (Sub_exact _ _ _ Hi Hr E) as [Hle Hadd].
  intros H. apply IH in H; [|done|].
  - simpl. rewrite <- vadd_assoc. unfold heldBy in H. by rewrite H.
  - rewrite <- Hadd in Hr. vec.
Qed.

Lemma chargeAll_le charged free l free' :
  nonneg_instances l -> in_range free ->
  chargeAll charged free l = Some free' -> vle free' free.
Proof.
  intros Hl Hr H. pose proof (heldBy_nonneg charged l Hl) as Hn.
  apply chargeAll_exact in H; [|done..]. rewrite <- H. vec.
Qed.

Lemma addLive_exact live l :
  nonneg live -> nonneg_instances l -> in_range (vadd live (held l)) ->
  addLive live l = vadd live (held l).
Proof.
  revert live. unfold held, heldBy.
  induction l as [|i l IH]; intros live Hn Hl Hr; simpl; [by rewrite vadd_zero_r|].
  inversion_clear Hl as [|? ? Hi Hl']. simpl in Hr.
  destruct (ConsumesHostResources i); [|by apply IH].
  simpl in *. rewrite vadd_assoc in *.
  pose proof (heldBy_nonneg ConsumesHostResources l Hl') as Hh. unfold heldBy in Hh.
  rewrite Add_exact; [|done|done|].
  - apply IH; [|done|done]. vec.
  - vec.
Qed.

Lemma liveResources_exact l :
  nonneg_instances l -> in_range (held l) -> liveResources l = held l.
Proof.
  intros. unfold liveResources. rewrite addLive_exact; rewrite ?vadd_zero_l; done || vec.
Qed.

Lemma physicalBound_le c t l : physicalBound c t l <= c.
Proof. unfold physicalBound. destruct (t <=? 0); lia. Qed.

Lemma physicalBound_mono c c' t l : c <= c' -> physicalBound c t l <= physicalBound c' t l.
Proof. unfold physicalBound. destruct (t <=? 0); lia. Qed.

(** A positive bound that is met leaves the live total within it. *)
Lemma physicalBound_fits c t l x :
  0 <= l <= maxInt64 -> 0 < t <= maxInt64 -> 0 < x <= physicalBound c t l -> x + l <= t.
Proof.
  unfold physicalBound. intros Hl Ht Hx. destruct (Z.leb_spec t 0); [lia|].
  unfold sub64 in Hx. rewrite wrap64_id in Hx; [lia|].
  unfold int64, minInt64, maxInt64 in *. lia.
Qed.

Lemma countRepos_shift counts l repo :
  countOf (countRepos counts l) repo = countOf counts repo + countOf (countRepos ∅ l) repo.
Proof.
  revert counts. induction l as [|i l IH]; intros counts; simpl;
    [rewrite countOf_empty; lia|].
  destruct (chargesRepository i); [|apply IH].
  rewrite IH, (IH (incr ∅ _)), !countOf_incr, countOf_empty. lia.
Qed.

Lemma activeRepoCounts_app l1 l2 repo :
  countOf (activeRepoCounts (l1 ++ l2)) repo
  = countOf (activeRepoCounts l1) repo + countOf (activeRepoCounts l2) repo.
Proof.
  unfold activeRepoCounts.
  assert (forall c, countRepos c (l1 ++ l2) = countRepos (countRepos c l1) l2) as ->.
  { induction l1 as [|i l1 IH]; intros c; simpl; [done|]. apply IH. }
  apply countRepos_shift.
Qed.

Lemma activeRepoCounts_nonneg l repo : 0 <= countOf (activeRepoCounts l) repo.
Proof.
  unfold activeRepoCounts. induction l as [|i l IH]; simpl; [done|].
  destruct (chargesRepository i); [|done].
  rewrite countRepos_shift, countOf_incr, countOf_empty. case_decide; lia.
Qed.

Lemma repoCapLimit_pos caps repo : 1 <= repoCapLimit caps repo.
Proof. unfold repoCapLimit. destruct (Z.ltb_spec 0 (countOf caps repo)); lia. Qed.

Lemma admissionAxis_none r free repo base sel caps :
  admissionAxis r free repo base sel caps = ReservationAxisNone <->
  vle r free /\ countOf base repo + selectedOf repo sel < repoCapLimit caps repo.
Proof.
  unfold admissionAxis.
  destruct (CanFit free r) eqn:E; simpl.
  - apply CanFit_spec in E. destruct (Z.leb_spec (repoCapLimit caps repo)
      (countOf base repo + selectedOf repo sel)); split; try done; lia.
  - assert (~ vle r free) by (intros H; apply CanFit_spec in H; congruence).
    split_match; split; try done; tauto.
Qed.

Lemma minResources_le_l a b : vle (minResources a b) a.
Proof. unfold minResources. vec. Qed.

Lemma minResources_le_r a b : vle (minResources a b) b.
Proof. unfold minResources. vec. Qed.

Lemma budgetBound_le f b l : vle (budgetBound f b l) f.
Proof.
  unfold budgetBound, vle. simpl.
  split; [apply physicalBound_le|split; apply physicalBound_le].
Qed.

Lemma budgetBound_mono f f' b l : vle f f' -> vle (budgetBound f b l) (budgetBound f' b l).
Proof.
  unfold budgetBound, vle. simpl. intros (?&?&?).
  split; [|split]; by apply physicalBound_mono.
Qed.

(** ** What the envelope guarantees *)

(** A dimension of a declared or observed total that is not positive imposes no
    bound. *)
Definition within (bound v : Resources) : Prop :=
  (0 < CPU bound -> CPU v <= CPU bound) /\
  (0 < MemoryMB bound -> MemoryMB v <= MemoryMB bound) /\
  (0 < Slots bound -> Slots v <= Slots bound).

(** The node is not overcommitted: the budget bounds every platform together;
    the static model bounds everything by the configured capacity, the elastic
    one bounds Linux by it and everything by the physical host. *)
Definition notOvercommitted (input : Input) (instances : list Instance_) : Prop :=
  let c := in_Config input in
  within (HostBudget c) (held instances) /\
  if ElasticHostEnvelope c
  then vle (heldBy linuxCharge instances) (LinuxCapacity c) /\
       within (host_Capacity (obs_Value (in_Host input))) (held instances)
  else vle (held instances) (LinuxCapacity c).

Definition positive (r : Resources) : Prop := 1 <= CPU r /\ 1 <= MemoryMB r /\ 1 <= Slots r.

(** The magnitudes under which the 64-bit sums of a tick are exact: every vector
    is in range, and so is the live total together with one full envelope. *)
Record sane (input : Input) (instances : list Instance_) : Prop := {
  sane_instances : nonneg_instances instances;
  sane_capacity : nonneg (LinuxCapacity (in_Config input));
  sane_budget : in_range (HostBudget (in_Config input));
  sane_host : in_range (host_Capacity (obs_Value (in_Host input)));
  sane_total : in_range (vadd (held instances) (LinuxCapacity (in_Config input)))
}.

Lemma sane_held input l : sane input l -> in_range (held l) /\ in_range (LinuxCapacity (in_Config input)).
Proof.
  intros [Hi Hc _ _ Ht]. pose proof (heldBy_nonneg ConsumesHostResources l Hi) as Hn.
  unfold held in *. split; vec.
Qed.

Lemma heldBy_linux_le l : nonneg_instances l -> vle (heldBy linuxCharge l) (held l).
Proof.
  unfold held, heldBy. induction 1 as [|i l Hi Hl IH]; simpl; [vec|].
  unfold linuxCharge at 1. destruct (ConsumesHostResources i); simpl; [|done].
  case_bool_decide; simpl; vec.
Qed.

(** Nothing the envelope offers exceeds the configured capacity. *)
Lemma freeCapacity_le_capacity input l aged :
  sane input l -> vle (freeCapacity input l aged) (LinuxCapacity (in_Config input)).
Proof.
  intros S. destruct (sane_held _ _ S) as [Hh Hc].
  unfold freeCapacity. etransitivity; [apply budgetBound_le|].
  destruct (ElasticHostEnvelope _).
  - unfold elasticFree. destruct (chargeAll _ _ _) as [f|] eqn:E; [|apply S].
    apply chargeAll_le in E; [|apply S|done].
    etransitivity; [apply minResources_le_l|]. etransitivity; [|exact E].
    unfold vle; simpl. split; [|split]; apply physicalBound_le.
  - unfold staticFree. destruct (chargeAll _ _ _) as [f|] eqn:E; [|apply S].
    apply chargeAll_le in E; [|apply S|done].
    etransitivity; [apply minResources_le_l|done].
Qed.

(** Aged work is judged in an envelope that contains the one young work is
    offered. *)
Lemma freeCapacity_aged_le input l : vle (freeCapacity input l false) (freeCapacity input l true).
Proof.
  unfold freeCapacity. apply budgetBound_mono. destruct (ElasticHostEnvelope _); [|done].
  unfold elasticFree. destruct (chargeAll _ _ _); [|done].
  unfold minResources, vle; simpl. lia.
Qed.

Lemma within_physical bound free live v :
  in_range bound -> nonneg live -> in_range live -> positive v ->
  vle v (budgetBound free bound live) -> within bound (vadd live v).
Proof.
  intros Hb Hl Hr Hv Hle. unfold within, vadd, budgetBound, vle, positive, nonneg in *. simpl in *.
  unfold in_range, vle in *. simpl in *.
  destruct Hb as (?&?&?), Hl as (?&?&?), Hr as (?&?&?), Hv as (?&?&?), Hle as (Hc&Hm&Hs).
  split; [|split]; intros Hpos.
  - enough (CPU v + CPU live <= CPU bound) by lia. apply (physicalBound_fits (CPU free)); lia.
  - enough (MemoryMB v + MemoryMB live <= MemoryMB bound) by lia.
    apply (physicalBound_fits (MemoryMB free)); lia.
  - enough (Slots v + Slots live <= Slots bound) by lia. apply (physicalBound_fits (Slots free)); lia.
Qed.

(** The soundness of the envelope: a non-empty admission that fits it leaves the
    node within every bound. *)
Lemma freeCapacity_sound input l aged v :
  sane input l -> positive v -> vle v (freeCapacity input l aged) ->
  within (HostBudget (in_Config input)) (vadd (held l) v) /\
  if ElasticHostEnvelope (in_Config input)
  then vle (vadd (heldBy linuxCharge l) v) (LinuxCapacity (in_Config input)) /\
       within (host_Capacity (obs_Value (in_Host input))) (vadd (held l) v)
  else vle (vadd (held l) v) (LinuxCapacity (in_Config input)).
Proof.
  intros S Hp Hv. destruct (sane_held _ _ S) as [Hh Hc].
  pose proof (heldBy_nonneg ConsumesHostResources l (sane_instances _ _ S)) as Hn.
  fold (held l) in Hn.
  unfold freeCapacity in Hv. rewrite liveResources_exact in Hv by (done || apply S).
  split; [eapply within_physical; [apply S|done..|exact Hv]|].
  assert (vle v (if ElasticHostEnvelope (in_Config input)
    then elasticFree input l (held l) aged else staticFree input l)) as Hv'
    by (etransitivity; [exact Hv|apply budgetBound_le]).
  destruct (ElasticHostEnvelope (in_Config input)).
  - unfold elasticFree in Hv'. destruct (chargeAll _ _ _) as [f|] eqn:E.
    2: { exfalso. unfold positive in Hp. vec. }
    apply chargeAll_exact in E; [|apply S|done].
    assert (vle v (budgetBound f (host_Capacity (obs_Value (in_Host input))) (held l))) as Hb
      by (etransitivity; [exact Hv'|apply minResources_le_l]).
    split.
    + rewrite <- E. assert (vle v f) by (etransitivity; [exact Hb|apply budgetBound_le]). vec.
    + eapply within_physical; [apply S|done..|exact Hb].
  - unfold staticFree in Hv'. destruct (chargeAll _ _ _) as [f|] eqn:E.
    2: { exfalso. unfold positive in Hp. vec. }
    apply chargeAll_exact in E; [|apply S|done].
    rewrite <- E. assert (vle v f) by (etransitivity; [exact Hv'|apply minResources_le_l]).
    unfold held. vec.
Qed.
