(* ===== verification/Recovery.v ===== *)
(** * Recovery drains and hold reports (internal/scheduler/scheduler.go)

    The causes for which the scheduler reclaims an instance, the drains it plans
    for them, and the silence and occupancy reports built from the same
    predicates. *)

From Stdlib Require Import ZArith Lia String Permutation.
From stdpp Require Import base tactics list gmap strings.
From S2P Require Import Prelude GoStrings Liveness Domain Scheduler Envelope Fixture.

(** ** Causes *)

Definition stalledAssignment (now : Time) (assignedTimeout : Duration) (instance : Instance_) : bool :=
  state_eqb (inst_State instance) InstanceAssigned
  && bool_decide (inst_Power instance = InstancePowerRunning)
  && negb (inst_RecoveryReady instance) && (0 <? assignedTimeout)
  && negb (IsZero (inst_AssignedSince instance))
  && (assignedTimeout <=? TimeSub now (inst_AssignedSince instance)).

Definition provisionStalled (now : Time) (deadline : Duration) (instance : Instance_) : bool :=
  match inst_State instance with
  | InstanceCloning | InstanceBooting | InstanceReachable =>
      (0 <? deadline) && negb (IsZero (inst_ProvisioningSince instance))
      && (deadline <=? TimeSub now (inst_ProvisioningSince instance))
  | _ => false
  end.

Definition lingeringRunner (now : Time) (idleTimeout : Duration) (instance : Instance_) : bool :=
  state_eqb (inst_State instance) InstanceRunning
  && bool_decide (inst_Power instance = InstancePowerRunning)
  && negb (inst_RecoveryReady instance) && inst_JobInactive instance && (0 <? idleTimeout)
  && negb (IsZero (inst_RunningSince instance))
  && (idleTimeout <=? TimeSub now (inst_RunningSince instance)).

Definition occupancyExceeded (now : Time) (profiles : gmap ProfileID Profile) (instance : Instance_)
    : bool :=
  match profiles !! inst_Profile instance with
  | None => false
  | Some profile =>
      if (profile_OccupancyBudget profile <=? 0) || ProvenIdle (inst_Power instance) then false
      else
        let '(age, measured) := Occupancy_ instance now in
        measured && (profile_OccupancyBudget profile <=? age)
  end.

Definition guestUnresponsive (now : Time) (policy : GuestLivenessPolicy) (instance : Instance_) : bool :=
  if negb (state_eqb (inst_State instance) InstanceRunning) || ProvenIdle (inst_Power instance)
  then false
  else Confirmed policy (inst_Guest instance) now.

(** ** The drains *)

Section Recoveries.
Context `{ContentAddress}.

(** The composite literal of a recovery drain. *)
Definition recoveryOperation (instance : Instance_) (demand : DemandKey)
    (confirmedInactive stalled lingering overBudget guestDead provision : bool) : Operation :=
  addressed
    {| op_ID := ""; op_Kind := OperationDrain; op_Demand := demand; op_Instance := inst_ID instance;
       op_Profile := inst_Profile instance; op_Route := inst_Route instance; op_DependsOn := [];
       op_Recovery := true; op_ConfirmedInactive := confirmedInactive;
       op_StalledAssignment := stalled; op_LingeringRunner := lingering;
       op_OccupancyExceeded := overBudget; op_GuestUnresponsive := guestDead;
       op_ProvisionStalled := provision |}.

(** The body of the loop: [None] is [continue]. *)
Definition recoverInstance (now : Time) (config : Config) (instance : Instance_) : option Operation :=
  if provisionStalled now (AssignedTimeout config) instance then
    Some (recoveryOperation instance (inst_Demand instance) false false false false false true)
  else if negb (state_eqb (inst_State instance) InstanceAssigned)
          && negb (state_eqb (inst_State instance) InstanceRunning) then None
  else
    let confirmedInactive :=
      bool_decide (inst_Power instance = InstancePowerRunning) && inst_RecoveryReady instance in
    let stalled := stalledAssignment now (AssignedTimeout config) instance in
    let lingering := lingeringRunner now (AssignedTimeout config) instance in
    let overBudget := occupancyExceeded now (Profiles config) instance in
    let guestDead := guestUnresponsive now (cfg_GuestLiveness config) instance in
    let stopped := bool_decide (inst_Power instance = InstancePowerStopped) in
    if negb stopped && negb confirmedInactive && negb stalled && negb lingering
       && negb overBudget && negb guestDead then None
    else
      let safer := confirmedInactive || stalled || lingering || stopped in
      let guestDead' := guestDead && negb safer in
      let overBudget' := overBudget && negb safer && negb guestDead' in
      Some (recoveryOperation instance
              (if overBudget' || guestDead' then inst_Demand instance else zeroDemandKey)
              confirmedInactive stalled lingering overBudget' guestDead' false).

Definition assignmentRecoveries (now : Time) (config : Config) (instances : list Instance_)
    : list Operation :=
  sortedInstances instances ≫= (fun i => option_list (recoverInstance now config i)).

End Recoveries.

(** ** Reports *)

Record GuestSilence := {
  sil_Instance : string;
  sil_Profile : ProfileID;
  sil_Repo : string;
  sil_Demand : DemandKey;
  sil_Resources : Resources;
  sil_Refusals : Z;
  sil_Silence : Duration;
  sil_LastAlive : Time;
  sil_RequiredRefusals : Z;
  sil_Window : Duration;
  sil_Unresponsive : bool
}.

Definition silenceOf (now : Time) (config : Config) (instance : Instance_) : option GuestSilence :=
  if negb (Live instance) then None
  else
    let '(silence, measured) := Silence (inst_Guest instance) now in
    if negb measured then None
    else Some {| sil_Instance := inst_ID instance; sil_Profile := inst_Profile instance;
      sil_Repo := inst_Repo instance; sil_Demand := inst_Demand instance;
      sil_Resources := inst_Resources instance; sil_Refusals := Refusals (inst_Guest instance);
      sil_Silence := silence; sil_LastAlive := LastAlive (inst_Guest instance);
      sil_RequiredRefusals := ConsecutiveRefusals (cfg_GuestLiveness config);
      sil_Window := Window (cfg_GuestLiveness config);
      sil_Unresponsive := guestUnresponsive now (cfg_GuestLiveness config) instance |}.

Definition GuestSilences (now : Time) (config : Config) (instances : list Instance_)
    : list GuestSilence :=
  sortedInstances instances ≫= (fun i => option_list (silenceOf now config i)).

Record Occupancy := {
  occ_Instance : string;
  occ_Profile : ProfileID;
  occ_Repo : string;
  occ_Demand : DemandKey;
  occ_Resources : Resources;
  occ_Age : Duration;
  occ_Budget : Duration;
  occ_Warned : bool;
  occ_OverBudget : bool;
  occ_StarvesQueuedDemand : bool
}.

(** A positive integer rounded to the 53 significant bits of a float64, ties to
    even. *)
Definition round53 (n : Z) : Z :=
  let k := Z.log2 n - 52 in
  if k <=? 0 then n
  else
    let unit := 2 ^ k in
    let q := n / unit in
    let r := n mod unit in
    if (unit <? 2 * r) || ((2 * r =? unit) && Z.odd q) then (q + 1) * unit else q * unit.

(** [time.Duration(float64(budget) * OccupancyWarnFraction)] with the fraction
    0.75, for a positive budget: the conversion and the product round, and the
    conversion back truncates. *)
Definition warnThreshold (budget : Duration) : Duration := round53 (3 * round53 budget) / 4.

Fixpoint incarnated (instances : list Instance_) : gset DemandKey :=
  match instances with
  | [] => ∅
  | i :: rest => if IncarnatesDemand i then {[inst_Demand i]} ∪ incarnated rest else incarnated rest
  end.

Fixpoint waitingVectors (config : Config) (served : gset DemandKey) (demands : list Demand)
    : list Resources :=
  match demands with
  | [] => []
  | demand :: rest =>
      match Profiles config !! demand_Profile demand with
      | None => waitingVectors config served rest
      | Some profile =>
          if bool_decide (demand_Key demand ∈ served) then waitingVectors config served rest
          else profile_Resources profile :: waitingVectors config served rest
      end
  end.

Definition queuedVectors (config : Config) (instances : list Instance_) (demands : list Demand)
    : list Resources :=
  waitingVectors config (incarnated instances) demands.

Definition occupancyOf (now : Time) (config : Config) (waiting : list Resources) (instance : Instance_)
    : option Occupancy :=
  let '(age, measured) := Occupancy_ instance now in
  if negb measured then None
  else
    let budget := profile_OccupancyBudget (profileOf config (inst_Profile instance)) in
    Some {| occ_Instance := inst_ID instance; occ_Profile := inst_Profile instance;
      occ_Repo := inst_Repo instance; occ_Demand := inst_Demand instance;
      occ_Resources := inst_Resources instance; occ_Age := age; occ_Budget := budget;
      occ_Warned := (0 <? budget) && (warnThreshold budget <=? age);
      occ_OverBudget := (0 <? budget) && (budget <=? age);
      occ_StarvesQueuedDemand := existsb (CanFit (inst_Resources instance)) waiting |}.

Definition Occupancies (now : Time) (config : Config) (instances : list Instance_)
    (demands : list Demand) : list Occupancy :=
  let waiting := queuedVectors config instances demands in
  sortedInstances instances ≫= (fun i => option_list (occupancyOf now config waiting i)).

(** ** Which drains are planned *)

Section Justified.
Context `{ContentAddress}.

Lemma assignmentRecoveries_In now config instances op :
  In op (assignmentRecoveries now config instances) <->
  exists i, In i instances /\ recoverInstance now config i = Some op.
Proof.
  unfold assignmentRecoveries. rewrite in_bind_option.
  split; intros (i & Hi & Hop); exists i; (split; [|done]); by apply sortBy_in in Hi || apply sortBy_in.
Qed.

Lemma assignmentRecoveries_drains now config instances :
  Forall (fun op => op_Kind op = OperationDrain /\ op_Recovery op = true /\
    exists i, In i instances /\ op_Instance op = inst_ID i)
    (assignmentRecoveries now config instances).
Proof.
  apply List.Forall_forall. intros op Hop.
  apply assignmentRecoveries_In in Hop as (i & Hi & Hop). unfold recoverInstance in Hop.
  repeat (split_match_in Hop; try done); injection Hop as <-; simpl; eauto.
Qed.

(** Evidence that no job is running on an instance. *)
Definition idleEvidence (now : Time) (config : Config) (i : Instance_) : Prop :=
  (inst_Power i = InstancePowerRunning /\ inst_RecoveryReady i = true) \/
  stalledAssignment now (AssignedTimeout config) i = true \/
  lingeringRunner now (AssignedTimeout config) i = true \/
  inst_Power i = InstancePowerStopped.

(** What a recovery drain of an assigned or running instance claims. *)
Definition claimsEvidence (now : Time) (config : Config) (i : Instance_) (op : Operation) : Prop :=
  (idleEvidence now config i /\ op_Demand op = zeroDemandKey /\
   op_OccupancyExceeded op = false /\ op_GuestUnresponsive op = false) \/
  (~ idleEvidence now config i /\ op_Demand op = inst_Demand i /\
   op_GuestUnresponsive op = true /\ op_OccupancyExceeded op = false /\
   guestUnresponsive now (cfg_GuestLiveness config) i = true) \/
  (~ idleEvidence now config i /\ op_Demand op = inst_Demand i /\
   op_OccupancyExceeded op = true /\ op_GuestUnresponsive op = false /\
   occupancyExceeded now (Profiles config) i = true).

Lemma idleEvidence_spec now config i :
  idleEvidence now config i <->
  (bool_decide (inst_Power i = InstancePowerRunning) && inst_RecoveryReady i)
  || stalledAssignment now (AssignedTimeout config) i
  || lingeringRunner now (AssignedTimeout config) i
  || bool_decide (inst_Power i = InstancePowerStopped) = true.
Proof.
  unfold idleEvidence. rewrite !orb_true_iff, andb_true_iff, !bool_decide_eq_true. tauto.
Qed.

Lemma recoverInstance_cases now config i op :
  recoverInstance now config i = Some op ->
  (provisionStalled now (AssignedTimeout config) i = true /\ op_ProvisionStalled op = true /\
   op_Demand op = inst_Demand i) \/
  ((inst_State i = InstanceAssigned \/ inst_State i = InstanceRunning) /\
   op_ProvisionStalled op = false /\ claimsEvidence now config i op).
Proof.
  unfold recoverInstance. destruct (provisionStalled _ _ _); [intros [= <-]; by left|].
  unfold claimsEvidence. rewrite (idleEvidence_spec now config i).
  destruct (negb (state_eqb _ InstanceAssigned) && _) eqn:Es; [done|].
  assert (inst_State i = InstanceAssigned \/ inst_State i = InstanceRunning) as Hs.
  { apply andb_false_iff in Es. rewrite !negb_false_iff in Es.
    unfold state_eqb in Es. by rewrite !bool_decide_eq_true in Es. }
  destruct (bool_decide (inst_Power i = InstancePowerRunning) && inst_RecoveryReady i),
    (stalledAssignment _ _ _), (lingeringRunner _ _ _), (occupancyExceeded _ _ _),
    (guestUnresponsive _ _ _), (bool_decide (inst_Power i = InstancePowerStopped)); simpl;
    try done; intros [= <-]; simpl; right; intuition congruence.
Qed.

(** Every recovery drain names one cause and the cause holds.  It targets an
    observed instance: one stuck in a provisioning step past the deadline, or
    one that is assigned or running.  Of the latter, a drain that claims
    evidence of idleness has it and names no job; a drain without such
    evidence is planned only because the guest is confirmed dead or the
    occupancy budget is spent, claims exactly that one of the two, and names
    the job it ends. *)
Theorem recovery_drains_are_justified now config instances op :
  In op (assignmentRecoveries now config instances) ->
  op_Kind op = OperationDrain /\ op_Recovery op = true /\
  exists i, In i instances /\ op_Instance op = inst_ID i /\
    ((provisionStalled now (AssignedTimeout config) i = true /\ op_ProvisionStalled op = true /\
      op_Demand op = inst_Demand i) \/
     ((inst_State i = InstanceAssigned \/ inst_State i = InstanceRunning) /\
      op_ProvisionStalled op = false /\ claimsEvidence now config i op)).
Proof.
  intros Hin. pose proof (assignmentRecoveries_drains now config instances) as Hd.
  rewrite List.Forall_forall in Hd. destruct (Hd op Hin) as (Hk & Hr & _).
  split; [done|]. split; [done|].
  apply assignmentRecoveries_In in Hin as (i & Hi & Hop). exists i. split; [done|].
  split; [|by apply recoverInstance_cases].
  unfold recoverInstance in Hop. repeat (split_match_in Hop; try done); by injection Hop as <-.
Qed.

(** An instance that is running a job is never drained as idle: with its
    power read as running, no recovery marker and an active job, it is planned
    for recovery exactly when its guest is confirmed dead or its occupancy
    budget is spent. *)
Theorem busy_instance_recovered_only_when_dead_or_over_budget now config i :
  inst_State i = InstanceRunning -> inst_Power i = InstancePowerRunning ->
  inst_RecoveryReady i = false -> inst_JobInactive i = false ->
  (recoverInstance now config i <> None <->
   guestUnresponsive now (cfg_GuestLiveness config) i = true \/
   occupancyExceeded now (Profiles config) i = true).
Proof.
  intros Hs Hp Hr Hj. unfold recoverInstance, provisionStalled. rewrite Hs, Hp, Hr. simpl.
  unfold stalledAssignment, lingeringRunner. rewrite Hs, Hp, Hr, Hj. simpl.
  destruct (occupancyExceeded _ _ _), (guestUnresponsive _ _ _); simpl; intuition congruence.
Qed.
End Justified.

Definition overdueRunner : Instance_ :=
  {| inst_ID := "i1"; inst_Repo := "acme/app"; inst_Demand := Node.key "acme/app" 1;
     inst_Platform := PlatformLinux; inst_Profile := "small"; inst_Route := "route-small";
     inst_Resources := Node.vec 2 2048 1; inst_State := InstanceRunning;
     inst_Power := InstancePowerRunning; inst_RecoveryReady := false;
     inst_AssignedSince := zeroTime; inst_RunningSince := Node.now - 3 * Hour;
     inst_ProvisioningSince := zeroTime; inst_JobInactive := false;
     inst_OccupiedSince := Node.now - 3 * Hour; inst_Guest := zeroGuestLivenessState;
     inst_PowerRun := zeroGuestLivenessState; inst_PowerUnreadable := zeroPowerReadFailure;
     inst_PowerRetracted := false; inst_Attempts := 0; inst_RetryAt := zeroTime |}.

Lemma recovery_drains_are_justified_witness :
  exists op, assignmentRecoveries (H := plainAddress) Node.now Node.config [overdueRunner] = [op] /\
    op_OccupancyExceeded op = true /\ op_Kind op = OperationDrain.
Proof.
  eexists. split; [by vm_compute|]. split; [done|].
  apply (recovery_drains_are_justified (H := plainAddress) Node.now Node.config [overdueRunner]).
  vm_compute. by left.
Defined.

Lemma busy_instance_recovered_only_when_dead_or_over_budget_witness :
  recoverInstance (H := plainAddress) Node.now Node.config overdueRunner <> None.
Proof.
  apply (busy_instance_recovered_only_when_dead_or_over_budget (H := plainAddress));
    try reflexivity. right. by vm_compute.
Defined.

(** ** The occupancy report *)

Lemma round53_upper n : 0 < n -> 16 * round53 n <= 17 * n.
Proof.
  intros Hn. unfold round53. destruct (Z.leb_spec (Z.log2 n - 52) 0) as [|Hk]; [lia|].
  set (k := Z.log2 n - 52) in *. pose proof (Z.log2_spec n Hn) as [Hlo _].
  replace (Z.log2 n) with (52 + k) in Hlo by lia. rewrite Z.pow_add_r in Hlo by lia.
  assert (0 < 2 ^ k) as Hu by (apply Z.pow_pos_nonneg; lia).
  set (unit := 2 ^ k) in *. change (2 ^ 52) with 4503599627370496 in Hlo.
  assert (4503599627370496 <= n / unit) as Hq by (apply Z.div_le_lower_bound; lia).
  pose proof (Z.mul_div_le n unit Hu). destruct (_ || _); nia.
Qed.

Lemma round53_pos n : 0 < n -> 0 < round53 n.
Proof.
  intros Hn. unfold round53. destruct (Z.leb_spec (Z.log2 n - 52) 0) as [|Hk]; [lia|].
  set (k := Z.log2 n - 52) in *. pose proof (Z.log2_spec n Hn) as [Hlo _].
  replace (Z.log2 n) with (52 + k) in Hlo by lia. rewrite Z.pow_add_r in Hlo by lia.
  assert (0 < 2 ^ k) as Hu by (apply Z.pow_pos_nonneg; lia).
  set (unit := 2 ^ k) in *. change (2 ^ 52) with 4503599627370496 in Hlo.
  assert (4503599627370496 <= n / unit) as Hq by (apply Z.div_le_lower_bound; lia).
  destruct (_ || _); nia.
Qed.

Lemma warnThreshold_le budget : 0 < budget -> warnThreshold budget <= budget.
Proof.
  intros Hb. unfold warnThreshold. pose proof (round53_upper budget Hb).
  pose proof (round53_pos budget Hb). pose proof (round53_upper (3 * round53 budget) ltac:(lia)).
  apply Z.div_le_upper_bound; lia.
Qed.

(** The occupancy report and the reap agree.  For an instance of a configured
    profile whose machine is not proven idle, the report calls the hold over
    budget exactly when the recovery would reclaim it for occupancy, and a hold
    over budget has always been warned about first, whatever the float64
    arithmetic of the warning fraction rounds to. *)
Theorem occupancy_report_agrees_with_reap now config waiting i p r :
  Profiles config !! inst_Profile i = Some p -> ProvenIdle (inst_Power i) = false ->
  occupancyOf now config waiting i = Some r ->
  occ_OverBudget r = occupancyExceeded now (Profiles config) i /\
  (occ_OverBudget r = true -> occ_Warned r = true).
Proof.
  intros Hp Hi. unfold occupancyOf, occupancyExceeded, profileOf. rewrite Hp, Hi. simpl.
  destruct (Occupancy_ i now) as [age []]; simpl; [|done]. intros [= <-]. simpl.
  destruct (Z.leb_spec (profile_OccupancyBudget p) 0) as [Hle|Hgt]; simpl.
  - rewrite (proj2 (Z.ltb_ge _ _)) by done. done.
  - rewrite (proj2 (Z.ltb_lt _ _)) by done. simpl. split; [done|].
    rewrite !Z.leb_le. intros. pose proof (warnThreshold_le _ Hgt). lia.
Qed.

Lemma occupancy_report_agrees_with_reap_witness :
  exists r, occupancyOf Node.now Node.config [] overdueRunner = Some r /\ occ_Warned r = true.
Proof.
  eexists. split; [by vm_compute|].
  apply (occupancy_report_agrees_with_reap Node.now Node.config [] overdueRunner
           (Node.profile "small" PlatformLinux (Node.vec 2 2048 1) 0));
    by vm_compute.
Defined.
