(* ===== verification/Order.v ===== *)
(** * The order of the queue (internal/scheduler/scheduler.go)

    Normalisation of the observed demands, the aged and young bands, priority
    tiers with escalation, per-scope fair share inside the aged band, and the
    throughput order with repository round-robin inside the young lanes. *)

From Stdlib Require Import ZArith Lia String Ascii.
From stdpp Require Import base tactics list gmap strings.
From S2P Require Import Prelude GoStrings Liveness Domain Scheduler Envelope.

(** ** Normalisation *)

Definition demandLess (a b : Demand) : bool :=
  if negb (TimeEqual (demand_CreatedAt a) (demand_CreatedAt b))
  then Before (demand_CreatedAt a) (demand_CreatedAt b)
  else strLess (DemandKey_String (demand_Key a)) (DemandKey_String (demand_Key b)).

(** Whether the loop of [normalizedDemands] keeps a demand it has not seen. *)
Definition plannable (input : Input) (demand : Demand) : bool :=
  match Profiles (in_Config input) !! demand_Profile demand with
  | None => false
  | Some profile =>
      DemandKey_Validate (demand_Key demand)
      && bool_decide (profile_Platform profile = demand_Platform demand)
      && bool_decide (profile_Route profile = demand_Route demand)
      && negb (negb (IsZero (demand_NotBefore demand)) && After (demand_NotBefore demand) (Now input))
  end.

Fixpoint normalizeFrom (input : Input) (seen : gset DemandKey) (demands : list Demand) : list Demand :=
  match demands with
  | [] => []
  | demand :: rest =>
      if bool_decide (demand_Key demand ∈ seen) || negb (plannable input demand)
      then normalizeFrom input seen rest
      else demand :: normalizeFrom input ({[demand_Key demand]} ∪ seen) rest
  end.

Definition normalizedDemands (input : Input) : list Demand :=
  sortBy demandLess (normalizeFrom input ∅ (obs_Value (in_Demands input))).

Definition onPlatform (p : Platform) (demand : Demand) : bool :=
  bool_decide (demand_Platform demand = p).

(** [partition]: Linux, then macOS; a demand of any other platform is dropped. *)
Definition partition (demands : list Demand) : list Demand * list Demand :=
  (List.filter (onPlatform PlatformLinux) demands, List.filter (onPlatform PlatformMacOS) demands).

(** ** Age and tier *)

Definition demandAged (now : Time) (age : Duration) (demand : Demand) : bool :=
  (0 <? age) && negb (IsZero (demand_CreatedAt demand))
  && (age <=? TimeSub now (demand_CreatedAt demand)).

Definition splitAged (now : Time) (age : Duration) (demands : list Demand)
    : list Demand * list Demand :=
  (List.filter (demandAged now age) demands,
   List.filter (fun d => negb (demandAged now age d)) demands).

Definition effectiveTier (now : Time) (demand : Demand) (config : Config) : Z :=
  if (PriorityEscalation config <=? 0) || IsZero (demand_CreatedAt demand)
  then Rank (demand_Priority demand)
  else
    let waited := TimeSub now (demand_CreatedAt demand) in
    if waited <=? 0 then Rank (demand_Priority demand)
    else add64 (Rank (demand_Priority demand)) (Z.quot waited (PriorityEscalation config)).

Definition tierOf (input : Input) (demand : Demand) : Z :=
  effectiveTier (Now input) demand (in_Config input).

Definition byTier (input : Input) (demands : list Demand) : list Demand :=
  if (length demands <? 2)%nat then demands
  else sortBy (fun a b => tierOf input b <? tierOf input a) demands.

(** ** Fair share inside the aged band *)

Definition reservedChargePrefix : string := "reserved-".

Definition scopeOf (repo : string) : string :=
  match CutAt "/" (bytesOf repo) with
  | Some (owner, _) => string_of_list_ascii owner
  | None => repo
  end.

Definition holdsScope (i : Instance_) : bool :=
  negb (negb (ConsumesHostResources i)
        || HasPrefix (bytesOf (inst_ID i)) (bytesOf reservedChargePrefix)).

Definition activeScopeCounts (instances : list Instance_) : gmap string Z :=
  fold_left (fun counts i => incr counts (scopeOf (inst_Repo i)))
    (List.filter holdsScope instances) ∅.

(** The rank of each demand and the next free rank of each scope. *)
Definition fairShareStep (acc : gmap string Z * gmap DemandKey Z) (demand : Demand)
    : gmap string Z * gmap DemandKey Z :=
  let '(next, ranks) := acc in
  let scope := scopeOf (key_Repo (demand_Key demand)) in
  (incr next scope, <[demand_Key demand := countOf next scope]> ranks).

Definition fairShareRanks (occupancy : gmap string Z) (demands : list Demand) : gmap DemandKey Z :=
  snd (fold_left fairShareStep demands (occupancy, ∅)).

(** Runs of indexes still open, by profile, and the closed ones.  The source
    ranges over a map here; the closed runs are sorted at the end, so the order
    in which they are closed is immaterial. *)
Definition closesRun (demands : list Demand) (demand : Demand) (entry : ProfileID * list nat) : bool :=
  let '(profile, run) := entry in
  negb (bool_decide (profile = demand_Profile demand)
        || match head run ≫= (fun first => demands !! first) with
           | Some first => bool_decide (demand_Platform first = demand_Platform demand)
           | None => true
           end).

Definition segmentStep (demands : list Demand)
    (acc : gmap ProfileID (list nat) * list (list nat)) (entry : nat * Demand)
    : gmap ProfileID (list nat) * list (list nat) :=
  let '(opened, segments) := acc in
  let '(index, demand) := entry in
  let closing := filter (fun e => closesRun demands demand e = true) opened in
  let staying := filter (fun e => closesRun demands demand e = false) opened in
  (<[demand_Profile demand := default [] (staying !! demand_Profile demand) ++ [index]]> staying,
   segments ++ map snd (map_to_list closing)).

Definition indexed {A} (l : list A) : list (nat * A) := combine (seq 0 (length l)) l.

Definition fairShareSegments (demands : list Demand) : list (list nat) :=
  let '(opened, segments) := fold_left (segmentStep demands) (indexed demands) (∅, []) in
  sortBy (fun a b => (List.hd 0 a <? List.hd 0 b)%nat) (segments ++ map snd (map_to_list opened)).

Definition fairShareLess (input : Input) (share : gmap DemandKey Z) (left right : Demand) : bool :=
  let leftTier := tierOf input left in
  let rightTier := tierOf input right in
  if negb (leftTier =? rightTier) then rightTier <? leftTier
  else default 0 (share !! demand_Key left) <? default 0 (share !! demand_Key right).

(** Put the demands back at the indexes of their segment, in the sorted order. *)
Definition writeBack (ordered : list Demand) (segment : list nat) (competing : list Demand)
    : list Demand :=
  fold_left (fun acc '(index, demand) => <[index := demand]> acc) (combine segment competing) ordered.

Definition shareSegment (input : Input) (share : gmap DemandKey Z) (demands : list Demand)
    (ordered : list Demand) (segment : list nat) : list Demand :=
  if (length segment <? 2)%nat then ordered
  else
    let competing := segment ≫= (fun i => option_list (demands !! i)) in
    writeBack ordered segment (sortBy (fairShareLess input share) competing).

Definition byScopeFairShare (input : Input) (demands : list Demand) : list Demand :=
  if (length demands <? 2)%nat then demands
  else
    let share := fairShareRanks (activeScopeCounts (instancesOf input)) demands in
    fold_left (shareSegment input share demands) (fairShareSegments demands) demands.

Definition agedOrder (input : Input) (demands : list Demand) : list Demand :=
  byScopeFairShare input (byTier input demands).

(** [rank[demand.Key] = index] over a list. *)
Definition rankMap (demands : list Demand) : gmap DemandKey Z :=
  fold_left (fun m '(index, demand) => <[demand_Key demand := Z.of_nat index]> m)
    (indexed demands) ∅.

(** The place of each candidate: its rank in the band, or behind all of it. *)
Definition rankedMap (rank : gmap DemandKey Z) (bandLength : nat) (demands : list Demand)
    : gmap DemandKey Z :=
  fold_left (fun m '(index, demand) =>
      <[demand_Key demand :=
          match rank !! demand_Key demand with
          | Some place => place
          | None => Z.of_nat (bandLength + index)
          end]> m)
    (indexed demands) ∅.

Definition agedQueueOrder (input : Input) (demands : list Demand) : list Demand :=
  if (length demands <? 2)%nat then demands
  else
    let band := fst (splitAged (Now input) (FairnessAge (in_Config input)) (normalizedDemands input)) in
    let rank := rankMap (agedOrder input band) in
    let ranked := rankedMap rank (length band) demands in
    sortBy (fun a b => default 0 (ranked !! demand_Key a) <? default 0 (ranked !! demand_Key b)) demands.

(** ** The young lanes *)

Definition eventRank (event : Event) : Z :=
  if bool_decide (event = EventPullRequest) then 0 else 1.

Definition dominantShare (resources capacity : Resources) : Z * Z :=
  let widen '(numerator, denominator) '(n, d) :=
    if mul64 numerator d <? mul64 n denominator then (n, d) else (numerator, denominator) in
  fold_left widen
    [(MemoryMB resources, Z.max (MemoryMB capacity) 1); (Slots resources, Z.max (Slots capacity) 1)]
    (CPU resources, Z.max (CPU capacity) 1).

Definition resourceCostLess (a b capacity : Resources) : bool :=
  let '(an, ad) := dominantShare a capacity in
  let '(bn, bd) := dominantShare b capacity in
  if negb (mul64 an bd =? mul64 bn ad) then mul64 an bd <? mul64 bn ad
  else if negb (CPU a =? CPU b) then CPU a <? CPU b
  else if negb (MemoryMB a =? MemoryMB b) then MemoryMB a <? MemoryMB b
  else Slots a <? Slots b.

Record throughputBucket := {
  bucket_event : Z;
  bucket_resources : Resources;
  bucket_demands : list Demand
}.

(** Append to the first bucket of the same event rank and vector, or open one. *)
Fixpoint addToBucket (event : Z) (resources : Resources) (demand : Demand)
    (buckets : list throughputBucket) : list throughputBucket :=
  match buckets with
  | [] => [{| bucket_event := event; bucket_resources := resources; bucket_demands := [demand] |}]
  | b :: rest =>
      if (bucket_event b =? event) && bool_decide (bucket_resources b = resources)
      then {| bucket_event := bucket_event b; bucket_resources := bucket_resources b;
              bucket_demands := bucket_demands b ++ [demand] |} :: rest
      else b :: addToBucket event resources demand rest
  end.

Definition bucketLess (capacity : Resources) (a b : throughputBucket) : bool :=
  if negb (bucket_event a =? bucket_event b) then bucket_event a <? bucket_event b
  else resourceCostLess (bucket_resources a) (bucket_resources b) capacity.

(** First occurrences, in order: the [repos] slice of [fairOrder]. *)
Fixpoint distinctRepos (seen : gset string) (demands : list Demand) : list string :=
  match demands with
  | [] => []
  | demand :: rest =>
      let repo := key_Repo (demand_Key demand) in
      if bool_decide (repo ∈ seen) then distinctRepos seen rest
      else repo :: distinctRepos ({[repo]} ∪ seen) rest
  end.

Definition repoLess (a b : Demand) : bool :=
  if negb (eventRank (demand_Event a) =? eventRank (demand_Event b))
  then eventRank (demand_Event a) <? eventRank (demand_Event b)
  else demandLess a b.

(** [byRepo[repo]], sorted. *)
Definition repoQueue (demands : list Demand) (repo : string) : list Demand :=
  sortBy repoLess (List.filter (fun d => bool_decide (key_Repo (demand_Key d) = repo)) demands).

(** [sort.SearchStrings]: the first index whose element is not below [x]. *)
Fixpoint searchStrings (l : list string) (x : string) : nat :=
  match l with
  | [] => 0
  | s :: rest => if strLess s x then S (searchStrings rest x) else 0
  end.

Definition rotateRepos (repos : list string) (cursor : string) : list string :=
  if (1 <? length repos)%nat && negb (bool_decide (cursor = "")) then
    let start := searchStrings repos cursor in
    if bool_decide (repos !! start = Some cursor) then
      let start' := (S start mod length repos)%nat in
      drop start' repos ++ take start' repos
    else repos
  else repos.

(** One round takes the next demand of every repository that has one. *)
Definition roundOf (queues : list (list Demand)) (round : nat) : list Demand :=
  queues ≫= (fun q => option_list (q !! round)).

(** The round-robin loop, left at the first round that adds nothing. *)
Fixpoint rounds (fuel : nat) (queues : list (list Demand)) (round : nat) : list Demand :=
  match fuel with
  | O => []
  | S fuel' =>
      match roundOf queues round with
      | [] => []
      | added => added ++ rounds fuel' queues (S round)
      end
  end.

Definition fairOrder (demands : list Demand) (cursor : string) : list Demand :=
  let repos := rotateRepos (sortBy strLess (distinctRepos ∅ demands)) cursor in
  rounds (S (length demands)) (map (repoQueue demands) repos) 0.

Definition throughputOrder (demands : list Demand) (cursor : string) (config : Config) : list Demand :=
  let buckets := fold_left (fun buckets demand =>
      addToBucket (eventRank (demand_Event demand))
        (profile_Resources (profileOf config (demand_Profile demand))) demand buckets)
    demands [] in
  sortBy (bucketLess (LinuxCapacity config)) buckets
    ≫= (fun bucket => fairOrder (bucket_demands bucket) cursor).

Definition isControlPlane (config : Config) (demand : Demand) : bool :=
  bool_decide (classOf config (key_Repo (demand_Key demand)) = SchedulingControlPlane).

Definition youngPriorityOrder (input : Input) (demands : list Demand) (cursor : string)
    (config : Config) : list Demand :=
  let controlPlane := List.filter (isControlPlane config) demands in
  let standard := List.filter (fun d => negb (isControlPlane config d)) demands in
  byTier input (throughputOrder controlPlane cursor config)
  ++ byTier input (throughputOrder standard cursor config).

Definition priorityOrder (input : Input) (demands : list Demand) : list Demand :=
  let '(aged, young) := splitAged (Now input) (FairnessAge (in_Config input)) demands in
  agedQueueOrder input aged
  ++ youngPriorityOrder input young (st_DRRCursor (Prior input)) (in_Config input).

Definition priorityRank (input : Input) : gmap DemandKey Z :=
  rankMap (priorityOrder input (normalizedDemands input)).

(** ** Idle runners *)

Definition matchKey (repo : string) (profile : ProfileID) (route : Route) : string :=
  (repo +:+ String "000" "" +:+ profile +:+ String "000" "" +:+ route)%string.

Definition idleRunners (instances : list Instance_) : gmap string Z :=
  fold_left (fun idle i => incr idle (matchKey (inst_Repo i) (inst_Profile i) (inst_Route i)))
    (List.filter (fun i => state_eqb (inst_State i) InstanceOnlineIdle) instances) ∅.

Fixpoint consumeIdle (idle : gmap string Z) (demands : list Demand) : list Demand :=
  match demands with
  | [] => []
  | demand :: rest =>
      let key := matchKey (key_Repo (demand_Key demand)) (demand_Profile demand)
                   (demand_Route demand) in
      if 0 <? countOf idle key
      then consumeIdle (<[key := countOf idle key - 1]> idle) rest
      else demand :: consumeIdle idle rest
  end.

Definition consumeCompatibleIdle (demands : list Demand) (instances : list Instance_) : list Demand :=
  consumeIdle (idleRunners instances) demands.

(** ** Lemmas: normalisation *)

Definition keys (demands : list Demand) : list DemandKey := map demand_Key demands.

Lemma normalizeFrom_sublist input seen demands : normalizeFrom input seen demands `sublist_of` demands.
Proof.
  revert seen. induction demands as [|d demands IH]; intros seen; simpl; [constructor|].
  split_match; by constructor.
Qed.

Lemma normalizeFrom_plannable input seen demands :
  Forall (fun d => plannable input d = true) (normalizeFrom input seen demands).
Proof.
  revert seen. induction demands as [|d demands IH]; intros seen; simpl; [constructor|].
  destruct (bool_decide _ || _) eqn:E; [done|]. bool_to_prop. by constructor.
Qed.

Lemma normalizeFrom_unseen input seen demands d :
  In d (normalizeFrom input seen demands) -> demand_Key d ∉ seen.
Proof.
  revert seen. induction demands as [|x demands IH]; intros seen; simpl; [done|].
  destruct (bool_decide _ || _) eqn:E; [apply IH|].
  intros [->|Hin].
  - apply orb_false_iff in E as [E _]. by apply bool_decide_eq_false in E.
  - apply IH in Hin. set_solver.
Qed.

Lemma normalizeFrom_NoDup input seen demands :
  List.NoDup (keys (normalizeFrom input seen demands)).
Proof.
  revert seen. induction demands as [|x demands IH]; intros seen; simpl; [constructor|].
  destruct (bool_decide _ || _); [done|]. simpl. constructor; [|done].
  unfold keys. rewrite in_map_iff. intros (d & Hd & Hin).
  apply normalizeFrom_unseen in Hin. set_solver.
Qed.

Lemma normalizedDemands_NoDup input : List.NoDup (keys (normalizedDemands input)).
Proof.
  eapply NoDup_map_perm; [apply sortBy_perm|apply normalizeFrom_NoDup].
Qed.

Lemma normalizedDemands_In input d :
  In d (normalizedDemands input) ->
  In d (obs_Value (in_Demands input)) /\ plannable input d = true.
Proof.
  unfold normalizedDemands. rewrite sortBy_in. intros Hin. split.
  - eapply sublist_In; [apply normalizeFrom_sublist|done].
  - pose proof (normalizeFrom_plannable input ∅ (obs_Value (in_Demands input))) as H.
    rewrite List.Forall_forall in H. by apply H.
Qed.

Lemma plannable_profile input d :
  plannable input d = true ->
  exists p, Profiles (in_Config input) !! demand_Profile d = Some p /\
    profileOf (in_Config input) (demand_Profile d) = p /\
    profile_Platform p = demand_Platform d /\ profile_Route p = demand_Route d /\
    DemandKey_Validate (demand_Key d) = true.
Proof.
  unfold plannable, profileOf. destruct (Profiles (in_Config input) !! demand_Profile d) as [p|]; [|done].
  intros H. exists p. repeat (apply andb_true_iff in H as [H ?]).
  rewrite !bool_decide_eq_true in *. auto.
Qed.

Lemma key_determines l a b :
  List.NoDup (keys l) -> In a l -> In b l -> demand_Key a = demand_Key b -> a = b.
Proof.
  induction l as [|x l IH]; [done|]. simpl. intros Hn. inversion_clear Hn as [|? ? Hx Hn'].
  unfold keys in *. rewrite in_map_iff in Hx.
  intros [->|Ha] [->|Hb] E; [done| | |by apply IH]; exfalso; apply Hx; eauto.
Qed.

(** ** Lemmas: permutations *)

Lemma splitAged_perm now age demands :
  Permutation (fst (splitAged now age demands) ++ snd (splitAged now age demands)) demands.
Proof. apply filter_negb_perm. Qed.

Lemma byTier_perm input demands : Permutation (byTier input demands) demands.
Proof. unfold byTier. destruct (_ <? 2)%nat; [done|apply sortBy_perm]. Qed.

Lemma agedQueueOrder_perm input demands : Permutation (agedQueueOrder input demands) demands.
Proof. unfold agedQueueOrder. destruct (_ <? 2)%nat; [done|apply sortBy_perm]. Qed.

Lemma roundOf_drop queues round :
  Permutation (roundOf queues round ++ concat (map (drop (S round)) queues))
    (concat (map (drop round) queues)).
Proof.
  unfold roundOf. induction queues as [|q queues IH]; [done|].
  rewrite bind_cons. cbn [map concat].
  destruct (q !! round) as [d|] eqn:E; cbn [option_list].
  - rewrite (drop_S q d round E). simpl. constructor.
    rewrite Permutation_app_swap_app. by apply Permutation_app_head.
  - apply lookup_ge_None in E. rewrite !drop_ge by lia. done.
Qed.

Lemma roundOf_nil queues round :
  roundOf queues round = [] -> concat (map (drop round) queues) = [].
Proof.
  unfold roundOf. induction queues as [|q queues IH]; [done|].
  rewrite bind_cons. intros H. apply app_eq_nil in H as [H1 H2].
  simpl. rewrite IH by done. destruct (q !! round) eqn:E; [done|].
  apply lookup_ge_None in E. by rewrite drop_ge.
Qed.

(** The round-robin loop runs until every queue is empty. *)
Lemma rounds_perm fuel queues round :
  (forall q, In q queues -> (length q <= round + fuel)%nat) ->
  Permutation (rounds fuel queues round) (concat (map (drop round) queues)).
Proof.
  revert round. induction fuel as [|fuel IH]; intros round Hf; simpl.
  - rewrite (roundOf_nil queues round); [done|]. unfold roundOf.
    induction queues as [|q queues IH]; [done|]. rewrite bind_cons.
    rewrite lookup_ge_None_2; [|specialize (Hf q (or_introl eq_refl)); lia].
    apply IH. intros; apply Hf; by right.
  - destruct (roundOf queues round) as [|x l] eqn:E; [by rewrite roundOf_nil|].
    rewrite IH; [by rewrite <- (roundOf_drop queues round), E|]. intros q Hq. specialize (Hf q Hq). lia.
Qed.

Lemma filter_comm {A} (f g : A -> bool) l :
  List.filter f (List.filter g l) = List.filter (fun x => g x && f x) l.
Proof.
  induction l as [|x l IH]; simpl; [done|]. destruct (g x) eqn:?; simpl; rewrite IH; done.
Qed.

Lemma filter_ext_in' {A} (f g : A -> bool) l :
  (forall x, In x l -> f x = g x) -> List.filter f l = List.filter g l.
Proof. apply List.filter_ext_in. Qed.

(** Grouping by a key rearranges. *)
Lemma group_perm {A} (f : A -> string) ks (l : list A) :
  List.NoDup ks -> (forall x, In x l -> In (f x) ks) ->
  Permutation (concat (map (fun k => List.filter (fun x => bool_decide (f x = k)) l) ks)) l.
Proof.
  revert l. induction ks as [|k ks IH]; intros l Hn Hc; simpl.
  { destruct l as [|x l]; [done|]. destruct (Hc x (or_introl eq_refl)). }
  inversion_clear Hn as [|? ? Hk Hn'].
  transitivity (List.filter (fun x => bool_decide (f x = k)) l
    ++ List.filter (fun x => negb (bool_decide (f x = k))) l); [|apply filter_negb_perm].
  apply Permutation_app_head. rewrite <- (IH (List.filter _ l)); [|done|].
  - erewrite map_ext_in; [done|]. intros k' Hk'. cbn beta. rewrite filter_comm.
    apply filter_ext_in'. intros x _. repeat case_bool_decide; simplify_eq/=; done.
  - intros x Hx. apply List.filter_In in Hx as [Hx Hb]. apply negb_true_iff, bool_decide_eq_false in Hb.
    by destruct (Hc x Hx) as [->|?].
Qed.

Lemma distinctRepos_NoDup seen demands :
  List.NoDup (distinctRepos seen demands) /\
  Forall (fun r => r ∉ seen) (distinctRepos seen demands).
Proof.
  revert seen. induction demands as [|d demands IH]; intros seen; simpl; [repeat constructor|].
  case_bool_decide; [apply IH|]. destruct (IH ({[key_Repo (demand_Key d)]} ∪ seen)) as [Hn Hf].
  rewrite List.Forall_forall in Hf. split; constructor; try done.
  - intros Hin. apply Hf in Hin. set_solver.
  - apply List.Forall_forall. intros r Hr. apply Hf in Hr. set_solver.
Qed.

Lemma distinctRepos_cover seen demands d :
  In d demands -> key_Repo (demand_Key d) ∉ seen -> In (key_Repo (demand_Key d)) (distinctRepos seen demands).
Proof.
  revert seen. induction demands as [|x demands IH]; intros seen; simpl; [done|].
  intros Hin Hs. case_bool_decide as Hx.
  - destruct Hin as [->|Hin]; [done|]. by apply IH.
  - destruct (decide (key_Repo (demand_Key d) = key_Repo (demand_Key x))) as [->|Hne]; [by left|].
    destruct Hin as [->|Hin]; [done|]. right. apply IH; [done|set_solver].
Qed.

Lemma rotateRepos_perm repos cursor : Permutation (rotateRepos repos cursor) repos.
Proof.
  unfold rotateRepos. repeat split_match; try done.
  rewrite Permutation_app_comm. by rewrite take_drop.
Qed.

Lemma fairOrder_perm demands cursor : Permutation (fairOrder demands cursor) demands.
Proof.
  unfold fairOrder. set (repos := rotateRepos _ _).
  assert (Permutation repos (distinctRepos ∅ demands)) as HP
    by (unfold repos; rewrite rotateRepos_perm; apply sortBy_perm).
  rewrite rounds_perm.
  - rewrite map_map.
    etransitivity; [|apply (group_perm (fun d => key_Repo (demand_Key d)) repos demands)].
    + clear HP. induction repos as [|r repos IH]; simpl; [done|].
      rewrite drop_0. apply Permutation_app; [apply sortBy_perm|done].
    + eapply Permutation_NoDup; [symmetry; exact HP|apply distinctRepos_NoDup].
    + intros d Hd. eapply Permutation_in; [symmetry; exact HP|]. apply distinctRepos_cover; set_solver.
  - intros q Hq. apply in_map_iff in Hq as (r & <- & _). unfold repoQueue.
    rewrite sortBy_length. pose proof (List.filter_length_le
      (fun d => bool_decide (key_Repo (demand_Key d) = r)) demands). lia.
Qed.

Definition bucketed (buckets : list throughputBucket) : list Demand :=
  concat (map bucket_demands buckets).

Lemma addToBucket_perm event resources d buckets :
  Permutation (bucketed (addToBucket event resources d buckets)) (d :: bucketed buckets).
Proof.
  unfold bucketed. induction buckets as [|b buckets IH]; simpl; [done|].
  destruct (_ && _); simpl.
  - rewrite <- app_assoc. simpl. symmetry. apply Permutation_middle.
  - rewrite IH. symmetry. apply Permutation_middle.
Qed.

Lemma bind_perm {A B} (f g : A -> list B) l :
  (forall x, Permutation (f x) (g x)) -> Permutation (l ≫= f) (l ≫= g).
Proof.
  intros H. induction l as [|x l IH]; [done|]. rewrite !bind_cons. by apply Permutation_app.
Qed.

Lemma bind_concat {A B} (f : A -> list B) l : l ≫= f = concat (map f l).
Proof. induction l as [|x l IH]; [done|]. rewrite bind_cons, IH. done. Qed.

Lemma concat_perm {A} (l1 l2 : list (list A)) :
  Permutation l1 l2 -> Permutation (concat l1) (concat l2).
Proof.
  induction 1; simpl; [done|by apply Permutation_app_head| |by etransitivity].
  apply Permutation_app_swap_app.
Qed.

Lemma throughputOrder_perm demands cursor config :
  Permutation (throughputOrder demands cursor config) demands.
Proof.
  unfold throughputOrder. set (step := fun buckets demand => _).
  rewrite (bind_perm _ bucket_demands) by (intros; apply fairOrder_perm).
  rewrite bind_concat.
  etransitivity; [apply concat_perm, Permutation_map, sortBy_perm|].
  enough (forall buckets, Permutation (bucketed (fold_left step demands buckets))
    (bucketed buckets ++ demands)) as H by apply H.
  induction demands as [|d demands IH]; intros buckets; simpl; [by rewrite app_nil_r|].
  rewrite IH. unfold step. rewrite addToBucket_perm. simpl. apply Permutation_middle.
Qed.

Lemma youngPriorityOrder_perm input demands cursor config :
  Permutation (youngPriorityOrder input demands cursor config) demands.
Proof.
  unfold youngPriorityOrder. rewrite !byTier_perm, !throughputOrder_perm. apply filter_negb_perm.
Qed.

(** Ordering neither loses nor invents a demand: the bound on the round-robin
    loop is enough. *)
Lemma priorityOrder_perm input demands : Permutation (priorityOrder input demands) demands.
Proof.
  unfold priorityOrder. destruct (splitAged _ _ _) as [aged young] eqn:E.
  rewrite agedQueueOrder_perm, youngPriorityOrder_perm.
  pose proof (splitAged_perm (Now input) (FairnessAge (in_Config input)) demands) as H.
  by rewrite E in H.
Qed.

Lemma consumeIdle_sublist idle demands : consumeIdle idle demands `sublist_of` demands.
Proof.
  revert idle. induction demands as [|d demands IH]; intros idle; simpl; [constructor|].
  destruct (0 <? _); by constructor.
Qed.

#[export] Hint Resolve splitAged_perm byTier_perm agedQueueOrder_perm fairOrder_perm
  throughputOrder_perm youngPriorityOrder_perm priorityOrder_perm : fleet.
