(* ===== verification/FairShare.v ===== *)
(** * Fair share and escalation (internal/scheduler/scheduler.go)

    What the aged band's order guarantees: which demands fair share may
    exchange, in which order it leaves them, and how escalation bounds the
    overtaking a priority tier allows. *)

From Stdlib Require Import ZArith Lia String Permutation Sorted.
From stdpp Require Import base tactics list gmap strings.
From S2P Require Import Prelude GoStrings Liveness Domain Scheduler Envelope Order Fixture.

Section Segments.
Context (demands : list Demand).

Definition profileAt (i : nat) : option ProfileID := demand_Profile <$> demands !! i.
Definition platformAt (i : nat) : option Platform := demand_Platform <$> demands !! i.

(** A profile belongs to one platform, as it does in every configuration:
    [plannable] keeps only demands whose platform is their profile's. *)
Definition profile_platform : Prop :=
  forall i j, is_Some (demands !! i) -> profileAt i = profileAt j -> platformAt i = platformAt j.

(** Two positions compete: one profile, and no demand of another platform in
    between. *)
Definition competes (i j : nat) : Prop :=
  profileAt i = profileAt j /\
  (forall k, (i < k < j \/ j < k < i)%nat -> platformAt k = platformAt i).

Lemma in_range_Some i : (i < length demands)%nat <-> is_Some (demands !! i).
Proof. symmetry. apply lookup_lt_is_Some. Qed.

Lemma competes_refl i : competes i i.
Proof. split; [done|]. intros k Hk. lia. Qed.

Lemma competes_sym i j :
  profile_platform -> is_Some (demands !! i) -> competes i j -> competes j i.
Proof.
  intros Hpp Hi [Hp Hb]. split; [done|]. intros k Hk.
  rewrite (Hb k) by lia. by apply Hpp.
Qed.

Lemma competes_trans i j k :
  profile_platform -> is_Some (demands !! i) -> is_Some (demands !! j) ->
  competes i j -> competes j k -> competes i k.
Proof.
  intros Hpp Hi Hj [Hp1 Hb1] [Hp2 Hb2]. split; [by rewrite Hp1|]. intros z Hz.
  assert (platformAt j = platformAt i) as Hji by (symmetry; by apply Hpp).
  destruct (decide (z = j)) as [->|Hne]; [done|].
  destruct (decide ((i < z < j \/ j < z < i)%nat)); [by apply Hb1|].
  rewrite (Hb2 z) by lia. done.
Qed.

(** What holds after the first [n] positions have been visited. *)
Record segmented (n : nat) (opened : gmap ProfileID (list nat)) (segments : list (list nat)) : Prop := {
  segmented_perm : Permutation (concat (segments ++ map snd (map_to_list opened))) (seq 0 n);
  segmented_increasing : forall s, In s (segments ++ map snd (map_to_list opened)) ->
    StronglySorted lt s;
  segmented_closed : forall s x y, In s segments -> In x s ->
    (y < length demands)%nat -> (In y s <-> competes x y);
  segmented_open : forall p r, opened !! p = Some r ->
    r <> [] /\ forall x, In x r -> profileAt x = Some p /\
      (forall z, (x < z < n)%nat -> platformAt z = platformAt x) /\
      (forall y, (y < n)%nat -> (In y r <-> competes x y))
}.

Lemma segmented_start : segmented 0 ∅ [].
Proof.
  split; simpl.
  - by rewrite map_to_list_empty.
  - rewrite map_to_list_empty. intros ? [].
  - intros ??? [].
  - intros p r. by rewrite lookup_empty.
Qed.

Lemma in_values {A} (m : gmap ProfileID A) r : In r (map snd (map_to_list m)) <-> exists p, m !! p = Some r.
Proof.
  rewrite in_map_iff. split.
  - intros ([p r'] & <- & Hin). exists p. by apply elem_of_map_to_list, list_elem_of_In.
  - intros [p Hp]. exists (p, r). split; [done|]. by apply list_elem_of_In, elem_of_map_to_list.
Qed.

Lemma segmented_bound n opened segments s x :
  segmented n opened segments -> In s (segments ++ map snd (map_to_list opened)) -> In x s ->
  (x < n)%nat.
Proof.
  intros H Hs Hx. assert (In x (seq 0 n)) as Hin.
  { eapply Permutation_in; [apply H|]. apply in_concat. eauto. }
  apply in_seq in Hin. lia.
Qed.

Lemma segmented_cover n opened segments x :
  segmented n opened segments -> (x < n)%nat ->
  exists s, In s (segments ++ map snd (map_to_list opened)) /\ In x s.
Proof.
  intros H Hx. apply in_concat. eapply Permutation_in; [symmetry; apply H|]. apply in_seq. lia.
Qed.

(** One step closes the runs the demand is a barrier for and extends its own. *)
Section Step.
Context (n : nat) (d : Demand) (opened : gmap ProfileID (list nat)) (segments : list (list nat)).
Hypothesis Hpp : profile_platform.
Hypothesis Hn : demands !! n = Some d.
Hypothesis Hseg : segmented n opened segments.

Definition closing := filter (fun e => closesRun demands d e = true) opened.
Definition staying := filter (fun e => closesRun demands d e = false) opened.
Definition ownRun := default [] (staying !! demand_Profile d).
Definition otherRuns := delete (demand_Profile d) staying.

Lemma closing_staying_perm :
  Permutation (map_to_list opened) (map_to_list closing ++ map_to_list staying).
Proof.
  apply NoDup_Permutation; [apply NoDup_map_to_list| |].
  - apply NoDup_app. split; [apply NoDup_map_to_list|]. split; [|apply NoDup_map_to_list].
    intros [p r] H1 H2. apply elem_of_map_to_list in H1, H2.
    apply map_lookup_filter_Some in H1 as [_ H1], H2 as [_ H2]. congruence.
  - intros [p r]. rewrite elem_of_app, !elem_of_map_to_list. unfold closing, staying.
    rewrite !map_lookup_filter_Some. destruct (closesRun demands d (p, r)); intuition congruence.
Qed.

Lemma staying_perm :
  Permutation (concat (map snd (map_to_list staying))) (ownRun ++ concat (map snd (map_to_list otherRuns))).
Proof.
  unfold ownRun, otherRuns. destruct (staying !! demand_Profile d) as [r|] eqn:E; simpl.
  - rewrite <- (map_to_list_delete staying _ r E). done.
  - by rewrite delete_id.
Qed.

Lemma extended_values :
  Permutation (map snd (map_to_list (<[demand_Profile d := ownRun ++ [n]]> staying)))
    ((ownRun ++ [n]) :: map snd (map_to_list otherRuns)).
Proof.
  unfold otherRuns. rewrite <- insert_delete_eq.
  rewrite map_to_list_insert by apply lookup_delete_eq. done.
Qed.

Lemma open_lookup p r : staying !! p = Some r -> opened !! p = Some r /\ closesRun demands d (p, r) = false.
Proof. intros H. by apply map_lookup_filter_Some in H. Qed.

Lemma closed_lookup p r : closing !! p = Some r -> opened !! p = Some r /\ closesRun demands d (p, r) = true.
Proof. intros H. by apply map_lookup_filter_Some in H. Qed.

(** The platform of a run's first position is that of the whole run. *)
Lemma closesRun_spec p r x :
  opened !! p = Some r -> In x r ->
  closesRun demands d (p, r) = negb (bool_decide (p = demand_Profile d)
    || bool_decide (platformAt x = Some (demand_Platform d))).
Proof.
  intros Ho Hx. destruct (segmented_open _ _ _ Hseg _ _ Ho) as [Hne Hr].
  destruct r as [|f r]; [done|]. simpl.
  destruct (Hr f (or_introl eq_refl)) as [Hf _]. destruct (Hr x Hx) as [Hpx _].
  assert (platformAt f = platformAt x) as E.
  { apply Hpp; [|congruence]. unfold profileAt in Hf. by destruct (demands !! f). }
  rewrite <- E. unfold platformAt, profileAt in *.
  destruct (demands !! f) as [df|] eqn:Ef; [|done]. simpl. f_equal. f_equal.
  apply bool_decide_ext. split; congruence.
Qed.

Lemma not_visited s : In s (segments ++ map snd (map_to_list opened)) -> ~ In n s.
Proof. intros Hs Hin. pose proof (segmented_bound _ _ _ _ _ Hseg Hs Hin). lia. Qed.

Lemma opened_run p r : opened !! p = Some r -> In r (segments ++ map snd (map_to_list opened)).
Proof. intros H. apply in_or_app. right. apply in_values. eauto. Qed.

Lemma step_perm :
  Permutation (concat ((segments ++ map snd (map_to_list closing))
      ++ map snd (map_to_list (<[demand_Profile d := ownRun ++ [n]]> staying)))) (seq 0 (S n)).
Proof.
  rewrite seq_S, <- (segmented_perm _ _ _ Hseg). simpl.
  etransitivity; [apply concat_perm, Permutation_app_head, extended_values|].
  rewrite !concat_app. simpl.
  rewrite <- !app_assoc. apply Permutation_app_head.
  etransitivity; [|apply Permutation_app_tail, concat_perm, Permutation_map; symmetry;
    apply closing_staying_perm].
  rewrite map_app, concat_app, <- app_assoc. apply Permutation_app_head.
  rewrite staying_perm, <- app_assoc. apply Permutation_app_head.
  apply Permutation_app_comm.
Qed.

Lemma step_increasing s :
  In s ((segments ++ map snd (map_to_list closing))
      ++ map snd (map_to_list (<[demand_Profile d := ownRun ++ [n]]> staying))) ->
  StronglySorted lt s.
Proof.
  assert (forall r, In r (map snd (map_to_list staying)) -> StronglySorted lt r) as Hst.
  { intros r Hr. apply in_values in Hr as [p Hp]. apply open_lookup in Hp as [Hp _].
    apply (segmented_increasing _ _ _ Hseg). by eapply opened_run. }
  rewrite !in_app_iff. intros [[Hs|Hs]|Hs].
  - apply (segmented_increasing _ _ _ Hseg), in_or_app. by left.
  - apply in_values in Hs as [p Hp]. apply closed_lookup in Hp as [Hp _].
    apply (segmented_increasing _ _ _ Hseg). by eapply opened_run.
  - apply in_values in Hs as [p Hp]. rewrite lookup_insert_Some in Hp.
    destruct Hp as [[<- <-]|[Hne Hp]]; [|apply Hst, in_values; eauto].
    unfold ownRun. destruct (staying !! demand_Profile d) as [r|] eqn:E; simpl; [|by repeat constructor].
    assert (In r (segments ++ map snd (map_to_list opened))) as Hin
      by (apply open_lookup in E as [E _]; by eapply opened_run).
    assert (Forall (fun x => (x < n)%nat) r) as Hb.
    { apply List.Forall_forall. intros x. by apply (segmented_bound n opened segments). }
    specialize (Hst r ltac:(apply in_values; eauto)). clear -Hst Hb.
    induction Hst as [|x r Hs IH Hx]; simpl; [by repeat constructor|].
    inversion_clear Hb. constructor; [by apply IH|]. apply List.Forall_app. split; [done|].
    by constructor.
Qed.

Lemma n_in_range : (n < length demands)%nat.
Proof. by eapply lookup_lt_Some. Qed.

Lemma profileAt_n : profileAt n = Some (demand_Profile d).
Proof. unfold profileAt. by rewrite Hn. Qed.

Lemma platformAt_n : platformAt n = Some (demand_Platform d).
Proof. unfold platformAt. by rewrite Hn. Qed.

Lemma step_closed s x y :
  In s (segments ++ map snd (map_to_list closing)) -> In x s ->
  (y < length demands)%nat -> (In y s <-> competes x y).
Proof.
  intros Hs Hx Hy. apply in_app_or in Hs as [Hs|Hs]; [by apply Hseg|].
  apply in_values in Hs as [p Hp]. apply closed_lookup in Hp as [Hp Hc].
  rewrite (closesRun_spec p s x Hp Hx) in Hc.
  apply negb_true_iff, orb_false_iff in Hc as [Hc1 Hc2].
  apply bool_decide_eq_false in Hc1, Hc2.
  destruct (segmented_open _ _ _ Hseg _ _ Hp) as [_ Hr]. destruct (Hr x Hx) as (Hpx & _ & Hcl).
  assert (x < n)%nat as Hxn by (eapply segmented_bound; [exact Hseg|by eapply opened_run|done]).
  destruct (decide (y < n)%nat) as [Hlt|Hge]; [by apply Hcl|].
  split.
  - intros Hin. exfalso.
    pose proof (segmented_bound _ _ _ _ _ Hseg (opened_run p s Hp) Hin). lia.
  - intros [Hp' Hb]. exfalso. destruct (decide (y = n)) as [->|Hne].
    + rewrite profileAt_n, Hpx in Hp'. congruence.
    + apply Hc2. rewrite <- (Hb n) by lia. apply platformAt_n.
Qed.

(** A run that stays open and is not the demand's own. *)
Lemma step_open_other p r :
  p <> demand_Profile d -> staying !! p = Some r ->
  r <> [] /\ forall x, In x r -> profileAt x = Some p /\
    (forall z, (x < z < S n)%nat -> platformAt z = platformAt x) /\
    (forall y, (y < S n)%nat -> (In y r <-> competes x y)).
Proof.
  intros Hne Hp. apply open_lookup in Hp as [Hp Hc].
  destruct (segmented_open _ _ _ Hseg _ _ Hp) as [Hnil Hr]. split; [done|]. intros x Hx.
  destruct (Hr x Hx) as (Hpx & Hz & Hcl).
  rewrite (closesRun_spec p r x Hp Hx) in Hc. apply negb_false_iff, orb_true_iff in Hc.
  rewrite !bool_decide_eq_true in Hc. destruct Hc as [|Hc]; [done|].
  split; [done|]. split.
  - intros z Hlt. destruct (decide (z = n)) as [->|]; [|apply Hz; lia].
    rewrite platformAt_n. done.
  - intros y Hy. destruct (decide (y = n)) as [->|]; [|apply Hcl; lia]. split.
    + intros Hin. by apply not_visited in Hin; [|by eapply opened_run].
    + intros [Hp' _]. rewrite profileAt_n, Hpx in Hp'. congruence.
Qed.

(** Every earlier position that competes with the new one is in its own run. *)
Lemma ownRun_complete y : (y < n)%nat -> competes n y -> In y ownRun.
Proof.
  intros Hy Hc. assert (is_Some (demands !! n)) as Hsn by (by rewrite Hn).
  assert (competes y n) as Hc' by (by apply competes_sym).
  destruct (segmented_cover _ _ _ y Hseg Hy) as (s & Hs & Hys).
  pose proof Hs as Hs'. apply in_app_or in Hs as [Hs|Hs].
  - apply (segmented_closed _ _ _ Hseg s y n Hs Hys n_in_range) in Hc'.
    by apply not_visited in Hc'.
  - apply in_values in Hs as [p Hp].
    destruct (segmented_open _ _ _ Hseg _ _ Hp) as [_ Hr]. destruct (Hr y Hys) as [Hpy _].
    destruct Hc' as [Hpn _]. rewrite Hpy, profileAt_n in Hpn. injection Hpn as ->.
    unfold ownRun. assert (staying !! demand_Profile d = Some s) as ->; [|done].
    apply map_lookup_filter_Some. split; [done|].
    rewrite (closesRun_spec _ s y Hp Hys), bool_decide_eq_true_2; done.
Qed.

Lemma ownRun_sound x : In x ownRun ->
  (x < n)%nat /\ profileAt x = Some (demand_Profile d) /\
  (forall z, (x < z < n)%nat -> platformAt z = platformAt x) /\
  (forall y, (y < n)%nat -> (In y ownRun <-> competes x y)).
Proof.
  unfold ownRun. destruct (staying !! demand_Profile d) as [r|] eqn:E; [|done]. simpl.
  apply open_lookup in E as [Hp _]. intros Hx.
  split; [eapply segmented_bound; [exact Hseg|by eapply opened_run|done]|].
  by apply (segmented_open _ _ _ Hseg).
Qed.

Lemma step_open_own x : In x (ownRun ++ [n]) ->
  profileAt x = Some (demand_Profile d) /\
  (forall z, (x < z < S n)%nat -> platformAt z = platformAt x) /\
  (forall y, (y < S n)%nat -> (In y (ownRun ++ [n]) <-> competes x y)).
Proof.
  assert (is_Some (demands !! n)) as Hsn by (by rewrite Hn).
  assert (forall x, In x ownRun -> competes x n) as Hown.
  { intros z Hz. destruct (ownRun_sound z Hz) as (Hlt & Hpz & Hb & _).
    split; [by rewrite profileAt_n|]. intros k Hk. apply Hb. lia. }
  assert (forall z, In z ownRun -> platformAt n = platformAt z) as Hplat.
  { intros z Hz. apply Hpp; [done|]. symmetry. apply Hown, Hz. }
  intros Hx. apply in_app_or in Hx as [Hx|[<-|[]]].
  - destruct (ownRun_sound x Hx) as (Hlt & Hpx & Hb & Hcl). split; [done|]. split.
    + intros z Hz. destruct (decide (z = n)) as [->|]; [by apply Hplat|apply Hb; lia].
    + intros y Hy. rewrite in_app_iff. destruct (decide (y = n)) as [->|Hne].
      * split; [intros _; by apply Hown|intros _; right; by left].
      * rewrite <- Hcl by lia. simpl. intuition lia.
  - split; [apply profileAt_n|]. split; [intros; lia|]. intros y Hy. rewrite in_app_iff.
    destruct (decide (y = n)) as [->|Hne]; [split; [intros; apply competes_refl|intros; right; by left]|].
    split.
    + intros [Hin|[|[]]]; [|lia]. apply competes_sym; [done| |by apply Hown].
      destruct (ownRun_sound y Hin) as (_ & Hpy & _). unfold profileAt in Hpy. by destruct (demands !! y).
    + intros Hc. left. apply ownRun_complete; [lia|done].
Qed.

Lemma segmented_step :
  segmented (S n) (fst (segmentStep demands (opened, segments) (n, d)))
    (snd (segmentStep demands (opened, segments) (n, d))).
Proof.
  split; simpl.
  - apply step_perm.
  - apply step_increasing.
  - apply step_closed.
  - intros p r Hp. apply lookup_insert_Some in Hp as [[<- <-]|[Hne Hp]].
    + split; [by destruct (default _ _)|]. apply step_open_own.
    + by apply step_open_other.
Qed.

End Step.

Lemma segmented_fold l k acc :
  profile_platform -> l = drop k demands -> segmented k (fst acc) (snd acc) ->
  let acc' := fold_left (segmentStep demands) (combine (seq k (length l)) l) acc in
  segmented (k + length l) (fst acc') (snd acc').
Proof.
  intros Hpp. revert k acc. induction l as [|d l IH]; intros k acc Hl Hs.
  { by rewrite Nat.add_0_r. }
  assert (demands !! k = Some d) as Hk.
  { replace k with (k + 0)%nat by lia. by rewrite <- lookup_drop, <- Hl. }
  simpl. replace (k + S (length l))%nat with (S k + length l)%nat by lia.
  apply IH.
  - rewrite (drop_S demands d k Hk) in Hl. by injection Hl.
  - destruct acc. by apply segmented_step.
Qed.

(** The segments: every position once, in increasing runs, each run a whole class
    of competing positions. *)
Lemma fairShareSegments_spec :
  profile_platform ->
  Permutation (concat (fairShareSegments demands)) (seq 0 (length demands)) /\
  forall s, In s (fairShareSegments demands) ->
    StronglySorted lt s /\
    forall x y, In x s -> (y < length demands)%nat -> (In y s <-> competes x y).
Proof.
  intros Hpp. unfold fairShareSegments, indexed.
  pose proof (segmented_fold demands 0 (∅, []) Hpp (eq_sym (drop_0 _)) segmented_start) as H.
  destruct (fold_left _ _ _) as [opened segments]. simpl in H. split.
  - etransitivity; [apply concat_perm, sortBy_perm|apply H].
  - intros s Hs. apply sortBy_in in Hs. split; [by apply (segmented_increasing _ _ _ H)|].
    intros x y Hx Hy. pose proof Hs as Hs'. apply in_app_or in Hs as [Hs|Hs].
    + by apply (segmented_closed _ _ _ H).
    + apply in_values in Hs as [p Hp]. by apply (segmented_open _ _ _ H p s Hp).
Qed.
End Segments.

(** ** Writing the segments back *)

Lemma writeBack_length ordered segment competing :
  length (writeBack ordered segment competing) = length ordered.
Proof.
  unfold writeBack. generalize (combine segment competing) as l. intros l. revert ordered.
  induction l as [|[i d] l IH]; intros ordered; simpl; [done|]. by rewrite IH, length_insert.
Qed.

Lemma writeBack_other ordered segment competing i :
  ~ In i segment -> writeBack ordered segment competing !! i = ordered !! i.
Proof.
  unfold writeBack. revert ordered competing.
  induction segment as [|x segment IH]; intros ordered [|d competing] Hi; simpl in *; try done.
  rewrite IH by tauto. apply list_lookup_insert_ne. tauto.
Qed.

Lemma writeBack_own ordered segment competing k i :
  List.NoDup segment -> Forall (fun x => (x < length ordered)%nat) segment ->
  length competing = length segment -> segment !! k = Some i ->
  writeBack ordered segment competing !! i = competing !! k.
Proof.
  revert ordered competing k.
  induction segment as [|x segment IH]; intros ordered [|d competing] k Hn Hb Hl Hk; try done.
  inversion_clear Hn as [|? ? Hx Hn']. inversion_clear Hb as [|? ? Hlt Hb'].
  destruct k as [|k]; simpl in Hk.
  - injection Hk as ->. unfold writeBack. simpl.
    change (fold_left _ (combine segment competing) (<[i:=d]> ordered)) with
      (writeBack (<[i:=d]> ordered) segment competing).
    rewrite writeBack_other by done. by apply list_lookup_insert_eq.
  - unfold writeBack. simpl. apply IH; [done| |by injection Hl|done].
    eapply List.Forall_impl; [|exact Hb']. intros. by rewrite length_insert.
Qed.

Definition competing (demands : list Demand) (segment : list nat) : list Demand :=
  segment ≫= (fun i => option_list (demands !! i)).

Lemma competing_spec demands s :
  Forall (fun x => (x < length demands)%nat) s ->
  length (competing demands s) = length s /\
  forall k i, s !! k = Some i -> competing demands s !! k = demands !! i.
Proof.
  unfold competing. induction 1 as [|x s Hx Hs [IHl IHk]]; [done|].
  rewrite bind_cons. apply lookup_lt_is_Some in Hx as [d Hd]. rewrite Hd. simpl.
  split; [by f_equal|]. intros [|k] i Hk; simpl in *; [congruence|by apply IHk].
Qed.

Section Writing.
Context (input : Input) (share : gmap DemandKey Z) (demands : list Demand).

Definition arranged (s : list nat) : list Demand :=
  sortBy (fairShareLess input share) (competing demands s).

Lemma shareSegment_spec ordered s :
  List.NoDup s -> Forall (fun x => (x < length demands)%nat) s ->
  length ordered = length demands -> (forall x, In x s -> ordered !! x = demands !! x) ->
  let r := shareSegment input share demands ordered s in
  length r = length demands /\
  (forall i, ~ In i s -> r !! i = ordered !! i) /\
  (forall k i, s !! k = Some i -> r !! i = arranged s !! k).
Proof.
  intros Hn Hb Hl Ho. destruct (competing_spec demands s Hb) as [Hcl Hck].
  unfold shareSegment, arranged. destruct (Nat.ltb_spec (length s) 2) as [Hlt|Hge].
  - split; [done|]. split; [done|]. intros k i Hk.
    assert (k = 0%nat) as -> by (apply lookup_lt_Some in Hk; lia).
    rewrite Ho by (apply list_elem_of_In; by eapply list_elem_of_lookup_2).
    rewrite <- (Hck _ _ Hk). destruct (competing demands s) as [|d [|d' l]]; simpl in *; done || lia.
  - fold (competing demands s). split; [by rewrite writeBack_length|].
    split; [intros; by apply writeBack_other|].
    intros k i Hk. apply writeBack_own; [done| | |done].
    + by rewrite Hl.
    + by rewrite sortBy_length.
Qed.

Lemma shareSegments_spec segments ordered :
  List.NoDup (concat segments) ->
  Forall (fun x => (x < length demands)%nat) (concat segments) ->
  length ordered = length demands ->
  (forall x, In x (concat segments) -> ordered !! x = demands !! x) ->
  let r := fold_left (shareSegment input share demands) segments ordered in
  length r = length demands /\
  (forall i, ~ In i (concat segments) -> r !! i = ordered !! i) /\
  (forall s k i, In s segments -> s !! k = Some i -> r !! i = arranged s !! k).
Proof.
  revert ordered. induction segments as [|s segments IH]; intros ordered Hn Hb Hl Ho; simpl; [by auto|].
  simpl in *. apply NoDup_app_split in Hn as (Hn1 & Hn2 & Hd).
  apply List.Forall_app in Hb as [Hb1 Hb2].
  destruct (shareSegment_spec ordered s Hn1 Hb1 Hl) as (Hl' & Hout & Hin).
  { intros x Hx. apply Ho, in_or_app. by left. }
  destruct (IH (shareSegment input share demands ordered s) Hn2 Hb2 Hl') as (Hl2 & Hout2 & Hin2).
  { intros x Hx. rewrite Hout; [apply Ho, in_or_app; by right|]. intros Hxs. by apply (Hd x). }
  split; [done|]. split.
  - intros i Hi. rewrite in_app_iff in Hi. rewrite Hout2, Hout by tauto. done.
  - intros s' k i [<-|Hs'] Hk; [|by apply Hin2].
    rewrite Hout2; [by apply Hin|]. intros Hc. apply (Hd i); [|done].
    apply list_elem_of_In. by eapply list_elem_of_lookup_2.
Qed.

Lemma shareSegments_short segments ordered :
  (forall s, In s segments -> (length s < 2)%nat) ->
  fold_left (shareSegment input share demands) segments ordered = ordered.
Proof.
  induction segments as [|s segments IH]; intros H; simpl; [done|].
  unfold shareSegment at 2. rewrite (proj2 (Nat.ltb_lt (length s) 2)) by (apply H; by left).
  apply IH. intros. apply H. by right.
Qed.
End Writing.

Lemma NoDup_concat_in {A} (ls : list (list A)) l : List.NoDup (concat ls) -> In l ls -> List.NoDup l.
Proof.
  induction ls as [|x ls IH]; simpl; [done|]. intros Hn. apply NoDup_app_split in Hn as (? & ? & _).
  intros [->|?]; [done|by apply IH].
Qed.

(** The positions of a list, read through any rearrangement of them. *)
Lemma lookup_seq_perm {A} (l : list A) idxs :
  Permutation idxs (seq 0 (length l)) -> Permutation (idxs ≫= (fun i => option_list (l !! i))) l.
Proof.
  intros HP. rewrite bind_concat. etransitivity; [apply concat_perm, Permutation_map, HP|].
  rewrite <- bind_concat. clear. induction l as [|x l IH] using rev_ind; [done|].
  rewrite length_app. simpl. rewrite Nat.add_1_r, seq_S, bind_app. simpl.
  rewrite app_nil_r, lookup_app_r, Nat.sub_diag by done. simpl.
  apply Permutation_app_tail. etransitivity; [|exact IH].
  rewrite !bind_concat. erewrite map_ext_in; [done|]. intros i Hi. apply in_seq in Hi.
  cbn beta. by rewrite lookup_app_l by lia.
Qed.

Lemma map_by_position {A B} (l : list A) (f : A -> B) (g : nat -> B) :
  (forall k x, l !! k = Some x -> f x = g k) -> map f l = map g (seq 0 (length l)).
Proof.
  revert g. induction l as [|x l IH]; intros g H; simpl; [done|].
  f_equal; [by apply (H 0%nat)|]. rewrite <- seq_shift, map_map. apply IH.
  intros k y Hk. by apply (H (S k)).
Qed.

Lemma byScopeFairShare_spec input demands :
  profile_platform demands ->
  let r := byScopeFairShare input demands in
  let share := fairShareRanks (activeScopeCounts (instancesOf input)) demands in
  length r = length demands /\
  (forall i, (i < length demands)%nat ->
     exists s k, In s (fairShareSegments demands) /\ s !! k = Some i) /\
  (forall s k i, In s (fairShareSegments demands) -> s !! k = Some i ->
     r !! i = arranged input share demands s !! k).
Proof.
  intros Hpp. destruct (fairShareSegments_spec demands Hpp) as [HP Hs].
  assert (List.NoDup (concat (fairShareSegments demands))) as Hn
    by (eapply Permutation_NoDup; [symmetry; exact HP|apply List.seq_NoDup]).
  assert (Forall (fun x => (x < length demands)%nat) (concat (fairShareSegments demands))) as Hb.
  { apply List.Forall_forall. intros x Hx. apply (Permutation_in _ HP), in_seq in Hx. lia. }
  assert (forall i, (i < length demands)%nat ->
     exists s k, In s (fairShareSegments demands) /\ s !! k = Some i) as Hcover.
  { intros i Hi. assert (In i (concat (fairShareSegments demands))) as Hin.
    { eapply Permutation_in; [symmetry; exact HP|]. apply in_seq. lia. }
    apply in_concat in Hin as (s & Hs' & His). apply list_elem_of_In, list_elem_of_lookup in His as [k Hk].
    by exists s, k. }
  unfold byScopeFairShare.
  destruct (shareSegments_spec input (fairShareRanks (activeScopeCounts (instancesOf input)) demands)
    demands (fairShareSegments demands) demands Hn Hb eq_refl ltac:(done)) as (Hl & _ & Hr).
  destruct (Nat.ltb_spec (length demands) 2) as [Hlt|_]; [|by auto].
  split; [done|]. split; [done|]. intros s k i Hin Hk. rewrite <- (Hr s k i Hin Hk).
  rewrite shareSegments_short; [done|]. intros s' Hs'.
  apply Nat.le_lt_trans with (length demands); [|done].
  rewrite <- (List.length_seq (length demands) 0). apply List.NoDup_incl_length.
  - by apply (NoDup_concat_in (fairShareSegments demands)).
  - intros x Hx. eapply Permutation_in; [exact HP|]. apply in_concat. eauto.
Qed.

(** ** Ranks *)

Definition ofScope (scope : string) (d : Demand) : bool :=
  bool_decide (scopeOf (key_Repo (demand_Key d)) = scope).

Definition demandScope (d : Demand) : string := scopeOf (key_Repo (demand_Key d)).

Lemma fairShareFold_other l acc k :
  ~ In k (keys l) -> snd (fold_left fairShareStep l acc) !! k = snd acc !! k.
Proof.
  revert acc. induction l as [|d l IH]; intros [next ranks] Hk; simpl in *; [done|].
  rewrite IH by tauto. simpl. apply lookup_insert_ne. tauto.
Qed.

Lemma fairShareFold_lookup l acc i d :
  List.NoDup (keys l) -> l !! i = Some d ->
  snd (fold_left fairShareStep l acc) !! demand_Key d =
  Some (countOf (fst acc) (demandScope d)
        + Z.of_nat (length (List.filter (ofScope (demandScope d)) (take i l)))).
Proof.
  revert acc i. induction l as [|x l IH]; intros [next ranks] i Hn Hi; [done|].
  unfold keys in Hn. simpl in Hn. inversion_clear Hn as [|? ? Hx Hn'].
  destruct i as [|i]; simpl in Hi.
  - injection Hi as ->. simpl. rewrite fairShareFold_other by done. simpl.
    rewrite lookup_insert_eq. f_equal. unfold demandScope. lia.
  - simpl fold_left. rewrite (IH _ i) by done. f_equal. cbn [fst take List.filter].
    unfold ofScope at 2. fold (demandScope x). rewrite countOf_incr.
    case_bool_decide; case_decide; simpl; lia || done.
Qed.

(** Inside one scope the ranks ascend with the queue. *)
Lemma fairShareRanks_ascend occupancy l i j a b :
  List.NoDup (keys l) -> l !! i = Some a -> l !! j = Some b -> (i < j)%nat ->
  demandScope a = demandScope b ->
  default 0 (fairShareRanks occupancy l !! demand_Key a)
  < default 0 (fairShareRanks occupancy l !! demand_Key b).
Proof.
  intros Hn Ha Hb Hij Hs. unfold fairShareRanks.
  rewrite (fairShareFold_lookup l _ i a Hn Ha), (fairShareFold_lookup l _ j b Hn Hb). simpl.
  rewrite <- Hs. replace j with (i + (j - i))%nat by lia.
  rewrite <- (take_take_drop l i (j - i)).
  rewrite List.filter_app, length_app.
  enough (0 < length (List.filter (ofScope (demandScope a)) (take (j - i) (drop i l))))%nat by lia.
  rewrite (drop_S l a i Ha). replace (j - i)%nat with (S (j - i - 1)) by lia. simpl.
  unfold ofScope at 1. unfold demandScope. rewrite bool_decide_eq_true_2 by done. simpl. lia.
Qed.

(** ** The order fair share leaves *)

Lemma fairShareLess_weak input share :
  (forall a, fairShareLess input share a a = false) /\
  (forall a b c, fairShareLess input share a b = false -> fairShareLess input share b c = false ->
     fairShareLess input share a c = false) /\
  (forall a b, fairShareLess input share a b = true -> fairShareLess input share b a = false).
Proof.
  unfold fairShareLess.
  split; [|split]; intros;
    repeat match goal with
    | |- context [?x =? ?y] => destruct (Z.eqb_spec x y)
    | H : context [?x =? ?y] |- _ => destruct (Z.eqb_spec x y)
    end; simpl in *; rewrite ?Z.ltb_ge, ?Z.ltb_lt in *; lia.
Qed.

Lemma StronglySorted_lookup {A} (R : A -> A -> Prop) l i j a b :
  StronglySorted R l -> l !! i = Some a -> l !! j = Some b -> (i < j)%nat -> R a b.
Proof.
  intros Hs. revert i j. induction Hs as [|x l Hs IH Hx]; intros i j Ha Hb Hij; [done|].
  destruct j as [|j]; [lia|]. destruct i as [|i]; simpl in *.
  - injection Ha as ->. rewrite List.Forall_forall in Hx. apply Hx, list_elem_of_In.
    by eapply list_elem_of_lookup_2.
  - eapply IH; [done..|lia].
Qed.

Lemma StronglySorted_lt_lookup l i j a b :
  StronglySorted lt l -> l !! i = Some a -> l !! j = Some b -> (a < b)%nat -> (i < j)%nat.
Proof.
  intros Hs Ha Hb Hab. destruct (lt_eq_lt_dec i j) as [[Hlt | Heq] | Hji]; [done| |].
  - subst. rewrite Ha in Hb. injection Hb. lia.
  - pose proof (StronglySorted_lookup lt l j i b a Hs Hb Ha Hji). lia.
Qed.

Lemma concat_map_perm {A B} (f g : A -> list B) (ls : list (list A)) :
  (forall l, In l ls -> Permutation (concat (map f l)) (concat (map g l))) ->
  Permutation (concat (map f (concat ls))) (concat (map g (concat ls))).
Proof.
  induction ls as [|l ls IH]; intros H; simpl; [done|].
  rewrite !map_app, !concat_app. apply Permutation_app; [apply H; by left|].
  apply IH. intros. apply H. by right.
Qed.

Lemma lookup_key_unique l p q a :
  List.NoDup (keys l) -> l !! p = Some a -> l !! q = Some a -> p = q.
Proof.
  intros Hn Hp Hq. unfold keys in Hn. apply NoDup_ListNoDup in Hn.
  eapply NoDup_lookup; [exact Hn| |]; change (@map Demand) with (@fmap list _ Demand);
    rewrite list_lookup_fmap, ?Hp, ?Hq; done.
Qed.

Section Share.
Context (input : Input) (demands : list Demand).
Hypothesis Hpp : profile_platform demands.

Abbreviation shared := (byScopeFairShare input demands).
Abbreviation share := (fairShareRanks (activeScopeCounts (instancesOf input)) demands).

(** Where the demand at a position came from: a position it competes with. *)
Lemma shared_source i a :
  shared !! i = Some a -> exists p, demands !! p = Some a /\ competes demands i p.
Proof.
  intros Hi. destruct (byScopeFairShare_spec input demands Hpp) as (Hl & Hcover & Hr).
  destruct (fairShareSegments_spec demands Hpp) as [HP Hs].
  destruct (Hcover i) as (s & k & Hin & Hk).
  { rewrite <- Hl. by eapply lookup_lt_Some. }
  rewrite (Hr s k i Hin Hk) in Hi. unfold arranged in Hi.
  assert (In a (competing demands s)) as Ha.
  { eapply sortBy_in, list_elem_of_In. by eapply list_elem_of_lookup_2. }
  unfold competing in Ha. rewrite bind_concat, in_concat in Ha. destruct Ha as (l & Hl' & Ha).
  apply in_map_iff in Hl' as (p & <- & Hp).
  destruct (demands !! p) as [d|] eqn:E; [|done]. destruct Ha as [->|[]].
  exists p. split; [done|]. apply (Hs s Hin); [|by eapply lookup_lt_Some|done].
  apply list_elem_of_In. by eapply list_elem_of_lookup_2.
Qed.

(** Competing positions end up in tier order, then in order of slots asked for. *)
Lemma shared_sorted i j a b :
  shared !! i = Some a -> shared !! j = Some b -> (i < j)%nat -> competes demands i j ->
  fairShareLess input share b a = false.
Proof.
  intros Hi Hj Hij Hc. destruct (byScopeFairShare_spec input demands Hpp) as (Hl & Hcover & Hr).
  destruct (fairShareSegments_spec demands Hpp) as [_ Hs].
  assert (j < length demands)%nat as Hjl by (rewrite <- Hl; by eapply lookup_lt_Some).
  destruct (Hcover i ltac:(lia)) as (s & k & Hin & Hk).
  destruct (Hs s Hin) as [Hinc Hclass].
  assert (In j s) as Hjs.
  { apply (Hclass i); [|done|done]. apply list_elem_of_In. by eapply list_elem_of_lookup_2. }
  apply list_elem_of_In, list_elem_of_lookup in Hjs as [k' Hk'].
  rewrite (Hr s k i Hin Hk) in Hi. rewrite (Hr s k' j Hin Hk') in Hj.
  destruct (fairShareLess_weak input share) as (H1 & H2 & H3).
  eapply (StronglySorted_lookup (before (fairShareLess input share))); [|exact Hi|exact Hj|].
  - by apply sortBy_sorted.
  - by eapply StronglySorted_lt_lookup.
Qed.

Lemma shared_perm : Permutation shared demands.
Proof.
  destruct (byScopeFairShare_spec input demands Hpp) as (Hl & _ & Hr).
  destruct (fairShareSegments_spec demands Hpp) as [HP _].
  rewrite <- Hl in HP. apply (lookup_seq_perm shared) in HP as H1. rewrite Hl in HP.
  apply (lookup_seq_perm demands) in HP as H2.
  etransitivity; [symmetry; exact H1|]. etransitivity; [|exact H2].
  rewrite !bind_concat.
  assert (forall s, In s (fairShareSegments demands) ->
    Permutation (concat (map (fun i => option_list (shared !! i)) s))
      (concat (map (fun i => option_list (demands !! i)) s))) as H.
  { intros s Hs. rewrite <- (bind_concat (fun i => option_list (demands !! i)) s).
    fold (competing demands s). transitivity (arranged input share demands s); [|apply sortBy_perm].
    rewrite <- (lookup_seq_perm (arranged input share demands s) _ (Permutation_refl _)), bind_concat.
    replace (length (arranged input share demands s)) with (length s).
    - rewrite (map_by_position s (fun i => option_list (shared !! i))
        (fun k => option_list (arranged input share demands s !! k))); [done|].
      intros k i Hk. by rewrite (Hr s k i Hs Hk).
    - unfold arranged. rewrite sortBy_length. symmetry. apply competing_spec.
      apply List.Forall_forall. intros x Hx.
      assert (In x (seq 0 (length demands))) as Hin
        by (eapply Permutation_in; [exact HP|apply in_concat; eauto]).
      apply in_seq in Hin. lia. }
  by apply concat_map_perm.
Qed.

Lemma shared_profiles : map demand_Profile shared = map demand_Profile demands.
Proof.
  apply list_eq. intros i. change (@map Demand) with (@fmap list _ Demand).
  rewrite !list_lookup_fmap. destruct (byScopeFairShare_spec input demands Hpp) as (Hl & _ & _).
  destruct (shared !! i) as [a|] eqn:E; simpl.
  - destruct (shared_source i a E) as (p & Hp & [Hprof _]). unfold profileAt in Hprof.
    by rewrite Hprof, Hp.
  - apply lookup_ge_None in E. rewrite (lookup_ge_None_2 demands) by lia. done.
Qed.

(** Positions before and after: [a] ends up in front of [b]. *)
Definition inFront (l : list Demand) (a b : Demand) : Prop :=
  exists i j, l !! i = Some a /\ l !! j = Some b /\ (i < j)%nat.

Lemma shared_keeps_order a b :
  List.NoDup (keys demands) ->
  demand_Platform a <> demand_Platform b \/
  (demand_Profile a = demand_Profile b /\ demandScope a = demandScope b /\
   tierOf input a = tierOf input b) ->
  inFront demands a b -> ~ inFront shared b a.
Proof.
  intros Hn Hab (p & q & Hp & Hq & Hpq) (i & j & Hi & Hj & Hij).
  destruct (shared_source i b Hi) as (q' & Hq' & Hiq).
  destruct (shared_source j a Hj) as (p' & Hp' & Hjp).
  assert (q' = q) as -> by (by eapply (lookup_key_unique demands)).
  assert (p' = p) as -> by (by eapply (lookup_key_unique demands)).
  pose proof Hiq as [Hprof_i Hspan_i]. pose proof Hjp as [Hprof_j Hspan_j].
  assert (platformAt demands q = Some (demand_Platform b)) as Pq by (unfold platformAt; by rewrite Hq).
  assert (platformAt demands p = Some (demand_Platform a)) as Pp by (unfold platformAt; by rewrite Hp).
  assert (platformAt demands i = Some (demand_Platform b)) as Pi
    by (rewrite <- Pq; symmetry; apply Hpp; [by rewrite Hq|done]).
  assert (platformAt demands j = Some (demand_Platform a)) as Pj
    by (rewrite <- Pp; symmetry; apply Hpp; [by rewrite Hp|done]).
  destruct Hab as [Hplat|(Hprof & Hscope & Htier)].
  - (* the spans of the two classes exclude each other's positions *)
    assert (forall k, platformAt demands k = Some (demand_Platform a) ->
      ~ (i < k < q \/ q < k < i)%nat) as Hout.
    { intros k Hk Hin. rewrite (Hspan_i k Hin), Pi in Hk. congruence. }
    pose proof (Hout j Pj). pose proof (Hout p Pp).
    assert (j <> q) by congruence. assert (p <> i) by congruence.
    assert (p < i < j)%nat as Hbetween by lia.
    rewrite (Hspan_j i) in Pi by lia. congruence.
  - assert (competes demands i j) as Hc.
    { split; [unfold profileAt in *; rewrite Hprof_i, Hprof_j, Hp, Hq; simpl; by f_equal|].
      intros k Hk. assert (platformAt demands i = platformAt demands j) as Hij'.
      { apply Hpp; [unfold platformAt in Pi; by destruct (demands !! i)|].
        unfold profileAt in *. rewrite Hprof_i, Hprof_j, Hp, Hq. simpl. by f_equal. }
      destruct (decide (i < k < q \/ q < k < i)%nat); [by apply Hspan_i|].
      destruct (decide (k = q)) as [->|]; [congruence|].
      rewrite (Hspan_j k) by lia. done. }
    pose proof (shared_sorted i j b a Hi Hj Hij Hc) as Hless. unfold fairShareLess in Hless.
    rewrite Htier, Z.eqb_refl in Hless. simpl in Hless. apply Z.ltb_ge in Hless.
    pose proof (fairShareRanks_ascend (activeScopeCounts (instancesOf input)) demands p q a b
      Hn Hp Hq Hpq Hscope). lia.
Qed.
End Share.

Lemma plannable_profile_platform input l :
  Forall (fun d => plannable input d = true) l -> profile_platform l.
Proof.
  intros Hf i j [d Hd]. unfold profileAt, platformAt. rewrite Hd. simpl.
  destruct (l !! j) as [d'|] eqn:Hd'; [|done]. simpl. intros [= E]. f_equal.
  rewrite List.Forall_forall in Hf.
  assert (plannable input d = true) as H1 by (apply Hf, list_elem_of_In; by eapply list_elem_of_lookup_2).
  assert (plannable input d' = true) as H2 by (apply Hf, list_elem_of_In; by eapply list_elem_of_lookup_2).
  apply plannable_profile in H1 as (p & H1 & _ & <- & _).
  apply plannable_profile in H2 as (p' & H2 & _ & <- & _). congruence.
Qed.

Lemma inFront_or l1 l2 a b :
  Permutation l2 l1 -> inFront l1 a b -> a <> b -> ~ inFront l2 b a -> inFront l2 a b.
Proof.
  intros HP (p & q & Hp & Hq & _) Hne Hnot.
  assert (forall p x, l1 !! p = Some x -> exists i, l2 !! i = Some x) as Hfind.
  { intros k x Hk. apply list_elem_of_lookup, list_elem_of_In.
    eapply Permutation_in; [symmetry; exact HP|]. apply list_elem_of_In. by eapply list_elem_of_lookup_2. }
  destruct (Hfind p a Hp) as [i Hi]. destruct (Hfind q b Hq) as [j Hj].
  destruct (lt_eq_lt_dec i j) as [[Hlt | Heq] | Hlt].
  - by exists i, j.
  - subst. congruence.
  - destruct Hnot. by exists j, i.
Qed.

(** The aged band as [agedQueueOrder] reads it. *)
Definition agedBand (input : Input) : list Demand :=
  fst (splitAged (Now input) (FairnessAge (in_Config input)) (normalizedDemands input)).

Lemma agedBand_keys input : List.NoDup (keys (byTier input (agedBand input))).
Proof.
  eapply NoDup_map_perm; [apply byTier_perm|].
  eapply sublist_NoDup_map; [apply filter_sublist|apply normalizedDemands_NoDup].
Qed.

Lemma agedBand_platforms input : profile_platform (byTier input (agedBand input)).
Proof.
  apply (plannable_profile_platform input). apply List.Forall_forall. intros d Hd.
  apply (Permutation_in _ (byTier_perm _ _)), List.filter_In in Hd as [Hd _].
  by apply normalizedDemands_In in Hd as [_ ?].
Qed.

Lemma inFront_distinct l a b : List.NoDup (keys l) -> inFront l a b -> a <> b.
Proof.
  intros Hn (i & j & Hi & Hj & Hij) ->.
  assert (i = j) as -> by (by eapply lookup_key_unique). lia.
Qed.

(** Fair share reorders the aged band without losing or inventing a demand,
    and only exchanges demands of one profile: every position keeps its
    profile.  A demand never passes one of the other platform, nor an earlier
    one of its own scope, profile and tier.  Between positions that compete
    (one profile, no demand of the other platform in between) the band is left
    in tier order, and inside a tier in the order of the slot each demand asks
    its scope to hold. *)
Theorem fair_share_exchanges_only_competitors input :
  let tiered := byTier input (agedBand input) in
  let ordered := agedOrder input (agedBand input) in
  let share := fairShareRanks (activeScopeCounts (instancesOf input)) tiered in
  Permutation ordered (agedBand input) /\
  map demand_Profile ordered = map demand_Profile tiered /\
  (forall a b, inFront tiered a b ->
     demand_Platform a <> demand_Platform b \/
     (demand_Profile a = demand_Profile b /\ demandScope a = demandScope b /\
      tierOf input a = tierOf input b) ->
     inFront ordered a b) /\
  (forall i j a b, ordered !! i = Some a -> ordered !! j = Some b -> (i < j)%nat ->
     competes tiered i j -> fairShareLess input share b a = false).
Proof.
  intros tiered ordered share. pose proof (agedBand_platforms input) as Hpp.
  pose proof (agedBand_keys input) as Hk. fold tiered in Hpp, Hk.
  assert (Permutation ordered tiered) as HP by (by apply shared_perm).
  split; [rewrite HP; apply byTier_perm|]. split; [by apply shared_profiles|]. split.
  - intros a b Hab H. apply (inFront_or tiered); [done..| |].
    + by eapply inFront_distinct.
    + by apply shared_keeps_order.
  - intros i j a b. by apply shared_sorted.
Qed.

(** ** A limit of the own-scope guarantee *)

Definition busyNode : Input :=
  Node.input
    [Node.linuxDemand "busy/app" 1 (60 * Minute); Node.largeDemand "acme/app" 2 (50 * Minute);
     Node.linuxDemand "acme/app" 3 (40 * Minute)]
    [Node.instance "i1" "busy/app" 11 PlatformLinux "small" (Node.vec 2 2048 1) InstanceRunning;
     Node.instance "i2" "busy/app" 12 PlatformLinux "small" (Node.vec 2 2048 1) InstanceRunning].

(** The own-scope guarantee does not extend across profiles.  With one scope
    already holding two slots, another scope's younger demand moves to the front
    of the band by exchanging places with a demand of its own profile, and so
    passes an older demand of its own scope and tier. *)
Theorem fair_share_can_pass_own_scope :
  exists older younger,
    demandScope older = demandScope younger /\
    tierOf busyNode older = tierOf busyNode younger /\
    inFront (byTier busyNode (agedBand busyNode)) older younger /\
    inFront (agedOrder busyNode (agedBand busyNode)) younger older.
Proof.
  exists (Node.largeDemand "acme/app" 2 (50 * Minute)), (Node.linuxDemand "acme/app" 3 (40 * Minute)).
  split; [by vm_compute|]. split; [by vm_compute|]. split.
  - exists 1%nat, 2%nat. repeat split; [by vm_compute..|lia].
  - exists 0%nat, 1%nat. repeat split; [by vm_compute..|lia].
Qed.

(** ** Escalation *)

Lemma effectiveTier_exact now d config :
  0 < PriorityEscalation config -> IsZero (demand_CreatedAt d) = false ->
  int64 (now - demand_CreatedAt d) -> 0 <= now - demand_CreatedAt d ->
  int64 (Rank (demand_Priority d) + (now - demand_CreatedAt d) / PriorityEscalation config) ->
  effectiveTier now d config
  = Rank (demand_Priority d) + (now - demand_CreatedAt d) / PriorityEscalation config.
Proof.
  intros He Hz Hr Hw Hs. unfold effectiveTier. rewrite Hz, (proj2 (Z.leb_gt _ _)) by lia. simpl.
  rewrite TimeSub_exact by done.
  destruct (Z.leb_spec (now - demand_CreatedAt d) 0) as [Hle|Hlt].
  - assert (now - demand_CreatedAt d = 0) as -> by lia. rewrite Z.div_0_l by lia. lia.
  - rewrite Z.quot_div_nonneg by lia. by apply add64_exact.
Qed.

(** Escalation bounds overtaking.  A demand created [n] whole escalation
    periods before another one is at least of its effective tier whenever the
    other's classified rank is at most [n] higher, at every moment after the
    other was queued; so a tier can hold a demand back for a bounded time only. *)
Theorem escalation_bounds_overtaking now config older younger n :
  0 < PriorityEscalation config -> 0 <= n ->
  IsZero (demand_CreatedAt older) = false -> IsZero (demand_CreatedAt younger) = false ->
  demand_CreatedAt older + n * PriorityEscalation config <= demand_CreatedAt younger ->
  demand_CreatedAt younger <= now ->
  Rank (demand_Priority younger) <= Rank (demand_Priority older) + n ->
  now - demand_CreatedAt older <= maxInt64 ->
  0 <= Rank (demand_Priority older) <= 2 ^ 32 -> 0 <= Rank (demand_Priority younger) <= 2 ^ 32 ->
  (now - demand_CreatedAt older) / PriorityEscalation config <= 2 ^ 32 ->
  effectiveTier now younger config <= effectiveTier now older config.
Proof.
  intros He Hn Hzo Hzy Hage Hnow Hrank Hmax Hro Hry Hdiv.
  set (e := PriorityEscalation config) in *.
  set (wo := now - demand_CreatedAt older) in *. set (wy := now - demand_CreatedAt younger) in *.
  assert (wy + n * e <= wo) as Hw by lia. assert (0 <= wy) as Hwy by lia.
  assert (0 <= n * e) by (apply Z.mul_nonneg_nonneg; lia).
  assert (wy / e + n <= wo / e) as Hd.
  { rewrite <- Z.div_add by lia. apply Z.div_le_mono; lia. }
  assert (0 <= wy / e) by (apply Z.div_pos; lia).
  assert (2 ^ 32 = 4294967296) as E32 by reflexivity.
  rewrite !effectiveTier_exact; fold e wo wy; unfold int64, minInt64, maxInt64 in *; try done; lia.
Qed.

Lemma escalation_bounds_overtaking_witness :
  let config := {| LinuxCapacity := LinuxCapacity Node.config; FairnessAge := FairnessAge Node.config;
    AssignedTimeout := AssignedTimeout Node.config; RepoCaps := ∅; RepoSchedulingClasses := ∅;
    Profiles := Node.profiles; MacOSExclusive := true; MixedPlatformAdmission := false;
    MixedProfileCohorts := false; ElasticHostEnvelope := false; HostBudget := zeroResources;
    PriorityEscalation := 15 * Minute; cfg_GuestLiveness := cfg_GuestLiveness Node.config |} in
  let older := Node.linuxDemand "acme/app" 1 (40 * Minute) in
  let younger := {| demand_Key := Node.key "acme/app" 2; demand_CreatedAt := Node.now - 5 * Minute;
    demand_NotBefore := zeroTime; demand_Profile := "small"; demand_Route := "route-small";
    demand_Platform := PlatformLinux; demand_Event := EventPush; demand_RunStatus := RunQueued;
    demand_Priority := {| Tier := "release"; Rank := 2 |} |} in
  effectiveTier Node.now younger config <= effectiveTier Node.now older config.
Proof.
  intros config older younger.
  apply (escalation_bounds_overtaking Node.now config older younger 2);
    apply (bool_decide_unpack _); by vm_compute.
Defined.
