(* ===== verification/Admission.v ===== *)
(** * Exact admission (internal/scheduler/scheduler.go, exactSelect)

    The exhaustive search over the feasible combinations of at most
    [admissionsPerTick] candidates, and the order by which it prefers one
    combination to another. *)

From Stdlib Require Import ZArith Lia String.
From stdpp Require Import base tactics list gmap strings.
From S2P Require Import Prelude GoStrings Liveness Domain Scheduler Envelope Order Fixture.

Definition schedulingBand (now : Time) (demand : Demand) (config : Config) : nat :=
  if demandAged now (FairnessAge config) demand then 0
  else if isControlPlane config demand then 1
  else 2.

(** The distinct tiers, in the order they are first met. *)
Fixpoint presentTiers (seen : gset Z) (tiers : list Z) : list Z :=
  match tiers with
  | [] => []
  | t :: rest =>
      if bool_decide (t ∈ seen) then presentTiers seen rest
      else t :: presentTiers ({[t]} ∪ seen) rest
  end.

(** The position of a tier among the present ones, highest first. *)
Fixpoint positionOf (t : Z) (l : list Z) : nat :=
  match l with
  | [] => 0
  | x :: rest => if t =? x then 0 else S (positionOf t rest)
  end.

Definition admissionBands (now : Time) (candidates : list Demand) (config : Config) : list nat :=
  let tiers := map (fun d => effectiveTier now d config) candidates in
  let present := sortBy (fun a b => b <? a) (presentTiers ∅ tiers) in
  map (fun d => (schedulingBand now d config * length present
                 + positionOf (effectiveTier now d config) present)%nat) candidates.

(** [bands[index]]. *)
Definition bandAt (bands : list nat) (index : nat) : nat := List.nth index bands 0%nat.

Definition bandMembers (chosen bands : list nat) (band : nat) : list nat :=
  List.filter (fun index => (bandAt bands index =? band)%nat) chosen.

(** The loop over one band's members, [None] when it decides nothing. *)
Fixpoint earlierMembers (candidate incumbent : list nat) : option bool :=
  match candidate, incumbent with
  | c :: candidate', i :: incumbent' =>
      if (c =? i)%nat then earlierMembers candidate' incumbent' else Some (c <? i)%nat
  | _, _ => None
  end.

Definition betterInBand (candidate incumbent bands : list nat) (band : nat) : option bool :=
  let c := bandMembers candidate bands band in
  let i := bandMembers incumbent bands band in
  if negb (length c =? length i)%nat then Some (length i <? length c)%nat
  else earlierMembers c i.

Fixpoint betterFrom (candidate incumbent bands : list nat) (band remaining : nat) : bool :=
  match remaining with
  | O => false
  | S remaining' =>
      match betterInBand candidate incumbent bands band with
      | Some b => b
      | None => betterFrom candidate incumbent bands (S band) remaining'
      end
  end.

Definition betterAdmission (candidate incumbent bands : list nat) (numBands : nat) : bool :=
  betterFrom candidate incumbent bands 0 numBands.

Definition numberOfBands (bands : list nat) : nat :=
  fold_left (fun n band => if (n <? band + 1)%nat then (band + 1)%nat else n) bands 0%nat.

Section Search.
Variables (config : Config) (bands : list nat) (numBands : nat) (limit : Z).

(** Whether the loop body goes past its guard for one candidate. *)
Definition takeable (candidate : Demand) (remaining : Resources) (counts : gmap string Z) : bool :=
  let profile := profileOf config (demand_Profile candidate) in
  let repo := key_Repo (demand_Key candidate) in
  negb ((repoCapLimit (RepoCaps config) repo <=? countOf counts repo)
        || negb (CanFit remaining (profile_Resources profile))).

Definition keepBetter (chosen best : list nat) : list nat :=
  if betterAdmission chosen best bands numBands then chosen else best.

(** The loop of [search] over the candidates from position [i] on.  Taking a
    candidate enters the recursive call, whose first statement keeps the better
    of the two selections and whose second stops at the end of the list or at
    the limit. *)
Fixpoint searchLoop (candidates : list Demand) (i : nat) (remaining : Resources)
    (counts : gmap string Z) (chosen best : list nat) : list nat :=
  match candidates with
  | [] => best
  | candidate :: rest =>
      let best' :=
        if takeable candidate remaining counts then
          let profile := profileOf config (demand_Profile candidate) in
          let chosen' := chosen ++ [i] in
          let best1 := keepBetter chosen' best in
          if limit <=? Z.of_nat (length chosen') then best1
          else searchLoop rest (S i) (fst (Sub remaining (profile_Resources profile)))
                 (incr counts (key_Repo (demand_Key candidate))) chosen' best1
        else best in
      searchLoop rest (S i) remaining counts chosen best'
  end.

End Search.

Definition exactSelect (now : Time) (candidates : list Demand) (free : Resources)
    (baseCounts : gmap string Z) (config : Config) : list Demand :=
  let bands := admissionBands now candidates config in
  let numBands := numberOfBands bands in
  let limit := Z.min (Slots free) admissionsPerTick in
  let best0 := keepBetter bands numBands [] [] in
  let best :=
    if limit <=? 0 then best0
    else searchLoop config bands numBands limit candidates 0 free baseCounts [] best0 in
  best ≫= (fun index => option_list (candidates !! index)).

(** ** Selections *)

Definition resOf (config : Config) (d : Demand) : Resources :=
  profile_Resources (profileOf config (demand_Profile d)).

Definition repoOf (d : Demand) : string := key_Repo (demand_Key d).

(** The demands at a list of positions. *)
Definition selAt (candidates : list Demand) (chosen : list nat) : list Demand :=
  chosen ≫= (fun index => option_list (candidates !! index)).

(** A set of demands the node can take together: their vectors fit, and no
    repository goes over its cap. *)
Definition admissible (config : Config) (free : Resources) (base : gmap string Z)
    (sel : list Demand) : Prop :=
  (sel <> [] -> vle (vsum (map (resOf config) sel)) free) /\
  (forall repo, In repo (map repoOf sel) ->
     countOf base repo + selectedOf repo sel <= repoCapLimit (RepoCaps config) repo).

(** The same, one demand at a time, as the search checks it. *)
Fixpoint fitsInTurn (config : Config) (sel : list Demand) (remaining : Resources)
    (counts : gmap string Z) : Prop :=
  match sel with
  | [] => True
  | d :: rest =>
      takeable config d remaining counts = true /\
      fitsInTurn config rest (fst (Sub remaining (resOf config d))) (incr counts (repoOf d))
  end.

Lemma selectedOf_cons repo d sel :
  selectedOf repo (d :: sel) = (if decide (repoOf d = repo) then 1 else 0) + selectedOf repo sel.
Proof.
  unfold selectedOf. simpl. unfold repoOf.
  case_bool_decide; case_decide; simplify_eq/=; try done; lia.
Qed.

Lemma selectedOf_nonneg repo sel : 0 <= selectedOf repo sel.
Proof. unfold selectedOf. lia. Qed.

Lemma selectedOf_app repo s1 s2 : selectedOf repo (s1 ++ s2) = selectedOf repo s1 + selectedOf repo s2.
Proof. unfold selectedOf. rewrite List.filter_app, length_app. lia. Qed.

Lemma selectedOf_absent repo sel : ~ In repo (map repoOf sel) -> selectedOf repo sel = 0.
Proof.
  induction sel as [|d sel IH]; [done|]. simpl. intros Hn.
  rewrite selectedOf_cons, IH by tauto. case_decide; tauto.
Qed.

Lemma takeable_spec config d remaining counts :
  takeable config d remaining counts = true <->
  vle (resOf config d) remaining /\
  countOf counts (repoOf d) < repoCapLimit (RepoCaps config) (repoOf d).
Proof.
  unfold takeable. rewrite negb_true_iff, orb_false_iff, negb_false_iff, CanFit_spec, Z.leb_gt.
  unfold resOf, repoOf. tauto.
Qed.

Definition nonneg_demands (config : Config) (l : list Demand) : Prop :=
  Forall (fun d => nonneg (resOf config d)) l.

Lemma fitsInTurn_admissible config sel remaining counts :
  nonneg_demands config sel -> in_range remaining ->
  (fitsInTurn config sel remaining counts <-> admissible config remaining counts sel).
Proof.
  intros Hn. revert remaining counts.
  induction Hn as [|d sel Hd Hn IH]; intros remaining counts Hr; simpl.
  { split; [intros _|done]. split; [done|]. intros ? []. }
  rewrite takeable_spec. split.
  - intros [[Hle Hc] Hrest].
    destruct (Sub remaining (resOf config d)) as [r' ok] eqn:E.
    assert (ok = true) as -> by (pose proof (Sub_fits _ _ Hle) as F; by rewrite E in F).
    destruct (Sub_exact _ _ _ Hd Hr E) as [_ Hadd]. simpl in Hrest.
    apply IH in Hrest as [Hv Hcaps]; [|rewrite <- Hadd in Hr; vec].
    split.
    + intros _. simpl. rewrite <- Hadd. destruct (decide (sel = [])) as [->|Hne].
      * simpl. rewrite vadd_zero_r. rewrite <- Hadd in Hle. vec.
      * specialize (Hv Hne). vec.
    + intros repo Hin. rewrite selectedOf_cons.
      destruct (in_dec String.string_dec repo (map repoOf sel)) as [Hin'|Hout].
      * specialize (Hcaps repo Hin'). rewrite countOf_incr in Hcaps. repeat case_decide; try done; lia.
      * destruct Hin as [<-|Hin]; [|done]. rewrite selectedOf_absent by done.
        rewrite decide_True by done. lia.
  - intros [Hv Hcaps]. specialize (Hv ltac:(done)). simpl in Hv.
    pose proof (vsum_nonneg (map (resOf config) sel)) as Hs.
    assert (nonneg (vsum (map (resOf config) sel))) as Hs' by (apply Hs; by apply List.Forall_map).
    assert (vle (resOf config d) remaining) as Hle by vec.
    pose proof (selectedOf_nonneg (repoOf d) sel) as Hp.
    assert (countOf counts (repoOf d) < repoCapLimit (RepoCaps config) (repoOf d)) as Hc.
    { specialize (Hcaps (repoOf d) (or_introl eq_refl)). rewrite selectedOf_cons in Hcaps.
      rewrite decide_True in Hcaps by done. lia. }
    split; [done|].
    destruct (Sub remaining (resOf config d)) as [r' ok] eqn:E.
    assert (ok = true) as -> by (pose proof (Sub_fits _ _ Hle) as F; by rewrite E in F).
    destruct (Sub_exact _ _ _ Hd Hr E) as [_ Hadd]. simpl.
    apply IH; [rewrite <- Hadd in Hr; vec|]. split.
    + intros _. rewrite <- Hadd in Hv. vec.
    + intros repo Hin. specialize (Hcaps repo (or_intror Hin)).
      rewrite selectedOf_cons in Hcaps. rewrite countOf_incr. repeat case_decide; try done; lia.
Qed.

(** ** The preference between selections is a strict order *)

Lemma earlierMembers_None c i :
  length c = length i -> (earlierMembers c i = None <-> c = i).
Proof.
  revert i. induction c as [|x c IH]; intros [|y i]; simpl; try done.
  intros [= Hl]. destruct (Nat.eqb_spec x y) as [->|Hne].
  - rewrite IH by done. split; [by intros ->|by intros [= ->]].
  - split; [done|]. by intros [= -> _].
Qed.

Lemma earlierMembers_trans a b c :
  length a = length b -> length b = length c ->
  earlierMembers a b = Some true -> earlierMembers b c = Some true ->
  earlierMembers a c = Some true.
Proof.
  revert b c. induction a as [|x a IH]; intros [|y b] [|z c]; simpl; try done.
  intros [= H1] [= H2].
  destruct (Nat.eqb_spec x y), (Nat.eqb_spec y z), (Nat.eqb_spec x z); subst; try lia;
    try (by apply IH); intros [= E1]; try intros [= E2];
    rewrite ?Nat.ltb_lt in *; try lia; try (f_equal; apply Nat.ltb_lt; lia); by intros.
Qed.

Lemma betterInBand_None a b bands k :
  betterInBand a b bands k = None <-> bandMembers a bands k = bandMembers b bands k.
Proof.
  unfold betterInBand. destruct (Nat.eqb_spec (length (bandMembers a bands k))
    (length (bandMembers b bands k))) as [E|E]; simpl.
  - by apply earlierMembers_None.
  - split; [done|]. intros H. by rewrite H in E.
Qed.

Lemma betterInBand_trans a b c bands k :
  betterInBand a b bands k = Some true -> betterInBand b c bands k = Some true ->
  betterInBand a c bands k = Some true.
Proof.
  unfold betterInBand.
  destruct (Nat.eqb_spec (length (bandMembers a bands k)) (length (bandMembers b bands k))) as [E1|E1],
    (Nat.eqb_spec (length (bandMembers b bands k)) (length (bandMembers c bands k))) as [E2|E2],
    (Nat.eqb_spec (length (bandMembers a bands k)) (length (bandMembers c bands k))) as [E3|E3];
    simpl; try lia; try (by apply earlierMembers_trans);
    intros H1 H2; try (injection H1 as H1); try (injection H2 as H2);
    rewrite ?Nat.ltb_lt in *; try lia; f_equal; apply Nat.ltb_lt; lia.
Qed.

Lemma betterFrom_trans a b c bands k n :
  betterFrom a b bands k n = true -> betterFrom b c bands k n = true ->
  betterFrom a c bands k n = true.
Proof.
  revert k. induction n as [|n IH]; intros k; simpl; [done|].
  destruct (betterInBand a b bands k) as [[]|] eqn:E1; [|done|];
    destruct (betterInBand b c bands k) as [[]|] eqn:E2; try done; intros H1 H2.
  - by rewrite (betterInBand_trans a b c).
  - apply betterInBand_None in E2. unfold betterInBand in *. rewrite <- E2, E1. done.
  - apply betterInBand_None in E1. unfold betterInBand in *. rewrite E1, E2. done.
  - rewrite (proj2 (betterInBand_None a c bands k)); [by apply IH|].
    apply betterInBand_None in E1, E2. congruence.
Qed.

Lemma betterFrom_irrefl a bands k n : betterFrom a a bands k n = false.
Proof.
  revert k. induction n as [|n IH]; intros k; simpl; [done|].
  by rewrite (proj2 (betterInBand_None a a bands k)).
Qed.

(** [r] is the incumbent [b] or was preferred to it. *)
Definition atLeast (bands : list nat) (numBands : nat) (r b : list nat) : Prop :=
  r = b \/ betterAdmission r b bands numBands = true.

Lemma atLeast_trans bands n a b c : atLeast bands n a b -> atLeast bands n b c -> atLeast bands n a c.
Proof.
  intros [->|H1] [->|H2]; unfold atLeast; auto. right. by eapply betterFrom_trans.
Qed.

Lemma keepBetter_atLeast bands n c b : atLeast bands n (keepBetter bands n c b) b.
Proof. unfold keepBetter, atLeast. destruct (betterAdmission c b bands n) eqn:E; auto. Qed.

(** Once beaten or matched, a selection stays so. *)
Lemma notBetter_mono bands n x r b :
  betterAdmission x b bands n = false -> atLeast bands n r b ->
  betterAdmission x r bands n = false.
Proof.
  intros H [->|Hr]; [done|].
  destruct (betterAdmission x r bands n) eqn:E; [|done].
  pose proof (betterFrom_trans x r b bands 0 n E Hr). unfold betterAdmission in H. congruence.
Qed.

Lemma keepBetter_notBetter bands n c b :
  betterAdmission c (keepBetter bands n c b) bands n = false.
Proof.
  unfold keepBetter. destruct (betterAdmission c b bands n) eqn:E; [|done].
  apply betterFrom_irrefl.
Qed.

(** ** What the search visits *)

(** Positions in increasing order, none before [i]. *)
Fixpoint increasing (i : nat) (chosen : list nat) : Prop :=
  match chosen with
  | [] => True
  | x :: rest => (i <= x)%nat /\ increasing (S x) rest
  end.

Lemma increasing_weaken i j chosen : (i <= j)%nat -> increasing j chosen -> increasing i chosen.
Proof. destruct chosen; simpl; [done|]. intros ? [? ?]. split; [lia|done]. Qed.

Lemma drop_sublist {A} (l : list A) i j : (i <= j)%nat -> drop j l `sublist_of` drop i l.
Proof.
  intros. replace j with (i + (j - i))%nat by lia. rewrite <- drop_drop. apply sublist_drop.
Qed.

Lemma drop_cons_inv {A} (l : list A) i d suffix :
  d :: suffix = drop i l -> l !! i = Some d /\ suffix = drop (S i) l.
Proof.
  intros H. assert (l !! i = Some d) as E.
  { replace i with (i + 0)%nat by lia. by rewrite <- lookup_drop, <- H. }
  split; [done|]. rewrite (drop_S l d i E) in H. by injection H.
Qed.

Lemma selAt_sublist all chosen i :
  increasing i chosen -> selAt all chosen `sublist_of` drop i all.
Proof.
  revert i. induction chosen as [|x rest IH]; intros i; simpl; [intros; apply sublist_nil_l|].
  intros [Hi Hrest]. unfold selAt in *. simpl. specialize (IH (S x) Hrest).
  transitivity (drop x all).
  - destruct (all !! x) as [d|] eqn:E; simpl.
    + rewrite (drop_S all d x) by done. by apply sublist_skip.
    + transitivity (drop (S x) all); [done|apply drop_sublist; lia].
  - by apply drop_sublist.
Qed.

Lemma selAt_length all chosen : (length (selAt all chosen) <= length chosen)%nat.
Proof.
  induction chosen as [|x chosen IH]; [done|]. unfold selAt in *.
  rewrite bind_cons, length_app, length_cons. destruct (all !! x); simpl; [by apply le_n_S|by apply Nat.le_le_succ_r].
Qed.

Lemma selAt_app all c1 c2 : selAt all (c1 ++ c2) = selAt all c1 ++ selAt all c2.
Proof. unfold selAt. by rewrite bind_app. Qed.

Lemma selAt_snoc all chosen i d :
  all !! i = Some d -> selAt all (chosen ++ [i]) = selAt all chosen ++ [d].
Proof. intros H. rewrite selAt_app. unfold selAt at 2. simpl. by rewrite H. Qed.

Section Search_spec.
Context (config : Config) (bands : list nat) (numBands : nat) (limit : Z).
Context (all : list Demand) (free : Resources) (base : gmap string Z).

Abbreviation loop := (searchLoop config bands numBands limit).

(** A selection the search may return. *)
Definition visited (chosen : list nat) : Prop :=
  increasing 0 chosen /\ fitsInTurn config (selAt all chosen) free base /\
  Z.of_nat (length chosen) <= Z.max 0 limit /\ Forall (fun i => is_Some (all !! i)) chosen.

(** The state of the search after taking [chosen]. *)
Fixpoint stateAfter (sel : list Demand) (remaining : Resources) (counts : gmap string Z)
    : Resources * gmap string Z :=
  match sel with
  | [] => (remaining, counts)
  | d :: rest => stateAfter rest (fst (Sub remaining (resOf config d))) (incr counts (repoOf d))
  end.

Lemma stateAfter_snoc sel d remaining counts :
  stateAfter (sel ++ [d]) remaining counts =
  (fst (Sub (fst (stateAfter sel remaining counts)) (resOf config d)),
   incr (snd (stateAfter sel remaining counts)) (repoOf d)).
Proof. revert remaining counts. by induction sel; intros; simpl. Qed.

Lemma fitsInTurn_app s1 s2 remaining counts :
  fitsInTurn config (s1 ++ s2) remaining counts <->
  fitsInTurn config s1 remaining counts /\
  fitsInTurn config s2 (fst (stateAfter s1 remaining counts)) (snd (stateAfter s1 remaining counts)).
Proof.
  revert remaining counts. induction s1 as [|d s1 IH]; intros; simpl; [tauto|].
  rewrite IH. tauto.
Qed.

Lemma searchLoop_atLeast suffix i remaining counts chosen best :
  atLeast bands numBands (loop suffix i remaining counts chosen best) best.
Proof.
  revert i remaining counts chosen best.
  induction suffix as [|d suffix IH]; intros; simpl; [by left|].
  eapply atLeast_trans; [apply IH|].
  destruct (takeable config d remaining counts); [|by left].
  destruct (limit <=? _); [apply keepBetter_atLeast|].
  eapply atLeast_trans; [apply IH|apply keepBetter_atLeast].
Qed.

Lemma increasing_snoc j chosen i :
  increasing j chosen -> Forall (fun x => (x < i)%nat) chosen -> (j <= i)%nat ->
  increasing j (chosen ++ [i]).
Proof.
  revert j. induction chosen as [|x rest IH]; intros j; simpl; [intros; split; [lia|done]|].
  intros [? ?] Hf ?. inversion_clear Hf. split; [done|]. apply IH; [done..|lia].
Qed.

(** What holds of the arguments of every call: they describe [chosen], which
    lies before the suffix still to be searched. *)
Record searching (suffix : list Demand) (i : nat) (remaining : Resources)
    (counts : gmap string Z) (chosen : list nat) : Prop := {
  searching_suffix : suffix = drop i all;
  searching_state : stateAfter (selAt all chosen) free base = (remaining, counts);
  searching_visited : visited chosen;
  searching_before : Forall (fun x => (x < i)%nat) chosen
}.

Lemma searching_skip d suffix i remaining counts chosen :
  searching (d :: suffix) i remaining counts chosen ->
  searching suffix (S i) remaining counts chosen.
Proof.
  intros [Hs Hst Hv Hb]. split; try done.
  - by apply (drop_cons_inv all i d).
  - eapply List.Forall_impl; [|exact Hb]. simpl. lia.
Qed.

Lemma searching_take d suffix i remaining counts chosen :
  searching (d :: suffix) i remaining counts chosen ->
  takeable config d remaining counts = true ->
  Z.of_nat (length chosen) < limit ->
  searching suffix (S i) (fst (Sub remaining (resOf config d))) (incr counts (repoOf d))
    (chosen ++ [i]).
Proof.
  intros [Hs Hst (Hi & Hf & Hl & Hsome) Hb] Ht Hlt.
  destruct (drop_cons_inv all i d suffix Hs) as [Hd Hs'].
  split; [done| | |].
  - by rewrite (selAt_snoc _ _ _ d), stateAfter_snoc, Hst.
  - split; [apply increasing_snoc; [done..|lia]|].
    split; [|split].
    + rewrite (selAt_snoc _ _ _ d), fitsInTurn_app, Hst by done. by split.
    + rewrite length_app. simpl. lia.
    + apply List.Forall_app. split; [done|]. constructor; [by rewrite Hd|done].
  - apply List.Forall_app. split; [|constructor; [lia|done]].
    eapply List.Forall_impl; [|exact Hb]. simpl. lia.
Qed.

Lemma searchLoop_visited suffix i remaining counts chosen best :
  searching suffix i remaining counts chosen -> Z.of_nat (length chosen) < limit ->
  visited best -> visited (loop suffix i remaining counts chosen best).
Proof.
  revert i remaining counts chosen best.
  induction suffix as [|d suffix IH]; intros i remaining counts chosen best Hs Hl Hb; simpl; [done|].
  apply IH; [by eapply searching_skip|done|].
  destruct (takeable config d remaining counts) eqn:Ht; [|done].
  pose proof (searching_take _ _ _ _ _ _ Hs Ht Hl) as Hs'.
  assert (visited (keepBetter bands numBands (chosen ++ [i]) best)) as Hk.
  { unfold keepBetter. destruct (betterAdmission _ _ _ _); [|done]. apply Hs'. }
  destruct (Z.leb_spec limit (Z.of_nat (length (chosen ++ [i])))); [done|].
  by apply IH.
Qed.

(** Every selection that extends [chosen] within the suffix has been matched or
    beaten when the loop ends. *)
Lemma searchLoop_complete suffix i remaining counts chosen best ext :
  searching suffix i remaining counts chosen ->
  ext <> [] -> increasing i ext -> visited (chosen ++ ext) ->
  betterAdmission (chosen ++ ext) (loop suffix i remaining counts chosen best) bands numBands = false.
Proof.
  revert i remaining counts chosen best ext.
  induction suffix as [|d suffix IH]; intros i remaining counts chosen best ext Hs Hne Hinc Hv.
  { destruct ext as [|x ext]; [done|]. exfalso.
    destruct Hv as (_ & _ & _ & Hsome). apply List.Forall_app in Hsome as [_ Hsome].
    inversion_clear Hsome as [|?? [d Hd] _]. apply lookup_lt_Some in Hd.
    pose proof (searching_suffix _ _ _ _ _ Hs) as E. symmetry in E. apply (f_equal length) in E.
    rewrite length_drop in E. simpl in E. destruct Hinc. lia. }
  destruct ext as [|x ext]; [done|]. simpl.
  destruct (decide (x = i)) as [->|Hx].
  2:{ apply IH; [by eapply searching_skip|done| |done].
      destruct Hinc. split; [lia|done]. }
  destruct (drop_cons_inv all i d suffix (searching_suffix _ _ _ _ _ Hs)) as [Hd _].
  replace (chosen ++ i :: ext) with ((chosen ++ [i]) ++ ext) in * by (by rewrite <- app_assoc).
  assert (takeable config d remaining counts = true) as Ht.
  { destruct Hv as (_ & Hf & _). rewrite selAt_app, (selAt_snoc _ _ _ d) in Hf by done.
    rewrite !fitsInTurn_app in Hf. destruct Hf as [[_ Hf] _].
    rewrite (searching_state _ _ _ _ _ Hs) in Hf. apply Hf. }
  assert (Z.of_nat (length chosen) < limit) as Hl.
  { destruct Hv as (_ & _ & Hl & _). rewrite !length_app in Hl. simpl in Hl. lia. }
  pose proof (searching_take _ _ _ _ _ _ Hs Ht Hl) as Hs'. rewrite Ht.
  eapply notBetter_mono; [|apply searchLoop_atLeast].
  destruct ext as [|y ext].
  - rewrite app_nil_r. destruct (limit <=? _); [apply keepBetter_notBetter|].
    eapply notBetter_mono; [apply keepBetter_notBetter|apply searchLoop_atLeast].
  - destruct (Z.leb_spec limit (Z.of_nat (length (chosen ++ [i])))) as [Hle|_].
    { destruct Hv as (_ & _ & Hl' & _). rewrite length_app in Hl'. simpl in Hl'. lia. }
    apply IH; [done|done|by destruct Hinc|done].
Qed.
End Search_spec.

(** The positions [exactSelect] keeps. *)
Definition exactPositions (now : Time) (candidates : list Demand) (free : Resources)
    (baseCounts : gmap string Z) (config : Config) : list nat :=
  let bands := admissionBands now candidates config in
  let numBands := numberOfBands bands in
  let limit := Z.min (Slots free) admissionsPerTick in
  let best0 := keepBetter bands numBands [] [] in
  if limit <=? 0 then best0
  else searchLoop config bands numBands limit candidates 0 free baseCounts [] best0.

Lemma exactSelect_positions now candidates free base config :
  exactSelect now candidates free base config =
  selAt candidates (exactPositions now candidates free base config).
Proof. done. Qed.

Lemma keepBetter_nil bands n : keepBetter bands n [] [] = [].
Proof. unfold keepBetter. by destruct (betterAdmission _ _ _ _). Qed.

Lemma visited_nil config limit all free base : visited config limit all free base [].
Proof. split; [done|]. split; [done|]. split; [simpl; lia|constructor]. Qed.

Lemma searching_start config limit all free base :
  searching config limit all free base all 0 free base [].
Proof. split; [done|done|apply visited_nil|constructor]. Qed.

Lemma exactPositions_visited now candidates free base config :
  visited config (Z.min (Slots free) admissionsPerTick) candidates free base
    (exactPositions now candidates free base config).
Proof.
  unfold exactPositions. rewrite keepBetter_nil.
  destruct (Z.leb_spec (Z.min (Slots free) admissionsPerTick) 0); [apply visited_nil|].
  apply searchLoop_visited; [apply searching_start|simpl; lia|apply visited_nil].
Qed.

Lemma exactPositions_complete now candidates free base config other :
  visited config (Z.min (Slots free) admissionsPerTick) candidates free base other ->
  let bands := admissionBands now candidates config in
  betterAdmission other (exactPositions now candidates free base config)
    bands (numberOfBands bands) = false.
Proof.
  intros Hv. unfold exactPositions. rewrite keepBetter_nil. simpl.
  destruct other as [|x other].
  { eapply notBetter_mono; [apply betterFrom_irrefl|].
    destruct (_ <=? 0); [by left|apply searchLoop_atLeast]. }
  destruct (Z.leb_spec (Z.min (Slots free) admissionsPerTick) 0) as [Hle|Hlt].
  { destruct Hv as (_ & _ & Hl & _). simpl in Hl. lia. }
  apply (searchLoop_complete config _ _ _ candidates free base _ _ _ _ [] [] (x :: other));
    [apply searching_start|done| |done].
  destruct Hv as [[_ ?] _]. split; [lia|done].
Qed.

Lemma exactSelect_sublist now candidates free base config :
  exactSelect now candidates free base config `sublist_of` candidates.
Proof.
  rewrite exactSelect_positions.
  destruct (exactPositions_visited now candidates free base config) as (Hi & _).
  pose proof (selAt_sublist candidates _ 0 Hi) as Hsub. by rewrite drop_0 in Hsub.
Qed.

(** What the rest of the scheduler needs of a selection: it is a sublist of the
    candidates, at most [admissionsPerTick] of them, that fit together. *)
Lemma exactSelect_sound now candidates free base config :
  nonneg_demands config candidates -> in_range free ->
  let sel := exactSelect now candidates free base config in
  sel `sublist_of` candidates /\ admissible config free base sel /\
  Z.of_nat (length sel) <= admissionsPerTick.
Proof.
  intros Hn Hr. rewrite exactSelect_positions. simpl.
  destruct (exactPositions_visited now candidates free base config) as (Hi & Hf & Hl & Hs).
  set (chosen := exactPositions _ _ _ _ _) in *.
  pose proof (selAt_sublist candidates chosen 0 Hi) as Hsub. rewrite drop_0 in Hsub.
  split; [done|]. split.
  - apply fitsInTurn_admissible; [|done|done].
    by eapply sublist_Forall.
  - pose proof (selAt_length candidates chosen).
    unfold admissionsPerTick in *. lia.
Qed.

(** ** The selection is optimal *)

Lemma visited_iff config limit candidates free base chosen :
  nonneg_demands config candidates -> in_range free ->
  increasing 0 chosen -> Forall (fun i => is_Some (candidates !! i)) chosen ->
  (visited config limit candidates free base chosen <->
   admissible config free base (selAt candidates chosen) /\
   Z.of_nat (length chosen) <= Z.max 0 limit).
Proof.
  intros Hn Hr Hi Hs. unfold visited. rewrite fitsInTurn_admissible; [tauto| |done].
  pose proof (selAt_sublist candidates chosen 0 Hi) as Hsub. rewrite drop_0 in Hsub.
  by eapply sublist_Forall.
Qed.

(** C18: [exactSelect] returns a best admissible combination.  Its positions are
    increasing and inside the candidate list, the demands at them fit the free
    vector together and keep every repository within its cap, they number at
    most the tick's admission limit, and no other combination with those
    properties is preferred by [betterAdmission]. *)
Theorem exact_select_is_optimal now candidates free base config :
  nonneg_demands config candidates -> in_range free ->
  let limit := Z.max 0 (Z.min (Slots free) admissionsPerTick) in
  let bands := admissionBands now candidates config in
  let feasibleAt chosen :=
    increasing 0 chosen /\ Forall (fun i => is_Some (candidates !! i)) chosen /\
    admissible config free base (selAt candidates chosen) /\
    Z.of_nat (length chosen) <= limit in
  exists best,
    exactSelect now candidates free base config = selAt candidates best /\
    feasibleAt best /\
    (forall other, feasibleAt other ->
       betterAdmission other best bands (numberOfBands bands) = false).
Proof.
  intros Hn Hr. simpl. exists (exactPositions now candidates free base config).
  split; [done|]. pose proof (exactPositions_visited now candidates free base config) as Hv.
  split.
  - pose proof Hv as (Hi & _ & _ & Hs). split; [done|]. split; [done|].
    by apply visited_iff in Hv.
  - intros other (Hi & Hs & Ha). apply exactPositions_complete. by apply visited_iff.
Qed.

Lemma exact_select_is_optimal_witness :
  let candidates := [Node.largeDemand "acme/app" 1 0; Node.linuxDemand "acme/app" 2 0;
                     Node.linuxDemand "acme/app" 3 0; Node.linuxDemand "acme/lib" 4 0] in
  nonneg_demands Node.config candidates /\
  exactSelect Node.now candidates (Node.vec 8 16384 4) ∅ Node.config =
    [Node.linuxDemand "acme/app" 2 0; Node.linuxDemand "acme/app" 3 0;
     Node.linuxDemand "acme/lib" 4 0] /\
  exists best, exactSelect Node.now candidates (Node.vec 8 16384 4) ∅ Node.config
    = selAt candidates best.
Proof.
  intros candidates.
  assert (nonneg_demands Node.config candidates) as Hn
    by (repeat constructor; apply (bool_decide_unpack _); by vm_compute).
  split; [done|]. split; [by vm_compute|].
  destruct (exact_select_is_optimal Node.now candidates (Node.vec 8 16384 4) ∅ Node.config Hn)
    as (best & Hb & _); [|by exists best].
  unfold in_range, vle, Node.vec. simpl. unfold maxInt64. lia.
Defined.
