(* ===== verification/Passes.v ===== *)
(** * The two admission passes (internal/scheduler/scheduler.go)

    [planLinux] and [appendMacSpawns], through which every spawn of a tick
    passes, with the reservation, the backfill behind it and the rule that work
    is admitted beside an aged head of the other platform. *)

From Stdlib Require Import ZArith Lia String Permutation.
From stdpp Require Import base tactics list gmap strings.
From S2P Require Import Prelude GoStrings Liveness Domain Scheduler Envelope Order Recovery Admission.

(** ** Plan updates *)

Definition setReservation (p : Plan) (r : option Reservation) : Plan :=
  withNext p (withReservation (plan_Next p) r).
Definition setCursor (p : Plan) (c : string) : Plan := withNext p (withDRRCursor (plan_Next p) c).
Definition setMacHandoff (p : Plan) (h : option MacHandoff) : Plan :=
  withNext p (withMacHandoff (plan_Next p) h).
Definition setLinuxHandoff (p : Plan) (h : option LinuxHandoff) : Plan :=
  withNext p (withLinuxHandoff (plan_Next p) h).

(** [plan.Next.DRRCursor = l[len(l)-1].Demand.Repo] when [l] is not empty. *)
Definition advanceCursor (p : Plan) (repos : list string) : Plan :=
  match last repos with
  | Some repo => setCursor p repo
  | None => p
  end.

(** ** The reserved head *)

Definition reservedDemand (reservation : option Reservation) (demands : list Demand) : option Demand :=
  match reservation with
  | None => None
  | Some r => List.find (fun d => bool_decide (demand_Key d = res_Demand r)
                             && bool_decide (demand_Profile d = res_Profile r)) demands
  end.

Definition outranksReservation (input : Input) (candidate reserved : Demand) : bool :=
  let candidateTier := tierOf input candidate in
  let reservedTier := tierOf input reserved in
  if negb (candidateTier =? reservedTier) then reservedTier <? candidateTier
  else demandLess candidate reserved.

Definition reservationStillHeadsQueue (input : Input) (demands : list Demand) (reserved : Demand)
    : bool :=
  forallb (fun demand =>
    if bool_decide (demand_Key demand = demand_Key reserved)
       || negb (demandAged (Now input) (FairnessAge (in_Config input)) demand)
    then true else negb (outranksReservation input demand reserved)) demands.

Definition takesTheReservedVector (config : Config) (reservation : Reservation) (demand : Demand)
    : bool :=
  CanFit (profile_Resources (profileOf config (demand_Profile demand))) (res_Resources reservation).

Definition jumpsTheReservedHead (config : Config) (reservation : Reservation) (remainder : Resources)
    (remainderExists : bool) (demand : Demand) : bool :=
  if remainderExists && CanFit remainder (profile_Resources (profileOf config (demand_Profile demand)))
  then false
  else takesTheReservedVector config reservation demand.

Section Passes.
Context `{ContentAddress}.

Definition countSelected (base : gmap string Z) (selected : list Demand) : gmap string Z :=
  fold_left (fun counts d => incr counts (key_Repo (demand_Key d))) selected base.

Definition backfillCandidates (input : Input) (demands : list Demand) (free : Resources)
    (reservation : Reservation) (alreadySelected : list Demand) : list Demand :=
  let '(remainder, fits) := Sub free (res_Resources reservation) in
  let excluded := res_Demand reservation :: keys alreadySelected in
  List.filter (fun demand =>
    negb (bool_decide (demand_Key demand ∈ excluded))
    && negb (jumpsTheReservedHead (in_Config input) reservation remainder fits demand)) demands.

Definition safeBackfill (input : Input) (demands : list Demand) (free : Resources)
    (baseCounts : gmap string Z) (reservation : Reservation) (alreadySelected : list Demand)
    : list Operation :=
  let counts := countSelected baseCounts alreadySelected in
  let candidates := backfillCandidates input demands free reservation alreadySelected in
  let ordered := priorityOrder input candidates in
  map (fun d => spawnOperation d []) (exactSelect (Now input) ordered free counts (in_Config input)).

(** ** Beside an aged head of the other platform *)

Definition demandsAwaitingAdmission (demands : list Demand) (operations : list Operation) : list Demand :=
  let spawned := map op_Demand (List.filter isSpawn operations) in
  List.filter (fun d => negb (bool_decide (demand_Key d ∈ spawned))) demands.

Definition foreignQueue (input : Input) (plan : Plan) (platform : Platform) : list Demand :=
  let served := incarnated (instancesOf input) in
  let queue := List.filter (fun d => onPlatform platform d && negb (bool_decide (demand_Key d ∈ served)))
                 (normalizedDemands input) in
  demandsAwaitingAdmission queue (plan_Operations plan).

(** Whether the loop drops a candidate: it is ranked behind the foreign head and
    could take the vector that head is waiting for. *)
Definition jumpsForeignHead (input : Input) (rank : gmap DemandKey Z) (headKey : DemandKey)
    (head : Reservation) (remainder : Resources) (remainderExists : bool) (demand : Demand) : bool :=
  match rank !! headKey, rank !! demand_Key demand with
  | Some headRank, Some demandRank =>
      (headRank <? demandRank)
      && jumpsTheReservedHead (in_Config input) head remainder remainderExists demand
  | _, _ => false
  end.

Definition besideAgedForeignHead (input : Input) (candidates foreign : list Demand) : list Demand :=
  if MacOSExclusive (in_Config input) then candidates
  else match candidates, foreign with
  | [], _ | _, [] => candidates
  | _, _ =>
      match priorityOrder input foreign with
      | [] => candidates
      | foreignHead :: _ =>
          match Profiles (in_Config input) !! demand_Profile foreignHead with
          | None => candidates
          | Some profile =>
              if negb (demandAged (Now input) (FairnessAge (in_Config input)) foreignHead)
              then candidates
              else
                let head := {| res_Demand := demand_Key foreignHead;
                               res_Profile := demand_Profile foreignHead;
                               res_Resources := profile_Resources profile;
                               res_Since := demand_CreatedAt foreignHead |} in
                let '(remainder, remainderExists) :=
                  Sub (linuxFreeAged input) (profile_Resources profile) in
                let rank := priorityRank input in
                List.filter (fun d => negb (jumpsForeignHead input rank (demand_Key foreignHead)
                                              head remainder remainderExists d)) candidates
          end
      end
  end.

(** ** The Linux pass *)

(** [free.Slots = min(free.Slots, admissionsPerTick)]. *)
Definition paced (free : Resources) : Resources :=
  {| CPU := CPU free; MemoryMB := MemoryMB free; Slots := Z.min (Slots free) admissionsPerTick |}.

(** [if remaining, ok := free.Sub(v); ok { free = remaining } else { free = Resources{} }]. *)
Definition subOrZero (free v : Resources) : Resources :=
  let '(remaining, ok) := Sub free v in if ok then remaining else zeroResources.

(** Reserve an infeasible head and backfill behind it. *)
Definition reserveAndBackfill (input : Input) (plan : Plan) (demands : list Demand) (free : Resources)
    (baseCounts : gmap string Z) (reservation : Reservation) (axis : ReservationAxis)
    (selected : list Demand) : Plan :=
  let plan1 := withAxis (setReservation plan (Some reservation)) axis in
  let backfill := safeBackfill input demands free baseCounts reservation selected in
  advanceCursor (appendOperations plan1 backfill) (map (fun op => key_Repo (op_Demand op)) backfill).

(** The loop over the aged band. *)
Fixpoint admitAged (input : Input) (demands : list Demand) (baseCounts : gmap string Z)
    (admittedBefore : nat) (candidates : list Demand) (plan : Plan) (free agedFree : Resources) : Plan :=
  match candidates with
  | [] => plan
  | candidate :: rest =>
      if admissionsPerTick <=? Z.of_nat (length (plan_Operations plan) - admittedBefore) then plan
      else
        let config := in_Config input in
        let profile := profileOf config (demand_Profile candidate) in
        let selected := spawnedDemands (plan_Operations plan) in
        let axis := admissionAxis (profile_Resources profile) agedFree
                      (key_Repo (demand_Key candidate)) baseCounts selected (RepoCaps config) in
        if negb (bool_decide (axis = ReservationAxisNone)) then
          reserveAndBackfill input plan demands free baseCounts
            {| res_Demand := demand_Key candidate; res_Profile := demand_Profile candidate;
               res_Resources := profile_Resources profile; res_Since := Now input |} axis selected
        else
          admitAged input demands baseCounts admittedBefore rest
            (appendOperations plan [spawnOperation candidate []])
            (subOrZero free (profile_Resources profile))
            (fst (Sub agedFree (profile_Resources profile)))
  end.

(** The demands the pass considers. *)
Definition linuxCandidates (input : Input) (plan : Plan) (demands : list Demand) : list Demand :=
  besideAgedForeignHead input (consumeCompatibleIdle demands (instancesOf input))
    (foreignQueue input plan PlatformMacOS).

(** The reservation the tick inherited, when it still names the head. *)
Definition standingReservation (input : Input) (demands : list Demand) : option (Reservation * Demand) :=
  match st_Reservation (Prior input), reservedDemand (st_Reservation (Prior input)) demands with
  | Some reservation, Some reserved =>
      if reservationStillHeadsQueue input demands reserved then Some (reservation, reserved) else None
  | _, _ => None
  end.

Definition admitYoung (input : Input) (plan : Plan) (young : list Demand) (free : Resources)
    (baseCounts : gmap string Z) : Plan :=
  let ordered := youngPriorityOrder input young (st_DRRCursor (Prior input)) (in_Config input) in
  let selected := exactSelect (Now input) ordered free baseCounts (in_Config input) in
  advanceCursor (appendOperations plan (map (fun d => spawnOperation d []) selected))
    (map (fun d => key_Repo (demand_Key d)) selected).

Definition planLinux (input : Input) (plan : Plan) (queue : list Demand) : Plan :=
  match linuxCandidates input plan queue with
  | [] => setReservation plan None
  | demands =>
      let free := paced (linuxFree input) in
      let agedFree := paced (linuxFreeAged input) in
      let baseCounts := activeRepoCounts (instancesOf input) in
      match standingReservation input demands with
      | Some (reservation, reserved) =>
          let profile := profileOf (in_Config input) (demand_Profile reserved) in
          let axis := admissionAxis (profile_Resources profile) agedFree
                        (key_Repo (demand_Key reserved)) baseCounts [] (RepoCaps (in_Config input)) in
          if bool_decide (axis = ReservationAxisNone)
          then setReservation (appendOperations plan [spawnOperation reserved []]) None
          else reserveAndBackfill input plan demands free baseCounts reservation axis []
      | None =>
          let plan0 := setReservation plan None in
          let '(aged, young) := splitAged (Now input) (FairnessAge (in_Config input)) demands in
          match aged with
          | [] => admitYoung input plan0 young free baseCounts
          | _ => admitAged input demands baseCounts (length (plan_Operations plan0))
                   (agedQueueOrder input aged) plan0 free agedFree
          end
      end
  end.

(** ** The macOS pass *)

Definition macProfileLimit (profile : Profile) : Z :=
  if profile_MaxActive profile <=? 0 then 1 else profile_MaxActive profile.

Definition demandEnvelope (input : Input) (demand : Demand) (free agedFree : Resources) : Resources :=
  if demandAged (Now input) (FairnessAge (in_Config input)) demand then agedFree else free.

Definition plannedInstance (config : Config) (op : Operation) : Instance_ :=
  let profile := profileOf config (op_Profile op) in
  instanceLiteral ("planned-" +:+ op_ID op)%string (key_Repo (op_Demand op)) (op_Demand op)
    (profile_Platform profile) (profile_ID profile) (profile_Route profile)
    (profile_Resources profile) InstancePlanned InstancePowerRunning.

Definition appendPlannedSpawns (instances : list Instance_) (config : Config)
    (operations : list Operation) : list Instance_ :=
  instances ++ map (plannedInstance config) (List.filter isSpawn operations).

(** A live macOS instance of one profile. *)
Definition macOfProfile (profile : ProfileID) (i : Instance_) : bool :=
  ConsumesHostResources i && bool_decide (inst_Platform i = PlatformMacOS)
  && bool_decide (inst_Profile i = profile).

Definition activeOf (profile : ProfileID) (instances : list Instance_) : Z :=
  Z.of_nat (length (List.filter (macOfProfile profile) instances)).

(** The selection loop. *)
Fixpoint selectMac (input : Input) (resources : Resources) (available : Z) (ordered : list Demand)
    (counts : gmap string Z) (free agedFree : Resources) (selected : list Demand) : list Demand :=
  match ordered with
  | [] => selected
  | demand :: rest =>
      if available <=? Z.of_nat (length selected) then selected
      else if negb (CanFit (demandEnvelope input demand free agedFree) resources) then selected
      else
        let repo := key_Repo (demand_Key demand) in
        if repoCapLimit (RepoCaps (in_Config input)) repo <=? countOf counts repo
        then selectMac input resources available rest counts free agedFree selected
        else selectMac input resources available rest (incr counts repo)
               (subOrZero free resources) (fst (Sub agedFree resources)) (selected ++ [demand])
  end.

Definition appendMacSpawns (input : Input) (plan : Plan) (queue : list Demand)
    (dependencies : list string) : Plan :=
  match besideAgedForeignHead input queue (foreignQueue input plan PlatformLinux) with
  | [] => plan
  | (first :: _) as demands =>
      let config := in_Config input in
      let profile := profileOf config (demand_Profile first) in
      let available := macProfileLimit profile - activeOf (profile_ID profile) (instancesOf input) in
      if available <=? 0 then plan
      else
        let counts := activeRepoCounts (appendPlannedSpawns (instancesOf input) config (plan_Operations plan)) in
        let selected := selectMac input (profile_Resources profile) available
          (priorityOrder input demands) counts (linuxFree input) (linuxFreeAged input) [] in
        advanceCursor
          (appendOperations plan (map (fun d => spawnOperation d dependencies) selected))
          (map (fun d => key_Repo (demand_Key d)) selected)
  end.

End Passes.
