(* ===== verification/Lanes.v ===== *)
(** * The lanes of a tick (internal/scheduler/scheduler.go)

    How [PlanTick] composes the admission passes: recovery first, then the lane
    of the head's platform with its drains, handoffs and remainder pass.  A lane
    that indexes an empty slice panics in the source; it is [None] here. *)

From Stdlib Require Import ZArith Lia String Permutation.
From stdpp Require Import base tactics list gmap strings.
From S2P Require Import Prelude GoStrings Liveness Domain Scheduler Envelope Order Recovery Admission Passes.

(** ** Selectors *)

Definition demandsForProfile (demands : list Demand) (profile : ProfileID) : list Demand :=
  List.filter (fun d => bool_decide (demand_Profile d = profile)) demands.

Definition demandsExcludingProfile (demands : list Demand) (profile : ProfileID) : list Demand :=
  List.filter (fun d => negb (bool_decide (demand_Profile d = profile))) demands.

Definition hasConsumingPlatform (instances : list Instance_) (platform : Platform) : bool :=
  existsb (fun i => bool_decide (inst_Platform i = platform) && ConsumesHostResources i) instances.

(** The loop of [activeMacProfile]; the empty string is "none selected". *)
Fixpoint activeMacFrom (selected : ProfileID) (instances : list Instance_) : ProfileID * bool :=
  match instances with
  | [] => (selected, negb (bool_decide (selected = "")))
  | i :: rest =>
      if negb (ConsumesHostResources i) || negb (bool_decide (inst_Platform i = PlatformMacOS))
      then activeMacFrom selected rest
      else if negb (bool_decide (selected = "")) && negb (bool_decide (selected = inst_Profile i))
      then ("", false)
      else activeMacFrom (inst_Profile i) rest
  end.

Definition activeMacProfile (instances : list Instance_) : ProfileID * bool :=
  activeMacFrom "" instances.

(** [None] is the early [return false] on a foreign profile. *)
Fixpoint countGrowth (mixed : bool) (target : ProfileID) (active : Z) (instances : list Instance_)
    : option Z :=
  match instances with
  | [] => Some active
  | i :: rest =>
      if negb (ConsumesHostResources i) || negb (bool_decide (inst_Platform i = PlatformMacOS))
      then countGrowth mixed target active rest
      else if negb (bool_decide (inst_Profile i = target))
      then if negb mixed then None else countGrowth mixed target active rest
      else countGrowth mixed target (active + 1) rest
  end.

Definition macProfileCanGrow (input : Input) (target : ProfileID) : bool :=
  let profile := profileOf (in_Config input) target in
  match countGrowth (MixedProfileCohorts (in_Config input)) target 0 (instancesOf input) with
  | None => false
  | Some active => active <? macProfileLimit profile
  end.

(** ** Handoffs *)

Definition macHandoffFor (prior : option MacHandoff) (demand : Demand) (now : Time) : MacHandoff :=
  let fresh := {| mac_Demand := demand_Key demand; mac_Profile := demand_Profile demand;
                  mac_Since := now; mac_BackfillAdmitted := false |} in
  match prior with
  | Some p =>
      if bool_decide (mac_Demand p = demand_Key demand) && bool_decide (mac_Profile p = demand_Profile demand)
      then p else fresh
  | None => fresh
  end.

Definition linuxHandoffFor (prior : option LinuxHandoff) (demand : Demand) (now : Time) : LinuxHandoff :=
  let fresh := {| linux_Demand := demand_Key demand; linux_Since := now;
                  linux_BackfillAdmitted := false |} in
  match prior with
  | Some p => if bool_decide (linux_Demand p = demand_Key demand) then p else fresh
  | None => fresh
  end.

Definition namesHandoff (p : MacHandoff) (d : Demand) : bool :=
  bool_decide (demand_Key d = mac_Demand p) && bool_decide (demand_Profile d = mac_Profile p).

Definition retainedMacHandoff (prior : option MacHandoff) (demands : list Demand) : option MacHandoff :=
  match prior with
  | None => None
  | Some p => if existsb (namesHandoff p) demands then Some p else None
  end.

(** The demands before, at and after the first position past the head that the
    handoff names. *)
Fixpoint splitAtHandoff (p : MacHandoff) (before demands : list Demand)
    : option (list Demand * Demand * list Demand) :=
  match demands with
  | [] => None
  | d :: rest =>
      if namesHandoff p d && negb (bool_decide (before = [])) then Some (before, d, rest)
      else splitAtHandoff p (before ++ [d]) rest
  end.

Definition stableMacHandoffOrder (prior : option MacHandoff) (demands : list Demand) : list Demand :=
  match prior with
  | None => demands
  | Some p =>
      match splitAtHandoff p [] demands with
      | Some (before, d, after) => d :: before ++ after
      | None => demands
      end
  end.

Definition admittedHandoff (h : MacHandoff) : MacHandoff :=
  {| mac_Demand := mac_Demand h; mac_Profile := mac_Profile h; mac_Since := mac_Since h;
     mac_BackfillAdmitted := true |}.

Definition admittedLinuxHandoff (h : LinuxHandoff) : LinuxHandoff :=
  {| linux_Demand := linux_Demand h; linux_Since := linux_Since h; linux_BackfillAdmitted := true |}.

(** ** The bounded backfill *)

Definition profileLess (a b : Profile) : bool :=
  let ra := profile_Resources a in
  let rb := profile_Resources b in
  if negb (CPU ra =? CPU rb) then CPU ra <? CPU rb
  else if negb (MemoryMB ra =? MemoryMB rb) then MemoryMB ra <? MemoryMB rb
  else if negb (Slots ra =? Slots rb) then Slots ra <? Slots rb
  else strLess (profile_ID a) (profile_ID b).

(** One step of the loop over the profiles: the smallest Linux profile so far. *)
Definition smallerLinux (smallest : option Profile) (profile : Profile) : option Profile :=
  if negb (bool_decide (profile_Platform profile = PlatformLinux)) then smallest
  else match smallest with
       | Some s => if profileLess profile s then Some profile else smallest
       | None => Some profile
       end.

(** The source ranges over a map, in no particular order. *)
Definition smallestOf (profiles : list Profile) : option Resources :=
  profile_Resources <$> fold_left smallerLinux profiles None.

Definition smallestLinuxResources (profiles : gmap ProfileID Profile) : option Resources :=
  smallestOf (map snd (map_to_list profiles)).

Section Lanes.
Context `{ContentAddress}.

Definition boundedDrainBackfill (input : Input) (demands : list Demand) : list Operation :=
  match smallestLinuxResources (Profiles (in_Config input)) with
  | None => []
  | Some ceiling =>
      let eligible := List.filter (fun demand =>
        let profile := profileOf (in_Config input) (demand_Profile demand) in
        (demandAged (Now input) (FairnessAge (in_Config input)) demand
         || isControlPlane (in_Config input) demand)
        && bool_decide (profile_Platform profile = PlatformLinux)
        && bool_decide (profile_Resources profile = ceiling)) demands in
      match eligible with
      | [] => []
      | _ =>
          let free := linuxFree input in
          let free' := {| CPU := CPU free; MemoryMB := MemoryMB free; Slots := Z.min (Slots free) 1 |} in
          match exactSelect (Now input) (priorityOrder input eligible) free'
                  (activeRepoCounts (instancesOf input)) (in_Config input) with
          | [] => []
          | first :: _ => [spawnOperation first []]
          end
      end
  end.

(** ** Draining *)

(** The loop every draining lane runs over the instances in order of identity:
    skip what it does not concern, note a busy instance, drain an idle one. *)
Fixpoint drainLoop (skip : Instance_ -> bool) (instances : list Instance_) (drains : list Operation)
    (allIdle : bool) (filtered : list Instance_) : list Operation * bool * list Instance_ :=
  match instances with
  | [] => (drains, allIdle, filtered)
  | i :: rest =>
      if skip i then drainLoop skip rest drains allIdle filtered
      else if negb (state_eqb (inst_State i) InstanceOnlineIdle)
      then drainLoop skip rest drains false filtered
      else drainLoop skip rest (drains ++ [drainOperation i]) allIdle (removeInstance filtered (inst_ID i))
  end.

Definition drainIdle (skip : Instance_ -> bool) (input : Input) : list Operation * bool * list Instance_ :=
  drainLoop skip (sortedInstances (instancesOf input)) [] true (instancesOf input).

(** ** The macOS lanes *)

Definition chosenMacProfile (input : Input) (demands : list Demand) : option ProfileID :=
  demand_Profile <$> head (priorityOrder input demands).

Definition switchSkip (profile : ProfileID) (i : Instance_) : bool :=
  negb (bool_decide (inst_Platform i = PlatformMacOS)) || negb (ConsumesHostResources i)
  || bool_decide (inst_Profile i = profile).

(** [attempted.Operations[len(plan.Operations):]]. *)
Definition newOperations (before after : Plan) : list Operation :=
  drop (length (plan_Operations before)) (plan_Operations after).

Definition planMacOS (input : Input) (plan : Plan) (demands : list Demand) : option Plan :=
  profile ← chosenMacProfile input demands;
  let attempted := appendMacSpawns input plan (demandsForProfile demands profile) [] in
  if MixedProfileCohorts (in_Config input) && containsSpawn (newOperations plan attempted)
  then Some attempted
  else
    let '(drains, allSwitchable, filtered) := drainIdle (switchSkip profile) input in
    let plan1 := appendOperations plan drains in
    if allSwitchable
    then Some (appendMacSpawns (withInstances input filtered) plan1
                 (demandsForProfile demands profile) (operationIDs drains))
    else Some plan1.

Definition linuxSkip (i : Instance_) : bool :=
  negb (bool_decide (inst_Platform i = PlatformLinux)) || negb (ConsumesHostResources i).

(** The part of [planMacHandoff] that reserves the head and backfills. *)
Definition reserveMacHead (input : Input) (plan : Plan) (linuxDemands : list Demand)
    (handoff : MacHandoff) : Plan :=
  let plan1 := setMacHandoff plan (Some handoff) in
  if mac_BackfillAdmitted handoff then plan1
  else
    let backfill := boundedDrainBackfill input linuxDemands in
    let plan2 := appendOperations plan1 backfill in
    match backfill with
    | [] => plan2
    | _ => setMacHandoff plan2 (Some (admittedHandoff handoff))
    end.

Definition planMacHandoff (input : Input) (plan : Plan) (linuxDemands queue : list Demand)
    : option Plan :=
  let macDemands := stableMacHandoffOrder (st_MacHandoff (Prior input)) queue in
  first ← head macDemands;
  let handoff := macHandoffFor (st_MacHandoff (Prior input)) first (Now input) in
  let '(drains, allIdle, filtered) := drainIdle linuxSkip input in
  let plan1 := appendOperations plan drains in
  let spawned := appendMacSpawns (withInstances input filtered) plan1 macDemands (operationIDs drains) in
  if allIdle && containsSpawn (plan_Operations spawned)
  then Some (setMacHandoff spawned None)
  else Some (reserveMacHead input plan1 linuxDemands handoff).

Definition planBehindInfeasibleMacHead (input : Input) (plan : Plan) (linuxDemands macDemands : list Demand)
    : option Plan :=
  macHead ← head (priorityOrder input macDemands);
  let handoff := macHandoffFor (st_MacHandoff (Prior input)) macHead (Now input) in
  let plan1 := setMacHandoff (planLinux input plan linuxDemands) (Some handoff) in
  if containsSpawn (newOperations plan plan1) then Some plan1
  else
    profile ← chosenMacProfile input macDemands;
    match demandsExcludingProfile macDemands profile with
    | [] => Some plan1
    | remaining => planMacOS input plan1 remaining
    end.

Definition planMacWithCoexistence (input : Input) (plan : Plan) (linuxDemands macDemands : list Demand)
    : option Plan :=
  attempted ← planMacOS input plan macDemands;
  if containsSpawn (plan_Operations attempted) then Some (setMacHandoff attempted None)
  else if (length (plan_Operations plan) <? length (plan_Operations attempted))%nat then Some attempted
  else
    profile ← chosenMacProfile input macDemands;
    if negb (macProfileCanGrow input profile) then Some attempted
    else planMacHandoff input attempted linuxDemands macDemands.

(** ** Remainder passes *)

Definition mixedRemainderInput (input : Input) (plan : Plan) : option Input :=
  if negb (MixedPlatformAdmission (in_Config input))
     || negb (bool_decide (plan_Status plan = PlanReady)) || containsDrain (plan_Operations plan)
  then None
  else Some (withInstances input
               (appendPlannedSpawns (instancesOf input) (in_Config input) (plan_Operations plan))).

Definition reservedRemainderDemands (input : Input) (plan : Plan) (demands : list Demand) : list Demand :=
  match st_Reservation (plan_Next plan) with
  | None => demands
  | Some reservation =>
      let '(remainder, remainderExists) := Sub (linuxFreeAged input) (res_Resources reservation) in
      List.filter (fun d => negb (jumpsTheReservedHead (in_Config input) reservation remainder
                                    remainderExists d)) demands
  end.

(** The synthetic instance names no resources: they are the zero vector. *)
Definition reservedCharge (config : Config) (reservation : Reservation) : Instance_ :=
  let profile := profileOf config (res_Profile reservation) in
  instanceLiteral (reservedChargePrefix +:+ DemandKey_String (res_Demand reservation))%string
    (key_Repo (res_Demand reservation)) (res_Demand reservation) (profile_Platform profile)
    (res_Profile reservation) (profile_Route profile) zeroResources InstancePlanned
    InstancePowerRunning.

Definition chargeReservedHead (input : Input) (reservation : option Reservation) : Input :=
  match reservation with
  | None => input
  | Some r => withInstances input (instancesOf input ++ [reservedCharge (in_Config input) r])
  end.

Definition fillLinuxRemainder (input : Input) (plan : Plan) (queue macos : list Demand) : Plan :=
  match demandsAwaitingAdmission queue (plan_Operations plan) with
  | [] => plan
  | linux =>
      match mixedRemainderInput input plan with
      | None => plan
      | Some augmented =>
          let sub := planLinux augmented (newPlan PlanReady (plan_Next plan)) linux in
          let plan1 := appendOperations plan (plan_Operations sub) in
          let plan2 := setReservation plan1 (st_Reservation (plan_Next sub)) in
          setCursor (withAxis plan2 (plan_ReservationAxis sub)) (st_DRRCursor (plan_Next sub))
      end
  end.

Definition remainderAdmits (input : Input) (counts : gmap string Z) (free agedFree : Resources)
    (demand : Demand) : bool :=
  macProfileCanGrow input (demand_Profile demand)
  && CanFit (demandEnvelope input demand free agedFree)
       (profile_Resources (profileOf (in_Config input) (demand_Profile demand)))
  && negb (repoCapLimit (RepoCaps (in_Config input)) (key_Repo (demand_Key demand))
           <=? countOf counts (key_Repo (demand_Key demand))).

Definition remainderMacProfile (input : Input) (macos : list Demand) : option ProfileID :=
  let firstAdmissible :=
    demand_Profile <$> List.find (remainderAdmits input (activeRepoCounts (instancesOf input))
                              (linuxFree input) (linuxFreeAged input)) (priorityOrder input macos) in
  if negb (MixedProfileCohorts (in_Config input)) then
    let '(active, live) := activeMacProfile (instancesOf input) in
    if live then (if macProfileCanGrow input active then Some active else None)
    else firstAdmissible
  else firstAdmissible.

Definition fillMacRemainder (input : Input) (plan : Plan) (queue linux : list Demand) : Plan :=
  match reservedRemainderDemands input plan (demandsAwaitingAdmission queue (plan_Operations plan)) with
  | [] => plan
  | macos =>
      match mixedRemainderInput input plan with
      | None => plan
      | Some augmented0 =>
          let augmented := chargeReservedHead augmented0 (st_Reservation (plan_Next plan)) in
          match remainderMacProfile augmented macos with
          | None => plan
          | Some target =>
              match demandsForProfile macos target with
              | [] => plan
              | profileDemands =>
                  let savedCursor := st_DRRCursor (plan_Next plan) in
                  let sub := appendMacSpawns augmented (newPlan PlanReady (plan_Next plan))
                               profileDemands [] in
                  setCursor (appendOperations plan (plan_Operations sub)) savedCursor
              end
          end
      end
  end.

(** ** The Linux lanes *)

Definition macSkip (i : Instance_) : bool :=
  negb (bool_decide (inst_Platform i = PlatformMacOS)) || negb (ConsumesHostResources i).

(** The wave of macOS work admitted while busy macOS instances finish. *)
Definition boundedMacWave (input : Input) (plan : Plan) (macDemands : list Demand)
    (handoff : LinuxHandoff) : Plan :=
  if linux_BackfillAdmitted handoff then plan
  else
    let '(profile, ok) := activeMacProfile (instancesOf input) in
    if negb ok then plan
    else
      let lending := chargeReservedHead input (st_Reservation (plan_Next plan)) in
      let candidates := reservedRemainderDemands input plan (demandsForProfile macDemands profile) in
      let plan1 := appendMacSpawns lending plan candidates [] in
      if containsSpawn (newOperations plan plan1)
      then setLinuxHandoff plan1 (Some (admittedLinuxHandoff handoff))
      else plan1.

Definition planLinuxHandoff (input : Input) (plan : Plan) (demands macDemands : list Demand)
    : option Plan :=
  first ← head (priorityOrder input demands);
  let handoff := linuxHandoffFor (st_LinuxHandoff (Prior input)) first (Now input) in
  let plan1 := setLinuxHandoff plan (Some handoff) in
  let '(drains, allIdle, filtered) := drainIdle macSkip input in
  let plan2 := appendOperations plan1 drains in
  if negb allIdle then Some (boundedMacWave input plan2 macDemands handoff)
  else
    let plan3 := setLinuxHandoff plan2 None in
    let next := planLinux (withInstances input filtered) (newPlan (plan_Status plan3) (plan_Next plan3))
                  demands in
    Some (withNext
            (appendOperations plan3
               (map (fun op => withDependencies op (operationIDs drains)) (plan_Operations next)))
            (plan_Next next)).

Definition planLinuxWithCoexistence (input : Input) (plan : Plan) (demands macDemands : list Demand)
    : option Plan :=
  let remaining := consumeCompatibleIdle demands (instancesOf input) in
  let attempted := planLinux input plan demands in
  if bool_decide (remaining = []) || containsSpawn (plan_Operations attempted)
  then Some (setLinuxHandoff attempted None)
  else planLinuxHandoff input attempted demands macDemands.

(** ** Exclusive admission *)

Definition macProfileFirst (input : Input) (demands : list Demand) (profile : ProfileID) : list Demand :=
  priorityOrder input (demandsForProfile demands profile)
  ++ demandsExcludingProfile (priorityOrder input demands) profile.

Definition foreignSkip (target : ProfileID) (i : Instance_) : bool :=
  negb (ConsumesHostResources i)
  || (bool_decide (inst_Platform i = PlatformMacOS) && bool_decide (inst_Profile i = target)).

Definition planExclusiveMacHandoff (input : Input) (plan : Plan) (queue : list Demand) : option Plan :=
  target ← (demand_Profile <$> head queue);
  let macDemands :=
    match st_MacHandoff (Prior input) with
    | Some h => if bool_decide (mac_Profile h = target)
                then stableMacHandoffOrder (Some h) queue else queue
    | None => queue
    end in
  first ← head macDemands;
  let handoff := macHandoffFor (st_MacHandoff (Prior input)) first (Now input) in
  let '(drains, allForeignIdle, filtered) := drainIdle (foreignSkip target) input in
  let plan1 := appendOperations plan drains in
  if negb allForeignIdle then Some (setMacHandoff plan1 (Some handoff))
  else Some (appendMacSpawns (withInstances input filtered) (setMacHandoff plan1 None)
               (demandsForProfile macDemands target) (operationIDs drains)).

Definition planExclusiveAdmission (input : Input) (plan : Plan) (linuxDemands macDemands : list Demand)
    : option Plan :=
  let '(activeProfile, activeProfileOK) := activeMacProfile (instancesOf input) in
  let hasActiveMac := hasConsumingPlatform (instancesOf input) PlatformMacOS in
  if hasActiveMac && negb activeProfileOK then Some plan
  else match macDemands with
  | _ :: _ =>
      let plan1 := setLinuxHandoff plan None in
      chosen ← chosenMacProfile input macDemands;
      let target :=
        if hasActiveMac && negb (bool_decide (demandsForProfile macDemands activeProfile = []))
        then activeProfile else chosen in
      planExclusiveMacHandoff input plan1 (macProfileFirst input macDemands target)
  | [] =>
      let plan1 := setMacHandoff plan None in
      if hasActiveMac then planLinuxHandoff input plan1 linuxDemands []
      else Some (planLinux input (setLinuxHandoff plan1 None) linuxDemands)
  end.

(** ** The tick *)

Definition judgeCarriedReservation (input : Input) (plan : Plan) : Plan :=
  match st_Reservation (plan_Next plan) with
  | None => plan
  | Some reservation =>
      if negb (bool_decide (plan_ReservationAxis plan = ReservationAxisEmpty)) then plan
      else withAxis plan
             (admissionAxis (profile_Resources (profileOf (in_Config input) (res_Profile reservation)))
                (linuxFreeAged input) (key_Repo (res_Demand reservation))
                (activeRepoCounts (instancesOf input)) (spawnedDemands (plan_Operations plan))
                (RepoCaps (in_Config input)))
  end.

Definition stateText (s : ObservationState) : string :=
  match s with
  | ObservationFresh => "fresh"
  | ObservationStale => "stale"
  | ObservationUnavailable => "unavailable"
  | ObservationOther s => s
  end.

Definition blockedPart (name : string) (state : ObservationState) (reason : string) : list string :=
  if bool_decide (state = ObservationFresh) then []
  else [(name +:+ " " +:+ stateText state
         +:+ (if bool_decide (reason = "") then "" else ": " +:+ reason))%string].

Definition blockedReason (input : Input) : string :=
  Join (blockedPart "demands" (obs_State (in_Demands input)) (obs_Reason (in_Demands input))
        ++ blockedPart "instances" (obs_State (in_Instances input)) (obs_Reason (in_Instances input))
        ++ blockedPart "host" (obs_State (in_Host input)) (obs_Reason (in_Host input))) "; ".

Definition usable (input : Input) : bool :=
  Usable (in_Demands input) && Usable (in_Instances input) && Usable (in_Host input).

(** The lane of a macOS head. *)
Definition planMacLane (input : Input) (plan : Plan) (mode : HostMode) (linux macos : list Demand)
    : option Plan :=
  let plan1 := setLinuxHandoff plan None in
  match mode with
  | HostLinux | HostMixed =>
      planned ← planMacWithCoexistence input plan1 linux macos;
      Some (fillLinuxRemainder input planned linux macos)
  | _ =>
      let plan2 := setMacHandoff plan1 None in
      attempted ← planMacOS input plan2 macos;
      if containsSpawn (plan_Operations attempted)
      then Some (fillLinuxRemainder input attempted linux macos)
      else if (match mode with HostIdle => true | _ => false end)
              || bool_decide (linux = []) || MixedPlatformAdmission (in_Config input)
      then planBehindInfeasibleMacHead input plan2 linux macos
      else planMacHandoff input plan2 linux macos
  end.

(** The lane of a Linux head. *)
Definition planLinuxLane (input : Input) (plan : Plan) (mode : HostMode) (linux macos : list Demand)
    : option Plan :=
  let plan1 := setMacHandoff plan (retainedMacHandoff (st_MacHandoff (Prior input)) macos) in
  planned ←
    match mode with
    | HostMacOS | HostMixed => planLinuxWithCoexistence input plan1 linux macos
    | _ => Some (planLinux input (setLinuxHandoff plan1 None) linux)
    end;
  Some (fillMacRemainder input planned macos linux).

Definition planDemands (input : Input) (plan : Plan) (mode : HostMode) (demands : list Demand)
    : option Plan :=
  let ordered := priorityOrder input demands in
  let '(linux, macos) := partition ordered in
  if MacOSExclusive (in_Config input) then
    planned ← planExclusiveAdmission input plan linux macos;
    Some (judgeCarriedReservation input planned)
  else
    first ← head ordered;
    planned ←
      match demand_Platform first with
      | PlatformMacOS => planMacLane input plan mode linux macos
      | PlatformLinux => planLinuxLane input plan mode linux macos
      | PlatformOther _ => Some plan
      end;
    Some (judgeCarriedReservation input planned).

Definition planTick (input : Input) : option Plan :=
  if negb (usable input) then
    Some (finish (withReason (newPlan PlanBlockedObservation (Prior input)) (blockedReason input)))
  else
    match DeriveHostMode (instancesOf input) with
    | None =>
        Some (finish (withReason (newPlan PlanInvalidObservation (Prior input))
                        "unknown live instance platform"))
    | Some mode =>
        let plan := newPlan PlanReady (Prior input) in
        match assignmentRecoveries (Now input) (in_Config input) (instancesOf input) with
        | (_ :: _) as recoveries =>
            Some (finish (judgeCarriedReservation input (withOperations plan recoveries)))
        | [] =>
            match normalizedDemands input with
            | [] => Some (finish (setLinuxHandoff (setMacHandoff (setReservation plan None) None) None))
            | demands =>
                planned ← planDemands input plan mode demands;
                Some (finish planned)
            end
        end
    end.

Definition PlanTick (input : Input) : option Plan :=
  plan ← planTick input;
  Some (if usable input
        then withEnvelope plan {| env_Free := linuxFree input; env_AgedFree := linuxFreeAged input |}
        else plan).

End Lanes.
