(* ===== verification/PassSpec.v ===== *)
(** * What an admission pass guarantees

    [Admits]: the demands a pass selects come from its queue, are distinct, fit
    the envelope it was given together, and keep every repository within its
    cap.  Both passes are shown to append spawns for such a selection. *)

From Stdlib Require Import ZArith Lia String Permutation.
From stdpp Require Import base tactics list gmap strings.
From S2P Require Import Prelude GoStrings Liveness Domain Scheduler Envelope Order Recovery Admission Passes.

(** ** Spawns *)

(** [op] spawns [d] once the operations [deps] are done. *)
Record Spawns (deps : list string) (d : Demand) (op : Operation) : Prop := {
  spawns_kind : op_Kind op = OperationSpawn;
  spawns_demand : op_Demand op = demand_Key d;
  spawns_profile : op_Profile op = demand_Profile d;
  spawns_route : op_Route op = demand_Route d;
  spawns_deps : op_DependsOn op = deps;
  spawns_recovery : op_Recovery op = false
}.

Definition noSpawn (ops : list Operation) : Prop := containsSpawn ops = false.

Lemma noSpawn_filter ops : noSpawn ops <-> List.filter isSpawn ops = [].
Proof.
  unfold noSpawn, containsSpawn. induction ops as [|op ops IH]; simpl; [done|].
  destruct (isSpawn op); simpl; [done|apply IH].
Qed.

Lemma noSpawn_app o1 o2 : noSpawn (o1 ++ o2) <-> noSpawn o1 /\ noSpawn o2.
Proof. unfold noSpawn, containsSpawn. rewrite existsb_app, orb_false_iff. tauto. Qed.

Lemma Spawns_isSpawn deps d op : Spawns deps d op -> isSpawn op = true.
Proof. intros S. unfold isSpawn. apply bool_decide_eq_true_2, S. Qed.

Lemma Spawns_filter deps sel sops :
  Forall2 (Spawns deps) sel sops -> List.filter isSpawn sops = sops.
Proof.
  induction 1 as [|d op sel sops S _ IH]; simpl; [done|]. by rewrite (Spawns_isSpawn _ _ _ S), IH.
Qed.

Lemma Spawns_noDrain deps sel sops : Forall2 (Spawns deps) sel sops -> List.filter isDrain sops = [].
Proof.
  induction 1 as [|d op sel sops S _ IH]; simpl; [done|].
  unfold isDrain. by rewrite (spawns_kind _ _ _ S), bool_decide_eq_false_2.
Qed.

Lemma Spawns_keys deps sel sops : Forall2 (Spawns deps) sel sops -> map op_Demand sops = keys sel.
Proof.
  unfold keys. induction 1 as [|d op sel sops S _ IH]; simpl; [done|].
  by rewrite (spawns_demand _ _ _ S), IH.
Qed.

Section SpawnOps.
Context `{ContentAddress}.

Lemma spawnOperation_Spawns deps d : Spawns deps d (spawnOperation d deps).
Proof. by split. Qed.

Lemma map_spawn_Spawns deps sel : Forall2 (Spawns deps) sel (map (fun d => spawnOperation d deps) sel).
Proof. induction sel; simpl; constructor; [apply spawnOperation_Spawns|done]. Qed.

Lemma withDependencies_Spawns deps0 deps sel sops :
  Forall2 (Spawns deps0) sel sops ->
  Forall2 (Spawns deps) sel (map (fun op => withDependencies op deps) sops).
Proof.
  induction 1 as [|d op sel sops S _ IH]; simpl; constructor; [|done]. destruct S. by split.
Qed.
End SpawnOps.

(** The demands [spawnedDemands] reads back carry only their keys. *)
Lemma spawnedDemands_keys deps ops0 sel sops :
  noSpawn ops0 -> Forall2 (Spawns deps) sel sops ->
  spawnedDemands (ops0 ++ sops) = map (fun d => keyedDemand (demand_Key d)) sel.
Proof.
  intros H0 HS. unfold spawnedDemands. apply noSpawn_filter in H0.
  rewrite List.filter_app, H0. simpl. rewrite (Spawns_filter _ _ _ HS).
  rewrite <- (map_map op_Demand keyedDemand), (Spawns_keys _ _ _ HS). unfold keys. by rewrite map_map.
Qed.

Lemma selectedOf_keyed repo sel :
  selectedOf repo (map (fun d => keyedDemand (demand_Key d)) sel) = selectedOf repo sel.
Proof.
  induction sel as [|d sel IH]; [done|]. cbn [map]. rewrite !selectedOf_cons, IH. done.
Qed.

Lemma keys_keyed sel : keys (map (fun d => keyedDemand (demand_Key d)) sel) = keys sel.
Proof. unfold keys. rewrite map_map. done. Qed.

Lemma countSelected_spec base sel repo :
  countOf (countSelected base sel) repo = countOf base repo + selectedOf repo sel.
Proof.
  unfold countSelected. revert base. induction sel as [|d sel IH]; intros base; simpl.
  - unfold selectedOf. simpl. lia.
  - rewrite IH, selectedOf_cons, countOf_incr. unfold repoOf. repeat case_decide; try done; lia.
Qed.

(** ** Selections of a pass

    The selection fits under an assumption [G] on the node: its arithmetic does
    not overflow, and a macOS queue names one profile. *)

Record Admits (G : Prop) (input : Input) (queue sel : list Demand) : Prop := {
  admits_distinct : List.NoDup (keys sel);
  admits_queue : Forall (fun d => In d queue) sel;
  admits_fits : G -> admissible (in_Config input) (linuxFreeAged input)
                       (activeRepoCounts (instancesOf input)) sel
}.

Lemma Admits_nil G input queue : Admits G input queue [].
Proof. split; [constructor|constructor|]. intros _. split; [done|]. intros ? []. Qed.

Lemma Admits_queue_mono G input queue queue' sel :
  (forall d, In d queue -> In d queue') -> Admits G input queue sel -> Admits G input queue' sel.
Proof.
  intros Hq [H1 H2 H3]. split; [done| |done]. eapply List.Forall_impl; [|exact H2]. auto.
Qed.

Lemma admissible_mono config free free' base sel :
  vle free free' -> admissible config free base sel -> admissible config free' base sel.
Proof. intros Hle [Hv Hc]. split; [|done]. intros Hne. etransitivity; [by apply Hv|done]. Qed.

(** Two selections made one after the other. *)
Lemma admissible_app config free rest base s1 s2 :
  (s1 <> [] -> vle (vadd (vsum (map (resOf config) s1)) rest) free /\ nonneg rest) ->
  (s1 = [] -> vle rest free) ->
  (forall repo, In repo (map repoOf s1) ->
     countOf base repo + selectedOf repo s1 <= repoCapLimit (RepoCaps config) repo) ->
  admissible config rest (countSelected base s1) s2 ->
  admissible config free base (s1 ++ s2).
Proof.
  intros Hne Hnil Hc1 [Hv2 Hc2]. split.
  - intros Hn. rewrite map_app, vsum_app. destruct s1 as [|d s1].
    + specialize (Hnil eq_refl). simpl in Hn. specialize (Hv2 Hn). simpl. rewrite vadd_zero_l.
      by etransitivity.
    + destruct (Hne ltac:(done)) as [Hle Hr]. destruct s2 as [|d2 s2].
      * simpl in *. rewrite vadd_zero_r. vec.
      * specialize (Hv2 ltac:(done)). etransitivity; [|exact Hle].
        revert Hv2. generalize (vsum (map (resOf config) (d2 :: s2))) as x.
        generalize (vsum (map (resOf config) (d :: s1))) as y. intros y x Hx. vec.
  - intros repo Hin. rewrite selectedOf_app.
    destruct (in_dec String.string_dec repo (map repoOf s2)) as [H2|H2].
    + specialize (Hc2 repo H2). rewrite countSelected_spec in Hc2. lia.
    + rewrite (selectedOf_absent repo s2) by done.
      rewrite map_app, in_app_iff in Hin. destruct Hin as [Hin|]; [|done].
      specialize (Hc1 repo Hin). lia.
Qed.

Definition positive_demands (config : Config) (l : list Demand) : Prop :=
  Forall (fun d => positive (resOf config d)) l.

Lemma positive_nonneg config l : positive_demands config l -> nonneg_demands config l.
Proof.
  intros Hp. eapply List.Forall_impl; [|exact Hp]. intros d Hd. unfold positive in Hd. cbn beta in Hd. vec.
Qed.

Lemma Forall_incl {A} (P : A -> Prop) l1 l2 : (forall x, In x l1 -> In x l2) -> Forall P l2 -> Forall P l1.
Proof. rewrite !List.Forall_forall. auto. Qed.

Lemma besideAgedForeignHead_sublist input candidates foreign :
  besideAgedForeignHead input candidates foreign `sublist_of` candidates.
Proof.
  unfold besideAgedForeignHead. destruct (MacOSExclusive _); [done|].
  destruct candidates as [|c candidates]; [done|]. destruct foreign; [done|].
  destruct (priorityOrder input _); [done|]. destruct (_ !! _); [|done].
  destruct (negb _); [done|]. destruct (Sub _ _). apply filter_sublist.
Qed.

Lemma paced_le free : vle (paced free) free.
Proof. unfold paced. vec. Qed.

Lemma paced_mono a b : vle a b -> vle (paced a) (paced b).
Proof. unfold paced. intros. vec. Qed.

Lemma advanceCursor_ops p repos : plan_Operations (advanceCursor p repos) = plan_Operations p.
Proof. unfold advanceCursor. by destruct (last repos). Qed.

(** ** The Linux pass *)

Section LinuxPass.
Context `{ContentAddress}.
Context (G : Prop) (input : Input).
Abbreviation config := (in_Config input).
Abbreviation spawn := (fun d => spawnOperation d []).

Lemma safeBackfill_spec demands free base reservation already :
  List.NoDup (keys demands) ->
  exists sel,
    safeBackfill input demands free base reservation already = map spawn sel /\
    List.NoDup (keys sel) /\
    (forall d, In d sel -> In d demands /\ ~ In (demand_Key d) (keys already)) /\
    (nonneg_demands config demands -> in_range free ->
     admissible config free (countSelected base already) sel).
Proof.
  intros Hn. unfold safeBackfill.
  set (candidates := backfillCandidates input demands free reservation already).
  set (counts := countSelected base already).
  assert (candidates `sublist_of` demands) as Hsub.
  { unfold candidates, backfillCandidates. destruct (Sub _ _). apply filter_sublist. }
  assert (Permutation (priorityOrder input candidates) candidates) as HP by apply priorityOrder_perm.
  exists (exactSelect (Now input) (priorityOrder input candidates) free counts config).
  pose proof (exactSelect_sublist (Now input) (priorityOrder input candidates) free counts config) as Hs.
  split; [done|]. split.
  - eapply sublist_NoDup_map; [exact Hs|]. eapply NoDup_map_perm; [exact HP|].
    by eapply sublist_NoDup_map.
  - split.
    2:{ intros Hp Hr. apply exactSelect_sound; [|done]. eapply Forall_incl; [|exact Hp].
        intros d Hd. eapply sublist_In; [exact Hsub|]. by eapply Permutation_in. }
    intros d Hd. eapply sublist_In in Hd; [|exact Hs].
    apply (Permutation_in _ HP) in Hd. split; [by eapply sublist_In|].
    unfold candidates, backfillCandidates in Hd. destruct (Sub _ _).
    apply List.filter_In in Hd as [_ Hd]. apply andb_true_iff in Hd as [Hd _].
    apply negb_true_iff, bool_decide_eq_false in Hd.
    intros Hin. apply Hd, list_elem_of_In. by right.
Qed.

(** The state of an admission loop: what it has taken so far, against the
    envelope [total] it started from. *)
Record taking (demands : list Demand) (base : gmap string Z) (total : Resources)
    (taken : list Demand) (free agedFree : Resources) : Prop := {
  taking_total : vadd (vsum (map (resOf config) taken)) agedFree = total;
  taking_free : vle free agedFree;
  taking_nonneg : taken <> [] -> nonneg agedFree;
  taking_caps : forall repo, In repo (map repoOf taken) ->
    countOf base repo + selectedOf repo taken <= repoCapLimit (RepoCaps config) repo;
  taking_queue : Forall (fun d => In d demands) taken
}.

Lemma taking_rest_le demands base total taken free agedFree :
  nonneg_demands config demands ->
  taking demands base total taken free agedFree -> vle agedFree total.
Proof.
  intros Hp T. rewrite <- (taking_total _ _ _ _ _ _ T).
  assert (nonneg (vsum (map (resOf config) taken))) as Hn.
  { apply vsum_nonneg, List.Forall_map. rewrite List.Forall_forall. intros d Hd.
    pose proof (taking_queue _ _ _ _ _ _ T) as Hq. unfold nonneg_demands in Hp.
    rewrite List.Forall_forall in Hq, Hp. auto. }
  vec.
Qed.

(** Backfilling ends the loop with one selection of everything admitted. *)
Lemma taking_backfill demands base total ops0 taken plan free agedFree reservation axis already :
  List.NoDup (keys demands) ->
  already = map (fun d => keyedDemand (demand_Key d)) taken ->
  List.NoDup (keys taken) -> plan_Operations plan = ops0 ++ map spawn taken ->
  Forall (fun d => In d demands) taken ->
  (G -> nonneg_demands config demands /\ in_range total /\
        taking demands base total taken free agedFree) ->
  exists sel,
    plan_Operations (reserveAndBackfill input plan demands free base reservation axis already)
      = ops0 ++ map spawn sel /\
    List.NoDup (keys sel) /\ Forall (fun d => In d demands) sel /\
    (G -> admissible config total base sel).
Proof.
  intros Hn Esel Hnt Ho Hin HG.
  destruct (safeBackfill_spec demands free base reservation already Hn)
    as (sel & Hops & Hns & Hsel & Ha).
  exists (taken ++ sel). unfold reserveAndBackfill. rewrite advanceCursor_ops. simpl.
  rewrite Hops, Ho, <- app_assoc, map_app. split; [done|].
  rewrite Esel in *. rewrite keys_keyed in Hsel. split; [|split].
  - unfold keys. rewrite map_app. apply NoDup_app_split. split; [done|]. split; [done|].
    intros k Hk Hk'. apply in_map_iff in Hk' as (d & <- & Hd). by destruct (Hsel d Hd).
  - apply List.Forall_app. split; [done|]. apply List.Forall_forall. intros d Hd. by apply Hsel.
  - intros g. destruct (HG g) as (Hp & Hr & T).
    pose proof (taking_rest_le _ _ _ _ _ _ Hp T) as Hrest.
    pose proof (taking_free _ _ _ _ _ _ T) as Hf. apply admissible_app with agedFree.
    + intros Hne. split; [by rewrite (taking_total _ _ _ _ _ _ T)|by apply T].
    + by intros _.
    + apply T.
    + apply (admissible_mono _ free); [done|]. destruct (Ha Hp ltac:(vec)) as [Hv Hc]. split; [done|].
      intros repo Hrepo. specialize (Hc repo Hrepo). rewrite countSelected_spec in *.
      by rewrite selectedOf_keyed in Hc.
Qed.

Lemma taking_end demands base total taken free agedFree :
  taking demands base total taken free agedFree -> admissible config total base taken.
Proof.
  intros T. split; [|apply T]. intros Hne. rewrite <- (taking_total _ _ _ _ _ _ T).
  pose proof (taking_nonneg _ _ _ _ _ _ T Hne). vec.
Qed.

(** Taking one more candidate that fits and is below its cap. *)
Lemma taking_step demands base total taken free agedFree c :
  nonneg_demands config demands -> in_range total ->
  taking demands base total taken free agedFree -> In c demands ->
  vle (resOf config c) agedFree ->
  countOf base (repoOf c) + selectedOf (repoOf c) taken < repoCapLimit (RepoCaps config) (repoOf c) ->
  taking demands base total (taken ++ [c])
    (subOrZero free (resOf config c)) (fst (Sub agedFree (resOf config c))).
Proof.
  intros Hp Hr T Hc Hfit Hcap. pose proof (taking_rest_le _ _ _ _ _ _ Hp T) as Hrest.
  assert (nonneg (resOf config c)) as Hnc.
  { unfold nonneg_demands in Hp. rewrite List.Forall_forall in Hp. auto. }
  pose proof (taking_free _ _ _ _ _ _ T) as Hf.
  assert (in_range agedFree) as Hra by vec. assert (in_range free) as Hrf by vec.
  destruct (Sub agedFree (resOf config c)) as [aged' ok] eqn:E.
  assert (ok = true) as -> by (pose proof (Sub_fits _ _ Hfit) as F; by rewrite E in F).
  destruct (Sub_exact _ _ _ Hnc Hra E) as [_ Hadd]. simpl.
  assert (nonneg aged') as Hna by (rewrite <- Hadd in Hfit; vec).
  split.
  - rewrite map_app, vsum_app. simpl. rewrite vadd_zero_r, <- vadd_assoc, Hadd. apply T.
  - unfold subOrZero. destruct (Sub free (resOf config c)) as [free' ok'] eqn:E'.
    destruct ok'; [|done].
    destruct (Sub_exact _ _ _ Hnc Hrf E') as [_ Hadd'].
    rewrite <- Hadd, <- Hadd' in Hf. vec.
  - done.
  - intros repo Hin. rewrite selectedOf_app, selectedOf_cons.
    change (selectedOf repo []) with 0.
    rewrite map_app, in_app_iff in Hin. case_decide as Ec.
    + subst. unfold repoOf in *. lia.
    + destruct Hin as [Hin|[Hin|[]]]; [|done].
      pose proof (taking_caps _ _ _ _ _ _ T repo Hin). lia.
  - apply List.Forall_app. split; [apply T|by constructor].
Qed.

Lemma admitAged_spec demands base total ops0 before cands taken plan free agedFree :
  List.NoDup (keys demands) -> noSpawn ops0 ->
  List.NoDup (keys (taken ++ cands)) -> Forall (fun d => In d demands) (taken ++ cands) ->
  plan_Operations plan = ops0 ++ map spawn taken ->
  (G -> nonneg_demands config demands /\ in_range total /\
        taking demands base total taken free agedFree) ->
  exists sel,
    plan_Operations (admitAged input demands base before cands plan free agedFree)
      = ops0 ++ map spawn sel /\
    List.NoDup (keys sel) /\ Forall (fun d => In d demands) sel /\
    (G -> admissible config total base sel).
Proof.
  intros Hn H0. revert taken plan free agedFree.
  induction cands as [|c cands IH]; intros taken plan free agedFree Hnt Hin Ho HG; simpl.
  { rewrite app_nil_r in Hnt, Hin. exists taken. split; [done|]. split; [done|].
    split; [done|]. intros g. eapply taking_end, HG, g. }
  assert (List.NoDup (keys taken)) as Hnt1.
  { unfold keys in *. rewrite map_app in Hnt. by apply NoDup_app_split in Hnt as [? _]. }
  pose proof Hin as Hin1. apply List.Forall_app in Hin1 as [Hin1 Hc]. inversion_clear Hc as [|? ? Hcin _].
  destruct (_ <=? _).
  { exists taken. split; [done|]. split; [done|]. split; [done|]. intros g. eapply taking_end, HG, g. }
  assert (spawnedDemands (plan_Operations plan) = map (fun d => keyedDemand (demand_Key d)) taken) as Esel.
  { rewrite Ho. eapply spawnedDemands_keys; [done|apply map_spawn_Spawns]. }
  case_bool_decide as Hax; simpl; [|by eapply taking_backfill].
  apply admissionAxis_none in Hax as [Hfit Hcap]. rewrite Esel, selectedOf_keyed in Hcap.
  apply (IH (taken ++ [c])); [by rewrite <- app_assoc|by rewrite <- app_assoc| |].
  - simpl. by rewrite Ho, <- app_assoc, map_app.
  - intros g. destruct (HG g) as (Hp & Hr & T). split; [done|]. split; [done|]. by apply taking_step.
Qed.

Lemma taking_start demands base free agedFree :
  vle free agedFree -> taking demands base agedFree [] free agedFree.
Proof. intros. split; try done; apply vadd_zero_l. Qed.

Lemma linuxCandidates_sublist plan queue : linuxCandidates input plan queue `sublist_of` queue.
Proof.
  unfold linuxCandidates. etransitivity; [apply besideAgedForeignHead_sublist|apply consumeIdle_sublist].
Qed.

Lemma standingReservation_In demands reservation reserved :
  standingReservation input demands = Some (reservation, reserved) -> In reserved demands.
Proof.
  unfold standingReservation, reservedDemand. destruct (st_Reservation (Prior input)) as [r|]; [|done].
  destruct (find _ demands) as [d|] eqn:E; [|done]. destruct (reservationStillHeadsQueue _ _ _); [|done].
  intros [= <- <-]. by apply find_some in E as [? _].
Qed.

Lemma setReservation_ops p r : plan_Operations (setReservation p r) = plan_Operations p.
Proof. done. Qed.

(** Without a standing reservation: the aged band, or the young lanes. *)
Lemma unreserved_spec plan demands base total free :
  List.NoDup (keys demands) -> noSpawn (plan_Operations plan) ->
  (G -> nonneg_demands config demands /\ in_range total /\ taking demands base total [] free total) ->
  exists sel,
    plan_Operations
      (let plan0 := setReservation plan None in
       let '(aged, young) := splitAged (Now input) (FairnessAge config) demands in
       match aged with
       | [] => admitYoung input plan0 young free base
       | _ => admitAged input demands base (length (plan_Operations plan0))
                (agedQueueOrder input aged) plan0 free total
       end) = plan_Operations plan ++ map spawn sel /\
    List.NoDup (keys sel) /\ Forall (fun d => In d demands) sel /\
    (G -> admissible config total base sel).
Proof.
  intros Hnd H0 HG. cbv zeta. destruct (splitAged _ _ _) as [aged young] eqn:Es.
  pose proof (splitAged_perm (Now input) (FairnessAge config) demands) as HPs. rewrite Es in HPs. simpl in HPs.
  assert (List.NoDup (keys (aged ++ young))) as Hnay by (by eapply NoDup_map_perm).
  assert (forall d, In d (aged ++ young) -> In d demands) as Hinay
    by (intros d; by apply Permutation_in).
  destruct aged as [|a aged].
  - unfold admitYoung. rewrite advanceCursor_ops. simpl.
    set (ordered := youngPriorityOrder _ _ _ _).
    assert (Permutation ordered young) as HPo by apply youngPriorityOrder_perm.
    pose proof (exactSelect_sublist (Now input) ordered free base config) as Hs.
    eexists. split; [done|]. split; [|split].
    + eapply sublist_NoDup_map; [exact Hs|]. by eapply NoDup_map_perm.
    + apply List.Forall_forall. intros d Hd. apply Hinay. eapply Permutation_in; [exact HPo|].
      by eapply sublist_In.
    + intros g. destruct (HG g) as (Hp & Hr & T). pose proof (taking_free _ _ _ _ _ _ T) as Hf.
      eapply admissible_mono; [exact Hf|]. apply exactSelect_sound; [|vec].
      eapply Forall_incl; [|exact Hp]. intros d Hd. apply Hinay. by eapply Permutation_in.
  - assert (Permutation (agedQueueOrder input (a :: aged)) (a :: aged)) as HPa
      by apply agedQueueOrder_perm.
    apply (admitAged_spec demands base _ (plan_Operations plan) _ _ []); try done.
    + simpl. eapply NoDup_map_perm; [exact HPa|]. unfold keys in *. rewrite map_app in Hnay.
      by apply NoDup_app_split in Hnay as [? _].
    + apply List.Forall_forall. intros d Hd. apply Hinay, in_or_app. left. by eapply Permutation_in.
    + simpl. by rewrite app_nil_r.
Qed.

(** The Linux pass appends spawns for an admissible selection of its queue. *)
Lemma planLinux_spec plan queue :
  List.NoDup (keys queue) -> noSpawn (plan_Operations plan) ->
  (G -> sane input (instancesOf input) /\ nonneg_demands config queue) ->
  exists sel, plan_Operations (planLinux input plan queue) = plan_Operations plan ++ map spawn sel /\
    Admits G input queue sel.
Proof.
  intros Hn H0 HG. pose proof (linuxCandidates_sublist plan queue) as Hsub.
  unfold planLinux. destruct (linuxCandidates input plan queue) as [|d0 l] eqn:E.
  { exists []. simpl. rewrite app_nil_r. split; [done|apply Admits_nil]. }
  rewrite <- E in *. clear E. set (demands := linuxCandidates input plan queue) in *.
  set (base := activeRepoCounts (instancesOf input)). set (total := paced (linuxFreeAged input)).
  assert (List.NoDup (keys demands)) as Hnd by (by eapply sublist_NoDup_map).
  assert (G -> nonneg_demands config demands /\ in_range total /\
    taking demands base total [] (paced (linuxFree input)) total) as Hstart.
  { intros g. destruct (HG g) as [S Hp]. split; [by eapply sublist_Forall|]. split.
    - pose proof (freeCapacity_le_capacity _ _ true S). destruct (sane_held _ _ S).
      pose proof (paced_le (linuxFreeAged input)). unfold total, linuxFreeAged in *. vec.
    - apply taking_start, paced_mono, freeCapacity_aged_le. }
  match goal with |- exists sel, plan_Operations ?p = _ /\ _ => set (result := p) end.
  enough (exists sel, plan_Operations result = plan_Operations plan ++ map spawn sel /\
      List.NoDup (keys sel) /\ Forall (fun d => In d demands) sel /\
      (G -> admissible config total base sel)) as (sel & Hops & Hns & Hin & Ha).
  { exists sel. split; [exact Hops|]. split; [done| |].
    - eapply List.Forall_impl; [|exact Hin]. intros d Hd. by eapply sublist_In.
    - intros g. eapply admissible_mono; [apply paced_le|by apply Ha]. }
  subst result. destruct (standingReservation input demands) as [[reservation reserved]|] eqn:Er.
  - apply standingReservation_In in Er. case_bool_decide as Hax.
    + exists [reserved]. apply admissionAxis_none in Hax as [Hfit Hcap].
      split; [done|]. split; [repeat constructor; simpl; tauto|]. split; [by constructor|].
      intros g. destruct (Hstart g) as (Hp & Hr & T).
      eapply taking_end. by eapply (taking_step demands base _ [] (paced (linuxFree input))).
    + apply (taking_backfill demands base _ (plan_Operations plan) [] plan _ total);
        try done; [apply List.NoDup_nil|by rewrite app_nil_r].
  - by apply unreserved_spec.
Qed.
End LinuxPass.

(** ** The macOS pass *)

(** Every demand of a list names one profile. *)
Definition uniform (l : list Demand) : Prop :=
  forall a b, In a l -> In b l -> demand_Profile a = demand_Profile b.

Lemma uniform_incl l1 l2 : (forall d, In d l1 -> In d l2) -> uniform l2 -> uniform l1.
Proof. intros Hi Hu a b Ha Hb. apply Hu; auto. Qed.

Section MacPass.
Context `{ContentAddress}.
Context (input : Input).
Abbreviation config := (in_Config input).

Lemma demandEnvelope_le d free agedFree : vle free agedFree -> vle (demandEnvelope input d free agedFree) agedFree.
Proof. intros. unfold demandEnvelope. by destruct (demandAged _ _ _). Qed.

Lemma selectMac_spec demands base total resources available ordered counts free agedFree taken :
  nonneg_demands config demands -> in_range total ->
  List.NoDup (keys (taken ++ ordered)) -> Forall (fun d => In d demands) ordered ->
  Forall (fun d => resOf config d = resources) demands ->
  (forall repo, countOf counts repo = countOf base repo + selectedOf repo taken) ->
  Z.of_nat (length taken) <= Z.max 0 available ->
  taking input demands base total taken free agedFree ->
  let sel := selectMac input resources available ordered counts free agedFree taken in
  List.NoDup (keys sel) /\ Forall (fun d => In d demands) sel /\
  admissible config total base sel /\ Z.of_nat (length sel) <= Z.max 0 available.
Proof.
  intros Hp Hr. revert counts free agedFree taken.
  induction ordered as [|d ordered IH]; intros counts free agedFree taken Hn Ho Hres Hcnt Hlen T; simpl.
  { rewrite app_nil_r in Hn. split; [done|]. split; [apply T|]. split; [by eapply taking_end|done]. }
  assert (List.NoDup (keys taken) /\ Forall (fun d => In d demands) taken /\
    admissible config total base taken /\ Z.of_nat (length taken) <= Z.max 0 available) as Hstop.
  { split; [unfold keys in *; rewrite map_app in Hn; by apply NoDup_app_split in Hn as [? _]|].
    split; [apply T|]. split; [by eapply taking_end|done]. }
  inversion_clear Ho as [|? ? Hd Ho'].
  destruct (Z.leb_spec available (Z.of_nat (length taken))) as [|Hroom]; [done|].
  destruct (CanFit _ _) eqn:Efit; [|done]. simpl.
  apply CanFit_spec in Efit.
  destruct (Z.leb_spec (repoCapLimit (RepoCaps config) (key_Repo (demand_Key d)))
    (countOf counts (key_Repo (demand_Key d)))) as [|Hcap].
  - apply IH; try done. unfold keys in *. rewrite map_app in *. simpl in Hn.
    by apply List.NoDup_remove_1 in Hn.
  - assert (resOf config d = resources) as Ed by (rewrite List.Forall_forall in Hres; auto).
    apply IH; try done.
    + by rewrite <- app_assoc.
    + intros repo. rewrite countOf_incr, Hcnt, selectedOf_app, selectedOf_cons.
      change (selectedOf repo []) with 0. unfold repoOf. repeat case_decide; try done; lia.
    + rewrite length_app. simpl. lia.
    + rewrite <- Ed in Efit |- *. apply taking_step; try done.
      * etransitivity; [exact Efit|]. apply demandEnvelope_le, T.
      * unfold repoOf. rewrite <- Hcnt. done.
Qed.

Lemma selectMac_distinct resources available ordered counts free agedFree taken :
  exists more, selectMac input resources available ordered counts free agedFree taken = taken ++ more /\
    more `sublist_of` ordered.
Proof.
  revert counts free agedFree taken.
  induction ordered as [|d ordered IH]; intros counts free agedFree taken; simpl.
  { exists []. by rewrite app_nil_r. }
  assert (exists more, taken = taken ++ more /\ more `sublist_of` d :: ordered) as Hstop.
  { exists []. rewrite app_nil_r. split; [done|apply sublist_nil_l]. }
  destruct (_ <=? _); [done|]. destruct (negb _); [done|]. destruct (_ <=? _).
  - destruct (IH counts free agedFree taken) as (more & -> & Hs). exists more. split; [done|by constructor].
  - destruct (IH (incr counts (key_Repo (demand_Key d))) (subOrZero free resources)
      (fst (Sub agedFree resources)) (taken ++ [d])) as (more & -> & Hs).
    exists (d :: more). rewrite <- app_assoc. split; [done|by constructor].
Qed.

(** A macOS pass appends spawns for a selection of its queue; over a queue of one
    profile the selection is admissible and keeps the profile within its limit. *)
Lemma appendMacSpawns_spec G plan queue deps :
  List.NoDup (keys queue) -> noSpawn (plan_Operations plan) ->
  (G -> sane input (instancesOf input) /\ nonneg_demands config queue /\ uniform queue) ->
  exists sel,
    plan_Operations (appendMacSpawns input plan queue deps)
      = plan_Operations plan ++ map (fun d => spawnOperation d deps) sel /\
    Admits G input queue sel /\
    (G -> forall d, In d sel ->
       let profile := profileOf config (demand_Profile d) in
       activeOf (profile_ID profile) (instancesOf input) + Z.of_nat (length sel)
       <= macProfileLimit profile).
Proof.
  intros Hn H0 HG. unfold appendMacSpawns.
  pose proof (besideAgedForeignHead_sublist input queue (foreignQueue input plan PlatformLinux)) as Hsub.
  destruct (besideAgedForeignHead _ _ _) as [|first l].
  { exists []. simpl. rewrite app_nil_r. split; [done|]. split; [apply Admits_nil|done]. }
  set (demands := first :: l) in *. set (profile := profileOf config (demand_Profile first)).
  assert (forall d, In d demands -> In d queue) as Hin by (intros d; by apply sublist_In).
  set (available := macProfileLimit profile - _).
  destruct (Z.leb_spec available 0) as [Hle|Hpos].
  { exists []. simpl. rewrite app_nil_r. split; [done|]. split; [apply Admits_nil|done]. }
  apply noSpawn_filter in H0. unfold appendPlannedSpawns. rewrite H0. simpl. rewrite app_nil_r.
  set (base := activeRepoCounts (instancesOf input)).
  assert (Permutation (priorityOrder input demands) demands) as HP by apply priorityOrder_perm.
  assert (List.NoDup (keys (priorityOrder input demands))) as Hno
    by (eapply NoDup_map_perm; [exact HP|by eapply sublist_NoDup_map]).
  set (sel := selectMac _ _ _ _ _ _ _ _).
  destruct (selectMac_distinct (profile_Resources profile) available (priorityOrder input demands) base
    (linuxFree input) (linuxFreeAged input) []) as (more & Em & Hsm). fold sel in Em. simpl in Em.
  subst more.
  assert (forall d, In d sel -> In d demands) as Hsel.
  { intros d Hd. eapply Permutation_in; [exact HP|]. by eapply sublist_In. }
  assert (G -> admissible config (linuxFreeAged input) base sel /\
    Z.of_nat (length sel) <= Z.max 0 available) as Hfit.
  { intros g. destruct (HG g) as (S & Hp & Hu). apply selectMac_spec with (demands := demands).
    - eapply Forall_incl; [exact Hin|done].
    - pose proof (freeCapacity_le_capacity _ _ true S). destruct (sane_held _ _ S).
      unfold linuxFreeAged in *. vec.
    - done.
    - apply List.Forall_forall. intros d. by apply Permutation_in.
    - apply List.Forall_forall. intros d Hd. unfold resOf, profile.
      by rewrite (Hu d first (Hin d Hd) (Hin first (or_introl eq_refl))).
    - intros repo. change (selectedOf repo []) with 0. lia.
    - simpl. lia.
    - apply taking_start, freeCapacity_aged_le. }
  exists sel. rewrite advanceCursor_ops. split; [done|]. split.
  - split; [by eapply sublist_NoDup_map| |intros g; by apply Hfit].
    apply List.Forall_forall. auto.
  - intros g d Hd. destruct (HG g) as (_ & _ & Hu).
    rewrite (Hu d first (Hin d (Hsel d Hd)) (Hin first (or_introl eq_refl))).
    fold profile. destruct (Hfit g) as [_ Hl]. lia.
Qed.
End MacPass.
