(* ===== verification/LaneSpec.v ===== *)
(** * What a lane guarantees

    The operations of every lane are idle drains followed by the spawns of one
    admissible selection, made over the instances that are left (or over more of
    them). *)

From Stdlib Require Import ZArith Lia String Permutation.
From stdpp Require Import base tactics list gmap strings.
From S2P Require Import Prelude GoStrings Liveness Domain Scheduler Envelope Order Recovery Admission.
From S2P Require Import Passes Lanes PassSpec.

(** ** Sublists of instances hold less *)

Lemma heldBy_cons f i l :
  heldBy f (i :: l) = if f i then vadd (inst_Resources i) (heldBy f l) else heldBy f l.
Proof. unfold heldBy. simpl. by destruct (f i). Qed.

Lemma heldBy_sublist f l1 l2 :
  l1 `sublist_of` l2 -> nonneg_instances l2 -> vle (heldBy f l1) (heldBy f l2).
Proof.
  induction 1 as [|i l1 l2 Hs IH|i l1 l2 Hs IH]; intros Hn; [done| |];
    inversion_clear Hn as [|? ? Hi Hn']; specialize (IH Hn'); rewrite ?heldBy_cons;
    destruct (f i); try done; vec.
Qed.

Lemma countRepos_cons i l repo :
  countOf (activeRepoCounts (i :: l)) repo
  = (if chargesRepository i && bool_decide (inst_Repo i = repo) then 1 else 0)
    + countOf (activeRepoCounts l) repo.
Proof.
  unfold activeRepoCounts. simpl. rewrite countRepos_shift.
  destruct (chargesRepository i); simpl.
  - rewrite countOf_incr, countOf_empty. case_decide; case_bool_decide; simplify_eq/=; lia.
  - rewrite countOf_empty. lia.
Qed.

Lemma activeRepoCounts_sublist l1 l2 repo :
  l1 `sublist_of` l2 -> countOf (activeRepoCounts l1) repo <= countOf (activeRepoCounts l2) repo.
Proof.
  induction 1 as [|i l1 l2 Hs IH|i l1 l2 Hs IH]; [done| |]; rewrite ?countRepos_cons;
    destruct (_ && _); lia.
Qed.

Lemma activeOf_sublist p l1 l2 : l1 `sublist_of` l2 -> activeOf p l1 <= activeOf p l2.
Proof.
  unfold activeOf. induction 1 as [|i l1 l2 Hs IH|i l1 l2 Hs IH]; simpl; [done| |];
    destruct (macOfProfile p i); simpl; lia.
Qed.

Lemma activeOf_app p l1 l2 : activeOf p (l1 ++ l2) = activeOf p l1 + activeOf p l2.
Proof. unfold activeOf. rewrite List.filter_app, length_app. lia. Qed.

(** ** The instances a pass plans over *)

(** The same node, whatever its instances. *)
Definition sameNode (input input' : Input) : Prop :=
  in_Config input' = in_Config input /\ in_Host input' = in_Host input.

Lemma sane_sameNode input input' l : sameNode input input' -> sane input l -> sane input' l.
Proof. intros [Ec Eh] [? ? ? ? ?]. split; by rewrite ?Ec, ?Eh. Qed.

Lemma freeCapacity_sameNode input input' l aged :
  sameNode input input' -> freeCapacity input' l aged = freeCapacity input l aged.
Proof. intros [Ec Eh]. unfold freeCapacity, elasticFree, staticFree. by rewrite Ec, Eh. Qed.

Lemma Admits_sameNode G input input' insts queue sel :
  sameNode input input' -> instancesOf input' = insts ->
  Admits G input' queue sel -> Admits G (withInstances input insts) queue sel.
Proof.
  intros Hs <- [H1 H2 H3]. split; [done|done|]. intros g. specialize (H3 g). unfold linuxFreeAged in *.
  rewrite (freeCapacity_sameNode _ _ _ _ Hs), (proj1 Hs) in H3. exact H3.
Qed.

Lemma sameNode_refl input : sameNode input input.
Proof. done. Qed.

Lemma sameNode_withInstances input l : sameNode input (withInstances input l).
Proof. done. Qed.

Lemma sameNode_charge input r : sameNode input (chargeReservedHead input r).
Proof. by destruct r. Qed.

#[export] Hint Resolve sameNode_refl sameNode_withInstances sameNode_charge : fleet.

(** What stays when the instances [ds] are drained. *)
Definition undrained (ds : list Instance_) (i : Instance_) : bool :=
  negb (bool_decide (inst_ID i ∈ map inst_ID ds)).

Definition chargeless (i : Instance_) : Prop := inst_Resources i = zeroResources.

(** [insts] covers what stays after the drains, and holds no more than the
    observed instances. *)
Record basis (input : Input) (ds insts : list Instance_) : Prop := {
  basis_covers : List.filter (undrained ds) (instancesOf input) `sublist_of` insts;
  basis_parts : exists base charge, insts = base ++ charge /\
    base `sublist_of` instancesOf input /\ Forall chargeless charge
}.

Lemma heldBy_chargeless f l : Forall chargeless l -> heldBy f l = zeroResources.
Proof.
  induction 1 as [|i l Hi Hl IH]; [done|]. rewrite heldBy_cons, IH.
  unfold chargeless in Hi. rewrite Hi. by destruct (f i).
Qed.

Lemma sane_sublist input l1 l2 : l1 `sublist_of` l2 -> sane input l2 -> sane input l1.
Proof.
  intros Hs [Hi Hc Hb Hh Ht]. split; try done; [by eapply sublist_Forall|].
  pose proof (heldBy_sublist ConsumesHostResources l1 l2 Hs Hi). unfold held in *. vec.
Qed.

Lemma sane_app_chargeless input l charge :
  Forall chargeless charge -> sane input l -> sane input (l ++ charge).
Proof.
  intros Hz [Hi Hc Hb Hh Ht]. split; try done.
  - apply List.Forall_app. split; [done|]. eapply List.Forall_impl; [|exact Hz].
    intros i Hi'. unfold chargeless in Hi'. rewrite Hi'. vec.
  - unfold held in *. rewrite heldBy_app, (heldBy_chargeless _ charge) by done. by rewrite vadd_zero_r.
Qed.

Lemma basis_sane input ds insts :
  basis input ds insts -> sane input (instancesOf input) -> sane input insts.
Proof.
  intros [_ (base & charge & -> & Hb & Hz)] S.
  apply sane_app_chargeless; [done|]. by eapply sane_sublist.
Qed.

Lemma basis_all input ds : basis input ds (instancesOf input).
Proof.
  split; [apply filter_sublist|]. exists (instancesOf input), []. by rewrite app_nil_r.
Qed.

Lemma basis_undrained input ds : basis input ds (List.filter (undrained ds) (instancesOf input)).
Proof.
  split; [done|]. exists (List.filter (undrained ds) (instancesOf input)), [].
  split; [by rewrite app_nil_r|]. split; [apply filter_sublist|constructor].
Qed.

Lemma basis_charge input ds r :
  basis input ds (instancesOf (chargeReservedHead input r)).
Proof.
  destruct r as [r|]; [|apply basis_all]. simpl. split.
  - etransitivity; [apply filter_sublist|]. apply sublist_inserts_r. done.
  - exists (instancesOf input), [reservedCharge (in_Config input) r].
    split; [done|]. split; [done|]. by repeat constructor.
Qed.

(** ** Drains *)

Section Drains.
Context `{ContentAddress}.

Definition idleInstance (input : Input) (i : Instance_) : Prop :=
  In i (instancesOf input) /\ inst_State i = InstanceOnlineIdle.

Lemma removeInstance_filter l i ds :
  removeInstance (List.filter (undrained ds) l) (inst_ID i) = List.filter (undrained (ds ++ [i])) l.
Proof.
  unfold removeInstance. rewrite filter_comm. apply List.filter_ext. intros x.
  unfold undrained. apply eq_iff_eq_true.
  rewrite andb_true_iff, !negb_true_iff, !bool_decide_eq_false, map_app, elem_of_app. simpl.
  rewrite list_elem_of_singleton. tauto.
Qed.

Lemma drainLoop_spec skip l all ds0 allIdle :
  exists ds, let '(drains, idle, filtered) :=
      drainLoop skip l (map drainOperation ds0) allIdle (List.filter (undrained ds0) all) in
    drains = map drainOperation (ds0 ++ ds) /\
    filtered = List.filter (undrained (ds0 ++ ds)) all /\
    Forall (fun i => In i l /\ inst_State i = InstanceOnlineIdle /\ skip i = false) ds /\
    (idle = true -> allIdle = true /\ forall i, In i l -> skip i = false -> In i ds).
Proof.
  revert ds0 allIdle. induction l as [|i l IH]; intros ds0 allIdle; simpl.
  { exists []. rewrite app_nil_r. by repeat split. }
  destruct (skip i) eqn:Es.
  { destruct (IH ds0 allIdle) as (ds & Hds). exists ds. destruct (drainLoop _ _ _ _ _) as [[drains idle] f].
    destruct Hds as (-> & -> & Hf & Hidle). split; [done|]. split; [done|]. split.
    - eapply List.Forall_impl; [|exact Hf]. intros x (? & ? & ?). split; [by right|done].
    - intros E. destruct (Hidle E) as [? Hall]. split; [done|]. intros x [->|Hx] Hs; [congruence|auto]. }
  unfold state_eqb. case_bool_decide as Eid; simpl.
  - destruct (IH (ds0 ++ [i]) allIdle) as (ds & Hds). exists (i :: ds).
    rewrite removeInstance_filter. rewrite map_app in Hds. simpl in Hds.
    destruct (drainLoop _ _ _ _ _) as [[drains idle] f]. rewrite <- app_assoc in Hds. simpl in Hds.
    destruct Hds as (-> & -> & Hf & Hidle). split; [done|]. split; [done|]. split.
    + constructor; [split; [by left|done]|]. eapply List.Forall_impl; [|exact Hf]. intros x (? & ? & ?). split; [by right|done].
    + intros E. destruct (Hidle E) as [? Hall]. split; [done|]. intros x [->|Hx] Hs; [by left|right; auto].
  - destruct (IH ds0 false) as (ds & Hds). exists ds. destruct (drainLoop _ _ _ _ _) as [[drains idle] f].
    destruct Hds as (-> & -> & Hf & Hidle). split; [done|]. split; [done|]. split.
    + eapply List.Forall_impl; [|exact Hf]. intros x (? & ? & ?). split; [by right|done].
    + intros E. by destruct (Hidle E).
Qed.

(** The loop drains idle instances only; when it meets no busy one it has
    drained everything it did not skip. *)
Lemma drainIdle_spec skip input drains allIdle filtered :
  drainIdle skip input = (drains, allIdle, filtered) ->
  exists ds, drains = map drainOperation ds /\
    filtered = List.filter (undrained ds) (instancesOf input) /\
    Forall (idleInstance input) ds /\ Forall (fun i => skip i = false) ds /\
    (allIdle = true -> forall i, In i (instancesOf input) -> skip i = false -> In i ds).
Proof.
  unfold drainIdle. intros E.
  destruct (drainLoop_spec skip (sortedInstances (instancesOf input)) (instancesOf input) [] true)
    as (ds & Hds). simpl in Hds.
  rewrite (filter_all (undrained []) (instancesOf input)) in Hds by done.
  rewrite E in Hds. destruct Hds as (-> & -> & Hf & Hidle). exists ds. split; [done|]. split; [done|].
  rewrite List.Forall_forall in Hf. split; [|split].
  - apply List.Forall_forall. intros i Hi. destruct (Hf i Hi) as (Hin & Hs & _).
    split; [|done]. by apply sortBy_in in Hin.
  - apply List.Forall_forall. intros i Hi. by destruct (Hf i Hi) as (_ & _ & ?).
  - intros Ha i Hi Hs. apply (proj2 (Hidle Ha)); [|done]. by apply sortBy_in.
Qed.

Lemma drains_noSpawn ds : noSpawn (map drainOperation ds).
Proof. unfold noSpawn, containsSpawn. induction ds; simpl; done. Qed.
End Drains.

(** ** Lanes *)

Section Lane.
Context `{ContentAddress}.
Context (G : Prop) (input : Input).
Abbreviation config := (in_Config input).

(** Within the limit of every macOS profile in the selection. *)
Definition withinLimits (insts : list Instance_) (sel : list Demand) : Prop :=
  forall d, In d sel -> demand_Platform d = PlatformMacOS ->
    let profile := profileOf config (demand_Profile d) in
    activeOf (profile_ID profile) insts + Z.of_nat (length sel) <= macProfileLimit profile /\
    uniform sel.

Definition Lane (ops : list Operation) : Prop :=
  exists ds deps sel sops insts,
    ops = map drainOperation ds ++ sops /\
    Forall (idleInstance input) ds /\
    Forall2 (Spawns deps) sel sops /\
    (forall id, In id deps -> In id (operationIDs (map drainOperation ds))) /\
    basis input ds insts /\
    Admits G (withInstances input insts) (normalizedDemands input) sel /\
    (G -> withinLimits insts sel).

(** A list of queued demands, as the lanes receive them. *)
Record queued (l : list Demand) : Prop := {
  queued_distinct : List.NoDup (keys l);
  queued_normal : forall d, In d l -> In d (normalizedDemands input)
}.

Hypothesis HG : G -> sane input (instancesOf input) /\ nonneg_demands config (normalizedDemands input).

Lemma queued_nonneg l : G -> queued l -> nonneg_demands config l.
Proof. intros g [_ Hq]. eapply Forall_incl; [exact Hq|by apply HG]. Qed.

Lemma queued_sublist l1 l2 : l1 `sublist_of` l2 -> queued l2 -> queued l1.
Proof.
  intros Hs [Hd Hq]. split; [by eapply sublist_NoDup_map|]. intros d Hin. apply Hq. by eapply sublist_In.
Qed.

Lemma queued_perm l1 l2 : Permutation l1 l2 -> queued l2 -> queued l1.
Proof.
  intros HP [Hd Hq]. split; [by eapply NoDup_map_perm|]. intros d Hin. apply Hq. by eapply Permutation_in.
Qed.

Lemma withinLimits_linux insts sel :
  Forall (fun d => demand_Platform d = PlatformLinux) sel -> withinLimits insts sel.
Proof. rewrite List.Forall_forall. intros H0 d Hd E. rewrite H0 in E by done. done. Qed.

Definition linuxQueue (l : list Demand) : Prop := Forall (fun d => demand_Platform d = PlatformLinux) l.

Lemma Lane_nil ds : Forall (idleInstance input) ds -> Lane (map drainOperation ds).
Proof.
  intros Hd. exists ds, [], [], [], (instancesOf input). rewrite app_nil_r.
  split; [done|]. split; [done|]. split; [constructor|]. split; [done|].
  split; [apply basis_all|]. split; [apply Admits_nil|]. by intros _ ? [].
Qed.

(** A Linux pass behind some drains. *)
Lemma Lane_linux input' ds insts plan queue deps :
  sameNode input input' -> instancesOf input' = insts ->
  Forall (idleInstance input) ds -> basis input ds insts -> queued queue -> linuxQueue queue ->
  noSpawn (plan_Operations plan) ->
  (forall id, In id deps -> In id (operationIDs (map drainOperation ds))) ->
  exists sel sops,
    plan_Operations (planLinux input' plan queue) = plan_Operations plan ++ sops /\
    Forall2 (Spawns []) sel sops /\
    Lane (map drainOperation ds ++ sops) /\
    Lane (map drainOperation ds ++ map (fun op => withDependencies op deps) sops).
Proof.
  intros Hsame Hi Hd Hb Hq Hl H0 Hdeps.
  destruct (planLinux_spec G input' plan queue) as (sel & Hops & Ha).
  - apply Hq.
  - done.
  - intros g. rewrite Hi, (proj1 Hsame). split; [|by apply queued_nonneg].
    apply (sane_sameNode input); [done|]. eapply basis_sane; [done|by apply HG].
  - exists sel, (map (fun d => spawnOperation d []) sel). split; [done|]. split; [apply map_spawn_Spawns|].
    assert (Admits G (withInstances input insts) (normalizedDemands input) sel) as Ha'.
    { eapply Admits_queue_mono; [|by apply (Admits_sameNode G input input')]. apply Hq. }
    assert (withinLimits insts sel) as Hw.
    { apply withinLimits_linux. eapply Forall_incl; [|exact Hl].
      pose proof (admits_queue _ _ _ _ Ha) as Hin. by rewrite List.Forall_forall in Hin. }
    split.
    + exists ds, [], sel, (map (fun d => spawnOperation d []) sel), insts.
      split; [done|]. split; [done|]. split; [apply map_spawn_Spawns|]. done.
    + eexists ds, deps, sel, _, insts. split; [done|]. split; [done|].
      split; [eapply withDependencies_Spawns, map_spawn_Spawns|]. done.
Qed.

(** A macOS pass of one profile behind some drains. *)
Lemma Lane_mac input' ds insts plan queue deps :
  sameNode input input' -> instancesOf input' = insts ->
  Forall (idleInstance input) ds -> basis input ds insts -> queued queue -> (G -> uniform queue) ->
  noSpawn (plan_Operations plan) ->
  (forall id, In id deps -> In id (operationIDs (map drainOperation ds))) ->
  exists sops,
    plan_Operations (appendMacSpawns input' plan queue deps)
      = plan_Operations plan ++ sops /\
    Lane (map drainOperation ds ++ sops).
Proof.
  intros Hsame Hi Hd Hb Hq Hu H0 Hdeps.
  destruct (appendMacSpawns_spec input' G plan queue deps) as (sel & Hops & Ha & Hlim).
  - apply Hq.
  - done.
  - intros g. rewrite Hi, (proj1 Hsame). split; [|split; [by apply queued_nonneg|by apply Hu]].
    apply (sane_sameNode input); [done|]. eapply basis_sane; [done|by apply HG].
  - exists (map (fun d => spawnOperation d deps) sel). split; [done|].
    exists ds, deps, sel, (map (fun d => spawnOperation d deps) sel), insts.
    split; [done|]. split; [done|]. split; [apply map_spawn_Spawns|]. split; [done|]. split; [done|].
    split; [eapply Admits_queue_mono; [|by apply (Admits_sameNode G input input')]; apply Hq|].
    intros g d Hin _. split; [rewrite <- Hi, <- (proj1 Hsame); by apply Hlim|].
    eapply uniform_incl; [|exact (Hu g)]. pose proof (admits_queue _ _ _ _ Ha) as Hf.
    by rewrite List.Forall_forall in Hf.
Qed.

Lemma demandsForProfile_uniform demands p : uniform (demandsForProfile demands p).
Proof.
  intros a b Ha Hb. apply List.filter_In in Ha as [_ Ha], Hb as [_ Hb].
  apply bool_decide_eq_true in Ha, Hb. congruence.
Qed.

Lemma demandsForProfile_queued demands p : queued demands -> queued (demandsForProfile demands p).
Proof. apply queued_sublist, filter_sublist. Qed.

Lemma planMacOS_lane plan demands p :
  queued demands -> plan_Operations plan = [] ->
  planMacOS input plan demands = Some p -> Lane (plan_Operations p).
Proof.
  intros Hq H0. unfold planMacOS. destruct (chosenMacProfile input demands) as [profile|]; [|done]. simpl.
  assert (noSpawn (plan_Operations plan)) as Hns by (by rewrite H0).
  destruct (MixedProfileCohorts config && _).
  - intros [= <-].
    destruct (Lane_mac input [] (instancesOf input) plan (demandsForProfile demands profile) [])
      as (sops & -> & HL); auto using basis_all, demandsForProfile_uniform, demandsForProfile_queued.
    + done.
    + by rewrite H0.
  - destruct (drainIdle _ input) as [[drains allIdle] filtered] eqn:Ed.
    apply drainIdle_spec in Ed as (ds & -> & -> & Hds & _ & _).
    destruct allIdle; intros [= <-].
    + destruct (Lane_mac (withInstances input (List.filter (undrained ds) (instancesOf input))) ds
        (List.filter (undrained ds) (instancesOf input)) (appendOperations plan (map drainOperation ds))
        (demandsForProfile demands profile) (operationIDs (map drainOperation ds)))
        as (sops & -> & HL);
        auto using basis_undrained, demandsForProfile_uniform, demandsForProfile_queued.
      * done.
      * simpl. rewrite H0. apply drains_noSpawn.
      * simpl. by rewrite H0.
    + simpl. rewrite H0. by apply Lane_nil.
Qed.

Lemma boundedDrainBackfill_spec demands :
  queued demands -> boundedDrainBackfill input demands = [] \/
  exists d, In d demands /\ boundedDrainBackfill input demands = [spawnOperation d []] /\
    Admits G input demands [d].
Proof.
  intros Hq. unfold boundedDrainBackfill.
  destruct (smallestLinuxResources _) as [ceiling|]; [|by left].
  set (eligible := List.filter _ demands). destruct eligible as [|e l] eqn:Ee; [by left|].
  rewrite <- Ee in *. clear Ee. set (free' := {| CPU := _ |}).
  assert (eligible `sublist_of` demands) as Hsub by apply filter_sublist.
  assert (Permutation (priorityOrder input eligible) eligible) as HP by apply priorityOrder_perm.
  assert (vle free' (linuxFreeAged input)) as Hle.
  { transitivity (linuxFree input); [unfold free'; vec|apply freeCapacity_aged_le]. }
  pose proof (exactSelect_sublist (Now input) (priorityOrder input eligible) free'
    (activeRepoCounts (instancesOf input)) config) as Hs.
  assert (forall x, In x (priorityOrder input eligible) -> In x demands) as Hino.
  { intros x Hx. eapply sublist_In; [exact Hsub|]. by eapply Permutation_in. }
  assert (G -> admissible config free' (activeRepoCounts (instancesOf input))
    (exactSelect (Now input) (priorityOrder input eligible) free'
       (activeRepoCounts (instancesOf input)) config)) as Hfit.
  { intros g. destruct (HG g) as [S _]. apply exactSelect_sound.
    - eapply Forall_incl; [|by apply queued_nonneg]. done.
    - pose proof (freeCapacity_le_capacity _ _ true S). destruct (sane_held _ _ S).
      unfold linuxFreeAged in *. vec. }
  destruct (exactSelect _ _ _ _ _) as [|d sel] eqn:Esel; [by left|]. right. exists d.
  assert (forall x, In x (d :: sel) -> In x demands) as Hin.
  { intros x Hx. apply Hino. by eapply sublist_In. }
  split; [apply Hin; by left|]. split; [done|]. split.
  - repeat constructor. simpl. tauto.
  - constructor; [apply Hin; by left|constructor].
  - intros g. destruct (Hfit g) as [Hv Hc]. specialize (Hv ltac:(done)). simpl in Hv.
    assert (nonneg (vsum (map (resOf config) sel))) as Hn.
    { apply vsum_nonneg, List.Forall_map. apply List.Forall_forall. intros x Hx.
      pose proof (queued_nonneg _ g Hq) as Hnn. unfold nonneg_demands in Hnn.
      rewrite List.Forall_forall in Hnn. apply Hnn, Hin. by right. }
    split.
    + intros _. simpl. rewrite vadd_zero_r. etransitivity; [|exact Hle]. vec.
    + intros repo [<-|[]]. specialize (Hc (repoOf d) (or_introl eq_refl)).
      rewrite selectedOf_cons in *. change (selectedOf (repoOf d) []) with 0.
      pose proof (selectedOf_nonneg (repoOf d) sel). lia.
Qed.

Lemma reserveMacHead_lane plan ds linuxDemands handoff :
  queued linuxDemands -> linuxQueue linuxDemands -> Forall (idleInstance input) ds ->
  plan_Operations plan = map drainOperation ds ->
  Lane (plan_Operations (reserveMacHead input plan linuxDemands handoff)).
Proof.
  intros Hq Hl Hds H0. unfold reserveMacHead. destruct (mac_BackfillAdmitted handoff).
  { simpl. rewrite H0. by apply Lane_nil. }
  assert (Lane (plan_Operations plan ++ boundedDrainBackfill input linuxDemands)) as HL.
  { rewrite H0. destruct (boundedDrainBackfill_spec linuxDemands Hq) as [->|(d & Hd & -> & Ha)].
    - rewrite app_nil_r. by apply Lane_nil.
    - exists ds, [], [d], [spawnOperation d []], (instancesOf input).
      split; [done|]. split; [done|]. split; [apply (map_spawn_Spawns [] [d])|]. split; [done|].
      split; [apply basis_all|]. split.
      + eapply Admits_queue_mono; [|by apply (Admits_sameNode G input input)]. apply Hq.
      + intros _. apply withinLimits_linux. constructor; [|constructor]. unfold linuxQueue in Hl.
        rewrite List.Forall_forall in Hl. auto. }
  by destruct (boundedDrainBackfill input linuxDemands).
Qed.

Lemma splitAtHandoff_spec h before demands b d a :
  splitAtHandoff h before demands = Some (b, d, a) -> before ++ demands = b ++ d :: a.
Proof.
  revert before. induction demands as [|x demands IH]; intros before; simpl; [done|].
  destruct (_ && _).
  - by intros [= <- <- <-].
  - intros E. apply IH in E. by rewrite <- app_assoc in E.
Qed.

Lemma stableMacHandoffOrder_perm prior demands : Permutation (stableMacHandoffOrder prior demands) demands.
Proof.
  unfold stableMacHandoffOrder. destruct prior as [h|]; [|done].
  destruct (splitAtHandoff h [] demands) as [[[b d] a]|] eqn:E; [|done].
  apply splitAtHandoff_spec in E. simpl in E. rewrite E. apply Permutation_middle.
Qed.

Lemma uniform_perm l1 l2 : Permutation l1 l2 -> uniform l2 -> uniform l1.
Proof. intros HP. apply uniform_incl. intros d. by apply Permutation_in. Qed.

Lemma planMacHandoff_lane plan linuxDemands macDemands p :
  queued linuxDemands -> linuxQueue linuxDemands -> queued macDemands -> (G -> uniform macDemands) ->
  plan_Operations plan = [] ->
  planMacHandoff input plan linuxDemands macDemands = Some p -> Lane (plan_Operations p).
Proof.
  intros Hql Hl Hqm Hu H0. unfold planMacHandoff. set (ordered := stableMacHandoffOrder _ macDemands).
  assert (Permutation ordered macDemands) as HP by apply stableMacHandoffOrder_perm.
  destruct (head ordered) as [first|]; [|done]. simpl.
  destruct (drainIdle linuxSkip input) as [[drains allIdle] filtered] eqn:Ed.
  apply drainIdle_spec in Ed as (ds & -> & -> & Hds & _ & _).
  destruct (allIdle && _); intros [= <-].
  - simpl. destruct (Lane_mac (withInstances input (List.filter (undrained ds) (instancesOf input))) ds
      (List.filter (undrained ds) (instancesOf input)) (appendOperations plan (map drainOperation ds))
      ordered (operationIDs (map drainOperation ds))) as (sops & -> & HL); auto using basis_undrained.
    + done.
    + by eapply queued_perm.
    + intros g. eapply uniform_perm; [exact HP|by apply Hu].
    + simpl. rewrite H0. apply drains_noSpawn.
    + simpl. by rewrite H0.
  - apply (reserveMacHead_lane _ ds); [done..|]. simpl. by rewrite H0.
Qed.
Lemma planLinux_lane plan queue :
  queued queue -> linuxQueue queue -> plan_Operations plan = [] ->
  Lane (plan_Operations (planLinux input plan queue)) /\
  (noSpawn (plan_Operations (planLinux input plan queue)) ->
   plan_Operations (planLinux input plan queue) = []).
Proof.
  intros Hq Hl H0.
  destruct (Lane_linux input [] (instancesOf input) plan queue []) as (sel & sops & -> & HS & HL & _);
    auto using basis_all; [done|by rewrite H0|].
  rewrite H0. split; [done|]. simpl. intros Hns. apply noSpawn_filter in Hns.
  by rewrite (Spawns_filter _ _ _ HS) in Hns.
Qed.

Lemma planBehindInfeasibleMacHead_lane plan linuxDemands macDemands p :
  queued linuxDemands -> linuxQueue linuxDemands -> queued macDemands -> plan_Operations plan = [] ->
  planBehindInfeasibleMacHead input plan linuxDemands macDemands = Some p -> Lane (plan_Operations p).
Proof.
  intros Hql Hl Hqm H0. unfold planBehindInfeasibleMacHead.
  destruct (head (priorityOrder input macDemands)) as [h|]; [|done]. simpl.
  destruct (planLinux_lane plan linuxDemands Hql Hl H0) as [HL Hno].
  destruct (containsSpawn _) eqn:Es; [by intros [= <-]|].
  unfold newOperations in Es. rewrite H0 in Es. simpl in Es. rewrite drop_0 in Es.
  specialize (Hno Es).
  destruct (chosenMacProfile input macDemands) as [profile|]; [|done]. simpl.
  destruct (demandsExcludingProfile macDemands profile) as [|d l] eqn:Ee; [by intros [= <-]|].
  apply planMacOS_lane; [|done]. rewrite <- Ee. eapply queued_sublist; [apply filter_sublist|done].
Qed.

Lemma planMacWithCoexistence_lane plan linuxDemands macDemands p :
  queued linuxDemands -> linuxQueue linuxDemands -> queued macDemands -> (G -> uniform macDemands) ->
  plan_Operations plan = [] ->
  planMacWithCoexistence input plan linuxDemands macDemands = Some p -> Lane (plan_Operations p).
Proof.
  intros Hql Hl Hqm Hu H0. unfold planMacWithCoexistence.
  destruct (planMacOS input plan macDemands) as [attempted|] eqn:Ea; [|done]. simpl.
  apply planMacOS_lane in Ea; [|done|done].
  destruct (containsSpawn _); [by intros [= <-]|]. rewrite H0. simpl.
  destruct (Nat.ltb_spec 0 (length (plan_Operations attempted))) as [|Hlen]; [by intros [= <-]|].
  destruct (chosenMacProfile input macDemands) as [profile|]; [|done]. simpl.
  destruct (negb _); [by intros [= <-]|].
  apply planMacHandoff_lane; try done. apply nil_length_inv. lia.
Qed.

Lemma boundedMacWave_lane plan ds macDemands handoff :
  queued macDemands -> Forall (idleInstance input) ds ->
  plan_Operations plan = map drainOperation ds ->
  Lane (plan_Operations (boundedMacWave input plan macDemands handoff)).
Proof.
  intros Hq Hds H0. assert (Lane (plan_Operations plan)) as HL by (rewrite H0; by apply Lane_nil).
  unfold boundedMacWave. destruct (linux_BackfillAdmitted handoff); [done|].
  destruct (activeMacProfile _) as [profile ok]. destruct ok; [|done]. simpl.
  set (candidates := reservedRemainderDemands _ _ _).
  assert (candidates `sublist_of` demandsForProfile macDemands profile) as Hsub.
  { unfold candidates, reservedRemainderDemands. destruct (st_Reservation _); [|done].
    destruct (Sub _ _). apply filter_sublist. }
  set (lending := chargeReservedHead input _).
  destruct (Lane_mac lending ds (instancesOf lending) plan candidates []) as (sops & Hops & HL');
    auto using basis_charge with fleet.
  - unfold lending. apply sameNode_charge.
  - unfold lending. apply basis_charge.
  - eapply queued_sublist; [exact Hsub|]. by apply demandsForProfile_queued.
  - intros _. eapply uniform_incl; [|apply (demandsForProfile_uniform macDemands profile)].
    intros d. by apply sublist_In.
  - rewrite H0. apply drains_noSpawn.
  - intros ? [].
  - rewrite <- H0, <- Hops in HL'. by destruct (containsSpawn _).
Qed.

Lemma planLinuxHandoff_lane plan demands macDemands p :
  queued demands -> linuxQueue demands -> queued macDemands -> plan_Operations plan = [] ->
  planLinuxHandoff input plan demands macDemands = Some p -> Lane (plan_Operations p).
Proof.
  intros Hq Hl Hqm H0. unfold planLinuxHandoff.
  destruct (head (priorityOrder input demands)) as [first|]; [|done]. simpl.
  destruct (drainIdle macSkip input) as [[drains allIdle] filtered] eqn:Ed.
  apply drainIdle_spec in Ed as (ds & -> & -> & Hds & _ & _).
  destruct allIdle; simpl; intros [= <-].
  - simpl. rewrite H0. simpl.
    set (next := newPlan _ _).
    destruct (Lane_linux (withInstances input (List.filter (undrained ds) (instancesOf input))) ds
      (List.filter (undrained ds) (instancesOf input)) next demands (operationIDs (map drainOperation ds)))
      as (sel & sops & -> & _ & _ & HL); auto using basis_undrained; done.
  - apply (boundedMacWave_lane _ ds); [done|done|]. simpl. by rewrite H0.
Qed.

Lemma planLinuxWithCoexistence_lane plan demands macDemands p :
  queued demands -> linuxQueue demands -> queued macDemands -> plan_Operations plan = [] ->
  planLinuxWithCoexistence input plan demands macDemands = Some p -> Lane (plan_Operations p).
Proof.
  intros Hq Hl Hqm H0. unfold planLinuxWithCoexistence.
  destruct (planLinux_lane plan demands Hq Hl H0) as [HL Hno].
  destruct (bool_decide _); simpl; [by intros [= <-]|].
  destruct (containsSpawn _) eqn:Es; [by intros [= <-]|].
  apply planLinuxHandoff_lane; auto.
Qed.

Lemma planExclusiveMacHandoff_lane plan macDemands p :
  queued macDemands -> plan_Operations plan = [] ->
  planExclusiveMacHandoff input plan macDemands = Some p -> Lane (plan_Operations p).
Proof.
  intros Hq H0. unfold planExclusiveMacHandoff.
  destruct (head macDemands) as [h|]; [|done]. simpl.
  match goal with |- context [head ?l] => set (ordered := l) end.
  assert (Permutation ordered macDemands) as HP.
  { unfold ordered. destruct (st_MacHandoff (Prior input)); [|done].
    case_bool_decide; [apply (stableMacHandoffOrder_perm (Some _))|done]. }
  destruct (head ordered) as [first|]; [|done]. simpl.
  destruct (drainIdle _ input) as [[drains allIdle] filtered] eqn:Ed.
  apply drainIdle_spec in Ed as (ds & -> & -> & Hds & _ & _).
  destruct allIdle; simpl; intros [= <-].
  - destruct (Lane_mac (withInstances input (List.filter (undrained ds) (instancesOf input))) ds
      (List.filter (undrained ds) (instancesOf input))
      (setMacHandoff (appendOperations plan (map drainOperation ds)) None)
      (demandsForProfile ordered (demand_Profile h)) (operationIDs (map drainOperation ds)))
      as (sops & -> & HL); auto using basis_undrained, demandsForProfile_uniform.
    + done.
    + apply demandsForProfile_queued. by eapply queued_perm.
    + simpl. rewrite H0. apply drains_noSpawn.
    + simpl. by rewrite H0.
  - simpl. rewrite H0. by apply Lane_nil.
Qed.

Lemma macProfileFirst_perm demands profile :
  Permutation (macProfileFirst input demands profile) demands.
Proof.
  unfold macProfileFirst, demandsForProfile, demandsExcludingProfile.
  rewrite priorityOrder_perm.
  etransitivity; [|apply (filter_negb_perm (fun d => bool_decide (demand_Profile d = profile)))].
  apply Permutation_app_head. apply filter_perm, priorityOrder_perm.
Qed.

Lemma planExclusiveAdmission_lane plan linuxDemands macDemands p :
  queued linuxDemands -> linuxQueue linuxDemands -> queued macDemands -> plan_Operations plan = [] ->
  planExclusiveAdmission input plan linuxDemands macDemands = Some p -> Lane (plan_Operations p).
Proof.
  intros Hql Hl Hqm H0. unfold planExclusiveAdmission.
  destruct (activeMacProfile _) as [active ok].
  destruct (_ && _); [intros [= <-]; rewrite H0; apply (Lane_nil []); constructor|].
  destruct macDemands as [|m macDemands].
  - destruct (hasConsumingPlatform _ _).
    + by apply planLinuxHandoff_lane.
    + intros [= <-]. by apply planLinux_lane.
  - destruct (chosenMacProfile _ _) as [chosen|]; [|done]. simpl mbind. cbn beta.
    apply planExclusiveMacHandoff_lane; [|done].
    eapply queued_perm; [apply macProfileFirst_perm|done].
Qed.
End Lane.
