(* ===== verification/TickSpec.v ===== *)
(** * What a tick guarantees

    From the lanes and the remainder passes to the plan [PlanTick] returns, and
    from there to the node after the plan has been carried out. *)

From Stdlib Require Import ZArith Lia String Permutation.
From stdpp Require Import base tactics list gmap strings.
From S2P Require Import Prelude GoStrings Liveness Domain Scheduler Envelope Order Recovery Admission.
From S2P Require Import Passes Lanes PassSpec LaneSpec Fixture.

(** ** Planned spawns as instances *)

Section Planned.
Context (config : Config).

Definition planned (sops : list Operation) : list Instance_ := map (plannedInstance config) sops.

Lemma planned_held deps sel sops :
  Forall2 (Spawns deps) sel sops -> held (planned sops) = vsum (map (resOf config) sel).
Proof.
  unfold held, planned. induction 1 as [|d op sel sops S _ IH]; [done|].
  cbn [map]. rewrite heldBy_cons. simpl. rewrite IH. unfold resOf.
  by rewrite (spawns_profile _ _ _ S).
Qed.

Lemma planned_counts deps sel sops repo :
  Forall2 (Spawns deps) sel sops ->
  countOf (activeRepoCounts (planned sops)) repo = selectedOf repo sel.
Proof.
  unfold planned. induction 1 as [|d op sel sops S _ IH].
  { unfold activeRepoCounts. simpl. by rewrite countOf_empty. }
  cbn [map]. rewrite countRepos_cons, selectedOf_cons, IH. simpl.
  rewrite (spawns_demand _ _ _ S). unfold repoOf. case_bool_decide; case_decide; done.
Qed.

Lemma planned_nonneg deps sel sops :
  nonneg_demands config sel -> Forall2 (Spawns deps) sel sops -> nonneg_instances (planned sops).
Proof.
  intros Hn HS. unfold planned. induction HS as [|d op sel sops S _ IH]; [constructor|].
  inversion_clear Hn as [|? ? Hd Hn']. constructor; [|by apply IH].
  simpl. rewrite (spawns_profile _ _ _ S). done.
Qed.

Lemma activeOf_cons p i l :
  activeOf p (i :: l) = (if macOfProfile p i then 1 else 0) + activeOf p l.
Proof. unfold activeOf. simpl. destruct (macOfProfile p i); simpl; lia. Qed.

Lemma planned_active p sops : activeOf p (planned sops) <= Z.of_nat (length sops).
Proof.
  unfold planned. induction sops as [|op sops IH]; [done|]. cbn [map length].
  rewrite activeOf_cons. destruct (macOfProfile _ _); lia.
Qed.

Lemma planned_app s1 s2 : planned (s1 ++ s2) = planned s1 ++ planned s2.
Proof. apply map_app. Qed.
End Planned.

(** The node once a plan is carried out: the instances it drains are gone, the
    ones it spawns are there. *)
Definition drainedBy (ops : list Operation) (i : Instance_) : bool :=
  bool_decide (inst_ID i ∈ map op_Instance (List.filter isDrain ops)).

Definition after (input : Input) (ops : list Operation) : list Instance_ :=
  appendPlannedSpawns (List.filter (fun i => negb (drainedBy ops i)) (instancesOf input))
    (in_Config input) ops.

Section Tick.
Context `{ContentAddress}.
Context (G : Prop) (input : Input).
Abbreviation config := (in_Config input).

(** A remainder pass: it runs only beside a first pass without drains, over the
    node that pass leaves. *)
Definition SecondPass (ops1 sops : list Operation) : Prop :=
  exists sel, Forall2 (Spawns []) sel sops /\
    (sel <> [] ->
     containsDrain ops1 = false /\
     (forall d, In d sel -> ~ In (demand_Key d) (map op_Demand (List.filter isSpawn ops1))) /\
     exists charge insts,
       insts = appendPlannedSpawns (instancesOf input) config ops1 ++ charge /\
       Forall chargeless charge /\
       Admits G (withInstances input insts) (normalizedDemands input) sel /\
       (G -> withinLimits input insts sel)).

Definition Tick (ops : list Operation) : Prop :=
  exists ops1 sops, ops = ops1 ++ sops /\ Lane G input ops1 /\ SecondPass ops1 sops.

Lemma Tick_lane ops : Lane G input ops -> Tick ops.
Proof.
  intros HL. exists ops, []. split; [by rewrite app_nil_r|]. split; [done|].
  exists []. split; [constructor|done].
Qed.

(** The magnitudes under which the sums of a tick are exact: two passes each
    admit at most one envelope. *)
Definition roomy : Prop :=
  sane input (instancesOf input) /\
  in_range (vadd (held (instancesOf input)) (vadd (LinuxCapacity config) (LinuxCapacity config))).

Hypothesis HG : G -> roomy /\ nonneg_demands config (normalizedDemands input).

Lemma HG_sane : G -> sane input (instancesOf input) /\ nonneg_demands config (normalizedDemands input).
Proof. intros g. destruct (HG g) as [[? _] ?]. done. Qed.

Lemma drains_isDrain ds : List.filter isDrain (map drainOperation ds) = map drainOperation ds.
Proof. induction ds; simpl; [done|]. by f_equal. Qed.

Lemma containsDrain_filter ops : containsDrain ops = false <-> List.filter isDrain ops = [].
Proof.
  unfold containsDrain. induction ops as [|op ops IH]; simpl; [done|].
  destruct (isDrain op); simpl; [done|apply IH].
Qed.

(** A lane without drains is a single selection over the observed instances. *)
Lemma Lane_without_drains ops :
  Lane G input ops -> containsDrain ops = false ->
  exists deps sel insts, Forall2 (Spawns deps) sel ops /\ basis input [] insts /\
    Admits G (withInstances input insts) (normalizedDemands input) sel /\
    (G -> withinLimits input insts sel).
Proof.
  intros (ds & deps & sel & sops & insts & -> & _ & HS & _ & Hb & Ha & Hw) Hd.
  apply containsDrain_filter in Hd. rewrite List.filter_app, drains_isDrain in Hd.
  apply app_eq_nil in Hd as [Hd _]. destruct ds; [|done]. simpl. eauto 10.
Qed.

Lemma Admits_bound insts sel :
  G -> sane input insts -> Admits G (withInstances input insts) (normalizedDemands input) sel ->
  vle (vsum (map (resOf config) sel)) (LinuxCapacity config).
Proof.
  intros g S Ha. destruct sel as [|d sel]; [apply S|].
  destruct (admits_fits _ _ _ _ Ha g) as [Hv _]. etransitivity; [by apply Hv|].
  exact (freeCapacity_le_capacity input insts true S).
Qed.

Lemma Admits_nonneg insts sel :
  G -> Admits G (withInstances input insts) (normalizedDemands input) sel -> nonneg_demands config sel.
Proof.
  intros g Ha. eapply Forall_incl; [|apply (HG g)].
  pose proof (admits_queue _ _ _ _ Ha) as Hf. by rewrite List.Forall_forall in Hf.
Qed.

(** The instances a remainder pass plans over are still in range. *)
Lemma sane_planned ops :
  G -> Lane G input ops -> containsDrain ops = false ->
  sane input (appendPlannedSpawns (instancesOf input) config ops).
Proof.
  intros g HL Hd. destruct (Lane_without_drains ops HL Hd) as (deps & sel & insts & HS & Hb & Ha & _).
  destruct (HG g) as [[S Ht] _]. pose proof (basis_sane _ _ _ Hb S) as Si.
  unfold appendPlannedSpawns. rewrite (Spawns_filter _ _ _ HS). fold (planned config ops).
  pose proof (Admits_bound _ _ g Si Ha) as Hbound. pose proof (Admits_nonneg _ _ g Ha) as Hnn.
  destruct S as [Hi Hc Hbu Hh _]. split; try done.
  - apply List.Forall_app. split; [done|]. by eapply planned_nonneg.
  - unfold held in *. rewrite heldBy_app. fold (held (planned config ops)).
    rewrite (planned_held _ _ _ _ HS). vec.
Qed.

Lemma demandsAwaitingAdmission_spec demands ops d :
  In d (demandsAwaitingAdmission demands ops) ->
  In d demands /\ ~ In (demand_Key d) (map op_Demand (List.filter isSpawn ops)).
Proof.
  unfold demandsAwaitingAdmission. intros Hd. apply List.filter_In in Hd as [Hd Hk]. split; [done|].
  apply negb_true_iff, bool_decide_eq_false in Hk. intros Hin. by apply Hk, list_elem_of_In.
Qed.

Lemma demandsAwaitingAdmission_sublist demands ops : demandsAwaitingAdmission demands ops `sublist_of` demands.
Proof. apply filter_sublist. Qed.

Lemma mixedRemainderInput_spec plan augmented :
  mixedRemainderInput input plan = Some augmented ->
  containsDrain (plan_Operations plan) = false /\
  augmented = withInstances input
    (appendPlannedSpawns (instancesOf input) config (plan_Operations plan)).
Proof.
  unfold mixedRemainderInput. destruct (negb _ || _ || _) eqn:E; [done|]. intros [= <-].
  by apply orb_false_iff in E as [_ E].
Qed.

Lemma fillLinuxRemainder_tick plan linux macos :
  queued input linux -> linuxQueue linux -> Lane G input (plan_Operations plan) ->
  Tick (plan_Operations (fillLinuxRemainder input plan linux macos)).
Proof.
  intros Hq Hl HL. unfold fillLinuxRemainder.
  destruct (demandsAwaitingAdmission linux _) as [|d l] eqn:Ew; [by apply Tick_lane|].
  destruct (mixedRemainderInput input plan) as [augmented|] eqn:Em; [|by apply Tick_lane].
  apply mixedRemainderInput_spec in Em as [Hd ->]. rewrite <- Ew.
  pose proof (fun g => sane_planned _ g HL Hd) as Ss.
  set (insts := appendPlannedSpawns (instancesOf input) config (plan_Operations plan)) in *.
  set (waiting := demandsAwaitingAdmission linux (plan_Operations plan)) in *.
  assert (queued input waiting) as Hqw
    by (eapply queued_sublist; [apply demandsAwaitingAdmission_sublist|done]).
  destruct (planLinux_spec G (withInstances input insts) (newPlan PlanReady (plan_Next plan)) waiting)
    as (sel & Hops & Ha).
  - apply Hqw.
  - done.
  - intros g. split; [by apply (sane_sameNode input); [|apply Ss]|].
    exact (queued_nonneg G input HG_sane waiting g Hqw).
  - simpl. rewrite Hops. simpl. eexists _, _. split; [done|]. split; [done|].
    exists sel. split; [apply map_spawn_Spawns|]. intros _. split; [done|].
    pose proof (admits_queue _ _ _ _ Ha) as Hin. rewrite List.Forall_forall in Hin. split.
    + intros x Hx. by apply (demandsAwaitingAdmission_spec linux), Hin.
    + exists [], insts. rewrite app_nil_r. split; [done|]. split; [constructor|]. split.
      * eapply Admits_queue_mono; [|exact Ha]. apply Hqw.
      * intros _. apply withinLimits_linux. eapply Forall_incl; [|exact Hl]. intros x Hx.
        by apply (demandsAwaitingAdmission_spec linux (plan_Operations plan)), Hin.
Qed.

Lemma fillMacRemainder_tick plan macos linux :
  queued input macos -> Lane G input (plan_Operations plan) ->
  Tick (plan_Operations (fillMacRemainder input plan macos linux)).
Proof.
  intros Hq HL. unfold fillMacRemainder.
  set (waiting := reservedRemainderDemands _ _ _).
  assert (waiting `sublist_of` demandsAwaitingAdmission macos (plan_Operations plan)) as Hsub.
  { unfold waiting, reservedRemainderDemands. destruct (st_Reservation _); [|done].
    destruct (Sub _ _). apply filter_sublist. }
  destruct waiting as [|d l] eqn:Ew; [by apply Tick_lane|]. rewrite <- Ew in *. clear Ew.
  destruct (mixedRemainderInput input plan) as [augmented0|] eqn:Em; [|by apply Tick_lane].
  apply mixedRemainderInput_spec in Em as [Hd ->].
  pose proof (fun g => sane_planned _ g HL Hd) as Ss.
  set (insts0 := appendPlannedSpawns (instancesOf input) config (plan_Operations plan)) in *.
  set (augmented := chargeReservedHead _ _).
  destruct (remainderMacProfile augmented waiting) as [target|]; [|by apply Tick_lane].
  set (chosen := demandsForProfile waiting target).
  assert (chosen `sublist_of` demandsAwaitingAdmission macos (plan_Operations plan)) as Hsub'
    by (etransitivity; [apply filter_sublist|done]).
  destruct chosen as [|c l'] eqn:Ec; [by apply Tick_lane|]. rewrite <- Ec in *.
  assert (uniform chosen) as Hu by apply demandsForProfile_uniform. clear Ec.
  assert (exists charge, instancesOf augmented = insts0 ++ charge /\ Forall chargeless charge)
    as (charge & Ei & Hz).
  { unfold augmented. destruct (st_Reservation (plan_Next plan)) as [r|].
    - exists [reservedCharge config r]. split; [done|]. by repeat constructor.
    - exists []. split; [by rewrite app_nil_r|constructor]. }
  assert (sameNode input augmented) as Hsame
    by (unfold augmented; by destruct (st_Reservation (plan_Next plan))).
  assert (queued input chosen) as Hqc.
  { eapply queued_sublist; [exact Hsub'|]. eapply queued_sublist; [apply demandsAwaitingAdmission_sublist|done]. }
  destruct (appendMacSpawns_spec augmented G (newPlan PlanReady (plan_Next plan)) chosen [])
    as (sel & Hops & Ha & Hlim).
  - apply Hqc.
  - done.
  - intros g. split; [|split; [|done]].
    + apply (sane_sameNode input); [done|]. rewrite Ei. apply sane_app_chargeless; [done|by apply Ss].
    + rewrite (proj1 Hsame). exact (queued_nonneg G input HG_sane chosen g Hqc).
  - simpl. rewrite Hops. simpl. eexists _, _. split; [done|]. split; [done|].
    exists sel. split; [apply map_spawn_Spawns|]. intros _. split; [done|].
    pose proof (admits_queue _ _ _ _ Ha) as Hin. rewrite List.Forall_forall in Hin. split.
    + intros x Hx. apply (demandsAwaitingAdmission_spec macos). eapply sublist_In; [exact Hsub'|]. by apply Hin.
    + exists charge, (insts0 ++ charge). split; [done|]. split; [done|]. split.
      * eapply Admits_queue_mono; [apply Hqc|]. by apply (Admits_sameNode G input augmented).
      * intros g x Hx _. split; [rewrite <- Ei, <- (proj1 Hsame); by apply Hlim|].
        eapply uniform_incl; [|exact Hu]. done.
Qed.
Lemma judgeCarriedReservation_ops plan :
  plan_Operations (judgeCarriedReservation input plan) = plan_Operations plan.
Proof.
  unfold judgeCarriedReservation. destruct (st_Reservation _); [|done]. by destruct (negb _).
Qed.

Lemma Tick_nil : Tick [].
Proof. apply Tick_lane, (Lane_nil G input []). constructor. Qed.

(** The two queues of a tick. *)
Definition linuxOf : list Demand := fst (partition (priorityOrder input (normalizedDemands input))).
Definition macosOf : list Demand := snd (partition (priorityOrder input (normalizedDemands input))).

Lemma normalized_queued : queued input (priorityOrder input (normalizedDemands input)).
Proof.
  eapply queued_perm; [apply priorityOrder_perm|]. split; [apply normalizedDemands_NoDup|done].
Qed.

Lemma linuxOf_queued : queued input linuxOf /\ linuxQueue linuxOf.
Proof.
  split; [eapply queued_sublist; [apply filter_sublist|apply normalized_queued]|].
  apply List.Forall_forall. intros d Hd. apply List.filter_In in Hd as [_ Hd].
  by apply bool_decide_eq_true in Hd.
Qed.

Lemma macosOf_queued : queued input macosOf.
Proof. eapply queued_sublist; [apply filter_sublist|apply normalized_queued]. Qed.

Section Uniform.
Hypothesis Hmac : G -> MacOSExclusive config = false -> uniform macosOf.

Lemma planMacLane_tick plan mode p :
  MacOSExclusive config = false -> plan_Operations plan = [] ->
  planMacLane input plan mode linuxOf macosOf = Some p -> Tick (plan_Operations p).
Proof.
  intros He H0. destruct linuxOf_queued as [Hql Hl]. pose proof macosOf_queued as Hqm.
  assert (G -> uniform macosOf) as Hu by auto.
  assert (forall plan, plan_Operations plan = [] -> match
    (planned ← planMacWithCoexistence input plan linuxOf macosOf;
     Some (fillLinuxRemainder input planned linuxOf macosOf)) with
    | Some p => Tick (plan_Operations p) | None => True end) as Hco.
  { intros q Hq0. destruct (planMacWithCoexistence _ _ _ _) as [r|] eqn:E; [|done]. simpl.
    apply fillLinuxRemainder_tick; [done|done|].
    exact (planMacWithCoexistence_lane G input HG_sane _ _ _ _ Hql Hl Hqm Hu Hq0 E). }
  assert (forall m, planMacLane input plan m linuxOf macosOf = Some p -> m = HostIdle \/ m = HostMacOS ->
    Tick (plan_Operations p)) as Hother.
  { intros m E Hm. unfold planMacLane in E.
    destruct (planMacOS input (setMacHandoff (setLinuxHandoff plan None) None) macosOf)
      as [attempted|] eqn:Ea; [|by destruct Hm as [-> | ->]].
    apply (planMacOS_lane G) in Ea; [|apply HG_sane|done|done].
    assert (forall b, (if containsSpawn (plan_Operations attempted)
       then Some (fillLinuxRemainder input attempted linuxOf macosOf)
       else if b || bool_decide (linuxOf = []) || MixedPlatformAdmission config
       then planBehindInfeasibleMacHead input (setMacHandoff (setLinuxHandoff plan None) None) linuxOf macosOf
       else planMacHandoff input (setMacHandoff (setLinuxHandoff plan None) None) linuxOf macosOf)
       = Some p -> Tick (plan_Operations p)) as Hb.
    { intros b. destruct (containsSpawn _).
      - intros [= <-]. by apply fillLinuxRemainder_tick.
      - destruct (b || bool_decide (linuxOf = []) || MixedPlatformAdmission config); intros E'; apply Tick_lane.
        + eapply (planBehindInfeasibleMacHead_lane G input HG_sane _ _ _ _ Hql Hl Hqm); [|exact E']; exact H0.
        + eapply (planMacHandoff_lane G input HG_sane _ _ _ _ Hql Hl Hqm Hu); [|exact E']; exact H0. }
    destruct Hm as [-> | ->]; by eapply Hb. }
  intros E. destruct mode; try (by apply (Hother _ E); auto);
    unfold planMacLane in E; specialize (Hco (setLinuxHandoff plan None) H0);
    rewrite E in Hco; done.
Qed.

Lemma planLinuxLane_tick plan mode p :
  plan_Operations plan = [] ->
  planLinuxLane input plan mode linuxOf macosOf = Some p -> Tick (plan_Operations p).
Proof.
  intros H0. destruct linuxOf_queued as [Hql Hl]. pose proof macosOf_queued as Hqm.
  unfold planLinuxLane. set (plan1 := setMacHandoff plan _).
  match goal with |- context [mbind _ ?x] => destruct x as [r|] eqn:E; [|done] end.
  simpl. intros [= <-]. apply fillMacRemainder_tick; [done|].
  destruct mode.
  - injection E as <-. exact (proj1 (planLinux_lane G input HG_sane (setLinuxHandoff plan1 None) _ Hql Hl H0)).
  - injection E as <-. exact (proj1 (planLinux_lane G input HG_sane (setLinuxHandoff plan1 None) _ Hql Hl H0)).
  - eapply (planLinuxWithCoexistence_lane G input HG_sane _ _ _ _ Hql Hl Hqm); [|exact E]; exact H0.
  - eapply (planLinuxWithCoexistence_lane G input HG_sane _ _ _ _ Hql Hl Hqm); [|exact E]; exact H0.
Qed.

Lemma planDemands_tick plan mode p :
  plan_Operations plan = [] ->
  planDemands input plan mode (normalizedDemands input) = Some p -> Tick (plan_Operations p).
Proof.
  intros H0. unfold planDemands.
  destruct (partition (priorityOrder input (normalizedDemands input))) as [linux macos] eqn:Ep.
  assert (linux = linuxOf) as -> by (unfold linuxOf; by rewrite Ep).
  assert (macos = macosOf) as -> by (unfold macosOf; by rewrite Ep).
  destruct linuxOf_queued as [Hql Hl]. pose proof macosOf_queued as Hqm.
  pose proof planMacLane_tick as Hmaclane.
  destruct (MacOSExclusive config) eqn:He.
  - destruct (planExclusiveAdmission _ _ _ _) as [r|] eqn:E; [|done]. simpl. intros [= <-].
    rewrite judgeCarriedReservation_ops. apply Tick_lane.
    eapply (planExclusiveAdmission_lane G input HG_sane _ _ _ _ Hql Hl Hqm); [|exact E]; exact H0.
  - destruct (head _) as [first|]; [|done]. simpl.
    destruct (demand_Platform first).
    + destruct (planLinuxLane _ _ _ _ _) as [r|] eqn:E; [|done]. simpl. intros [= <-].
      rewrite judgeCarriedReservation_ops. by eapply planLinuxLane_tick.
    + destruct (planMacLane _ _ _ _ _) as [r|] eqn:E; [|done]. simpl. intros [= <-].
      rewrite judgeCarriedReservation_ops. by eapply Hmaclane.
    + simpl. intros [= <-]. rewrite judgeCarriedReservation_ops, H0. apply Tick_nil.
Qed.

(** Every plan of a tick recovers instances and does nothing else, or is a lane
    with its remainder pass. *)
Lemma PlanTick_cases p :
  PlanTick input = Some p ->
  plan_Operations p = assignmentRecoveries (Now input) config (instancesOf input) /\
    plan_Operations p <> [] \/
  Tick (plan_Operations p).
Proof.
  pose proof planDemands_tick as Hdemands.
  unfold PlanTick. destruct (planTick input) as [q|] eqn:E; [|done]. simpl. intros [= <-].
  enough (plan_Operations q = assignmentRecoveries (Now input) config (instancesOf input) /\
    plan_Operations q <> [] \/ Tick (plan_Operations q)) as Hq by (by destruct (usable input)).
  unfold planTick in E. destruct (negb (usable input)).
  { injection E as <-. right. apply Tick_nil. }
  destruct (DeriveHostMode _) as [mode|]; [|injection E as <-; right; apply Tick_nil].
  destruct (assignmentRecoveries _ _ _) as [|r rs] eqn:Er.
  - right. destruct (normalizedDemands input) as [|d ds] eqn:En.
    + injection E as <-. apply Tick_nil.
    + rewrite <- En in E. destruct (planDemands _ _ _ _) as [r|] eqn:Ed; [|done]. simpl in E.
      injection E as <-. simpl. rewrite En in Ed. eapply Hdemands; [|exact Ed]; done.
  - left. injection E as <-. simpl. rewrite judgeCarriedReservation_ops. done.
Qed.
End Uniform.
End Tick.
