(* ===== verification/Safety.v ===== *)
(** * Safety of a tick

    The theorems on [PlanTick]: what a plan can do to the node, which demands it
    spawns, and what it drains. *)

From Stdlib Require Import ZArith Lia String Permutation.
From stdpp Require Import base tactics list gmap strings.
From S2P Require Import Prelude GoStrings Liveness Domain Scheduler Envelope Order Recovery Admission.
From S2P Require Import Passes Lanes PassSpec LaneSpec TickSpec Fixture.

(** A node on which the capacity of a tick is proved.  The last clause excludes
    one lane: see [handoff_can_overcommit] below. *)
Record wellFormed (input : Input) : Prop := {
  wf_roomy : roomy input;
  wf_profiles : forall id p, Profiles (in_Config input) !! id = Some p ->
    profile_ID p = id /\ positive (profile_Resources p);
  wf_mac : MacOSExclusive (in_Config input) = true \/
    uniform (List.filter (onPlatform PlatformMacOS) (normalizedDemands input))
}.

Lemma wellFormed_positive input :
  wellFormed input -> positive_demands (in_Config input) (normalizedDemands input).
Proof.
  intros W. apply List.Forall_forall. intros d Hd. apply normalizedDemands_In in Hd as [_ Hd].
  apply plannable_profile in Hd as (p & Hp & Ep & _). unfold resOf. rewrite Ep.
  by apply (wf_profiles _ W) in Hp as [_ ?].
Qed.

Lemma wellFormed_node input :
  wellFormed input -> roomy input /\ nonneg_demands (in_Config input) (normalizedDemands input).
Proof. intros W. split; [apply W|]. by apply positive_nonneg, wellFormed_positive. Qed.

Lemma wellFormed_uniform input :
  wellFormed input -> MacOSExclusive (in_Config input) = false -> uniform (macosOf input).
Proof.
  intros W He. destruct (wf_mac _ W) as [E|Hu]; [congruence|].
  eapply uniform_incl; [|exact Hu]. intros d Hd. unfold macosOf in Hd. simpl in Hd.
  apply List.filter_In in Hd as [Hd Hp]. apply List.filter_In. split; [|done].
  by apply (Permutation_in _ (priorityOrder_perm input (normalizedDemands input))).
Qed.

Lemma vsum_positive config sel :
  sel <> [] -> positive_demands config sel -> positive (vsum (map (resOf config) sel)).
Proof.
  intros Hne Hp. induction Hp as [|d sel Hd Hp IH]; [done|]. simpl.
  destruct sel as [|d' sel]; [simpl; rewrite vadd_zero_r; done|].
  specialize (IH ltac:(done)). unfold positive, vadd in *. simpl in *. lia.
Qed.

Lemma within_mono bound v v' : vle v v' -> within bound v' -> within bound v.
Proof.
  intros (Hc & Hm & Hs) (Wc & Wm & Ws). repeat split; intros Hb.
  - specialize (Wc Hb). lia.
  - specialize (Wm Hb). lia.
  - specialize (Ws Hb). lia.
Qed.

(** A selection made over instances that cover [rem] leaves [rem] and its spawns
    within bounds. *)
Lemma admitted_within input rem insts deps sel sops :
  sane input insts -> rem `sublist_of` insts -> sel <> [] ->
  positive_demands (in_Config input) sel ->
  admissible (in_Config input) (freeCapacity input insts true) (activeRepoCounts insts) sel ->
  Forall2 (Spawns deps) sel sops ->
  notOvercommitted input (rem ++ planned (in_Config input) sops).
Proof.
  intros S Hsub Hne Hp [Hv _] HS. set (v := vsum (map (resOf (in_Config input)) sel)) in *.
  assert (positive v) as Hpv by (by apply vsum_positive).
  destruct (freeCapacity_sound input insts true v S Hpv (Hv Hne)) as [Hb Hrest].
  pose proof (heldBy_sublist ConsumesHostResources rem insts Hsub (sane_instances _ _ S)) as Hh.
  pose proof (heldBy_sublist linuxCharge rem insts Hsub (sane_instances _ _ S)) as Hl.
  pose proof (planned_held (in_Config input) deps sel sops HS) as Eh. fold v in Eh.
  assert (nonneg_instances (planned (in_Config input) sops)) as Hnp
    by (eapply planned_nonneg; [by apply positive_nonneg|exact HS]).
  pose proof (heldBy_linux_le _ Hnp) as Hpl. rewrite Eh in Hpl.
  unfold notOvercommitted, held in *. rewrite !heldBy_app, Eh. split.
  - eapply within_mono; [|exact Hb]. vec.
  - destruct (ElasticHostEnvelope (in_Config input)).
    + destruct Hrest as [H1 H2]. split; [vec|]. eapply within_mono; [|exact H2]. vec.
    + vec.
Qed.

(** ** The normal form of a plan that is not a recovery *)

Section Normal.
Context `{ContentAddress}.

Record NormalForm (G : Prop) (input : Input) (ops : list Operation) (ds : list Instance_)
    (sel1 sel2 : list Demand) (sops1 sops2 : list Operation) (insts1 insts2 : list Instance_)
    (deps : list string) : Prop := {
  nf_ops : ops = map drainOperation ds ++ sops1 ++ sops2;
  nf_idle : Forall (idleInstance input) ds;
  nf_spawns1 : Forall2 (Spawns deps) sel1 sops1;
  nf_spawns2 : Forall2 (Spawns []) sel2 sops2;
  nf_deps : forall id, In id deps -> In id (operationIDs (map drainOperation ds));
  nf_basis : basis input ds insts1;
  nf_admits1 : Admits G (withInstances input insts1) (normalizedDemands input) sel1;
  nf_limits1 : G -> withinLimits input insts1 sel1;
  nf_second : sel2 <> [] ->
    ds = [] /\ (forall d, In d sel2 -> ~ In (demand_Key d) (keys sel1)) /\
    instancesOf input ++ planned (in_Config input) sops1 `sublist_of` insts2 /\
    (G -> sane input insts2) /\
    Admits G (withInstances input insts2) (normalizedDemands input) sel2 /\
    (G -> withinLimits input insts2 sel2)
}.

Lemma Tick_normal G input ops :
  (G -> roomy input /\ nonneg_demands (in_Config input) (normalizedDemands input)) ->
  Tick G input ops ->
  exists ds sel1 sel2 sops1 sops2 insts1 insts2 deps,
    NormalForm G input ops ds sel1 sel2 sops1 sops2 insts1 insts2 deps.
Proof.
  intros HG (ops1 & sops2 & -> & HL & sel2 & HS2 & H2). pose proof HL as HL'.
  destruct HL as (ds & deps & sel1 & sops1 & insts1 & -> & Hds & HS1 & Hdeps & Hb & Ha & Hw).
  destruct (decide (sel2 = [])) as [->|Hne].
  { inversion_clear HS2. exists ds, sel1, [], sops1, [], insts1, [], deps.
    split; try done; by rewrite !app_nil_r. }
  destruct (H2 Hne) as (Hd & Hk & charge & insts2 & Ei & Hz & Ha2 & Hw2).
  exists ds, sel1, sel2, sops1, sops2, insts1, insts2, deps. split; try done; [by rewrite <- app_assoc|].
  intros _. assert (ds = []) as ->.
  { apply containsDrain_filter in Hd. rewrite List.filter_app, drains_isDrain in Hd.
    apply app_eq_nil in Hd as [Hd _]. by destruct ds. }
  simpl in *. rewrite (Spawns_filter _ _ _ HS1), (Spawns_keys _ _ _ HS1) in Hk.
  split; [done|]. split; [done|].
  assert (appendPlannedSpawns (instancesOf input) (in_Config input) sops1
    = instancesOf input ++ planned (in_Config input) sops1) as Ep
    by (unfold appendPlannedSpawns; by rewrite (Spawns_filter _ _ _ HS1)).
  split; [rewrite Ei, Ep; by apply sublist_inserts_r|]. split; [|done].
  intros g. rewrite Ei. apply sane_app_chargeless; [done|]. by apply (sane_planned G).
Qed.

Lemma NormalForm_filters G input ops ds sel1 sel2 sops1 sops2 insts1 insts2 deps :
  NormalForm G input ops ds sel1 sel2 sops1 sops2 insts1 insts2 deps ->
  List.filter isSpawn ops = sops1 ++ sops2 /\ List.filter isDrain ops = map drainOperation ds /\
  after input ops = List.filter (undrained ds) (instancesOf input)
                    ++ planned (in_Config input) sops1 ++ planned (in_Config input) sops2.
Proof.
  intros N. assert (List.filter isSpawn ops = sops1 ++ sops2) as E1.
  { rewrite (nf_ops _ _ _ _ _ _ _ _ _ _ _ N), !List.filter_app.
    rewrite (Spawns_filter _ _ _ (nf_spawns1 _ _ _ _ _ _ _ _ _ _ _ N)).
    rewrite (Spawns_filter _ _ _ (nf_spawns2 _ _ _ _ _ _ _ _ _ _ _ N)).
    rewrite (proj1 (noSpawn_filter _) (drains_noSpawn ds)). done. }
  assert (List.filter isDrain ops = map drainOperation ds) as E2.
  { rewrite (nf_ops _ _ _ _ _ _ _ _ _ _ _ N), !List.filter_app.
    rewrite (Spawns_noDrain _ _ _ (nf_spawns1 _ _ _ _ _ _ _ _ _ _ _ N)).
    rewrite (Spawns_noDrain _ _ _ (nf_spawns2 _ _ _ _ _ _ _ _ _ _ _ N)).
    rewrite drains_isDrain, !app_nil_r. done. }
  split; [done|]. split; [done|].
  unfold after, appendPlannedSpawns. rewrite E1, map_app. f_equal.
  apply List.filter_ext. intros i. unfold drainedBy, undrained. rewrite E2, map_map. done.
Qed.
End Normal.

Section Claims.
Context `{ContentAddress}.

Lemma PlanTick_normal input p :
  PlanTick input = Some p ->
  (plan_Operations p = assignmentRecoveries (Now input) (in_Config input) (instancesOf input) /\
   plan_Operations p <> []) \/
  exists ds sel1 sel2 sops1 sops2 insts1 insts2 deps,
    NormalForm (wellFormed input) input (plan_Operations p) ds sel1 sel2 sops1 sops2 insts1 insts2 deps.
Proof.
  intros E. destruct (PlanTick_cases (wellFormed input) input (wellFormed_node input)
    (wellFormed_uniform input) p E) as [Hr|Ht]; [by left|].
  right. apply Tick_normal; [apply wellFormed_node|done].
Qed.

Lemma recoveries_noSpawn now config instances :
  List.filter isSpawn (assignmentRecoveries now config instances) = [].
Proof.
  pose proof (assignmentRecoveries_drains now config instances) as Hd.
  induction Hd as [|op ops (Hk & _) _ IH]; simpl; [done|].
  unfold isSpawn at 1. by rewrite Hk, bool_decide_eq_false_2.
Qed.

Lemma NormalForm_positive input ops ds sel1 sel2 sops1 sops2 insts1 insts2 deps :
  wellFormed input ->
  NormalForm (wellFormed input) input ops ds sel1 sel2 sops1 sops2 insts1 insts2 deps ->
  positive_demands (in_Config input) sel1 /\ positive_demands (in_Config input) sel2.
Proof.
  intros W N. pose proof (wellFormed_positive input W) as Hp.
  split; (eapply Forall_incl; [|exact Hp]).
  - pose proof (admits_queue _ _ _ _ (nf_admits1 _ _ _ _ _ _ _ _ _ _ _ N)) as Hf.
    by rewrite List.Forall_forall in Hf.
  - destruct (decide (sel2 = [])) as [->|Hne]; [by intros ? []|].
    destruct (nf_second _ _ _ _ _ _ _ _ _ _ _ N Hne) as (_ & _ & _ & _ & Ha & _).
    pose proof (admits_queue _ _ _ _ Ha) as Hf. by rewrite List.Forall_forall in Hf.
Qed.

Lemma PlanTick_within input p :
  wellFormed input -> PlanTick input = Some p -> containsSpawn (plan_Operations p) = true ->
  notOvercommitted input (after input (plan_Operations p)).
Proof.
  intros W E Hs. destruct (PlanTick_normal input p E) as [[Er _]|N].
  { exfalso. rewrite Er in Hs.
    assert (noSpawn (assignmentRecoveries (Now input) (in_Config input) (instancesOf input))) as Hn
      by (apply noSpawn_filter, recoveries_noSpawn).
    unfold noSpawn in Hn. congruence. }
  destruct N as (ds & sel1 & sel2 & sops1 & sops2 & insts1 & insts2 & deps & N).
  destruct (NormalForm_filters _ _ _ _ _ _ _ _ _ _ _ N) as (Es & _ & ->).
  destruct (NormalForm_positive _ _ _ _ _ _ _ _ _ _ W N) as [Hp1 Hp2].
  destruct (decide (sel2 = [])) as [->|Hne].
  - pose proof (nf_spawns2 _ _ _ _ _ _ _ _ _ _ _ N) as H2. inversion H2; subst. simpl. rewrite app_nil_r.
    eapply (admitted_within input _ insts1); [| | |exact Hp1|apply (admits_fits _ _ _ _ (nf_admits1 _ _ _ _ _ _ _ _ _ _ _ N) W)|apply N].
    + eapply basis_sane; [apply N|apply W].
    + apply N.
    + intros ->. pose proof (nf_spawns1 _ _ _ _ _ _ _ _ _ _ _ N) as H1. inversion H1; subst.
      rewrite (proj2 (noSpawn_filter _) Es) in Hs. done.
  - destruct (nf_second _ _ _ _ _ _ _ _ _ _ _ N Hne) as (-> & _ & Hsub & Hsane & Ha & _).
    rewrite (filter_all (undrained []) (instancesOf input)) by done. rewrite app_assoc.
    eapply (admitted_within input _ insts2); [by apply Hsane|exact Hsub|done|done|apply (admits_fits _ _ _ _ Ha W)|apply N].
Qed.


Lemma Forall2_In_r {A B} (R : A -> B -> Prop) l1 l2 y :
  Forall2 R l1 l2 -> In y l2 -> exists x, In x l1 /\ R x y.
Proof.
  induction 1 as [|a b l1 l2 Hr _ IH]; simpl; [done|]. intros [->|Hy].
  - exists a. auto.
  - destruct (IH Hy) as (x & Hx & Hxy). exists x. auto.
Qed.


Lemma PlanTick_spawns input p :
  PlanTick input = Some p ->
  List.NoDup (map op_Demand (List.filter isSpawn (plan_Operations p))) /\
  forall op, In op (plan_Operations p) -> op_Kind op = OperationSpawn ->
    exists d, In d (normalizedDemands input) /\ op_Demand op = demand_Key d /\
      op_Profile op = demand_Profile d /\ op_Route op = demand_Route d.
Proof.
  intros E.
  enough (List.NoDup (map op_Demand (List.filter isSpawn (plan_Operations p))) /\
    forall op, In op (List.filter isSpawn (plan_Operations p)) ->
      exists d, In d (normalizedDemands input) /\ op_Demand op = demand_Key d /\
        op_Profile op = demand_Profile d /\ op_Route op = demand_Route d) as [Hn Hf].
  { split; [done|]. intros op Hin Hk. apply Hf, List.filter_In. split; [done|].
    unfold isSpawn. by apply bool_decide_eq_true. }
  destruct (PlanTick_normal input p E) as [[Er _]|N].
  { rewrite Er, recoveries_noSpawn. split; [constructor|done]. }
  destruct N as (ds & sel1 & sel2 & sops1 & sops2 & insts1 & insts2 & deps & N).
  destruct (NormalForm_filters _ _ _ _ _ _ _ _ _ _ _ N) as (-> & _ & _).
  pose proof (nf_spawns1 _ _ _ _ _ _ _ _ _ _ _ N) as H1.
  pose proof (nf_spawns2 _ _ _ _ _ _ _ _ _ _ _ N) as H2.
  pose proof (nf_admits1 _ _ _ _ _ _ _ _ _ _ _ N) as Ha1.
  assert (List.NoDup (keys sel2) /\ Forall (fun d => In d (normalizedDemands input)) sel2 /\
    forall d, In d sel2 -> ~ In (demand_Key d) (keys sel1)) as (Hn2 & Hq2 & Hd2).
  { destruct (decide (sel2 = [])) as [->|Hne]; [split; [apply List.NoDup_nil|split; [constructor|done]]|].
    destruct (nf_second _ _ _ _ _ _ _ _ _ _ _ N Hne) as (_ & Hk & _ & _ & Ha & _).
    split; [apply Ha|]. split; [apply Ha|done]. }
  split.
  - rewrite map_app, (Spawns_keys _ _ _ H1), (Spawns_keys _ _ _ H2). apply NoDup_app_split.
    split; [apply Ha1|]. split; [done|]. intros k Hk Hk'.
    apply in_map_iff in Hk' as (d & <- & Hd). by apply (Hd2 d).
  - assert (forall deps sel sops op, Forall2 (Spawns deps) sel sops ->
      Forall (fun d => In d (normalizedDemands input)) sel -> In op sops ->
      exists d, In d (normalizedDemands input) /\ op_Demand op = demand_Key d /\
        op_Profile op = demand_Profile d /\ op_Route op = demand_Route d) as Hgen.
    { intros deps' sel sops op HS Hq Hop. destruct (Forall2_In_r _ _ _ _ HS Hop) as (d & Hd & S).
      rewrite List.Forall_forall in Hq. exists d. split; [auto|]. split; [apply S|split; apply S]. }
    intros op Hop. apply in_app_or in Hop as [Hop|Hop].
    + eapply Hgen; [exact H1|apply Ha1|done].
    + by eapply Hgen.
Qed.

(** C3: No demand is admitted twice.  Whatever the node, the spawns of one plan
    are for distinct demands, and each is for a demand of the normalised queue
    under that demand's own profile and route; so the two passes of a tick
    cannot claim the same demand. *)
Theorem plan_spawns_each_demand_once input p :
  PlanTick input = Some p ->
  List.NoDup (map op_Demand (List.filter isSpawn (plan_Operations p))) /\
  forall op, In op (plan_Operations p) -> op_Kind op = OperationSpawn ->
    exists d, In d (normalizedDemands input) /\ op_Demand op = demand_Key d /\
      op_Profile op = demand_Profile d /\ op_Route op = demand_Route d.
Proof. apply PlanTick_spawns. Qed.

Lemma planned_other config P deps sel sops :
  (forall id p, Profiles config !! id = Some p -> profile_ID p = id) ->
  Forall2 (Spawns deps) sel sops ->
  Forall (fun d => is_Some (Profiles config !! demand_Profile d) /\ demand_Profile d <> P) sel ->
  activeOf P (planned config sops) = 0.
Proof.
  intros Hid HS. unfold planned. induction HS as [|d op sel sops S _ IH]; intros Hf; [done|].
  inversion_clear Hf as [|? ? [[q Hq] Hne] Hf']. cbn [map]. rewrite activeOf_cons, IH by done.
  unfold macOfProfile. simpl. rewrite (spawns_profile _ _ _ S). unfold profileOf. rewrite Hq. simpl.
  rewrite (Hid _ _ Hq), (bool_decide_eq_false_2 (demand_Profile d = P)) by done.
  by rewrite andb_false_r.
Qed.

(** A macOS profile is never taken past its limit: after a plan that spawns
    for it, the live macOS instances of that profile, the new ones included,
    number at most its [MaxActive] (one when none is set). *)
Theorem plan_respects_mac_limits input p op :
  wellFormed input -> PlanTick input = Some p ->
  In op (plan_Operations p) -> op_Kind op = OperationSpawn ->
  profile_Platform (profileOf (in_Config input) (op_Profile op)) = PlatformMacOS ->
  activeOf (op_Profile op) (after input (plan_Operations p))
  <= macProfileLimit (profileOf (in_Config input) (op_Profile op)).
Proof.
  intros W E Hin Hk Hmac.
  assert (In op (List.filter isSpawn (plan_Operations p))) as Hf.
  { apply List.filter_In. split; [done|]. unfold isSpawn. by apply bool_decide_eq_true. }
  destruct (PlanTick_normal input p E) as [[Er _]|N].
  { rewrite Er, recoveries_noSpawn in Hf. destruct Hf. }
  destruct N as (ds & sel1 & sel2 & sops1 & sops2 & insts1 & insts2 & deps & N).
  destruct (NormalForm_filters _ _ _ _ _ _ _ _ _ _ _ N) as (Es & _ & ->). rewrite Es in Hf.
  pose proof (nf_spawns1 _ _ _ _ _ _ _ _ _ _ _ N) as H1.
  pose proof (nf_spawns2 _ _ _ _ _ _ _ _ _ _ _ N) as H2.
  set (P := op_Profile op) in *.
  assert (forall d, In d (normalizedDemands input) -> demand_Profile d = P ->
    demand_Platform d = PlatformMacOS /\ profile_ID (profileOf (in_Config input) P) = P) as Hdem.
  { intros d Hd Ed. apply normalizedDemands_In in Hd as [_ Hd].
    apply plannable_profile in Hd as (q & Hq & Eq & Hplat & _). rewrite Ed in Eq, Hq.
    rewrite Eq in Hmac |- *. split; [congruence|]. by apply (wf_profiles _ W). }
  pose proof (planned_active (in_Config input) P sops1) as Hpa1.
  pose proof (planned_active (in_Config input) P sops2) as Hpa2.
  pose proof (Forall2_length _ _ _ H1) as L1. pose proof (Forall2_length _ _ _ H2) as L2.
  rewrite !activeOf_app.
  destruct (decide (Exists (fun d => demand_Profile d = P) sel2)) as [He|Hne].
  - apply List.Exists_exists in He as (d & Hd & Ed).
    assert (sel2 <> []) as Hne by (by intros ->).
    destruct (nf_second _ _ _ _ _ _ _ _ _ _ _ N Hne) as (-> & _ & Hsub & _ & Ha & Hw).
    rewrite (filter_all (undrained []) (instancesOf input)) by done.
    pose proof (admits_queue _ _ _ _ Ha) as Hq. rewrite List.Forall_forall in Hq.
    destruct (Hdem d (Hq d Hd) Ed) as [Hplat Hid].
    destruct (Hw W d Hd Hplat) as [Hlim _]. rewrite Ed, Hid in Hlim.
    apply (activeOf_sublist P) in Hsub. rewrite activeOf_app in Hsub. lia.
  - rewrite (planned_other (in_Config input) P [] sel2 sops2); [|intros ? ? Hq; by apply (wf_profiles _ W) in Hq as [? _]|done|].
    + assert (exists d, In d sel1 /\ demand_Profile d = P) as (d & Hd & Ed).
      { apply in_app_or in Hf as [Hf|Hf].
        - destruct (Forall2_In_r _ _ _ _ H1 Hf) as (d & Hd & S). exists d.
          unfold P. by rewrite (spawns_profile _ _ _ S).
        - destruct Hne. destruct (Forall2_In_r _ _ _ _ H2 Hf) as (d & Hd & S).
          apply List.Exists_exists. exists d. unfold P. by rewrite (spawns_profile _ _ _ S). }
      pose proof (admits_queue _ _ _ _ (nf_admits1 _ _ _ _ _ _ _ _ _ _ _ N)) as Hq.
      rewrite List.Forall_forall in Hq. destruct (Hdem d (Hq d Hd) Ed) as [Hplat Hid].
      destruct (nf_limits1 _ _ _ _ _ _ _ _ _ _ _ N W d Hd Hplat) as [Hlim _]. rewrite Ed, Hid in Hlim.
      pose proof (activeOf_sublist P _ _ (basis_covers _ _ _ (nf_basis _ _ _ _ _ _ _ _ _ _ _ N))). lia.
    + apply List.Forall_forall. intros d Hd. split.
      * assert (sel2 <> []) as Hn by (by intros ->).
        destruct (nf_second _ _ _ _ _ _ _ _ _ _ _ N Hn) as (_ & _ & _ & _ & Ha & _).
        pose proof (admits_queue _ _ _ _ Ha) as Hq. rewrite List.Forall_forall in Hq.
        specialize (Hq d Hd). apply normalizedDemands_In in Hq as [_ Hq].
        by apply plannable_profile in Hq as (q & -> & _).
      * intros Ed. apply Hne, List.Exists_exists. eauto.
Qed.

(** What a plan may drain.  A plan that recovers instances does nothing else
    and spawns nothing.  In every other plan a drain targets an observed
    instance that is online and idle, never a busy one; and a spawn waits only
    for drains of the same plan. *)
Theorem plan_drains_only_idle_or_recovered input p :
  PlanTick input = Some p ->
  (plan_Operations p = assignmentRecoveries (Now input) (in_Config input) (instancesOf input) /\
   containsSpawn (plan_Operations p) = false) \/
  (forall op, In op (plan_Operations p) ->
     match op_Kind op with
     | OperationDrain =>
         op_Recovery op = false /\
         exists i, In i (instancesOf input) /\ inst_State i = InstanceOnlineIdle /\
                   op_Instance op = inst_ID i
     | OperationSpawn =>
         op_Recovery op = false /\
         forall id, In id (op_DependsOn op) ->
           exists drain, In drain (plan_Operations p) /\ op_Kind drain = OperationDrain /\
                         op_ID drain = id
     end).
Proof.
  intros E. destruct (PlanTick_normal input p E) as [[Er _]|N].
  { left. split; [done|]. rewrite Er. apply noSpawn_filter, recoveries_noSpawn. }
  right. destruct N as (ds & sel1 & sel2 & sops1 & sops2 & insts1 & insts2 & deps & N).
  pose proof (nf_ops _ _ _ _ _ _ _ _ _ _ _ N) as Eo. intros op Hop. rewrite Eo in Hop.
  apply in_app_or in Hop as [Hop|Hop]; [|apply in_app_or in Hop as [Hop|Hop]].
  - apply in_map_iff in Hop as (i & <- & Hi). simpl. split; [done|]. exists i.
    pose proof (nf_idle _ _ _ _ _ _ _ _ _ _ _ N) as Hd. rewrite List.Forall_forall in Hd.
    destruct (Hd i Hi). done.
  - destruct (Forall2_In_r _ _ _ _ (nf_spawns1 _ _ _ _ _ _ _ _ _ _ _ N) Hop) as (d & _ & S).
    rewrite (spawns_kind _ _ _ S), (spawns_deps _ _ _ S). split; [apply S|].
    intros id Hid. apply (nf_deps _ _ _ _ _ _ _ _ _ _ _ N) in Hid. unfold operationIDs in Hid.
    apply in_map_iff in Hid as (drain & <- & Hdrain). exists drain.
    split; [rewrite Eo; apply in_or_app; by left|]. split; [|done].
    by apply in_map_iff in Hdrain as (i & <- & _).
  - destruct (Forall2_In_r _ _ _ _ (nf_spawns2 _ _ _ _ _ _ _ _ _ _ _ N) Hop) as (d & _ & S).
    rewrite (spawns_kind _ _ _ S), (spawns_deps _ _ _ S). split; [apply S|]. intros ? [].
Qed.
End Claims.

(** ** The claims at work on a concrete node *)

Lemma sharedProfiles_ok id p :
  Node.sharedProfiles !! id = Some p -> profile_ID p = id /\ positive (profile_Resources p).
Proof.
  unfold Node.sharedProfiles, Node.profiles, positive. rewrite !lookup_insert_Some, lookup_empty.
  intros [[<- <-]|[_ [[<- <-]|[_ [[<- <-]|[_ [[<- <-]|[_ ?]]]]]]]]; simpl; try done; lia.
Qed.

Ltac closed_bounds := vm_compute; repeat split; intros; discriminate.

Lemma mixedInput_wellFormed : wellFormed Node.mixedInput.
Proof.
  split.
  - split; [split|]; [|closed_bounds..]. constructor; [closed_bounds|constructor].
  - apply sharedProfiles_ok.
  - right. intros a b. vm_compute. intros [<-|[]] [<-|[]]. done.
Qed.



Lemma plan_spawns_each_demand_once_witness :
  exists p, PlanTick (H := plainAddress) Node.mixedInput = Some p /\
    length (List.filter isSpawn (plan_Operations p)) = 2%nat /\
    List.NoDup (map op_Demand (List.filter isSpawn (plan_Operations p))).
Proof.
  eexists. split; [vm_compute; reflexivity|]. split; [reflexivity|].
  refine (proj1 (plan_spawns_each_demand_once (H := plainAddress) Node.mixedInput _ _)).
  vm_compute; reflexivity.
Defined.

Lemma plan_respects_mac_limits_witness :
  exists p op, PlanTick (H := plainAddress) Node.mixedInput = Some p /\ In op (plan_Operations p) /\
    activeOf (op_Profile op) (after Node.mixedInput (plan_Operations p))
    <= macProfileLimit (profileOf (in_Config Node.mixedInput) (op_Profile op)).
Proof.
  eexists _, _. split; [vm_compute; reflexivity|]. split; [left; reflexivity|].
  refine (plan_respects_mac_limits (H := plainAddress) Node.mixedInput _ _
            mixedInput_wellFormed _ _ _ _).
  - vm_compute; reflexivity.
  - left; reflexivity.
  - reflexivity.
  - reflexivity.
Defined.

(** A macOS head that needs the room an idle Linux instance holds. *)
Definition drainingInput : Input :=
  Node.inputUnder (Node.sharedConfig false false) [Node.macDemand "acme/app" 1 (60 * Minute)]
    [Node.instance "i1" "acme/lib" 9 PlatformLinux "large" (Node.vec 6 8192 1) InstanceOnlineIdle].

Lemma plan_drains_only_idle_or_recovered_witness :
  exists p, PlanTick (H := plainAddress) drainingInput = Some p /\
    map op_Kind (plan_Operations p) = [OperationDrain; OperationSpawn] /\
    ((plan_Operations p = assignmentRecoveries (H := plainAddress) (Now drainingInput) (in_Config drainingInput)
                            (instancesOf drainingInput) /\
      containsSpawn (plan_Operations p) = false) \/
     forall op, In op (plan_Operations p) -> op_Kind op = OperationDrain ->
       exists i, In i (instancesOf drainingInput) /\ inst_State i = InstanceOnlineIdle /\
                 op_Instance op = inst_ID i).
Proof.
  eexists. split; [vm_compute; reflexivity|]. split; [reflexivity|].
  destruct (plan_drains_only_idle_or_recovered (H := plainAddress) drainingInput _
              ltac:(vm_compute; reflexivity)) as [Hr|Ho]; [left; exact Hr|right].
  intros op Hin Hk. specialize (Ho op Hin). rewrite Hk in Ho. exact (proj2 Ho).
Defined.

(** ** Where the guarantee stops *)

(** The macOS handoff lane is handed the macOS demands of every profile, while
    [appendMacSpawns] charges each candidate the vector of the first one's
    profile.  Here a 4-CPU and a 6-CPU demand wait behind an idle Linux
    instance on an 8-CPU node. *)
Definition twoProfileInput : Input :=
  Node.inputUnder (Node.sharedConfig false false)
    [Node.macDemand "acme/app" 1 (60 * Minute); Node.builderDemand "acme/app" 2 (50 * Minute)]
    [Node.instance "i1" "acme/lib" 9 PlatformLinux "large" (Node.vec 6 8192 1) InstanceOnlineIdle].

(** C39: The last clause of [wellFormed] is needed.  With two macOS profiles
    queued and no exclusive admission, the handoff lane charges both demands the
    first one's vector: a node with room for 8 CPUs, configured and observed
    soundly, is planned 10. *)
Theorem handoff_can_overcommit `{ContentAddress} :
  roomy twoProfileInput /\
  (forall id q, Profiles (in_Config twoProfileInput) !! id = Some q ->
     profile_ID q = id /\ positive (profile_Resources q)) /\
  exists p, PlanTick twoProfileInput = Some p /\
    CPU (LinuxCapacity (in_Config twoProfileInput)) = 8 /\
    CPU (held (after twoProfileInput (plan_Operations p))) = 10 /\
    ~ notOvercommitted twoProfileInput (after twoProfileInput (plan_Operations p)).
Proof.
  split.
  { split; [split|]; [|closed_bounds..]. constructor; [closed_bounds|constructor]. }
  split; [apply sharedProfiles_ok|].
  eexists. split; [vm_compute; reflexivity|]. split; [reflexivity|]. split; [reflexivity|].
  intros [_ Hle]. vm_compute in Hle. destruct Hle as [Hle _]. by apply Hle.
Qed.

(** One [builder] runs; a [mac] demand and a Linux demand wait. *)
Definition foreignCohortInput : Input :=
  Node.inputUnder (Node.sharedConfig false false)
    [Node.macDemand "acme/app" 1 (60 * Minute); Node.linuxDemand "acme/app" 2 (50 * Minute)]
    [Node.instance "i1" "acme/lib" 9 PlatformMacOS "builder" (Node.vec 4 8192 1) InstanceRunning].

(** The single-cohort rule does not hold in the handoff lane.  With
    [MixedProfileCohorts] off, a queued Linux demand takes the tick from the
    cohort switch to the handoff, which spawns the macOS head beside a live
    instance of another macOS profile; without the Linux demand the same tick
    waits. *)
Theorem handoff_can_mix_cohorts `{ContentAddress} :
  MixedProfileCohorts (in_Config foreignCohortInput) = false /\
  (exists p, PlanTick foreignCohortInput = Some p /\
     map op_Profile (List.filter isSpawn (plan_Operations p)) = ["mac"] /\
     activeOf "builder" (after foreignCohortInput (plan_Operations p)) = 1 /\
     activeOf "mac" (after foreignCohortInput (plan_Operations p)) = 1) /\
  exists p, PlanTick (Node.inputUnder (Node.sharedConfig false false)
                        [Node.macDemand "acme/app" 1 (60 * Minute)] (instancesOf foreignCohortInput)) = Some p /\
    plan_Operations p = [].
Proof.
  split; [reflexivity|]. split; (eexists; split; [vm_compute; reflexivity|]).
  - split; [reflexivity|]. split; reflexivity.
  - reflexivity.
Qed.
