(* ===== verification/Totality.v ===== *)
(** * Totality of a tick

    A lane indexes the first element of a queue, so on an empty queue it would
    panic.  Here: no tick does when the configured platforms are the two the
    fleet knows, and an unusable observation yields an empty plan. *)

From Stdlib Require Import ZArith Lia String Permutation.
From stdpp Require Import base tactics list gmap strings.
From S2P Require Import Prelude GoStrings Liveness Domain Scheduler Envelope Order Recovery Admission.
From S2P Require Import Passes Lanes LaneSpec Fixture.

Section Status.
Context `{ContentAddress}.

(** ** No pass changes the status of a plan *)

Lemma advanceCursor_status p repos : plan_Status (advanceCursor p repos) = plan_Status p.
Proof. unfold advanceCursor. by destruct (last repos). Qed.

Lemma admitAged_status input demands base before cands plan free agedFree :
  plan_Status (admitAged input demands base before cands plan free agedFree) = plan_Status plan.
Proof.
  revert plan free agedFree. induction cands as [|c cands IH]; intros plan free agedFree; simpl; [done|].
  destruct (_ <=? _); [done|]. destruct (negb _); [|by rewrite IH].
  unfold reserveAndBackfill. by rewrite advanceCursor_status.
Qed.

Lemma planLinux_status input plan queue : plan_Status (planLinux input plan queue) = plan_Status plan.
Proof.
  unfold planLinux. destruct (linuxCandidates _ _ _); [done|].
  destruct (standingReservation _ _) as [[r d0]|].
  - destruct (bool_decide _); [done|]. unfold reserveAndBackfill. by rewrite advanceCursor_status.
  - destruct (splitAged _ _ _) as [[|a aged] young].
    + unfold admitYoung. by rewrite advanceCursor_status.
    + by rewrite admitAged_status.
Qed.

Lemma appendMacSpawns_status input plan queue deps :
  plan_Status (appendMacSpawns input plan queue deps) = plan_Status plan.
Proof.
  unfold appendMacSpawns. destruct (besideAgedForeignHead _ _ _); [done|].
  destruct (_ <=? 0); [done|]. by rewrite advanceCursor_status.
Qed.

Lemma fillLinuxRemainder_status input plan l m :
  plan_Status (fillLinuxRemainder input plan l m) = plan_Status plan.
Proof.
  unfold fillLinuxRemainder. destruct (demandsAwaitingAdmission _ _); [done|].
  by destruct (mixedRemainderInput _ _).
Qed.

Lemma fillMacRemainder_status input plan m l :
  plan_Status (fillMacRemainder input plan m l) = plan_Status plan.
Proof.
  unfold fillMacRemainder. destruct (reservedRemainderDemands _ _ _); [done|].
  destruct (mixedRemainderInput _ _); [|done]. destruct (remainderMacProfile _ _); [|done].
  by destruct (demandsForProfile _ _).
Qed.

Lemma judgeCarriedReservation_status input plan :
  plan_Status (judgeCarriedReservation input plan) = plan_Status plan.
Proof. unfold judgeCarriedReservation. destruct (st_Reservation _); [|done]. by destruct (negb _). Qed.

Lemma reserveMacHead_status input plan l h : plan_Status (reserveMacHead input plan l h) = plan_Status plan.
Proof.
  unfold reserveMacHead. destruct (mac_BackfillAdmitted h); [done|].
  by destruct (boundedDrainBackfill _ _).
Qed.

Lemma boundedMacWave_status input plan m h : plan_Status (boundedMacWave input plan m h) = plan_Status plan.
Proof.
  unfold boundedMacWave. destruct (linux_BackfillAdmitted h); [done|].
  destruct (activeMacProfile _) as [profile []]; [|done]. simpl.
  destruct (containsSpawn _); simpl; apply appendMacSpawns_status.
Qed.

Create Rewrite HintDb status.
#[local] Hint Rewrite planLinux_status appendMacSpawns_status fillLinuxRemainder_status fillMacRemainder_status
  judgeCarriedReservation_status reserveMacHead_status boundedMacWave_status : status.

(** Follow the monadic structure of a lane. *)
Ltac lane_status :=
  repeat match goal with
  | |- context [mbind _ ?x] => let E := fresh "E" in destruct x eqn:E; simpl; [|done]
  | |- context [let '(_, _) := ?x in _] => destruct x
  | |- context [if ?x then _ else _] => destruct x
  | |- context [match ?x with [] => _ | _ :: _ => _ end] => destruct x
  | |- Some _ = Some _ -> _ => intros [= <-]; simpl; autorewrite with status; simpl
  end.

Lemma planMacOS_status input plan ds p : planMacOS input plan ds = Some p -> plan_Status p = plan_Status plan.
Proof. unfold planMacOS. lane_status; done. Qed.

Lemma planMacHandoff_status input plan l m p :
  planMacHandoff input plan l m = Some p -> plan_Status p = plan_Status plan.
Proof. unfold planMacHandoff. lane_status; done. Qed.

Lemma planBehind_status input plan l m p :
  planBehindInfeasibleMacHead input plan l m = Some p -> plan_Status p = plan_Status plan.
Proof.
  unfold planBehindInfeasibleMacHead. lane_status; try done.
  intros Hp. apply planMacOS_status in Hp. rewrite Hp. simpl. apply planLinux_status.
Qed.

Lemma planMacWithCoexistence_status input plan l m p :
  planMacWithCoexistence input plan l m = Some p -> plan_Status p = plan_Status plan.
Proof.
  unfold planMacWithCoexistence. lane_status; try (by eapply planMacOS_status).
  intros Hp. apply planMacHandoff_status in Hp. rewrite Hp. by eapply planMacOS_status.
Qed.

Lemma planLinuxHandoff_status input plan l m p :
  planLinuxHandoff input plan l m = Some p -> plan_Status p = plan_Status plan.
Proof. unfold planLinuxHandoff. lane_status; done. Qed.

Lemma planLinuxWithCoexistence_status input plan l m p :
  planLinuxWithCoexistence input plan l m = Some p -> plan_Status p = plan_Status plan.
Proof.
  unfold planLinuxWithCoexistence. lane_status; try done.
  intros Hp. apply planLinuxHandoff_status in Hp. rewrite Hp. apply planLinux_status.
Qed.

Lemma planExclusiveAdmission_status input plan l m p :
  planExclusiveAdmission input plan l m = Some p -> plan_Status p = plan_Status plan.
Proof.
  unfold planExclusiveAdmission, planExclusiveMacHandoff. lane_status; try done.
  intros Hp. by apply planLinuxHandoff_status in Hp.
Qed.

Lemma planMacLane_status input plan mode l m p :
  planMacLane input plan mode l m = Some p -> plan_Status p = plan_Status plan.
Proof.
  unfold planMacLane. destruct mode; lane_status;
    try (by eapply planMacOS_status in E); try (by eapply planMacWithCoexistence_status in E);
    intros Hp; first [apply planBehind_status in Hp | apply planMacHandoff_status in Hp]; done.
Qed.

Lemma planLinuxLane_status input plan mode l m p :
  planLinuxLane input plan mode l m = Some p -> plan_Status p = plan_Status plan.
Proof.
  unfold planLinuxLane. destruct mode; simpl; lane_status;
    autorewrite with status; try done; by apply planLinuxWithCoexistence_status in E.
Qed.

Lemma planDemands_status input plan mode ds p :
  planDemands input plan mode ds = Some p -> plan_Status p = plan_Status plan.
Proof.
  unfold planDemands. destruct (partition _) as [l m]. destruct (MacOSExclusive _).
  - destruct (planExclusiveAdmission _ _ _ _) eqn:E; [|done]. simpl. intros [= <-].
    rewrite judgeCarriedReservation_status. by eapply planExclusiveAdmission_status.
  - destruct (head _) as [d|]; [|done]. simpl. destruct (demand_Platform d).
    + destruct (planLinuxLane _ _ _ _ _) eqn:E; [|done]. simpl. intros [= <-].
      rewrite judgeCarriedReservation_status. by eapply planLinuxLane_status.
    + destruct (planMacLane _ _ _ _ _) eqn:E; [|done]. simpl. intros [= <-].
      rewrite judgeCarriedReservation_status. by eapply planMacLane_status.
    + simpl. intros [= <-]. by rewrite judgeCarriedReservation_status.
Qed.

(** ** No lane panics on a queue that is not empty *)

Lemma perm_head {A} (l1 l2 : list A) : Permutation l1 l2 -> l2 <> [] -> exists x, head l1 = Some x.
Proof.
  intros Hp Hne. destruct l1 as [|x l1]; [|by exists x].
  by apply Permutation_nil in Hp.
Qed.

Lemma chosen_total input ds : ds <> [] -> exists id, chosenMacProfile input ds = Some id.
Proof.
  intros Hne. destruct (perm_head _ _ (priorityOrder_perm input ds) Hne) as [d Hd].
  exists (demand_Profile d). unfold chosenMacProfile. by rewrite Hd.
Qed.

Lemma planMacOS_total input plan ds : ds <> [] -> exists p, planMacOS input plan ds = Some p.
Proof.
  intros Hne. destruct (chosen_total input ds Hne) as [id E]. unfold planMacOS. rewrite E. simpl.
  destruct (_ && _); [by eexists|]. destruct (drainIdle _ _) as [[? []] ?]; by eexists.
Qed.

Lemma planMacHandoff_total input plan l m : m <> [] -> exists p, planMacHandoff input plan l m = Some p.
Proof.
  intros Hne. unfold planMacHandoff.
  destruct (perm_head _ _ (stableMacHandoffOrder_perm (st_MacHandoff (Prior input)) m) Hne) as [d ->].
  simpl. destruct (drainIdle _ _) as [[? ?] ?]. destruct (_ && _); by eexists.
Qed.

Lemma planBehind_total input plan l m :
  m <> [] -> exists p, planBehindInfeasibleMacHead input plan l m = Some p.
Proof.
  intros Hne. unfold planBehindInfeasibleMacHead.
  destruct (perm_head _ _ (priorityOrder_perm input m) Hne) as [d ->]. simpl.
  destruct (containsSpawn _); [by eexists|]. destruct (chosen_total input m Hne) as [id ->]. simpl.
  destruct (demandsExcludingProfile m id) eqn:E; [by eexists|]. by apply planMacOS_total.
Qed.

Lemma planMacWithCoexistence_total input plan l m :
  m <> [] -> exists p, planMacWithCoexistence input plan l m = Some p.
Proof.
  intros Hne. unfold planMacWithCoexistence. destruct (planMacOS_total input plan m Hne) as [p ->]. simpl.
  destruct (containsSpawn _); [by eexists|]. destruct (_ <? _)%nat; [by eexists|].
  destruct (chosen_total input m Hne) as [id ->]. simpl.
  destruct (negb _); [by eexists|]. by apply planMacHandoff_total.
Qed.

Lemma planLinuxHandoff_total input plan l m : l <> [] -> exists p, planLinuxHandoff input plan l m = Some p.
Proof.
  intros Hne. unfold planLinuxHandoff.
  destruct (perm_head _ _ (priorityOrder_perm input l) Hne) as [d ->]. simpl.
  destruct (drainIdle _ _) as [[? []] ?]; by eexists.
Qed.

Lemma planExclusiveAdmission_total input plan l m :
  l <> [] \/ m <> [] -> exists p, planExclusiveAdmission input plan l m = Some p.
Proof.
  intros Hne. unfold planExclusiveAdmission. destruct (activeMacProfile _) as [active ok].
  destruct (_ && negb ok); [by eexists|]. destruct m as [|d0 m'] eqn:Em.
  - destruct (hasConsumingPlatform _ _); [|by eexists]. apply planLinuxHandoff_total. by destruct Hne.
  - rewrite <- Em in *. assert (m <> []) as Hm by (by rewrite Em).
    destruct (chosen_total input m Hm) as [id ->]. simpl.
    set (target := if _ : bool then active else id).
    destruct (perm_head _ _ (macProfileFirst_perm input m target) Hm) as [d Hd].
    unfold planExclusiveMacHandoff. rewrite Hd. simpl.
    match goal with |- context [head ?q ≫= _] => assert (exists x, head q = Some x) as [x ->] end.
    { destruct (st_MacHandoff (Prior input)) as [h|]; [|by exists d]. case_bool_decide; [|by exists d].
      eapply perm_head; [apply (stableMacHandoffOrder_perm (Some h))|]. by destruct (macProfileFirst _ _ _). }
    simpl. destruct (drainIdle _ _) as [[? []] ?]; by eexists.
Qed.

Lemma planMacLane_total input plan mode l m : m <> [] -> exists p, planMacLane input plan mode l m = Some p.
Proof.
  intros Hm. unfold planMacLane.
  pose proof (fun plan => planMacWithCoexistence_total input plan l m Hm) as Hc.
  pose proof (fun plan => planMacOS_total input plan m Hm) as Ho.
  destruct mode;
    first [ solve [destruct (Hc (setLinuxHandoff plan None)) as [p ->]; simpl; by eexists]
          | destruct (Ho (setMacHandoff (setLinuxHandoff plan None) None)) as [p ->]; simpl;
            repeat match goal with |- context [if ?b then _ else _] => destruct b end;
            eauto using planBehind_total, planMacHandoff_total ].
Qed.

Lemma planLinuxLane_total input plan mode l m : l <> [] -> exists p, planLinuxLane input plan mode l m = Some p.
Proof.
  intros Hl. unfold planLinuxLane, planLinuxWithCoexistence.
  destruct mode; simpl; try by eexists.
  all: destruct (_ || _); [by eexists|].
  all: match goal with |- context [planLinuxHandoff ?i ?p ?l' ?m'] =>
         destruct (planLinuxHandoff_total i p l' m' Hl) as [q ->] end; by eexists.
Qed.

(** The platform of every demand a tick plans for is one the fleet knows. *)
Definition knownPlatforms (config : Config) : Prop :=
  forall id p, Profiles config !! id = Some p ->
    profile_Platform p = PlatformLinux \/ profile_Platform p = PlatformMacOS.

Lemma planDemands_total input plan mode ds :
  ds <> [] ->
  (forall d, In d ds -> demand_Platform d = PlatformLinux \/ demand_Platform d = PlatformMacOS) ->
  exists p, planDemands input plan mode ds = Some p.
Proof.
  intros Hne Hk. unfold planDemands, partition.
  destruct (perm_head _ _ (priorityOrder_perm input ds) Hne) as [d Hd].
  assert (In d (priorityOrder input ds)) as Hin
    by (destruct (priorityOrder input ds); [done|]; injection Hd as ->; by left).
  assert (forall P, demand_Platform d = P -> List.filter (onPlatform P) (priorityOrder input ds) <> []) as Hf.
  { intros P HP E. assert (In d (List.filter (onPlatform P) (priorityOrder input ds))) as Hx
      by (apply List.filter_In; split; [done|]; by apply bool_decide_eq_true).
    by rewrite E in Hx. }
  destruct (Hk d (Permutation_in _ (priorityOrder_perm input ds) Hin)) as [HP|HP];
    specialize (Hf _ HP); destruct (MacOSExclusive _).
  - destruct (planExclusiveAdmission_total input plan _
      (List.filter (onPlatform PlatformMacOS) (priorityOrder input ds)) (or_introl Hf)) as [p ->]. by eexists.
  - rewrite Hd. simpl. rewrite HP.
    match goal with |- context [planLinuxLane ?i ?p ?mo ?l ?m] =>
      destruct (planLinuxLane_total i p mo l m Hf) as [q ->] end. by eexists.
  - destruct (planExclusiveAdmission_total input plan
      (List.filter (onPlatform PlatformLinux) (priorityOrder input ds)) _ (or_intror Hf)) as [p ->]. by eexists.
  - rewrite Hd. simpl. rewrite HP.
    match goal with |- context [planMacLane ?i ?p ?mo ?l ?m] =>
      destruct (planMacLane_total i p mo l m Hf) as [q ->] end. by eexists.
Qed.

Lemma PlanTick_total input : knownPlatforms (in_Config input) -> exists p, PlanTick input = Some p.
Proof.
  intros Hk. enough (exists p, planTick input = Some p) as [p E].
  { unfold PlanTick. rewrite E. simpl. by eexists. }
  unfold planTick. destruct (negb (usable input)); [by eexists|].
  destruct (DeriveHostMode _) as [mode|]; [|by eexists].
  destruct (assignmentRecoveries _ _ _); [|by eexists].
  destruct (normalizedDemands input) as [|d ds] eqn:En; [by eexists|].
  destruct (planDemands_total input (newPlan PlanReady (Prior input)) mode (d :: ds)) as [q Hq];
    [done| |rewrite Hq; by eexists].
  intros d' Hd'. rewrite <- En in Hd'. apply normalizedDemands_In in Hd' as [_ Hd'].
  apply plannable_profile in Hd' as (p & Hp & _ & <- & _). by apply (Hk (demand_Profile d')).
Qed.

(** C37: A tick is total: with the two known platforms in the configuration,
    [PlanTick] never indexes an empty queue, whatever is observed, queued and
    carried over. *)
Theorem plan_tick_never_panics input :
  knownPlatforms (in_Config input) -> exists p, PlanTick input = Some p.
Proof. apply PlanTick_total. Qed.

End Status.

Lemma plan_tick_never_panics_witness :
  exists p, PlanTick (H := plainAddress) Node.mixedInput = Some p.
Proof.
  apply (plan_tick_never_panics (H := plainAddress) Node.mixedInput). intros id p.
  simpl. unfold Node.sharedProfiles, Node.profiles. rewrite !lookup_insert_Some, lookup_empty.
  intros [[_ <-]|[_ [[_ <-]|[_ [[_ <-]|[_ [[_ <-]|[_ ?]]]]]]]]; simpl; auto; discriminate.
Defined.

