(* ===== verification/Headroom.v ===== *)
(** * Dividing the residual envelope (internal/scheduler/headroom.go)

    A node has one envelope and many scale sets that draw on it.  What is left of
    the envelope once everything queued is charged is divided among the sets, so
    that what they are offered could start at once.  Each set makes a claim; units
    are granted one at a time, round robin, first to the sets with work waiting
    and then to every set up to its room. *)

From Stdlib Require Import ZArith Lia String List.
From stdpp Require Import base tactics list gmap strings.
From S2P Require Import Prelude GoStrings Liveness Domain Scheduler Fixture Envelope Recovery Order Passes.

Record Claim := {
  claim_Profile : ProfileID;
  claim_Room : Z;
  claim_Waiting : Z
}.

Definition Unsized : Z := -1.

Definition shareRotation : Duration := 30 * Second.

(** A vector charged one dimension at a time, floored at zero. *)
Definition exhaust (free owed : Resources) : Resources :=
  {| CPU := Z.max 0 (sub64 (CPU free) (CPU owed)); MemoryMB := Z.max 0 (sub64 (MemoryMB free) (MemoryMB owed));
     Slots := Z.max 0 (sub64 (Slots free) (Slots owed)) |}.

(** What of a macOS profile's limit is spoken for. *)
Definition cohortSize (input : Input) (profile : ProfileID) (waiting : list Demand) : Z :=
  let instances := instancesOf input in
  let served := incarnated instances in
  Z.of_nat (length (List.filter (fun i => ConsumesHostResources i && bool_decide (inst_Profile i = profile)) instances))
  + Z.of_nat (length (List.filter (fun d => bool_decide (demand_Profile d = profile)
                                            && negb (bool_decide (demand_Key d ∈ served))) waiting)).

Section Division.
Variable input : Input.
Variable claims : list Claim.

(** The variables the closure [grant] updates. *)
Record Division := {
  div_free : Resources;
  div_cohort : gmap ProfileID Z;
  div_shares : list Z
}.

Definition definitionOf (claim : Claim) : Profile := profileOf (in_Config input) (claim_Profile claim).

Definition unsizable (claim : Claim) : bool :=
  match Profiles (in_Config input) !! claim_Profile claim with
  | None => true
  | Some definition => bool_decide (profile_Resources definition = zeroResources)
  end.

Definition cohortRoom (waiting : list Demand) (claim : Claim) : Z :=
  Z.max 0 (sub64 (macProfileLimit (definitionOf claim)) (cohortSize input (claim_Profile claim) waiting)).

Definition countCohort (waiting : list Demand) (cohort : gmap ProfileID Z) (claim : Claim) : gmap ProfileID Z :=
  if unsizable claim then cohort
  else if bool_decide (profile_Platform (definitionOf claim) = PlatformMacOS)
          && negb (bool_decide (is_Some (cohort !! claim_Profile claim)))
  then <[claim_Profile claim := cohortRoom waiting claim]> cohort
  else cohort.

(** The envelope once every queued demand is charged. *)
Definition residual (waiting : list Demand) : Resources :=
  fold_left exhaust (queuedVectors (in_Config input) (instancesOf input) waiting) (linuxFreeAged input).

Definition undivided (waiting : list Demand) : Division :=
  {| div_free := residual waiting; div_cohort := fold_left (countCohort waiting) claims ∅;
     div_shares := map (fun claim => if unsizable claim then Unsized else 0) claims |}.

(** The closure [grant]: [None] is a refusal. *)
Definition grant (d : Division) (index : nat) (claim : Claim) : option Division :=
  let profile := claim_Profile claim in
  let definition := definitionOf claim in
  if negb (CanFit (div_free d) (profile_Resources definition)) then None
  else
    let mac := bool_decide (profile_Platform definition = PlatformMacOS) in
    if mac && (default 0 (div_cohort d !! profile) =? 0) then None
    else Some
      {| div_free := exhaust (div_free d) (profile_Resources definition);
         div_cohort := if mac then <[profile := sub64 (default 0 (div_cohort d !! profile)) 1]> (div_cohort d) else div_cohort d;
         div_shares := alter (fun share => add64 share 1) index (div_shares d) |}.

(** One position of a round. *)
Definition offer (limit : Claim -> Z) (step : Division * bool) (index : nat) : Division * bool :=
  let '(d, granted) := step in
  match claims !! index, div_shares d !! index with
  | Some claim, Some share =>
      if negb (share =? Unsized) && (share <? limit claim) then
        match grant d index claim with
        | Some d' => (d', true)
        | None => (d, granted)
        end
      else (d, granted)
  | _, _ => (d, granted)
  end.

(** The positions of a round, in the order the rotation gives them. *)
Definition positions (start : Z) : list nat :=
  map (fun offset => Z.to_nat (Z.rem (start + Z.of_nat offset) (Z.of_nat (length claims)))) (seq 0 (length claims)).

Definition round (limit : Claim -> Z) (start : Z) (d : Division) : Division * bool :=
  fold_left (offer limit) (positions start) (d, false).

(** Enough fuel for the units all the limits allow. *)
Definition unitsUpTo (limit : Claim -> Z) : Z :=
  foldr (fun claim total => Z.max 0 (limit claim) + total) 0 claims.

Definition passFuel (limit : Claim -> Z) : nat := Z.to_nat (Z.log2_up (1 + unitsUpTo limit)).

Definition pass (limit : Claim -> Z) (start : Z) (d : Division) : Division :=
  fst (repeatWhile (round limit start) (passFuel limit) d).

Definition waitingLimit (claim : Claim) : Z := Z.min (claim_Room claim) (claim_Waiting claim).

Definition rotationStart : Z :=
  match claims with
  | [] => 0
  | _ => Z.rem (Z.quot (Unix (Now input)) (Z.quot shareRotation Second)) (Z.of_nat (length claims))
  end.

Definition divided (start : Z) (d : Division) : Division :=
  pass claim_Room start (pass waitingLimit start d).

(** [None] is the panic of a negative index, before 1970; [Some None] is the
    answer [ok = false]. *)
Definition PartitionHeadroom : option (option (list Z)) :=
  if negb (Usable (in_Demands input)) || negb (Usable (in_Instances input)) || negb (Usable (in_Host input))
  then Some None
  else if rotationStart <? 0 then None
  else Some (Some (div_shares (divided rotationStart (undivided (normalizedDemands input))))).

End Division.

(** ** A job that waits for the node's own Linux work *)

(** Planned and cloning instances hold no measured memory yet. *)
Definition holdsMeasuredMemory (state : InstanceState) : bool :=
  negb (state_eqb state InstancePlanned) && negb (state_eqb state InstanceCloning).

Definition drainedMemory (input : Input) : Z :=
  if negb (Usable (in_Host input)) then maxInt64
  else
    fold_left (fun memory i =>
        if bool_decide (inst_Platform i = PlatformLinux) && ConsumesHostResources i && holdsMeasuredMemory (inst_State i)
        then add64 memory (MemoryMB (inst_Resources i)) else memory)
      (instancesOf input) (Z.max 0 (MemoryMB (host_Available (obs_Value (in_Host input))))).

(** The input with the residual a drained node would measure. *)
Definition drainedHost (input : Input) : Input :=
  let host := obs_Value (in_Host input) in
  {| Now := Now input; in_Config := in_Config input; in_Demands := in_Demands input; in_Instances := in_Instances input;
     in_Host :=
       {| obs_Value :=
            {| host_Available := {| CPU := maxInt64; MemoryMB := drainedMemory input; Slots := maxInt64 |};
               host_Capacity := host_Capacity host; host_Pressure := host_Pressure host |};
          obs_State := obs_State (in_Host input); obs_ObservedAt := obs_ObservedAt (in_Host input);
          obs_Reason := obs_Reason (in_Host input) |};
     Prior := Prior input |}.

Definition outlasting (input : Input) : list Instance_ :=
  List.filter (fun i => negb (bool_decide (inst_Platform i = PlatformLinux))) (instancesOf input).

Definition FitsOnceLinuxDrains (input : Input) (profile : ProfileID) : bool :=
  match Profiles (in_Config input) !! profile with
  | None => true
  | Some definition =>
      if negb (bool_decide (profile_Platform definition = PlatformLinux)) then true
      else
        let free := freeCapacity (drainedHost input) (outlasting input) true in
        let '(_, macos) := partition (normalizedDemands input) in
        CanFit (fold_left exhaust (queuedVectors (in_Config input) (instancesOf input) macos) free)
          (profile_Resources definition)
  end.

(** ** What the division of the residual promises

    Everything the scale sets are offered beyond what they hold could start at
    once, together with everything already queued; no unit that could still be
    offered is kept back; and work that is known to wait comes before any
    speculative share. *)

(** ** The envelope is never negative *)

Lemma physicalBound_nonneg c t l : 0 <= c -> 0 <= physicalBound c t l.
Proof. unfold physicalBound. destruct (t <=? 0); lia. Qed.

Lemma chargeAll_nonneg charged free l free' :
  nonneg_instances l -> nonneg free -> in_range free -> chargeAll charged free l = Some free' -> nonneg free'.
Proof.
  intros Hl. revert free. induction Hl as [|i l Hi Hl IH]; intros free Hf Hr; simpl; [by intros [= <-]|].
  destruct (charged i); [|by apply IH]. destruct (Sub free (inst_Resources i)) as [f []] eqn:E; [|done].
  destruct (Sub_exact _ _ _ Hi Hr E) as [Hle Hf']. apply IH; rewrite <- Hf' in *; vec.
Qed.

Lemma freeCapacity_nonneg input l aged :
  sane input l -> nonneg (host_Available (obs_Value (in_Host input))) -> nonneg (freeCapacity input l aged).
Proof.
  intros S Ha. destruct (sane_held _ _ S) as [_ Hc]. pose proof (sane_capacity _ _ S) as Hn.
  assert (forall free, nonneg free -> nonneg (budgetBound free (HostBudget (in_Config input)) (liveResources l))) as Hb
    by (intros free (?&?&?); repeat split; simpl; by apply physicalBound_nonneg).
  apply Hb. destruct (ElasticHostEnvelope (in_Config input)).
  - unfold elasticFree. destruct (chargeAll _ _ _) as [f|] eqn:E; [|vec].
    apply chargeAll_nonneg in E as (?&?&?); [|apply S|done..]. unfold nonneg, vle in *. simpl in *.
    destruct aged; simpl; repeat split; apply Z.min_glb; try (by apply physicalBound_nonneg); lia.
  - unfold staticFree. destruct (chargeAll _ _ _) as [f|] eqn:E; [|vec].
    apply chargeAll_nonneg in E; [|apply S|done..]. vec.
Qed.

(** ** Charging one dimension at a time *)

Lemma max_sub64 a b : 0 <= a -> 0 <= b -> a <= maxInt64 -> b <= maxInt64 -> Z.max 0 (sub64 a b) = Z.max 0 (a - b).
Proof.
  intros. assert (sub64 a b = a - b) as ->; [|done].
  apply wrap64_id. unfold int64, minInt64, maxInt64 in *. lia.
Qed.

Lemma exhaust_exact free owed :
  nonneg free -> nonneg owed -> in_range free -> in_range owed ->
  exhaust free owed = {| CPU := Z.max 0 (CPU free - CPU owed); MemoryMB := Z.max 0 (MemoryMB free - MemoryMB owed);
                         Slots := Z.max 0 (Slots free - Slots owed) |}.
Proof. intros (?&?&?) (?&?&?) (?&?&?) (?&?&?). unfold exhaust. simpl in *. by rewrite !max_sub64. Qed.

Definition chargeable (v : Resources) : Prop := nonneg v /\ in_range v.

(** Charging a list is charging its sum. *)
Lemma exhaust_all vs : forall free, chargeable free -> Forall chargeable vs ->
  fold_left exhaust vs free =
  {| CPU := Z.max 0 (CPU free - CPU (vsum vs)); MemoryMB := Z.max 0 (MemoryMB free - MemoryMB (vsum vs));
     Slots := Z.max 0 (Slots free - Slots (vsum vs)) |}.
Proof.
  induction vs as [|v vs IH]; intros free [Hn Hr] Hvs; simpl.
  { destruct free. unfold nonneg, vle in Hn. simpl in *. f_equal; lia. }
  inversion_clear Hvs as [|? ? [Hv Hvr] Hvs']. pose proof (vsum_nonneg vs) as Hs.
  assert (nonneg (vsum vs)) as (?&?&?) by (apply Hs; eapply Forall_impl; [exact Hvs'|]; by intros ? []).
  rewrite exhaust_exact by done. rewrite IH; [|unfold chargeable; vec|done]. simpl in *. f_equal; lia.
Qed.

(** What fits after the charge fits beside what was charged. *)
Lemma exhausted_fits vs free v :
  chargeable free -> Forall chargeable vs -> positive v -> vle v (fold_left exhaust vs free) -> vle (vadd (vsum vs) v) free.
Proof.
  intros Hf Hvs (?&?&?). rewrite exhaust_all by done. unfold vle. simpl. lia.
Qed.

(** ** Vectors that add up *)

Lemma vadd_cancel free used v base : vadd free used = base -> vle (vadd used v) base <-> vle v free.
Proof. intros <-. unfold vle, vadd. simpl. lia. Qed.

Lemma vadd_range free used base : vadd free used = base -> nonneg used -> in_range base -> in_range free.
Proof. intros <-. vec. Qed.

Lemma exhaust_moves free used v base :
  vadd free used = base -> positive v -> in_range v -> in_range free -> vle v free ->
  vadd (exhaust free v) (vadd used v) = base.
Proof.
  intros <- Hp Hr Hf Hv. unfold positive in Hp. rewrite exhaust_exact by (try vec). unfold vle in Hv. unfold vadd. simpl. f_equal; lia.
Qed.

(** ** Sums over the shares *)

(** [f] of every claim and its share, added up. *)
Definition tally (f : Claim -> Z -> Z) (claims : list Claim) (shares : list Z) : Z :=
  foldr Z.add 0 (zip_with f claims shares).

Lemma tally_alter f g claims : forall shares i claim share,
  claims !! i = Some claim -> shares !! i = Some share ->
  tally f claims (alter g i shares) = tally f claims shares + (f claim (g share) - f claim share).
Proof.
  unfold tally. induction claims as [|c claims IH]; intros [|s shares] [|i] claim share; try done.
  - intros [= ->] [= ->]. simpl. lia.
  - intros Hc Hs. change (alter g (S i) (s :: shares)) with (s :: alter g i shares). cbn [zip_with foldr].
    rewrite (IH shares i claim share) by done. lia.
Qed.

Lemma tally_le f f' claims : forall shares shares', length shares = length shares' ->
  (forall i claim share share', claims !! i = Some claim -> shares !! i = Some share -> shares' !! i = Some share' ->
    f claim share <= f' claim share') ->
  tally f claims shares <= tally f' claims shares'.
Proof.
  unfold tally. induction claims as [|c claims IH]; intros [|s shares] [|s' shares'] Hl H; simpl; try done.
  pose proof (H O c s s' eq_refl eq_refl eq_refl).
  assert (foldr Z.add 0 (zip_with f claims shares) <= foldr Z.add 0 (zip_with f' claims shares')).
  { apply IH; [by injection Hl|]. intros i. apply (H (S i)). } lia.
Qed.

Lemma tally_mono f f' claims shares :
  (forall i claim share, claims !! i = Some claim -> shares !! i = Some share -> f claim share <= f' claim share) ->
  tally f claims shares <= tally f' claims shares.
Proof. intros H. apply tally_le; [done|]. intros i claim share share' Hc Hs Hs'. rewrite Hs in Hs'. injection Hs' as <-. by eapply H. Qed.

Lemma tally_nonneg f claims : forall shares,
  (forall i claim share, claims !! i = Some claim -> shares !! i = Some share -> 0 <= f claim share) -> 0 <= tally f claims shares.
Proof.
  unfold tally. induction claims as [|c claims IH]; intros [|s shares] H; simpl; try lia.
  pose proof (H O c s eq_refl eq_refl). pose proof (IH shares (fun i => H (S i))). lia.
Qed.

(** One term is at most the sum of terms that are not negative. *)
Lemma tally_term f claims : forall shares i claim share,
  (forall i claim share, claims !! i = Some claim -> shares !! i = Some share -> 0 <= f claim share) ->
  claims !! i = Some claim -> shares !! i = Some share -> f claim share <= tally f claims shares.
Proof.
  induction claims as [|c claims IH]; intros [|s shares] [|i] claim share H; simpl; try done.
  - intros [= ->] [= ->]. pose proof (tally_nonneg f claims shares (fun i => H (S i))). unfold tally in *. simpl. lia.
  - intros Hc Hs. pose proof (H O c s eq_refl eq_refl). specialize (IH _ _ _ _ (fun i => H (S i)) Hc Hs). unfold tally in *. simpl. lia.
Qed.

Section Offers.
Variable input : Input.
Variable claims : list Claim.

Definition vectorOf (claim : Claim) : Resources := profile_Resources (definitionOf input claim).

(** What a share offers: nothing where the claim has no size. *)
Definition units (share : Z) : Z := Z.max 0 share.

Definition offered (shares : list Z) : Resources :=
  {| CPU := tally (fun c s => units s * CPU (vectorOf c)) claims shares;
     MemoryMB := tally (fun c s => units s * MemoryMB (vectorOf c)) claims shares;
     Slots := tally (fun c s => units s * Slots (vectorOf c)) claims shares |}.

Definition offeredTo (profile : ProfileID) (shares : list Z) : Z :=
  tally (fun c s => if bool_decide (claim_Profile c = profile) then units s else 0) claims shares.

(** One more instance of the claim could be offered beside [shares]. *)
Definition roomFor (waiting : list Demand) (shares : list Z) (claim : Claim) : Prop :=
  vle (vadd (offered shares) (vectorOf claim)) (residual input waiting) /\
  (profile_Platform (definitionOf input claim) = PlatformMacOS ->
   offeredTo (claim_Profile claim) shares < cohortRoom input waiting claim).

Definition isMac (claim : Claim) : bool := bool_decide (profile_Platform (definitionOf input claim) = PlatformMacOS).

(** The state of the two passes while no share exceeds [limit]. *)
Record Dividing (waiting : list Demand) (limit : Claim -> Z) (d : Division) : Prop := {
  dv_length : length (div_shares d) = length claims;
  dv_shares : forall i claim share, claims !! i = Some claim -> div_shares d !! i = Some share ->
    if unsizable input claim then share = Unsized else 0 <= share <= Z.max 0 (limit claim);
  dv_free : vadd (div_free d) (offered (div_shares d)) = residual input waiting;
  dv_cohort : forall i claim, claims !! i = Some claim -> unsizable input claim = false -> isMac claim = true ->
    div_cohort d !! claim_Profile claim
      = Some (cohortRoom input waiting claim - offeredTo (claim_Profile claim) (div_shares d)) /\
    offeredTo (claim_Profile claim) (div_shares d) <= cohortRoom input waiting claim
}.

(** The profiles have positive vectors, and the quantities are machine integers. *)
Hypothesis profiles : forall id p, Profiles (in_Config input) !! id = Some p ->
  positive (profile_Resources p) /\ in_range (profile_Resources p).
Hypothesis rooms : forall i claim, claims !! i = Some claim -> claim_Room claim <= maxInt64.

Lemma sized_vector claim : unsizable input claim = false -> positive (vectorOf claim) /\ in_range (vectorOf claim).
Proof.
  unfold unsizable, vectorOf, definitionOf, profileOf.
  destruct (Profiles (in_Config input) !! claim_Profile claim) as [p|] eqn:E; [|done]. intros _. by apply profiles in E.
Qed.

Lemma units_alter share : 0 <= share < maxInt64 -> units (add64 share 1) = units share + 1.
Proof. intros H. unfold units. rewrite add64_exact; [lia|]. unfold int64, minInt64, maxInt64 in *. lia. Qed.

Lemma offered_alter shares i claim share :
  claims !! i = Some claim -> shares !! i = Some share -> 0 <= share < maxInt64 ->
  offered (alter (fun s => add64 s 1) i shares) = vadd (offered shares) (vectorOf claim).
Proof.
  intros Hc Hs Hr. unfold offered, vadd. simpl.
  rewrite !(tally_alter _ _ _ _ _ _ _ Hc Hs), (units_alter _ Hr). f_equal; lia.
Qed.

Lemma offeredTo_alter profile shares i claim share :
  claims !! i = Some claim -> shares !! i = Some share -> 0 <= share < maxInt64 ->
  offeredTo profile (alter (fun s => add64 s 1) i shares)
    = offeredTo profile shares + (if bool_decide (claim_Profile claim = profile) then 1 else 0).
Proof.
  intros Hc Hs Hr. unfold offeredTo. rewrite (tally_alter _ _ _ _ _ _ _ Hc Hs), (units_alter _ Hr).
  case_bool_decide; lia.
Qed.

Lemma offered_nonneg shares :
  length shares = length claims ->
  (forall i claim share, claims !! i = Some claim -> shares !! i = Some share -> unsizable input claim = true -> units share = 0) ->
  nonneg (offered shares).
Proof.
  intros _ Hu. assert (forall f, (forall claim, unsizable input claim = false -> 0 <= f (vectorOf claim)) ->
    0 <= tally (fun c s => units s * f (vectorOf c)) claims shares) as Ht.
  { intros f Hf. apply tally_nonneg. intros i claim share Hc Hs. destruct (unsizable input claim) eqn:U.
    - rewrite (Hu _ _ _ Hc Hs U). lia.
    - specialize (Hf claim U). unfold units. nia. }
  repeat split; simpl; apply Ht; intros claim U; destruct (sized_vector _ U) as [(?&?&?) _]; lia.
Qed.

Lemma offeredTo_nonneg profile shares : 0 <= offeredTo profile shares.
Proof. apply tally_nonneg. intros. unfold units. case_bool_decide; lia. Qed.

Section Passes.
Variable waiting : list Demand.
Hypothesis roomy_ : in_range (residual input waiting).

Abbreviation Dividing_ := (Dividing waiting).

Lemma Dividing_offered limit d : Dividing_ limit d -> nonneg (offered (div_shares d)).
Proof.
  intros D. apply offered_nonneg; [apply D|]. intros i claim share Hc Hs U.
  pose proof (dv_shares _ _ _ D _ _ _ Hc Hs) as H. rewrite U in H. by subst.
Qed.

Lemma Dividing_range limit d : Dividing_ limit d -> in_range (div_free d).
Proof. intros D. eapply vadd_range; [apply D|by eapply Dividing_offered|done]. Qed.

Lemma Dividing_weaken limit limit' d :
  (forall i claim, claims !! i = Some claim -> limit claim <= limit' claim) -> Dividing_ limit d -> Dividing_ limit' d.
Proof.
  intros Hl D. split; try apply D. intros i claim share Hc Hs. pose proof (dv_shares _ _ _ D _ _ _ Hc Hs) as H.
  destruct (unsizable input claim); [done|]. specialize (Hl _ _ Hc). lia.
Qed.

(** A refusal of [grant] means that no further instance has room. *)
Lemma grant_refused limit d i claim :
  Dividing_ limit d -> claims !! i = Some claim -> unsizable input claim = false ->
  grant input d i claim = None -> ~ roomFor waiting (div_shares d) claim.
Proof.
  intros D Hc U Hg [Hv Hm]. unfold grant in Hg. fold (vectorOf claim) in Hg.
  apply (vadd_cancel _ _ _ _ (dv_free _ _ _ D)), CanFit_spec in Hv. rewrite Hv in Hg. simpl in Hg.
  case_bool_decide as Hp; [|done]. simpl in Hg.
  destruct (dv_cohort _ _ _ D _ _ Hc U) as [Ec _]; [by apply bool_decide_eq_true|]. rewrite Ec in Hg. simpl in Hg.
  specialize (Hm Hp). destruct (Z.eqb_spec (cohortRoom input waiting claim - offeredTo (claim_Profile claim) (div_shares d)) 0); [lia|done].
Qed.

Lemma same_profile claim claim' :
  claim_Profile claim = claim_Profile claim' ->
  definitionOf input claim = definitionOf input claim' /\ cohortRoom input waiting claim = cohortRoom input waiting claim'.
Proof. intros E. unfold cohortRoom, definitionOf. by rewrite E. Qed.

Lemma cohortRoom_range claim : 0 <= cohortRoom input waiting claim <= maxInt64.
Proof.
  unfold cohortRoom. pose proof (wrap64_int64 (macProfileLimit (definitionOf input claim) - cohortSize input (claim_Profile claim) waiting)) as H.
  unfold sub64. unfold int64 in H. unfold maxInt64 in *. lia.
Qed.

(** What [grant] does to the cohorts. *)
Lemma grant_cohort limit d i claim share j c :
  Dividing_ limit d -> claims !! i = Some claim -> div_shares d !! i = Some share -> 0 <= share < maxInt64 ->
  isMac claim && (default 0 (div_cohort d !! claim_Profile claim) =? 0) = false ->
  claims !! j = Some c -> unsizable input c = false -> isMac c = true ->
  (if isMac claim then <[claim_Profile claim := sub64 (default 0 (div_cohort d !! claim_Profile claim)) 1]> (div_cohort d) else div_cohort d)
    !! claim_Profile c
    = Some (cohortRoom input waiting c - offeredTo (claim_Profile c) (alter (fun s => add64 s 1) i (div_shares d))) /\
  offeredTo (claim_Profile c) (alter (fun s => add64 s 1) i (div_shares d)) <= cohortRoom input waiting c.
Proof.
  intros D Hc Hs Hsr Hz Hcj Uc Hmc. rewrite (offeredTo_alter _ _ _ _ _ Hc Hs Hsr).
  destruct (dv_cohort _ _ _ D _ _ Hcj Uc Hmc) as [Ec Hle].
  destruct (decide (claim_Profile claim = claim_Profile c)) as [E|Hne].
  - rewrite bool_decide_eq_true_2 by done. unfold isMac in *. destruct (same_profile _ _ E) as [Ed Er].
    rewrite Ed, Hmc, E, Ec in *. cbn [andb default from_option] in *. apply Z.eqb_neq in Hz. rewrite lookup_insert_eq.
    pose proof (cohortRoom_range c). pose proof (offeredTo_nonneg (claim_Profile c) (div_shares d)).
    unfold id in *. rewrite sub64_exact by lia. split; [f_equal; lia|lia].
  - rewrite bool_decide_eq_false_2 by done. rewrite Z.add_0_r. split; [|done].
    destruct (isMac claim); [by rewrite lookup_insert_ne|done].
Qed.

Lemma grant_given limit d d' i claim share :
  (forall j c, claims !! j = Some c -> limit c <= maxInt64) -> Dividing_ limit d ->
  claims !! i = Some claim -> div_shares d !! i = Some share ->
  unsizable input claim = false -> share < limit claim -> grant input d i claim = Some d' ->
  Dividing_ limit d' /\ div_shares d' = alter (fun s => add64 s 1) i (div_shares d).
Proof.
  intros HM D Hc Hs U Hl Hg. unfold grant in Hg. fold (vectorOf claim) (isMac claim) in Hg. destruct (sized_vector _ U) as [Hp Hr].
  pose proof (dv_shares _ _ _ D _ _ _ Hc Hs) as Hb. rewrite U in Hb. specialize (HM _ _ Hc).
  assert (0 <= share < maxInt64) as Hsr by lia.
  destruct (CanFit (div_free d) (vectorOf claim)) eqn:Hf; [|done]. simpl in Hg. apply CanFit_spec in Hf.
  destruct (isMac claim && _) eqn:Hz; [done|]. injection Hg as <-. split; [|done].
  split; cbn [div_shares div_free div_cohort].
  - rewrite length_alter. apply D.
  - intros j c s Hcj Hsj. destruct (decide (j = i)) as [->|Hne].
    + rewrite list_lookup_alter_eq, Hs in Hsj. injection Hsj as <-. rewrite Hc in Hcj. injection Hcj as <-. rewrite U.
      rewrite add64_exact by (unfold int64, minInt64, maxInt64 in *; lia). lia.
    + rewrite list_lookup_alter_ne in Hsj by done. by apply (dv_shares _ _ _ D _ _ _ Hcj).
  - rewrite (offered_alter _ _ _ _ Hc Hs Hsr). apply exhaust_moves; [apply D|done|done|by eapply Dividing_range|done].
  - intros j c Hcj Uc Hmc. by eapply grant_cohort.
Qed.

Lemma grant_room limit d d' i claim :
  Dividing_ limit d -> claims !! i = Some claim -> unsizable input claim = false -> grant input d i claim = Some d' ->
  roomFor waiting (div_shares d) claim.
Proof.
  intros D Hc U Hg. unfold grant in Hg. fold (vectorOf claim) (isMac claim) in Hg.
  destruct (CanFit (div_free d) (vectorOf claim)) eqn:Hf; [|done]. simpl in Hg. apply CanFit_spec in Hf. split.
  - by apply (vadd_cancel _ _ _ _ (dv_free _ _ _ D)).
  - intros Hm. assert (isMac claim = true) as Hi by (by apply bool_decide_eq_true).
    destruct (dv_cohort _ _ _ D _ _ Hc U Hi) as [Ec Hle]. rewrite Hi, Ec in Hg. simpl in Hg.
    destruct (Z.eqb_spec (cohortRoom input waiting claim - offeredTo (claim_Profile claim) (div_shares d)) 0); [done|lia].
Qed.

(** ** Shares only grow *)

Definition Later (shares shares' : list Z) : Prop :=
  length shares = length shares' /\
  forall i share share', shares !! i = Some share -> shares' !! i = Some share' -> share <= share'.

Lemma Later_refl shares : Later shares shares.
Proof. split; [done|]. intros i s s' Hs Hs'. rewrite Hs in Hs'. injection Hs' as <-. lia. Qed.

Lemma Later_trans s1 s2 s3 : Later s1 s2 -> Later s2 s3 -> Later s1 s3.
Proof.
  intros [L1 H1] [L2 H2]. split; [congruence|]. intros i a c Ha Hc.
  assert (is_Some (s2 !! i)) as [b Hb] by (apply lookup_lt_is_Some; rewrite <- L1; by eapply lookup_lt_Some).
  specialize (H1 _ _ _ Ha Hb). specialize (H2 _ _ _ Hb Hc). lia.
Qed.

Lemma Later_alter shares i share :
  shares !! i = Some share -> 0 <= share < maxInt64 -> Later shares (alter (fun s => add64 s 1) i shares).
Proof.
  intros Hs Hr. split; [by rewrite length_alter|]. intros j a b Ha Hb. destruct (decide (j = i)) as [->|Hne].
  - rewrite list_lookup_alter_eq, Ha in Hb. injection Hb as <-. rewrite Hs in Ha. injection Ha as <-.
    rewrite add64_exact by (unfold int64, minInt64, maxInt64 in *; lia). lia.
  - rewrite list_lookup_alter_ne in Hb by done. rewrite Ha in Hb. injection Hb as <-. lia.
Qed.

(** Room for one more only shrinks. *)
Lemma roomFor_earlier limit d shares claim :
  Dividing_ limit d -> Later shares (div_shares d) -> (forall i c s, claims !! i = Some c -> shares !! i = Some s ->
    unsizable input c = true -> s = Unsized) ->
  roomFor waiting (div_shares d) claim -> roomFor waiting shares claim.
Proof.
  intros D [Ll HL] Hu [Hv Hm]. split.
  - etransitivity; [|exact Hv]. assert (forall f, (forall c, unsizable input c = false -> 0 <= f (vectorOf c)) ->
      tally (fun c s => units s * f (vectorOf c)) claims shares <= tally (fun c s => units s * f (vectorOf c)) claims (div_shares d)) as Ht.
    { intros f Hf. apply tally_le; [done|]. intros i c s s' Hc Hs Hs'. specialize (HL _ _ _ Hs Hs').
      destruct (unsizable input c) eqn:U.
      - pose proof (dv_shares _ _ _ D _ _ _ Hc Hs') as E. rewrite U in E. rewrite (Hu _ _ _ Hc Hs U), E. lia.
      - specialize (Hf c U). unfold units. nia. }
    assert (vle (offered shares) (offered (div_shares d))) as Hle
      by (repeat split; simpl; apply Ht; intros c U; destruct (sized_vector _ U) as [(?&?&?) _]; lia).
    revert Hle. unfold vle, vadd. simpl. lia.
  - intros Hp. specialize (Hm Hp). assert (offeredTo (claim_Profile claim) shares <= offeredTo (claim_Profile claim) (div_shares d)).
    { apply tally_le; [done|]. intros i c s s' Hc Hs Hs'. specialize (HL _ _ _ Hs Hs'). unfold units. case_bool_decide; lia. } lia.
Qed.

(** ** One pass *)

Section Pass.
Variable limit : Claim -> Z.
Hypothesis limits : forall i claim, claims !! i = Some claim -> limit claim <= maxInt64.

(** A sized claim below its limit at position [i] has no room for one more. *)
Definition satisfied (d : Division) (i : nat) : Prop :=
  forall claim share, claims !! i = Some claim -> div_shares d !! i = Some share -> unsizable input claim = false ->
    share < limit claim -> ~ roomFor waiting (div_shares d) claim.

(** What granting to [claim] at position [i] does. *)
Definition grants (d d' : Division) : Prop :=
  exists i claim share, claims !! i = Some claim /\ div_shares d !! i = Some share /\ unsizable input claim = false /\
    0 <= share < limit claim /\ roomFor waiting (div_shares d) claim /\
    div_shares d' = alter (fun s => add64 s 1) i (div_shares d).

(** Units the limits still allow. *)
Definition headway (d : Division) : Z := tally (fun c s => Z.max 0 (limit c - units s)) claims (div_shares d).

Lemma offer_step d g i :
  Dividing_ limit d ->
  (offer input claims limit (d, g) i = (d, g) /\ satisfied d i) \/
  (exists d', offer input claims limit (d, g) i = (d', true) /\ Dividing_ limit d' /\ grants d d').
Proof.
  intros D. unfold offer. destruct (claims !! i) as [claim|] eqn:Hc; [|left; split; [done|intros c s E; congruence]].
  assert (is_Some (div_shares d !! i)) as [share Hs].
  { apply lookup_lt_is_Some. rewrite (dv_length _ _ _ D). by eapply lookup_lt_Some. }
  rewrite Hs. pose proof (dv_shares _ _ _ D _ _ _ Hc Hs) as Hb. destruct (unsizable input claim) eqn:U.
  { subst share. left. split; [done|]. intros c s Hc' _ U' _. congruence. }
  assert ((share =? Unsized) = false) as -> by (apply Z.eqb_neq; unfold Unsized; lia). simpl.
  destruct (Z.ltb_spec share (limit claim)) as [Hl|Hl].
  2: { left. split; [done|]. intros c s Hc' Hs' _ Hlt. rewrite Hc in Hc'. rewrite Hs in Hs'. simplify_eq. lia. }
  destruct (grant input d i claim) as [d'|] eqn:Hg.
  - right. exists d'. split; [done|]. destruct (grant_given limit d d' i claim share) as [D' E]; [done..|]. split; [done|].
    exists i, claim, share. split_and!; try done; [lia|by eapply grant_room].
  - left. split; [done|]. intros c s Hc' Hs' _ _. rewrite Hc in Hc'. injection Hc' as <-. by eapply grant_refused.
Qed.

Lemma grants_later d d' : Dividing_ limit d -> grants d d' -> Later (div_shares d) (div_shares d').
Proof.
  intros D (i & claim & share & Hc & Hs & _ & Hr & _ & ->). apply limits in Hc. eapply Later_alter; [exact Hs|lia].
Qed.

Lemma grants_headway d d' : Dividing_ limit d -> grants d d' -> headway d' < headway d.
Proof.
  intros D (i & claim & share & Hc & Hs & _ & Hr & _ & E). unfold headway. rewrite E.
  pose proof (limits _ _ Hc). rewrite (tally_alter _ _ _ _ _ _ _ Hc Hs), units_alter by lia. unfold units. lia.
Qed.

(** A property that every grant keeps holds after any number of positions. *)
Lemma offers_keep (P : Division -> Prop) l :
  (forall d d', Dividing_ limit d -> P d -> grants d d' -> P d') ->
  forall d g, Dividing_ limit d -> P d ->
  Dividing_ limit (fst (fold_left (offer input claims limit) l (d, g))) /\ P (fst (fold_left (offer input claims limit) l (d, g))).
Proof.
  intros HP. induction l as [|i l IH]; intros d g D Hd; cbn [fold_left]; [done|].
  destruct (offer_step d g i D) as [[E _]|(d' & E & D' & Hg)]; rewrite E; apply IH; try done. by apply (HP d).
Qed.

(** A round that grants nothing leaves every position satisfied. *)
Lemma offers_idle l : forall d g d', Dividing_ limit d -> fold_left (offer input claims limit) l (d, g) = (d', false) ->
  d' = d /\ g = false /\ forall i, In i l -> satisfied d i.
Proof.
  assert (forall l d, snd (fold_left (offer input claims limit) l (d, true)) = true) as Htrue.
  { clear. induction l as [|i l IH]; intros d; cbn [fold_left]; [done|]. unfold offer at 2.
    destruct (claims !! i), (div_shares d !! i); try apply IH. destruct (_ && _); [|apply IH]. destruct (grant _ _ _ _); apply IH. }
  induction l as [|i l IH]; intros d g d' D; cbn [fold_left]; [by intros [= -> ->]|].
  destruct (offer_step d g i D) as [[E Hs]|(d1 & E & D' & Hg)]; rewrite E.
  - intros H. destruct (IH _ _ _ D H) as (-> & -> & Hi). do 2 (split; [done|]). intros j [<-|Hj]; [done|by apply Hi].
  - intros H. pose proof (Htrue l d1) as Ht. by rewrite H in Ht.
Qed.

Lemma offers_headway l : forall d g, Dividing_ limit d ->
  let r := fold_left (offer input claims limit) l (d, g) in
  headway (fst r) <= headway d /\ (snd r = true -> g = true \/ headway (fst r) < headway d).
Proof.
  induction l as [|i l IH]; intros d g D; cbn [fold_left]; [split; [simpl; lia|by left]|].
  destruct (offer_step d g i D) as [[E _]|(d' & E & D' & Hg)]; rewrite E; [by apply IH|].
  destruct (IH d' true D') as [H1 _]. pose proof (grants_headway _ _ D Hg). split; [lia|]. right. lia.
Qed.

Lemma headway_bound d : Dividing_ limit d -> 0 <= headway d <= unitsUpTo claims limit.
Proof.
  intros D. pose proof (dv_length _ _ _ D) as Hl. unfold headway, unitsUpTo, tally, units. clear -Hl. revert Hl.
  generalize (div_shares d). induction claims as [|c l IH]; intros [|s shares] Hl; simpl in *; try lia; try done.
  injection Hl as Hl. specialize (IH _ Hl). lia.
Qed.

End Pass.

(** A round visits every position. *)
Lemma positions_all start i : 0 <= start -> (i < length claims)%nat -> In i (positions claims start).
Proof.
  intros Hs Hi. set (n := Z.of_nat (length claims)). assert (0 < n) by (unfold n; lia).
  unfold positions. fold n. apply in_map_iff. exists (Z.to_nat ((Z.of_nat i - start) mod n)).
  pose proof (Z.mod_pos_bound (Z.of_nat i - start) n ltac:(lia)) as Hb. split; [|apply in_seq; unfold n in *; lia].
  rewrite Z2Nat.id, Z.rem_mod_nonneg, Zplus_mod_idemp_r by lia.
  replace (start + (Z.of_nat i - start)) with (Z.of_nat i) by lia. rewrite Z.mod_small by (unfold n; lia). lia.
Qed.

(** A pass ends, keeps what every grant keeps, and leaves no claim below its
    limit that has room. *)
Lemma pass_ends limit start d (P : Division -> Prop) :
  (forall i claim, claims !! i = Some claim -> limit claim <= maxInt64) -> 0 <= start ->
  (forall d d', Dividing_ limit d -> P d -> grants limit d d' -> P d') -> Dividing_ limit d -> P d ->
  let d' := pass input claims limit start d in
  Dividing_ limit d' /\ P d' /\ forall i, satisfied limit d' i.
Proof.
  intros HM Hst HP D Hd. set (Q := fun d => Dividing_ limit d /\ P d).
  assert (forall s, Q s -> Q (fst (round input claims limit start s))) as HQ
    by (intros s [Ds Ps]; apply offers_keep; done).
  assert (snd (repeatWhile (round input claims limit start) (passFuel claims limit) d) = false) as Hstop.
  { apply (repeatWhile_stops _ Q (headway limit)); [|by split|].
    - intros s Hs. split; [by apply HQ|]. destruct Hs as [Ds _]. split; [by apply headway_bound|].
      intros Hg. destruct (offers_headway limit HM (positions claims start) s false Ds) as [_ Hlt].
      by destruct (Hlt Hg).
    - pose proof (headway_bound limit d D) as Hb. unfold passFuel. rewrite Z2Nat.id by apply Z.log2_up_nonneg.
      pose proof (Z.log2_up_le_pow2 (1 + unitsUpTo claims limit) (Z.log2_up (1 + unitsUpTo claims limit)) ltac:(lia)). lia. }
  unfold pass. destruct (repeatWhile _ _ d) as [d' g] eqn:E. simpl in Hstop. subst g.
  destruct (repeatWhile_last _ Q HQ _ _ _ (conj D Hd) E) as (d1 & [D1 P1] & Er).
  destruct (offers_idle limit HM _ _ _ _ D1 Er) as (-> & _ & Hsat). simpl. split; [done|]. split; [done|].
  intros i. destruct (claims !! i) as [claim|] eqn:Hc; [|intros c s Hc'; congruence].
  apply Hsat, positions_all; [done|]. by eapply lookup_lt_Some.
Qed.

(** ** The start *)

Lemma countCohort_keeps l : forall cohort p room,
  cohort !! p = Some room -> fold_left (countCohort input waiting) l cohort !! p = Some room.
Proof.
  induction l as [|c l IH]; intros cohort p room Hp; simpl; [done|]. apply IH. unfold countCohort.
  destruct (unsizable input c); [done|]. destruct (bool_decide (_ = PlatformMacOS)); [|done]. simpl.
  case_bool_decide as Hs; [done|]. simpl. rewrite lookup_insert_ne; [done|]. intros E. apply Hs. rewrite E. eauto.
Qed.

Lemma countCohort_counts l claim :
  In claim l -> unsizable input claim = false -> isMac claim = true -> forall cohort,
  (forall room, cohort !! claim_Profile claim = Some room -> room = cohortRoom input waiting claim) ->
  fold_left (countCohort input waiting) l cohort !! claim_Profile claim = Some (cohortRoom input waiting claim).
Proof.
  intros Hin U Hm. assert (forall c, claim_Profile c = claim_Profile claim ->
    unsizable input c = false /\ isMac c = true /\ cohortRoom input waiting c = cohortRoom input waiting claim) as Hsame.
  { intros c E. destruct (same_profile _ _ E) as [Ed Er]. unfold isMac, unsizable in *. rewrite Ed, E. done. }
  induction l as [|c l IH]; [done|]. intros cohort Hco. simpl.
  destruct (decide (claim_Profile c = claim_Profile claim)) as [E|Hne].
  - destruct (Hsame c E) as (Uc & Mc & Rc). apply countCohort_keeps. unfold countCohort. rewrite Uc. unfold isMac in Mc. rewrite Mc, E.
    cbn [andb]. destruct (cohort !! claim_Profile claim) as [room|] eqn:Hroom.
    + rewrite bool_decide_eq_true_2 by eauto. cbn [negb]. by rewrite Hroom, (Hco _ eq_refl).
    + rewrite bool_decide_eq_false_2 by (by intros []). cbn [negb]. by rewrite lookup_insert_eq, Rc.
  - destruct Hin as [->|Hin]; [done|]. apply IH; [done|]. intros room. unfold countCohort.
    destruct (unsizable input c); [apply Hco|]. destruct (_ && _); [|apply Hco]. rewrite lookup_insert_ne by done. apply Hco.
Qed.

Lemma tally_zero f : (forall c share, share <= 0 -> f c share = 0) -> tally f claims (div_shares (undivided input claims waiting)) = 0.
Proof.
  intros Hf. unfold undivided, tally. simpl. clear -Hf. induction claims as [|c l IH]; simpl; [done|].
  rewrite IH, Hf; [done|]. destruct (unsizable input c); unfold Unsized; lia.
Qed.

Lemma Dividing_undivided limit : Dividing_ limit (undivided input claims waiting).
Proof.
  split.
  - simpl. by rewrite length_map.
  - intros i claim share Hc. simpl. rewrite list_lookup_fmap, Hc. intros [= <-]. destruct (unsizable input claim); [done|lia].
  - unfold offered. rewrite !tally_zero by (intros; unfold units; lia). apply vadd_zero_r.
  - intros i claim Hc U Hm. unfold offeredTo. rewrite tally_zero by (intros; unfold units; case_bool_decide; lia).
    rewrite Z.sub_0_r. split; [|apply cohortRoom_range]. simpl. apply countCohort_counts; try done.
    by apply list_elem_of_In, list_elem_of_lookup; exists i.
Qed.

(** ** The two passes *)

(** What the first pass granted, read off the result. *)
Definition servedFirst (shares : list Z) : list Z := zip_with (fun c s => Z.min s (waitingLimit c)) claims shares.

Record Divided (shares : list Z) : Prop := {
  dd_length : length shares = length claims;
  dd_shares : forall i claim share, claims !! i = Some claim -> shares !! i = Some share ->
    if unsizable input claim then share = Unsized else 0 <= share <= Z.max 0 (claim_Room claim);
  dd_fits : vle (offered shares) (residual input waiting);
  dd_cohorts : forall i claim, claims !! i = Some claim -> unsizable input claim = false -> isMac claim = true ->
    offeredTo (claim_Profile claim) shares <= cohortRoom input waiting claim;
  dd_full : forall i claim share, claims !! i = Some claim -> shares !! i = Some share -> unsizable input claim = false ->
    share < claim_Room claim -> ~ roomFor waiting shares claim;
  dd_first : forall i claim share, claims !! i = Some claim -> shares !! i = Some share -> unsizable input claim = false ->
    share < waitingLimit claim -> ~ roomFor waiting (servedFirst shares) claim
}.

Lemma tally_units f shares shares' :
  length shares = length shares' ->
  (forall i c s s', claims !! i = Some c -> shares !! i = Some s -> shares' !! i = Some s' -> units s = units s') ->
  tally (fun c s => f c (units s)) claims shares = tally (fun c s => f c (units s)) claims shares'.
Proof.
  intros Hl H. apply Z.le_antisymm; apply tally_le; try done; intros i c s s' Hc Hs Hs'.
  - rewrite (H i c s s'); done || lia.
  - rewrite (H i c s' s); done || lia.
Qed.

Lemma roomFor_units shares shares' claim :
  length shares = length shares' ->
  (forall i c s s', claims !! i = Some c -> shares !! i = Some s -> shares' !! i = Some s' -> units s = units s') ->
  roomFor waiting shares claim -> roomFor waiting shares' claim.
Proof.
  intros Hl H [Hv Hm]. split.
  - unfold offered in *. rewrite <- (tally_units (fun c u => u * CPU (vectorOf c)) shares shares'),
      <- (tally_units (fun c u => u * MemoryMB (vectorOf c)) shares shares'),
      <- (tally_units (fun c u => u * Slots (vectorOf c)) shares shares') by done. done.
  - unfold offeredTo in *. by rewrite <- (tally_units (fun c u => if bool_decide (claim_Profile c = claim_Profile claim) then u else 0) shares shares').
Qed.

Lemma grants_fit limit d d' :
  (forall i claim, claims !! i = Some claim -> limit claim <= maxInt64) ->
  grants limit d d' -> vle (offered (div_shares d')) (residual input waiting).
Proof.
  intros HM (i & claim & share & Hc & Hs & U & Hr & [Hv _] & ->). specialize (HM _ _ Hc).
  rewrite (offered_alter _ _ _ _ Hc Hs) by lia. done.
Qed.

(** What the second pass keeps of the first. *)
Record Speculating (d1 d : Division) : Prop := {
  se_fits : vle (offered (div_shares d)) (residual input waiting);
  se_later : Later (div_shares d1) (div_shares d);
  se_full : forall i claim, claims !! i = Some claim -> unsizable input claim = false ->
    ~ roomFor waiting (div_shares d1) claim -> div_shares d !! i = div_shares d1 !! i
}.

Lemma Speculating_grants d1 d d' :
  Dividing_ waitingLimit d1 -> Dividing_ claim_Room d -> Speculating d1 d -> grants claim_Room d d' -> Speculating d1 d'.
Proof.
  intros D1 D [Hf Hl Hx] Hg. split; [by eapply grants_fit|eapply Later_trans; [exact Hl|by eapply grants_later]|].
  intros j c Hcj Uj Hno. destruct Hg as (i & claim & share & Hc & Hs & U & Hr & Hroom & E). rewrite E.
  destruct (decide (j = i)) as [->|Hne]; [|rewrite list_lookup_alter_ne by done; by apply (Hx j c)].
  destruct Hno. rewrite Hc in Hcj. injection Hcj as <-. apply (roomFor_earlier claim_Room d); try done.
  intros k c' s Hc' Hs' U'. pose proof (dv_shares _ _ _ D1 _ _ _ Hc' Hs') as H. by rewrite U' in H.
Qed.

Lemma servedFirst_units d1 d i c s s' :
  Dividing_ waitingLimit d1 -> (forall i, satisfied waitingLimit d1 i) -> Dividing_ claim_Room d -> Speculating d1 d ->
  claims !! i = Some c -> servedFirst (div_shares d) !! i = Some s -> div_shares d1 !! i = Some s' -> units s = units s'.
Proof.
  intros D1 Hsat D S Hc Hs Hs'. unfold servedFirst in Hs. apply lookup_zip_with_Some in Hs as (c' & s2 & -> & Hc' & H2).
  rewrite Hc in Hc'. injection Hc' as <-. pose proof (dv_shares _ _ _ D1 _ _ _ Hc Hs') as B1. pose proof (dv_shares _ _ _ D _ _ _ Hc H2) as B2.
  destruct (unsizable input c) eqn:U; [subst; unfold units, Unsized; lia|].
  pose proof (proj2 (se_later _ _ S) _ _ _ Hs' H2) as Hle. destruct (Z.lt_ge_cases s' (waitingLimit c)) as [Hlt|Hge].
  - pose proof (se_full _ _ S _ _ Hc U (Hsat i c s' Hc Hs' U Hlt)) as E. rewrite Hs', H2 in E. injection E as ->. unfold units. lia.
  - unfold units. lia.
Qed.

Lemma divided_correct start :
  nonneg (residual input waiting) -> 0 <= start ->
  Divided (div_shares (divided input claims start (undivided input claims waiting))).
Proof.
  intros Hn Hst. unfold divided. set (P1 := fun d => vle (offered (div_shares d)) (residual input waiting)).
  assert (forall i claim, claims !! i = Some claim -> waitingLimit claim <= maxInt64) as HM1
    by (intros i c Hc; specialize (rooms _ _ Hc); unfold waitingLimit; lia).
  destruct (pass_ends waitingLimit start (undivided input claims waiting) P1) as (D1 & F1 & S1); try done.
  { intros d d' _ _ Hg. by eapply grants_fit. }
  { apply Dividing_undivided. }
  { unfold P1, offered. rewrite !tally_zero by (intros; unfold units; lia). exact Hn. }
  set (d1 := pass input claims waitingLimit start (undivided input claims waiting)) in *.
  destruct (pass_ends claim_Room start d1 (Speculating d1)) as (D2 & F2 & S2); try done.
  { intros d d' D S Hg. by eapply Speculating_grants. }
  { eapply Dividing_weaken; [|exact D1]. intros i c _. unfold waitingLimit. lia. }
  { split; [done|apply Later_refl|done]. }
  set (d2 := pass input claims claim_Room start d1) in *. split.
  - apply D2.
  - apply D2.
  - apply F2.
  - intros i claim Hc U Hm. by apply (dv_cohort _ _ _ D2 i claim).
  - intros i claim share Hc Hs U Hl. by apply (S2 i claim share).
  - intros i claim share Hc Hs U Hl Hroom.
    assert (is_Some (div_shares d1 !! i)) as [s1 Hs1].
    { apply lookup_lt_is_Some. rewrite (dv_length _ _ _ D1). by eapply lookup_lt_Some. }
    pose proof (proj2 (se_later _ _ F2) _ _ _ Hs1 Hs). apply (S1 i claim s1); try done; [lia|].
    eapply roomFor_units; [| |exact Hroom].
    + unfold servedFirst. rewrite length_zip_with, (dv_length _ _ _ D1), (dv_length _ _ _ D2). lia.
    + intros k c s s'. by apply servedFirst_units.
Qed.

End Passes.
End Offers.

(** ** The node the division is made on *)

(** Positive profile vectors, and quantities that fit 64-bit sums. *)
Record divisible (input : Input) (claims : list Claim) : Prop := {
  di_sane : sane input (instancesOf input);
  di_available : nonneg (host_Available (obs_Value (in_Host input)));
  di_profiles : forall id p, Profiles (in_Config input) !! id = Some p ->
    positive (profile_Resources p) /\ in_range (profile_Resources p) /\ profile_MaxActive p <= maxInt64;
  di_rooms : forall i claim, claims !! i = Some claim -> claim_Room claim <= maxInt64;
  di_cohorts : forall profile, cohortSize input profile (normalizedDemands input) <= maxInt64
}.

Lemma queued_chargeable input claims demands :
  divisible input claims -> Forall chargeable (queuedVectors (in_Config input) (instancesOf input) demands).
Proof.
  intros D. unfold queuedVectors. induction demands as [|d demands IH]; simpl; [constructor|].
  destruct (Profiles (in_Config input) !! demand_Profile d) as [p|] eqn:E; [|done]. case_bool_decide; [done|].
  constructor; [|done]. destruct (di_profiles _ _ D _ _ E) as (Hp & Hr & _). split; [|done]. unfold positive in Hp. vec.
Qed.

Lemma envelope_chargeable input claims : divisible input claims -> chargeable (linuxFreeAged input).
Proof.
  intros D. split; [apply freeCapacity_nonneg; apply D|].
  pose proof (freeCapacity_le_capacity input (instancesOf input) true (di_sane _ _ D)) as Hle.
  destruct (sane_held _ _ (di_sane _ _ D)) as [_ Hc]. unfold linuxFreeAged. vec.
Qed.

Lemma residual_chargeable input claims : divisible input claims -> chargeable (residual input (normalizedDemands input)).
Proof.
  intros D. pose proof (envelope_chargeable _ _ D) as He. pose proof (queued_chargeable _ _ (normalizedDemands input) D) as Hq. unfold residual.
  rewrite exhaust_all by done. destruct He as [Hn Hr]. assert (nonneg (vsum (queuedVectors (in_Config input) (instancesOf input) (normalizedDemands input)))) as Hv.
  { apply vsum_nonneg. eapply Forall_impl; [exact Hq|]. by intros ? []. } 
  unfold chargeable, nonneg, in_range, vle, zeroResources, maxInt64 in *. simpl in *. lia.
Qed.

Lemma partition_divided input claims shares :
  divisible input claims -> PartitionHeadroom input claims = Some (Some shares) ->
  Divided input claims (normalizedDemands input) shares.
Proof.
  intros D. unfold PartitionHeadroom. destruct (_ || _ || _); [done|]. destruct (Z.ltb_spec (rotationStart input claims) 0); [done|].
  intros [= <-]. destruct (residual_chargeable _ _ D). apply divided_correct; try done; [|apply D].
  intros id p Hp. by destruct (di_profiles _ _ D _ _ Hp) as (? & ? & _).
Qed.

(** A claim that is offered something makes the whole offer positive. *)
Lemma offered_positive input claims shares i claim share :
  divisible input claims -> Divided input claims (normalizedDemands input) shares ->
  claims !! i = Some claim -> shares !! i = Some share -> 0 < share -> positive (offered input claims shares).
Proof.
  intros D V Hc Hs Hpos. assert (forall c, unsizable input c = false -> positive (vectorOf input c)) as Hvec.
  { intros c Uc. apply sized_vector; [|done]. intros id p Hp. by destruct (di_profiles _ _ D _ _ Hp) as (? & ? & _). }
  assert (forall j c s, claims !! j = Some c -> shares !! j = Some s -> 0 < units s -> unsizable input c = false) as HU.
  { intros j c s Hj Hsj. pose proof (dd_shares _ _ _ _ V _ _ _ Hj Hsj) as E. destruct (unsizable input c); [|done].
    subst. unfold units, Unsized. lia. }
  assert (unsizable input claim = false) as U by (apply (HU _ _ _ Hc Hs); unfold units; lia).
  assert (forall f, (forall c, unsizable input c = false -> 1 <= f (vectorOf input c)) ->
    1 <= tally (fun c s => units s * f (vectorOf input c)) claims shares) as Ht.
  { intros f Hf. transitivity (units share * f (vectorOf input claim)); [specialize (Hf _ U); unfold units; nia|].
    apply (tally_term (fun c s => units s * f (vectorOf input c)) claims shares i); try done.
    intros j c s Hj Hsj. destruct (Z.lt_ge_cases 0 (units s)) as [Hu|Hu].
    - specialize (Hf _ (HU _ _ _ Hj Hsj Hu)). nia.
    - unfold units in *. nia. }
  split_and!; simpl; apply Ht; intros c Uc; by destruct (Hvec c Uc) as (?&?&?).
Qed.

(** ** What the residual leaves room for *)

(** The node with [v] beside its live instances, within every bound. *)
Definition accommodates (input : Input) (instances : list Instance_) (v : Resources) : Prop :=
  within (HostBudget (in_Config input)) (vadd (held instances) v) /\
  if ElasticHostEnvelope (in_Config input)
  then vle (vadd (heldBy linuxCharge instances) v) (LinuxCapacity (in_Config input)) /\
       within (host_Capacity (obs_Value (in_Host input))) (vadd (held instances) v)
  else vle (vadd (held instances) v) (LinuxCapacity (in_Config input)).

(** Everything queued and offered together. *)
Definition committedWith (input : Input) (claims : list Claim) (shares : list Z) : Resources :=
  vadd (vsum (queuedVectors (in_Config input) (instancesOf input) (normalizedDemands input))) (offered input claims shares).

Lemma offers_accommodated input claims shares :
  divisible input claims -> PartitionHeadroom input claims = Some (Some shares) ->
  (exists i share, shares !! i = Some share /\ 0 < share) ->
  accommodates input (instancesOf input) (committedWith input claims shares).
Proof.
  intros D HP (i & share & Hs & Hpos). pose proof (partition_divided _ _ _ D HP) as V.
  assert (is_Some (claims !! i)) as [claim Hc]
    by (apply lookup_lt_is_Some; rewrite <- (dd_length _ _ _ _ V); by eapply lookup_lt_Some).
  pose proof (offered_positive _ _ _ _ _ _ D V Hc Hs Hpos) as Hop.
  pose proof (queued_chargeable _ _ (normalizedDemands input) D) as Hq. pose proof (envelope_chargeable _ _ D) as He.
  apply (freeCapacity_sound input (instancesOf input) true); [apply D| |].
  - assert (nonneg (vsum (queuedVectors (in_Config input) (instancesOf input) (normalizedDemands input)))) as Hn
      by (apply vsum_nonneg; eapply Forall_impl; [exact Hq|]; by intros ? []).
    revert Hop Hn. unfold positive, nonneg, vle, committedWith, vadd. simpl. lia.
  - apply exhausted_fits; try done. apply V.
Qed.

Lemma offers_within_cohort input claims shares i claim share :
  divisible input claims -> Divided input claims (normalizedDemands input) shares ->
  claims !! i = Some claim -> shares !! i = Some share -> 0 < share ->
  profile_Platform (definitionOf input claim) = PlatformMacOS ->
  cohortSize input (claim_Profile claim) (normalizedDemands input) + offeredTo claims (claim_Profile claim) shares
    <= macProfileLimit (definitionOf input claim).
Proof.
  intros D V Hc Hs Hpos Hm. assert (isMac input claim = true) as Hi by (by apply bool_decide_eq_true).
  pose proof (dd_shares _ _ _ _ V _ _ _ Hc Hs) as Hb. destruct (unsizable input claim) eqn:U; [subst; done|].
  pose proof (dd_cohorts _ _ _ _ V _ _ Hc U Hi) as Hle.
  assert (units share <= offeredTo claims (claim_Profile claim) shares) as Ht.
  { pose proof (tally_term (fun c s => if bool_decide (claim_Profile c = claim_Profile claim) then units s else 0) claims shares i claim share) as Ht.
    simpl in Ht. rewrite bool_decide_eq_true_2 in Ht by done. apply Ht; try done. intros. unfold units. case_bool_decide; lia. }
  assert (profile_MaxActive (definitionOf input claim) <= maxInt64).
  { unfold unsizable, definitionOf, profileOf in *. destruct (Profiles (in_Config input) !! claim_Profile claim) as [p|] eqn:E; [|done].
    by apply (di_profiles _ _ D) in E as (_ & _ & ?). }
  pose proof (di_cohorts _ _ D (claim_Profile claim)). unfold cohortRoom, sub64 in Hle. rewrite wrap64_id in Hle.
  - unfold units in *. lia.
  - assert (0 <= cohortSize input (claim_Profile claim) (normalizedDemands input)) by (unfold cohortSize; lia).
    unfold macProfileLimit, int64, minInt64, maxInt64 in *. destruct (_ <=? 0) eqn:?; bool_to_prop; lia.
Qed.

(** ** The claims *)

(** C12: what the scale sets are offered beyond what they hold could all start at once: with everything
    live and everything queued it stays within the operator's budget and the node's envelope, no set is
    offered more than its room, and no macOS profile more instances than its limit leaves. *)
Theorem offers_could_all_start (input : Input) (claims : list Claim) (shares : list Z) :
  divisible input claims -> PartitionHeadroom input claims = Some (Some shares) ->
  length shares = length claims /\
  (forall i claim share, claims !! i = Some claim -> shares !! i = Some share -> 0 < share ->
    share <= claim_Room claim /\
    accommodates input (instancesOf input) (committedWith input claims shares) /\
    (profile_Platform (definitionOf input claim) = PlatformMacOS ->
      cohortSize input (claim_Profile claim) (normalizedDemands input) + offeredTo claims (claim_Profile claim) shares
        <= macProfileLimit (definitionOf input claim))).
Proof.
  intros D HP. pose proof (partition_divided _ _ _ D HP) as V. split; [apply V|]. intros i claim share Hc Hs Hpos. split.
  { pose proof (dd_shares _ _ _ _ V _ _ _ Hc Hs) as Hb. destruct (unsizable input claim); [subst; done|lia]. }
  split; [apply offers_accommodated; eauto|by eapply offers_within_cohort].
Qed.

(** The division always ends, and it keeps nothing back: a set below its room could not be offered one
    more instance beside what the others were offered, and a set that is offered less than the work waiting
    for it could not be offered one more even before any share beyond waiting work was handed out. *)
Theorem offers_leave_nothing_over (input : Input) (claims : list Claim) :
  divisible input claims -> Usable (in_Demands input) = true -> Usable (in_Instances input) = true ->
  Usable (in_Host input) = true -> 0 <= Unix (Now input) ->
  exists shares, PartitionHeadroom input claims = Some (Some shares) /\
    forall i claim share, claims !! i = Some claim -> shares !! i = Some share ->
      (unsizable input claim = true /\ share = Unsized) \/
      (unsizable input claim = false /\ 0 <= share /\
       (share < claim_Room claim -> ~ roomFor input claims (normalizedDemands input) shares claim) /\
       (share < waitingLimit claim ->
         ~ roomFor input claims (normalizedDemands input) (servedFirst claims shares) claim)).
Proof.
  intros D H1 H2 H3 Hn. assert (0 <= rotationStart input claims) as Hr.
  { unfold rotationStart. destruct claims as [|c l]; [lia|]. apply Z.rem_nonneg; [simpl; lia|]. by apply Z.quot_pos. }
  assert (exists shares, PartitionHeadroom input claims = Some (Some shares)) as [shares HP].
  { unfold PartitionHeadroom. rewrite H1, H2, H3. simpl. destruct (Z.ltb_spec (rotationStart input claims) 0); [lia|eauto]. }
  exists shares. split; [done|]. pose proof (partition_divided _ _ _ D HP) as V. intros i claim share Hc Hs.
  pose proof (dd_shares _ _ _ _ V _ _ _ Hc Hs) as Hb. destruct (unsizable input claim) eqn:U; [by left|right].
  split; [done|]. split; [lia|]. split; intros Hl; [by eapply (dd_full _ _ _ _ V)|by eapply (dd_first _ _ _ _ V)].
Qed.

(** ** A node with three scale sets *)

Module Offers.
Import Node.

(** Half a slot of the rotation after 1970. *)
Definition instant : Time := (unixToInternal + 15) * Second.

Definition node (demands : list Demand) (instances : list Instance_) : Input :=
  {| Now := instant; in_Config := config; in_Demands := Fresh demands instant;
     in_Instances := Fresh instances instant; in_Host := Fresh host instant; Prior := zeroState |}.

Definition three : list Claim :=
  [{| claim_Profile := "small"; claim_Room := 4; claim_Waiting := 0 |};
   {| claim_Profile := "large"; claim_Room := 1; claim_Waiting := 0 |};
   {| claim_Profile := "small"; claim_Room := maxInt64; claim_Waiting := 2 |};
   {| claim_Profile := "other"; claim_Room := 1; claim_Waiting := 1 |}].

(** Eight cores and four slots, of which a running job holds two cores and one
    slot and a queued job is owed as much. *)
Definition busy : Input :=
  node [linuxDemand "acme/app" 2 (50 * Minute)]
    [instance "i1" "acme/lib" 9 PlatformLinux "small" (vec 2 2048 1) InstanceRunning].

Lemma profiles_ok id p : profiles !! id = Some p ->
  positive (profile_Resources p) /\ in_range (profile_Resources p) /\ profile_MaxActive p <= maxInt64.
Proof.
  unfold profiles. intros [[_ <-]|[_ [[_ <-]|[_ [[_ <-]|[_ E]]%lookup_insert_Some]]%lookup_insert_Some]]%lookup_insert_Some;
    [vm_compute; intuition discriminate..|done].
Qed.

Lemma busy_divisible : divisible busy three.
Proof.
  split.
  - split; [constructor; [vm_compute; intuition discriminate|constructor]|vm_compute; intuition discriminate..].
  - vm_compute; intuition discriminate.
  - apply profiles_ok.
  - intros [|[|[|[|i]]]] claim; [intros [= <-]; vm_compute; discriminate..|done].
  - intros profile. unfold cohortSize. change (normalizedDemands busy) with [linuxDemand "acme/app" 2 (50 * Minute)].
    cbn [busy node instancesOf obs_Value in_Instances Fresh List.filter].
    destruct (_ && _), (_ && _); vm_compute; discriminate.
Qed.

End Offers.

Lemma offers_could_all_start_witness :
  PartitionHeadroom Offers.busy Offers.three = Some (Some [0; 0; 2; Unsized]) /\
  accommodates Offers.busy (instancesOf Offers.busy) (committedWith Offers.busy Offers.three [0; 0; 2; Unsized]).
Proof.
  assert (PartitionHeadroom Offers.busy Offers.three = Some (Some [0; 0; 2; Unsized])) as HP by (vm_compute; reflexivity).
  split; [exact HP|].
  destruct (offers_could_all_start Offers.busy Offers.three _ Offers.busy_divisible HP) as [_ H].
  apply (H 2%nat _ 2 eq_refl eq_refl). lia.
Defined.

Lemma offers_leave_nothing_over_witness :
  exists shares, PartitionHeadroom Offers.busy Offers.three = Some (Some shares) /\
    forall claim, Offers.three !! 0%nat = Some claim ->
      ~ roomFor Offers.busy Offers.three (normalizedDemands Offers.busy) [0; 0; 2; Unsized] claim.
Proof.
  destruct (offers_leave_nothing_over Offers.busy Offers.three Offers.busy_divisible eq_refl eq_refl eq_refl) as (shares & HP & H).
  { vm_compute. discriminate. }
  exists shares. split; [exact HP|]. intros claim Hc. assert (shares = [0; 0; 2; Unsized]) as ->.
  { enough (Some (Some shares) = Some (Some [0; 0; 2; Unsized])) as [= E] by exact E. rewrite <- HP. vm_compute. reflexivity. }
  injection Hc as <-. destruct (H 0%nat _ 0 eq_refl eq_refl) as [[U _]|(_ & _ & Hf & _)]; [discriminate U|].
  apply Hf. reflexivity.
Defined.
