(* ===== verification/Membership.v ===== *)
(** * Membership (internal/membership)

    What a node owes the fleet when a scale set it serves stops taking work
    (watchdog.go), and what a sibling may do about a set whose owner has gone
    (adoption.go).  The watchdog is a ladder climbed one audit at a time:
    serving, healing, excluded, probation.  The theorems follow whole histories
    of the ladder: which actions precede an exclusion, that an exclusion ends by
    the clock alone, and how far an adopted session can outlive its owner's
    absence. *)

From Stdlib Require Import ZArith Lia String Permutation Sorted.
From stdpp Require Import base tactics list gmap strings.
From S2P Require Import Prelude GoStrings.

(** ** Modes, keys and stages *)

Inductive Mode := Off | Stationary | Roaming.

#[export] Instance Mode_eq_dec : EqDecision Mode.
Proof. solve_decision. Defined.

Definition ParseMode (raw : string) : option Mode :=
  if bool_decide (raw = "") then Some Off
  else if bool_decide (raw = "stationary") then Some Stationary
  else if bool_decide (raw = "roaming") then Some Roaming
  else None.

Definition Mode_Enabled (m : Mode) : bool := negb (bool_decide (m = Off)).

Record Key := { Scope : string; ID : Z }.

#[export] Instance Key_eq_dec : EqDecision Key.
Proof. solve_decision. Defined.

#[export] Instance Key_countable : Countable Key.
Proof.
  apply (inj_countable' (fun k => (Scope k, ID k)) (fun '(s, i) => {| Scope := s; ID := i |})).
  by intros [].
Defined.

Definition Key_less (k other : Key) : bool :=
  if negb (bool_decide (Scope k = Scope other)) then strLess (Scope k) (Scope other)
  else ID k <? ID other.

Definition SortKeys (keys : list Key) : list Key := sortBy Key_less keys.

Inductive Stage := Serving | Healing | Excluded | Probation.

#[export] Instance Stage_eq_dec : EqDecision Stage.
Proof. solve_decision. Defined.

Definition severity (s : Stage) : Z :=
  match s with
  | Excluded => 3
  | Healing => 2
  | Probation => 1
  | Serving => 0
  end.

Inductive Action := Heal | Exclude | Rejoin.

#[export] Instance Action_eq_dec : EqDecision Action.
Proof. solve_decision. Defined.

(** ** The policy *)

Definition stationaryHealAttempts : Z := 2.
Definition roamingHealAttempts : Z := 1.
Definition stationaryExclusion : Z := 4.
Definition roamingExclusion : Z := 2.
Definition exclusionCapCadences : Z := 16.
Definition freshCadences : Z := 2.

Record Policy := { policy_Mode : Mode; Cadence : Duration }.

Definition HealAttempts (p : Policy) : Z :=
  if bool_decide (policy_Mode p = Roaming) then roamingHealAttempts else stationaryHealAttempts.

Definition baseExclusion (p : Policy) : Z :=
  if bool_decide (policy_Mode p = Roaming) then roamingExclusion else stationaryExclusion.

(** The doubling loop of [ExcludedFor]. *)
Fixpoint exclusionLoop (rounds : nat) (cadences : Z) : Z :=
  match rounds with
  | O => cadences
  | S rounds' =>
      if cadences <? exclusionCapCadences then exclusionLoop rounds' (mul64 cadences 2) else cadences
  end.

Definition ExcludedFor (p : Policy) (n : Z) : Duration :=
  mul64 (Z.min (exclusionLoop (Z.to_nat (n - 1)) (baseExclusion p)) exclusionCapCadences) (Cadence p).

Record Evidence := {
  At : Time;
  AuditedAt : Time;
  Wedged : list Key;
  Bound : list Key
}.

Definition Policy_Fresh (p : Policy) (e : Evidence) : bool :=
  if IsZero (AuditedAt e) || After (AuditedAt e) (At e) then false
  else TimeSub (At e) (AuditedAt e) <=? mul64 freshCadences (Cadence p).

Record Binding := {
  binding_Stage : Stage;
  Since : Time;
  Attempts : Z;
  Exclusions : Z;
  JudgedAt : Time
}.

#[export] Instance Binding_eq_dec : EqDecision Binding.
Proof. solve_decision. Defined.

Definition freshBinding : Binding :=
  {| binding_Stage := Serving; Since := zeroTime; Attempts := 0; Exclusions := 0; JudgedAt := zeroTime |}.

(** ** The ladder *)

Definition serveAgain (e : Evidence) : Binding :=
  {| binding_Stage := Serving; Since := At e; Attempts := 0; Exclusions := 0; JudgedAt := AuditedAt e |}.

Definition excludeAgain (b : Binding) (e : Evidence) : Binding :=
  {| binding_Stage := Excluded; Since := At e; Attempts := 0; Exclusions := add64 (Exclusions b) 1;
     JudgedAt := AuditedAt e |}.

Definition advance (p : Policy) (b : Binding) (judged wedged : bool) (e : Evidence)
    : Binding * option Action :=
  match binding_Stage b with
  | Excluded =>
      if negb (Before (At e) (Since b)) && (ExcludedFor p (Exclusions b) <=? TimeSub (At e) (Since b))
      then ({| binding_Stage := Probation; Since := At e; Attempts := 0; Exclusions := Exclusions b;
               JudgedAt := AuditedAt e |}, Some Rejoin)
      else (b, None)
  | Healing =>
      if negb judged then (b, None)
      else if negb wedged then (serveAgain e, None)
      else if Attempts b <? HealAttempts p
      then ({| binding_Stage := Healing; Since := Since b; Attempts := add64 (Attempts b) 1;
               Exclusions := Exclusions b; JudgedAt := AuditedAt e |}, Some Heal)
      else (excludeAgain b e, Some Exclude)
  | Probation =>
      if negb judged then (b, None)
      else if wedged then (excludeAgain b e, Some Exclude)
      else (serveAgain e, None)
  | Serving =>
      if negb judged || negb wedged then (b, None)
      else ({| binding_Stage := Healing; Since := At e; Attempts := 1; Exclusions := Exclusions b;
               JudgedAt := AuditedAt e |}, Some Heal)
  end.

(** What one tick does to one set: the body of the loop of [Step]. *)
Definition judgedBy (p : Policy) (e : Evidence) (current : Binding) : bool :=
  Policy_Fresh p e && After (AuditedAt e) (JudgedAt current).

Definition climb (p : Policy) (key : Key) (e : Evidence) (current : Binding) : Binding * option Action :=
  advance p current (judgedBy p e current) (bool_decide (key ∈ Wedged e)) e.

Definition advanceKey (p : Policy) (previous : gmap Key Binding) (e : Evidence) (key : Key)
    : Binding * option Action :=
  climb p key e (default freshBinding (previous !! key)).

Fixpoint stepFrom (p : Policy) (previous : gmap Key Binding) (e : Evidence) (bound : list Key)
    (next : gmap Key Binding) (actions : gmap Key Action) : gmap Key Binding * gmap Key Action :=
  match bound with
  | [] => (next, actions)
  | key :: rest =>
      let '(updated, action) := advanceKey p previous e key in
      stepFrom p previous e rest (<[key := updated]> next)
        (match action with Some a => <[key := a]> actions | None => actions end)
  end.

Definition Step (p : Policy) (previous : gmap Key Binding) (e : Evidence)
    : gmap Key Binding * gmap Key Action :=
  stepFrom p previous e (Bound e) ∅ ∅.

(** ** Publication *)

Record Row := { row_Key : Key; row_Binding : Binding }.

Record Summary := { summary_State : Stage; Bindings : list Row }.

(** The loop of [Summarize] over the entries of the map, in the order the
    iteration yields them. *)
Fixpoint summarizeFrom (entries : list (Key * Binding)) (summary : Summary) : Summary :=
  match entries with
  | [] => summary
  | (key, binding) :: rest =>
      if severity (binding_Stage binding) =? 0 then summarizeFrom rest summary
      else summarizeFrom rest
             {| summary_State :=
                  if severity (summary_State summary) <? severity (binding_Stage binding)
                  then binding_Stage binding else summary_State summary;
                Bindings := Bindings summary ++ [{| row_Key := key; row_Binding := binding |}] |}
  end.

Definition rowLess (a b : Row) : bool := Key_less (row_Key a) (row_Key b).

Definition summarizeEntries (entries : list (Key * Binding)) : Summary :=
  let summary := summarizeFrom entries {| summary_State := Serving; Bindings := [] |} in
  {| summary_State := summary_State summary; Bindings := sortBy rowLess (Bindings summary) |}.

Definition Summarize (state : gmap Key Binding) : Summary := summarizeEntries (map_to_list state).

(** ** Adoption *)

Inductive Arbiter := Held | Obtained | Unanswered.

#[export] Instance Arbiter_eq_dec : EqDecision Arbiter.
Proof. solve_decision. Defined.

Record Sighting := {
  sighting_Key : Key;
  Equivalent : bool;
  Assigned : Z;
  Busy : Z;
  Registered : Z;
  StrandedSince : Time;
  sighting_AuditedAt : Time
}.

Definition stranded (s : Sighting) : bool :=
  ((0 <? Assigned s) || (0 <? Busy s)) && (Registered s =? 0).

Record AdoptionPolicy := { adoption_Cadence : Duration }.

Definition Grace (p : AdoptionPolicy) : Duration := mul64 freshCadences (adoption_Cadence p).
Definition Lease (p : AdoptionPolicy) : Duration := mul64 stationaryExclusion (adoption_Cadence p).

Definition MayAsk (p : AdoptionPolicy) (s : Sighting) (now : Time) (admissionAllowed : bool) : bool :=
  if negb admissionAllowed || negb (Equivalent s) || negb (stranded s) || IsZero (StrandedSince s)
  then false
  else if negb (Policy_Fresh {| policy_Mode := Off; Cadence := adoption_Cadence p |}
                  {| At := now; AuditedAt := sighting_AuditedAt s; Wedged := []; Bound := [] |})
  then false
  else negb (Before (sighting_AuditedAt s) (StrandedSince s))
       && (Grace p <=? TimeSub (sighting_AuditedAt s) (StrandedSince s)).

Record Adoption := { adoption_Key : Key; adoption_Since : Time; Until : Time }.

Definition Arbitrate (p : AdoptionPolicy) (key : Key) (answer : Arbiter) (now : Time) : option Adoption :=
  if negb (bool_decide (answer = Obtained)) then None
  else Some {| adoption_Key := key; adoption_Since := now; Until := TimeAdd now (Lease p) |}.

Definition Release (a : Adoption) (now : Time) (idle : bool) : bool :=
  idle || negb (Before now (Until a)).

(** ** Histories of one set

    An action taken, with the audit behind it, or a clean audit that put the set
    back to serving.  Histories are newest first. *)

Inductive LadderEvent := Acted (a : Action) (audited : Time) | Cleared (audited : Time).

Definition record (b b' : Binding) (a : option Action) (e : Evidence) : list LadderEvent :=
  match a with
  | Some a => [Acted a (AuditedAt e)]
  | None => if bool_decide (binding_Stage b = binding_Stage b') then [] else [Cleared (AuditedAt e)]
  end.

Inductive Climb (p : Policy) (key : Key) : list LadderEvent -> Binding -> Prop :=
| climb_start : Climb p key [] freshBinding
| climb_tick h b e b' a :
    Climb p key h b -> climb p key e b = (b', a) -> Climb p key (record b b' a e ++ h) b'.

Definition auditOf (ev : LadderEvent) : Time :=
  match ev with Acted _ t => t | Cleared t => t end.

Definition isHeal (ev : LadderEvent) : Prop := exists t, ev = Acted Heal t.

(** A run of exactly [n] heals, each on a newer audit than the one before. *)
Definition healRun (n : Z) (h : list LadderEvent) : Prop :=
  exists heals older, h = heals ++ older /\ Z.of_nat (length heals) = n /\ Forall isHeal heals /\
    StronglySorted (fun a b => b < a) (map auditOf heals) /\
    (forall ev, head older = Some ev -> ~ isHeal ev).

(** The history an exclusion on audit [t] may follow. *)
Definition excusedBy (p : Policy) (t : Time) (h : list LadderEvent) : Prop :=
  (healRun (HealAttempts p) h \/ exists t' h', h = Acted Rejoin t' :: h') /\
  (forall ev, head h = Some ev -> auditOf ev < t).

Fixpoint sinceCleared (h : list LadderEvent) : Z :=
  match h with
  | [] => 0
  | Cleared _ :: _ => 0
  | Acted Exclude _ :: h' => 1 + sinceCleared h'
  | Acted _ _ :: h' => sinceCleared h'
  end.

Definition excused (p : Policy) (h : list LadderEvent) : Prop :=
  forall newer t older, h = newer ++ Acted Exclude t :: older -> excusedBy p t older.

Record Ladder (p : Policy) (h : list LadderEvent) (b : Binding) : Prop := {
  ladder_excused : excused p h;
  ladder_judged : h <> [] -> exists ev, head h = Some ev /\ auditOf ev = JudgedAt b;
  ladder_exclusions : Z.of_nat (length h) <= maxInt64 -> Exclusions b = sinceCleared h;
  ladder_stage :
    match binding_Stage b with
    | Serving => h = [] \/ exists t, head h = Some (Cleared t)
    | Healing => healRun (Attempts b) h /\ 1 <= Attempts b <= HealAttempts p
    | Excluded => exists t, head h = Some (Acted Exclude t)
    | Probation => exists t, head h = Some (Acted Rejoin t)
    end
}.

Lemma excused_cons p ev h :
  excused p h -> (forall t, ev = Acted Exclude t -> excusedBy p t h) -> excused p (ev :: h).
Proof.
  intros Hh He newer t older E. destruct newer as [|ev' newer]; simpl in E; injection E as -> ->.
  - by apply He.
  - by apply (Hh newer t older).
Qed.

Lemma healRun_first t h : (forall ev, head h = Some ev -> ~ isHeal ev) -> healRun 1 (Acted Heal t :: h).
Proof.
  intros Hh. exists [Acted Heal t], h. split; [done|]. split; [done|].
  split; [constructor; [by exists t|constructor]|]. split; [|done].
  simpl. repeat constructor.
Qed.

Lemma healRun_next n t h :
  1 <= n -> healRun n h -> (forall ev, head h = Some ev -> auditOf ev < t) ->
  healRun (n + 1) (Acted Heal t :: h).
Proof.
  intros Hn (heals & older & -> & Hl & Hf & Hs & Ho) Ht. exists (Acted Heal t :: heals), older.
  split; [done|]. split; [simpl length; lia|]. split; [constructor; [by exists t|done]|].
  split; [|done]. simpl. constructor; [done|].
  destruct heals as [|ev heals]; [simpl in Hl; lia|]. specialize (Ht ev eq_refl). simpl in *.
  inversion_clear Hs as [|? ? Hs' Hlt]. constructor; [done|].
  eapply List.Forall_impl; [|exact Hlt]. simpl. lia.
Qed.

Lemma judgedBy_newer p e b : judgedBy p e b = true -> JudgedAt b < AuditedAt e.
Proof. unfold judgedBy, After. intros ?. by bool_to_prop. Qed.

Lemma HealAttempts_range p : 1 <= HealAttempts p <= 2.
Proof. unfold HealAttempts, roamingHealAttempts, stationaryHealAttempts. case_bool_decide; lia. Qed.

Lemma sinceCleared_range h : 0 <= sinceCleared h <= Z.of_nat (length h).
Proof.
  induction h as [|[[] t|t] h IH]; simpl sinceCleared; cbn [length]; lia.
Qed.

(** Extending a history by one event. *)
Lemma Ladder_cons p h b ev b' :
  Ladder p h b -> auditOf ev = JudgedAt b' ->
  (forall t, ev = Acted Exclude t -> excusedBy p t h) ->
  (Exclusions b = sinceCleared h -> Z.of_nat (length (ev :: h)) <= maxInt64 ->
   Exclusions b' = sinceCleared (ev :: h)) ->
  match binding_Stage b' with
  | Serving => exists t, ev = Cleared t
  | Healing => healRun (Attempts b') (ev :: h) /\ 1 <= Attempts b' <= HealAttempts p
  | Excluded => exists t, ev = Acted Exclude t
  | Probation => exists t, ev = Acted Rejoin t
  end ->
  Ladder p (ev :: h) b'.
Proof.
  intros L Hj He Hx Hs. split.
  - apply excused_cons; [apply L|done].
  - intros _. by exists ev.
  - intros Hl. apply Hx; [|done]. apply L. simpl length in Hl. lia.
  - destruct (binding_Stage b'); [right| | |]; try done; destruct Hs as [t ->]; by exists t.
Qed.

Lemma judged_before p h b t :
  Ladder p h b -> JudgedAt b < t -> forall ev, head h = Some ev -> auditOf ev < t.
Proof.
  intros L Ht ev Hev. assert (h <> []) as Hne by (by intros ->).
  destruct (ladder_judged _ _ _ L Hne) as (ev' & Hev' & E). congruence.
Qed.

(** Putting a set out, from healing or from probation, is excused. *)
Lemma Ladder_exclude p h b e :
  Ladder p h b -> judgedBy p e b = true ->
  (healRun (HealAttempts p) h \/ exists t h', h = Acted Rejoin t :: h') ->
  Ladder p (Acted Exclude (AuditedAt e) :: h) (excludeAgain b e).
Proof.
  intros L Hj Hp. apply (Ladder_cons p h b); [done|done| | |by eexists].
  - intros t [= <-]. split; [done|]. apply (judged_before p h b); [done|by apply (judgedBy_newer p)].
  - intros Hx Hl. cbn -[add64]. rewrite Hx. cbn [length] in Hl. pose proof (sinceCleared_range h).
    rewrite add64_exact; [lia|]. unfold int64, minInt64. lia.
Qed.

Lemma Ladder_clear p h b e :
  Ladder p h b -> Ladder p (Cleared (AuditedAt e) :: h) (serveAgain e).
Proof. intros L. apply (Ladder_cons p h b); try done. by eexists. Qed.

Lemma Ladder_tick p key h b e b' a :
  Ladder p h b -> climb p key e b = (b', a) -> Ladder p (record b b' a e ++ h) b'.
Proof.
  intros L. pose proof (ladder_stage _ _ _ L) as Hs. pose proof (HealAttempts_range p) as Hr.
  unfold climb, advance. destruct (binding_Stage b) eqn:Es.
  - destruct (judgedBy p e b) eqn:Hj; simpl; [|intros [= <- <-]; simpl; by rewrite bool_decide_eq_true_2].
    destruct (bool_decide _); simpl; intros [= <- <-]; simpl; [|by rewrite bool_decide_eq_true_2].
    apply (Ladder_cons p h b); try done. simpl. split; [|lia]. apply healRun_first.
    intros ev Hev [t ->]. destruct Hs as [->|[t' Ht']]; [done|congruence].
  - destruct (judgedBy p e b) eqn:Hj; simpl; [|intros [= <- <-]; simpl; by rewrite bool_decide_eq_true_2].
    destruct Hs as [Hrun Hat]. destruct (bool_decide _); simpl; [|intros [= <- <-]; simpl; rewrite Es; by apply (Ladder_clear p h b)].
    destruct (Z.ltb_spec (Attempts b) (HealAttempts p)); intros [= <- <-]; cbn -[add64].
    + apply (Ladder_cons p h b); try done. cbn -[add64].
      rewrite add64_exact by (unfold int64, minInt64, maxInt64; lia). split; [|lia].
      apply healRun_next; [lia|done|]. apply (judged_before p h b); [done|by apply (judgedBy_newer p)].
    + apply Ladder_exclude; [done|done|]. left. replace (HealAttempts p) with (Attempts b) by lia. done.
  - destruct (_ && _); intros [= <- <-]; simpl; [|by rewrite bool_decide_eq_true_2].
    apply (Ladder_cons p h b); try done. by eexists.
  - destruct (judgedBy p e b) eqn:Hj; simpl; [|intros [= <- <-]; simpl; by rewrite bool_decide_eq_true_2].
    destruct (bool_decide _); simpl; intros [= <- <-]; simpl; [|rewrite Es; by apply (Ladder_clear p h b)].
    apply Ladder_exclude; [done|done|]. right. destruct Hs as [t Ht]. destruct h as [|? h]; [done|].
    injection Ht as ->. by eexists _, _.
Qed.

Lemma Climb_ladder p key h b : Climb p key h b -> Ladder p h b.
Proof.
  induction 1 as [|h b e b' a _ IH E]; [|by eapply Ladder_tick].
  split; simpl; [|done|done|by left]. intros [] t older; discriminate.
Qed.

(** A set is excluded only after the ladder below it.  In every history of a
    bound set, an exclusion follows immediately either exactly as many heals as
    the mode allows, each ordered on a newer audit than the one before it, or
    the rejoin whose probation failed; and it rests on an audit newer than the
    one behind the action it follows.  The exclusion count that sizes the next
    hold is the number of exclusions since the last clean audit. *)
Theorem exclusion_follows_spent_heals p key h b :
  Climb p key h b ->
  (forall newer t older, h = newer ++ Acted Exclude t :: older ->
     (healRun (HealAttempts p) older \/ exists t' h', older = Acted Rejoin t' :: h') /\
     (forall ev, head older = Some ev -> auditOf ev < t)) /\
  (Z.of_nat (length h) <= maxInt64 -> Exclusions b = sinceCleared h).
Proof.
  intros C. apply Climb_ladder in C. split; [|apply C]. exact (ladder_excused _ _ _ C).
Qed.

Definition acme : Key := {| Scope := "acme"; ID := 7 |}.
Definition roaming : Policy := {| policy_Mode := Roaming; Cadence := 10 * Minute |}.

(** An audit at minute [m] that finds the set wedged. *)
Definition wedgedAudit (m : Z) : Evidence :=
  {| At := m * Minute; AuditedAt := m * Minute; Wedged := [acme]; Bound := [acme] |}.

(** The history and the binding after a list of ticks, oldest first. *)
Fixpoint play (p : Policy) (key : Key) (ticks : list Evidence) (h : list LadderEvent) (b : Binding)
    : list LadderEvent * Binding :=
  match ticks with
  | [] => (h, b)
  | e :: rest =>
      let '(b', a) := climb p key e b in play p key rest (record b b' a e ++ h) b'
  end.

Lemma play_climb p key ticks h b :
  Climb p key h b -> Climb p key (fst (play p key ticks h b)) (snd (play p key ticks h b)).
Proof.
  revert h b. induction ticks as [|e ticks IH]; intros h b C; simpl; [done|].
  destruct (climb p key e b) as [b' a] eqn:E. apply IH. by eapply climb_tick.
Qed.

Lemma exclusion_follows_spent_heals_witness :
  let played := play roaming acme [wedgedAudit 10; wedgedAudit 20] [] freshBinding in
  fst played = [Acted Exclude (20 * Minute); Acted Heal (10 * Minute)] /\
  (healRun (HealAttempts roaming) [Acted Heal (10 * Minute)] \/
   exists t' h', [Acted Heal (10 * Minute)] = Acted Rejoin t' :: h') /\
  Exclusions (snd played) = sinceCleared (fst played).
Proof.
  intros played. assert (fst played = [Acted Exclude (20 * Minute); Acted Heal (10 * Minute)]) as E
    by (vm_compute; reflexivity).
  split; [exact E|].
  destruct (exclusion_follows_spent_heals roaming acme (fst played) (snd played)
    (play_climb roaming acme _ _ _ (climb_start roaming acme))) as [He Hx].
  split; [exact (proj1 (He [] (20 * Minute) [Acted Heal (10 * Minute)] E))|].
  apply Hx. rewrite E. vm_compute. discriminate.
Defined.

(** ** Exclusions end by the clock *)

Lemma exclusionLoop_spec n c :
  0 < c <= exclusionCapCadences ->
  Z.min (exclusionLoop n c) exclusionCapCadences = Z.min (c * 2 ^ Z.of_nat n) exclusionCapCadences.
Proof.
  revert c. induction n as [|n IH]; intros c Hc; [simpl; f_equal; lia|].
  rewrite Nat2Z.inj_succ, Z.pow_succ_r by lia. cbn -[mul64 Z.mul]. unfold exclusionCapCadences in *.
  assert (1 <= 2 ^ Z.of_nat n) by (apply (Z.pow_le_mono_r 2 0); lia).
  destruct (Z.ltb_spec c 16); [|rewrite !Z.min_r; nia].
  assert (mul64 c 2 = c * 2) as -> by (apply wrap64_id; unfold int64, minInt64, maxInt64; lia).
  destruct (Z.le_gt_cases (c * 2) 16); [rewrite IH by lia; f_equal; lia|].
  assert (exclusionLoop n (c * 2) = c * 2) as ->.
  { destruct n; [done|]. cbn -[mul64 Z.mul]. unfold exclusionCapCadences.
    destruct (Z.ltb_spec (c * 2) 16); [lia|done]. }
  rewrite !Z.min_r; nia.
Qed.

Lemma ExcludedFor_spec p n :
  0 < Cadence p -> exclusionCapCadences * Cadence p <= maxInt64 -> 1 <= n ->
  ExcludedFor p n = Z.min (baseExclusion p * 2 ^ (n - 1)) exclusionCapCadences * Cadence p.
Proof.
  intros Hc Hm Hn.
  assert (0 < baseExclusion p <= exclusionCapCadences) as Hb.
  { unfold baseExclusion, roamingExclusion, stationaryExclusion, exclusionCapCadences.
    case_bool_decide; lia. }
  unfold ExcludedFor. rewrite exclusionLoop_spec by done. rewrite Z2Nat.id by lia.
  assert (0 <= 2 ^ (n - 1)) by (apply Z.pow_nonneg; lia).
  apply wrap64_id. unfold int64, minInt64, maxInt64, exclusionCapCadences in *. nia.
Qed.

(** An exclusion ends by the clock alone.  The [n]th consecutive exclusion
    lasts [min(base * 2^(n-1), 16)] audit cadences, with [base] four on a
    stationary node and two on a roaming one.  Until then no evidence moves the
    set; at the first tick from then on it rejoins on probation, whether or not
    audits still arrive and whatever they say. *)
Theorem exclusion_ends_by_the_clock p key e b :
  0 < Cadence p -> exclusionCapCadences * Cadence p <= maxInt64 ->
  binding_Stage b = Excluded -> 1 <= Exclusions b ->
  let ends := Since b + Z.min (baseExclusion p * 2 ^ (Exclusions b - 1)) 16 * Cadence p in
  climb p key e b =
    if ends <=? At e
    then ({| binding_Stage := Probation; Since := At e; Attempts := 0; Exclusions := Exclusions b;
             JudgedAt := AuditedAt e |}, Some Rejoin)
    else (b, None).
Proof.
  intros Hc Hm Hs Hn. simpl. unfold climb, advance. rewrite Hs, (ExcludedFor_spec p) by done.
  set (hold := Z.min _ _ * Cadence p).
  assert (0 < hold <= maxInt64) as Hh.
  { assert (1 <= baseExclusion p) by (unfold baseExclusion; case_bool_decide; done).
    assert (1 <= 2 ^ (Exclusions b - 1)) by (apply (Z.pow_le_mono_r 2 0); lia).
    subst hold. unfold exclusionCapCadences in *. nia. }
  subst hold. unfold exclusionCapCadences in *. set (hold := Z.min _ _ * Cadence p) in *.
  unfold Before, TimeSub, minInt64, maxInt64 in *.
  destruct (Z.ltb_spec (At e) (Since b)), (Z.leb_spec (Since b + hold) (At e)); simpl; try done; try lia.
  - destruct (Z.leb_spec hold (Z.max (-9223372036854775808) (Z.min 9223372036854775807 (At e - Since b)))); [done|lia].
  - destruct (Z.leb_spec hold (Z.max (-9223372036854775808) (Z.min 9223372036854775807 (At e - Since b)))); [lia|done].
Qed.

Lemma exclusion_ends_by_the_clock_witness :
  snd (climb roaming acme (wedgedAudit 60)
         {| binding_Stage := Excluded; Since := 20 * Minute; Attempts := 0; Exclusions := 2;
            JudgedAt := 20 * Minute |}) = Some Rejoin.
Proof.
  rewrite (exclusion_ends_by_the_clock roaming acme (wedgedAudit 60)
    {| binding_Stage := Excluded; Since := 20 * Minute; Attempts := 0; Exclusions := 2;
       JudgedAt := 20 * Minute |}); [reflexivity|..].
  - reflexivity.
  - vm_compute; discriminate.
  - reflexivity.
  - simpl; lia.
Defined.

(** ** A tick over all bound sets *)

Lemma stepFrom_lookup p previous e bound next actions k :
  fst (stepFrom p previous e bound next actions) !! k
    = (if bool_decide (k ∈ bound) then Some (fst (advanceKey p previous e k)) else next !! k) /\
  snd (stepFrom p previous e bound next actions) !! k
    = (if bool_decide (k ∈ bound)
       then match snd (advanceKey p previous e k) with Some a => Some a | None => actions !! k end
       else actions !! k).
Proof.
  revert next actions. induction bound as [|x bound IH]; intros next actions; cbn [stepFrom].
  { cbn [fst snd]. rewrite bool_decide_eq_false_2 by apply not_elem_of_nil. done. }
  destruct (advanceKey p previous e x) as [updated action] eqn:E.
  destruct (IH (<[x:=updated]> next) (match action with Some a => <[x:=a]> actions | None => actions end))
    as [-> ->].
  destruct (decide (k = x)) as [->|Hne].
  - rewrite (bool_decide_eq_true_2 (x ∈ x :: bound)) by left. rewrite E. cbn [fst snd].
    rewrite lookup_insert_eq. case_bool_decide; split; try done; destruct action; try done;
      by rewrite lookup_insert_eq.
  - assert (bool_decide (k ∈ x :: bound) = bool_decide (k ∈ bound)) as ->.
    { apply bool_decide_ext. rewrite elem_of_cons. split; [by intros [->|?]|by right]. }
    rewrite lookup_insert_ne by done. split; [done|].
    destruct action; [by rewrite lookup_insert_ne|done].
Qed.

(** A tick judges every bound set by itself.  The next ladder has exactly the
    sets bound now, so a set no longer bound is forgotten; each is advanced from
    its own previous binding, or from a fresh one; an action is issued for a set
    exactly when its own transition asks for it.  Neither the order of the bound
    list nor a repeated entry changes anything. *)
Theorem step_is_pointwise p previous e k :
  fst (Step p previous e) !! k =
    (if bool_decide (k ∈ Bound e)
     then Some (fst (climb p k e (default freshBinding (previous !! k)))) else None) /\
  snd (Step p previous e) !! k =
    (if bool_decide (k ∈ Bound e)
     then snd (climb p k e (default freshBinding (previous !! k))) else None).
Proof.
  unfold Step. destruct (stepFrom_lookup p previous e (Bound e) ∅ ∅ k) as [-> ->].
  unfold advanceKey. rewrite !lookup_empty. case_bool_decide; [|done]. split; [done|].
  by destruct (snd _).
Qed.

(** ** Publication *)

Lemma Key_less_total a b : Key_less a b = false -> Key_less b a = false -> a = b.
Proof.
  unfold Key_less. destruct a as [s i], b as [s' i']; simpl.
  destruct (decide (s = s')) as [->|Hne].
  - rewrite (bool_decide_eq_true_2 (s' = s')) by done. simpl. intros ??. bool_to_prop. f_equal. lia.
  - rewrite (bool_decide_eq_false_2 (s = s')), (bool_decide_eq_false_2 (s' = s)) by done. simpl.
    intros H1 H2. by destruct Hne; apply strLess_total.
Qed.

Lemma Key_less_asym a b : Key_less a b = true -> Key_less b a = false.
Proof.
  unfold Key_less. destruct a as [s i], b as [s' i']; simpl.
  destruct (decide (s = s')) as [->|Hne].
  - rewrite (bool_decide_eq_true_2 (s' = s')) by done. simpl. intros ?. bool_to_prop. apply Z.ltb_ge. lia.
  - rewrite (bool_decide_eq_false_2 (s = s')), (bool_decide_eq_false_2 (s' = s)) by done. simpl.
    apply strLess_asym.
Qed.

Lemma Key_less_cotrans a b c : Key_less a b = false -> Key_less b c = false -> Key_less a c = false.
Proof.
  unfold Key_less. destruct a as [s i], b as [s' i'], c as [s'' i'']; simpl.
  destruct (decide (s = s')) as [->|H1], (decide (s' = s'')) as [->|H2].
  - rewrite !(bool_decide_eq_true_2 (s'' = s'')) by done. simpl. rewrite !Z.ltb_ge. lia.
  - rewrite (bool_decide_eq_true_2 (s' = s')) by done. by rewrite !(bool_decide_eq_false_2 (s' = s'')).
  - rewrite (bool_decide_eq_true_2 (s'' = s'')) by done. by rewrite !(bool_decide_eq_false_2 (s = s'')).
  - rewrite (bool_decide_eq_false_2 (s = s')), (bool_decide_eq_false_2 (s' = s'')) by done. simpl.
    intros L1 L2. destruct (decide (s = s'')) as [->|H3].
    + destruct H1. by apply strLess_total.
    + rewrite bool_decide_eq_false_2 by done. simpl. by eapply strLess_cotrans.
Qed.

Lemma severity_inj a b : severity a = severity b -> a = b.
Proof. by destruct a, b. Qed.

Lemma severity_nonneg a : 0 <= severity a.
Proof. by destruct a. Qed.

Definition notServing (entry : Key * Binding) : bool := negb (severity (binding_Stage (snd entry)) =? 0).

Definition rowOf (entry : Key * Binding) : Row := {| row_Key := fst entry; row_Binding := snd entry |}.

Definition worst (entries : list (Key * Binding)) : Z :=
  foldr (fun entry m => Z.max (severity (binding_Stage (snd entry))) m) 0 entries.

Lemma worst_perm l1 l2 : Permutation l1 l2 -> worst l1 = worst l2.
Proof. unfold worst. induction 1; simpl; lia. Qed.

Lemma worst_nonneg l : 0 <= worst l.
Proof. induction l; simpl; lia. Qed.

Lemma summarizeFrom_spec entries summary :
  Bindings (summarizeFrom entries summary)
    = Bindings summary ++ map rowOf (List.filter notServing entries) /\
  severity (summary_State (summarizeFrom entries summary))
    = Z.max (severity (summary_State summary)) (worst entries).
Proof.
  revert summary. induction entries as [|[key b] entries IH]; intros summary; simpl.
  { rewrite app_nil_r. pose proof (severity_nonneg (summary_State summary)). split; [done|lia]. }
  unfold notServing at 1. simpl. pose proof (severity_nonneg (binding_Stage b)).
  destruct (Z.eqb_spec (severity (binding_Stage b)) 0) as [E|E]; simpl.
  - destruct (IH summary) as [-> ->]. split; [done|]. pose proof (severity_nonneg (summary_State summary)). lia.
  - match goal with |- context [summarizeFrom entries ?s] => destruct (IH s) as [-> ->] end. simpl.
    rewrite <- app_assoc. split; [done|].
    destruct (Z.ltb_spec (severity (summary_State summary)) (severity (binding_Stage b))); lia.
Qed.

(** The rows of a map, whatever the order of iteration: keys never tie. *)
Lemma rows_sorted_unique state entries :
  Permutation entries (map_to_list state) ->
  sortBy rowLess (map rowOf (List.filter notServing entries))
  = sortBy rowLess (map rowOf (List.filter notServing (map_to_list state))).
Proof.
  intros HP. apply (sorted_unique rowLess).
  - intros a b Ha Hb L1 L2. rewrite sortBy_in in Ha, Hb.
    assert (row_Key a = row_Key b) as E by (by apply Key_less_total).
    apply in_map_iff in Ha as ([k x] & <- & Ha). apply in_map_iff in Hb as ([k' x'] & <- & Hb).
    apply List.filter_In in Ha as [Ha _]. apply List.filter_In in Hb as [Hb _].
    apply (Permutation_in _ HP) in Ha, Hb. simpl in E. subst k'.
    apply list_elem_of_In, elem_of_map_to_list in Ha. apply list_elem_of_In, elem_of_map_to_list in Hb.
    congruence.
  - apply sortBy_sorted; intros; [by eapply Key_less_cotrans|by apply Key_less_asym].
  - apply sortBy_sorted; intros; [by eapply Key_less_cotrans|by apply Key_less_asym].
  - rewrite !sortBy_perm. by apply Permutation_map, filter_perm.
Qed.

(** The published membership does not depend on the order in which the map of
    bindings is iterated.  It lists exactly the sets that are not serving, in the
    order of scope and id, and its state is that of the set worst off: excluded
    before healing before probation, and serving only when every set is. *)
Theorem summary_is_worst_stage state entries :
  Permutation entries (map_to_list state) ->
  summarizeEntries entries = Summarize state /\
  (forall row, In row (Bindings (Summarize state)) <->
     state !! row_Key row = Some (row_Binding row) /\ binding_Stage (row_Binding row) <> Serving) /\
  StronglySorted (before rowLess) (Bindings (Summarize state)) /\
  severity (summary_State (Summarize state)) = worst (map_to_list state).
Proof.
  intros HP.
  destruct (summarizeFrom_spec entries {| summary_State := Serving; Bindings := [] |}) as [B1 S1].
  destruct (summarizeFrom_spec (map_to_list state) {| summary_State := Serving; Bindings := [] |}) as [B2 S2].
  pose proof (worst_nonneg (map_to_list state)) as Hw.
  split; [|split; [|split]].
  - unfold Summarize, summarizeEntries. f_equal.
    + apply severity_inj. rewrite S1, S2. by rewrite (worst_perm _ _ HP).
    + rewrite B1, B2. simpl. by apply rows_sorted_unique.
  - intros row. unfold Summarize, summarizeEntries. simpl. rewrite sortBy_in, B2. simpl. split.
    + intros Hr. apply in_map_iff in Hr as ([k b] & <- & Hr). apply List.filter_In in Hr as [Hr Hn]. simpl.
      split; [by apply elem_of_map_to_list, list_elem_of_In|].
      unfold notServing in Hn. simpl in Hn. by intros E; rewrite E in Hn.
    + intros [Hl Hn]. apply in_map_iff. exists (row_Key row, row_Binding row). split; [by destruct row|].
      apply List.filter_In. split; [by apply list_elem_of_In, elem_of_map_to_list|].
      unfold notServing. simpl. by destruct (binding_Stage (row_Binding row)).
  - apply sortBy_sorted; intros; [by eapply Key_less_cotrans|by apply Key_less_asym].
  - unfold Summarize, summarizeEntries. simpl. rewrite S2. simpl. lia.
Qed.

Lemma summary_is_worst_stage_witness :
  let state := fst (Step roaming ∅ (wedgedAudit 10)) in
  summarizeEntries (rev (map_to_list state)) = Summarize state /\
  summary_State (Summarize state) = Healing.
Proof.
  split; [|vm_compute; reflexivity].
  refine (proj1 (summary_is_worst_stage (fst (Step roaming ∅ (wedgedAudit 10))) _ _)).
  symmetry. apply Permutation_rev.
Defined.

(** ** Adoption *)

(** A sibling asks for a set's session only on evidence spread over audits,
    and keeps it for a bounded time.  When it may ask, the set is equivalent to
    one it serves, is stranded now, has read stranded between two audits at
    least two cadences apart, and the latest is at most two cadences old and not
    from the future.  It holds a session only when the arbiter granted it, and
    whether or not it is busy it must hand the session back at the first check
    four cadences after the grant. *)
Theorem adoption_is_evidenced_and_bounded p s now allowed key answer asked held :
  0 < adoption_Cadence p -> 4 * adoption_Cadence p <= maxInt64 ->
  (MayAsk p s now allowed = true ->
     allowed = true /\ Equivalent s = true /\ stranded s = true /\ StrandedSince s <> zeroTime /\
     2 * adoption_Cadence p <= sighting_AuditedAt s - StrandedSince s /\
     0 <= now - sighting_AuditedAt s <= 2 * adoption_Cadence p) /\
  (Arbitrate p key answer asked = Some held ->
     answer = Obtained /\ adoption_Key held = key /\
     (forall t, asked + 4 * adoption_Cadence p <= t -> Release held t false = true) /\
     (forall t, t < asked + 4 * adoption_Cadence p -> Release held t false = false)).
Proof.
  intros Hc Hm.
  assert (mul64 freshCadences (adoption_Cadence p) = 2 * adoption_Cadence p) as E2
    by (apply wrap64_id; unfold int64, minInt64, maxInt64, freshCadences in *; lia).
  assert (Lease p = 4 * adoption_Cadence p) as E4
    by (apply wrap64_id; unfold int64, minInt64, maxInt64, stationaryExclusion in *; lia).
  split.
  - unfold MayAsk, Grace, Policy_Fresh. simpl. rewrite E2.
    destruct (negb allowed || _ || _ || _) eqn:G1; [done|].
    destruct (IsZero (sighting_AuditedAt s) || _) eqn:G2; simpl; [done|].
    destruct (_ <=? 2 * adoption_Cadence p) eqn:G3; simpl; [|done].
    intros G4. unfold IsZero, After, Before, TimeSub, zeroTime, minInt64, maxInt64 in *. bool_to_prop.
    split_and!; try done; lia.
  - unfold Arbitrate. case_bool_decide; simpl; [|done]. intros [= <-]. split; [done|]. split; [done|].
    unfold Release, Before, TimeAdd. simpl. rewrite E4.
    split; intros t Ht; [apply negb_true_iff, Z.ltb_ge|apply negb_false_iff, Z.ltb_lt]; lia.
Qed.

Definition strandedSighting : Sighting :=
  {| sighting_Key := acme; Equivalent := true; Assigned := 2; Busy := 0; Registered := 0;
     StrandedSince := 10 * Minute; sighting_AuditedAt := 30 * Minute |}.

Lemma adoption_is_evidenced_and_bounded_witness :
  let p := {| adoption_Cadence := 10 * Minute |} in
  MayAsk p strandedSighting (35 * Minute) true = true /\
  2 * adoption_Cadence p <= sighting_AuditedAt strandedSighting - StrandedSince strandedSighting /\
  exists held, Arbitrate p acme Obtained (35 * Minute) = Some held /\ Release held (75 * Minute) false = true.
Proof.
  intros p. destruct (adoption_is_evidenced_and_bounded p strandedSighting (35 * Minute) true acme Obtained
    (35 * Minute) {| adoption_Key := acme; adoption_Since := 35 * Minute; Until := 75 * Minute |})
    as [Ha Hh]; [reflexivity|vm_compute; discriminate|].
  split; [vm_compute; reflexivity|]. split.
  - refine (proj1 (proj2 (proj2 (proj2 (proj2 (Ha _)))))). vm_compute; reflexivity.
  - eexists. split; [vm_compute; reflexivity|].
    refine (proj1 (proj2 (proj2 (Hh _))) (75 * Minute) _); [vm_compute; reflexivity|vm_compute; discriminate].
Defined.
