(* ===== verification/Operations.v ===== *)
(** * Durable operations (internal/operations/types.go)

    The rows of the durable outbox and the plans that write them: their
    validity, and the search for a cycle among the dependencies of a plan's
    operations. *)

From Stdlib Require Import ZArith Lia String Permutation.
From stdpp Require Import base tactics list gmap strings relations.
From S2P Require Import Prelude GoStrings Liveness Domain.

(** ** Rows *)

Definition ValidState (s : InstanceState) : bool :=
  match s with InstanceOther _ => false | _ => true end.

Inductive OperationStatus :=
  | OperationPending
  | OperationClaimed
  | OperationCompleted
  | OperationDead
  | OperationDischarged.

#[export] Instance OperationStatus_eq_dec : EqDecision OperationStatus.
Proof. solve_decision. Defined.

Record Ownership := { ControllerID : string; own_ResourceID : string; own_OperationID : string }.

#[export] Instance Ownership_eq_dec : EqDecision Ownership.
Proof. solve_decision. Defined.

Definition Ownership_Valid (o : Ownership) : bool :=
  negb (bool_decide (ControllerID o = "")) && negb (bool_decide (own_ResourceID o = ""))
  && negb (bool_decide (own_OperationID o = "")).

(** [operations.Instance]. *)
Record InstanceRow := {
  row_ID : string;
  row_Repo : string;
  row_Platform : Platform;
  row_Profile : ProfileID;
  row_Route : Route;
  row_Resources : Resources;
  row_Demand : DemandKey;
  row_Image : string;
  row_State : InstanceState;
  row_Version : Z;
  row_DrainPhase : Z;
  row_Ownership : Ownership;
  row_LastError : string;
  row_CreatedAt : Time;
  row_UpdatedAt : Time
}.

Definition SchedulingMetadataValid (i : InstanceRow) : bool :=
  let empty :=
    bool_decide (row_Repo i = "") && bool_decide (row_Platform i = PlatformOther "")
    && bool_decide (row_Profile i = "") && bool_decide (row_Route i = "")
    && bool_decide (row_Resources i = zeroResources) && bool_decide (row_Demand i = zeroDemandKey) in
  if empty then true
  else if bool_decide (row_Repo i = "")
          || (negb (bool_decide (row_Platform i = PlatformLinux))
              && negb (bool_decide (row_Platform i = PlatformMacOS)))
          || bool_decide (row_Profile i = "") || bool_decide (row_Route i = "")
          || (CPU (row_Resources i) <=? 0) || (MemoryMB (row_Resources i) <=? 0)
          || (Slots (row_Resources i) <=? 0) || negb (DemandKey_Validate (row_Demand i))
  then false
  else bool_decide (key_Repo (row_Demand i) = row_Repo i).

(** [operations.Operation]. *)
Record DurableOperation := {
  do_ID : string;
  do_IdempotencyKey : string;
  do_EffectKey : string;
  do_Kind : string;
  do_ResourceID : string;
  do_Payload : string;
  do_Status : OperationStatus;
  do_Attempts : Z;
  do_AvailableAt : Time;
  do_LeaseOwner : string;
  do_LeaseUntil : Time;
  do_LastError : string;
  do_CreatedAt : Time;
  do_UpdatedAt : Time;
  do_DependsOn : list string
}.

(** The scan both [DependenciesValid] and [hasDependencyCycleOrSelf] make of one
    operation's dependencies: one that is empty, the operation itself or
    repeated. *)
Fixpoint badDependency (id : string) (seen : gset string) (deps : list string) : bool :=
  match deps with
  | [] => false
  | d :: rest =>
      bool_decide (d = "") || bool_decide (d = id) || bool_decide (d ∈ seen)
      || badDependency id ({[d]} ∪ seen) rest
  end.

Definition DependenciesValid (o : DurableOperation) : bool :=
  negb (badDependency (do_ID o) ∅ (do_DependsOn o)).

Definition DurableOperation_Valid (o : DurableOperation) : bool :=
  negb (bool_decide (do_ID o = "")) && negb (bool_decide (do_IdempotencyKey o = ""))
  && negb (bool_decide (do_EffectKey o = "")) && negb (bool_decide (do_Kind o = ""))
  && negb (bool_decide (do_ResourceID o = "")) && negb (IsZero (do_AvailableAt o))
  && DependenciesValid o.

(** ** Plans *)

Record InstanceIntent := {
  ExpectedVersion : Z;
  ExpectedState : InstanceState;
  intent_Instance : InstanceRow
}.

Record SchedulerState := {
  ss_Version : Z;
  ss_Data : string;
  ss_Reservations : string;
  ss_DeficitRoundRobin : string;
  ss_ObservationCursor : string
}.

(** [operations.Plan]. *)
Record DurablePlan := {
  dp_ID : string;
  dp_ExpectedSchedulerVersion : Z;
  dp_Scheduler : SchedulerState;
  dp_Instances : list InstanceIntent;
  dp_Operations : list DurableOperation;
  dp_CreatedAt : Time
}.

Abbreviation Graph := (gmap string (list string)).

Definition successors (g : Graph) (id : string) : list string := default [] (g !! id).

(** The inner loop that files one operation's dependencies under its id. *)
Fixpoint addDependencies (id : string) (seen : gset string) (deps : list string) (g : Graph) : option Graph :=
  match deps with
  | [] => Some g
  | d :: rest =>
      if bool_decide (d = "") || bool_decide (d = id) || bool_decide (d ∈ seen) then None
      else addDependencies id ({[d]} ∪ seen) rest (<[id := successors g id ++ [d]]> g)
  end.

(** [None] is the early [return true]. *)
Fixpoint buildGraph (ops : list DurableOperation) (g : Graph) : option Graph :=
  match ops with
  | [] => Some g
  | op :: rest => g' ← addDependencies (do_ID op) ∅ (do_DependsOn op) g; buildGraph rest g'
  end.

(** The state the closure [visit] captures: [visiting] and [visited]. *)
Definition Marks : Type := gset string * gset string.

(** The loop over the dependencies of a node.  [None] is fuel exhausted. *)
Fixpoint visitEach (visit : string -> Marks -> option (bool * Marks)) (g : Graph) (deps : list string)
    (m : Marks) : option (bool * Marks) :=
  match deps with
  | [] => Some (false, m)
  | d :: rest =>
      match g !! d with
      | None => visitEach visit g rest m
      | Some _ =>
          match visit d m with
          | None => None
          | Some (true, m') => Some (true, m')
          | Some (false, m') => visitEach visit g rest m'
          end
      end
  end.

Fixpoint visit (fuel : nat) (g : Graph) (id : string) (m : Marks) : option (bool * Marks) :=
  match fuel with
  | O => None
  | S fuel' =>
      let '(visiting, visited) := m in
      if bool_decide (id ∈ visiting) then Some (true, m)
      else if bool_decide (id ∈ visited) then Some (false, m)
      else
        match visitEach (visit fuel' g) g (successors g id) ({[id]} ∪ visiting, visited) with
        | None => None
        | Some (true, m') => Some (true, m')
        | Some (false, (visiting', visited')) =>
            Some (false, (visiting' ∖ {[id]}, {[id]} ∪ visited'))
        end
  end.

(** The range over the map, in the order it yields the keys. *)
Fixpoint visitRoots (fuel : nat) (g : Graph) (roots : list string) (m : Marks) : option bool :=
  match roots with
  | [] => Some false
  | id :: rest =>
      match visit fuel g id m with
      | None => None
      | Some (true, _) => Some true
      | Some (false, m') => visitRoots fuel g rest m'
      end
  end.

(** A visit nests at most once per node on the path and once more to look. *)
Definition searchFuel (g : Graph) : nat := S (S (size g)).

Definition hasDependencyCycleOrSelf (range : Graph -> list string) (ops : list DurableOperation)
    : option bool :=
  match buildGraph ops ∅ with
  | None => Some true
  | Some g => visitRoots (searchFuel g) g (range g) (∅, ∅)
  end.

Definition intentValid (intent : InstanceIntent) : bool :=
  let i := intent_Instance intent in
  if bool_decide (row_ID i = "") || negb (ValidState (row_State i))
     || negb (Ownership_Valid (row_Ownership i)) || negb (SchedulingMetadataValid i)
  then false
  else if (0 <=? ExpectedVersion intent)
          && (negb (ValidState (ExpectedState intent))
              || negb (CanTransitionTo (ExpectedState intent) (row_State i)))
  then false
  else true.

Definition keysOf (g : Graph) : list string := map fst (map_to_list g).

Definition DurablePlan_Valid (p : DurablePlan) : bool :=
  negb (bool_decide (dp_ID p = "") || IsZero (dp_CreatedAt p)
        || negb (ss_Version (dp_Scheduler p) =? add64 (dp_ExpectedSchedulerVersion p) 1))
  && forallb intentValid (dp_Instances p)
  && forallb DurableOperation_Valid (dp_Operations p)
  && bool_decide (hasDependencyCycleOrSelf keysOf (dp_Operations p) = Some false).

(** ** The search is exact *)

Section Search.
Context (g : Graph).

Definition edgeIn (x y : string) : Prop := In y (successors g x).

Lemma edgeIn_local x y : edgeIn x y -> x ∈ dom g.
Proof.
  unfold edgeIn, successors. intros H. apply elem_of_dom. destruct (g !! x) as [l|]; [by exists l|destruct H].
Qed.

Record Marked (I V : gset string) : Prop := {
  marked_nodes : I ⊆ dom g;
  marked_apart : forall x, x ∈ I -> x ∉ V;
  marked_closed : forall x y, x ∈ V -> edgeIn x y -> y ∈ dom g -> y ∈ V;
  marked_acyclic : forall x, x ∈ V -> ~ tc edgeIn x x
}.

Definition cyclic : Prop := exists x, tc edgeIn x x.

(** What a visit promises: it returns, [true] only on a cycle, and [false] with
    the node and its descendants marked visited. *)
Definition returns (r : option (bool * Marks)) (I V : gset string) (done : gset string -> Prop) : Prop :=
  (exists m, r = Some (true, m) /\ cyclic) \/
  (exists V', r = Some (false, (I, V')) /\ V ⊆ V' /\ done V' /\ Marked I V').

Lemma tc_local x y : tc edgeIn x y -> x ∈ dom g.
Proof. induction 1; by eapply edgeIn_local. Qed.

Lemma closed_tc (V : gset string) x y :
  (forall x y, x ∈ V -> edgeIn x y -> y ∈ dom g -> y ∈ V) ->
  tc edgeIn x y -> x ∈ V -> y ∈ dom g -> y ∈ V.
Proof.
  intros Hc H. induction H as [x y E|x y z E H IH]; intros Hx Hz; [by eapply Hc|].
  apply IH; [|done]. eapply Hc; [done..|]. by eapply tc_local.
Qed.

(** Finishing a node whose local dependencies are all visited. *)
Lemma finish_node I V id :
  id ∈ dom g -> Marked ({[id]} ∪ I) V -> id ∉ I ->
  (forall y, edgeIn id y -> y ∈ dom g -> y ∈ V) ->
  Marked I ({[id]} ∪ V).
Proof.
  intros Hid M Hni Hd.
  assert (id ∉ V) as Hnv by (apply (marked_apart _ _ M), elem_of_union_l, elem_of_singleton; done).
  split.
  - intros x Hx. apply (marked_nodes _ _ M), elem_of_union_r. done.
  - intros x Hx. assert (x ∉ V) by (apply (marked_apart _ _ M), elem_of_union_r; done).
    assert (x <> id) by (by intros ->). rewrite elem_of_union, elem_of_singleton. by intros [?|?].
  - intros x y Hx E Hy. apply elem_of_union in Hx as [Hx|Hx]; apply elem_of_union_r.
    + apply elem_of_singleton in Hx. subst. by apply Hd.
    + by eapply (marked_closed _ _ M).
  - intros x Hx Hc. apply elem_of_union in Hx as [Hx|Hx]; [|by eapply (marked_acyclic _ _ M)].
    apply elem_of_singleton in Hx. subst x. apply Hnv.
    inversion Hc as [? ? E|? y ? E Hr]; subst.
    + by apply Hd.
    + eapply closed_tc; [apply M|exact Hr|apply Hd; [done|by eapply tc_local]|done].
Qed.

Definition visits (v : string -> Marks -> option (bool * Marks)) (I : gset string) : Prop :=
  forall id V, id ∈ dom g -> Marked I V -> (forall x, x ∈ I -> tc edgeIn x id) ->
    returns (v id (I, V)) I V (fun V' => id ∈ V').

Lemma visitEach_spec v I id deps V :
  visits v I -> (forall x, x ∈ I -> x = id \/ tc edgeIn x id) ->
  (forall d, In d deps -> edgeIn id d) -> Marked I V ->
  returns (visitEach v g deps (I, V)) I V (fun V' => forall d, In d deps -> d ∈ dom g -> d ∈ V').
Proof.
  intros Hv Hp. revert V. induction deps as [|d deps IH]; intros V Hd M; simpl.
  { right. exists V. split; [done|]. split; [done|]. split; [|done]. by intros ? []. }
  destruct (g !! d) as [l|] eqn:El.
  - assert (d ∈ dom g) as Hl by (by apply elem_of_dom; eexists).
    destruct (Hv d V Hl M) as [(m & -> & Hc)|(V' & -> & Hsub & Hin & M')].
    + intros x Hx. destruct (Hp x Hx) as [->|Ht]; [by apply tc_once, Hd; left|].
      eapply tc_r; [exact Ht|]. by apply Hd; left.
    + left. by exists m.
    + destruct (IH V') as [(m & -> & Hc)|(V2 & -> & Hsub2 & Hin2 & M2)];
        [intros; apply Hd; by right|done|left; by exists m|].
      right. exists V2. split; [done|]. split; [by etransitivity|]. split; [|done].
      intros d2 [<-|Hd2] Hl2; [by apply Hsub2|by apply Hin2].
  - destruct (IH V) as [Hc|(V' & -> & Hsub & Hin & M')]; [intros; apply Hd; by right|done|by left|].
    right. exists V'. split; [done|]. split; [done|]. split; [|done].
    intros d2 [<-|Hd2] Hl2; [|by apply Hin]. apply elem_of_dom in Hl2 as [? ?]. congruence.
Qed.

Lemma visit_spec fuel I :
  (size (dom g ∖ I) < fuel)%nat -> visits (visit fuel g) I.
Proof.
  revert I. induction fuel as [|fuel IH]; intros I Hf id V Hid M Hp; [lia|]. simpl.
  case_bool_decide as HI; [left; eexists; split; [done|]; exists id; by apply Hp|].
  case_bool_decide as HV; [right; by exists V|].
  assert (size (dom g ∖ ({[id]} ∪ I)) < fuel)%nat as Hf'.
  { enough (size (dom g ∖ ({[id]} ∪ I)) < size (dom g ∖ I))%nat by lia.
    apply subset_size. set_solver. }
  assert (Marked ({[id]} ∪ I) V) as M1.
  { split; [|intros x Hx|apply M|apply M].
    - intros x Hx. apply elem_of_union in Hx as [Hx|Hx]; [by apply elem_of_singleton in Hx as ->|].
      by apply (marked_nodes _ _ M).
    - apply elem_of_union in Hx as [Hx|Hx]; [by apply elem_of_singleton in Hx as ->|].
      by apply (marked_apart _ _ M). }
  destruct (visitEach_spec (visit fuel g) ({[id]} ∪ I) id (successors g id) V (IH _ Hf'))
    as [(m & -> & Hc)|(V' & -> & Hsub & Hin & M')]; [|done|done|left; by exists m|].
  - intros x Hx. apply elem_of_union in Hx as [Hx|Hx]; [left; by apply elem_of_singleton in Hx|].
    right. by apply Hp.
  - right. exists ({[id]} ∪ V'). split; [repeat f_equal; apply leibniz_equiv; set_solver|].
    split; [intros x Hx; apply elem_of_union_r; by apply Hsub|].
    split; [apply elem_of_union_l; by apply elem_of_singleton|].
    apply finish_node; try done.
Qed.

Lemma visitRoots_spec fuel roots V :
  (size (dom g) < fuel)%nat -> (forall x, In x roots -> x ∈ dom g) -> Marked ∅ V ->
  (forall x, x ∈ dom g -> x ∈ V \/ In x roots) ->
  exists b, visitRoots fuel g roots (∅, V) = Some b /\ (b = true <-> cyclic).
Proof.
  intros Hf. revert V. induction roots as [|id roots IH]; intros V Hr M Hall; simpl.
  - exists false. split; [done|]. split; [done|]. intros [x Hx].
    destruct (Hall x) as [HV|[]]; [by eapply tc_local|]. exfalso. by eapply (marked_acyclic _ _ M).
  - assert (size (dom g ∖ ∅) < fuel)%nat as Hf' by (by rewrite difference_empty_L).
    destruct (visit_spec fuel ∅ Hf' id V) as [(m & -> & Hc)|(V' & -> & Hsub & Hin & M')].
    + apply Hr. by left.
    + done.
    + intros x Hx. by apply elem_of_empty in Hx.
    + by exists true.
    + apply IH; [intros; apply Hr; by right|done|].
      intros x Hx. destruct (Hall x Hx) as [HV|[<-|HI]]; [left; by apply Hsub|by left|by right].
Qed.
End Search.

(** ** Plans have acyclic dependencies *)

Lemma tc_mono {A} (R S : A -> A -> Prop) x y : (forall a b, R a b -> S a b) -> tc R x y -> tc S x y.
Proof.
  intros H Ht. induction Ht as [a b E|a b c E _ IH]; [by apply tc_once, H|].
  eapply tc_l; [by apply H|done].
Qed.

Definition dependsOn (ops : list DurableOperation) (x y : string) : Prop :=
  exists op, In op ops /\ do_ID op = x /\ In y (do_DependsOn op).

Lemma successors_insert g id l x :
  successors (<[id := l]> g) x = if bool_decide (x = id) then l else successors g x.
Proof.
  unfold successors. case_bool_decide as E; [by subst; rewrite lookup_insert_eq|by rewrite lookup_insert_ne].
Qed.

Lemma addDependencies_spec id deps seen g :
  addDependencies id seen deps g =
    if badDependency id seen deps then None
    else if bool_decide (deps = []) then Some g else Some (<[id := successors g id ++ deps]> g).
Proof.
  revert seen g. induction deps as [|d deps IH]; intros seen g; [done|]. cbn [addDependencies badDependency].
  destruct (_ || _ || _) eqn:E; [done|]. cbn [orb]. rewrite IH. destruct (badDependency _ _ deps); [done|].
  rewrite (bool_decide_eq_false_2 (d :: deps = [])) by done.
  rewrite successors_insert, (bool_decide_eq_true_2 (id = id)) by done.
  destruct deps as [|d2 deps2]; [done|].
  rewrite (bool_decide_eq_false_2 (d2 :: deps2 = [])) by done.
  by rewrite insert_insert_eq, <- app_assoc.
Qed.

Lemma addDependencies_successors id seen deps g g' x :
  addDependencies id seen deps g = Some g' ->
  successors g' x = successors g x ++ (if bool_decide (x = id) then deps else []).
Proof.
  rewrite addDependencies_spec. destruct (badDependency _ _ _); [done|].
  case_bool_decide as Hd; intros [= <-].
  - subst. by case_bool_decide; rewrite app_nil_r.
  - rewrite successors_insert. case_bool_decide; [by subst|by rewrite app_nil_r].
Qed.

Lemma buildGraph_spec ops g :
  match buildGraph ops g with
  | None => exists op, In op ops /\ DependenciesValid op = false
  | Some g' =>
      Forall (fun op => DependenciesValid op = true) ops /\
      forall x y, In y (successors g' x) <-> In y (successors g x) \/ dependsOn ops x y
  end.
Proof.
  revert g. induction ops as [|op ops IH]; intros g; simpl.
  { split; [constructor|]. intros x y. split; [by left|]. intros [?|(op & [] & _)]; done. }
  destruct (addDependencies _ _ _ g) as [g1|] eqn:E; simpl.
  - pose proof (fun x => addDependencies_successors _ _ _ _ _ x E) as Hs.
    assert (DependenciesValid op = true) as Hv.
    { rewrite addDependencies_spec in E. unfold DependenciesValid. by destruct (badDependency _ _ _). }
    specialize (IH g1). destruct (buildGraph ops g1) as [g2|].
    + destruct IH as [Hf Hi]. split; [by constructor|]. intros x y. rewrite Hi, Hs, in_app_iff. split.
      * intros [[H|H]|(op' & Ho & Hx & Hy)]; [by left| |right; exists op'; split; [by right|done]].
        right. exists op. case_bool_decide; [|destruct H]. split; [by left|done].
      * intros [H|(op' & [<-|Ho] & Hx & Hy)]; [by left; left| |right; by exists op'].
        left. right. by rewrite bool_decide_eq_true_2.
    + destruct IH as (op' & Ho & Hd). exists op'. split; [by right|done].
  - exists op. split; [by left|]. rewrite addDependencies_spec in E. unfold DependenciesValid.
    destruct (badDependency _ _ _); [done|]. by case_bool_decide.
Qed.

(** The cycle search of a plan is exact and always returns.  In whatever order
    the map of operations is iterated, it reports [true] exactly when some
    operation names an empty, repeated or own dependency, or some operation
    depends on itself through others. *)
Theorem cycle_search_is_exact range ops :
  (forall g, Permutation (range g) (keysOf g)) ->
  exists b, hasDependencyCycleOrSelf range ops = Some b /\
    (b = true <->
     (exists op, In op ops /\ DependenciesValid op = false) \/ exists x, tc (dependsOn ops) x x).
Proof.
  intros HP. unfold hasDependencyCycleOrSelf. pose proof (buildGraph_spec ops ∅) as Hb.
  destruct (buildGraph ops ∅) as [g|]; [|exists true; split; [done|]; split; [by left|done]].
  destruct Hb as [Hv He].
  assert (forall x y, edgeIn g x y <-> dependsOn ops x y) as Hedge.
  { intros x y. unfold edgeIn. rewrite He. unfold successors. rewrite lookup_empty. simpl. tauto. }
  assert (forall x, In x (range g) <-> x ∈ dom g) as Hr.
  { intros x. rewrite (HP g). unfold keysOf. rewrite elem_of_dom, in_map_iff. split.
    - intros ([k l] & <- & Hin). exists l. by apply elem_of_map_to_list, list_elem_of_In.
    - intros [l Hl]. exists (x, l). split; [done|]. by apply list_elem_of_In, elem_of_map_to_list. }
  destruct (visitRoots_spec g (searchFuel g) (range g) ∅) as (b & -> & Hc).
  - unfold searchFuel. rewrite size_dom. lia.
  - intros x. by rewrite Hr.
  - split; intros ?; rewrite ?elem_of_empty; done.
  - intros x. rewrite Hr. by right.
  - exists b. split; [done|]. rewrite Hc. unfold cyclic. split.
    + intros [x Hx]. right. exists x. eapply tc_mono; [|exact Hx]. intros. by apply Hedge.
    + intros [(op & Ho & Hd)|[x Hx]].
      * rewrite List.Forall_forall in Hv. by rewrite Hv in Hd.
      * exists x. eapply tc_mono; [|exact Hx]. intros. by apply Hedge.
Qed.

Definition operation (id : string) (deps : list string) : DurableOperation :=
  {| do_ID := id; do_IdempotencyKey := id; do_EffectKey := id; do_Kind := "drain"; do_ResourceID := "vm";
     do_Payload := ""; do_Status := OperationPending; do_Attempts := 0; do_AvailableAt := Second;
     do_LeaseOwner := ""; do_LeaseUntil := zeroTime; do_LastError := ""; do_CreatedAt := zeroTime;
     do_UpdatedAt := zeroTime; do_DependsOn := deps |}.

Lemma cycle_search_is_exact_witness :
  hasDependencyCycleOrSelf keysOf [operation "a" ["b"]; operation "b" ["c"]; operation "c" ["a"]] = Some true /\
  hasDependencyCycleOrSelf keysOf [operation "a" ["b"; "c"]; operation "b" ["c"]] = Some false /\
  exists b, hasDependencyCycleOrSelf (fun g => rev (keysOf g)) [operation "a" ["b"; "c"]; operation "b" ["c"]]
            = Some b.
Proof.
  split; [vm_compute; reflexivity|]. split; [vm_compute; reflexivity|].
  destruct (cycle_search_is_exact (fun g => rev (keysOf g)) [operation "a" ["b"; "c"]; operation "b" ["c"]])
    as (b & E & _); [intros g; symmetry; apply Permutation_rev|].
  exists b. exact E.
Defined.
