(* ===== verification/Failure.v ===== *)
(** * Failure codes, escalation and retry
      (internal/lifecycle/executor.go and escalation.go,
       internal/operations/retry.go and discharge.go)

    The closed vocabulary in which a failed lifecycle operation is persisted and
    read back, the ladder a stubborn guest is stopped with, and the rules that
    bound how often and how long an operation is tried again. *)

From Stdlib Require Import ZArith Lia String.
From stdpp Require Import base tactics list strings pretty.
From S2P Require Import Prelude GoStrings Liveness Domain Operations.

(** ** The failure vocabulary *)

Inductive FailStage :=
  | StageClone | StageStart | StageReady | StageAcquire | StageBootstrap | StageRegister
  | StageGuard | StageDeregister | StageConfirm | StageStop | StageDelete | StagePersist.

#[export] Instance FailStage_eq_dec : EqDecision FailStage.
Proof. solve_decision. Defined.

Definition stageText (s : FailStage) : string :=
  match s with
  | StageClone => "clone"
  | StageStart => "start"
  | StageReady => "ready"
  | StageAcquire => "acquire_jit"
  | StageBootstrap => "bootstrap"
  | StageRegister => "register"
  | StageGuard => "drain_guard"
  | StageDeregister => "deregister"
  | StageConfirm => "confirm_inactive"
  | StageStop => "stop"
  | StageDelete => "delete"
  | StagePersist => "persist"
  end.

Definition failureStages : list FailStage :=
  [StageClone; StageStart; StageReady; StageAcquire; StageBootstrap; StageRegister;
   StageGuard; StageDeregister; StageConfirm; StageStop; StageDelete; StagePersist].

Definition RunnerFailureReasons : list string :=
  ["runner_busy"; "runner_forbidden"; "runner_admin_unavailable"; "runner_scope_unresolved";
   "runner_lookup_failed"; "runner_removal_failed"; "deregister_failed"].

Definition BootstrapFailureReasons : list string :=
  ["guest_capability_missing"; "guest_capability_unverifiable"].

Record stageError := {
  err_stage : FailStage;
  err_reason : string;
  err_stopAttempts : Z;
  err_exhausted : bool
}.

Definition safeError (s : FailStage) : stageError :=
  {| err_stage := s; err_reason := ""; err_stopAttempts := 0; err_exhausted := false |}.

Definition exhaustedError (s : FailStage) : stageError :=
  {| err_stage := s; err_reason := ""; err_stopAttempts := 0; err_exhausted := true |}.

Definition reasonError (s : FailStage) (reason : string) : stageError :=
  {| err_stage := s; err_reason := reason; err_stopAttempts := 0; err_exhausted := false |}.

Definition stopError (n : Z) : stageError :=
  {| err_stage := StageStop; err_reason := ""; err_stopAttempts := n; err_exhausted := false |}.

(** [stageError.Error]. *)
Definition errorText (e : stageError) : string :=
  if bool_decide (err_stage e = StageStop) && (0 <? err_stopAttempts e)
  then "runner lifecycle failed at stop (attempt " +:+ pretty (err_stopAttempts e) +:+ ")"
  else if bool_decide (err_reason e = "") then "runner lifecycle failed at " +:+ stageText (err_stage e)
  else "runner lifecycle failed at " +:+ stageText (err_stage e) +:+ " (" +:+ err_reason e +:+ ")".

Definition CodeUnclassified : string := "unclassified".

Definition GracefulStopAttempts : Z := 3.
Definition ForcedStopAttempts : Z := 3.
Definition DestructiveStopAttempts : Z := 3.

(** [for n := 1; n <= 9; n++]. *)
Definition stopAttemptNumbers : list Z :=
  seqZ 1 (GracefulStopAttempts + ForcedStopAttempts + DestructiveStopAttempts).

Definition reasonCode (persisted : string) (stage : FailStage) : option string :=
  reason ← List.find (fun r => bool_decide (persisted = errorText (reasonError stage r)))
             (RunnerFailureReasons ++ BootstrapFailureReasons);
  Some (stageText stage +:+ ":" +:+ reason).

Fixpoint stageCode (persisted : string) (stages : list FailStage) : string :=
  match stages with
  | [] => CodeUnclassified
  | stage :: rest =>
      if bool_decide (persisted = errorText (safeError stage)) then stageText stage
      else match reasonCode persisted stage with
           | Some code => code
           | None => stageCode persisted rest
           end
  end.

Definition FailureCode (persisted : string) : string :=
  if existsb (fun n => bool_decide (persisted = errorText (stopError n))) stopAttemptNumbers
  then stageText StageStop
  else stageCode persisted failureStages.

(** ** The stop ladder *)

Inductive StopForce := StopGraceful | StopForced | StopDestructive | StopExhausted.

#[export] Instance StopForce_eq_dec : EqDecision StopForce.
Proof. solve_decision. Defined.

Definition StopEscalation (stopAttempts : Z) : StopForce :=
  if stopAttempts <? GracefulStopAttempts then StopGraceful
  else if stopAttempts <? GracefulStopAttempts + ForcedStopAttempts then StopForced
  else if stopAttempts <? GracefulStopAttempts + ForcedStopAttempts + DestructiveStopAttempts
  then StopDestructive
  else StopExhausted.

Definition StopAttempts (op : DurableOperation) : Z :=
  match List.find (fun n => bool_decide (do_LastError op = errorText (stopError n))) stopAttemptNumbers with
  | Some n => n
  | None =>
      if bool_decide (FailureCode (do_LastError op) = stageText StageStop) && (0 <? do_Attempts op)
      then 1 else 0
  end.

(** ** Retry *)

Record RetryPolicy := {
  Initial : Duration;
  Maximum : Duration;
  MaxAttempts : Z;
  MaxElapsed : Duration;
  Jitter : option (Z -> Duration -> Duration)
}.

Definition DurableCleanupMaxAttempts : Z := 720.
Definition DurableCleanupMaxElapsed : Duration := 6 * Hour.

Definition DurableCleanupRetryPolicy (maximum : Duration) : RetryPolicy :=
  {| Initial := 0; Maximum := maximum; MaxAttempts := DurableCleanupMaxAttempts;
     MaxElapsed := DurableCleanupMaxElapsed; Jitter := None |}.

(** The doubling loop, left early at the maximum. *)
Fixpoint backoffLoop (rounds : nat) (delay maximum : Duration) : Duration :=
  match rounds with
  | O => delay
  | S rounds' =>
      if (0 <? maximum) && (Z.quot maximum 2 <=? delay) then maximum
      else backoffLoop rounds' (mul64 delay 2) maximum
  end.

Definition capped (p : RetryPolicy) (delay : Duration) : Duration :=
  if (0 <? Maximum p) && (Maximum p <? delay) then Maximum p else delay.

Definition retryDelay (p : RetryPolicy) (attempt : Z) : Duration :=
  let initial := if Initial p <=? 0 then Second else Initial p in
  let delay := capped p (backoffLoop (Z.to_nat (attempt - 1)) initial (Maximum p)) in
  match Jitter p with
  | None => delay
  | Some jitter => capped p (Z.max 0 (add64 delay (jitter attempt delay)))
  end.

(** [None] is [time.Time{}, false]: no further attempt. *)
Definition Next (p : RetryPolicy) (attempt : Z) (now startedAt : Time) : option Time :=
  if (0 <? MaxAttempts p) && (MaxAttempts p <=? attempt) then None
  else if (0 <? MaxElapsed p) && negb (IsZero startedAt)
          && negb (Before now (TimeAdd startedAt (MaxElapsed p))) then None
  else Some (TimeAdd now (retryDelay p attempt)).

(** ** Automatic cleanup recovery *)

Definition MaxCleanupResumptions : Z := 3.
Definition CleanupResumptionBackoff : Duration := 10 * Minute.

Definition CleanupResumptionDue (resumed : Z) (deadAt now : Time) : bool :=
  if (resumed <? 0) || (MaxCleanupResumptions <=? resumed) then false
  else if resumed =? 0 then true
  else negb (IsZero deadAt) && negb (Before now deadAt)
       && (wrap64 (Z.shiftl CleanupResumptionBackoff (resumed - 1)) <=? TimeSub now deadAt).

(** ** The vocabulary reads back *)

Definition reasons : list string := RunnerFailureReasons ++ BootstrapFailureReasons.

(** The errors an executor authors: a stage, a stage with a reason, or a counted
    stop failure. *)
Definition vocabulary : list (stageError * string) :=
  map (fun n => (stopError n, stageText StageStop)) stopAttemptNumbers
  ++ (s ← failureStages;
      (safeError s, stageText s)
      :: map (fun r => (reasonError s r, stageText s +:+ ":" +:+ r)) reasons).

Lemma vocabulary_readback :
  forallb (fun '(e, code) => bool_decide (FailureCode (errorText e) = code)) vocabulary = true.
Proof. vm_compute. reflexivity. Qed.

Lemma reasonCode_vocabulary text s code :
  reasonCode text s = Some code -> exists r, In r reasons /\ text = errorText (reasonError s r) /\
    code = stageText s +:+ ":" +:+ r.
Proof.
  unfold reasonCode. destruct (List.find _ _) as [r|] eqn:E; simpl; [|done]. intros [= <-].
  apply find_some in E as [Hr Ht]. apply bool_decide_eq_true_1 in Ht. by exists r.
Qed.

Lemma stageCode_vocabulary text stages :
  stageCode text stages = CodeUnclassified \/
  exists s, In s stages /\
    ((text = errorText (safeError s) /\ stageCode text stages = stageText s) \/
     exists r, In r reasons /\ text = errorText (reasonError s r) /\
               stageCode text stages = stageText s +:+ ":" +:+ r).
Proof.
  induction stages as [|s stages IH]; simpl; [by left|].
  case_bool_decide as Hs; [right; exists s; split; [by left|by left]|].
  destruct (reasonCode text s) as [code|] eqn:E.
  - apply reasonCode_vocabulary in E as (r & Hr & Ht & ->). right. exists s.
    split; [by left|]. right. by exists r.
  - destruct IH as [IH|(s' & Hs' & IH)]; [by left|]. right. exists s'. split; [by right|done].
Qed.

Lemma in_vocabulary_stage s : In s failureStages -> In (safeError s, stageText s) vocabulary.
Proof.
  intros Hs. apply in_or_app. right. apply list_elem_of_In, list_elem_of_bind. exists s.
  split; [left|by apply list_elem_of_In].
Qed.

Lemma in_vocabulary_reason s r :
  In s failureStages -> In r reasons -> In (reasonError s r, stageText s +:+ ":" +:+ r) vocabulary.
Proof.
  intros Hs Hr. apply in_or_app. right. apply list_elem_of_In, list_elem_of_bind. exists s.
  split; [right|by apply list_elem_of_In]. apply list_elem_of_In, in_map_iff. by exists r.
Qed.

(** A persisted lifecycle failure reads back as the code it was written for,
    and nothing else does.  Every error an executor can author has its own code,
    stop failures included whatever their attempt; a stored text that is none of
    these, such as a panic message, reads as unclassified and is never echoed. *)
Theorem failure_codes_read_back :
  (forall e code, In (e, code) vocabulary -> FailureCode (errorText e) = code) /\
  (forall text, FailureCode text <> CodeUnclassified ->
     exists e code, In (e, code) vocabulary /\ text = errorText e /\ FailureCode text = code).
Proof.
  pose proof vocabulary_readback as Hv. rewrite forallb_forall in Hv. split.
  - intros e code Hin. specialize (Hv (e, code) Hin). by apply bool_decide_eq_true_1 in Hv.
  - intros text. unfold FailureCode. destruct (existsb _ stopAttemptNumbers) eqn:E.
    + intros _. apply existsb_exists in E as (n & Hn & Ht). apply bool_decide_eq_true_1 in Ht.
      exists (stopError n), (stageText StageStop). split; [|done].
      apply in_or_app. left. apply in_map_iff. by exists n.
    + intros Hne. destruct (stageCode_vocabulary text failureStages) as [?|(s & Hs & Hd)]; [done|].
      destruct Hd as [[Ht Hc]|(r & Hr & Ht & Hc)].
      * exists (safeError s), (stageText s). split; [by apply in_vocabulary_stage|done].
      * exists (reasonError s r), (stageText s +:+ ":" +:+ r). split; [by apply in_vocabulary_reason|done].
Qed.

(** ** Backoff *)

Lemma backoffLoop_spec n delay maximum :
  0 < delay -> 0 < maximum <= maxInt64 ->
  backoffLoop n delay maximum =
    if bool_decide (n <> 0%nat) && (maximum / 2 <=? delay * 2 ^ (Z.of_nat n - 1)) then maximum
    else delay * 2 ^ Z.of_nat n.
Proof.
  revert delay. induction n as [|n IH]; intros delay Hd Hm.
  { rewrite bool_decide_eq_false_2 by tauto. simpl. lia. }
  rewrite bool_decide_eq_true_2 by done. cbn [backoffLoop andb].
  rewrite (proj2 (Z.ltb_lt 0 maximum)) by lia. cbn [andb]. rewrite Z.quot_div_nonneg by lia.
  replace (Z.of_nat (S n) - 1) with (Z.of_nat n) by lia.
  assert (1 <= 2 ^ Z.of_nat n) by (apply (Z.pow_le_mono_r 2 0); lia).
  pose proof (Z.div_mod maximum 2 ltac:(lia)) as Hdiv.
  pose proof (Z.mod_pos_bound maximum 2 ltac:(lia)).
  destruct (Z.leb_spec (maximum / 2) delay); [by rewrite (proj2 (Z.leb_le _ _)) by nia|].
  assert (mul64 delay 2 = delay * 2) as -> by (apply wrap64_id; unfold int64, minInt64, maxInt64 in *; lia).
  rewrite IH by lia. rewrite Nat2Z.inj_succ, Z.pow_succ_r by lia.
  destruct n as [|n].
  - rewrite bool_decide_eq_false_2 by tauto. change (2 ^ Z.of_nat 0) with 1. cbn [andb].
    destruct (Z.leb_spec (maximum / 2) (delay * 1)); lia.
  - rewrite bool_decide_eq_true_2 by done. cbn [andb].
    replace (delay * 2 * 2 ^ (Z.of_nat (S n) - 1)) with (delay * 2 ^ Z.of_nat (S n));
      [by destruct (_ <=? _); [|lia]|].
    rewrite <- Z.mul_assoc, <- Z.pow_succ_r by lia. do 2 f_equal. lia.
Qed.

Definition initialDelay (p : RetryPolicy) : Duration := if Initial p <=? 0 then Second else Initial p.

Lemma initialDelay_pos p : 0 < initialDelay p.
Proof. unfold initialDelay, Second. destruct (Z.leb_spec (Initial p) 0); lia. Qed.

Lemma retryDelay_range p attempt :
  0 < Maximum p <= maxInt64 -> 0 <= retryDelay p attempt <= Maximum p.
Proof.
  intros Hm. pose proof (initialDelay_pos p) as Hi.
  pose proof (backoffLoop_spec (Z.to_nat (attempt - 1)) (initialDelay p) (Maximum p) Hi Hm) as Hb.
  assert (0 <= backoffLoop (Z.to_nat (attempt - 1)) (initialDelay p) (Maximum p)) as H0.
  { rewrite Hb. destruct (_ && _); [lia|]. apply Z.mul_nonneg_nonneg; [lia|]. apply Z.pow_nonneg. lia. }
  assert (forall d, 0 <= d -> 0 <= capped p d <= Maximum p) as Hc.
  { intros d Hd. unfold capped. rewrite (proj2 (Z.ltb_lt 0 (Maximum p))) by lia. simpl.
    destruct (Z.ltb_spec (Maximum p) d); lia. }
  unfold retryDelay. fold (initialDelay p). destruct (Jitter p); apply Hc; [lia|done].
Qed.

(** A retried operation backs off and gives up.  A granted attempt lies within
    [Maximum] of now whatever the jitter, its number is below the attempt
    ceiling, and with an elapsed bound it is due before creation plus that bound
    plus [Maximum]; past either bound nothing is granted.  Without jitter the
    delay doubles from [Initial] and jumps to [Maximum] from half of it on. *)
Theorem retry_backs_off_and_gives_up p attempt now startedAt :
  0 < Maximum p <= maxInt64 -> 1 <= attempt ->
  (forall t, Next p attempt now startedAt = Some t ->
     now <= t <= now + Maximum p /\
     (0 < MaxAttempts p -> attempt < MaxAttempts p) /\
     (0 < MaxElapsed p -> startedAt <> zeroTime -> t < startedAt + MaxElapsed p + Maximum p) /\
     (Jitter p = None -> t = now +
        if (1 <? attempt) && (Maximum p / 2 <=? initialDelay p * 2 ^ (attempt - 2)) then Maximum p
        else Z.min (initialDelay p * 2 ^ (attempt - 1)) (Maximum p))) /\
  (Next p attempt now startedAt = None <->
     0 < MaxAttempts p <= attempt \/
     (0 < MaxElapsed p /\ startedAt <> zeroTime /\ startedAt + MaxElapsed p <= now)).
Proof.
  intros Hm Ha. pose proof (retryDelay_range p attempt Hm) as Hr. pose proof (initialDelay_pos p) as Hi.
  unfold Next, IsZero, Before, TimeAdd, zeroTime.
  destruct ((0 <? MaxAttempts p) && _) eqn:E1; [split; [done|]; split; [|done]; intros _; bool_to_prop; lia|].
  destruct ((0 <? MaxElapsed p) && _ && _) eqn:E2;
    [split; [done|]; split; [|done]; intros _; bool_to_prop; lia|].
  split; [|split; [done|intros Hn; exfalso; bool_to_prop; lia]].
  intros t [= <-]. split; [lia|]. split; [intros; bool_to_prop; lia|].
  split; [intros; bool_to_prop; lia|]. intros Hj. f_equal. unfold retryDelay. rewrite Hj.
  fold (initialDelay p). rewrite backoffLoop_spec by done. unfold capped.
  rewrite (proj2 (Z.ltb_lt 0 (Maximum p))) by lia. simpl.
  rewrite Z2Nat.id by lia. replace (attempt - 1 - 1) with (attempt - 2) by lia.
  assert (bool_decide (Z.to_nat (attempt - 1) <> 0%nat) = (1 <? attempt)) as ->.
  { case_bool_decide; destruct (Z.ltb_spec 1 attempt); lia. }
  destruct ((1 <? attempt) && _); rewrite ?andb_true_l; [by rewrite Z.ltb_irrefl|].
  destruct (Z.ltb_spec (Maximum p) (initialDelay p * 2 ^ (attempt - 1))); lia.
Qed.

Lemma retry_backs_off_and_gives_up_witness :
  let p := DurableCleanupRetryPolicy (30 * Second) in
  Next p 4 (100 * Second) (90 * Second) = Some (108 * Second) /\
  Next p 720 (100 * Second) (90 * Second) = None.
Proof.
  intros p. split; [vm_compute; reflexivity|].
  refine (proj2 (proj2 (retry_backs_off_and_gives_up p 720 (100 * Second) (90 * Second) _ _)) _).
  - vm_compute. split; [reflexivity|discriminate].
  - lia.
  - left. vm_compute. split; [reflexivity|discriminate].
Defined.
