(* ===== verification/Effects.v ===== *)
(** * Programs that call ports

    The lifecycle code talks to the store, the machine, the guest and GitHub
    through interfaces.  A body of such code is a [Prog]: a tree of calls, each
    with a continuation for its answer.  An environment answers a call from
    everything that has happened so far, so quantifying over environments covers
    every schedule of failures and of other controllers' writes. *)

From Stdlib Require Import ZArith Lia List.
From stdpp Require Import base tactics list.
From S2P Require Import Prelude.

Inductive Prog (E : Set -> Type) (A : Set) : Type :=
  | Ret (a : A)
  | Do {X : Set} (c : E X) (k : X -> Prog E A).

Arguments Ret {E A} a.
Arguments Do {E A X} c k.

Fixpoint bindProg {E} {A B : Set} (p : Prog E A) (f : A -> Prog E B) : Prog E B :=
  match p with
  | Ret a => f a
  | Do c k => Do c (fun x => bindProg (k x) f)
  end.

Declare Scope prog_scope.
Delimit Scope prog_scope with prog.
Notation "x <~ c ;; k" := (Do c (fun x => k))
  (at level 100, c at next level, k at level 200, right associativity) : prog_scope.
Notation "x <~~ p ;; k" := (bindProg p (fun x => k))
  (at level 100, p at next level, k at level 200, right associativity) : prog_scope.

(** What happened: a call and the answer it got. *)
Inductive Event (E : Set -> Type) :=
  | Ev {X : Set} (c : E X) (x : X).
Arguments Ev {E X} c x.

Definition Env (E : Set -> Type) : Type := forall X : Set, list (Event E) -> E X -> X.

(** The events of a run are appended to the history it starts from. *)
Fixpoint run {E} {A : Set} (env : Env E) (h : list (Event E)) (p : Prog E A) : list (Event E) * A :=
  match p with
  | Ret a => (h, a)
  | Do c k => let x := env _ h c in run env (h ++ [Ev c x]) (k x)
  end.

(** Replaces each call by a program over other ports. *)
Fixpoint interp {E F} {A : Set} (handle : forall X : Set, E X -> Prog F X) (p : Prog E A) : Prog F A :=
  match p with
  | Ret a => Ret a
  | Do c k => bindProg (handle _ c) (fun x => interp handle (k x))
  end.

(** ** Reasoning about all runs at once

    [wp] asks of every answer the contract [allows] that the event satisfies
    [guard] after the history before it, and of the end that it satisfies
    [post]. *)

Section Wp.
Context {E : Set -> Type}.
Variable allows guard : list (Event E) -> Event E -> Prop.

Fixpoint wp {A : Set} (h : list (Event E)) (p : Prog E A) (post : list (Event E) -> A -> Prop) : Prop :=
  match p with
  | Ret a => post h a
  | Do c k => forall x, allows h (Ev c x) -> guard h (Ev c x) /\ wp (h ++ [Ev c x]) (k x) post
  end.

Lemma wp_bind {A B : Set} (p : Prog E A) (f : A -> Prog E B) h post :
  wp h p (fun h' a => wp h' (f a) post) -> wp h (bindProg p f) post.
Proof.
  revert h. induction p as [a|X c k IH]; intros h; simpl; [done|].
  intros Hw x Hx. destruct (Hw x Hx) as [Hg Hk]. split; [done|]. by apply IH.
Qed.

Lemma wp_mono {A : Set} (p : Prog E A) h (post post' : list (Event E) -> A -> Prop) :
  (forall h' a, post h' a -> post' h' a) -> wp h p post -> wp h p post'.
Proof.
  intros Hp. revert h. induction p as [a|X c k IH]; intros h; simpl; [apply Hp|].
  intros Hw x Hx. destruct (Hw x Hx) as [Hg Hk]. split; [done|]. by apply IH.
Qed.

(** Every event from position [n] on satisfied the guard when it happened. *)
Definition guardedFrom (n : nat) (h : list (Event E)) : Prop :=
  forall t1 ev t2, h = t1 ++ ev :: t2 -> (n <= length t1)%nat -> guard t1 ev.

Lemma guardedFrom_refl h : guardedFrom (length h) h.
Proof. intros t1 ev t2 -> Hn. rewrite length_app in Hn. simpl in Hn. lia. Qed.

Lemma guardedFrom_snoc n h ev : guardedFrom n h -> guard h ev -> guardedFrom n (h ++ [ev]).
Proof.
  intros Hn Hg t1 ev' t2 Ht Hl. destruct t2 as [|ev2 t2 _] using rev_ind.
  - apply app_inj_tail in Ht as [<- <-]. done.
  - rewrite app_comm_cons, app_assoc in Ht. apply app_inj_tail in Ht as [-> _]. by eapply Hn.
Qed.

Lemma wp_run {A : Set} (env : Env E) (p : Prog E A) h n post :
  (forall (X : Set) h (c : E X), allows h (Ev c (env X h c))) -> guardedFrom n h -> wp h p post ->
  post (fst (run env h p)) (snd (run env h p)) /\ guardedFrom n (fst (run env h p)).
Proof.
  intros Hc. revert h. induction p as [a|X c k IH]; intros h Hn Hw; simpl; [done|].
  destruct (Hw (env X h c) (Hc X h c)) as [Hg Hk]. apply IH; [by apply guardedFrom_snoc|done].
Qed.

End Wp.

(** A stronger contract leaves fewer runs. *)
Lemma wp_contract {E} {A : Set} (allows allows' guard : list (Event E) -> Event E -> Prop) (p : Prog E A) post : forall h,
  (forall h ev, allows' h ev -> allows h ev) -> wp allows guard h p post -> wp allows' guard h p post.
Proof.
  induction p as [a|X c k IH]; intros h Ha; simpl; [done|]. intros Hw x Hx.
  destruct (Hw x (Ha _ _ Hx)) as [Hg Hk]. split; [done|]. by apply IH.
Qed.

(** Without a contract every answer is possible. *)
Definition anyAnswer {E} (h : list (Event E)) (ev : Event E) : Prop := True.

(** Every event of a run carries the environment's own answer. *)
Definition answeredBy {E} (env : Env E) (h : list (Event E)) (ev : Event E) : Prop :=
  match ev with Ev c x => x = env _ h c end.

Lemma run_answered {E} {A : Set} (env : Env E) (p : Prog E A) before ev after :
  fst (run env [] p) = before ++ ev :: after -> answeredBy env before ev.
Proof.
  intros Hr. assert (forall h, wp (answeredBy env) (answeredBy env) h p (fun _ _ => True)) as Hw.
  { clear Hr. induction p as [a|X c k IH]; intros h; simpl; [done|]. intros x Hx. split; [exact Hx|apply IH]. }
  destruct (wp_run (answeredBy env) (answeredBy env) env p [] 0 (fun _ _ => True)) as [_ Hg].
  - done.
  - apply (guardedFrom_refl _ []).
  - apply Hw.
  - apply (Hg before ev after Hr). lia.
Qed.

(** ** Running on a state

    [step] answers a call from the state and changes it; what it does may depend
    on the history, so others may write between two calls. *)

Section Execute.
Context {E : Set -> Type} {W : Type}.
Variable step : forall X : Set, list (Event E) -> W -> E X -> W * X.

Fixpoint execute {A : Set} (h : list (Event E)) (w : W) (p : Prog E A) : list (Event E) * W * A :=
  match p with
  | Ret a => (h, w, a)
  | Do c k => let '(w', x) := step _ h w c in execute (h ++ [Ev c x]) w' (k x)
  end.

Definition historyOf {A : Set} (r : list (Event E) * W * A) : list (Event E) := fst (fst r).
Definition stateOf {A : Set} (r : list (Event E) * W * A) : W := snd (fst r).

Variable allows guard : list (Event E) -> Event E -> Prop.
Variable inv : list (Event E) -> W -> Prop.
Hypothesis steps : forall (X : Set) h w (c : E X), inv h w ->
  allows h (Ev c (snd (step X h w c))) /\ inv (h ++ [Ev c (snd (step X h w c))]) (fst (step X h w c)).

Lemma wp_execute {A : Set} (p : Prog E A) post n : forall h w,
  inv h w -> guardedFrom guard n h -> wp allows guard h p post ->
  post (historyOf (execute h w p)) (snd (execute h w p)) /\
  guardedFrom guard n (historyOf (execute h w p)) /\
  inv (historyOf (execute h w p)) (stateOf (execute h w p)).
Proof.
  induction p as [a|X c k IH]; intros h w Hi Hg Hw; simpl; [done|].
  destruct (steps X h w c Hi) as [Ha Hi']. destruct (step X h w c) as [w' x]. simpl in Ha, Hi'.
  destruct (Hw x Ha) as [Hgx Hk]. apply IH; [done|by apply guardedFrom_snoc|done].
Qed.

End Execute.

(** ** A program inside a larger one *)

Section Lift.
Context {E F : Set -> Type} (inj : forall X : Set, E X -> F X).

Definition liftEvent (ev : Event E) : Event F := match ev with Ev c x => Ev (inj _ c) x end.

Variable base : list (Event F).
Variables (allowsE guardE : list (Event E) -> Event E -> Prop) (allowsF guardF : list (Event F) -> Event F -> Prop).
Hypothesis allowed : forall h ev, allowsF (base ++ map liftEvent h) (liftEvent ev) -> allowsE h ev.
Hypothesis guarded : forall h ev, guardE h ev -> guardF (base ++ map liftEvent h) (liftEvent ev).

Lemma wp_lift {A : Set} (p : Prog E A) post : forall h,
  wp allowsE guardE h p post ->
  wp allowsF guardF (base ++ map liftEvent h) (interp (fun X c => Do (inj X c) Ret) p)
    (fun h' a => exists hE, h' = base ++ map liftEvent hE /\ post hE a).
Proof.
  induction p as [a|X c k IH]; intros h Hw; simpl; [by exists h|]. intros x Hx.
  destruct (Hw x (allowed h (Ev c x) Hx)) as [Hg Hk]. split; [by apply (guarded h (Ev c x))|].
  specialize (IH x (h ++ [Ev c x]) Hk). by rewrite map_app, app_assoc in IH.
Qed.

End Lift.

(** ** Composition

    A program over ports [E], run over ports [F] that implement them: if [rel]
    links what the program has seen to what happened underneath, and every
    implementation of a call the program is entitled to keeps the link and its
    own guard, then so does the whole. *)

Section Simulation.
Context {E F : Set -> Type}.
Variable handle : forall X : Set, E X -> Prog F X.
Variable guardE : list (Event E) -> Event E -> Prop.
Variable guardF : list (Event F) -> Event F -> Prop.
Variable rel : list (Event E) -> list (Event F) -> Prop.

Hypothesis implements : forall (X : Set) (c : E X) hE hF,
  rel hE hF -> (forall x, guardE hE (Ev c x)) ->
  wp anyAnswer guardF hF (handle X c) (fun hF' x => rel (hE ++ [Ev c x]) hF').

Lemma wp_interp {A : Set} (p : Prog E A) hE hF post :
  rel hE hF -> wp anyAnswer guardE hE p post ->
  wp anyAnswer guardF hF (interp handle p) (fun hF' a => exists hE', rel hE' hF' /\ post hE' a).
Proof.
  revert hE hF. induction p as [a|X c k IH]; intros hE hF Hr Hw; simpl; [by exists hE|].
  apply wp_bind. eapply wp_mono; [|apply (implements X c hE hF Hr); intros x; by apply Hw].
  intros hF' x Hr'. apply (IH x (hE ++ [Ev c x])); [done|]. by apply Hw.
Qed.

End Simulation.
