(* ===== verification/Store.v ===== *)
(** * The durable store (internal/adapters/sqlite)

    The tables of the SQLite store and its transactions, as functions from
    database to database.  A transaction that fails returns an error and the
    database it was given, which is what its deferred rollback leaves behind; a
    driver failure is such an error and is not modelled separately.

    - A table with a primary key is a finite map from the key.  [UNIQUE] and
      [FOREIGN KEY] constraints are tests before the insertion.
    - A JSON column is represented by the struct the column encodes.
    - An instant is stored as [UnixNano], a 64-bit count from 1970.
    - An integer column incremented in SQL does not wrap. *)

From Stdlib Require Import ZArith Lia String Permutation Sorted.
From stdpp Require Import base tactics list gmap strings relations.
From S2P Require Import Prelude GoStrings Liveness Domain Operations Failure.

(** ** Instants in the database *)

Definition unixEpoch : Time := unixToInternal * Second.

Definition UnixNano (t : Time) : Z := wrap64 (t - unixEpoch).

Definition fromNanos (value : Z) : Time :=
  if value =? 0 then zeroTime else unixEpoch + value.

(** ** Errors *)

Inductive StoreError :=
  | ErrNotFound
  | ErrConflict
  | ErrLeaseHeld
  | ErrLeaseLost
  | ErrInvalid
  | ErrConstraint
  | ErrSchedulerStateMissing
  | ErrResourceMismatch
  | ErrNotDeadLettered
  | ErrResourceProgressing
  | ErrInstanceNotReapable
  | ErrResumptionNotDue
  | ErrUncertain.

#[export] Instance StoreError_eq_dec : EqDecision StoreError.
Proof. solve_decision. Defined.

Definition Result (A : Type) : Type := StoreError + A.

Definition rbind {A B} (x : Result A) (k : A -> Result B) : Result B :=
  match x with inl e => inl e | inr a => k a end.

Declare Scope store_scope.
Notation "x <-- e ;; k" := (rbind e (fun x => k))
  (at level 100, e at next level, k at level 200, right associativity) : store_scope.
#[local] Open Scope store_scope.

(** ** Tables *)

Record OpRow := {
  o_key : string;
  o_effect : string;
  o_kind : string;
  o_resource : string;
  o_payload : string;
  o_status : OperationStatus;
  o_attempts : Z;
  o_available : Z;
  o_owner : string;
  o_until : Z;
  o_error : string;
  o_created : Z;
  o_updated : Z
}.

Record HistoryRow := {
  h_instance : string;
  h_from : InstanceState;
  h_to : InstanceState;
  h_version : Z;
  h_operation : option string;
  h_created : Z
}.

Record LeaseRow := { l_owner : string; l_token : Z; l_expires : Z }.

Record Db := {
  db_instances : gmap string InstanceRow;
  db_operations : gmap string OpRow;
  db_dependencies : gset (string * string);
  db_effects : gmap string string;
  db_history : list HistoryRow;
  db_leases : gmap string LeaseRow;
  db_plans : gmap string string;
  db_scheduler : option SchedulerState;
  db_ownership : gmap string Ownership
}.

Definition coldState : SchedulerState :=
  {| ss_Version := 0; ss_Data := "{}"; ss_Reservations := "[]"; ss_DeficitRoundRobin := "{}";
     ss_ObservationCursor := "" |}.

(** A database migrated from nothing. *)
Definition emptyDb : Db :=
  {| db_instances := ∅; db_operations := ∅; db_dependencies := ∅; db_effects := ∅; db_history := [];
     db_leases := ∅; db_plans := ∅; db_scheduler := Some coldState; db_ownership := ∅ |}.

Definition setInstances (db : Db) (m : gmap string InstanceRow) : Db :=
  {| db_instances := m; db_operations := db_operations db; db_dependencies := db_dependencies db;
     db_effects := db_effects db; db_history := db_history db; db_leases := db_leases db;
     db_plans := db_plans db; db_scheduler := db_scheduler db; db_ownership := db_ownership db |}.

Definition setOperations (db : Db) (m : gmap string OpRow) : Db :=
  {| db_instances := db_instances db; db_operations := m; db_dependencies := db_dependencies db;
     db_effects := db_effects db; db_history := db_history db; db_leases := db_leases db;
     db_plans := db_plans db; db_scheduler := db_scheduler db; db_ownership := db_ownership db |}.

Definition setDependencies (db : Db) (s : gset (string * string)) : Db :=
  {| db_instances := db_instances db; db_operations := db_operations db; db_dependencies := s;
     db_effects := db_effects db; db_history := db_history db; db_leases := db_leases db;
     db_plans := db_plans db; db_scheduler := db_scheduler db; db_ownership := db_ownership db |}.

Definition setEffects (db : Db) (m : gmap string string) : Db :=
  {| db_instances := db_instances db; db_operations := db_operations db;
     db_dependencies := db_dependencies db; db_effects := m; db_history := db_history db;
     db_leases := db_leases db; db_plans := db_plans db; db_scheduler := db_scheduler db;
     db_ownership := db_ownership db |}.

Definition addHistory (db : Db) (row : HistoryRow) : Db :=
  {| db_instances := db_instances db; db_operations := db_operations db;
     db_dependencies := db_dependencies db; db_effects := db_effects db;
     db_history := db_history db ++ [row]; db_leases := db_leases db; db_plans := db_plans db;
     db_scheduler := db_scheduler db; db_ownership := db_ownership db |}.

Definition setLeases (db : Db) (m : gmap string LeaseRow) : Db :=
  {| db_instances := db_instances db; db_operations := db_operations db;
     db_dependencies := db_dependencies db; db_effects := db_effects db; db_history := db_history db;
     db_leases := m; db_plans := db_plans db; db_scheduler := db_scheduler db;
     db_ownership := db_ownership db |}.

Definition setPlan (db : Db) (id digest : string) (state : SchedulerState) : Db :=
  {| db_instances := db_instances db; db_operations := db_operations db;
     db_dependencies := db_dependencies db; db_effects := db_effects db; db_history := db_history db;
     db_leases := db_leases db; db_plans := <[id := digest]> (db_plans db);
     db_scheduler := Some state; db_ownership := db_ownership db |}.

Definition setScheduler (db : Db) (state : option SchedulerState) : Db :=
  {| db_instances := db_instances db; db_operations := db_operations db;
     db_dependencies := db_dependencies db; db_effects := db_effects db; db_history := db_history db;
     db_leases := db_leases db; db_plans := db_plans db; db_scheduler := state;
     db_ownership := db_ownership db |}.

Definition setOwnership (db : Db) (m : gmap string Ownership) : Db :=
  {| db_instances := db_instances db; db_operations := db_operations db;
     db_dependencies := db_dependencies db; db_effects := db_effects db; db_history := db_history db;
     db_leases := db_leases db; db_plans := db_plans db; db_scheduler := db_scheduler db;
     db_ownership := m |}.

(** ** Rows *)

(** [scanOperation]: the dependencies are not loaded. *)
Definition scanOperation (id : string) (row : OpRow) : DurableOperation :=
  {| do_ID := id; do_IdempotencyKey := o_key row; do_EffectKey := o_effect row; do_Kind := o_kind row;
     do_ResourceID := o_resource row; do_Payload := o_payload row; do_Status := o_status row;
     do_Attempts := o_attempts row; do_AvailableAt := fromNanos (o_available row);
     do_LeaseOwner := o_owner row; do_LeaseUntil := fromNanos (o_until row);
     do_LastError := o_error row; do_CreatedAt := fromNanos (o_created row);
     do_UpdatedAt := fromNanos (o_updated row); do_DependsOn := [] |}.

Definition payloadOrDefault (payload : string) : string :=
  if bool_decide (payload = "") then "{}" else payload.

Definition pendingRow (op : DurableOperation) (lastError : string) (now : Z) : OpRow :=
  {| o_key := do_IdempotencyKey op; o_effect := do_EffectKey op; o_kind := do_Kind op;
     o_resource := do_ResourceID op; o_payload := payloadOrDefault (do_Payload op);
     o_status := OperationPending; o_attempts := do_Attempts op;
     o_available := UnixNano (do_AvailableAt op); o_owner := ""; o_until := 0; o_error := lastError;
     o_created := now; o_updated := now |}.

Definition keyTaken (db : Db) (key : string) : bool :=
  existsb (fun entry => bool_decide (o_key (snd entry) = key)) (map_to_list (db_operations db)).

(** INSERT INTO operations: the primary key and the unique idempotency key. *)
Definition insertRow (db : Db) (id : string) (row : OpRow) : Result Db :=
  match db_operations db !! id with
  | Some _ => inl ErrConstraint
  | None => if keyTaken db (o_key row) then inl ErrConstraint
            else inr (setOperations db (<[id := row]> (db_operations db)))
  end.

Definition insertOperation (db : Db) (op : DurableOperation) (now : Time) : Result Db :=
  insertRow db (do_ID op) (pendingRow op (do_LastError op) (UnixNano now)).

(** The loop that checks and records the dependencies of one operation. *)
Fixpoint recordDependencies (db : Db) (id : string) (deps : list string) : Result Db :=
  match deps with
  | [] => inr db
  | d :: rest =>
      match db_operations db !! d with
      | None => inl ErrInvalid
      | Some _ =>
          if bool_decide ((id, d) ∈ db_dependencies db) then inl ErrConstraint
          else recordDependencies (setDependencies db ({[(id, d)]} ∪ db_dependencies db)) id rest
      end
  end.

(** Fold a transaction step over a list. *)
Fixpoint eachOf {A} (step : Db -> A -> Result Db) (l : list A) (db : Db) : Result Db :=
  match l with
  | [] => inr db
  | x :: rest => db' <-- step db x ;; eachOf step rest db'
  end.

(** ** Instances *)

(** The columns of [scheduling_metadata]. *)
Definition sameMetadata (a b : InstanceRow) : bool :=
  bool_decide (row_Repo a = row_Repo b) && bool_decide (row_Platform a = row_Platform b)
  && bool_decide (row_Profile a = row_Profile b) && bool_decide (row_Route a = row_Route b)
  && bool_decide (row_Resources a = row_Resources b) && bool_decide (row_Demand a = row_Demand b)
  && bool_decide (row_Image a = row_Image b).

(** A row as it reads back. *)
Definition stamped (i : InstanceRow) (state : InstanceState) (version phase : Z) (own : Ownership)
    (err : string) (created updated : Time) : InstanceRow :=
  {| row_ID := row_ID i; row_Repo := row_Repo i; row_Platform := row_Platform i;
     row_Profile := row_Profile i; row_Route := row_Route i; row_Resources := row_Resources i;
     row_Demand := row_Demand i; row_Image := row_Image i; row_State := state; row_Version := version;
     row_DrainPhase := phase; row_Ownership := own; row_LastError := err; row_CreatedAt := created;
     row_UpdatedAt := updated |}.

Definition insertInstance (db : Db) (i : InstanceRow) (now : Time) : Result Db :=
  match db_instances db !! row_ID i with
  | Some _ => inl ErrConstraint
  | None =>
      let at_ := fromNanos (UnixNano now) in
      inr (setInstances db (<[row_ID i := stamped i (row_State i) (row_Version i) (row_DrainPhase i)
             (row_Ownership i) (row_LastError i) at_ at_]> (db_instances db)))
  end.

Definition CreateInstance (clock : Time) (db : Db) (i : InstanceRow) : Result Db :=
  if bool_decide (row_ID i = "") || negb (ValidState (row_State i))
     || negb (Ownership_Valid (row_Ownership i)) || negb (SchedulingMetadataValid i)
  then inl ErrInvalid
  else insertInstance db i (if IsZero (row_CreatedAt i) then clock else row_CreatedAt i).

Definition Instance_read (db : Db) (id : string) : Result InstanceRow :=
  match db_instances db !! id with None => inl ErrNotFound | Some row => inr row end.

Definition applyIntent (created : Time) (db : Db) (intent : InstanceIntent) : Result Db :=
  let i := intent_Instance intent in
  if ExpectedVersion intent <? 0 then insertInstance db i created
  else
    match db_instances db !! row_ID i with
    | None => inl ErrConflict
    | Some row =>
        if (row_Version row =? ExpectedVersion intent)
           && bool_decide (row_State row = ExpectedState intent) && sameMetadata row i
        then inr (setInstances db (<[row_ID i := stamped row (row_State i) (row_Version i)
                    (row_DrainPhase i) (row_Ownership i) (row_LastError i) (row_CreatedAt row)
                    (fromNanos (UnixNano created))]> (db_instances db)))
        else inl ErrConflict
    end.

(** ** Plans *)

Definition jsonOrDefault (value fallback : string) : string :=
  if bool_decide (value = "") then fallback else value.

Definition persisted (s : SchedulerState) : SchedulerState :=
  {| ss_Version := ss_Version s; ss_Data := jsonOrDefault (ss_Data s) "{}";
     ss_Reservations := jsonOrDefault (ss_Reservations s) "[]";
     ss_DeficitRoundRobin := jsonOrDefault (ss_DeficitRoundRobin s) "{}";
     ss_ObservationCursor := ss_ObservationCursor s |}.

Definition SchedulerState_read (db : Db) : Result SchedulerState :=
  match db_scheduler db with None => inl ErrSchedulerStateMissing | Some s => inr s end.

Definition ReseedSchedulerState (db : Db) : Db :=
  match db_scheduler db with None => setScheduler db (Some coldState) | Some _ => db end.

(** [Plan.Digest]: SHA-256 of the JSON of the plan. *)
Class PlanDigest := { Digest : DurablePlan -> string }.

Definition ApplyPlan `{PlanDigest} (db : Db) (plan : DurablePlan) : Result (Db * bool) :=
  if negb (DurablePlan_Valid plan) then inl ErrInvalid
  else
    match db_plans db !! dp_ID plan with
    | Some existing => if bool_decide (existing = Digest plan) then inr (db, false) else inl ErrConflict
    | None =>
        match db_scheduler db with
        | None => inl ErrNotFound
        | Some current =>
            if negb (ss_Version current =? dp_ExpectedSchedulerVersion plan) then inl ErrConflict
            else
              db1 <-- eachOf (applyIntent (dp_CreatedAt plan)) (dp_Instances plan) db ;;
              db2 <-- eachOf (fun d op => insertOperation d op (dp_CreatedAt plan)) (dp_Operations plan) db1 ;;
              db3 <-- eachOf (fun d op => recordDependencies d (do_ID op) (do_DependsOn op))
                        (dp_Operations plan) db2 ;;
              inr (setPlan db3 (dp_ID plan) (Digest plan) (persisted (dp_Scheduler plan)), true)
        end
    end.

(** ** Lifecycle transitions *)

Definition withStateChange (row : InstanceRow) (next : InstanceState) (phase : Z) (err : string)
    (now : Time) : InstanceRow :=
  stamped row next (row_Version row + 1) phase (row_Ownership row) err (row_CreatedAt row)
    (fromNanos (UnixNano now)).

Record StateChange := {
  sc_InstanceID : string;
  sc_ExpectedState : InstanceState;
  sc_ExpectedVersion : Z;
  sc_NextState : InstanceState;
  sc_FailureCode : string;
  sc_SettlesID : string;
  sc_SettlesLeaseOwner : string;
  sc_Outcome : string
}.

Definition released (row : OpRow) (status : OperationStatus) (err : string) (now : Z) : OpRow :=
  {| o_key := o_key row; o_effect := o_effect row; o_kind := o_kind row; o_resource := o_resource row;
     o_payload := o_payload row; o_status := status; o_attempts := o_attempts row;
     o_available := o_available row; o_owner := ""; o_until := 0; o_error := err;
     o_created := o_created row; o_updated := now |}.

Definition stateChangeInvalid (c : StateChange) : bool :=
  bool_decide (sc_InstanceID c = "") || negb (ValidState (sc_ExpectedState c))
  || negb (ValidState (sc_NextState c))
  || negb (CanTransitionTo (sc_ExpectedState c) (sc_NextState c))
  || (64 <? Z.of_nat (String.length (sc_FailureCode c)))
  || negb (Bool.eqb (bool_decide (sc_NextState c = InstanceFailed)) (negb (bool_decide (sc_FailureCode c = ""))))
  || negb (Bool.eqb (negb (bool_decide (sc_SettlesID c = ""))) (negb (bool_decide (sc_Outcome c = ""))))
  || (64 <? Z.of_nat (String.length (sc_Outcome c))).

(** The guarded UPDATE of an instance and the history row that goes with it. *)
Definition moveInstance (db : Db) (id : string) (expected : InstanceState) (version : Z)
    (next : InstanceState) (phase : option Z) (err : string) (op : option string) (now : Time)
    : Result (Db * InstanceRow) :=
  match db_instances db !! id with
  | None => inl ErrConflict
  | Some row =>
      if bool_decide (row_State row = expected) && (row_Version row =? version) then
        let row' := withStateChange row next (default (row_DrainPhase row) phase) err now in
        inr (addHistory (setInstances db (<[id := row']> (db_instances db)))
               {| h_instance := id; h_from := expected; h_to := next; h_version := version + 1;
                  h_operation := op; h_created := UnixNano now |}, row')
      else inl ErrConflict
  end.

Definition settle (db : Db) (c : StateChange) (now : Time) : Result Db :=
  match db_operations db !! sc_SettlesID c with
  | None => inl ErrLeaseLost
  | Some row =>
      if bool_decide (o_resource row = sc_InstanceID c) && bool_decide (o_status row = OperationClaimed)
         && bool_decide (o_owner row = sc_SettlesLeaseOwner c)
      then inr (setOperations db (<[sc_SettlesID c :=
                  released row OperationCompleted (sc_Outcome c) (UnixNano now)]> (db_operations db)))
      else inl ErrLeaseLost
  end.

Definition Advance (clock : Time) (db : Db) (c : StateChange) : Result (Db * InstanceRow) :=
  if stateChangeInvalid c then inl ErrInvalid
  else
    moved <-- moveInstance db (sc_InstanceID c) (sc_ExpectedState c) (sc_ExpectedVersion c)
                (sc_NextState c) None (sc_FailureCode c) None clock ;;
    if bool_decide (sc_SettlesID c = "") then inr moved
    else db' <-- settle (fst moved) c clock ;; inr (db', snd moved).

Record Transition_ := {
  tr_InstanceID : string;
  tr_ExpectedState : InstanceState;
  tr_ExpectedVersion : Z;
  tr_NextState : InstanceState;
  tr_DrainPhase : Z;
  tr_LastError : string;
  tr_Operation : DurableOperation
}.

Definition operationByKey (db : Db) (key : string) : option (string * OpRow) :=
  List.find (fun entry => bool_decide (o_key (snd entry) = key)) (map_to_list (db_operations db)).

(** The whole transition.  A replay under the same idempotency key changes
    nothing. *)
Definition Transition (clock : Time) (db : Db) (t : Transition_) : Result (Db * InstanceRow) :=
  let op := tr_Operation t in
  if bool_decide (tr_InstanceID t = "") || negb (ValidState (tr_ExpectedState t))
     || negb (ValidState (tr_NextState t))
     || negb (CanTransitionTo (tr_ExpectedState t) (tr_NextState t))
     || negb (DurableOperation_Valid op)
  then inl ErrInvalid
  else
    match operationByKey db (do_IdempotencyKey op) with
    | Some _ =>
        row <-- Instance_read db (tr_InstanceID t) ;;
        if negb (bool_decide (row_State row = tr_NextState t))
           || (row_Version row <? tr_ExpectedVersion t + 1)
        then inl ErrConflict else inr (db, row)
    | None =>
        let now := if IsZero (do_CreatedAt op) then clock else do_CreatedAt op in
        moved <-- moveInstance db (tr_InstanceID t) (tr_ExpectedState t) (tr_ExpectedVersion t)
                    (tr_NextState t) (Some (tr_DrainPhase t)) (tr_LastError t) (Some (do_ID op)) now ;;
        db2 <-- insertRow (fst moved) (do_ID op) (pendingRow op "" (UnixNano now)) ;;
        db3 <-- recordDependencies db2 (do_ID op) (do_DependsOn op) ;;
        inr (db3, snd moved)
    end.

(** ** The demand an instance is bound to *)

Definition boundTo (row : InstanceRow) (repo : string) (demand : DemandKey) (at_ : Time) : InstanceRow :=
  {| row_ID := row_ID row; row_Repo := repo; row_Platform := row_Platform row; row_Profile := row_Profile row;
     row_Route := row_Route row; row_Resources := row_Resources row; row_Demand := demand;
     row_Image := row_Image row; row_State := row_State row; row_Version := row_Version row;
     row_DrainPhase := row_DrainPhase row; row_Ownership := row_Ownership row; row_LastError := row_LastError row;
     row_CreatedAt := row_CreatedAt row; row_UpdatedAt := at_ |}.

(** The guarded UPDATE of an instance's scheduling metadata.  The version stays. *)
Definition bindInstance (db : Db) (current : InstanceRow) (repo : string) (demand : DemandKey) (now : Time)
    : Result Db :=
  match db_instances db !! row_ID current with
  | None => inl ErrConflict
  | Some row =>
      if bool_decide (row_State row = row_State current) && (row_Version row =? row_Version current)
         && sameMetadata row current
      then inr (setInstances db (<[row_ID current := boundTo row repo demand (fromNanos (UnixNano now))]>
                  (db_instances db)))
      else inl ErrConflict
  end.

(** The exchange of two bindings in one transaction. *)
Definition swapInstances (db : Db) (source target : InstanceRow) (now : Time) : Result Db :=
  db1 <-- bindInstance db source (row_Repo target) (row_Demand target) now ;;
  bindInstance db1 target (row_Repo source) (row_Demand source) now.

(** ** The outbox *)

Definition statusOf (db : Db) (id : string) : option OperationStatus := o_status <$> db_operations db !! id.

(** One round of the recursive query: the operations that depend on a dead one
    or on one already doomed. *)
Definition doomedRound (db : Db) (doomed : gset string) : gset string :=
  set_map fst (filter (fun dep : string * string =>
    statusOf db (snd dep) = Some OperationDead \/ snd dep ∈ doomed) (db_dependencies db)).

(** [WITH RECURSIVE doomed]: rounds until nothing is added; each adds a
    dependent or is the last. *)
Definition doomedOf (db : Db) : gset string :=
  Nat.iter (S (size (db_dependencies db))) (doomedRound db) ∅.

Definition propagate (now : Time) (db : Db) : Db :=
  let doomed := doomedOf db in
  setOperations db (map_imap (fun id row =>
    Some (if bool_decide (o_status row = OperationPending) && bool_decide (id ∈ doomed)
          then released row OperationDead "dependency dead" (UnixNano now) else row)) (db_operations db)).

Definition claimable (now : Time) (row : OpRow) : bool :=
  bool_decide (o_status row = OperationPending)
  || (bool_decide (o_status row = OperationClaimed) && (o_until row <=? UnixNano now)).

(** NOT EXISTS an incomplete prerequisite. *)
Definition unblocked (db : Db) (id : string) : bool :=
  bool_decide (set_Forall (fun dep : string * string =>
    fst dep = id -> statusOf db (snd dep) = Some OperationCompleted) (db_dependencies db)).

Definition eligible (now : Time) (db : Db) (entry : string * OpRow) : bool :=
  (o_available (snd entry) <=? UnixNano now) && claimable now (snd entry) && unblocked db (fst entry).

Definition claimOrder (a b : string * OpRow) : bool :=
  if o_created (snd a) =? o_created (snd b) then strLess (fst a) (fst b)
  else o_created (snd a) <? o_created (snd b).

Definition leasedBy (row : OpRow) (owner : string) (until now : Z) : OpRow :=
  {| o_key := o_key row; o_effect := o_effect row; o_kind := o_kind row; o_resource := o_resource row;
     o_payload := o_payload row; o_status := OperationClaimed; o_attempts := o_attempts row;
     o_available := o_available row; o_owner := owner; o_until := until; o_error := o_error row;
     o_created := o_created row; o_updated := now |}.

(** The loop of guarded UPDATEs over the selected ids. *)
Fixpoint claimEach (owner : string) (now : Time) (leaseFor : Duration) (ids : list string) (db : Db)
    : Db * list DurableOperation :=
  match ids with
  | [] => (db, [])
  | id :: rest =>
      match db_operations db !! id with
      | Some row =>
          if claimable now row then
            let row' := leasedBy row owner (UnixNano (TimeAdd now leaseFor)) (UnixNano now) in
            let '(db', claimed) :=
              claimEach owner now leaseFor rest (setOperations db (<[id := row']> (db_operations db))) in
            (db', scanOperation id row' :: claimed)
          else claimEach owner now leaseFor rest db
      | None => claimEach owner now leaseFor rest db
      end
  end.

Definition selected (now : Time) (limit : Z) (db : Db) : list string :=
  map fst (take (Z.to_nat limit)
    (sortBy claimOrder (List.filter (eligible now db) (map_to_list (db_operations db))))).

Definition Claim (db : Db) (owner : string) (limit : Z) (now : Time) (leaseFor : Duration)
    : Result (Db * list DurableOperation) :=
  if bool_decide (owner = "") || (limit <=? 0) || (leaseFor <=? 0) then inl ErrInvalid
  else
    let db1 := propagate now db in
    inr (claimEach owner now leaseFor (selected now limit db1) db1).

Definition RenewOperation (db : Db) (id owner : string) (now : Time) (leaseFor : Duration) : Result Db :=
  if bool_decide (id = "") || bool_decide (owner = "") || (leaseFor <=? 0) then inl ErrInvalid
  else
    match db_operations db !! id with
    | Some row =>
        if bool_decide (o_status row = OperationClaimed) && bool_decide (o_owner row = owner)
           && (UnixNano now <? o_until row)
        then inr (setOperations db (<[id := leasedBy row owner (UnixNano (TimeAdd now leaseFor))
                                              (UnixNano now)]> (db_operations db)))
        else inl ErrLeaseLost
    | None => inl ErrLeaseLost
    end.

Definition Complete (db : Db) (id owner effectKey : string) (now : Time) : Result (Db * bool) :=
  match db_operations db !! id with
  | None => inl ErrNotFound
  | Some row =>
      if negb (bool_decide (o_effect row = effectKey)) then inl ErrConflict
      else if bool_decide (o_status row = OperationCompleted) then inr (db, false)
      else if negb (bool_decide (o_status row = OperationClaimed)) || negb (bool_decide (o_owner row = owner))
      then inl ErrLeaseLost
      else
        let completed := setOperations db (<[id := released row OperationCompleted (o_error row)
                                                      (UnixNano now)]> (db_operations db)) in
        match db_effects db !! effectKey with
        | Some _ => inr (completed, false)
        | None => inr (setEffects completed (<[effectKey := id]> (db_effects db)), true)
        end
  end.

Definition retried (row : OpRow) (status : OperationStatus) (available : Z) (err : string) (now : Z) : OpRow :=
  {| o_key := o_key row; o_effect := o_effect row; o_kind := o_kind row; o_resource := o_resource row;
     o_payload := o_payload row; o_status := status; o_attempts := o_attempts row + 1;
     o_available := available; o_owner := ""; o_until := 0; o_error := err;
     o_created := o_created row; o_updated := now |}.

Definition Retry (clock : Time) (db : Db) (id owner message : string) (availableAt : Time) (dead : bool)
    : Result Db :=
  match db_operations db !! id with
  | Some row =>
      if bool_decide (o_status row = OperationClaimed) && bool_decide (o_owner row = owner)
      then inr (setOperations db (<[id := retried row (if dead then OperationDead else OperationPending)
                                            (UnixNano availableAt) message (UnixNano clock)]> (db_operations db)))
      else inl ErrLeaseLost
  | None => inl ErrLeaseLost
  end.

Definition expiredClaim (now : Time) (row : OpRow) : bool :=
  bool_decide (o_status row = OperationClaimed) && (o_until row <=? UnixNano now).

Definition RecoverExpired (db : Db) (now : Time) : Db * Z :=
  (setOperations db ((fun row => if expiredClaim now row
                                 then released row OperationPending (o_error row) (UnixNano now) else row)
                     <$> db_operations db),
   Z.of_nat (length (List.filter (fun entry => expiredClaim now (snd entry))
                       (map_to_list (db_operations db))))).

(** ** Dead letters *)

Record Discharge := {
  dis_OperationID : string;
  dis_InstanceID : string;
  dis_ReapInstance : bool;
  dis_Reason : string;
  dis_At : Time
}.

Definition Discharge_Valid (d : Discharge) : bool :=
  negb (bool_decide (dis_OperationID d = "")) && negb (bool_decide (dis_InstanceID d = ""))
  && negb (bool_decide (TrimSpace (bytesOf (dis_Reason d)) = [])) && negb (IsZero (dis_At d)).

Record DischargeOutcome := {
  out_Discharged : bool;
  out_Reaped : bool;
  out_Ownership : Ownership
}.

(** The operations of a resource that can still advance. *)
Definition progressing (db : Db) (resource : string) : bool :=
  existsb (fun entry => bool_decide (o_resource (snd entry) = resource)
                        && (bool_decide (o_status (snd entry) = OperationPending)
                            || bool_decide (o_status (snd entry) = OperationClaimed)))
    (map_to_list (db_operations db)).

Definition reapable (s : InstanceState) : bool :=
  match s with
  | InstanceDraining | InstanceDeregistering | InstanceStopping | InstanceFailed => true
  | _ => false
  end.

Definition reapInstance (db : Db) (row : InstanceRow) (now : Time) : Result Db :=
  match db_instances db !! row_ID row with
  | Some current =>
      if (row_Version current =? row_Version row) && reapable (row_State current)
      then inr (addHistory (setInstances db (<[row_ID row :=
                  withStateChange current InstanceDeleted (row_DrainPhase current) (row_LastError current) now]>
                  (db_instances db)))
                {| h_instance := row_ID row; h_from := row_State row; h_to := InstanceDeleted;
                   h_version := row_Version row + 1; h_operation := None; h_created := UnixNano now |})
      else inl ErrInstanceNotReapable
  | None => inl ErrInstanceNotReapable
  end.

Definition DischargeDeadLetter (db : Db) (d : Discharge) : Result (Db * DischargeOutcome) :=
  if negb (Discharge_Valid d) then inl ErrInvalid
  else
    match db_operations db !! dis_OperationID d with
    | None => inl ErrNotFound
    | Some row =>
        if negb (bool_decide (o_resource row = dis_InstanceID d)) then inl ErrResourceMismatch
        else if negb (bool_decide (o_status row = OperationDead))
                && negb (bool_decide (o_status row = OperationDischarged)) then inl ErrNotDeadLettered
        else if progressing db (o_resource row) then inl ErrResourceProgressing
        else
          let isDead := bool_decide (o_status row = OperationDead) in
          let db1 := if isDead
            then setOperations db (<[dis_OperationID d :=
                   released row OperationDischarged (o_error row) (UnixNano (dis_At d))]> (db_operations db))
            else db in
          instance <-- Instance_read db1 (dis_InstanceID d) ;;
          if dis_ReapInstance d && negb (bool_decide (row_State instance = InstanceDeleted)) then
            db2 <-- reapInstance db1 instance (dis_At d) ;;
            inr (db2, {| out_Discharged := isDead; out_Reaped := true; out_Ownership := row_Ownership instance |})
          else
            inr (db1, {| out_Discharged := isDead; out_Reaped := false; out_Ownership := row_Ownership instance |})
    end.

(** ** Automatic cleanup recovery *)

Definition OperationProvisionKind : string := "clone".
Definition OperationDrainKind : string := "deregister".

Definition DrainPhaseStoppedRecovery : Z := 2.

(** The identity of the attempt that supersedes one: a hash of its id. *)
Class CleanupIdentity := { recoveryID : string -> string }.

(** Earlier attempts of the same effect on the same resource that were
    superseded. *)
Definition resumptionsOf (db : Db) (row : OpRow) : Z :=
  Z.of_nat (length (List.filter (fun entry =>
    bool_decide (o_resource (snd entry) = o_resource row) && bool_decide (o_effect (snd entry) = o_effect row)
    && bool_decide (o_status (snd entry) = OperationDischarged)) (map_to_list (db_operations db)))).

Definition recoveryRow (old : OpRow) (key : string) (stamp : Z) : OpRow :=
  {| o_key := key; o_effect := o_effect old; o_kind := o_kind old; o_resource := o_resource old;
     o_payload := o_payload old; o_status := OperationPending; o_attempts := 0; o_available := stamp;
     o_owner := ""; o_until := 0; o_error := ""; o_created := stamp; o_updated := stamp |}.

(** Pending dependents of [id] wait for [next] instead.  [next] was inserted just
    before, so no row names it yet and the primary key cannot collide. *)
Definition repoint (db : Db) (id next : string) : gset (string * string) :=
  set_map (fun dep : string * string =>
    if bool_decide (snd dep = id) && bool_decide (statusOf db (fst dep) = Some OperationPending)
    then (fst dep, next) else dep) (db_dependencies db).

Definition superseded (row : OpRow) (now : Z) : OpRow :=
  {| o_key := o_key row; o_effect := o_effect row; o_kind := o_kind row; o_resource := o_resource row;
     o_payload := o_payload row; o_status := OperationDischarged; o_attempts := o_attempts row;
     o_available := o_available row; o_owner := o_owner row; o_until := o_until row;
     o_error := o_error row; o_created := o_created row; o_updated := now |}.

Definition ResumeCleanup `{CleanupIdentity} (db : Db) (id resource : string) (stopped : bool) (at_ : Time)
    : Result Db :=
  if bool_decide (id = "") || bool_decide (resource = "") || IsZero at_ then inl ErrInvalid
  else
    match db_operations db !! id with
    | None => inl ErrNotFound
    | Some old =>
        if negb (bool_decide (o_resource old = resource)) then inl ErrResourceMismatch
        else if bool_decide (o_status old = OperationDischarged) then inr db
        else if negb (bool_decide (o_status old = OperationDead)) then inl ErrNotDeadLettered
        else if negb (bool_decide (o_kind old = OperationDrainKind))
                || (negb (bool_decide (FailureCode (o_error old) = stageText StageStop))
                    && negb (bool_decide (FailureCode (o_error old) = stageText StageDelete)))
        then inl ErrInvalid
        else
          instance <-- Instance_read db resource ;;
          if negb (TearingDown (row_State instance)) || negb (Ownership_Valid (row_Ownership instance))
          then inl ErrInstanceNotReapable
          else if progressing db resource then inl ErrResourceProgressing
          else if negb (CleanupResumptionDue (resumptionsOf db old) (fromNanos (o_updated old)) at_)
          then inl ErrResumptionNotDue
          else
            let next := recoveryID id in
            let stamp := UnixNano at_ in
            db1 <-- insertRow db next (recoveryRow old next stamp) ;;
            let db2 := setDependencies db1 (repoint db1 id next) in
            let db3 := setOperations db2 (<[id := superseded old stamp]> (db_operations db2)) in
            inr (if stopped && state_eqb (row_State instance) InstanceDraining
                 then setInstances db3 (<[resource := stamped instance (row_State instance)
                        (row_Version instance + 1) DrainPhaseStoppedRecovery (row_Ownership instance)
                        (row_LastError instance) (row_CreatedAt instance) (fromNanos stamp)]> (db_instances db3))
                 else db3)
    end.

(** ** Generations and counts *)

Definition terminalStatus (s : OperationStatus) : bool :=
  match s with OperationCompleted | OperationDead | OperationDischarged => true | _ => false end.

Definition DrainGeneration (db : Db) (instanceID : string) : Z :=
  Z.of_nat (length (List.filter (fun entry =>
    bool_decide (o_kind (snd entry) = OperationDrainKind) && bool_decide (o_resource (snd entry) = instanceID)
    && terminalStatus (o_status (snd entry))) (map_to_list (db_operations db)))).

Definition spentIncarnation (demand : DemandKey) (row : InstanceRow) : bool :=
  bool_decide (own_ResourceID (row_Ownership row) = DemandKey_String demand)
  && (state_eqb (row_State row) InstanceDeleted || state_eqb (row_State row) InstanceFailed
      || ((0 <? key_JobID (row_Demand row))
          && (negb (key_JobID (row_Demand row) =? key_JobID demand)
              || negb (key_RunID (row_Demand row) =? key_RunID demand)))).

Definition SpawnGeneration (db : Db) (demand : DemandKey) : Z :=
  Z.of_nat (length (List.filter (fun entry => spentIncarnation demand (snd entry))
    (map_to_list (db_instances db)))).

Definition OperationCounts (db : Db) : Z * Z :=
  let rows := map snd (map_to_list (db_operations db)) in
  (Z.of_nat (length (List.filter (fun r => (0 <? o_attempts r) && negb (terminalStatus (o_status r))) rows)),
   Z.of_nat (length (List.filter (fun r => bool_decide (o_status r = OperationDead)) rows))).

Definition LiveInstances (db : Db) : list InstanceRow :=
  sortBy (fun a b => strLess (row_ID a) (row_ID b))
    (List.filter (fun i => negb (state_eqb (row_State i) InstanceDeleted)) (map snd (map_to_list (db_instances db)))).

(** ** The controller's lease *)

Record Lease_ := { lease_Name : string; lease_Owner : string; lease_Token : Z; lease_ExpiresAt : Time }.

Definition AcquireLease (db : Db) (name owner : string) (now : Time) (ttl : Duration) : Result (Db * Lease_) :=
  if bool_decide (name = "") || bool_decide (owner = "") || (ttl <=? 0) then inl ErrInvalid
  else
    let grant token :=
      inr (setLeases db (<[name := {| l_owner := owner; l_token := token;
                                     l_expires := UnixNano (TimeAdd now ttl) |}]> (db_leases db)),
           {| lease_Name := name; lease_Owner := owner; lease_Token := token;
              lease_ExpiresAt := TimeAdd now ttl |}) in
    match db_leases db !! name with
    | None => grant 1
    | Some row =>
        if (l_expires row <=? UnixNano now) || bool_decide (l_owner row = owner)
        then grant (add64 (l_token row) 1) else inl ErrLeaseHeld
    end.

Definition holdsRow (lease : Lease_) (row : LeaseRow) : bool :=
  bool_decide (l_owner row = lease_Owner lease) && (l_token row =? lease_Token lease).

Definition RenewLease (db : Db) (lease : Lease_) (now : Time) (ttl : Duration) : Result (Db * Lease_) :=
  match db_leases db !! lease_Name lease with
  | Some row =>
      if holdsRow lease row && (UnixNano now <? l_expires row)
      then inr (setLeases db (<[lease_Name lease :=
                  {| l_owner := l_owner row; l_token := l_token row;
                     l_expires := UnixNano (TimeAdd now ttl) |}]> (db_leases db)),
                {| lease_Name := lease_Name lease; lease_Owner := lease_Owner lease;
                   lease_Token := lease_Token lease; lease_ExpiresAt := TimeAdd now ttl |})
      else inl ErrLeaseLost
  | None => inl ErrLeaseLost
  end.

Definition ReleaseLease (db : Db) (lease : Lease_) : Result Db :=
  match db_leases db !! lease_Name lease with
  | Some row =>
      if holdsRow lease row then inr (setLeases db (delete (lease_Name lease) (db_leases db)))
      else inl ErrLeaseLost
  | None => inl ErrLeaseLost
  end.

(** ** Ownership records *)

Definition PutOwnership (db : Db) (resource : string) (o : Ownership) : Result Db :=
  if bool_decide (resource = "") || negb (Ownership_Valid o) then inl ErrInvalid
  else
    match db_ownership db !! resource with
    | Some current => if bool_decide (current = o) then inr db else inl ErrConflict
    | None => inr (setOwnership db (<[resource := o]> (db_ownership db)))
    end.

Definition Ownership_read (db : Db) (resource : string) : Result Ownership :=
  match db_ownership db !! resource with None => inl ErrNotFound | Some o => inr o end.

(** ** Reading a transaction backwards *)

(** Discard the branch in which a transaction refuses. *)
Ltac refuse HR :=
  match type of HR with (if ?b then inl _ else _) = _ => destruct b eqn:?; [discriminate HR|] end.

Ltac accept HR :=
  match type of HR with (if ?b then _ else inl _) = _ => destruct b eqn:?; [|discriminate HR] end.
