(* ===== verification/Inbox.v ===== *)
(** * The job inbox (internal/adapters/sqlite/inbox.go)

    What GitHub's broker and its REST interface say about queued jobs, and the
    tables in which the fleet keeps it: the ledger of broker messages that makes
    redelivery harmless, one row per runner request, one row per logical job, and
    the last complete REST snapshot of every scale set.

    As in [Store], a table is a finite map from its key and an instant is stored
    as [UnixNano], with 0 for the zero time.  The [status_rank] column is the rank
    of the status beside it, which every statement writes together with it. *)

From Stdlib Require Import ZArith Lia String.
From stdpp Require Import base tactics list gmap strings pretty.
From S2P Require Import Prelude GoStrings Liveness Domain Operations Failure Store.

#[local] Open Scope store_scope.

(** ** Events and records (internal/operations/types.go) *)

Inductive DemandEventKind :=
  | DemandJobAvailable
  | DemandJobAssigned
  | DemandJobStarted
  | DemandJobCompleted
  | DemandEventOther (s : string).

#[export] Instance DemandEventKind_eq_dec : EqDecision DemandEventKind.
Proof. solve_decision. Defined.

(** [de_Labels] is [None] for a nil slice. *)
Record DemandEvent := {
  de_Kind : DemandEventKind;
  de_RunnerRequestID : Z;
  de_Owner : string;
  de_Repository : string;
  de_WorkflowRunID : Z;
  de_JobID : string;
  de_DisplayName : string;
  de_WorkflowRef : string;
  de_EventName : string;
  de_Labels : option (list string);
  de_QueueTime : Time;
  de_RunnerID : Z;
  de_RunnerName : string;
  de_Result : string
}.

Definition DemandEvent_Valid (e : DemandEvent) : bool :=
  if de_RunnerRequestID e <=? 0 then false
  else match de_Kind e with DemandEventOther _ => false | _ => true end.

Record DemandRecord := {
  dr_ScaleSetID : Z;
  dr_RunnerRequestID : Z;
  dr_Status : DemandEventKind;
  dr_Owner : string;
  dr_Repository : string;
  dr_WorkflowRunID : Z;
  dr_JobID : string;
  dr_DisplayName : string;
  dr_WorkflowRef : string;
  dr_LogicalKey : string;
  dr_EventName : string;
  dr_Labels : list string;
  dr_QueueTime : Time;
  dr_FirstQueueTime : Time;
  dr_WorkflowJobID : Z;
  dr_RunAttempt : Z;
  dr_RunnerID : Z;
  dr_RunnerName : string;
  dr_Result : string;
  dr_UpdatedAt : Time
}.

Definition DemandRecord_Repo (r : DemandRecord) : string := dr_Owner r +:+ "/" +:+ dr_Repository r.

Definition DemandRecord_DemandKey (r : DemandRecord) : DemandKey :=
  let attempt := if dr_RunAttempt r <=? 0 then 1 else dr_RunAttempt r in
  {| key_Repo := DemandRecord_Repo r; key_RunID := dr_WorkflowRunID r; key_Attempt := attempt;
     key_JobID := dr_RunnerRequestID r |}.

Record DemandSequenceReset := {
  Detected : bool;
  reset_Generation : Z;
  RetiredMessageID : Z;
  AdoptedMessageID : Z
}.

Definition noReset : DemandSequenceReset :=
  {| Detected := false; reset_Generation := 0; RetiredMessageID := 0; AdoptedMessageID := 0 |}.

Record DemandBatchResult := { Applied : bool; Reset_ : DemandSequenceReset }.

Record DemandStatistics := {
  stat_MessageID : Z;
  stat_Available : Z;
  stat_Acquired : Z;
  stat_Assigned : Z;
  stat_Running : Z;
  stat_Registered : Z;
  stat_Busy : Z;
  stat_Idle : Z;
  stat_ObservedAt : Time
}.

Definition DemandStatistics_Valid (s : DemandStatistics) : bool :=
  (0 <? stat_MessageID s) && (0 <=? stat_Available s) && (0 <=? stat_Acquired s) && (0 <=? stat_Assigned s)
  && (0 <=? stat_Running s) && (0 <=? stat_Registered s) && (0 <=? stat_Busy s) && (0 <=? stat_Idle s).

Record GitHubJobObservation := {
  gj_WorkflowJobID : Z;
  gj_Owner : string;
  gj_Repository : string;
  gj_WorkflowRunID : Z;
  gj_RunAttempt : Z;
  gj_DisplayName : string;
  gj_WorkflowRef : string;
  gj_Labels : list string;
  gj_Status : string;
  gj_CreatedAt : Time;
  gj_QueueTimeExact : bool
}.

Definition GitHubJobObservation_Valid (j : GitHubJobObservation) : bool :=
  (0 <? gj_WorkflowJobID j) && negb (bool_decide (gj_Owner j = "")) && negb (bool_decide (gj_Repository j = ""))
  && (0 <? gj_WorkflowRunID j) && (0 <? gj_RunAttempt j) && negb (bool_decide (gj_DisplayName j = ""))
  && negb (IsZero (gj_CreatedAt j)).

Record GhostDemandCriteria := { gc_ObservedAt : Time; gc_AbsentBefore : Time; gc_MinObservations : Z }.

Definition GhostDemandCriteria_Valid (c : GhostDemandCriteria) : bool :=
  negb (IsZero (gc_ObservedAt c)) && negb (IsZero (gc_AbsentBefore c))
  && negb (After (gc_AbsentBefore c) (gc_ObservedAt c)) && (0 <? gc_MinObservations c).

Record OverdueDemandCriteria := { oc_Now : Time; oc_TTL : Duration }.

Definition OverdueDemandCriteria_Valid (c : OverdueDemandCriteria) : bool :=
  negb (IsZero (oc_Now c)) && (0 <? oc_TTL c).

(** ** Tables *)

(** [runner_demands], without its key. *)
Record DemandRow := {
  d_status : DemandEventKind;
  d_owner : string;
  d_repository : string;
  d_run : Z;
  d_job : string;
  d_display : string;
  d_workflow : string;
  d_logical : string;
  d_event : string;
  d_labels : list string;
  d_queue : Z;
  d_first : Z;
  d_workflowJob : Z;
  d_attempt : Z;
  d_runnerID : Z;
  d_runnerName : string;
  d_result : string;
  d_updated : Z;
  d_corroborated : Z;
  d_absentSince : Z;
  d_absentCount : Z;
  d_expired : Z
}.

(** [demand_groups]. *)
Record GroupRow := { g_first : Z; g_job : Z; g_attempt : Z; g_updated : Z }.

(** [scale_set_cursors] and [github_job_snapshots]. *)
Record CursorRow := { c_generation : Z; c_message : Z }.
Record SnapshotRow := { s_observed : Z; s_count : Z }.

Record Inbox := {
  ib_cursors : gmap Z CursorRow;
  ib_ledger : gmap (Z * Z * Z) string;
  ib_demands : gmap (Z * Z) DemandRow;
  ib_groups : gmap (Z * string) GroupRow;
  ib_jobs : gmap (Z * Z) GitHubJobObservation;
  ib_snapshots : gmap Z SnapshotRow;
  ib_statistics : gmap Z DemandStatistics
}.

Definition emptyInbox : Inbox :=
  {| ib_cursors := ∅; ib_ledger := ∅; ib_demands := ∅; ib_groups := ∅; ib_jobs := ∅; ib_snapshots := ∅;
     ib_statistics := ∅ |}.

Definition setCursors (ib : Inbox) m : Inbox :=
  {| ib_cursors := m; ib_ledger := ib_ledger ib; ib_demands := ib_demands ib; ib_groups := ib_groups ib;
     ib_jobs := ib_jobs ib; ib_snapshots := ib_snapshots ib;
     ib_statistics := ib_statistics ib |}.
Definition setLedger (ib : Inbox) m : Inbox :=
  {| ib_cursors := ib_cursors ib; ib_ledger := m; ib_demands := ib_demands ib; ib_groups := ib_groups ib;
     ib_jobs := ib_jobs ib; ib_snapshots := ib_snapshots ib;
     ib_statistics := ib_statistics ib |}.
Definition setDemands (ib : Inbox) m : Inbox :=
  {| ib_cursors := ib_cursors ib; ib_ledger := ib_ledger ib; ib_demands := m; ib_groups := ib_groups ib;
     ib_jobs := ib_jobs ib; ib_snapshots := ib_snapshots ib;
     ib_statistics := ib_statistics ib |}.
Definition setGroups (ib : Inbox) m : Inbox :=
  {| ib_cursors := ib_cursors ib; ib_ledger := ib_ledger ib; ib_demands := ib_demands ib; ib_groups := m;
     ib_jobs := ib_jobs ib; ib_snapshots := ib_snapshots ib;
     ib_statistics := ib_statistics ib |}.
Definition setJobs (ib : Inbox) m : Inbox :=
  {| ib_cursors := ib_cursors ib; ib_ledger := ib_ledger ib; ib_demands := ib_demands ib;
     ib_groups := ib_groups ib; ib_jobs := m; ib_snapshots := ib_snapshots ib;
     ib_statistics := ib_statistics ib |}.
Definition setSnapshots (ib : Inbox) m : Inbox :=
  {| ib_cursors := ib_cursors ib; ib_ledger := ib_ledger ib; ib_demands := ib_demands ib;
     ib_groups := ib_groups ib; ib_jobs := ib_jobs ib; ib_snapshots := m;
     ib_statistics := ib_statistics ib |}.
Definition setStatistics (ib : Inbox) m : Inbox :=
  {| ib_cursors := ib_cursors ib; ib_ledger := ib_ledger ib; ib_demands := ib_demands ib;
     ib_groups := ib_groups ib; ib_jobs := ib_jobs ib; ib_snapshots := ib_snapshots ib;
     ib_statistics := m |}.

(** ** Content addresses

    [batchDigest] is the SHA-256 of the events' JSON, [logicalDigest] the
    hexadecimal SHA-256 of a job's identity. *)
Class DemandDigest := {
  batchDigest : list DemandEvent -> string;
  logicalDigest : string -> string
}.

Section Inbox.
Context `{DemandDigest}.

Definition toNanos (t : Time) : Z := if IsZero t then 0 else UnixNano t.

Definition demandRank (k : DemandEventKind) : Z :=
  match k with
  | DemandJobAvailable => 1
  | DemandJobAssigned => 2
  | DemandJobStarted => 3
  | DemandJobCompleted => 4
  | DemandEventOther _ => 0
  end.

(** ** Reading a demand *)

Definition scanDemand (key : Z * Z) (row : DemandRow) : DemandRecord :=
  let queue := fromNanos (d_queue row) in
  let first := fromNanos (d_first row) in
  {| dr_ScaleSetID := fst key; dr_RunnerRequestID := snd key; dr_Status := d_status row;
     dr_Owner := d_owner row; dr_Repository := d_repository row; dr_WorkflowRunID := d_run row;
     dr_JobID := d_job row; dr_DisplayName := d_display row; dr_WorkflowRef := d_workflow row;
     dr_LogicalKey := d_logical row; dr_EventName := d_event row; dr_Labels := d_labels row;
     dr_QueueTime := queue; dr_FirstQueueTime := if IsZero first then queue else first;
     dr_WorkflowJobID := d_workflowJob row; dr_RunAttempt := d_attempt row; dr_RunnerID := d_runnerID row;
     dr_RunnerName := d_runnerName row; dr_Result := d_result row; dr_UpdatedAt := fromNanos (d_updated row) |}.

Definition DemandRecord_read (ib : Inbox) (set request : Z) : Result DemandRecord :=
  if (set <=? 0) || (request <=? 0) then inl ErrInvalid
  else match ib_demands ib !! (set, request) with
       | None => inl ErrNotFound
       | Some row => inr (scanDemand (set, request) row)
       end.

(** ** Merging an event into a record *)

Definition orKeep (new old : string) : string := if bool_decide (new = "") then old else new.
Definition orKeepZ (new old : Z) : Z := if new =? 0 then old else new.

Definition mergeDemandEvent (r : DemandRecord) (e : DemandEvent) (now : Time) : DemandRecord :=
  {| dr_ScaleSetID := dr_ScaleSetID r; dr_RunnerRequestID := dr_RunnerRequestID r;
     dr_Status := if demandRank (dr_Status r) <=? demandRank (de_Kind e) then de_Kind e else dr_Status r;
     dr_Owner := orKeep (de_Owner e) (dr_Owner r); dr_Repository := orKeep (de_Repository e) (dr_Repository r);
     dr_WorkflowRunID := orKeepZ (de_WorkflowRunID e) (dr_WorkflowRunID r);
     dr_JobID := orKeep (de_JobID e) (dr_JobID r);
     dr_DisplayName := orKeep (de_DisplayName e) (dr_DisplayName r);
     dr_WorkflowRef := orKeep (de_WorkflowRef e) (dr_WorkflowRef r); dr_LogicalKey := dr_LogicalKey r;
     dr_EventName := orKeep (de_EventName e) (dr_EventName r);
     dr_Labels := default (dr_Labels r) (de_Labels e);
     dr_QueueTime := if IsZero (de_QueueTime e) then dr_QueueTime r else de_QueueTime e;
     dr_FirstQueueTime := dr_FirstQueueTime r; dr_WorkflowJobID := dr_WorkflowJobID r;
     dr_RunAttempt := dr_RunAttempt r; dr_RunnerID := orKeepZ (de_RunnerID e) (dr_RunnerID r);
     dr_RunnerName := orKeep (de_RunnerName e) (dr_RunnerName r); dr_Result := orKeep (de_Result e) (dr_Result r);
     dr_UpdatedAt := now |}.

Definition zeroRecord (set request : Z) : DemandRecord :=
  {| dr_ScaleSetID := set; dr_RunnerRequestID := request; dr_Status := DemandEventOther ""; dr_Owner := "";
     dr_Repository := ""; dr_WorkflowRunID := 0; dr_JobID := ""; dr_DisplayName := ""; dr_WorkflowRef := "";
     dr_LogicalKey := ""; dr_EventName := ""; dr_Labels := []; dr_QueueTime := zeroTime;
     dr_FirstQueueTime := zeroTime; dr_WorkflowJobID := 0; dr_RunAttempt := 0; dr_RunnerID := 0;
     dr_RunnerName := ""; dr_Result := ""; dr_UpdatedAt := zeroTime |}.

(** ** The logical job *)

Definition lowered (s : string) : string := string_of_list_ascii (ToLower (bytesOf s)).
Definition trimmed (s : string) : string := string_of_list_ascii (TrimSpace (bytesOf s)).

Definition nul : string := String (Ascii.ascii_of_nat 0) "".

(** [strings.Join(parts, "\x00")]. *)
Fixpoint joinNul (parts : list string) : string :=
  match parts with
  | [] => ""
  | [p] => p
  | p :: rest => p +:+ nul +:+ joinNul rest
  end.

Definition demandLogicalKey (owner repository : string) (run : Z) (display : string) (labels : list string)
    (fallbackJob : string) : string :=
  if bool_decide (owner = "") || bool_decide (repository = "") || (run <=? 0) then ""
  else
    let display := if bool_decide (display = "") then "job:" +:+ fallbackJob else display in
    let normalized := sortBy strLess (map (fun l => lowered (trimmed l)) labels) in
    logicalDigest (lowered owner +:+ nul +:+ lowered repository +:+ nul +:+ pretty run +:+ nul
                   +:+ display +:+ nul +:+ joinNul normalized).

Definition recordLogicalKey (r : DemandRecord) : string :=
  demandLogicalKey (dr_Owner r) (dr_Repository r) (dr_WorkflowRunID r) (dr_DisplayName r) (dr_Labels r) (dr_JobID r).

(** The upsert of a group by a broker event. *)
Definition brokerGroup (queue now : Z) (existing : option GroupRow) : GroupRow :=
  match existing with
  | None => {| g_first := queue; g_job := 0; g_attempt := 0; g_updated := now |}
  | Some g =>
      {| g_first := if 0 <? g_attempt g then g_first g
                    else if g_first g =? 0 then queue
                    else if queue =? 0 then g_first g else Z.min (g_first g) queue;
         g_job := g_job g; g_attempt := g_attempt g; g_updated := now |}
  end.

(** The record written over a row; only the corroboration survives, and every
    conclusion of absence is retracted. *)
Definition projected (r : DemandRecord) (previous : option DemandRow) : DemandRow :=
  {| d_status := dr_Status r; d_owner := dr_Owner r; d_repository := dr_Repository r; d_run := dr_WorkflowRunID r;
     d_job := dr_JobID r; d_display := dr_DisplayName r; d_workflow := dr_WorkflowRef r;
     d_logical := dr_LogicalKey r; d_event := dr_EventName r; d_labels := dr_Labels r;
     d_queue := toNanos (dr_QueueTime r); d_first := toNanos (dr_FirstQueueTime r);
     d_workflowJob := dr_WorkflowJobID r; d_attempt := dr_RunAttempt r; d_runnerID := dr_RunnerID r;
     d_runnerName := dr_RunnerName r; d_result := dr_Result r; d_updated := UnixNano (dr_UpdatedAt r);
     d_corroborated := match previous with Some p => d_corroborated p | None => 0 end;
     d_absentSince := 0; d_absentCount := 0; d_expired := 0 |}.

Definition withGroup (r : DemandRecord) (key : string) (g : option GroupRow) : DemandRecord :=
  {| dr_ScaleSetID := dr_ScaleSetID r; dr_RunnerRequestID := dr_RunnerRequestID r; dr_Status := dr_Status r;
     dr_Owner := dr_Owner r; dr_Repository := dr_Repository r; dr_WorkflowRunID := dr_WorkflowRunID r;
     dr_JobID := dr_JobID r; dr_DisplayName := dr_DisplayName r; dr_WorkflowRef := dr_WorkflowRef r;
     dr_LogicalKey := key; dr_EventName := dr_EventName r; dr_Labels := dr_Labels r;
     dr_QueueTime := dr_QueueTime r;
     dr_FirstQueueTime := match g with Some g => fromNanos (g_first g) | None => dr_FirstQueueTime r end;
     dr_WorkflowJobID := match g with Some g => g_job g | None => dr_WorkflowJobID r end;
     dr_RunAttempt := match g with Some g => g_attempt g | None => dr_RunAttempt r end;
     dr_RunnerID := dr_RunnerID r; dr_RunnerName := dr_RunnerName r; dr_Result := dr_Result r;
     dr_UpdatedAt := dr_UpdatedAt r |}.

(** ** One broker event *)

Definition applyDemandEvent (set : Z) (now : Time) (ib : Inbox) (e : DemandEvent) : Result Inbox :=
  let key := (set, de_RunnerRequestID e) in
  let previous := ib_demands ib !! key in
  let existing := match previous with
                  | Some row => scanDemand key row
                  | None => zeroRecord set (de_RunnerRequestID e)
                  end in
  if negb (bool_decide (dr_JobID existing = "")) && negb (bool_decide (de_JobID e = ""))
     && negb (bool_decide (dr_JobID existing = de_JobID e))
  then inl ErrConflict
  else
    let merged := mergeDemandEvent existing e now in
    let logical := recordLogicalKey merged in
    if bool_decide (logical = "") then
      inr (setDemands ib (<[key := projected (withGroup merged "" None) previous]> (ib_demands ib)))
    else
      let g := brokerGroup (toNanos (dr_QueueTime merged)) (UnixNano now) (ib_groups ib !! (set, logical)) in
      inr (setDemands (setGroups ib (<[(set, logical) := g]> (ib_groups ib)))
             (<[key := projected (withGroup merged logical (Some g)) previous]> (ib_demands ib))).

(** ** One broker message *)

(** The generation a message belongs to, the evidence when it is a new one, and
    whether the ledger holds this very message. *)
Definition inboxGeneration (ib : Inbox) (set message : Z) (digest : string) : Z * DemandSequenceReset * bool :=
  let '(generation, cursor) :=
    match ib_cursors ib !! set with Some c => (c_generation c, c_message c) | None => (0, 0) end in
  match ib_ledger ib !! (set, generation, message) with
  | None => (generation, noReset, false)
  | Some existing =>
      if bool_decide (existing = digest) then (generation, noReset, true)
      else (generation + 1,
            {| Detected := true; reset_Generation := generation + 1; RetiredMessageID := cursor;
               AdoptedMessageID := message |}, false)
  end.

(** [DELETE ... WHERE scale_set_id=? AND generation<?]. *)
Definition retireGenerations (set below : Z) (ledger : gmap (Z * Z * Z) string) : gmap (Z * Z * Z) string :=
  filter (fun entry : Z * Z * Z * string =>
    ~ (fst (fst (fst entry)) = set /\ snd (fst (fst entry)) < below)) ledger.

Definition advancedCursor (generation message : Z) (existing : option CursorRow) : CursorRow :=
  match existing with
  | None => {| c_generation := generation; c_message := message |}
  | Some c =>
      {| c_message := if c_generation c <? generation then message else Z.max (c_message c) message;
         c_generation := Z.max (c_generation c) generation |}
  end.

Fixpoint applyEvents (set : Z) (now : Time) (ib : Inbox) (events : list DemandEvent) : Result Inbox :=
  match events with
  | [] => inr ib
  | e :: rest => ib' <-- applyDemandEvent set now ib e ;; applyEvents set now ib' rest
  end.

Definition recordMessage (set generation message : Z) (digest : string) (ib : Inbox) : Result Inbox :=
  match ib_ledger ib !! (set, generation, message) with
  | Some _ => inl ErrConstraint
  | None =>
      inr (setCursors (setLedger ib (<[(set, generation, message) := digest]> (ib_ledger ib)))
             (<[set := advancedCursor generation message (ib_cursors ib !! set)]> (ib_cursors ib)))
  end.

Definition ApplyDemandBatch (now : Time) (ib : Inbox) (set message : Z) (events : list DemandEvent)
    : Result (Inbox * DemandBatchResult) :=
  if (set <=? 0) || (message <=? 0) || negb (forallb DemandEvent_Valid events) then inl ErrInvalid
  else
    let digest := batchDigest events in
    let '(generation, reset, duplicate) := inboxGeneration ib set message digest in
    if duplicate then inr (ib, {| Applied := false; Reset_ := noReset |})
    else
      let retired := if Detected reset
                     then setLedger ib (retireGenerations set (generation - 1) (ib_ledger ib)) else ib in
      ib1 <-- applyEvents set now retired events ;;
      ib2 <-- recordMessage set generation message digest ib1 ;;
      inr (ib2, {| Applied := true; Reset_ := reset |}).

(** ** Reads *)

(** [COALESCE(NULLIF(first_queue_time,0),queue_time)]. *)
Definition queuedSince (row : DemandRow) : Z := if d_first row =? 0 then d_queue row else d_first row.

Definition activeRow (set : Z) (entry : Z * Z * DemandRow) : bool :=
  (fst (fst entry) =? set) && (demandRank (d_status (snd entry)) <? demandRank DemandJobCompleted)
  && (d_expired (snd entry) =? 0).

Definition ActiveDemands (ib : Inbox) (set : Z) : Result (list DemandRecord) :=
  if set <=? 0 then inl ErrInvalid
  else inr (map (fun entry => scanDemand (fst entry) (snd entry))
             (sortBy (fun a b =>
                if queuedSince (snd a) =? queuedSince (snd b) then snd (fst a) <? snd (fst b)
                else queuedSince (snd a) <? queuedSince (snd b))
                (List.filter (activeRow set) (map_to_list (ib_demands ib))))).

Definition DemandCursor (ib : Inbox) (set : Z) : Result Z :=
  if set <=? 0 then inl ErrInvalid
  else inr (match ib_cursors ib !! set with Some c => c_message c | None => 0 end).

Definition startedOn (set : Z) (runner : string) (entry : Z * Z * DemandRow) : bool :=
  (fst (fst entry) =? set) && bool_decide (d_runnerName (snd entry) = runner)
  && (demandRank (d_status (snd entry)) =? demandRank DemandJobStarted).

Definition RunnerActiveJob_read (ib : Inbox) (set : Z) (runner : string) : Result bool :=
  if (set <=? 0) || bool_decide (runner = "") then inl ErrInvalid
  else inr (existsb (startedOn set runner) (map_to_list (ib_demands ib))).

Definition PutDemandStatistics (clock : Time) (ib : Inbox) (set : Z) (s : DemandStatistics)
    : Result (Inbox * bool) :=
  if (set <=? 0) || negb (DemandStatistics_Valid s) then inl ErrInvalid
  else
    let observed := if IsZero (stat_ObservedAt s) then clock else stat_ObservedAt s in
    let row := {| stat_MessageID := stat_MessageID s; stat_Available := stat_Available s;
                  stat_Acquired := stat_Acquired s; stat_Assigned := stat_Assigned s;
                  stat_Running := stat_Running s; stat_Registered := stat_Registered s; stat_Busy := stat_Busy s;
                  stat_Idle := stat_Idle s; stat_ObservedAt := fromNanos (UnixNano observed) |} in
    let stored := inr (setStatistics ib (<[set := row]> (ib_statistics ib)), true) in
    match ib_statistics ib !! set with
    | None => stored
    | Some old => if stat_MessageID old <=? stat_MessageID s then stored else inr (ib, false)
    end.

Definition DemandStatistics_read (ib : Inbox) (set : Z) : Result DemandStatistics :=
  if set <=? 0 then inl ErrInvalid
  else match ib_statistics ib !! set with None => inl ErrNotFound | Some s => inr s end.

(** ** A complete REST snapshot *)

Record JobGroup := { jg_first : Time; jg_attempt : Z; jg_ids : list Z }.

Definition zeroGroup : JobGroup := {| jg_first := zeroTime; jg_attempt := 0; jg_ids := [] |}.

Definition addToGroup (g : JobGroup) (j : GitHubJobObservation) : JobGroup :=
  {| jg_first := if gj_QueueTimeExact j && (IsZero (jg_first g) || Before (gj_CreatedAt j) (jg_first g))
                 then gj_CreatedAt j else jg_first g;
     jg_attempt := if jg_attempt g =? 0 then gj_RunAttempt j
                   else if negb (jg_attempt g =? gj_RunAttempt j) then -1 else jg_attempt g;
     jg_ids := jg_ids g ++ [gj_WorkflowJobID j] |}.

Definition jobLogicalKey (j : GitHubJobObservation) : string :=
  demandLogicalKey (gj_Owner j) (gj_Repository j) (gj_WorkflowRunID j) (gj_DisplayName j) (gj_Labels j) "".

Definition groupJobs (jobs : list GitHubJobObservation) : gmap string JobGroup :=
  fold_left (fun groups j =>
    <[jobLogicalKey j := addToGroup (default zeroGroup (groups !! jobLogicalKey j)) j]> groups) jobs ∅.

(** A repeated job id in one snapshot keeps the identity of the first. *)
Definition storedJob (j : GitHubJobObservation) (existing : option GitHubJobObservation) : GitHubJobObservation :=
  match existing with
  | None => j
  | Some old =>
      {| gj_WorkflowJobID := gj_WorkflowJobID j; gj_Owner := gj_Owner old; gj_Repository := gj_Repository old;
         gj_WorkflowRunID := gj_WorkflowRunID old; gj_RunAttempt := gj_RunAttempt j;
         gj_DisplayName := gj_DisplayName j; gj_WorkflowRef := gj_WorkflowRef j; gj_Labels := gj_Labels j;
         gj_Status := gj_Status j; gj_CreatedAt := gj_CreatedAt j; gj_QueueTimeExact := gj_QueueTimeExact j |}
  end.

Definition replaceJobs (set : Z) (jobs : list GitHubJobObservation) (table : gmap (Z * Z) GitHubJobObservation)
    : gmap (Z * Z) GitHubJobObservation :=
  fold_left (fun m j => <[(set, gj_WorkflowJobID j) := storedJob j (m !! (set, gj_WorkflowJobID j))]> m) jobs
    (filter (fun entry : Z * Z * GitHubJobObservation => fst (fst entry) <> set) table).

(** The upsert of a group by a snapshot. *)
Definition snapshotGroup (first job attempt now : Z) (existing : option GroupRow) : GroupRow :=
  match existing with
  | None => {| g_first := first; g_job := job; g_attempt := attempt; g_updated := now |}
  | Some g =>
      {| g_first := if (0 <? attempt) && (0 <? g_attempt g) && negb (attempt =? g_attempt g) then first
                    else if g_first g =? 0 then first
                    else if first =? 0 then g_first g else Z.min (g_first g) first;
         g_job := job; g_attempt := attempt; g_updated := now |}
  end.

(** A row whose job the snapshot shows. *)
Definition sighted (g : GroupRow) (observed : Z) (row : DemandRow) : DemandRow :=
  {| d_status := d_status row; d_owner := d_owner row; d_repository := d_repository row; d_run := d_run row;
     d_job := d_job row; d_display := d_display row; d_workflow := d_workflow row; d_logical := d_logical row;
     d_event := d_event row; d_labels := d_labels row; d_queue := d_queue row; d_first := g_first g;
     d_workflowJob := g_job g; d_attempt := g_attempt g; d_runnerID := d_runnerID row;
     d_runnerName := d_runnerName row; d_result := d_result row; d_updated := observed;
     d_corroborated := observed; d_absentSince := 0; d_absentCount := 0; d_expired := 0 |}.

(** The evidence columns of a row. *)
Definition withAbsence (row : DemandRow) (updated since count expired : Z) : DemandRow :=
  {| d_status := d_status row; d_owner := d_owner row; d_repository := d_repository row; d_run := d_run row;
     d_job := d_job row; d_display := d_display row; d_workflow := d_workflow row; d_logical := d_logical row;
     d_event := d_event row; d_labels := d_labels row; d_queue := d_queue row; d_first := d_first row;
     d_workflowJob := d_workflowJob row; d_attempt := d_attempt row; d_runnerID := d_runnerID row;
     d_runnerName := d_runnerName row; d_result := d_result row; d_updated := updated;
     d_corroborated := d_corroborated row; d_absentSince := since; d_absentCount := count; d_expired := expired |}.

(** [UPDATE runner_demands SET ... WHERE scale_set_id=? AND ...]. *)
Definition updateDemands (set : Z) (f : DemandRow -> DemandRow) (table : gmap (Z * Z) DemandRow)
    : gmap (Z * Z) DemandRow :=
  map_imap (fun key row => Some (if fst key =? set then f row else row)) table.

Definition reconcileGroup (set observed : Z) (ib : Inbox) (entry : string * JobGroup) : Inbox :=
  let '(key, candidate) := entry in
  let job := match jg_ids candidate with [id] => id | _ => 0 end in
  let attempt := if jg_attempt candidate <? 0 then 0 else jg_attempt candidate in
  let g := snapshotGroup (toNanos (jg_first candidate)) job attempt observed (ib_groups ib !! (set, key)) in
  setDemands (setGroups ib (<[(set, key) := g]> (ib_groups ib)))
    (updateDemands set (fun row => if bool_decide (d_logical row = key) then sighted g observed row else row)
       (ib_demands ib)).

(** A queued row REST has seen before and this newer snapshot does not show. *)
Definition missed (observed : Z) (row : DemandRow) : bool :=
  (demandRank (d_status row) =? demandRank DemandJobAvailable) && (d_expired row =? 0)
  && (0 <? d_corroborated row) && (d_corroborated row <? observed).

Definition accrueAbsentDemand (set observed previousObserved count : Z) (ib : Inbox) : Inbox :=
  if observed <=? previousObserved then ib
  else
    setSnapshots
      (setDemands ib (updateDemands set (fun row =>
         if missed observed row
         then withAbsence row (d_updated row) (if d_absentSince row =? 0 then observed else d_absentSince row)
                (d_absentCount row + 1) (d_expired row)
         else row) (ib_demands ib)))
      (<[set := {| s_observed := observed; s_count := count |}]> (ib_snapshots ib)).

(** [range_] is the order in which the map of groups is ranged over. *)
Definition reconcileGitHubJobsTx (range_ : gmap string JobGroup -> list (string * JobGroup)) (set : Z)
    (observedAt : Time) (jobs : list GitHubJobObservation) (ib : Inbox) : Inbox * bool :=
  let observed := UnixNano observedAt in
  let previousCount := length (List.filter (fun entry : Z * Z * GitHubJobObservation =>
                                              fst (fst entry) =? set) (map_to_list (ib_jobs ib))) in
  let previousObserved := match ib_snapshots ib !! set with Some s => s_observed s | None => 0 end in
  let ib1 := setJobs ib (replaceJobs set jobs (ib_jobs ib)) in
  let ib2 := fold_left (reconcileGroup set observed) (range_ (groupJobs jobs)) ib1 in
  (accrueAbsentDemand set observed previousObserved (Z.of_nat (length jobs)) ib2,
   (0 <? Z.of_nat previousCount) || (0 <? Z.of_nat (length jobs))).

Definition reconcileScope (range_ : gmap string JobGroup -> list (string * JobGroup)) (observedAt : Time)
    (acc : Inbox * bool) (entry : Z * list GitHubJobObservation) : Inbox * bool :=
  let applied := reconcileGitHubJobsTx range_ (fst entry) observedAt (snd entry) (fst acc) in
  (fst applied, snd acc || snd applied).

(** Every scale set of a scope, in the order of its key. *)
Definition ReconcileGitHubJobSnapshot (range_ : gmap string JobGroup -> list (string * JobGroup))
    (observedAt : Time) (snapshot : gmap Z (list GitHubJobObservation)) (ib : Inbox) : Result (Inbox * bool) :=
  if IsZero observedAt || bool_decide (snapshot = ∅)
     || existsb (fun entry => (fst entry <=? 0) || negb (forallb GitHubJobObservation_Valid (snd entry)))
          (map_to_list snapshot)
  then inl ErrInvalid
  else
    inr (fold_left (reconcileScope range_ observedAt)
         (sortBy (fun a b => fst a <? fst b) (map_to_list snapshot)) (ib, false)).

(** ** Expiry *)

Definition ghost (c : GhostDemandCriteria) (row : DemandRow) : bool :=
  (demandRank (d_status row) =? demandRank DemandJobAvailable) && (d_expired row =? 0)
  && (0 <? d_corroborated row) && (0 <? d_absentSince row)
  && (d_absentSince row <=? UnixNano (gc_AbsentBefore c)) && (gc_MinObservations c <=? d_absentCount row).

(** An expiry, and the number of rows it changed. *)
Definition expireWhere (set at_ : Z) (test : DemandRow -> bool) (ib : Inbox) : Inbox * Z :=
  (setDemands ib (updateDemands set (fun row =>
     if test row then withAbsence row at_ (d_absentSince row) (d_absentCount row) at_ else row) (ib_demands ib)),
   Z.of_nat (length (List.filter (fun entry => (fst (fst entry) =? set) && test (snd entry))
                       (map_to_list (ib_demands ib))))).

Definition ExpireGhostDemands (ib : Inbox) (set : Z) (c : GhostDemandCriteria) : Result (Inbox * Z) :=
  if (set <=? 0) || negb (GhostDemandCriteria_Valid c) then inl ErrInvalid
  else inr (expireWhere set (UnixNano (gc_ObservedAt c)) (ghost c) ib).

Definition overdue (c : OverdueDemandCriteria) (row : DemandRow) : bool :=
  (demandRank (d_status row) =? demandRank DemandJobAvailable) && (d_expired row =? 0)
  && (d_runnerID row =? 0) && (0 <? queuedSince row)
  && (queuedSince row <=? UnixNano (TimeAdd (oc_Now c) (- oc_TTL c))).

Definition ExpireOverdueDemands (ib : Inbox) (set : Z) (c : OverdueDemandCriteria) : Result (Inbox * Z) :=
  if (set <=? 0) || negb (OverdueDemandCriteria_Valid c) then inl ErrInvalid
  else inr (expireWhere set (UnixNano (oc_Now c)) (overdue c) ib).

Definition QueuedGitHubJobs (ib : Inbox) (set : Z) : Result (list GitHubJobObservation) :=
  if set <=? 0 then inl ErrInvalid
  else inr (sortBy (fun a b =>
              if gj_CreatedAt a =? gj_CreatedAt b then gj_WorkflowJobID a <? gj_WorkflowJobID b
              else gj_CreatedAt a <? gj_CreatedAt b)
            (map snd (List.filter (fun entry : Z * Z * GitHubJobObservation =>
               (fst (fst entry) =? set) && bool_decide (gj_Status (snd entry) = "queued"))
               (map_to_list (ib_jobs ib))))).

End Inbox.
