(* ===== verification/Ledger.v ===== *)
(** * The ledger of broker messages

    Messages arrive at least once and in no particular order, and the broker may
    restart its numbering.  The ledger recognises a redelivery, never refuses a
    new message, keeps at most two generations, and moves its cursor forward
    only. *)

From Stdlib Require Import ZArith Lia String.
From stdpp Require Import base tactics list gmap strings pretty relations.
From S2P Require Import Prelude GoStrings Liveness Domain Operations Failure Store Inbox.

#[local] Open Scope store_scope.

Section Ledger.
Context `{DemandDigest}.

(** ** The inbox as a transition system *)

(** What is asked of the inbox, with the instant it is asked at. *)
Inductive InboxAct :=
  | ActBatch (now : Time) (set message : Z) (events : list DemandEvent)
  | ActSnapshot (range_ : gmap string JobGroup -> list (string * JobGroup)) (observedAt : Time)
      (snapshot : gmap Z (list GitHubJobObservation))
  | ActGhosts (set : Z) (c : GhostDemandCriteria)
  | ActOverdue (set : Z) (c : OverdueDemandCriteria)
  | ActStatistics (clock : Time) (set : Z) (s : DemandStatistics).

(** The inbox afterwards, and whether the caller is told of a change. *)
Definition perform (act : InboxAct) (ib : Inbox) : Result (Inbox * bool) :=
  match act with
  | ActBatch now set message events =>
      r <-- ApplyDemandBatch now ib set message events ;; inr (fst r, Applied (snd r))
  | ActSnapshot range_ observedAt snapshot => ReconcileGitHubJobSnapshot range_ observedAt snapshot ib
  | ActGhosts set c => r <-- ExpireGhostDemands ib set c ;; inr (fst r, 0 <? snd r)
  | ActOverdue set c => r <-- ExpireOverdueDemands ib set c ;; inr (fst r, 0 <? snd r)
  | ActStatistics clock set s => PutDemandStatistics clock ib set s
  end.

(** A map is ranged over in some order, each entry once. *)
Definition admissible (act : InboxAct) : Prop :=
  match act with
  | ActSnapshot range_ _ _ => forall g, Permutation (range_ g) (map_to_list g)
  | _ => True
  end.

Definition InboxStep (ib ib' : Inbox) : Prop := exists act told, admissible act /\ perform act ib = inr (ib', told).

Definition InboxReachable (ib : Inbox) : Prop := rtc InboxStep emptyInbox ib.

(** The live generation and the high-water mark of a scale set. *)
Definition cursorOf (ib : Inbox) (set : Z) : CursorRow :=
  default {| c_generation := 0; c_message := 0 |} (ib_cursors ib !! set).

(** Every ledger row belongs to the live generation or the one it replaced, and
    the cursor is at or past every message of the live one. *)
Definition LedgerOk (ib : Inbox) : Prop :=
  forall set g m digest, ib_ledger ib !! (set, g, m) = Some digest ->
    let c := cursorOf ib set in
    c_generation c - 1 <= g <= c_generation c /\ (g = c_generation c -> m <= c_message c).

(** ** What leaves the ledger alone *)

Definition sameLedger (ib ib' : Inbox) : Prop :=
  ib_ledger ib' = ib_ledger ib /\ ib_cursors ib' = ib_cursors ib.

Lemma sameLedger_trans a b c : sameLedger a b -> sameLedger b c -> sameLedger a c.
Proof. intros [H1 H2] [H3 H4]. split; congruence. Qed.

Lemma applyDemandEvent_ledger set now ib e ib' : applyDemandEvent set now ib e = inr ib' -> sameLedger ib ib'.
Proof.
  unfold applyDemandEvent. destruct (_ && _ && _); [done|]. destruct (bool_decide _); by intros [= <-].
Qed.

Lemma applyEvents_ledger set now events ib ib' : applyEvents set now ib events = inr ib' -> sameLedger ib ib'.
Proof.
  revert ib. induction events as [|e events IH]; intros ib; simpl; [by intros [= <-]|].
  destruct (applyDemandEvent set now ib e) as [|ib1] eqn:E; [done|]. simpl. intros Hr.
  eapply sameLedger_trans; [by eapply applyDemandEvent_ledger|by apply IH].
Qed.

Lemma reconcileGroups_ledger set observed groups ib :
  sameLedger ib (fold_left (reconcileGroup set observed) groups ib).
Proof.
  revert ib. induction groups as [|[key g] groups IH]; intros ib; simpl; [done|].
  eapply sameLedger_trans; [|apply IH]. done.
Qed.

Lemma accrue_ledger set observed previous count ib :
  sameLedger ib (accrueAbsentDemand set observed previous count ib).
Proof. unfold accrueAbsentDemand. by destruct (observed <=? previous). Qed.

Lemma reconcileTx_ledger range_ set observedAt jobs ib :
  sameLedger ib (fst (reconcileGitHubJobsTx range_ set observedAt jobs ib)).
Proof.
  unfold reconcileGitHubJobsTx. cbn [fst]. eapply sameLedger_trans; [|apply accrue_ledger].
  eapply sameLedger_trans; [|apply reconcileGroups_ledger]. done.
Qed.

(** What every scale set's part of a snapshot establishes, the snapshot does. *)
Lemma reconcile_ind (R : Inbox -> Inbox -> Prop) range_ observedAt snapshot ib ib' b :
  (forall x, R x x) -> (forall x y z, R x y -> R y z -> R x z) ->
  (forall set jobs x, snapshot !! set = Some jobs -> R x (fst (reconcileGitHubJobsTx range_ set observedAt jobs x))) ->
  ReconcileGitHubJobSnapshot range_ observedAt snapshot ib = inr (ib', b) -> R ib ib'.
Proof.
  intros Hr Ht Htx. unfold ReconcileGitHubJobSnapshot. destruct (_ || _); [done|]. intros [= E].
  enough (forall entries acc, (forall e, In e entries -> snapshot !! (fst e) = Some (snd e)) ->
    R (fst acc) (fst (fold_left (reconcileScope range_ observedAt) entries acc))) as Hf.
  { apply (f_equal fst) in E. simpl in E. rewrite <- E. apply (Hf _ (ib, false)).
    intros [set jobs] He. apply sortBy_in in He. by apply elem_of_map_to_list, list_elem_of_In. }
  induction entries as [|e entries IH]; intros acc He; [apply Hr|].
  eapply Ht; [|apply IH; intros; apply He; by right]. apply Htx. apply He. by left.
Qed.

Lemma reconcile_ledger range_ observedAt snapshot ib ib' b :
  ReconcileGitHubJobSnapshot range_ observedAt snapshot ib = inr (ib', b) -> sameLedger ib ib'.
Proof.
  apply reconcile_ind; [done|apply sameLedger_trans|]. intros set jobs x _. apply reconcileTx_ledger.
Qed.

(** ** One message *)

Lemma inboxGeneration_spec ib set message digest g reset dup :
  inboxGeneration ib set message digest = (g, reset, dup) ->
  let live := c_generation (cursorOf ib set) in
  (dup = true /\ ib_ledger ib !! (set, live, message) = Some digest /\ reset = noReset) \/
  (dup = false /\ Detected reset = false /\ g = live /\ ib_ledger ib !! (set, live, message) = None) \/
  (dup = false /\ Detected reset = true /\ g = live + 1 /\
   exists other, ib_ledger ib !! (set, live, message) = Some other /\ other <> digest).
Proof.
  unfold inboxGeneration, cursorOf.
  destruct (ib_cursors ib !! set) as [[live mark]|]; simpl;
    (destruct (ib_ledger ib !! _) as [other|] eqn:L; [|intros [= <- <- <-]; right; left; done]);
    (case_bool_decide as Hd; intros [= <- <- <-];
       [left; by rewrite <- Hd|right; right; split_and!; [done|done|done|by exists other]]).
Qed.

Lemma retireGenerations_lookup set below ledger k :
  retireGenerations set below ledger !! k =
  (if bool_decide (fst (fst k) = set /\ snd (fst k) < below) then None else ledger !! k).
Proof.
  unfold retireGenerations. case_bool_decide as Hk.
  - apply map_lookup_filter_None. right. intros x _. simpl. tauto.
  - destruct (ledger !! k) as [x|] eqn:L.
    + apply map_lookup_filter_Some. done.
    + apply map_lookup_filter_None. by left.
Qed.

(** The ledger once a new generation has retired the old ones. *)
Definition retiredFor (set g : Z) (result : DemandBatchResult) (ib : Inbox) : gmap (Z * Z * Z) string :=
  if Detected (Reset_ result) then retireGenerations set (g - 1) (ib_ledger ib) else ib_ledger ib.

(** The ledger and the cursor after a message that was applied. *)
Lemma apply_applied now ib set message events ib' result :
  ApplyDemandBatch now ib set message events = inr (ib', result) -> Applied result = true ->
  exists g, c_generation (cursorOf ib set) <= g <= c_generation (cursorOf ib set) + 1 /\
    (g = c_generation (cursorOf ib set) + 1 <-> Detected (Reset_ result) = true) /\
    retiredFor set g result ib !! (set, g, message) = None /\
    ib_ledger ib' = <[(set, g, message) := batchDigest events]> (retiredFor set g result ib) /\
    ib_cursors ib' = <[set := advancedCursor g message (ib_cursors ib !! set)]> (ib_cursors ib).
Proof.
  unfold ApplyDemandBatch. destruct (_ || _); [done|].
  destruct (inboxGeneration _ _ _ _) as [[g reset] dup] eqn:E.
  apply inboxGeneration_spec in E. destruct dup; [by intros [= <- <-]|].
  destruct (applyEvents _ _ _ _) as [|ib1] eqn:A; [done|].
  apply applyEvents_ledger in A as [Al Ac]. unfold recordMessage. simpl.
  destruct (ib_ledger ib1 !! _) eqn:L; [done|]. intros [= <- <-] _. exists g.
  unfold retiredFor. simpl.
  destruct E as [(Hn & _)|[(_ & Hd & Hg & _)|(_ & Hd & Hg & _)]]; [done| |]; rewrite Hd in Al, Ac |- *;
    simpl in Al, Ac; rewrite Al in L |- *; rewrite Ac; split_and!; try done; try lia.
Qed.

Lemma apply_duplicate now ib set message events ib' result :
  ApplyDemandBatch now ib set message events = inr (ib', result) -> Applied result = false ->
  ib' = ib /\ Reset_ result = noReset.
Proof.
  unfold ApplyDemandBatch. destruct (_ || _); [done|]. destruct (inboxGeneration _ _ _ _) as [[g reset] []].
  - by intros [= <- <-].
  - destruct (applyEvents _ _ _ _) as [|ib1]; [done|]. simpl. destruct (recordMessage _ _ _ _ _); [done|].
    by intros [= <- <-].
Qed.

Lemma advancedCursor_live g message c :
  c_generation (default {| c_generation := 0; c_message := 0 |} c) <= g -> 0 <= g ->
  c_generation (advancedCursor g message c) = g /\ message <= c_message (advancedCursor g message c).
Proof. destruct c as [[cg cm]|]; simpl; intros; [|lia]. destruct (Z.ltb_spec cg g); lia. Qed.

(** ** Every step *)

(** A step leaves the ledger alone or applies one message to it. *)
Lemma step_ledger ib ib' :
  InboxStep ib ib' ->
  sameLedger ib ib' \/
  exists now set message events result,
    ApplyDemandBatch now ib set message events = inr (ib', result) /\ Applied result = true.
Proof.
  intros (act & told & _ & E). revert E.
  destruct act as [now set message events|range_ at_ snap|set c|set c|clock set s]; simpl.
  - destruct (ApplyDemandBatch _ _ _ _ _) as [|[ib1 result]] eqn:E; [done|]. intros [= -> <-].
    destruct (Applied result) eqn:A; [right; by repeat eexists|].
    apply apply_duplicate in E as [-> _]; [by left|done].
  - intros E. left. by eapply reconcile_ledger.
  - unfold ExpireGhostDemands. destruct (_ || _); [done|]. intros [= <- _]. by left.
  - unfold ExpireOverdueDemands. destruct (_ || _); [done|]. intros [= <- _]. by left.
  - unfold PutDemandStatistics. destruct (_ || _); [done|].
    destruct (ib_statistics ib !! set) as [old|]; [destruct (_ <=? _)|]; intros [= <- _]; by left.
Qed.

Lemma step_batch now ib set message events ib' result :
  ApplyDemandBatch now ib set message events = inr (ib', result) -> InboxStep ib ib'.
Proof. intros E. exists (ActBatch now set message events), (Applied result). split; [done|]. simpl. by rewrite E. Qed.

Lemma cursorOf_insert ib ib' set c :
  ib_cursors ib' = <[set := c]> (ib_cursors ib) ->
  cursorOf ib' set = c /\ forall other, other <> set -> cursorOf ib' other = cursorOf ib other.
Proof.
  unfold cursorOf. intros ->. split; [by rewrite lookup_insert_eq|].
  intros other Ho. by rewrite lookup_insert_ne.
Qed.

(** The generation never goes back, and the mark never within a generation. *)
Definition cursorLe (c c' : CursorRow) : Prop :=
  c_generation c < c_generation c' \/ (c_generation c = c_generation c' /\ c_message c <= c_message c').

Lemma advancedCursor_le g message c :
  let c0 := default {| c_generation := 0; c_message := 0 |} c in
  c_generation c0 <= g -> 0 <= message -> cursorLe c0 (advancedCursor g message c).
Proof.
  unfold cursorLe. destruct c as [[cg cm]|]; simpl; intros; [|lia]. destruct (Z.ltb_spec cg g); simpl; lia.
Qed.

Lemma apply_positive now ib set message events ib' result :
  ApplyDemandBatch now ib set message events = inr (ib', result) -> 0 < set /\ 0 < message.
Proof. unfold ApplyDemandBatch. destruct (_ || _) eqn:E; [done|]. rewrite !orb_false_iff in E. lia. Qed.

Lemma step_cursorLe ib ib' set : InboxStep ib ib' -> cursorLe (cursorOf ib set) (cursorOf ib' set).
Proof.
  intros [[_ Hc]|(now & s & m & ev & r & E & A)]%step_ledger.
  - unfold cursorOf. rewrite Hc. right. lia.
  - destruct (apply_positive _ _ _ _ _ _ _ E) as [_ Hm].
    destruct (apply_applied _ _ _ _ _ _ _ E A) as (g & Hg & _ & _ & _ & Hc).
    destruct (cursorOf_insert _ _ _ _ Hc) as [Hs Ho].
    destruct (decide (set = s)) as [->|Hn]; [|rewrite Ho by done; right; lia].
    rewrite Hs. apply advancedCursor_le; [apply Hg|lia].
Qed.

Lemma retiredFor_keeps set g result ib s g' m d :
  ib_ledger ib !! (s, g', m) = Some d -> (s = set -> g - 1 <= g') ->
  retiredFor set g result ib !! (s, g', m) = Some d.
Proof.
  intros L Hg. unfold retiredFor. destruct (Detected _); [|done].
  rewrite retireGenerations_lookup, bool_decide_eq_false_2; [done|]. simpl. intros [E ?]. specialize (Hg E). lia.
Qed.

Lemma retiredFor_was set g result ib k d :
  retiredFor set g result ib !! k = Some d -> ib_ledger ib !! k = Some d.
Proof.
  unfold retiredFor. destruct (Detected _); [|done]. rewrite retireGenerations_lookup. by case_bool_decide.
Qed.

(** What the application of a message leaves of a scale set's cursor. *)
Lemma applied_cursor now ib set message events ib' result :
  0 <= c_generation (cursorOf ib set) ->
  ApplyDemandBatch now ib set message events = inr (ib', result) -> Applied result = true ->
  exists g, c_generation (cursorOf ib' set) = g /\ message <= c_message (cursorOf ib' set) /\
    c_generation (cursorOf ib set) <= g /\ ib_ledger ib' !! (set, g, message) = Some (batchDigest events) /\
    (forall other, other <> set -> cursorOf ib' other = cursorOf ib other) /\
    forall s g' m d, (s, g', m) <> (set, g, message) -> ib_ledger ib' !! (s, g', m) = Some d ->
      ib_ledger ib !! (s, g', m) = Some d /\
      (s = set -> c_generation (cursorOf ib set) < g -> g - 1 <= g').
Proof.
  intros H0 E A. destruct (apply_applied _ _ _ _ _ _ _ E A) as (g & Hg & Hr & _ & Hl & Hc).
  destruct (cursorOf_insert _ _ _ _ Hc) as [Hs Ho].
  destruct (advancedCursor_live g message (ib_cursors ib !! set)) as [G M]; [apply Hg|lia|].
  exists g. rewrite Hs, Hl. split_and!; [done|done|lia|by rewrite lookup_insert_eq|done|].
  intros s g' m d Hk L. rewrite lookup_insert_ne in L by done. split; [by eapply retiredFor_was|].
  intros -> Hlt. unfold retiredFor in L. rewrite (proj1 Hr) in L by lia.
  rewrite retireGenerations_lookup in L. case_bool_decide as Hd; [done|]. simpl in Hd. lia.
Qed.

(** A row stays for as long as its generation is the live or the previous one. *)
Lemma step_keeps_row ib ib' set g m d :
  InboxStep ib ib' -> ib_ledger ib !! (set, g, m) = Some d -> c_generation (cursorOf ib' set) - 1 <= g ->
  0 <= c_generation (cursorOf ib set) -> ib_ledger ib' !! (set, g, m) = Some d.
Proof.
  intros [[Hl _]|(now & s & m' & ev & r & E & A)]%step_ledger L Hg H0; [by rewrite Hl|].
  destruct (apply_applied _ _ _ _ _ _ _ E A) as (g0 & Hg0 & _ & Hn & Hl & Hc).
  destruct (cursorOf_insert _ _ _ _ Hc) as [Hs _].
  assert (retiredFor s g0 r ib !! (set, g, m) = Some d) as Hk.
  { apply retiredFor_keeps; [done|]. intros ->. rewrite Hs in Hg.
    destruct (advancedCursor_live g0 m' (ib_cursors ib !! s)) as [G _]; [apply Hg0|lia|lia]. }
  rewrite Hl, lookup_insert_ne; [done|]. intros [= -> -> ->]. congruence.
Qed.

(** ** The invariant *)

Lemma cursors_nonnegative ib : InboxReachable ib -> forall set, 0 <= c_generation (cursorOf ib set).
Proof.
  intros Hr. pattern ib. eapply rtc_ind_r; [| |exact Hr].
  - done.
  - intros x y _ S IH set. specialize (IH set). destruct (step_cursorLe _ _ set S); lia.
Qed.

Lemma ledger_ok ib : InboxReachable ib -> LedgerOk ib.
Proof.
  intros Hr. pattern ib. eapply rtc_ind_r; [|clear ib Hr|exact Hr].
  { intros set g m d L. simpl in L. by rewrite lookup_empty in L. }
  intros x y Hx S IH set g m d L. cbn zeta.
  destruct (step_ledger _ _ S) as [[Hl Hc]|(now & s & m' & ev & r & E & A)].
  { specialize (IH set g m d). unfold cursorOf in *. rewrite Hc, <- Hl in *. by apply IH. }
  destruct (applied_cursor _ _ _ _ _ _ _ (cursors_nonnegative _ Hx s) E A)
    as (g0 & Hg & Hm & Hle & _ & Ho & Hw).
  destruct (decide ((set, g, m) = (s, g0, m'))) as [[= -> -> ->]|Hk]; [lia|].
  destruct (Hw _ _ _ _ Hk L) as [L0 Hlt]. specialize (IH _ _ _ _ L0). cbn zeta in IH.
  destruct (decide (set = s)) as [->|Hn]; [|by rewrite Ho].
  pose proof (step_cursorLe _ _ s S) as [?|[? ?]]; [specialize (Hlt eq_refl)|]; lia.
Qed.

(** A message that was processed is a row of the live generation. *)
Lemma processed_row now ib set message events ib' result :
  InboxReachable ib -> ApplyDemandBatch now ib set message events = inr (ib', result) ->
  ib_ledger ib' !! (set, c_generation (cursorOf ib' set), message) = Some (batchDigest events).
Proof.
  intros Hr E. destruct (Applied result) eqn:A.
  - by destruct (applied_cursor _ _ _ _ _ _ _ (cursors_nonnegative _ Hr set) E A) as (g & -> & _ & _ & L & _).
  - destruct (apply_duplicate _ _ _ _ _ _ _ E A) as [-> _]. revert E. unfold ApplyDemandBatch. destruct (_ || _); [done|].
    destruct (inboxGeneration _ _ _ _) as [[g reset] dup] eqn:I. apply inboxGeneration_spec in I.
    destruct I as [(-> & L & _)|[(-> & _)|(-> & _)]]; [done| |];
      destruct (applyEvents _ _ _ _) as [|ib1]; simpl; try done;
      destruct (recordMessage _ _ _ _ _); simpl; try done; intros [= <- <-]; done.
Qed.

Lemma steps_keep_live_row ib ib' set m d :
  InboxReachable ib -> rtc InboxStep ib ib' ->
  c_generation (cursorOf ib' set) = c_generation (cursorOf ib set) ->
  ib_ledger ib !! (set, c_generation (cursorOf ib set), m) = Some d ->
  ib_ledger ib' !! (set, c_generation (cursorOf ib set), m) = Some d.
Proof.
  intros Hr Hs. revert Hr. induction Hs as [ib|x y z S Hs IH]; intros Hr Hg L; [done|].
  assert (InboxReachable y) as Hy by (eapply rtc_r; eassumption).
  assert (c_generation (cursorOf y set) <= c_generation (cursorOf z set)) as Hyz.
  { clear -Hs. induction Hs as [|a b c S _ IH]; [lia|]. destruct (step_cursorLe _ _ set S); lia. }
  assert (c_generation (cursorOf y set) = c_generation (cursorOf x set)) as Hxy
    by (destruct (step_cursorLe _ _ set S); lia).
  rewrite <- Hxy in *. apply IH; [done|lia|]. eapply step_keeps_row; [done|done|lia|].
  by apply cursors_nonnegative.
Qed.

(** ** What a message can be refused for *)

(** Two different identities of one runner request: [e] of the batch against a
    stored row or against an earlier event of the batch. *)
Definition identityConflict (ib : Inbox) (set : Z) (events : list DemandEvent) : Prop :=
  exists before e after job, events = before ++ e :: after /\
    job <> "" /\ de_JobID e <> "" /\ job <> de_JobID e /\
    ((exists row, ib_demands ib !! (set, de_RunnerRequestID e) = Some row /\ d_job row = job) \/
     (exists e', In e' before /\ de_RunnerRequestID e' = de_RunnerRequestID e /\ de_JobID e' = job)).

Lemma applyDemandEvent_outcome set now ib e :
  match applyDemandEvent set now ib e with
  | inl err => err = ErrConflict /\ exists row, ib_demands ib !! (set, de_RunnerRequestID e) = Some row /\
      d_job row <> "" /\ de_JobID e <> "" /\ d_job row <> de_JobID e
  | inr ib' => forall request row, ib_demands ib' !! (set, request) = Some row ->
      (exists old, ib_demands ib !! (set, request) = Some old /\ d_job row = d_job old) \/
      d_job row = "" \/ (request = de_RunnerRequestID e /\ d_job row = de_JobID e)
  end.
Proof.
  unfold applyDemandEvent. destruct (_ && _ && _) eqn:C.
  - split; [done|]. rewrite !andb_true_iff, !negb_true_iff, !bool_decide_eq_false in C.
    destruct (ib_demands ib !! _) as [row|]; simpl in C; [exists row; tauto|tauto].
  - clear C. destruct (bool_decide _); intros request row; simpl;
      (destruct (decide (request = de_RunnerRequestID e)) as [->|Hn];
       [rewrite lookup_insert_eq; intros [= <-]; simpl; unfold orKeep; case_bool_decide;
          [destruct (ib_demands ib !! _) as [old|]; simpl; [left; by exists old|by right; left]
          |by right; right]
       |rewrite lookup_insert_ne by congruence; intros L; left; by exists row]).
Qed.

Lemma applyEvents_outcome set now events : forall ib,
  match applyEvents set now ib events with
  | inl err => err = ErrConflict /\ identityConflict ib set events
  | inr _ => True
  end.
Proof.
  induction events as [|e events IH]; intros ib; simpl; [done|].
  pose proof (applyDemandEvent_outcome set now ib e) as H1.
  destruct (applyDemandEvent set now ib e) as [err|ib1]; simpl.
  - destruct H1 as (-> & row & L & H1). split; [done|]. exists [], e, events, (d_job row).
    split_and!; [done|tauto..|]. left. by exists row.
  - specialize (IH ib1). destruct (applyEvents set now ib1 events) as [err|]; [|done].
    destruct IH as (-> & before & e' & after & job & -> & Hj & He & Hne & Hor). split; [done|].
    exists (e :: before), e', after, job. split_and!; [done..|].
    destruct Hor as [(row & L & Hd)|(e'' & Hi & Hrest)]; [|right; exists e''; split; [by right|done]].
    destruct (H1 _ _ L) as [(old & Lo & Ho)|[Ho|(Hq & Ho)]].
    + left. exists old. split; [done|congruence].
    + congruence.
    + right. exists e. split_and!; [by left|done|congruence].
Qed.

Lemma apply_refusal now ib set message events err :
  InboxReachable ib -> 0 < set -> 0 < message -> forallb DemandEvent_Valid events = true ->
  ApplyDemandBatch now ib set message events = inl err -> err = ErrConflict /\ identityConflict ib set events.
Proof.
  intros Hr Hset Hm Hv. unfold ApplyDemandBatch.
  rewrite (proj2 (Z.leb_gt _ _) Hset), (proj2 (Z.leb_gt _ _) Hm), Hv. simpl.
  destruct (inboxGeneration _ _ _ _) as [[g reset] dup] eqn:I. apply inboxGeneration_spec in I.
  destruct dup; [done|].
  match goal with |- context [applyEvents set now ?ib0 events] =>
    pose proof (applyEvents_outcome set now events ib0) as Ho;
    destruct (applyEvents set now ib0 events) as [err'|ib1] eqn:A end.
  { intros [= <-]. destruct Ho as (-> & Ho). split; [done|]. by destruct (Detected reset). }
  apply applyEvents_ledger in A as [Al _]. simpl. unfold recordMessage. intros Hrec. exfalso.
  destruct (ib_ledger ib1 !! _) as [d|] eqn:L; [|done]. rewrite Al in L.
  destruct I as [(? & _)|[(_ & Hd & -> & Hn)|(_ & Hd & -> & _)]]; [done| |]; rewrite Hd in L; simpl in L.
  - congruence.
  - rewrite retireGenerations_lookup in L. case_bool_decide; [done|].
    apply (ledger_ok _ Hr) in L. cbn zeta in L. lia.
Qed.

(** ** Claims *)

(** C23: a broker message that the inbox has processed is recognised for as long as
    the broker's numbering is not restarted.  Whatever the inbox does in between
    (other messages, snapshots, expiries), a redelivery changes nothing and
    reports that it was not applied. *)
Theorem broker_message_is_applied_once now now' ib set message events ib1 result ib2 :
  InboxReachable ib -> ApplyDemandBatch now ib set message events = inr (ib1, result) ->
  rtc InboxStep ib1 ib2 -> c_generation (cursorOf ib2 set) = c_generation (cursorOf ib1 set) ->
  ApplyDemandBatch now' ib2 set message events = inr (ib2, {| Applied := false; Reset_ := noReset |}).
Proof.
  intros Hr E Hs Hg. pose proof (processed_row _ _ _ _ _ _ _ Hr E) as L.
  assert (InboxReachable ib1) as H1 by (eapply rtc_r; [exact Hr|by eapply step_batch]).
  eapply steps_keep_live_row in L; [|done|exact Hs|done]. rewrite <- Hg in L.
  unfold ApplyDemandBatch in *. destruct (_ || _); [done|].
  destruct (inboxGeneration ib2 _ _ _) as [[g reset] dup] eqn:I. apply inboxGeneration_spec in I.
  destruct I as [(-> & _)|[(_ & _ & _ & Hn)|(_ & _ & _ & other & Ho & Hne)]]; [done|congruence|congruence].
Qed.

(** A well-formed broker message is refused for one reason only, a runner
    request that carries two different job identities.  Otherwise it is
    processed: it is in the ledger of the live generation, the cursor has not
    gone back, and when the numbering was restarted the cursor is the message's
    own number. *)
Theorem broker_message_is_never_lost now ib set message events :
  InboxReachable ib -> 0 < set -> 0 < message -> forallb DemandEvent_Valid events = true ->
  match ApplyDemandBatch now ib set message events with
  | inl err => err = ErrConflict /\ identityConflict ib set events
  | inr (ib', result) =>
      ib_ledger ib' !! (set, c_generation (cursorOf ib' set), message) = Some (batchDigest events) /\
      message <= c_message (cursorOf ib' set) /\ cursorLe (cursorOf ib set) (cursorOf ib' set) /\
      (Detected (Reset_ result) = true -> c_message (cursorOf ib' set) = message)
  end.
Proof.
  intros Hr Hset Hm Hv. destruct (ApplyDemandBatch _ _ _ _ _) as [err|[ib' result]] eqn:E.
  { by eapply apply_refusal. }
  pose proof (processed_row _ _ _ _ _ _ _ Hr E) as L. split; [done|].
  assert (InboxReachable ib') as H1 by (eapply rtc_r; [exact Hr|by eapply step_batch]).
  split; [by eapply (ledger_ok _ H1)|]. split; [by eapply step_cursorLe, step_batch|].
  intros Hd. destruct (Applied result) eqn:A.
  - destruct (apply_applied _ _ _ _ _ _ _ E A) as (g & Hg & Hr' & _ & _ & Hc).
    destruct (cursorOf_insert _ _ _ _ Hc) as [-> _]. apply Hr' in Hd.
    unfold cursorOf in *. destruct (ib_cursors ib !! set) as [[cg cm]|]; simpl in *; [|done].
    by rewrite (proj2 (Z.ltb_lt cg g)) by lia.
  - apply (apply_duplicate _ _ _ _ _ _ _ E) in A as [_ R]. by rewrite R in Hd.
Qed.

End Ledger.

(** ** The claims at work *)

Definition plainDigest : DemandDigest :=
  {| batchDigest events := joinNul (map (fun e => pretty (de_RunnerRequestID e) +:+ de_JobID e) events);
     logicalDigest s := s |}.

Definition availableEvent (request : Z) (job : string) : DemandEvent :=
  {| de_Kind := DemandJobAvailable; de_RunnerRequestID := request; de_Owner := "acme"; de_Repository := "app";
     de_WorkflowRunID := 7; de_JobID := job; de_DisplayName := "build"; de_WorkflowRef := "";
     de_EventName := "push"; de_Labels := Some ["macos"]; de_QueueTime := fromNanos 1700000000000000000; de_RunnerID := 0;
     de_RunnerName := ""; de_Result := "" |}.

Definition afterBatch (ib : Inbox) (message : Z) (events : list DemandEvent) : Inbox :=
  match ApplyDemandBatch (H := plainDigest) 1700000000000000000 ib 4 message events with
  | inr (ib', _) => ib'
  | inl _ => ib
  end.

(** Message 3 again, after message 9. *)
Lemma broker_message_is_applied_once_witness :
  let ib1 := afterBatch emptyInbox 3 [availableEvent 11 "a"] in
  let ib2 := afterBatch ib1 9 [availableEvent 12 "b"] in
  ApplyDemandBatch (H := plainDigest) 0 ib2 4 3 [availableEvent 11 "a"]
  = inr (ib2, {| Applied := false; Reset_ := noReset |}).
Proof.
  cbv zeta.
  apply (broker_message_is_applied_once (H := plainDigest) 1700000000000000000 0 emptyInbox 4 3 [availableEvent 11 "a"]
    (afterBatch emptyInbox 3 [availableEvent 11 "a"]) {| Applied := true; Reset_ := noReset |}
    (afterBatch (afterBatch emptyInbox 3 [availableEvent 11 "a"]) 9 [availableEvent 12 "b"])).
  - apply rtc_refl.
  - vm_compute. reflexivity.
  - apply rtc_once.
    apply (step_batch (H := plainDigest) 1700000000000000000 _ 4 9 [availableEvent 12 "b"] _
      {| Applied := true; Reset_ := noReset |}).
    vm_compute. reflexivity.
  - vm_compute. reflexivity.
Defined.

(** Message 3 of a restarted numbering, and its cursor. *)
Lemma broker_message_is_never_lost_witness :
  let ib1 := afterBatch (afterBatch emptyInbox 3 [availableEvent 11 "a"]) 9 [availableEvent 12 "b"] in
  match ApplyDemandBatch (H := plainDigest) 0 ib1 4 3 [availableEvent 13 "c"] with
  | inl err => err = ErrConflict /\ identityConflict ib1 4 [availableEvent 13 "c"]
  | inr (ib', result) =>
      ib_ledger ib' !! (4, c_generation (cursorOf ib' 4), 3) = Some (batchDigest (DemandDigest := plainDigest) [availableEvent 13 "c"]) /\
      3 <= c_message (cursorOf ib' 4) /\ cursorLe (cursorOf ib1 4) (cursorOf ib' 4) /\
      (Detected (Reset_ result) = true -> c_message (cursorOf ib' 4) = 3)
  end.
Proof.
  cbv zeta. apply (broker_message_is_never_lost (H := plainDigest) 0).
  - eapply rtc_l; [eapply (step_batch (H := plainDigest) 1700000000000000000 _ 4 3 [availableEvent 11 "a"]);
      vm_compute; reflexivity|].
    apply rtc_once. eapply (step_batch (H := plainDigest) 1700000000000000000 _ 4 9 [availableEvent 12 "b"]).
    vm_compute. reflexivity.
  - lia.
  - lia.
  - reflexivity.
Defined.

(** The numbering restarts once, and a late redelivery of the old message 3 and
    then of the new one are each taken for another restart. *)
Theorem late_redelivery_restarts_again :
  let old := [availableEvent 11 "a"] in
  let new := [availableEvent 13 "c"] in
  let ib := afterBatch (afterBatch (afterBatch (afterBatch emptyInbox 3 old) 3 new) 3 old) 3 new in
  cursorOf ib 4 = {| c_generation := 3; c_message := 3 |} /\
  ApplyDemandBatch (H := plainDigest) 0 ib 4 3 new = inr (ib, {| Applied := false; Reset_ := noReset |}).
Proof. cbv zeta. split; vm_compute; reflexivity. Qed.
