(* ===== verification/Demands.v ===== *)
(** * The life of a demand in the inbox

    What a demand's row says is read back from the history of what the inbox was
    asked to do: its status is the furthest the broker ever reported, and the
    count of absences is carried by that many complete snapshots, taken one after
    another, that did not show its job. *)

From Stdlib Require Import ZArith Lia String Sorted.
From stdpp Require Import base tactics list gmap strings pretty relations.
From S2P Require Import Prelude GoStrings Liveness Domain Operations Failure Store Inbox Ledger.

#[local] Open Scope store_scope.

Section Demands.
Context `{DemandDigest}.

(** ** Histories, the newest act first *)

Inductive Follows : list (InboxAct * bool) -> Inbox -> Prop :=
| follows_nil : Follows [] emptyInbox
| follows_act trace ib act told ib' :
    Follows trace ib -> admissible act -> perform act ib = inr (ib', told) -> Follows ((act, told) :: trace) ib'.

Lemma follows_reachable trace ib : Follows trace ib -> InboxReachable ib.
Proof.
  induction 1 as [|trace ib act told ib' _ IH Ha Hp]; [apply rtc_refl|]. eapply rtc_r; [done|]. by exists act, told.
Qed.

Definition kindsFor (request : Z) (events : list DemandEvent) : list DemandEventKind :=
  map de_Kind (List.filter (fun e => de_RunnerRequestID e =? request) events).

(** What the broker has reported of a request, as far as it was applied. *)
Definition reportedBy (set request : Z) (entry : InboxAct * bool) : list DemandEventKind :=
  match entry with
  | (ActBatch _ s _ events, true) => if s =? set then kindsFor request events else []
  | _ => []
  end.

Definition reported (set request : Z) (trace : list (InboxAct * bool)) : list DemandEventKind :=
  flat_map (reportedBy set request) trace.

Definition shows (logical : string) (jobs : list GitHubJobObservation) : bool :=
  existsb (fun j => bool_decide (jobLogicalKey j = logical)) jobs.

(** An act that says the demand is wanted: a broker event of its request, or a
    snapshot that shows its job. *)
Definition speaksFor (set request : Z) (logical : string) (entry : InboxAct * bool) : bool :=
  match entry with
  | (ActBatch _ s _ events, true) => (s =? set) && existsb (fun e => de_RunnerRequestID e =? request) events
  | (ActSnapshot _ _ snapshot, _) => match snapshot !! set with Some jobs => shows logical jobs | None => false end
  | _ => false
  end.

(** The instants of the complete snapshots of the scale set taken since. *)
Fixpoint absences (set request : Z) (logical : string) (trace : list (InboxAct * bool)) : list Z :=
  match trace with
  | [] => []
  | entry :: older =>
      if speaksFor set request logical entry then []
      else match entry with
           | (ActSnapshot _ observedAt snapshot, _) =>
               match snapshot !! set with
               | Some _ => UnixNano observedAt :: absences set request logical older
               | None => absences set request logical older
               end
           | _ => absences set request logical older
           end
  end.

(** ** The tables *)

Lemma updateDemands_lookup set f table k :
  updateDemands set f table !! k = option_map (fun row => if fst k =? set then f row else row) (table !! k).
Proof. unfold updateDemands. rewrite map_lookup_imap. by destruct (table !! k). Qed.

Lemma applyDemandEvent_row set now ib e ib' :
  applyDemandEvent set now ib e = inr ib' ->
  exists row, ib_demands ib' = <[(set, de_RunnerRequestID e) := row]> (ib_demands ib) /\
    ib_snapshots ib' = ib_snapshots ib /\
    d_absentSince row = 0 /\ d_absentCount row = 0 /\ d_expired row = 0 /\
    d_status row = match ib_demands ib !! (set, de_RunnerRequestID e) with
                   | Some old => if demandRank (d_status old) <=? demandRank (de_Kind e) then de_Kind e else d_status old
                   | None => de_Kind e
                   end.
Proof.
  unfold applyDemandEvent. destruct (_ && _ && _); [done|].
  destruct (bool_decide _); intros [= <-]; eexists; (split; [reflexivity|]); (split_and!; [done..|]); simpl;
    destruct (ib_demands ib !! _); simpl; try done; by destruct (de_Kind e).
Qed.

(** ** Status *)

Definition furthest (kinds : list DemandEventKind) (status : option DemandEventKind) : Prop :=
  match status with
  | None => kinds = []
  | Some s => In s kinds /\ forall k, In k kinds -> demandRank k <= demandRank s
  end.

Lemma furthest_after kinds old k :
  furthest kinds old ->
  furthest (k :: kinds)
    (Some match old with Some s => if demandRank s <=? demandRank k then k else s | None => k end).
Proof.
  destruct old as [s|]; simpl; [|intros ->; split; [by left|]; intros k' [->|[]]; lia].
  intros [Hi Hm]. destruct (Z.leb_spec (demandRank s) (demandRank k)); split; try tauto;
    intros k' [->|Hk]; try lia; specialize (Hm _ Hk); lia.
Qed.

Lemma furthest_perm kinds kinds' s : Permutation kinds kinds' -> furthest kinds s -> furthest kinds' s.
Proof.
  intros Hp. destruct s as [s|]; simpl.
  - intros [Hi Hm]. split; [by eapply Permutation_in|]. intros k Hk. apply Hm.
    by eapply Permutation_in; [symmetry|].
  - intros ->. by apply Permutation_nil.
Qed.

Definition statusOf (ib : Inbox) (set request : Z) : option DemandEventKind :=
  option_map d_status (ib_demands ib !! (set, request)).

Lemma applyEvents_status set now events s request : forall kinds ib ib',
  applyEvents set now ib events = inr ib' -> furthest kinds (statusOf ib s request) ->
  furthest ((if set =? s then kindsFor request events else []) ++ kinds) (statusOf ib' s request).
Proof.
  induction events as [|e events IH]; intros kinds ib ib'; simpl.
  { intros [= <-]. by destruct (set =? s). }
  destruct (applyDemandEvent set now ib e) as [|ib1] eqn:E; [done|]. simpl. intros Hr Hf.
  apply applyDemandEvent_row in E as (row & Hd & _ & _ & _ & _ & Hs).
  destruct (decide ((set, de_RunnerRequestID e) = (s, request))) as [[= <- <-]|Hn].
  - rewrite Z.eqb_refl. unfold kindsFor. simpl. rewrite Z.eqb_refl. simpl. rewrite Z.eqb_refl in IH.
    eapply furthest_perm; [symmetry; apply Permutation_middle|]. eapply IH; [done|].
    unfold statusOf in *. rewrite Hd, lookup_insert_eq. simpl. rewrite Hs.
    eapply (furthest_after _ _ (de_Kind e)) in Hf. by destruct (ib_demands ib !! _).
  - assert (statusOf ib1 s request = statusOf ib s request) as Hi.
    { unfold statusOf. by rewrite Hd, lookup_insert_ne. }
    rewrite <- Hi in Hf. eapply IH in Hf; [|exact Hr]. unfold kindsFor in *. simpl.
    destruct (Z.eqb_spec set s) as [->|]; [|done].
    destruct (Z.eqb_spec (de_RunnerRequestID e) request); [congruence|done].
Qed.

(** ** One scale set's part of the inbox *)

Definition sameSet (set : Z) (ib ib' : Inbox) : Prop :=
  (forall request, ib_demands ib' !! (set, request) = ib_demands ib !! (set, request)) /\
  ib_snapshots ib' !! set = ib_snapshots ib !! set.

Lemma sameSet_trans set a b c : sameSet set a b -> sameSet set b c -> sameSet set a c.
Proof. intros [H1 H2] [H3 H4]. split; [intros r; by rewrite H3|congruence]. Qed.

Lemma groups_otherSet set other observed groups ib :
  other <> set -> sameSet set ib (fold_left (reconcileGroup other observed) groups ib).
Proof.
  intros Hn. revert ib. induction groups as [|[key g] groups IH]; intros ib; simpl; [done|].
  eapply sameSet_trans; [|apply IH]. split; [|done]. intros request. simpl. rewrite updateDemands_lookup. simpl.
  rewrite (proj2 (Z.eqb_neq set other)) by done. by destruct (ib_demands ib !! _).
Qed.

Lemma tx_otherSet range_ set other observedAt jobs ib :
  other <> set -> sameSet set ib (fst (reconcileGitHubJobsTx range_ other observedAt jobs ib)).
Proof.
  intros Hn. unfold reconcileGitHubJobsTx. cbn [fst].
  set (ib1 := setJobs ib _). apply (sameSet_trans _ _ ib1); [done|].
  eapply sameSet_trans; [by apply (groups_otherSet set other)|].
  unfold accrueAbsentDemand. destruct (_ <=? _); [done|]. split; simpl.
  - intros request. rewrite updateDemands_lookup. simpl. rewrite (proj2 (Z.eqb_neq set other)) by done.
    by destruct (ib_demands _ !! _).
  - by rewrite lookup_insert_ne.
Qed.

(** A snapshot of a scope touches a scale set once, or not at all. *)
Lemma scopes_slice range_ set observedAt entries : forall acc,
  NoDup (map fst entries) ->
  (~ In set (map fst entries) /\ sameSet set (fst acc) (fst (fold_left (reconcileScope range_ observedAt) entries acc))) \/
  (exists jobs ib0, In (set, jobs) entries /\ sameSet set (fst acc) ib0 /\
     sameSet set (fst (reconcileGitHubJobsTx range_ set observedAt jobs ib0))
       (fst (fold_left (reconcileScope range_ observedAt) entries acc))).
Proof.
  induction entries as [|[other jobs] entries IH]; intros acc Hd; simpl; [left; split; [tauto|done]|].
  apply NoDup_cons in Hd as [Hni Hd]. specialize (IH (reconcileScope range_ observedAt acc (other, jobs)) Hd).
  destruct (decide (other = set)) as [->|Hn].
  - right. exists jobs, (fst acc). split_and!; [by left|done|].
    destruct IH as [[_ Hs]|(jobs' & ib0 & Hi & _)]; [exact Hs|]. contradict Hni. apply list_elem_of_In.
    by apply (in_map fst) in Hi.
  - pose proof (tx_otherSet range_ set other observedAt jobs (fst acc) Hn) as Ho.
    destruct IH as [[Hni' Hs]|(jobs' & ib0 & Hi & Hs & Ht)].
    + left. split; [by intros [?|?]|]. by eapply sameSet_trans.
    + right. exists jobs', ib0. split_and!; [by right| |done]. by eapply sameSet_trans.
Qed.

Lemma snapshot_slice range_ observedAt snapshot set ib ib' b :
  ReconcileGitHubJobSnapshot range_ observedAt snapshot ib = inr (ib', b) ->
  match snapshot !! set with
  | None => sameSet set ib ib'
  | Some jobs => exists ib0, sameSet set ib ib0 /\
      sameSet set (fst (reconcileGitHubJobsTx range_ set observedAt jobs ib0)) ib'
  end.
Proof.
  unfold ReconcileGitHubJobSnapshot. destruct (_ || _); [done|]. intros [= E].
  apply (f_equal fst) in E. simpl in E.
  set (entries := sortBy _ _) in E.
  assert (Permutation entries (map_to_list snapshot)) as Hp by apply sortBy_perm.
  destruct (scopes_slice range_ set observedAt entries (ib, false)) as [[Hn Hs]|(jobs & ib0 & Hi & H1 & H2)].
  - rewrite Hp. apply NoDup_fst_map_to_list.
  - destruct (snapshot !! set) as [jobs|] eqn:L; [|by rewrite E in Hs].
    contradict Hn. apply (in_map fst _ (set, jobs)). apply list_elem_of_In. rewrite Hp.
    by apply elem_of_map_to_list.
  - apply list_elem_of_In in Hi. rewrite Hp in Hi. apply elem_of_map_to_list in Hi as ->.
    exists ib0. by rewrite E in H2.
Qed.

(** ** One snapshot and one row *)

Lemma groupJobs_key jobs key : is_Some (groupJobs jobs !! key) <-> shows key jobs = true.
Proof.
  enough (forall m : gmap string JobGroup, is_Some (fold_left (fun (groups : gmap string JobGroup) j =>
      <[jobLogicalKey j := addToGroup (default zeroGroup (groups !! jobLogicalKey j)) j]> groups) jobs m !! key)
    <-> is_Some (m !! key) \/ shows key jobs = true) as Hg.
  { unfold groupJobs. rewrite Hg, lookup_empty. split; [|by right]. intros [[? ?]|?]; done. }
  induction jobs as [|j jobs IH]; intros m; simpl; [intuition congruence|]. rewrite IH.
  destruct (decide (jobLogicalKey j = key)) as [<-|Hn].
  - rewrite lookup_insert_eq, bool_decide_eq_true_2 by done. simpl. split; [by right|left; by eexists].
  - by rewrite lookup_insert_ne, bool_decide_eq_false_2 by done.
Qed.

Lemma ranged_key range_ jobs key :
  Permutation (range_ (groupJobs jobs)) (map_to_list (groupJobs jobs)) ->
  existsb (fun entry => bool_decide (fst entry = key)) (range_ (groupJobs jobs)) = shows key jobs.
Proof.
  intros Hp. apply eq_bool_prop_intro. rewrite !Is_true_true, <- groupJobs_key, existsb_exists. split.
  - intros ([k g] & Hi & Hk). apply bool_decide_eq_true in Hk as <-. exists g.
    apply elem_of_map_to_list. rewrite <- Hp. by apply list_elem_of_In.
  - intros [g Hg]. exists (key, g). split; [|by apply bool_decide_eq_true_2].
    apply list_elem_of_In. rewrite Hp. by apply elem_of_map_to_list.
Qed.

(** A row whose job was just seen. *)
Definition freshRow (observed : Z) (row row' : DemandRow) : Prop :=
  d_status row' = d_status row /\ d_logical row' = d_logical row /\ d_corroborated row' = observed /\
  d_absentSince row' = 0 /\ d_absentCount row' = 0 /\ d_expired row' = 0.

Lemma groups_row set observed request groups : forall ib row,
  ib_demands ib !! (set, request) = Some row ->
  exists row', ib_demands (fold_left (reconcileGroup set observed) groups ib) !! (set, request) = Some row' /\
    if existsb (fun entry => bool_decide (fst entry = d_logical row)) groups
    then freshRow observed row row' else row' = row.
Proof.
  induction groups as [|[key g] groups IH]; intros ib row L; simpl; [by exists row|].
  set (ib1 := setDemands _ _).
  assert (exists row1, ib_demands ib1 !! (set, request) = Some row1 /\ d_logical row1 = d_logical row /\
    if bool_decide (key = d_logical row) then freshRow observed row row1 else row1 = row) as (row1 & L1 & Hk & Hr).
  { unfold ib1. simpl. rewrite updateDemands_lookup, L. simpl. rewrite Z.eqb_refl. eexists. split; [done|].
    destruct (decide (key = d_logical row)) as [->|Hn].
    - by rewrite !bool_decide_eq_true_2.
    - rewrite !bool_decide_eq_false_2 by congruence. done. }
  destruct (IH ib1 row1 L1) as (row2 & L2 & H2). exists row2. split; [done|]. rewrite Hk in H2.
  destruct (existsb _ groups); rewrite ?orb_true_r, ?orb_false_r.
  - destruct (bool_decide _); [|by subst row1]. unfold freshRow in *. destruct H2, Hr. intuition congruence.
  - subst row2. by destruct (bool_decide _).
Qed.

Lemma groups_snapshots set observed groups : forall ib,
  ib_snapshots (fold_left (reconcileGroup set observed) groups ib) = ib_snapshots ib /\
  forall k, ib_demands ib !! k = None -> ib_demands (fold_left (reconcileGroup set observed) groups ib) !! k = None.
Proof.
  induction groups as [|[key g] groups IH]; intros ib; simpl; [done|].
  destruct (IH (reconcileGroup set observed ib (key, g))) as [H1 H2]. split; [exact H1|].
  intros k L. apply H2. simpl. by rewrite updateDemands_lookup, L.
Qed.

Definition observedOf (ib : Inbox) (set : Z) : Z :=
  match ib_snapshots ib !! set with Some s => s_observed s | None => 0 end.

(** A row the snapshot does not show, one absence more. *)
Definition accruedRow (observed : Z) (row : DemandRow) : DemandRow :=
  withAbsence row (d_updated row) (if d_absentSince row =? 0 then observed else d_absentSince row)
    (d_absentCount row + 1) (d_expired row).

Lemma tx_row range_ set observedAt jobs ib request :
  (forall g, Permutation (range_ g) (map_to_list g)) ->
  let observed := UnixNano observedAt in
  let ib' := fst (reconcileGitHubJobsTx range_ set observedAt jobs ib) in
  observedOf ib' set = Z.max observed (observedOf ib set) /\
  match ib_demands ib !! (set, request) with
  | None => ib_demands ib' !! (set, request) = None
  | Some row => exists row', ib_demands ib' !! (set, request) = Some row' /\
      if shows (d_logical row) jobs then freshRow observed row row'
      else row' = row \/ (row' = accruedRow observed row /\ missed observed row = true /\ observedOf ib set < observed)
  end.
Proof.
  intros Hp. cbv zeta. unfold reconcileGitHubJobsTx, accrueAbsentDemand. cbn [fst].
  set (observed := UnixNano observedAt). set (ib1 := setJobs ib _).
  destruct (groups_snapshots set observed (range_ (groupJobs jobs)) ib1) as [Hs Hnone].
  set (ib2 := fold_left _ _ ib1) in *. fold (observedOf ib set).
  assert (observedOf ib2 set = observedOf ib set) as Ho by (unfold observedOf; by rewrite Hs).
  pose proof (fun row => groups_row set observed request (range_ (groupJobs jobs)) ib1 row) as Hrow.
  split.
  - destruct (Z.leb_spec observed (observedOf ib set)) as [Hle|Hlt]; [rewrite Ho; lia|].
    unfold observedOf at 1. simpl. rewrite lookup_insert_eq. simpl. lia.
  - destruct (ib_demands ib !! (set, request)) as [row|] eqn:L.
    + destruct (Hrow row L) as (row2 & L2 & H2). fold ib2 in L2. rewrite (ranged_key _ _ _ (Hp _)) in H2.
      destruct (Z.leb_spec observed (observedOf ib set)) as [Hle|Hlt].
      { exists row2. split; [done|]. destruct (shows _ _); [done|by left]. }
      simpl. rewrite updateDemands_lookup, L2. simpl. rewrite Z.eqb_refl. eexists. split; [done|].
      destruct (shows _ _).
      * unfold missed. replace (d_corroborated row2 <? observed) with false; [by rewrite andb_false_r|].
        destruct H2 as (_ & _ & -> & _). symmetry. apply Z.ltb_irrefl.
      * subst row2. destruct (missed observed row) eqn:M; [right; done|by left].
    + specialize (Hnone _ L). destruct (_ <=? _); [done|]. simpl. by rewrite updateDemands_lookup, Hnone.
Qed.

(** ** One act and one row *)

Definition touches (request : Z) (events : list DemandEvent) : bool :=
  existsb (fun e => de_RunnerRequestID e =? request) events.

(** The evidence a broker event leaves. *)
Definition cleared (row : DemandRow) : Prop :=
  d_absentSince row = 0 /\ d_absentCount row = 0 /\ d_expired row = 0.

Lemma applyEvents_row set now events s request : forall ib ib',
  applyEvents set now ib events = inr ib' ->
  ib_snapshots ib' = ib_snapshots ib /\
  if (set =? s) && touches request events
  then exists row, ib_demands ib' !! (s, request) = Some row /\ cleared row
  else ib_demands ib' !! (s, request) = ib_demands ib !! (s, request).
Proof.
  induction events as [|e events IH]; intros ib ib'; simpl.
  { intros [= <-]. by rewrite andb_false_r. }
  destruct (applyDemandEvent set now ib e) as [|ib1] eqn:E; [done|]. simpl. intros Hr.
  apply applyDemandEvent_row in E as (row & Hd & Hsn & Hc1 & Hc2 & Hc3 & _).
  destruct (IH _ _ Hr) as [Hs Hi]. split; [congruence|].
  destruct (decide ((set, de_RunnerRequestID e) = (s, request))) as [[= <- <-]|Hn].
  - rewrite !Z.eqb_refl in *. simpl in *. destruct (touches _ events); [done|].
    exists row. rewrite Hi, Hd, lookup_insert_eq. done.
  - rewrite Hd, lookup_insert_ne in Hi by done.
    destruct (Z.eqb_spec set s) as [->|]; [|done].
    destruct (Z.eqb_spec (de_RunnerRequestID e) request); [congruence|done].
Qed.

Lemma batch_events now ib set message events ib' result :
  ApplyDemandBatch now ib set message events = inr (ib', result) ->
  if Applied result then
    exists ib0 ib1, ib_demands ib0 = ib_demands ib /\ ib_snapshots ib0 = ib_snapshots ib /\
      applyEvents set now ib0 events = inr ib1 /\
      ib_demands ib' = ib_demands ib1 /\ ib_snapshots ib' = ib_snapshots ib1
  else ib' = ib.
Proof.
  unfold ApplyDemandBatch. destruct (_ || _); [done|].
  destruct (inboxGeneration _ _ _ _) as [[g reset] []]; [by intros [= <- <-]|].
  destruct (applyEvents _ _ _ _) as [|ib1] eqn:A; [done|]. simpl. unfold recordMessage.
  destruct (ib_ledger ib1 !! _); [done|]. intros [= <- <-]. simpl.
  eexists _, ib1. split_and!; [| |exact A|done|done]; by destruct (Detected reset).
Qed.

Lemma expireWhere_row set at_ test ib s request :
  ib_snapshots (fst (expireWhere set at_ test ib)) = ib_snapshots ib /\
  ib_demands (fst (expireWhere set at_ test ib)) !! (s, request) =
  option_map (fun row => if (s =? set) && test row
                         then withAbsence row at_ (d_absentSince row) (d_absentCount row) at_ else row)
    (ib_demands ib !! (s, request)).
Proof.
  split; [done|]. simpl. rewrite updateDemands_lookup. simpl. by destruct (ib_demands ib !! _), (s =? set).
Qed.

(** Everything an act can do to the evidence columns of a row. *)
Definition keptEvidence (row row' : DemandRow) : Prop :=
  d_status row' = d_status row /\ d_logical row' = d_logical row /\ d_corroborated row' = d_corroborated row /\
  d_absentSince row' = d_absentSince row /\ d_absentCount row' = d_absentCount row.

Definition rowEffect (set request : Z) (entry : InboxAct * bool) (ib ib' : Inbox) (row' : DemandRow) : Prop :=
  observedOf ib set <= observedOf ib' set /\
  if speaksFor set request (d_logical row') entry then cleared row'
  else exists row, ib_demands ib !! (set, request) = Some row /\
    (keptEvidence row row' \/
     exists range_ observedAt snapshot, fst entry = ActSnapshot range_ observedAt snapshot /\
       is_Some (snapshot !! set) /\ row' = accruedRow (UnixNano observedAt) row /\
       missed (UnixNano observedAt) row = true /\
       observedOf ib set < UnixNano observedAt <= observedOf ib' set).

Lemma unchanged_effect set request entry ib ib' row' :
  sameSet set ib ib' -> ib_demands ib' !! (set, request) = Some row' ->
  speaksFor set request (d_logical row') entry = false -> rowEffect set request entry ib ib' row'.
Proof.
  intros [Hd Hs] L Hn. unfold rowEffect, observedOf. rewrite Hs, Hn. split; [lia|].
  exists row'. split; [congruence|by left].
Qed.

Lemma batch_effect now s message events set request ib ib' result row' :
  ApplyDemandBatch now ib s message events = inr (ib', result) ->
  ib_demands ib' !! (set, request) = Some row' ->
  rowEffect set request (ActBatch now s message events, Applied result) ib ib' row'.
Proof.
  intros E L. apply batch_events in E. destruct (Applied result).
  - destruct E as (ib0 & ib2 & Hd0 & Hs0 & Hev & Hd & Hs).
    destruct (applyEvents_row _ _ _ set request _ _ Hev) as [Hsn Hrow].
    unfold rowEffect, observedOf. rewrite Hs, Hsn, Hs0. split; [lia|]. simpl. fold (touches request events).
    rewrite Hd in L. destruct (_ && _).
    + destruct Hrow as (row & L' & Hc). congruence.
    + exists row'. rewrite L, Hd0 in Hrow. split; [done|by left].
  - subst ib'. by apply unchanged_effect.
Qed.

Lemma snapshot_effect range_ observedAt snapshot set request ib ib' b row' :
  (forall g, Permutation (range_ g) (map_to_list g)) ->
  ReconcileGitHubJobSnapshot range_ observedAt snapshot ib = inr (ib', b) ->
  ib_demands ib' !! (set, request) = Some row' ->
  rowEffect set request (ActSnapshot range_ observedAt snapshot, b) ib ib' row'.
Proof.
  intros Hp E L. apply (snapshot_slice _ _ _ set) in E.
  destruct (snapshot !! set) as [jobs|] eqn:Hset; [|apply unchanged_effect; [done|done|]; simpl; by rewrite Hset].
  destruct E as (ib0 & [Hd0 Hs0] & [Hd1 Hs1]).
  destruct (tx_row range_ set observedAt jobs ib0 request Hp) as [Ho Hrow]. rewrite <- Hd1, L, Hd0 in Hrow.
  assert (observedOf ib' set = Z.max (UnixNano observedAt) (observedOf ib set)) as Ho'.
  { unfold observedOf in *. by rewrite Hs1, Ho, Hs0. }
  assert (observedOf ib0 set = observedOf ib set) as Ho0 by (unfold observedOf; by rewrite Hs0).
  split; [lia|]. simpl. rewrite Hset.
  destruct (ib_demands ib !! (set, request)) as [row|]; [|done].
  destruct Hrow as (row2 & [= <-] & Hr).
  destruct (shows (d_logical row) jobs) eqn:Hsh.
  - destruct Hr as (_ & -> & _ & H1 & H2 & H3). by rewrite Hsh.
  - assert (d_logical row' = d_logical row) as -> by (by destruct Hr as [->|[-> _]]).
    rewrite Hsh. exists row. split; [done|]. destruct Hr as [->|(-> & Hm & Hlt)]; [by left|].
    right. exists range_, observedAt, snapshot. split_and!; [done|by eexists|done|done|lia|lia].
Qed.

Lemma expire_effect set request entry s at_ test ib row' :
  speaksFor set request (d_logical row') entry = false ->
  ib_demands (fst (expireWhere s at_ test ib)) !! (set, request) = Some row' ->
  rowEffect set request entry ib (fst (expireWhere s at_ test ib)) row'.
Proof.
  intros Hn. destruct (expireWhere_row s at_ test ib set request) as [Hs ->].
  unfold rowEffect, observedOf. rewrite Hs, Hn. intros L. split; [lia|].
  destruct (ib_demands ib !! _) as [row|]; [|done]. exists row. split; [done|]. left. injection L as <-.
  by destruct (_ && _).
Qed.

Lemma act_effect act ib ib' told set request row' :
  admissible act -> perform act ib = inr (ib', told) -> ib_demands ib' !! (set, request) = Some row' ->
  rowEffect set request (act, told) ib ib' row'.
Proof.
  intros Ha Hp L. destruct act as [now s message events|range_ at_ snap|s c|s c|clock s st]; simpl in Hp.
  - destruct (ApplyDemandBatch _ _ _ _ _) as [|[ib1 result]] eqn:E; [done|]. injection Hp as -> <-.
    by eapply batch_effect.
  - by eapply snapshot_effect.
  - revert Hp. unfold ExpireGhostDemands. destruct (_ || _); [done|]. intros [= <- <-]. by apply expire_effect.
  - revert Hp. unfold ExpireOverdueDemands. destruct (_ || _); [done|]. intros [= <- <-]. by apply expire_effect.
  - apply unchanged_effect; [|done|done]. revert Hp. unfold PutDemandStatistics. destruct (_ || _); [done|].
    destruct (ib_statistics ib !! s) as [old|]; [destruct (_ <=? _)|]; by intros [= <- <-].
Qed.

(** ** The evidence a row carries *)

(** The count of absences of a row is that many complete snapshots of its scale
    set, each newer than the one before and than the last sighting, none of which
    showed its job, all since the last time anything spoke for it; the first of
    them is the instant the absence dates from. *)
Definition evidenced (set request : Z) (trace : list (InboxAct * bool)) (row : DemandRow) (newest : Z)
    (ts : list Z) : Prop :=
  sublist ts (absences set request (d_logical row) trace) /\
  Z.of_nat (length ts) = d_absentCount row /\ StronglySorted Z.gt ts /\
  Forall (fun t => 0 < d_corroborated row < t /\ t <= newest) ts /\ default 0 (last ts) = d_absentSince row.

Lemma evidenced_none set request trace row newest :
  d_absentCount row = 0 -> d_absentSince row = 0 -> evidenced set request trace row newest [].
Proof. intros Hc Hs. split_and!; [apply sublist_nil_l|done|constructor|constructor|done]. Qed.

Lemma absences_older set request logical entry trace :
  speaksFor set request logical entry = false ->
  sublist (absences set request logical trace) (absences set request logical (entry :: trace)).
Proof.
  intros Hn. cbn [absences]. rewrite Hn. destruct entry as [[| range_ at_ snap| | | ] told]; try done.
  destruct (snap !! set); [by apply sublist_cons|done].
Qed.

Lemma evidenced_kept set request trace entry row row' newest newest' ts :
  speaksFor set request (d_logical row) entry = false -> keptEvidence row row' -> newest <= newest' ->
  evidenced set request trace row newest ts -> evidenced set request (entry :: trace) row' newest' ts.
Proof.
  intros Hn (_ & Hl & Hc & Hs & Hk) Hle (H1 & H2 & H3 & H4 & H5).
  unfold evidenced. rewrite Hl, Hc, Hs, Hk. split_and!; [|done|done| |done].
  - etrans; [exact H1|by apply absences_older].
  - eapply Forall_impl; [exact H4|]. simpl. intros t. lia.
Qed.

Lemma evidenced_accrued set request trace range_ observedAt snapshot told row newest ts :
  let t := UnixNano observedAt in
  speaksFor set request (d_logical row) (ActSnapshot range_ observedAt snapshot, told) = false ->
  is_Some (snapshot !! set) -> missed t row = true -> newest < t ->
  evidenced set request trace row newest ts ->
  evidenced set request ((ActSnapshot range_ observedAt snapshot, told) :: trace) (accruedRow t row) t (t :: ts).
Proof.
  cbv zeta. intros Hn [jobs Hj] Hm Hlt (H1 & H2 & H3 & H4 & H5).
  assert (0 < d_corroborated row < UnixNano observedAt) as Hc.
  { revert Hm. unfold missed. rewrite !andb_true_iff. lia. }
  split_and!; cbn [accruedRow withAbsence d_logical d_absentCount d_corroborated d_absentSince].
  - cbn [absences]. rewrite Hn, Hj. by apply sublist_skip.
  - simpl length. lia.
  - constructor; [done|]. eapply Forall_impl; [exact H4|]. simpl. intros t. lia.
  - constructor; [lia|]. eapply Forall_impl; [exact H4|]. simpl. intros t. lia.
  - destruct ts as [|t0 ts]; simpl in H5 |- *.
    + by rewrite <- H5.
    + change (last (UnixNano observedAt :: t0 :: ts)) with (last (t0 :: ts)).
      destruct (last (t0 :: ts)) as [first|] eqn:Hl; [|by apply last_None in Hl].
      apply last_Some_elem_of in Hl. rewrite Forall_forall in H4. apply H4 in Hl. simpl in H5 |- *.
      destruct (Z.eqb_spec (d_absentSince row) 0); [lia|done].
Qed.

Lemma follows_evidenced trace ib : Follows trace ib -> forall set request row,
  ib_demands ib !! (set, request) = Some row ->
  exists ts, evidenced set request trace row (observedOf ib set) ts.
Proof.
  induction 1 as [|trace ib act told ib' _ IH Ha Hp]; intros set request row' L; [simpl in L; by rewrite lookup_empty in L|].
  destruct (act_effect _ _ _ _ _ _ _ Ha Hp L) as [Hle He].
  destruct (speaksFor set request (d_logical row') (act, told)) eqn:Hs.
  { exists []. by apply evidenced_none; apply He. }
  destruct He as (row & L0 & Hcase). destruct (IH _ _ _ L0) as [ts Hts].
  destruct Hcase as [Hk|(range_ & at_ & snap & Hact & Hset & -> & Hm & Hlt & Hle')].
  - exists ts. pose proof Hk as (_ & Hl & _). rewrite Hl in Hs. by eapply evidenced_kept.
  - simpl in Hact. subst act. exists (UnixNano at_ :: ts).
    eapply (evidenced_accrued _ _ trace range_ at_ snap told row _ ts Hs Hset Hm Hlt) in Hts.
    destruct Hts as (H1 & H2 & H3 & H4 & H5). split_and!; [done|done|done| |done].
    eapply Forall_impl; [exact H4|]. simpl. intros t. lia.
Qed.

(** ** Being offered to the planner *)

Definition listed (ib : Inbox) (set request : Z) : bool :=
  match ActiveDemands ib set with
  | inr demands => existsb (fun r => dr_RunnerRequestID r =? request) demands
  | inl _ => false
  end.

Definition wanted (row : DemandRow) : bool :=
  (demandRank (d_status row) <? demandRank DemandJobCompleted) && (d_expired row =? 0).

Lemma listed_row ib set request :
  listed ib set request = (0 <? set) && match ib_demands ib !! (set, request) with Some row => wanted row | None => false end.
Proof.
  unfold listed, ActiveDemands. destruct (Z.leb_spec set 0) as [Hle|Hlt].
  { by rewrite (proj2 (Z.ltb_ge _ _) Hle). }
  rewrite (proj2 (Z.ltb_lt _ _) Hlt). simpl. apply eq_bool_prop_intro. rewrite !Is_true_true, existsb_exists. split.
  - intros (r & Hi & Hr). apply in_map_iff in Hi as ([k row] & <- & Hi). apply sortBy_in, filter_In in Hi as [Hi Ha].
    apply list_elem_of_In, elem_of_map_to_list in Hi. unfold activeRow in Ha. simpl in *.
    destruct k as [s q]. simpl in *. rewrite !andb_true_iff in Ha. replace set with s by lia. replace request with q by lia.
    rewrite Hi. unfold wanted. rewrite andb_true_iff. tauto.
  - intros Hw. destruct (ib_demands ib !! _) as [row|] eqn:L; [|done]. exists (scanDemand (set, request) row).
    split; [|simpl; lia]. apply in_map_iff. exists ((set, request), row). split; [done|].
    apply sortBy_in, filter_In. split; [by apply list_elem_of_In, elem_of_map_to_list|].
    unfold activeRow. cbn [fst snd]. rewrite Z.eqb_refl. exact Hw.
Qed.

(** Why an expiry is allowed. *)
Definition absentLongEnough (set request : Z) (trace : list (InboxAct * bool)) (row : DemandRow)
    (c : GhostDemandCriteria) : Prop :=
  exists ts first, sublist ts (absences set request (d_logical row) trace) /\
    gc_MinObservations c <= Z.of_nat (length ts) /\ StronglySorted Z.gt ts /\
    Forall (fun t => d_corroborated row < t) ts /\
    last ts = Some first /\ first <= UnixNano (gc_AbsentBefore c).

Lemma ghost_evidence set request trace row newest c ts :
  GhostDemandCriteria_Valid c = true -> ghost c row = true -> evidenced set request trace row newest ts ->
  absentLongEnough set request trace row c.
Proof.
  intros Hv Hg (H1 & H2 & H3 & H4 & H5). exists ts.
  unfold ghost in Hg. unfold GhostDemandCriteria_Valid in Hv. rewrite !andb_true_iff in *.
  destruct (last ts) as [first|] eqn:Hl; [|simpl in H5; lia].
  exists first. simpl in H5. split_and!; [done|lia|done| |done|lia].
  eapply Forall_impl; [exact H4|]. simpl. intros t. lia.
Qed.

(** Why a demand may stop being offered. *)
Definition mayLeave (set request : Z) (trace : list (InboxAct * bool)) (row : DemandRow) (act : InboxAct) : Prop :=
  match act with
  | ActBatch _ s _ events => s = set /\ In DemandJobCompleted (kindsFor request events)
  | ActGhosts s c => s = set /\ d_status row = DemandJobAvailable /\ absentLongEnough set request trace row c
  | ActOverdue s c => s = set /\ d_status row = DemandJobAvailable /\ d_runnerID row = 0 /\
      0 < queuedSince row <= UnixNano (TimeAdd (oc_Now c) (- oc_TTL c))
  | _ => False
  end.

Lemma rank_available k : (demandRank k =? demandRank DemandJobAvailable) = true -> k = DemandJobAvailable.
Proof. by destruct k. Qed.

Lemma rank_completed k : demandRank DemandJobCompleted <= demandRank k -> k = DemandJobCompleted.
Proof. destruct k; simpl; lia || done. Qed.

(** A broker message ends a demand only by completing it. *)
Lemma events_leave set now events s request ib ib' row row' :
  applyEvents set now ib events = inr ib' ->
  ib_demands ib !! (s, request) = Some row -> ib_demands ib' !! (s, request) = Some row' ->
  wanted row = true -> wanted row' = false -> s = set /\ In DemandJobCompleted (kindsFor request events).
Proof.
  intros Hev L L' Hw Hw'. destruct (applyEvents_row _ _ _ s request _ _ Hev) as [_ Hrow].
  pose proof (applyEvents_status set now events s request [d_status row] ib ib' Hev) as Hst.
  unfold statusOf in Hst. rewrite L, L' in Hst. simpl in Hst.
  destruct Hst as [Hin _]; [split; [by left|intros k [->|[]]; lia]|].
  unfold wanted in Hw, Hw'. destruct (Z.eqb_spec set s) as [->|Hn]; simpl in *; [|congruence].
  destruct (touches request events); [|congruence]. destruct Hrow as (row2 & L2 & _ & _ & Hx).
  assert (row2 = row') as -> by congruence. rewrite Hx, andb_true_r in Hw'. apply Z.ltb_ge, rank_completed in Hw'.
  rewrite Hw' in Hin. apply in_app_or in Hin as [Hin|[Hd|[]]]; [done|]. by rewrite Hd in Hw.
Qed.

Lemma expire_leave s at_ test ib set request row row' :
  ib_demands ib !! (set, request) = Some row ->
  ib_demands (fst (expireWhere s at_ test ib)) !! (set, request) = Some row' ->
  wanted row = true -> wanted row' = false -> s = set /\ test row = true.
Proof.
  intros L. destruct (expireWhere_row s at_ test ib set request) as [_ ->]. rewrite L. intros [= <-] Hw.
  destruct (Z.eqb_spec set s) as [->|]; simpl; [|congruence]. destruct (test row); [done|congruence].
Qed.

Lemma snapshot_keeps range_ observedAt snapshot set request ib ib' b row row' :
  (forall g, Permutation (range_ g) (map_to_list g)) ->
  ReconcileGitHubJobSnapshot range_ observedAt snapshot ib = inr (ib', b) ->
  ib_demands ib !! (set, request) = Some row -> ib_demands ib' !! (set, request) = Some row' ->
  d_status row' = d_status row /\ (d_expired row = 0 -> d_expired row' = 0).
Proof.
  intros Hp E L L'. apply (snapshot_slice _ _ _ set) in E. destruct (snapshot !! set) as [jobs|].
  - destruct E as (ib0 & [Hd0 _] & [Hd1 _]).
    destruct (tx_row range_ set observedAt jobs ib0 request Hp) as [_ Hrow].
    rewrite <- Hd1, L', Hd0, L in Hrow. destruct Hrow as (row2 & [= <-] & Hr).
    destruct (shows _ _); [|destruct Hr as [->|[-> _]]; done]. destruct Hr as (-> & _ & _ & _ & _ & ->). done.
  - destruct E as [Hd _]. rewrite Hd, L in L'. injection L' as <-. done.
Qed.

(** Rows are never deleted. *)
Lemma act_keeps_row act ib ib' told set request row :
  admissible act -> perform act ib = inr (ib', told) -> ib_demands ib !! (set, request) = Some row ->
  exists row', ib_demands ib' !! (set, request) = Some row'.
Proof.
  intros Ha Hp L. destruct act as [now s message events|range_ at_ snap|s c|s c|clock s st]; simpl in Hp.
  - destruct (ApplyDemandBatch _ _ _ _ _) as [|[ib1 result]] eqn:E; [done|]. injection Hp as -> <-.
    apply batch_events in E. destruct (Applied result); [|subst; by eexists].
    destruct E as (ib0 & ib2 & Hd0 & _ & Hev & -> & _).
    destruct (applyEvents_row _ _ _ set request _ _ Hev) as [_ Hrow]. rewrite Hd0 in Hrow.
    destruct (_ && _); [by destruct Hrow as (row' & ? & _); exists row'|]. exists row. congruence.
  - apply (snapshot_slice _ _ _ set) in Hp. destruct (snap !! set) as [jobs|].
    + destruct Hp as (ib0 & [Hd0 _] & [Hd1 _]). destruct (tx_row range_ set at_ jobs ib0 request Ha) as [_ Hrow].
      rewrite <- Hd1, Hd0, L in Hrow. destruct Hrow as (row' & ? & _). by exists row'.
    + destruct Hp as [Hd _]. exists row. by rewrite Hd.
  - revert Hp. unfold ExpireGhostDemands. destruct (_ || _); [done|]. intros [= <- <-].
    pose proof (proj2 (expireWhere_row s (UnixNano (gc_ObservedAt c)) (ghost c) ib set request)) as Hx. rewrite L in Hx. by eexists.
  - revert Hp. unfold ExpireOverdueDemands. destruct (_ || _); [done|]. intros [= <- <-].
    pose proof (proj2 (expireWhere_row s (UnixNano (oc_Now c)) (overdue c) ib set request)) as Hx. rewrite L in Hx. by eexists.
  - exists row. revert Hp. unfold PutDemandStatistics. destruct (_ || _); [done|].
    destruct (ib_statistics ib !! s) as [old|]; [destruct (_ <=? _)|]; by intros [= <- <-].
Qed.

Lemma act_leave trace act ib ib' told set request row row' :
  Follows trace ib -> admissible act -> perform act ib = inr (ib', told) ->
  ib_demands ib !! (set, request) = Some row -> ib_demands ib' !! (set, request) = Some row' ->
  wanted row = true -> wanted row' = false -> mayLeave set request trace row act.
Proof.
  intros Hf Ha Hp L L' Hw Hw'.
  destruct act as [now s message events|range_ at_ snap|s c|s c|clock s st]; simpl in Hp |- *.
  - destruct (ApplyDemandBatch _ _ _ _ _) as [|[ib1 result]] eqn:E; [done|]. injection Hp as -> <-.
    apply batch_events in E. destruct (Applied result); [|congruence].
    destruct E as (ib0 & ib2 & Hd0 & _ & Hev & Hd & _). rewrite Hd in L'. rewrite <- Hd0 in L.
    by destruct (events_leave _ _ _ _ _ _ _ _ _ Hev L L' Hw Hw') as [-> ?].
  - destruct (snapshot_keeps _ _ _ _ _ _ _ _ _ _ Ha Hp L L') as [Hs Hx].
    unfold wanted in *. rewrite andb_true_iff, Z.eqb_eq in Hw. rewrite Hs, (Hx (proj2 Hw)), (proj1 Hw) in Hw'. done.
  - revert Hp. unfold ExpireGhostDemands. destruct (_ || _) eqn:Hv; [done|]. intros [= <- <-].
    apply orb_false_iff in Hv as [_ Hv%negb_false_iff].
    destruct (expire_leave _ _ _ _ _ _ _ _ L L' Hw Hw') as [-> Hg]. split; [done|].
    destruct (follows_evidenced _ _ Hf _ _ _ L) as [ts Hts]. split; [|by eapply ghost_evidence].
    unfold ghost in Hg. rewrite !andb_true_iff in Hg. apply rank_available. tauto.
  - revert Hp. unfold ExpireOverdueDemands. destruct (_ || _) eqn:Hv; [done|]. intros [= <- <-].
    destruct (expire_leave _ _ _ _ _ _ _ _ L L' Hw Hw') as [-> Hg]. split; [done|].
    unfold overdue in Hg. rewrite !andb_true_iff in Hg. split; [apply rank_available; tauto|lia].
  - revert Hp. unfold PutDemandStatistics. destruct (_ || _); [done|].
    destruct (ib_statistics ib !! s) as [old|]; [destruct (_ <=? _)|]; intros [= <- <-]; simpl in L'; congruence.
Qed.

Lemma expire_status s at_ test ib set request :
  statusOf ib set request = statusOf (fst (expireWhere s at_ test ib)) set request.
Proof.
  unfold statusOf. destruct (expireWhere_row s at_ test ib set request) as [_ ->].
  destruct (ib_demands ib !! _) as [row|]; simpl; [|done]. by destruct (_ && _).
Qed.

Lemma snapshot_status range_ observedAt snapshot set request ib ib' b :
  (forall g, Permutation (range_ g) (map_to_list g)) ->
  ReconcileGitHubJobSnapshot range_ observedAt snapshot ib = inr (ib', b) ->
  statusOf ib' set request = statusOf ib set request.
Proof.
  intros Hp E. unfold statusOf. apply (snapshot_slice _ _ _ set) in E. destruct (snapshot !! set) as [jobs|].
  - destruct E as (ib0 & [Hd0 _] & [Hd1 _]). destruct (tx_row range_ set observedAt jobs ib0 request Hp) as [_ Hrow].
    rewrite <- Hd1, Hd0 in Hrow. destruct (ib_demands ib !! _) as [row|]; [|by rewrite Hrow].
    destruct Hrow as (row' & -> & Hr). simpl. f_equal.
    destruct (shows _ _); [apply Hr|]. by destruct Hr as [->|[-> _]].
  - destruct E as [-> _]. done.
Qed.

Lemma follows_furthest trace ib : Follows trace ib -> forall set request,
  furthest (reported set request trace) (statusOf ib set request).
Proof.
  induction 1 as [|trace ib act told ib' _ IH Ha Hp]; intros set request.
  { unfold statusOf. simpl. by rewrite lookup_empty. }
  specialize (IH set request). unfold reported in *. simpl.
  destruct act as [now s message events|range_ at_ snap|s c|s c|clock s st]; simpl in Hp |- *.
  - destruct (ApplyDemandBatch _ _ _ _ _) as [|[ib1 result]] eqn:E; [done|]. injection Hp as -> <-.
    apply batch_events in E. destruct (Applied result); [|by subst ib'].
    destruct E as (ib0 & ib2 & Hd0 & _ & Hev & Hd & _).
    assert (statusOf ib0 set request = statusOf ib set request) as E0 by (unfold statusOf; by rewrite Hd0).
    rewrite <- E0 in IH. apply (applyEvents_status _ _ _ _ _ _ _ _ Hev) in IH.
    unfold statusOf in *. by rewrite Hd.
  - by rewrite (snapshot_status _ _ _ _ _ _ _ _ Ha Hp).
  - revert Hp. unfold ExpireGhostDemands. destruct (_ || _); [done|]. intros [= <- <-].
    by rewrite (expire_status s (UnixNano (gc_ObservedAt c)) (ghost c)) in IH.
  - revert Hp. unfold ExpireOverdueDemands. destruct (_ || _); [done|]. intros [= <- <-].
    by rewrite (expire_status s (UnixNano (oc_Now c)) (overdue c)) in IH.
  - revert Hp. unfold PutDemandStatistics. destruct (_ || _); [done|].
    destruct (ib_statistics ib !! s) as [old|]; [destruct (_ <=? _)|]; by intros [= <- <-].
Qed.

(** ** Claims *)

(** C10: a demand that is offered to the planner stops being offered for three
    reasons only.  The broker reported its job completed; or at least
    [MinObservations] complete snapshots of its scale set, each newer than the
    one before, have missed its job since anything last spoke for it, the first
    of them no later than [AbsentBefore]; or it is still merely available, no
    runner took it, and it has been queued for longer than its time to live. *)
Theorem demand_leaves_only_on_proof trace ib act ib' told set request :
  Follows trace ib -> admissible act -> perform act ib = inr (ib', told) ->
  listed ib set request = true -> listed ib' set request = false ->
  exists row, ib_demands ib !! (set, request) = Some row /\ mayLeave set request trace row act.
Proof.
  intros Hf Ha Hp. rewrite !listed_row. destruct (0 <? set); [|done]. simpl.
  destruct (ib_demands ib !! (set, request)) as [row|] eqn:L; [|done]. intros Hw Hw'.
  destruct (act_keeps_row _ _ _ _ _ _ _ Ha Hp L) as [row' L']. rewrite L' in Hw'.
  exists row. split; [done|]. by eapply act_leave.
Qed.

(** in whatever order the broker's events arrive, and whatever else happens
    to the inbox, a demand's status is the furthest its events have reported,
    and a request has a row exactly when the broker has reported it. *)
Theorem demand_status_is_furthest_reported trace ib set request :
  Follows trace ib ->
  match ib_demands ib !! (set, request) with
  | None => reported set request trace = []
  | Some row => In (d_status row) (reported set request trace) /\
      forall k, In k (reported set request trace) -> demandRank k <= demandRank (d_status row)
  end.
Proof.
  intros Hf. pose proof (follows_furthest _ _ Hf set request) as Hs. unfold statusOf in Hs.
  by destruct (ib_demands ib !! _).
Qed.

End Demands.

(** ** The claims at work *)

Definition queuedJob : GitHubJobObservation :=
  {| gj_WorkflowJobID := 70; gj_Owner := "acme"; gj_Repository := "app"; gj_WorkflowRunID := 7; gj_RunAttempt := 1;
     gj_DisplayName := "build"; gj_WorkflowRef := ""; gj_Labels := ["macos"]; gj_Status := "queued";
     gj_CreatedAt := fromNanos 1700000000000000000; gj_QueueTimeExact := true |}.

Definition minuteAfter (n : Z) : Time := fromNanos 1700000000000000000 + n * Minute.

Definition snapshotAt (n : Z) (jobs : list GitHubJobObservation) : InboxAct :=
  ActSnapshot map_to_list (minuteAfter n) {[ 4 := jobs ]}.

(** Reported, seen once, then missed by two snapshots. *)
Definition ghostActs : list InboxAct :=
  [ActBatch (minuteAfter 0) 4 3 [availableEvent 11 "a"]; snapshotAt 1 [queuedJob]; snapshotAt 2 []; snapshotAt 3 []].

Definition ghostSweep : InboxAct :=
  ActGhosts 4 {| gc_ObservedAt := minuteAfter 3; gc_AbsentBefore := minuteAfter 2; gc_MinObservations := 2 |}.

Definition performed (ib : Inbox) (act : InboxAct) : Inbox :=
  match perform (H := plainDigest) act ib with inr (ib', _) => ib' | inl _ => ib end.

Definition ghostInbox : Inbox := fold_left performed ghostActs emptyInbox.

Definition ghostTrace : list (InboxAct * bool) :=
  [(snapshotAt 3 [], false); (snapshotAt 2 [], true); (snapshotAt 1 [queuedJob], true);
   (ActBatch (minuteAfter 0) 4 3 [availableEvent 11 "a"], true)].

Lemma snapshotAt_admissible n jobs : admissible (snapshotAt n jobs).
Proof. intros g. reflexivity. Qed.

Lemma ghost_follows : Follows (H := plainDigest) ghostTrace ghostInbox.
Proof.
  apply (follows_act _ (fold_left performed (firstn 3 ghostActs) emptyInbox));
    [|apply snapshotAt_admissible|vm_compute; reflexivity].
  apply (follows_act _ (fold_left performed (firstn 2 ghostActs) emptyInbox));
    [|apply snapshotAt_admissible|vm_compute; reflexivity].
  apply (follows_act _ (fold_left performed (firstn 1 ghostActs) emptyInbox));
    [|apply snapshotAt_admissible|vm_compute; reflexivity].
  apply (follows_act _ emptyInbox); [apply follows_nil|exact I|vm_compute; reflexivity].
Qed.

Lemma demand_leaves_only_on_proof_witness :
  listed ghostInbox 4 11 = true /\ listed (performed ghostInbox ghostSweep) 4 11 = false /\
  exists row, ib_demands ghostInbox !! (4, 11) = Some row /\
    mayLeave (H := plainDigest) 4 11 ghostTrace row ghostSweep.
Proof.
  split; [vm_compute; reflexivity|]. split; [vm_compute; reflexivity|].
  apply (demand_leaves_only_on_proof (H := plainDigest) ghostTrace ghostInbox ghostSweep
    (performed ghostInbox ghostSweep) true 4 11).
  - apply ghost_follows.
  - exact I.
  - vm_compute. reflexivity.
  - vm_compute. reflexivity.
  - vm_compute. reflexivity.
Defined.

Lemma demand_status_is_furthest_reported_witness :
  match ib_demands ghostInbox !! (4, 11) with
  | None => reported 4 11 ghostTrace = []
  | Some row => In (d_status row) (reported 4 11 ghostTrace) /\
      forall k, In k (reported 4 11 ghostTrace) -> demandRank k <= demandRank (d_status row)
  end.
Proof. apply (demand_status_is_furthest_reported (H := plainDigest) ghostTrace ghostInbox 4 11), ghost_follows. Defined.
