(* ===== verification/Ports.v ===== *)
(** * The ports of the lifecycle (internal/lifecycle/executor.go)

    The interfaces through which the executors reach the store, the machine, the
    guest and GitHub, as one signature of calls; the errors an executor returns;
    and the helpers both executors use. *)

From Stdlib Require Import ZArith Lia String.
From stdpp Require Import base tactics list gmap strings.
From S2P Require Import Prelude GoStrings Liveness Domain Operations Failure Effects Store.

(** ** What the ports exchange *)

Definition defaultWorkFolder : string := "_work".

Record InstanceSpec := {
  spec_Name : string;
  spec_Image : string;
  spec_CPU : Z;
  spec_MemoryMB : Z;
  spec_DiskGB : Z;
  spec_Ownership : Ownership
}.

(** [operations.DeletionConfirmation]. *)
Record DeletionConfirmation := {
  dc_Fresh : bool;
  dc_RunnerInactive : bool;
  dc_JobsInactive : bool;
  dc_ObservedAt : Time
}.

Definition Safe (c : DeletionConfirmation) (now : Time) (maxAge : Duration) : bool :=
  dc_Fresh c && dc_RunnerInactive c && dc_JobsInactive c && negb (IsZero (dc_ObservedAt c))
  && negb (After (dc_ObservedAt c) now) && (TimeSub now (dc_ObservedAt c) <=? maxAge).

(** An error of runner administration, by what [errors.Is] and [errors.As] find
    in its chain. *)
Record RunnerError := {
  jobStillRunning : bool;
  adminUnavailable : bool;
  scopeUnresolved : bool;
  accessDenied : bool;
  lookupFailed : bool;
  removalFailed : bool
}.

Definition RunnerFailureDetail (e : RunnerError) : string :=
  if jobStillRunning e then "runner_busy"
  else if adminUnavailable e then "runner_admin_unavailable"
  else if scopeUnresolved e then "runner_scope_unresolved"
  else if accessDenied e then "runner_forbidden"
  else if lookupFailed e then "runner_lookup_failed"
  else if removalFailed e then "runner_removal_failed"
  else "deregister_failed".

Definition ValidBootstrapFailureReason (reason : string) : bool :=
  bool_decide (reason = "guest_capability_missing")
  || bool_decide (reason = "guest_capability_unverifiable").

(** ** Aborts (abort.go) *)

Inductive AbortEvidence :=
  | AbortEvidenceVMRunning
  | AbortEvidenceRunnerRegistered
  | AbortEvidenceRunnerBusy
  | AbortEvidenceGuestAnswered
  | AbortEvidenceDeregisterRefused.

#[export] Instance AbortEvidence_eq_dec : EqDecision AbortEvidence.
Proof. solve_decision. Defined.

Definition evidenceText (e : AbortEvidence) : string :=
  match e with
  | AbortEvidenceVMRunning => "vm_running"
  | AbortEvidenceRunnerRegistered => "runner_registered"
  | AbortEvidenceRunnerBusy => "runner_busy"
  | AbortEvidenceGuestAnswered => "guest_answered"
  | AbortEvidenceDeregisterRefused => "deregister_refused_runner_busy"
  end.

Definition AbortOutcome (e : AbortEvidence) : string := "aborted:" +:+ evidenceText e.

Definition DrainPhaseEvent : Z := 1.
Definition DrainPhaseInactiveRecovery : Z := 3.
Definition DrainPhaseStalledAssignment : Z := 4.
Definition DrainPhaseLingeringRunner : Z := 5.
Definition DrainPhaseOccupancyBudget : Z := 6.
Definition DrainPhaseGuestUnresponsive : Z := 7.
Definition DrainPhaseProvisionStalled : Z := 8.

Definition DrainPhaseName (phase : Z) : string :=
  if phase =? DrainPhaseEvent then "event"
  else if phase =? DrainPhaseStoppedRecovery then "stopped_recovery"
  else if phase =? DrainPhaseInactiveRecovery then "inactive_recovery"
  else if phase =? DrainPhaseStalledAssignment then "stalled_assignment"
  else if phase =? DrainPhaseLingeringRunner then "lingering_runner"
  else if phase =? DrainPhaseOccupancyBudget then "occupancy_budget"
  else if phase =? DrainPhaseGuestUnresponsive then "guest_unresponsive"
  else if phase =? DrainPhaseProvisionStalled then "provision_stalled"
  else "unknown".

Record DrainAbort := {
  abort_Instance : InstanceRow;
  abort_Phase : string;
  abort_Evidence : AbortEvidence
}.

(** What the store answers with: a row or an error, [Result InstanceRow]. *)
Definition Stored : Set := StoreError + InstanceRow.

(** ** Calls

    A call that only succeeds or fails answers [true] for success.  A read that
    can fail answers [None] for its error. *)

Inductive Call : Set -> Type :=
  | CtxErr : Call bool
  | Now : Call Time
  (** How often the poll timer fires before the wait's context ends. *)
  | Polls (timeout interval : Duration) : Call nat
  (** [StateStore] *)
  | StateInstance (id : string) : Call Stored
  | StateAdvance (c : StateChange) : Call Stored
  (** [VMControl] *)
  | VMCreate (spec : InstanceSpec) : Call bool
  | VMStart (id : string) (own : Ownership) : Call bool
  | VMStop (id : string) (own : Ownership) : Call bool
  | VMTerminate (id : string) (own : Ownership) : Call bool
  | VMDestroy (id : string) (own : Ownership) : Call bool
  | VMDelete (id : string) (own : Ownership) : Call bool
  | VMPower (id : string) : Call (option InstancePower)
  (** [Readiness], [Registration] and [Bootstrapper].  A secret is its revealed
      text; an acquisition answers whether it succeeded beside the secret, if
      any; a bootstrap error is a [stageError] or anything else. *)
  | ReadyWait (row : InstanceRow) : Call bool
  | Registered (id : string) : Call (option bool)
  | ResetRegistration (id : string) : Call bool
  | AcquireAndGenerateJIT (job : Z) (id folder : string) : Call (bool * option string)
  | DestroySecret (secret : string) : Call unit
  | Bootstrap (id secret : string) (capabilities : list string) : Call (option (option stageError))
  (** [DrainControl]; a [Deregister] that fails answers with its error. *)
  | SafeToDeregister (row : InstanceRow) : Call (option bool)
  | Deregister (row : InstanceRow) : Call (option RunnerError)
  | ConfirmDeletion (id : string) : Call (option DeletionConfirmation)
  | RunnerRegistered (row : InstanceRow) : Call (option bool)
  | RunnerBusy (row : InstanceRow) : Call (option bool)
  | StartUnattributed (row : InstanceRow) : Call (option bool)
  (** [GuestLivenessProbe], the recorders and the abort callback. *)
  | Probe (id : string) : Call GuestLiveness
  | RecordGuestTraffic (row : InstanceRow) : Call unit
  | ReadRunnerRefusal (row : InstanceRow) : Call unit
  | OnAbort (a : DrainAbort) : Call unit.

(** ** Results *)

(** What [Execute] returns; [nil] is [None]. *)
Inductive ExecError :=
  | Staged (e : stageError)
  | Sentinel (e : StoreError)
  | ContextDone.

Definition Exec : Set := option ExecError.

(** How a round of an executor's loop ends: with a return, or with the store's
    answer to the advance it asked for. *)
Inductive Round :=
  | Return (r : Exec)
  | Advanced (answer : Stored).

Definition failAt (stage : FailStage) : Exec := Some (Staged (safeError stage)).

Definition classifiedError (stage : FailStage) (cause : RunnerError) : Exec :=
  Some (Staged (reasonError stage (RunnerFailureDetail cause))).

Definition validateOwned (row : InstanceRow) (resource : string) : bool :=
  negb (bool_decide (row_ID row = "") || negb (bool_decide (row_ID row = resource))
        || negb (Ownership_Valid (row_Ownership row)) || negb (SchedulingMetadataValid row)
        || negb (ValidateInstanceName (row_ID row))).

Definition advanceTo (row : InstanceRow) (next : InstanceState) : StateChange :=
  {| sc_InstanceID := row_ID row; sc_ExpectedState := row_State row;
     sc_ExpectedVersion := row_Version row; sc_NextState := next; sc_FailureCode := "";
     sc_SettlesID := ""; sc_SettlesLeaseOwner := ""; sc_Outcome := "" |}.
