(* ===== verification/Projection.v ===== *)
(** * Projecting a demand onto its instance (internal/adapters/sqlite/inbox.go)

    After a broker message is durable, what it says is projected onto the
    instance that runs the job: the instance is bound to the demand GitHub
    really dispatched to it, advances with the demand's status, and is drained
    when the demand completes.  Each function makes several transactions, and
    other writers may come between any two of them, so it is a program whose
    calls are the store's transactions. *)

From Stdlib Require Import ZArith Lia String List.
From stdpp Require Import base tactics list gmap strings pretty.
From S2P Require Import Prelude GoStrings Liveness Domain Operations Failure Effects Store Inbox Ports.

#[local] Open Scope prog_scope.

Definition Answer (A : Set) : Set := (StoreError + A)%type.

(** ** The store's transactions as calls *)

Inductive StoreCall : Set -> Type :=
  | Instant : StoreCall Time
  | DemandOf (set request : Z) : StoreCall (Answer DemandRecord)
  | Live : StoreCall (Answer (list InstanceRow))
  | Swap (source target : InstanceRow) (now : Time) : StoreCall (Answer unit)
  | Rebind (target : InstanceRow) (repo : string) (demand : DemandKey) (now : Time) : StoreCall (Answer unit)
  | AdvanceBy (c : StateChange) : StoreCall Stored
  | DrainsBefore (id : string) : StoreCall (Answer Z)
  | TransitionBy (t : Transition_) : StoreCall Stored
  | CompletedRunners (set : Z) : StoreCall (Answer (list string))
  | ActiveOn (set : Z) (runner : string) : StoreCall (Answer bool)
  | InstanceOf (id : string) : StoreCall Stored.

(** An error, or [nil]. *)
Definition Outcome : Set := option StoreError.

(** ** The event drain *)

Definition eventDrainID (id : string) (generation : Z) : string :=
  if 0 <? generation then "event-drain-" +:+ id +:+ "-g" +:+ pretty generation else "event-drain-" +:+ id.

Definition eventDrain (row : InstanceRow) (generation : Z) (deps : list string) (now : Time) : Transition_ :=
  let id := eventDrainID (row_ID row) generation in
  {| tr_InstanceID := row_ID row; tr_ExpectedState := row_State row; tr_ExpectedVersion := row_Version row;
     tr_NextState := InstanceDraining; tr_DrainPhase := DrainPhaseEvent; tr_LastError := "";
     tr_Operation :=
       {| do_ID := id; do_IdempotencyKey := id; do_EffectKey := "deregister:" +:+ row_ID row;
          do_Kind := OperationDrainKind; do_ResourceID := row_ID row; do_Payload := "{}";
          do_Status := OperationPending; do_Attempts := 0; do_AvailableAt := now; do_LeaseOwner := "";
          do_LeaseUntil := zeroTime; do_LastError := ""; do_CreatedAt := zeroTime; do_UpdatedAt := zeroTime;
          do_DependsOn := deps |} |}.

Definition enqueueDemandDrain (row : InstanceRow) (deps : list string) : Prog StoreCall Outcome :=
  now <~ Instant ;;
  generation <~ DrainsBefore (row_ID row) ;;
  match generation with
  | inl err => Ret (Some err)
  | inr generation =>
      answer <~ TransitionBy (eventDrain row generation deps now) ;;
      Ret (match answer with inl err => Some err | inr _ => None end)
  end.

(** ** The instance follows the demand's status *)

(** [advance], and what follows when it succeeds. *)
Definition advanceThen (row : InstanceRow) (next : InstanceState) (k : InstanceRow -> Prog StoreCall Outcome)
    : Prog StoreCall Outcome :=
  answer <~ AdvanceBy (advanceTo row next) ;;
  match answer with inl err => Ret (Some err) | inr updated => k updated end.

Definition advanceReturn (row : InstanceRow) (next : InstanceState) : Prog StoreCall Outcome :=
  advanceThen row next (fun _ => Ret None).

Definition assignedRound (row : InstanceRow) (again : InstanceRow -> Prog StoreCall Outcome) : Prog StoreCall Outcome :=
  match row_State row with
  | InstanceRegistering => advanceThen row InstanceOnlineIdle again
  | InstanceOnlineIdle => advanceReturn row InstanceAssigned
  | InstanceAssigned | InstanceRunning | InstanceDraining | InstanceDeregistering | InstanceStopping
  | InstanceDeleted => Ret None
  | _ => Ret (Some ErrUncertain)
  end.

Definition startedRound (row : InstanceRow) (again : InstanceRow -> Prog StoreCall Outcome) : Prog StoreCall Outcome :=
  match row_State row with
  | InstanceRegistering => advanceThen row InstanceOnlineIdle again
  | InstanceOnlineIdle => advanceThen row InstanceAssigned again
  | InstanceAssigned => advanceReturn row InstanceRunning
  | InstanceRunning | InstanceDraining | InstanceDeregistering | InstanceStopping | InstanceDeleted => Ret None
  | _ => Ret (Some ErrUncertain)
  end.

Definition completedRound (row : InstanceRow) (again : InstanceRow -> Prog StoreCall Outcome) : Prog StoreCall Outcome :=
  match row_State row with
  | InstancePlanned | InstanceCloning | InstanceBooting | InstanceReachable =>
      enqueueDemandDrain row [own_OperationID (row_Ownership row)]
  | InstanceRegistering => advanceThen row InstanceOnlineIdle again
  | InstanceOnlineIdle | InstanceAssigned | InstanceRunning => enqueueDemandDrain row []
  | InstanceDraining | InstanceDeregistering | InstanceStopping | InstanceDeleted => Ret None
  | _ => Ret (Some ErrUncertain)
  end.

Fixpoint projectRounds (rounds : nat) (row : InstanceRow) (status : DemandEventKind) : Prog StoreCall Outcome :=
  match rounds with
  | O => Ret (Some ErrUncertain)
  | S rounds' =>
      match status with
      | DemandJobAssigned => assignedRound row (fun row => projectRounds rounds' row status)
      | DemandJobStarted => startedRound row (fun row => projectRounds rounds' row status)
      | DemandJobCompleted => completedRound row (fun row => projectRounds rounds' row status)
      | _ => Ret (Some ErrInvalid)
      end
  end.

Definition projectDemandRank (row : InstanceRow) (status : DemandEventKind) : Prog StoreCall Outcome :=
  projectRounds 5 row status.

(** ** The instance is bound to what GitHub dispatched *)

(** The instance of the list that is bound to the request; two are a conflict. *)
Fixpoint boundInstance (repo : string) (request : Z) (found : option InstanceRow) (instances : list InstanceRow)
    : Answer (option InstanceRow) :=
  match instances with
  | [] => inr found
  | candidate :: rest =>
      if bool_decide (row_Repo candidate = repo) && (key_JobID (row_Demand candidate) =? request) then
        match found with
        | Some _ => inl ErrConflict
        | None => boundInstance repo request (if bool_decide (row_ID candidate = "") then None else Some candidate) rest
        end
      else boundInstance repo request found rest
  end.

Definition rebindableRunnerState (s : InstanceState) : bool :=
  match s with
  | InstanceReachable | InstanceRegistering | InstanceOnlineIdle | InstanceAssigned | InstanceRunning => true
  | _ => false
  end.

(** The bound demand was served by this very runner. *)
Definition servedHere (released : DemandRecord) (target : InstanceRow) : bool :=
  bool_decide (dr_RunnerName released = row_ID target)
  && (bool_decide (dr_Status released = DemandJobStarted) || bool_decide (dr_Status released = DemandJobCompleted)).

Definition rebindNow (target : InstanceRow) (record : DemandRecord) : Prog StoreCall (Answer InstanceRow) :=
  now <~ Instant ;;
  answer <~ Rebind target (DemandRecord_Repo record) (DemandRecord_DemandKey record) now ;;
  Ret (match answer with
       | inl err => inl err
       | inr _ => inr (boundTo target (DemandRecord_Repo record) (DemandRecord_DemandKey record) now)
       end).

Definition rebindRunnerDemand (target : InstanceRow) (record : DemandRecord) : Prog StoreCall (Answer InstanceRow) :=
  if negb (rebindableRunnerState (row_State target)) then Ret (inl ErrUncertain)
  else
    let next := boundTo target (DemandRecord_Repo record) (DemandRecord_DemandKey record) (row_UpdatedAt target) in
    if bool_decide (row_Demand next = row_Demand target) || negb (SchedulingMetadataValid next)
    then Ret (inl ErrUncertain)
    else
      released <~ DemandOf (dr_ScaleSetID record) (key_JobID (row_Demand target)) ;;
      match released with
      | inl ErrNotFound => rebindNow target record
      | inl err => Ret (inl err)
      | inr released => if servedHere released target then Ret (inl ErrUncertain) else rebindNow target record
      end.

(** Two machines that can stand for each other. *)
Definition sameMachine (a b : InstanceRow) : bool :=
  bool_decide (row_Platform a = row_Platform b) && bool_decide (row_Profile a = row_Profile b)
  && bool_decide (row_Route a = row_Route b) && bool_decide (row_Resources a = row_Resources b).

Definition alignRunnerDemand (target : InstanceRow) (instances : list InstanceRow) (record : DemandRecord)
    : Prog StoreCall (Answer InstanceRow) :=
  let repo := DemandRecord_Repo record in
  if bool_decide (row_ID target = "") || bool_decide (dr_Owner record = "")
     || bool_decide (dr_Repository record = "") || (dr_RunnerRequestID record <=? 0)
  then Ret (inl ErrInvalid)
  else
    match boundInstance repo (dr_RunnerRequestID record) None instances with
    | inl err => Ret (inl err)
    | inr None => rebindRunnerDemand target record
    | inr (Some source) =>
        if bool_decide (row_ID source = row_ID target) then Ret (inr target)
        else if negb (sameMachine source target) then Ret (inl ErrConflict)
        else if negb (SchedulingMetadataValid (boundTo source (row_Repo target) (row_Demand target) (row_UpdatedAt source)))
                || negb (SchedulingMetadataValid (boundTo target (row_Repo source) (row_Demand source) (row_UpdatedAt target)))
        then Ret (inl ErrConflict)
        else
          now <~ Instant ;;
          answer <~ Swap source target now ;;
          Ret (match answer with
               | inl err => inl err
               | inr _ => inr (boundTo target (row_Repo source) (row_Demand source) now)
               end)
    end.

(** ** One event *)

Definition projectOnto (record : DemandRecord) (instance : option InstanceRow) : Prog StoreCall Outcome :=
  match instance with
  | None => Ret (if bool_decide (dr_Status record = DemandJobCompleted) then None else Some ErrUncertain)
  | Some row => projectDemandRank row (dr_Status record)
  end.

Definition ProjectDemandEvent (set : Z) (event : DemandEvent) : Prog StoreCall Outcome :=
  if (set <=? 0) || negb (DemandEvent_Valid event) then Ret (Some ErrInvalid)
  else if bool_decide (de_Kind event = DemandJobAvailable) then Ret None
  else
    record <~ DemandOf set (de_RunnerRequestID event) ;;
    match record with
    | inl err => Ret (Some err)
    | inr record =>
        instances <~ Live ;;
        match instances with
        | inl err => Ret (Some err)
        | inr instances =>
            if bool_decide (dr_RunnerName record = "") then
              match boundInstance (DemandRecord_Repo record) (dr_RunnerRequestID record) None instances with
              | inl err => Ret (Some err)
              | inr instance => projectOnto record instance
              end
            else
              match List.find (fun i => bool_decide (row_ID i = dr_RunnerName record)) instances with
              | None => projectOnto record None
              | Some target =>
                  aligned <~~ alignRunnerDemand target instances record ;;
                  match aligned with
                  | inl err => Ret (Some err)
                  | inr row => projectOnto record (Some row)
                  end
              end
        end
    end.

(** ** The sweep over completed runners *)

Definition liveRunnerState (s : InstanceState) : bool :=
  match s with InstanceOnlineIdle | InstanceAssigned | InstanceRunning => true | _ => false end.

Fixpoint drainEach (set : Z) (runners drained : list string) : Prog StoreCall (list string * Outcome) :=
  match runners with
  | [] => Ret (drained, None)
  | runner :: rest =>
      busy <~ ActiveOn set runner ;;
      match busy with
      | inl err => Ret (drained, Some err)
      | inr true => drainEach set rest drained
      | inr false =>
          instance <~ InstanceOf runner ;;
          match instance with
          | inl err => Ret (drained, Some err)
          | inr row =>
              if liveRunnerState (row_State row) then
                outcome <~~ projectDemandRank row DemandJobCompleted ;;
                match outcome with
                | Some ErrConflict => drainEach set rest drained
                | Some err => Ret (drained, Some err)
                | None => drainEach set rest (drained ++ [runner])
                end
              else drainEach set rest drained
          end
      end
  end.

Definition DrainCompletedRunners (set : Z) : Prog StoreCall (list string * Outcome) :=
  if set <=? 0 then Ret ([], Some ErrInvalid)
  else
    runners <~ CompletedRunners set ;;
    match runners with
    | inl err => Ret ([], Some err)
    | inr runners => drainEach set runners []
    end.
