(* ===== verification/Discharge.v ===== *)
(** * The discharge service (internal/discharge, internal/adminapi/discharge.go)

    The one mutation an operator has: closing a dead letter and, on request, retiring
    the instance row and the machine left behind.  Beside it stands the automatic
    recovery of a dead cleanup, which enqueues a new attempt on fresh proof.  Both are
    programs over the store, the machine and GitHub; the transactions behind the store
    are those of [Store]. *)

From Stdlib Require Import ZArith Lia String List.
From stdpp Require Import base tactics list gmap strings.
From S2P Require Import Prelude GoStrings Liveness Domain Operations Failure Effects Store Ports Projection.

#[local] Open Scope prog_scope.

(** ** Requests and refusals (adminapi) *)

Definition DischargeConfirmation : string := "discharge-dead-letter".
Definition MaxReasonBytes : Z := 512.
Definition MaxIdentifierBytes : Z := 128.

Record DischargeRequest := {
  req_OperationID : string;
  req_InstanceID : string;
  req_ReapInstance : bool;
  req_Confirm : string;
  req_Reason : string
}.

Definition bytesIn (s : string) : Z := Z.of_nat (String.length s).

Definition DischargeRequest_Valid (r : DischargeRequest) : bool :=
  negb (bool_decide (req_OperationID r = "")) && negb (bool_decide (req_InstanceID r = ""))
  && bool_decide (req_Confirm r = DischargeConfirmation)
  && negb (bool_decide (TrimSpace (bytesOf (req_Reason r)) = [])) && (bytesIn (req_Reason r) <=? MaxReasonBytes)
  && (bytesIn (req_OperationID r) <=? MaxIdentifierBytes) && (bytesIn (req_InstanceID r) <=? MaxIdentifierBytes).

Inductive RefusalCode :=
  | RefusalNotAuthority
  | RefusalUnconfirmed
  | RefusalReasonRequired
  | RefusalInvalidRequest
  | RefusalUnknownOperation
  | RefusalResourceMismatch
  | RefusalOperationLive
  | RefusalResourceBusy
  | RefusalInstanceState
  | RefusalVMRunning
  | RefusalVMUnobserved
  | RefusalStoreUnavailable
  | RefusalVMDeleteFailed.

#[export] Instance RefusalCode_eq_dec : EqDecision RefusalCode.
Proof. solve_decision. Defined.

(** The HTTP status of a refusal. *)
Definition RefusalStatus (code : RefusalCode) : Z :=
  match code with
  | RefusalUnknownOperation => 404
  | RefusalNotAuthority => 403
  | RefusalInvalidRequest | RefusalUnconfirmed | RefusalReasonRequired => 400
  | RefusalStoreUnavailable | RefusalVMUnobserved | RefusalVMDeleteFailed => 503
  | _ => 409
  end.

Record DischargeResult := {
  res_OperationID : string;
  res_InstanceID : string;
  res_OperationDischarged : bool;
  res_InstanceReaped : bool;
  res_VMDeleted : bool
}.

Definition zeroDischargeResult : DischargeResult :=
  {| res_OperationID := ""; res_InstanceID := ""; res_OperationDischarged := false; res_InstanceReaped := false;
     res_VMDeleted := false |}.

(** ** The calls of the service *)

Inductive DischargeCall : Set -> Type :=
  | VMPower (id : string) : DischargeCall (option InstancePower)
  | VMReap (id : string) (ownership : Ownership) : DischargeCall bool
  | StoreDischarge (d : Discharge) : DischargeCall (Answer DischargeOutcome)
  | StoreResume (id resource : string) (stopped : bool) (at_ : Time) : DischargeCall (Answer unit)
  | ConfirmDeletion (id : string) : DischargeCall (option DeletionConfirmation)
  | ServiceNow : DischargeCall Time.

(** ** The operator's discharge (discharge.go) *)

Definition invalidCode (r : DischargeRequest) : RefusalCode :=
  if negb (bool_decide (req_Confirm r = DischargeConfirmation)) then RefusalUnconfirmed
  else if bool_decide (TrimSpace (bytesOf (req_Reason r)) = []) || (MaxReasonBytes <? bytesIn (req_Reason r)) then RefusalReasonRequired
  else RefusalInvalidRequest.

Definition storeCode (e : StoreError) : RefusalCode :=
  match e with
  | ErrNotFound => RefusalUnknownOperation
  | ErrInvalid => RefusalInvalidRequest
  | ErrResourceMismatch => RefusalResourceMismatch
  | ErrNotDeadLettered => RefusalOperationLive
  | ErrResourceProgressing => RefusalResourceBusy
  | ErrInstanceNotReapable => RefusalInstanceState
  | ErrConflict | ErrResumptionNotDue => RefusalResourceBusy
  | _ => RefusalStoreUnavailable
  end.

Abbreviation Discharged := (DischargeResult * option RefusalCode)%type.

Definition refuse (code : RefusalCode) : Prog DischargeCall Discharged := Ret (zeroDischargeResult, Some code).

(** The guard on a reap: the code of its refusal, if any. *)
Definition reapGuard (r : DischargeRequest) : Prog DischargeCall (option RefusalCode) :=
  if negb (req_ReapInstance r) then Ret None
  else
    power <~ VMPower (req_InstanceID r) ;;
    Ret (match power with
         | None => Some RefusalVMUnobserved
         | Some power =>
             if bool_decide (power = InstancePowerRunning) then Some RefusalVMRunning
             else if negb (ProvenIdle power) then Some RefusalVMUnobserved
             else None
         end).

Definition dischargeOf (r : DischargeRequest) (now : Time) : Discharge :=
  {| dis_OperationID := req_OperationID r; dis_InstanceID := req_InstanceID r; dis_ReapInstance := req_ReapInstance r;
     dis_Reason := req_Reason r; dis_At := now |}.

Definition resultOf (r : DischargeRequest) (outcome : DischargeOutcome) (deleted : bool) : DischargeResult :=
  {| res_OperationID := req_OperationID r; res_InstanceID := req_InstanceID r;
     res_OperationDischarged := out_Discharged outcome; res_InstanceReaped := out_Reaped outcome; res_VMDeleted := deleted |}.

(** [Service.DischargeDeadLetter]; the audit log is left out. *)
Definition Service_DischargeDeadLetter (authority : bool) (r : DischargeRequest) : Prog DischargeCall Discharged :=
  if negb authority then refuse RefusalNotAuthority
  else if negb (DischargeRequest_Valid r) then refuse (invalidCode r)
  else
    guard <~~ reapGuard r ;;
    match guard with
    | Some code => refuse code
    | None =>
        now <~ ServiceNow ;;
        answer <~ StoreDischarge (dischargeOf r now) ;;
        match answer with
        | inl err => refuse (storeCode err)
        | inr outcome =>
            if negb (req_ReapInstance r) then Ret (resultOf r outcome false, None)
            else
              reaped <~ VMReap (req_InstanceID r) (out_Ownership outcome) ;;
              if negb reaped then Ret (resultOf r outcome false, Some RefusalVMDeleteFailed)
              else Ret (resultOf r outcome true, None)
        end
    end.

(** ** Automatic recovery (recovery.go) *)

(** [operations.DeadLetter]. *)
Record DeadLetter := {
  dl_OperationID : string;
  dl_Kind : string;
  dl_Code : string;
  dl_ResourceID : string;
  dl_Attempts : Z;
  dl_ResourceProgressing : bool;
  dl_Resumptions : Z;
  dl_DeadAt : Time
}.

Definition recoverableCleanup (letter : DeadLetter) (i : Instance_) (hostHealthy : bool) : bool :=
  if negb (bool_decide (dl_Kind letter = "deregister")) || dl_ResourceProgressing letter
     || negb (bool_decide (inst_ID i = dl_ResourceID letter)) || negb (TearingDown (inst_State i))
  then false
  else if ProvenIdle (inst_Power i) then bool_decide (dl_Code letter = "stop") || bool_decide (dl_Code letter = "delete")
  else if bool_decide (inst_Power i = InstancePowerRunning) then bool_decide (dl_Code letter = "stop") && hostHealthy
  else false.

Definition samePower (fresh observed : InstancePower) : bool :=
  bool_decide (fresh = observed) || (ProvenIdle fresh && ProvenIdle observed).

(** How [RecoverCleanup] ends: with nothing to report, or with the error of the
    machine, of GitHub or of the store. *)
Inductive RecoveryError := RecoveryPower | RecoveryConfirmation | RecoveryStore (e : StoreError).

(** [Service.RecoverCleanup]; [wired] is false when the store cannot resume or a port is
    missing. *)
Definition RecoverCleanup (authority wired : bool) (letter : DeadLetter) (i : Instance_) (hostHealthy : bool)
    : Prog DischargeCall (option RecoveryError) :=
  if negb authority || negb wired || negb (recoverableCleanup letter i hostHealthy) then Ret None
  else
    now <~ ServiceNow ;;
    if negb (CleanupResumptionDue (dl_Resumptions letter) (dl_DeadAt letter) now) then Ret None
    else
      power <~ VMPower (inst_ID i) ;;
      match power with
      | None => Ret (Some RecoveryPower)
      | Some power =>
          if negb (samePower power (inst_Power i)) then Ret None
          else
            observed <~ ConfirmDeletion (inst_ID i) ;;
            match observed with
            | None => Ret (Some RecoveryConfirmation)
            | Some observed =>
                judged <~ ServiceNow ;;
                if negb (Safe observed judged (30 * Second)) then Ret None
                else
                  at_ <~ ServiceNow ;;
                  answer <~ StoreResume (dl_OperationID letter) (inst_ID i) (ProvenIdle power) at_ ;;
                  Ret (match answer with
                       | inl ErrResumptionNotDue | inr _ => None
                       | inl err => Some (RecoveryStore err)
                       end)
            end
      end.

(** ** The dead letters of the store (adapters/sqlite/discharge.go) *)

Definition deadLetterOf (db : Db) (entry : string * OpRow) : DeadLetter :=
  let '(id, row) := entry in
  {| dl_OperationID := id; dl_Kind := o_kind row; dl_Code := FailureCode (o_error row); dl_ResourceID := o_resource row;
     dl_Attempts := o_attempts row; dl_ResourceProgressing := progressing db (o_resource row);
     dl_Resumptions := resumptionsOf db row; dl_DeadAt := unixEpoch + o_updated row |}.

Definition DeadLetters (db : Db) : list DeadLetter :=
  map (deadLetterOf db)
    (sortBy (fun a b => strLess (fst a) (fst b))
       (List.filter (fun entry => bool_decide (o_status (snd entry) = OperationDead)) (map_to_list (db_operations db)))).
