(* ===== verification/Reconcile.v ===== *)
(** * The reconcile controller (internal/reconcile)

    The controller turns the plan of a tick into a durable plan and commits it:
    identities scoped to the attempts that went before, an instance row for every
    spawn, a state change for every drain, and one outbox operation for each.
    The reads it makes on the way are separate transactions, so it is a program
    over the plan store. *)

From Stdlib Require Import ZArith Lia String List.
From stdpp Require Import base tactics list gmap strings pretty.
From S2P Require Import Prelude GoStrings Liveness Domain Corroboration PriorityPolicy Scheduler Operations Failure.
From S2P Require Import Effects Store Inbox Ports Projection.

#[local] Open Scope prog_scope.

(** ** Modes (mode.go) *)

Inductive Mode := Observe_ | Shadow | Canary | Authority | ModeOther (s : string).

#[export] Instance Mode_eq_dec : EqDecision Mode.
Proof. solve_decision. Defined.

Definition Mode_Valid (m : Mode) : bool := match m with ModeOther _ => false | _ => true end.

Definition modeText (m : Mode) : string :=
  match m with
  | Observe_ => "observe"
  | Shadow => "shadow"
  | Canary => "canary"
  | Authority => "authority"
  | ModeOther s => s
  end.

Record Evidence := {
  FreshObservations : bool;
  ShadowMatches : bool;
  CanaryPassed : bool;
  RollbackReady : bool
}.

Definition CanTransition (from to : Mode) (e : Evidence) : bool :=
  if negb (Mode_Valid from) || negb (Mode_Valid to) then false
  else if bool_decide (from = to) || bool_decide (to = Observe_) then true
  else if negb (FreshObservations e) || negb (RollbackReady e) then false
  else
    match from, to with
    | Observe_, Shadow => true
    | Shadow, Canary => ShadowMatches e
    | Canary, Authority => ShadowMatches e && CanaryPassed e
    | _, _ => false
    end.

(** ** Encodings

    The JSON texts of [encoding/json], and the leading bytes of a SHA-256 in
    hexadecimal.  [canonicalJSON] decodes one value and encodes it again; it is
    [None] on text that is not one JSON value. *)
Class PlanEncoding := {
  encodeState : State -> string;
  encodeReservation : option Reservation -> string;
  encodeCursor : string -> string;
  encodePayload : Operation -> Ownership -> string;
  canonicalJSON : string -> option string;
  hash8 : string -> string;
  hash12 : string -> string
}.

Section Controller.
Context `{PlanEncoding}.

Definition generationSeed (base : string) (generation : Z) : string :=
  if generation =? 0 then base else base +:+ nul +:+ "gen=" +:+ pretty generation.

Definition attemptIdentity (address : string) (generation : Z) : string :=
  if generation =? 0 then address else "op-" +:+ hash12 (generationSeed address generation).

Definition instanceName (op : Operation) (generation : Z) : string :=
  "trf-" +:+ lowered (op_Profile op) +:+ "-"
  +:+ hash8 (generationSeed (op_ID op +:+ nul +:+ DemandKey_String (op_Demand op)) generation).

Definition durablePlanID (m : Mode) (scheduler : string) (version : Z) : string :=
  "commit-" +:+ hash12 (modeText m +:+ nul +:+ pretty version +:+ nul +:+ scheduler).

Definition outbox (source : Operation) (id kind resource : string) (own : Ownership) (now : Time) : DurableOperation :=
  {| do_ID := id; do_IdempotencyKey := id; do_EffectKey := kind +:+ ":" +:+ resource; do_Kind := kind;
     do_ResourceID := resource; do_Payload := encodePayload source own; do_Status := OperationPending;
     do_Attempts := 0; do_AvailableAt := now; do_LeaseOwner := ""; do_LeaseUntil := zeroTime; do_LastError := "";
     do_CreatedAt := zeroTime; do_UpdatedAt := zeroTime; do_DependsOn := op_DependsOn source |}.

(** ** The plan store *)

Inductive PlanCall : Set -> Type :=
  | ReadScheduler : PlanCall (Answer SchedulerState)
  | ReadInstance (id : string) : PlanCall Stored
  | SpawnsBefore (demand : DemandKey) : PlanCall (Answer Z)
  | DrainsOf (id : string) : PlanCall (Answer Z)
  | Apply (plan : DurablePlan) : PlanCall (Answer bool).

(** An error of the store, or scheduler text that is not JSON. *)
Inductive CommitError := Refused (e : StoreError) | Undecodable.

Record Controller := {
  ctl_Store : bool;
  ctl_ID : string;
  ctl_Mode : Mode;
  ctl_Profiles : gmap ProfileID Profile;
  ctl_Images : gmap string string
}.

Definition platformText (p : Platform) : string :=
  match p with PlatformLinux => "linux" | PlatformMacOS => "macos" | PlatformOther s => s end.

Definition imageFor (c : Controller) (p : Platform) : string := default "" (ctl_Images c !! platformText p).

(** ** Translating one operation *)

(** The phase of a drain, and whether the instance is in a state to be drained. *)
Definition drainPhaseOf (op : Operation) : Z :=
  if negb (op_Recovery op) then 1
  else if op_ProvisionStalled op then DrainPhaseProvisionStalled
  else if op_ConfirmedInactive op then DrainPhaseInactiveRecovery
  else if op_StalledAssignment op then DrainPhaseStalledAssignment
  else if op_LingeringRunner op then DrainPhaseLingeringRunner
  else if op_GuestUnresponsive op then DrainPhaseGuestUnresponsive
  else if op_OccupancyExceeded op then DrainPhaseOccupancyBudget
  else DrainPhaseStoppedRecovery.

Definition drainable (op : Operation) (s : InstanceState) : bool :=
  if negb (op_Recovery op) then state_eqb s InstanceOnlineIdle
  else if op_ProvisionStalled op then Provisioning s
  else state_eqb s InstanceAssigned || state_eqb s InstanceRunning.

Definition drainIntent (row : InstanceRow) (phase : Z) (now : Time) : InstanceIntent :=
  {| ExpectedVersion := row_Version row; ExpectedState := row_State row;
     intent_Instance := stamped row InstanceDraining (add64 (row_Version row) 1) phase (row_Ownership row)
                          (row_LastError row) (row_CreatedAt row) now |}.

Definition spawnOwnership (c : Controller) (op : Operation) (id : string) : Ownership :=
  {| ControllerID := ctl_ID c; own_ResourceID := DemandKey_String (op_Demand op); own_OperationID := id |}.

Definition spawnIntent (c : Controller) (op : Operation) (profile : Profile) (name id : string) (now : Time)
    : InstanceIntent :=
  {| ExpectedVersion := -1; ExpectedState := InstanceOther "";
     intent_Instance :=
       {| row_ID := name; row_Repo := key_Repo (op_Demand op); row_Platform := profile_Platform profile;
          row_Profile := profile_ID profile; row_Route := profile_Route profile;
          row_Resources := profile_Resources profile; row_Demand := op_Demand op;
          row_Image := imageFor c (profile_Platform profile); row_State := InstancePlanned; row_Version := 0;
          row_DrainPhase := 0; row_Ownership := spawnOwnership c op id; row_LastError := "";
          row_CreatedAt := now; row_UpdatedAt := now |} |}.

Definition Rendered : Set := InstanceIntent * DurableOperation.

Definition translateDrain (op : Operation) (now : Time) : Prog PlanCall (Answer Rendered) :=
  instance <~ ReadInstance (op_Instance op) ;;
  match instance with
  | inl err => Ret (inl err)
  | inr row =>
      if negb (drainable op (row_State row)) then Ret (inl ErrConflict)
      else
        generation <~ DrainsOf (op_Instance op) ;;
        Ret (match generation with
             | inl err => inl err
             | inr generation =>
                 inr (drainIntent row (drainPhaseOf op) now,
                      outbox op (attemptIdentity (op_ID op) generation) "deregister" (row_ID row)
                        (row_Ownership row) now)
             end)
  end.

(** The profile a spawn may use. *)
Definition spawnProfile (c : Controller) (op : Operation) : option Profile :=
  match ctl_Profiles c !! op_Profile op with
  | None => None
  | Some profile =>
      if negb (bool_decide (profile_Route profile = op_Route op)) || (CPU (profile_Resources profile) <=? 0)
         || (MemoryMB (profile_Resources profile) <=? 0) || (Slots (profile_Resources profile) <=? 0)
      then None else Some profile
  end.

Definition translateSpawn (c : Controller) (op : Operation) (now : Time) : Prog PlanCall (Answer Rendered) :=
  match spawnProfile c op with
  | None => Ret (inl ErrInvalid)
  | Some profile =>
      generation <~ SpawnsBefore (op_Demand op) ;;
      Ret (match generation with
           | inl err => inl err
           | inr generation =>
               let name := instanceName op generation in
               let id := attemptIdentity (op_ID op) generation in
               inr (spawnIntent c op profile name id now, outbox op id "clone" name (spawnOwnership c op id) now)
           end)
  end.

Definition translateOne (c : Controller) (op : Operation) (now : Time) : Prog PlanCall (Answer Rendered) :=
  match op_Kind op with
  | OperationDrain => translateDrain op now
  | OperationSpawn => translateSpawn c op now
  end.

Fixpoint translateAll (c : Controller) (ops : list Operation) (now : Time) (done : list Rendered)
    : Prog PlanCall (Answer (list Rendered)) :=
  match ops with
  | [] => Ret (inr done)
  | op :: rest =>
      rendered <~~ translateOne c op now ;;
      match rendered with
      | inl err => Ret (inl err)
      | inr r => translateAll c rest now (done ++ [r])
      end
  end.

(** ** Committing a plan *)

Definition nextScheduler (plan : Plan) (prior : SchedulerState) (cursor : string) : SchedulerState :=
  {| ss_Version := add64 (ss_Version prior) 1; ss_Data := encodeState (plan_Next plan);
     ss_Reservations := encodeReservation (st_Reservation (plan_Next plan));
     ss_DeficitRoundRobin := encodeCursor (st_DRRCursor (plan_Next plan)); ss_ObservationCursor := cursor |}.

Definition durablePlan (c : Controller) (plan : Plan) (prior : SchedulerState) (cursor : string) (now : Time)
    (rendered : list Rendered) : DurablePlan :=
  {| dp_ID := durablePlanID (ctl_Mode c) (plan_ID plan) (ss_Version prior);
     dp_ExpectedSchedulerVersion := ss_Version prior; dp_Scheduler := nextScheduler plan prior cursor;
     dp_Operations := map snd rendered; dp_Instances := map fst rendered; dp_CreatedAt := now |}.

Definition translate (c : Controller) (plan : Plan) (prior : SchedulerState) (cursor : string) (now : Time)
    : Prog PlanCall (Answer DurablePlan) :=
  if bool_decide (ctl_Mode c = Shadow) then Ret (inr (durablePlan c plan prior cursor now []))
  else
    rendered <~~ translateAll c (plan_Operations plan) now [] ;;
    Ret (match rendered with
         | inl err => inl err
         | inr rendered => inr (durablePlan c plan prior cursor now rendered)
         end).

Definition jsonEquivalent (current fallback expected : string) : option bool :=
  let current := if bool_decide (current = "") then fallback else current in
  match canonicalJSON current, canonicalJSON expected with
  | Some a, Some b => Some (bool_decide (a = b))
  | _, _ => None
  end.

(** [None] is text that does not decode. *)
Definition schedulerStateMatches (prior : SchedulerState) (next : State) (cursor : string) : option bool :=
  match jsonEquivalent (ss_Data prior) "{}" (encodeState next) with
  | None => None
  | Some false => Some false
  | Some true =>
      match jsonEquivalent (ss_Reservations prior) "[]" (encodeReservation (st_Reservation next)) with
      | None => None
      | Some false => Some false
      | Some true =>
          match jsonEquivalent (ss_DeficitRoundRobin prior) "{}" (encodeCursor (st_DRRCursor next)) with
          | None => None
          | Some false => Some false
          | Some true => Some (bool_decide (ss_ObservationCursor prior = cursor))
          end
      end
  end.

Definition Committed : Set := bool * option CommitError.

Definition commitTranslated (c : Controller) (plan : Plan) (prior : SchedulerState) (cursor : string) (now : Time)
    : Prog PlanCall Committed :=
  durable <~~ translate c plan prior cursor now ;;
  match durable with
  | inl err => Ret (false, Some (Refused err))
  | inr durable =>
      answer <~ Apply durable ;;
      Ret (match answer with inl err => (false, Some (Refused err)) | inr applied => (applied, None) end)
  end.

Definition Commit (c : Controller) (plan : Plan) (cursor : string) (now : Time) : Prog PlanCall Committed :=
  if negb (ctl_Store c) || bool_decide (trimmed (ctl_ID c) = "") || negb (Mode_Valid (ctl_Mode c)) || IsZero now
     || bool_decide (plan_ID plan = "")
  then Ret (false, Some (Refused ErrInvalid))
  else
    match plan_Status plan with
    | PlanBlockedObservation => Ret (false, None)
    | PlanInvalidObservation => Ret (false, Some (Refused ErrUncertain))
    | PlanReady =>
        if bool_decide (ctl_Mode c = Observe_) then Ret (false, None)
        else
          prior <~ ReadScheduler ;;
          match prior with
          | inl err => Ret (false, Some (Refused err))
          | inr prior =>
              match plan_Operations plan with
              | [] =>
                  match schedulerStateMatches prior (plan_Next plan) cursor with
                  | None => Ret (false, Some Undecodable)
                  | Some true => Ret (false, None)
                  | Some false => commitTranslated c plan prior cursor now
                  end
              | _ => commitTranslated c plan prior cursor now
              end
          end
    end.

End Controller.
