(* ===== verification/Bindings.v ===== *)
(** * Routing jobs to scale sets (internal/app/demand.go)

    A node serves some scale sets, each a binding of a scope to a profile.  A
    queued job that GitHub lists for a repository belongs to the bindings whose
    repositories and labels take it; a job that no binding takes is either proved
    to be another node's or leaves the routing uncertain.  Text is ASCII, so
    [strings.EqualFold] and the flag [(?i)] of a pattern compare lower case. *)

From Stdlib Require Import ZArith Lia String Ascii List.
From stdpp Require Import base tactics list gmap strings.
From S2P Require Import Prelude GoStrings Liveness Domain Scheduler Operations Store Inbox Reconcile.

Definition EqualFold (a b : string) : bool := bool_decide (lowered a = lowered b).

Definition containsFold (values : list string) (want : string) : bool :=
  existsb (fun value => EqualFold value want) values.

(** ** Bindings *)

Record Binding := {
  b_StoreKey : Z;
  b_ScaleSetID : Z;
  b_Scope : string;
  b_Targets : list string;
  b_ScaleSetLabels : list string;
  b_RequiredLabels : list string;
  b_Profile : Profile;
  b_SharedLabels : bool;
  b_Capacity : Z
}.

Definition durableKey (b : Binding) : Z := if 0 <? b_StoreKey b then b_StoreKey b else b_ScaleSetID b.

Definition Binding_valid (b : Binding) : bool :=
  (0 <? durableKey b) && (0 <? b_ScaleSetID b) && negb (bool_decide (profile_ID (b_Profile b) = ""))
  && negb (bool_decide (profile_Route (b_Profile b) = ""))
  && (bool_decide (profile_Platform (b_Profile b) = PlatformLinux)
      || bool_decide (profile_Platform (b_Profile b) = PlatformMacOS)).

Definition accepts (b : Binding) (repo : string) : bool :=
  match b_Targets b with
  | [] => true
  | targets => existsb (fun target => EqualFold target repo) targets
  end.

Definition acceptsLabels (b : Binding) (labels : list string) : bool :=
  forallb (fun required => existsb (fun label => EqualFold label required) labels) (b_RequiredLabels b).

Definition matchesRESTLabels (b : Binding) (labels : list string) : bool :=
  if negb (acceptsLabels b labels) then false
  else
    match b_ScaleSetLabels b with
    | [] => containsFold labels (profile_Route (b_Profile b))
    | advertised => forallb (containsFold advertised) labels
    end.

(** ** Queued jobs (internal/adapters/githubscaleset/types.go) *)

Record WorkflowJob := {
  job_ID : Z;
  job_RunID : Z;
  job_Owner : string;
  job_Repository : string;
  job_Name : string;
  job_Status : string;
  job_Labels : list string;
  job_RunAttempt : Z;
  job_CreatedAt : Time;
  job_QueueTimeExact : bool
}.

Definition jobRepo (job : WorkflowJob) : string := job_Owner job +:+ "/" +:+ job_Repository job.

(** ** Bindings a job may belong to *)

Definition interchangeable (left right : Binding) : bool :=
  EqualFold (b_Scope left) (b_Scope right) && bool_decide (profile_ID (b_Profile left) = profile_ID (b_Profile right)).

Fixpoint matchLoop (job : WorkflowJob) (bindings matched : list Binding) : Result (list Binding) :=
  match bindings with
  | [] => inr matched
  | b :: rest =>
      if negb (accepts b (jobRepo job)) || negb (matchesRESTLabels b (job_Labels job)) then matchLoop job rest matched
      else
        match matched with
        | first :: _ => if negb (interchangeable first b) then inl ErrConflict else matchLoop job rest (matched ++ [b])
        | [] => matchLoop job rest [b]
        end
  end.

Definition matchingBindings (bindings : list Binding) (job : WorkflowJob) : Result (list Binding) :=
  matchLoop job bindings [].

(** ** Jobs of other nodes *)

Definition selfHosted : string := "self-hosted".

(** [[1-9][0-9]*]. *)
Definition isDigit (c : ascii) : bool := (48 <=? nat_of_ascii c)%nat && (nat_of_ascii c <=? 57)%nat.
Definition isLower (c : ascii) : bool := (97 <=? nat_of_ascii c)%nat && (nat_of_ascii c <=? 122)%nat.

Definition isNumber (s : bytes) : bool :=
  match s with [] => false | c :: rest => isDigit c && negb (bool_decide (c = "0"%char)) && forallb isDigit rest end.

(** [[1-9][0-9]*x[1-9][0-9]*], lower case. *)
Definition isSize (s : bytes) : bool :=
  match CutAt "x"%char s with Some (a, b) => isNumber a && isNumber b | None => false end.

(** [[a-z][a-z0-9]*], lower case. *)
Definition isName (s : bytes) : bool :=
  match s with [] => false | c :: rest => isLower c && forallb (fun c => isLower c || isDigit c) rest end.

Definition isOS (s : bytes) : bool := bool_decide (s = bytesOf "linux") || bool_decide (s = bytesOf "macos").
Definition isArch (s : bytes) : bool := bool_decide (s = bytesOf "arm64") || bool_decide (s = bytesOf "amd64").

(** [FindStringSubmatch]: the first group, the operating system. *)
Definition foreignJobRoutePattern (label : string) : option string :=
  match SplitOn "-"%char (bytesOf label) with
  | [trf; os; arch; size] =>
      if bool_decide (ToLower trf = bytesOf "trf") && isOS (ToLower os) && isArch (ToLower arch) && isSize (ToLower size)
      then Some (string_of_list_ascii os) else None
  | _ => None
  end.

Definition platformJobRoutePattern (label : string) : option string :=
  match SplitOn "-"%char (bytesOf label) with
  | [os; name; size] =>
      if isOS (ToLower os) && isName (ToLower name) && isSize (ToLower size) then Some (string_of_list_ascii os) else None
  | _ => None
  end.

Fixpoint soleRouteLoop (pattern : string -> option string) (labels : list string) (route : option string) : option string :=
  match labels with
  | [] => route
  | label :: rest =>
      if EqualFold label selfHosted then soleRouteLoop pattern rest route
      else
        match pattern label, route with
        | None, _ | _, Some _ => None
        | Some os, None => soleRouteLoop pattern rest (Some os)
        end
  end.

Definition soleRouteLabel (job : WorkflowJob) (pattern : string -> option string) : option string :=
  soleRouteLoop pattern (job_Labels job) None.

(** One label of [standardOSLabel]'s first loop; [None] is a contradiction. *)
Definition nameOS (label : string) (named : option Platform) (platform : Platform) : option (option Platform) :=
  if EqualFold label (platformText platform) then
    match named with
    | Some p => if bool_decide (p = platform) then Some named else None
    | None => Some (Some platform)
    end
  else Some named.

Fixpoint namedOS (labels : list string) (named : option Platform) : option (option Platform) :=
  match labels with
  | [] => Some named
  | label :: rest =>
      match nameOS label named PlatformLinux with
      | None => None
      | Some named =>
          match nameOS label named PlatformMacOS with
          | None => None
          | Some named => namedOS rest named
          end
      end
  end.

Definition standardOSLabel (job : WorkflowJob) : option Platform :=
  match namedOS (job_Labels job) None with
  | Some (Some named) =>
      let other := platformText (match named with PlatformLinux => PlatformMacOS | _ => PlatformLinux end) in
      if existsb (fun label => HasPrefix (ToLower (bytesOf label)) (bytesOf (other +:+ "-"))
                               || HasPrefix (ToLower (bytesOf label)) (bytesOf ("trf-" +:+ other +:+ "-"))) (job_Labels job)
      then None else Some named
  | _ => None
  end.

Fixpoint unservedPlatformLoop (bindings : list Binding) (job : WorkflowJob) (platform : string) (accepted : bool) : bool :=
  match bindings with
  | [] => accepted
  | b :: rest =>
      if negb (accepts b (jobRepo job)) then unservedPlatformLoop rest job platform accepted
      else if EqualFold (platformText (profile_Platform (b_Profile b))) platform then false
      else unservedPlatformLoop rest job platform true
  end.

Definition jobRequiresUnservedPlatform (bindings : list Binding) (job : WorkflowJob) (platform : string) : bool :=
  unservedPlatformLoop bindings job platform false.

(** The job's route, the label and its system; [None] when there are two. *)
Fixpoint routeLoop (labels : list string) (route : option (string * string)) : option (option (string * string)) :=
  match labels with
  | [] => Some route
  | label :: rest =>
      match foreignJobRoutePattern label with
      | None => routeLoop rest route
      | Some os => match route with Some _ => None | None => routeLoop rest (Some (label, os)) end
      end
  end.

Fixpoint unservedRouteLoop (bindings : list Binding) (job : WorkflowJob) (label os : string) (accepted : bool) : bool :=
  match bindings with
  | [] => accepted
  | b :: rest =>
      if negb (accepts b (jobRepo job)) then unservedRouteLoop rest job label os accepted
      else if containsFold (b_ScaleSetLabels b) label then false
      else if EqualFold (platformText (profile_Platform (b_Profile b))) os
              && negb (existsb (fun l => match foreignJobRoutePattern l with Some local => EqualFold local os | None => false end)
                         (b_ScaleSetLabels b))
      then false
      else unservedRouteLoop rest job label os true
  end.

Definition jobRequiresUnservedCapability (bindings : list Binding) (job : WorkflowJob) : bool :=
  match soleRouteLabel job platformJobRoutePattern with
  | Some platform => jobRequiresUnservedPlatform bindings job platform
  | None =>
      if match standardOSLabel job with
         | Some platform => jobRequiresUnservedPlatform bindings job (platformText platform)
         | None => false
         end
      then true
      else
        match routeLoop (job_Labels job) None with
        | Some (Some (label, os)) =>
            if existsb (fun l => negb (EqualFold l label) && negb (EqualFold l selfHosted) && negb (EqualFold l os)) (job_Labels job)
            then false
            else unservedRouteLoop bindings job label os false
        | _ => false
        end
  end.

Record ForeignScaleSetSelector := {
  peer_Scope : string;
  peer_ID : Z;
  peer_Name : string;
  peer_Labels : list string
}.

Definition advertisesEveryRoutingLabel (advertised labels : list string) : bool :=
  let routing := List.filter (fun label => negb (EqualFold label selfHosted)) labels in
  forallb (containsFold advertised) routing && negb (bool_decide (routing = [])).

Definition selectsPeer (bindings : list Binding) (job : WorkflowJob) (peer : ForeignScaleSetSelector) : bool :=
  if (peer_ID peer <=? 0) || bool_decide (peer_Scope peer = "") || bool_decide (peer_Name peer = "")
     || (negb (containsFold (job_Labels job) (peer_Name peer))
         && negb (advertisesEveryRoutingLabel (peer_Labels peer) (job_Labels job)))
  then false
  else
    let siblings := List.filter (fun b => EqualFold (b_Scope b) (peer_Scope peer)) bindings in
    existsb (fun b => accepts b (jobRepo job)) siblings
    && negb (existsb (fun b => (b_ScaleSetID b =? peer_ID peer) || containsFold (b_ScaleSetLabels b) (peer_Name peer)) siblings).

Definition jobSelectsForeignSet (peers : list ForeignScaleSetSelector) (bindings : list Binding) (job : WorkflowJob) : bool :=
  existsb (selectsPeer bindings job) peers.
