(* ===== verification/Knowledge.v ===== *)
(** * What an executor knows

    [known] is what the history of a run tells an executor: the instance row it
    last obtained, and what it has heard since.  The contract an executor relies
    on of its store is stated here, and the store of [Store] is shown to keep
    it, whatever other controllers write in between. *)

From Stdlib Require Import ZArith Lia String List.
From stdpp Require Import base tactics list gmap strings.
From S2P Require Import Prelude GoStrings Liveness Domain Operations Failure Effects Store Ports.

Abbreviation History := (list (Event Call)).

(** ** What the executor knows *)

Definition note (k : option InstanceRow * History) (ev : Event Call) : option InstanceRow * History :=
  match ev with
  | Ev (StateInstance _) (inr row) => (Some row, [])
  | Ev (StateAdvance _) (inr row) => (Some row, [])
  | _ => (fst k, snd k ++ [ev])
  end.

Definition known (h : History) : option InstanceRow * History := fold_left note h (None, []).

Lemma known_snoc h ev : known (h ++ [ev]) = note (known h) ev.
Proof. unfold known. by rewrite fold_left_app. Qed.

(** [may] holds of the row last obtained, which is the one the call names. *)
Definition onCurrent (h : History) (id : string) (own : Ownership)
    (may : History -> InstanceRow -> Prop) : Prop :=
  exists row, fst (known h) = Some row /\ row_ID row = id /\ row_Ownership row = own /\ may (snd (known h)) row.

Lemma onCurrent_intro h row s (may : History -> InstanceRow -> Prop) :
  known h = (Some row, s) -> may s row -> onCurrent h (row_ID row) (row_Ownership row) may.
Proof. intros K M. exists row. rewrite K. done. Qed.

(** What one more event says, when the history before it is known. *)
Ltac told :=
  match goal with
  | K : known ?h = _ |- known (?h ++ [?ev]) = _ => rewrite known_snoc, K; reflexivity
  end.

(** Something heard is in the list of what was heard. *)
Ltac heard :=
  cbn [note fst snd]; repeat rewrite in_app_iff; simpl;
  solve [ eauto 6 | intuition eauto 6 ].

(** What was heard stays heard. *)
Ltac more := apply incl_appl; solve [assumption | apply incl_refl].

(** ** Failures and states *)

Definition storeFailed (h : History) : Prop :=
  (exists id err, In (Ev (StateInstance id) (inl err)) h) \/
  (exists c err, In (Ev (StateAdvance c) (inl err)) h).

Definition currentState (h : History) (s : InstanceState) : Prop :=
  exists row, fst (known h) = Some row /\ row_State row = s.

(** ** The contract of the store *)

(** What the executor relies on of the store: the row an advance answers with is
    in the state it was advanced to. *)
Definition storeContract (h : History) (ev : Event Call) : Prop :=
  match ev with
  | Ev (StateAdvance c) (inr row) => row_State row = sc_NextState c
  | _ => True
  end.

Definition honours (env : Env Call) : Prop :=
  forall (X : Set) h (c : Call X), storeContract h (Ev c (env X h c)).

(** ** The store keeps the contract *)

Section Backed.
Variable db0 : Db.
Variable clock : History -> Time.
Variable others : History -> Db -> Db.

(** The database behind a history, newest event first: what the run has written
    to it, and what [others] have written in between. *)
Fixpoint dbBehind (newest : History) : Db :=
  match newest with
  | [] => others [] db0
  | ev :: older =>
      let db := dbBehind older in
      others newest
        match ev with
        | Ev (StateAdvance c) _ => match Advance (clock older) db c with inr (db', _) => db' | inl _ => db end
        | _ => db
        end
  end.

Definition dbAt (h : History) : Db := dbBehind (rev h).

(** An environment whose state port is the store of [Store]. *)
Definition backed (env : Env Call) : Prop :=
  forall h, (forall id, env _ h (StateInstance id) = Instance_read (dbAt h) id) /\
    (forall c, env _ h (StateAdvance c) =
       match Advance (clock (rev h)) (dbAt h) c with inr (_, row) => inr row | inl err => inl err end).

Lemma moveInstance_state db id a v b phase err o now db' row :
  moveInstance db id a v b phase err o now = inr (db', row) -> row_State row = b.
Proof.
  unfold moveInstance. destruct (db_instances db !! id) as [i|]; [|done].
  destruct (_ && _); [|done]. intros HM. injection HM as _ <-. done.
Qed.

Lemma Advance_state now db c db' row : Advance now db c = inr (db', row) -> row_State row = sc_NextState c.
Proof.
  unfold Advance. destruct (stateChangeInvalid c); [done|].
  destruct (moveInstance _ _ _ _ _ _ _ _ _) as [err|[db1 row1]] eqn:M; [done|]. simpl.
  apply moveInstance_state in M. destruct (bool_decide _); [by intros [= _ <-]|].
  destruct (settle _ _ _); [done|]. by intros [= _ <-].
Qed.

Lemma backed_honours env : backed env -> honours env.
Proof.
  intros Hb X h c. destruct c; try done. simpl. destruct (Hb h) as [_ Ha]. rewrite Ha.
  destruct (Advance _ _ _) as [err|[db' row]] eqn:A; [done|]. by eapply Advance_state.
Qed.

End Backed.

(** ** A concrete environment *)

Definition midday : Time := unixEpoch + 1000 * Hour.

(** A machine and a GitHub that go along with everything, on the store. *)
Definition obligingOn (db0 : Db) : Env Call := fun X h c =>
  let db := dbAt db0 (fun _ => midday) (fun _ db => db) h in
  match c in Call X return X with
  | CtxErr => false
  | Now => midday
  | Polls _ _ => O
  | StateInstance id => Instance_read db id
  | StateAdvance c => match Advance midday db c with inr (_, row) => inr row | inl err => inl err end
  | VMCreate _ | VMStart _ _ | VMStop _ _ | VMTerminate _ _ | VMDestroy _ _ | VMDelete _ _ => true
  | VMPower _ => Some InstancePowerStopped
  | ReadyWait _ | ResetRegistration _ => true
  | Registered _ => Some true
  | AcquireAndGenerateJIT _ _ _ => (true, Some "secret")
  | DestroySecret _ => tt
  | Bootstrap _ _ _ => None
  | SafeToDeregister _ => Some true
  | Deregister _ => None
  | ConfirmDeletion _ =>
      Some {| dc_Fresh := true; dc_RunnerInactive := true; dc_JobsInactive := true; dc_ObservedAt := midday |}
  | RunnerRegistered _ | RunnerBusy _ | StartUnattributed _ => Some false
  | Probe _ => GuestLivenessRefused
  | RecordGuestTraffic _ | ReadRunnerRefusal _ | OnAbort _ => tt
  end.

Lemma obligingOn_backed db0 : backed db0 (fun _ => midday) (fun _ db => db) (obligingOn db0).
Proof. by split. Qed.
