(* ===== verification/Drain.v ===== *)
(** * The drain executor (internal/lifecycle/executor.go, DrainExecutor)

    One drain operation takes an instance from draining to deleted.  Each round
    of its loop acts on the state of the instance row: it verifies the premise of
    the drain afresh, deregisters the runner, stops the guest one rung of the
    ladder at a time, and deletes the machine.  The theorems show what each of
    these steps has been told, in the same round, before it acts. *)

From Stdlib Require Import ZArith Lia String.
From stdpp Require Import base tactics list gmap strings.
From S2P Require Import Prelude GoStrings Liveness Domain Operations Failure Effects Store Ports.

#[local] Open Scope prog_scope.

(** A port is a field that may be nil; whether it is set is all the code tests. *)
Record DrainExecutor := {
  de_State : bool;
  de_VM : bool;
  de_Control : bool;
  ConfirmationMaxAge : Duration;
  ConfirmationTimeout : Duration;
  ConfirmationPollInterval : Duration;
  de_Guest : bool;
  de_OnAbort : bool;
  de_Traffic : bool;
  de_Refusal : bool
}.

Definition confirmationMaxAge (e : DrainExecutor) : Duration :=
  if ConfirmationMaxAge e <=? 0 then 30 * Second else ConfirmationMaxAge e.

Definition confirmationTimeout (e : DrainExecutor) : Duration :=
  if ConfirmationTimeout e <=? 0 then 30 * Second else ConfirmationTimeout e.

Definition confirmationPollInterval (e : DrainExecutor) : Duration :=
  if ConfirmationPollInterval e <=? 0 then 250 * Millisecond else ConfirmationPollInterval e.

Definition stopsItsGuestFirst (phase : Z) : bool :=
  (phase =? DrainPhaseOccupancyBudget) || (phase =? DrainPhaseGuestUnresponsive).

Definition abortsOnBusyRefusal (phase : Z) : bool :=
  negb (stopsItsGuestFirst phase) && negb (phase =? DrainPhaseProvisionStalled).

(** ** The steps *)

Section Execute.
Variable e : DrainExecutor.
Variable op : DurableOperation.

Definition abortChange (row : InstanceRow) (evidence : AbortEvidence) : StateChange :=
  {| sc_InstanceID := row_ID row; sc_ExpectedState := row_State row;
     sc_ExpectedVersion := row_Version row; sc_NextState := InstanceRunning; sc_FailureCode := "";
     sc_SettlesID := do_ID op; sc_SettlesLeaseOwner := do_LeaseOwner op;
     sc_Outcome := AbortOutcome evidence |}.

Definition abort (row : InstanceRow) (evidence : AbortEvidence) : Prog Call Exec :=
  answer <~ StateAdvance (abortChange row evidence) ;;
  match answer with
  | inl _ => Ret (failAt StagePersist)
  | inr _ =>
      if de_OnAbort e then
        _ <~ OnAbort {| abort_Instance := row; abort_Phase := DrainPhaseName (row_DrainPhase row);
                        abort_Evidence := evidence |} ;;
        Ret None
      else Ret None
  end.

(** [true] once a confirmation is safe; [false] for an error or the end of the
    wait's context. *)
Fixpoint confirmLoop (id : string) (polls : nat) : Prog Call bool :=
  answer <~ ConfirmDeletion id ;;
  match answer with
  | None => Ret false
  | Some confirmation =>
      now <~ Now ;;
      if Safe confirmation now (confirmationMaxAge e) then Ret true
      else match polls with
           | O => Ret false
           | S polls' => confirmLoop id polls'
           end
  end.

Definition waitConfirmed (id : string) : Prog Call bool :=
  if negb (de_Control e) then Ret false
  else
    polls <~ Polls (confirmationTimeout e) (confirmationPollInterval e) ;;
    confirmLoop id polls.

Definition sampleGuest (row : InstanceRow) (k : Prog Call Exec) : Prog Call Exec :=
  let refusal := if de_Refusal e then _ <~ ReadRunnerRefusal row ;; k else k in
  if (StopAttempts op =? 0) && negb (row_DrainPhase row =? DrainPhaseGuestUnresponsive) then
    if de_Traffic e then _ <~ RecordGuestTraffic row ;; refusal else refusal
  else k.

Definition afterStop (ok : bool) : Prog Call Exec :=
  Ret (if ok then None else Some (Staged (stopError (add64 (StopAttempts op) 1)))).

Definition stopGuest (row : InstanceRow) : Prog Call Exec :=
  if negb (de_VM e) then Ret (failAt StageStop)
  else sampleGuest row
    match StopEscalation (StopAttempts op) with
    | StopGraceful => ok <~ VMStop (row_ID row) (row_Ownership row) ;; afterStop ok
    | StopForced => ok <~ VMTerminate (row_ID row) (row_Ownership row) ;; afterStop ok
    | StopDestructive => ok <~ VMDestroy (row_ID row) (row_Ownership row) ;; afterStop ok
    | StopExhausted =>
        power <~ VMPower (row_ID row) ;;
        match power with
        | Some p => Ret (if ProvenIdle p then None else Some (Staged (exhaustedError StageStop)))
        | None => Ret (Some (Staged (exhaustedError StageStop)))
        end
    end.

(** [None] is permission to go on; [Some r] is what [Execute] returns. *)
Definition verifyRunnerIdle (row : InstanceRow) : Prog Call (option Exec) :=
  busy <~ RunnerBusy row ;;
  match busy with
  | None => Ret (Some (failAt StageGuard))
  | Some true => r <~~ abort row AbortEvidenceRunnerBusy ;; Ret (Some r)
  | Some false => Ret None
  end.

Definition safeToDeregister (row : InstanceRow) : Prog Call (option Exec) :=
  safe <~ SafeToDeregister row ;;
  match safe with
  | Some true => Ret None
  | _ => Ret (Some (failAt StageGuard))
  end.

Definition stopFirst (row : InstanceRow) : Prog Call (option Exec) :=
  r <~~ stopGuest row ;;
  match r with
  | None => Ret None
  | Some err => Ret (Some (Some err))
  end.

Definition guardStopped (row : InstanceRow) : Prog Call (option Exec) :=
  if negb (de_VM e) then Ret (Some (failAt StageGuard))
  else
    power <~ VMPower (row_ID row) ;;
    match power with
    | Some InstancePowerRunning => r <~~ abort row AbortEvidenceVMRunning ;; Ret (Some r)
    | Some InstancePowerStopped | Some InstancePowerAbsent => Ret None
    | _ => Ret (Some (failAt StageGuard))
    end.

Definition guardInactive (row : InstanceRow) : Prog Call (option Exec) :=
  registered <~ RunnerRegistered row ;;
  match registered with
  | None => Ret (Some (failAt StageGuard))
  | Some true => r <~~ abort row AbortEvidenceRunnerRegistered ;; Ret (Some r)
  | Some false => safeToDeregister row
  end.

Definition guardStalled (row : InstanceRow) : Prog Call (option Exec) :=
  verdict <~~ verifyRunnerIdle row ;;
  match verdict with
  | Some r => Ret (Some r)
  | None =>
      unattributed <~ StartUnattributed row ;;
      match unattributed with
      | Some false => Ret None
      | _ => Ret (Some (failAt StageGuard))
      end
  end.

Definition guardUnresponsive (row : InstanceRow) : Prog Call (option Exec) :=
  if negb (de_Guest e) then Ret (Some (failAt StageGuard))
  else
    liveness <~ Probe (row_ID row) ;;
    match liveness with
    | GuestLivenessAlive => r <~~ abort row AbortEvidenceGuestAnswered ;; Ret (Some r)
    | GuestLivenessRefused => stopFirst row
    | _ => Ret (Some (failAt StageGuard))
    end.

Definition guardProvision (row : InstanceRow) : Prog Call (option Exec) :=
  busy <~ RunnerBusy row ;;
  match busy with
  | Some false => Ret None
  | _ => Ret (Some (failAt StageGuard))
  end.

Definition guardEvent (row : InstanceRow) : Prog Call (option Exec) :=
  verdict <~~ verifyRunnerIdle row ;;
  match verdict with
  | Some r => Ret (Some r)
  | None => safeToDeregister row
  end.

(** The switch on the drain phase. *)
Definition verifyPremise (row : InstanceRow) : Prog Call (option Exec) :=
  let phase := row_DrainPhase row in
  if phase =? DrainPhaseStoppedRecovery then guardStopped row
  else if phase =? DrainPhaseInactiveRecovery then guardInactive row
  else if (phase =? DrainPhaseStalledAssignment) || (phase =? DrainPhaseLingeringRunner)
  then guardStalled row
  else if phase =? DrainPhaseGuestUnresponsive then guardUnresponsive row
  else if phase =? DrainPhaseProvisionStalled then guardProvision row
  else if phase =? DrainPhaseOccupancyBudget then stopFirst row
  else guardEvent row.

Definition advance (row : InstanceRow) (next : InstanceState) : Prog Call Round :=
  answer <~ StateAdvance (advanceTo row next) ;; Ret (Advanced answer).

Definition confirmed (row : InstanceRow) (k : Prog Call Round) : Prog Call Round :=
  ok <~~ waitConfirmed (row_ID row) ;;
  if ok then k
  else
    done <~ CtxErr ;;
    Ret (Return (if done : bool then Some ContextDone else failAt StageConfirm)).

Definition deregisterRefused (row : InstanceRow) (cause : RunnerError) : Prog Call Round :=
  let failed := Ret (Return (classifiedError StageDeregister cause)) in
  if abortsOnBusyRefusal (row_DrainPhase row) then
    busy <~ RunnerBusy row ;;
    match busy with
    | Some true => r <~~ abort row AbortEvidenceDeregisterRefused ;; Ret (Return r)
    | _ => failed
    end
  else failed.

Definition drainingRound (row : InstanceRow) : Prog Call Round :=
  if negb (de_Control e) then Ret (Return (failAt StageGuard))
  else
    verdict <~~ verifyPremise row ;;
    match verdict with
    | Some r => Ret (Return r)
    | None =>
        refusal <~ Deregister row ;;
        match refusal with
        | Some cause => deregisterRefused row cause
        | None => confirmed row (advance row InstanceDeregistering)
        end
    end.

Definition deregisteringRound (row : InstanceRow) : Prog Call Round :=
  r <~~ stopGuest row ;;
  match r with
  | Some err => Ret (Return (Some err))
  | None => advance row InstanceStopping
  end.

Definition stoppingRound (row : InstanceRow) : Prog Call Round :=
  if negb (de_VM e) then Ret (Return (failAt StageConfirm))
  else confirmed row (
    ok <~ VMDelete (row_ID row) (row_Ownership row) ;;
    if ok : bool then advance row InstanceDeleted else Ret (Return (failAt StageDelete))).

Definition drainRound (row : InstanceRow) : Prog Call Round :=
  match row_State row with
  | InstanceDeleted => Ret (Return None)
  | InstanceFailed => Ret (Return (failAt StagePersist))
  | InstanceDraining => drainingRound row
  | InstanceDeregistering => deregisteringRound row
  | InstanceStopping => stoppingRound row
  | _ => Ret (Return None)
  end.

(** [for range 6]. *)
Fixpoint drainRounds (rounds : nat) (row : InstanceRow) : Prog Call Exec :=
  match rounds with
  | O => Ret (failAt StagePersist)
  | S rounds' =>
      done <~ CtxErr ;;
      if done : bool then Ret (Some ContextDone)
      else
        next <~~ drainRound row ;;
        match next with
        | Return r => Ret r
        | Advanced (inl _) => Ret (failAt StagePersist)
        | Advanced (inr row') => drainRounds rounds' row'
        end
  end.

Definition Drain_Execute : Prog Call Exec :=
  if negb (de_State e) || negb (bool_decide (do_Kind op = OperationDrainKind))
     || bool_decide (do_ResourceID op = "")
  then Ret (Some (Sentinel ErrInvalid))
  else
    answer <~ StateInstance (do_ResourceID op) ;;
    match answer with
    | inl _ => Ret (failAt StagePersist)
    | inr row =>
        if negb (validateOwned row (do_ResourceID op)) then Ret (Some (Sentinel ErrInvalid))
        else drainRounds 6 row
    end.

End Execute.
