(* ===== verification/DrainSpec.v ===== *)
(** * What a drain has been told before it acts

    [licensed] says, for each call of a drain that ends a job, removes a runner or
    a machine, or moves the instance row, which row and which answers entitle the
    executor to it. *)

From Stdlib Require Import ZArith Lia String List.
From stdpp Require Import base tactics list gmap strings.
From S2P Require Import Prelude GoStrings Liveness Domain Operations Failure Effects Store Ports Knowledge Drain.

(** ** The licence of each call *)

Section Licence.
Variable e : DrainExecutor.
Variable op : DurableOperation.

(** The guest was stopped, or found to be, since the row was obtained. *)
Definition guestStopped (s : History) (row : InstanceRow) : Prop :=
  In (Ev (VMStop (row_ID row) (row_Ownership row)) true) s \/
  In (Ev (VMTerminate (row_ID row) (row_Ownership row)) true) s \/
  In (Ev (VMDestroy (row_ID row) (row_Ownership row)) true) s \/
  exists p, ProvenIdle p = true /\ In (Ev (VMPower (row_ID row)) (Some p)) s.

Definition deletionConfirmed (s : History) (row : InstanceRow) : Prop :=
  exists c now, In (Ev (ConfirmDeletion (row_ID row)) (Some c)) s /\ In (Ev Now now) s /\
    Safe c now (confirmationMaxAge e) = true.

(** The premise of a drain, phase by phase. *)
Definition premise (s : History) (row : InstanceRow) : Prop :=
  let phase := row_DrainPhase row in
  let idle := In (Ev (RunnerBusy row) (Some false)) s in
  let safe := In (Ev (SafeToDeregister row) (Some true)) s in
  if phase =? DrainPhaseStoppedRecovery
  then exists p, ProvenIdle p = true /\ In (Ev (VMPower (row_ID row)) (Some p)) s
  else if phase =? DrainPhaseInactiveRecovery
  then In (Ev (RunnerRegistered row) (Some false)) s /\ safe
  else if (phase =? DrainPhaseStalledAssignment) || (phase =? DrainPhaseLingeringRunner)
  then idle /\ In (Ev (StartUnattributed row) (Some false)) s
  else if phase =? DrainPhaseGuestUnresponsive
  then In (Ev (Probe (row_ID row)) GuestLivenessRefused) s /\ guestStopped s row
  else if phase =? DrainPhaseProvisionStalled then idle
  else if phase =? DrainPhaseOccupancyBudget then guestStopped s row
  else idle /\ safe.

(** Fresh evidence against the premise. *)
Definition contrary (s : History) (row : InstanceRow) (evidence : AbortEvidence) : Prop :=
  let phase := row_DrainPhase row in
  match evidence with
  | AbortEvidenceVMRunning =>
      phase = DrainPhaseStoppedRecovery /\ In (Ev (VMPower (row_ID row)) (Some InstancePowerRunning)) s
  | AbortEvidenceRunnerRegistered =>
      phase = DrainPhaseInactiveRecovery /\ In (Ev (RunnerRegistered row) (Some true)) s
  | AbortEvidenceGuestAnswered =>
      phase = DrainPhaseGuestUnresponsive /\ In (Ev (Probe (row_ID row)) GuestLivenessAlive) s
  | AbortEvidenceRunnerBusy =>
      stopsItsGuestFirst phase = false /\ phase <> DrainPhaseProvisionStalled /\
      In (Ev (RunnerBusy row) (Some true)) s
  | AbortEvidenceDeregisterRefused =>
      stopsItsGuestFirst phase = false /\ phase <> DrainPhaseProvisionStalled /\
      (exists cause, In (Ev (Deregister row) (Some cause)) s) /\ In (Ev (RunnerBusy row) (Some true)) s
  end.

(** When the guest may be stopped: after its deregistration was confirmed, when
    its occupancy budget is spent, or when it has just refused a probe. *)
Definition mayStop (s : History) (row : InstanceRow) : Prop :=
  row_State row = InstanceDeregistering \/
  (row_State row = InstanceDraining /\ row_DrainPhase row = DrainPhaseOccupancyBudget) \/
  (row_State row = InstanceDraining /\ row_DrainPhase row = DrainPhaseGuestUnresponsive /\
   In (Ev (Probe (row_ID row)) GuestLivenessRefused) s).

Definition mayStopWith (force : StopForce) (s : History) (row : InstanceRow) : Prop :=
  mayStop s row /\ StopEscalation (StopAttempts op) = force.

Definition mayDelete (s : History) (row : InstanceRow) : Prop :=
  row_State row = InstanceStopping /\ deletionConfirmed s row.

Definition mayAdvance (s : History) (row : InstanceRow) (c : StateChange) : Prop :=
  (c = advanceTo row InstanceDeregistering /\ row_State row = InstanceDraining /\
   In (Ev (Deregister row) None) s /\ deletionConfirmed s row) \/
  (c = advanceTo row InstanceStopping /\ row_State row = InstanceDeregistering /\ guestStopped s row) \/
  (c = advanceTo row InstanceDeleted /\ row_State row = InstanceStopping /\
   In (Ev (VMDelete (row_ID row) (row_Ownership row)) true) s) \/
  (exists evidence, c = abortChange op row evidence /\ row_State row = InstanceDraining /\
   contrary s row evidence).

Definition licensed (h : History) (ev : Event Call) : Prop :=
  match ev with
  | Ev (Deregister row) _ =>
      fst (known h) = Some row /\ row_State row = InstanceDraining /\ premise (snd (known h)) row
  | Ev (VMStop id own) _ => onCurrent h id own (mayStopWith StopGraceful)
  | Ev (VMTerminate id own) _ => onCurrent h id own (mayStopWith StopForced)
  | Ev (VMDestroy id own) _ => onCurrent h id own (mayStopWith StopDestructive)
  | Ev (VMDelete id own) _ => onCurrent h id own mayDelete
  | Ev (StateAdvance c) _ =>
      exists row, fst (known h) = Some row /\ mayAdvance (snd (known h)) row c
  | Ev (VMCreate _) _ | Ev (VMStart _ _) _ | Ev (ResetRegistration _) _
  | Ev (AcquireAndGenerateJIT _ _ _) _ | Ev (Bootstrap _ _ _) _ => False
  | _ => True
  end.

End Licence.
