(* ===== verification/DrainSafety.v ===== *)
(** * Safety of a drain

    Every call of a drain is licensed by what it was told in the same round, and
    a drain that returns says what became of the instance. *)

From Stdlib Require Import ZArith Lia String List.
From stdpp Require Import base tactics list gmap strings.
From S2P Require Import Prelude GoStrings Liveness Domain Operations Failure Effects Store Ports Knowledge Drain DrainSpec.

Section Drain.
Variable e : DrainExecutor.
Variable op : DurableOperation.
Variable allows : History -> Event Call -> Prop.

Abbreviation wpd := (wp allows (licensed e op)).

(** The drain was called off on evidence, and the store confirmed it. *)
Definition calledOff (h : History) : Prop :=
  exists row row' evidence h0, fst (known h) = Some row' /\
    In (Ev (StateAdvance (abortChange op row evidence)) (inr row')) h /\
    allows h0 (Ev (StateAdvance (abortChange op row evidence)) (inr row')).

(** A failure at the stop step counts one more attempt, until the ladder is
    exhausted; without a machine port nothing is tried. *)
Definition stopFailure (err : stageError) : Prop :=
  (de_VM e = false /\ err = safeError StageStop) \/
  (StopEscalation (StopAttempts op) <> StopExhausted /\ err = stopError (add64 (StopAttempts op) 1)) \/
  (StopEscalation (StopAttempts op) = StopExhausted /\ err = exhaustedError StageStop).

Definition stopExplained (r : Exec) : Prop :=
  match r with
  | Some (Staged err) => err_stage err = StageStop -> stopFailure err
  | _ => True
  end.

(** What a return of the round says. *)
Definition explained (h : History) (r : Exec) : Prop :=
  match r with
  | None => calledOff h
  | Some (Staged err) => err_stage err = StagePersist -> storeFailed h
  | Some _ => True
  end /\ stopExplained r.

Lemma wp_abort h row s evidence :
  known h = (Some row, s) -> row_State row = InstanceDraining -> contrary s row evidence ->
  wpd h (abort e op row evidence) explained.
Proof.
  intros K Hs Hc. intros answer Ha. split.
  { exists row. rewrite K. split; [done|]. right; right; right. eauto. }
  destruct answer as [err|row'].
  - split; [|done]. intros _. right. eexists _, err. apply in_or_app. right. by left.
  - assert (calledOff (h ++ [Ev (StateAdvance (abortChange op row evidence)) (inr row')])) as Hd.
    { exists row, row', evidence, h. rewrite known_snoc. split; [done|]. split; [|done].
      apply in_or_app. right. by left. }
    destruct (de_OnAbort e); [|by split]. intros u _. split; [done|]. split; [|done].
    destruct Hd as (r & r' & ev & h0 & Hk & Hin & Hal). exists r, r', ev, h0.
    rewrite known_snoc. split; [done|]. split; [|done]. apply in_or_app. by left.
Qed.

(** One rung of the ladder. *)
Lemma wp_stopGuest h row s (post : History -> Exec -> Prop) :
  known h = (Some row, s) -> mayStop s row ->
  (forall h' s', known h' = (Some row, s') -> incl s s' -> guestStopped s' row -> post h' None) ->
  (forall h' err, err_stage err = StageStop -> stopFailure err -> post h' (Some (Staged err))) ->
  wpd h (stopGuest e op row) post.
Proof.
  intros K Hm Hok Hbad. unfold stopGuest. destruct (de_VM e) eqn:V; simpl; [|apply Hbad; [done|by left]].
  set (rung := match StopEscalation _ with StopGraceful => _ | _ => _ end).
  assert (forall h' s', known h' = (Some row, s') -> incl s s' -> wpd h' rung post) as Hr.
  { intros h' s' K' Hi. assert (mayStop s' row) as Hm'.
    { destruct Hm as [?|[?|(? & ? & ?)]]; [by left|by right; left|right; right; auto]. }
    subst rung. destruct (StopEscalation (StopAttempts op)) eqn:F.
    1-3: intros ok _; split; [by eapply onCurrent_intro; [exact K'|split]|].
    1-3: destruct ok; [|apply Hbad; [done|right; left; by rewrite F]].
    1-3: eapply Hok; [told|more|unfold guestStopped; heard].
    intros power _. split; [done|]. assert (stopFailure (exhaustedError StageStop)) as Hx by (right; right; by rewrite F).
    destruct power as [p|]; [|by apply Hbad]. simpl. destruct (ProvenIdle p) eqn:P; [|by apply Hbad].
    eapply Hok; [told|more|]. right; right; right. exists p. split; [done|heard]. }
  unfold sampleGuest.
  assert (forall h' s', known h' = (Some row, s') -> incl s s' ->
    wpd h' (if de_Refusal e then Do (ReadRunnerRefusal row) (fun _ => rung) else rung) post) as Hf.
  { intros h' s' K' Hi. destruct (de_Refusal e); [|by eapply Hr]. intros u _. split; [done|].
    eapply Hr; [told|more]. }
  destruct (_ && _); [|eapply Hr; [exact K|apply incl_refl]]. destruct (de_Traffic e); [|eapply Hf; [exact K|apply incl_refl]].
  intros u _. split; [done|]. eapply Hf; [told|more].
Qed.

(** ** The premise of a drain *)

(** Permission to go on comes with the premise; anything else is explained. *)
Definition verdict (row : InstanceRow) (h : History) (v : option Exec) : Prop :=
  match v with
  | None => exists s, known h = (Some row, s) /\ premise s row
  | Some r => explained h r
  end.

Lemma wp_abort_verdict h row s evidence :
  known h = (Some row, s) -> row_State row = InstanceDraining -> contrary s row evidence ->
  wpd h (bindProg (abort e op row evidence) (fun r => Ret (Some r))) (verdict row).
Proof.
  intros K Hs Hc. apply wp_bind. eapply wp_mono; [|by eapply wp_abort]. by intros h' r Hr.
Qed.

Lemma failAt_explained h stage :
  stage <> StagePersist -> stage <> StageStop -> explained h (failAt stage).
Proof. by intros Hs Ht; split; intros ?. Qed.

Lemma wp_safeToDeregister h row s :
  known h = (Some row, s) -> (forall s', incl s s' -> In (Ev (SafeToDeregister row) (Some true)) s' -> premise s' row) ->
  wpd h (safeToDeregister row) (verdict row).
Proof.
  intros K Hp safe _. split; [done|]. destruct safe as [[|]|]; simpl; try by apply failAt_explained.
  exists (s ++ [Ev (SafeToDeregister row) (Some true)]). split; [told|]. apply Hp; [more|heard].
Qed.

Lemma wp_verifyRunnerIdle h row s (post : History -> option Exec -> Prop) :
  known h = (Some row, s) -> row_State row = InstanceDraining ->
  stopsItsGuestFirst (row_DrainPhase row) = false -> row_DrainPhase row <> DrainPhaseProvisionStalled ->
  (forall h' s', known h' = (Some row, s') -> In (Ev (RunnerBusy row) (Some false)) s' -> post h' None) ->
  (forall h' r, explained h' r -> post h' (Some r)) ->
  wpd h (verifyRunnerIdle e op row) post.
Proof.
  intros K Hs Hf Hp Hok Hbad busy _. split; [done|]. destruct busy as [[|]|].
  - apply wp_bind. eapply wp_mono; [intros h' r Hr; by apply Hbad|].
    eapply wp_abort; [told|done|]. split; [done|]. split; [done|]. heard.
  - eapply Hok; [told|heard].
  - by apply Hbad, failAt_explained.
Qed.

Lemma wp_stopFirst h row s :
  known h = (Some row, s) -> mayStop s row ->
  (forall s', incl s s' -> guestStopped s' row -> premise s' row) ->
  wpd h (stopFirst e op row) (verdict row).
Proof.
  intros K Hm Hp. apply wp_bind. eapply wp_stopGuest; [exact K|done| |].
  - intros h' s' K' Hi Hg. exists s'. split; [done|]. by apply Hp.
  - intros h' err Herr Hf. split; [simpl; congruence|by intros _].
Qed.

Lemma wp_guardStopped h row s :
  known h = (Some row, s) -> row_State row = InstanceDraining ->
  row_DrainPhase row = DrainPhaseStoppedRecovery -> wpd h (guardStopped e op row) (verdict row).
Proof.
  intros K Hs P. unfold guardStopped. destruct (negb (de_VM e)); [by apply failAt_explained|].
  intros power _. split; [done|].
  assert (forall q, ProvenIdle q = true ->
    verdict row (h ++ [Ev (VMPower (row_ID row)) (Some q)]) None) as Hidle.
  { intros q Hq. eexists. split; [told|]. unfold premise. rewrite P. exists q. split; [done|heard]. }
  destruct power as [[]|]; try by apply failAt_explained.
  - eapply wp_abort_verdict; [told|done|]. split; [done|heard].
  - by apply Hidle.
  - by apply Hidle.
Qed.

Lemma wp_guardInactive h row s :
  known h = (Some row, s) -> row_State row = InstanceDraining ->
  row_DrainPhase row = DrainPhaseInactiveRecovery -> wpd h (guardInactive e op row) (verdict row).
Proof.
  intros K Hs P registered _. split; [done|]. destruct registered as [[|]|]; [| |by apply failAt_explained].
  - eapply wp_abort_verdict; [told|done|]. split; [done|heard].
  - eapply wp_safeToDeregister; [told|]. intros s' Hi Hin. unfold premise. rewrite P. split; [|done].
    apply Hi. heard.
Qed.

Lemma wp_guardStalled h row s :
  known h = (Some row, s) -> row_State row = InstanceDraining ->
  row_DrainPhase row = DrainPhaseStalledAssignment \/ row_DrainPhase row = DrainPhaseLingeringRunner ->
  wpd h (guardStalled e op row) (verdict row).
Proof.
  intros K Hs P. apply wp_bind. eapply wp_verifyRunnerIdle; [exact K|done| | | |by intros].
  1,2: by destruct P as [-> | ->].
  intros h' s' K' Hin unattributed _. split; [done|].
  destruct unattributed as [[|]|]; try by apply failAt_explained.
  eexists. split; [told|]. unfold premise. destruct P as [-> | ->]; split; heard.
Qed.

Lemma wp_guardUnresponsive h row s :
  known h = (Some row, s) -> row_State row = InstanceDraining ->
  row_DrainPhase row = DrainPhaseGuestUnresponsive -> wpd h (guardUnresponsive e op row) (verdict row).
Proof.
  intros K Hs P. unfold guardUnresponsive. destruct (negb (de_Guest e)); [by apply failAt_explained|].
  intros liveness _. split; [done|]. destruct liveness; try by apply failAt_explained.
  - eapply wp_abort_verdict; [told|done|]. split; [done|heard].
  - eapply wp_stopFirst; [told| |].
    + right; right. split_and!; [done|done|heard].
    + intros s' Hi Hg. unfold premise. rewrite P. split; [apply Hi; heard|done].
Qed.

Lemma wp_guardProvision h row s :
  known h = (Some row, s) -> row_DrainPhase row = DrainPhaseProvisionStalled ->
  wpd h (guardProvision row) (verdict row).
Proof.
  intros K P busy _. split; [done|]. destruct busy as [[|]|]; try by apply failAt_explained.
  eexists. split; [told|]. unfold premise. rewrite P. simpl. heard.
Qed.

Lemma wp_verifyPremise h row s :
  known h = (Some row, s) -> row_State row = InstanceDraining ->
  wpd h (verifyPremise e op row) (verdict row).
Proof.
  intros K Hs. unfold verifyPremise.
  destruct (row_DrainPhase row =? DrainPhaseStoppedRecovery) eqn:P2;
    [apply Z.eqb_eq in P2; by eapply wp_guardStopped|].
  destruct (row_DrainPhase row =? DrainPhaseInactiveRecovery) eqn:P3;
    [apply Z.eqb_eq in P3; by eapply wp_guardInactive|].
  destruct (_ || _) eqn:P4; [bool_to_prop; rewrite !Z.eqb_eq in P4; by eapply wp_guardStalled|].
  destruct (row_DrainPhase row =? DrainPhaseGuestUnresponsive) eqn:P7;
    [apply Z.eqb_eq in P7; by eapply wp_guardUnresponsive|].
  destruct (row_DrainPhase row =? DrainPhaseProvisionStalled) eqn:P8;
    [apply Z.eqb_eq in P8; by eapply wp_guardProvision|].
  destruct (row_DrainPhase row =? DrainPhaseOccupancyBudget) eqn:P6.
  - apply Z.eqb_eq in P6. eapply wp_stopFirst; [exact K|by right; left|].
    intros s' _ Hg. unfold premise. by rewrite P6.
  - apply wp_bind. eapply wp_verifyRunnerIdle; [exact K|done| | | |by intros].
    + unfold stopsItsGuestFirst. by rewrite P6, P7.
    + by apply Z.eqb_neq.
    + intros h' s' K' Hin. eapply wp_safeToDeregister; [exact K'|]. intros s'' Hi Hin'.
      unfold premise. rewrite P2, P3, P4, P7, P8, P6. split; [by apply Hi|done].
Qed.

(** ** The rounds *)

Lemma wp_confirmLoop row polls h s (post : History -> bool -> Prop) :
  known h = (Some row, s) ->
  (forall h' s', known h' = (Some row, s') -> incl s s' -> deletionConfirmed e s' row -> post h' true) ->
  (forall h', post h' false) -> wpd h (confirmLoop e (row_ID row) polls) post.
Proof.
  revert h s. induction polls as [|polls IH]; intros h s K Hok Hbad;
    intros answer _; (split; [done|]); (destruct answer as [c|]; [|by apply Hbad]);
    intros now _; (split; [done|]); destruct (Safe c now (confirmationMaxAge e)) eqn:Hs.
  1,3: eapply Hok; [rewrite known_snoc, known_snoc, K; reflexivity| |].
  1,3: intros ev Hev; heard.
  1,2: exists c, now; split_and!; [heard|heard|done].
  - by apply Hbad.
  - eapply IH; [rewrite known_snoc, known_snoc, K; reflexivity| |done].
    intros h' s' K' Hi Hd. eapply Hok; [done| |done]. intros ev Hev. apply Hi. heard.
Qed.

Lemma wp_confirmed h row s k (post : History -> Round -> Prop) :
  known h = (Some row, s) ->
  (forall h' s', known h' = (Some row, s') -> incl s s' -> deletionConfirmed e s' row -> wpd h' k post) ->
  (forall h' r, explained h' r -> post h' (Return r)) -> wpd h (confirmed e row k) post.
Proof.
  intros K Hok Hbad.
  assert (forall h', wpd h' (Do CtxErr (fun b : bool =>
    Ret (Return (if b then Some ContextDone else failAt StageConfirm)))) post) as Hend.
  { intros h' b _. split; [done|]. apply Hbad. by destruct b. }
  apply wp_bind. unfold waitConfirmed. destruct (negb (de_Control e)); [apply Hend|].
  intros polls _. split; [done|]. eapply wp_confirmLoop; [told| |intros; apply Hend].
  intros h' s' K' Hi Hd. eapply Hok; [done| |done]. intros ev Hev. apply Hi. heard.
Qed.

(** Where an advance takes the row. *)
Definition follows (a b : InstanceState) : Prop :=
  (a = InstanceDraining /\ b = InstanceDeregistering) \/
  (a = InstanceDeregistering /\ b = InstanceStopping) \/
  (a = InstanceStopping /\ b = InstanceDeleted).

(** The states in which a drain has nothing to do. *)
Definition nothingToDrain (s : InstanceState) : bool :=
  match s with
  | InstanceDraining | InstanceDeregistering | InstanceStopping | InstanceFailed => false
  | _ => true
  end.

Definition roundEnds (row : InstanceRow) (h h' : History) (next : Round) : Prop :=
  match next with
  | Return r => explained h' r \/ (h' = h /\ r = None /\ nothingToDrain (row_State row) = true) \/
      (h' = h /\ r = failAt StagePersist /\ row_State row = InstanceFailed)
  | Advanced (inl _) => storeFailed h'
  | Advanced (inr row') => known h' = (Some row', []) /\
      exists b h0, follows (row_State row) b /\ allows h0 (Ev (StateAdvance (advanceTo row b)) (inr row'))
  end.

Lemma wp_advance h h0 row s b :
  known h = (Some row, s) -> follows (row_State row) b -> mayAdvance e op s row (advanceTo row b) ->
  wpd h (advance row b) (roundEnds row h0).
Proof.
  intros K Hf Hm answer Ha. split; [exists row; by rewrite K|]. destruct answer as [err|row']; simpl.
  - right. eexists _, err. apply in_or_app. right. by left.
  - rewrite known_snoc. split; [done|]. by exists b, h.
Qed.

Lemma wp_deregisterRefused h h0 row s cause :
  known h = (Some row, s) -> row_State row = InstanceDraining -> In (Ev (Deregister row) (Some cause)) s ->
  wpd h (deregisterRefused e op row cause) (roundEnds row h0).
Proof.
  intros K Hs Hin. unfold deregisterRefused. destruct (abortsOnBusyRefusal (row_DrainPhase row)) eqn:P;
    [|by left]. unfold abortsOnBusyRefusal in P. bool_to_prop.
  intros busy _. split; [done|]. destruct busy as [[|]|]; [|by left|by left].
  apply wp_bind. eapply wp_mono; [intros h' r Hr; by left|]. eapply wp_abort; [told|done|].
  split_and!; [done|done|exists cause; heard|heard].
Qed.

Lemma wp_drainRound h row s :
  known h = (Some row, s) -> wpd h (drainRound e op row) (roundEnds row h).
Proof.
  intros K. unfold drainRound. destruct (row_State row) eqn:Hs;
    try (right; left; by rewrite Hs).
  - unfold drainingRound. destruct (negb (de_Control e)); [by left|]. apply wp_bind.
    eapply wp_mono; [|by eapply wp_verifyPremise]. intros h' [r|] Hv; [by left|].
    destruct Hv as (s' & K' & Hp). intros refusal _. split.
    { simpl. by rewrite K'. }
    destruct refusal as [cause|]; [eapply wp_deregisterRefused; [told|done|heard]|].
    eapply wp_confirmed; [told| |by left]. intros h'' s'' K'' Hi Hd. eapply wp_advance; [done|by left|].
    left. split_and!; [done|done|apply Hi; heard|done].
  - apply wp_bind. eapply wp_stopGuest; [exact K|by left| |].
    + intros h' s' K' _ Hg. eapply wp_advance; [done|by right; left|]. right; left. done.
    + intros h' err Herr Hf. left. split; [simpl; congruence|by intros _].
  - unfold stoppingRound. destruct (negb (de_VM e)); [by left|].
    eapply wp_confirmed; [exact K| |by left]. intros h' s' K' Hi Hd ok _. split.
    { eapply onCurrent_intro; [exact K'|]. by split. }
    destruct ok; [|by left]. eapply wp_advance; [told|by right; right|].
    right; right; left. split_and!; [done|done|heard].
  - right; right. done.
Qed.

End Drain.

(** ** Every call is licensed *)

Lemma wp_drainRounds_licensed e op n row h s :
  known h = (Some row, s) -> wp anyAnswer (licensed e op) h (drainRounds e op n row)
    (fun _ r => stopExplained e op r).
Proof.
  revert row h s. induction n as [|n IH]; intros row h s K; [done|]. intros b _. split; [done|].
  destruct b; [done|]. apply wp_bind. eapply wp_mono; [|eapply wp_drainRound; told].
  intros h' [r|[err|row']] Hr; [|done|].
  - destruct Hr as [[_ Hr]|[(_ & -> & _)|(_ & -> & _)]]; done.
  - destruct Hr as [K' _]. by eapply IH.
Qed.

Lemma wp_Drain_Execute_licensed e op :
  wp anyAnswer (licensed e op) [] (Drain_Execute e op) (fun _ r => stopExplained e op r).
Proof.
  unfold Drain_Execute. destruct (_ || _); [done|]. intros answer _. split; [done|].
  destruct answer as [err|row]; [done|]. destruct (negb _); [done|]. by eapply wp_drainRounds_licensed.
Qed.

(** C4: A drain acts only on fresh evidence.  Whatever the store, the machine, the
    guest and GitHub answer, and whatever else happens in between: when a drain
    deregisters a runner, the row it last obtained is draining and the premise
    of its phase was confirmed since; it stops the guest only after the
    deregistration was confirmed, on a spent occupancy budget, or after a
    refused probe, with the force the ladder prescribes; it deletes the machine
    only after a safe confirmation since the row was seen stopping; it moves the
    row only along these steps; and it calls a drain off only on evidence
    against its premise. *)
Theorem drain_acts_on_fresh_evidence e op (env : Env Call) before ev after :
  fst (run env [] (Drain_Execute e op)) = before ++ ev :: after -> licensed e op before ev.
Proof.
  intros Hrun. assert (guardedFrom (licensed e op) 0 (fst (run env [] (Drain_Execute e op)))) as Hg.
  { eapply wp_run; [|by apply guardedFrom_refl|apply wp_Drain_Execute_licensed]. done. }
  apply (Hg before ev after Hrun). lia.
Qed.

(** ** A return is truthful *)

(** Rounds a drain needs from a state, the last one included. *)
Definition roundsFrom (s : InstanceState) : nat :=
  match s with
  | InstanceDraining => 4
  | InstanceDeregistering => 3
  | InstanceStopping => 2
  | _ => 1
  end.

Lemma follows_rounds a b : follows a b -> roundsFrom a = S (roundsFrom b).
Proof. by intros [[-> ->]|[[-> ->]|[-> ->]]]. Qed.

(** What [r] says of a drain that found [row] first, at the end of history [h0]. *)
Definition truthful (op : DurableOperation) (row : InstanceRow) (h0 h : History) (r : Exec) : Prop :=
  (r = None -> currentState h InstanceDeleted \/ calledOff op storeContract h \/
     (h = h0 ++ [Ev CtxErr false] /\ nothingToDrain (row_State row) = true)) /\
  (r = failAt StagePersist -> storeFailed h \/ currentState h InstanceFailed).

Lemma explained_truthful e op row h0 h r : explained e op storeContract h r -> truthful op row h0 h r.
Proof.
  intros [He _]. split; [intros ->; by right; left|]. intros ->. left. by apply He.
Qed.

Lemma wp_drainRounds_truthful e op n row h s :
  known h = (Some row, s) -> (roundsFrom (row_State row) <= n)%nat ->
  wp storeContract (licensed e op) h (drainRounds e op n row) (truthful op row h).
Proof.
  revert row h s. induction n as [|n IH]; intros row h s K Hn; [destruct (row_State row); simpl in Hn; lia|].
  intros b _. split; [done|]. destruct b; [by split|].
  assert (known (h ++ [Ev CtxErr false]) = (Some row, s ++ [Ev CtxErr false])) as K1 by told.
  apply wp_bind. eapply wp_mono; [|by eapply wp_drainRound].
  intros h' [r|[err|row']] Hr.
  - destruct Hr as [He|[(-> & -> & Hs)|(-> & -> & Hs)]]; [by eapply explained_truthful| |].
    + split; [|done]. intros _. right; right. done.
    + split; [done|]. intros _. right. exists row. by rewrite K1.
  - split; [done|]. intros _. by left.
  - destruct Hr as [K' (b & h1 & Hf & Hal)]. simpl in Hal.
    assert (row_State row' = b) as Hb by exact Hal.
    pose proof (follows_rounds _ _ Hf) as Hm. rewrite <- Hb in Hm.
    eapply wp_mono; [|eapply IH; [exact K'|lia]]. intros h2 r [T1 T2]. split; [|done].
    intros Hr. destruct (T1 Hr) as [T|[T|[-> T]]]; [by left|by right; left|]. left.
    exists row'. rewrite known_snoc, K'. split; [done|].
    destruct Hf as [[_ ->]|[[_ ->]|[_ ->]]]; rewrite Hb in T; [done|done|done].
Qed.

(** A drain that returns says what became of the instance.  Against a store
    that keeps its contract, a drain that succeeds has seen the row deleted, has
    called itself off on evidence with the row back at running and the operation
    settled, or has found nothing to drain and touched nothing; and it blames
    the store only when the store refused or the row had failed, so the six
    rounds of its loop are always enough. *)
Theorem drain_return_is_truthful e op (env : Env Call) :
  honours env ->
  let h := fst (run env [] (Drain_Execute e op)) in
  let r := snd (run env [] (Drain_Execute e op)) in
  (r = None -> currentState h InstanceDeleted \/
     (currentState h InstanceRunning /\ exists row row' evidence,
        In (Ev (StateAdvance (abortChange op row evidence)) (inr row')) h) \/
     (exists row, h = [Ev (StateInstance (do_ResourceID op)) (inr row); Ev CtxErr false] /\
        nothingToDrain (row_State row) = true)) /\
  (r = failAt StagePersist -> storeFailed h \/ currentState h InstanceFailed).
Proof.
  intros Henv. apply (wp_run storeContract (licensed e op) env (Drain_Execute e op) [] 0
    (fun h r => (r = None -> currentState h InstanceDeleted \/
     (currentState h InstanceRunning /\ exists row row' evidence,
        In (Ev (StateAdvance (abortChange op row evidence)) (inr row')) h) \/
     (exists row, h = [Ev (StateInstance (do_ResourceID op)) (inr row); Ev CtxErr false] /\
        nothingToDrain (row_State row) = true)) /\
      (r = failAt StagePersist -> storeFailed h \/ currentState h InstanceFailed)));
    [done|by apply guardedFrom_refl|].
  unfold Drain_Execute. destruct (_ || _); [by split|]. intros answer _. split; [done|].
  destruct answer as [err|row].
  { split; [done|]. intros _. left. left. exists (do_ResourceID op), err. by left. }
  destruct (negb _); [by split|].
  eapply wp_mono; [|eapply wp_drainRounds_truthful with (s := []); [done|destruct (row_State row); simpl; lia]].
  intros h r [T1 T2]. split; [|done]. intros Hr. destruct (T1 Hr) as [T|[T|[-> T]]]; [by left| |].
  - right; left. destruct T as (row0 & row' & ev & h0 & Hk & Hin & Hal). split; [by exists row'|by exists row0, row', ev].
  - right; right. by exists row.
Qed.

(** ** A drain that goes through *)

Definition drainedRow : InstanceRow :=
  {| row_ID := "vm-1"; row_Repo := ""; row_Platform := PlatformOther ""; row_Profile := ""; row_Route := "";
     row_Resources := zeroResources; row_Demand := zeroDemandKey; row_Image := ""; row_State := InstanceDraining;
     row_Version := 3; row_DrainPhase := DrainPhaseEvent;
     row_Ownership := {| ControllerID := "fleet"; own_ResourceID := "job"; own_OperationID := "clone-1" |};
     row_LastError := ""; row_CreatedAt := midday; row_UpdatedAt := midday |}.

Definition drainOrder : DurableOperation :=
  {| do_ID := "drain-1"; do_IdempotencyKey := "key-1"; do_EffectKey := "deregister:vm-1";
     do_Kind := OperationDrainKind; do_ResourceID := "vm-1"; do_Payload := ""; do_Status := OperationClaimed;
     do_Attempts := 0; do_AvailableAt := midday; do_LeaseOwner := "worker"; do_LeaseUntil := midday;
     do_LastError := ""; do_CreatedAt := midday; do_UpdatedAt := midday; do_DependsOn := [] |}.

Definition fullExecutor : DrainExecutor :=
  {| de_State := true; de_VM := true; de_Control := true; ConfirmationMaxAge := 0;
     ConfirmationTimeout := 0; ConfirmationPollInterval := 0; de_Guest := true; de_OnAbort := true;
     de_Traffic := true; de_Refusal := true |}.

Definition drainDb : Db := setInstances emptyDb {[ "vm-1" := drainedRow ]}.

Definition obliging : Env Call := obligingOn drainDb.

Lemma drain_acts_on_fresh_evidence_witness :
  let trace := fst (run obliging [] (Drain_Execute fullExecutor drainOrder)) in
  let own := row_Ownership drainedRow in
  trace = firstn 18 trace ++ Ev (VMDelete "vm-1" own) true :: skipn 19 trace /\
  onCurrent (firstn 18 trace) "vm-1" own (mayDelete fullExecutor).
Proof.
  intros trace own. assert (trace = firstn 18 trace ++ Ev (VMDelete "vm-1" own) true :: skipn 19 trace) as Ht
    by (vm_compute; reflexivity).
  split; [exact Ht|]. exact (drain_acts_on_fresh_evidence fullExecutor drainOrder obliging _ _ _ Ht).
Defined.

Lemma drain_return_is_truthful_witness :
  honours obliging /\ snd (run obliging [] (Drain_Execute fullExecutor drainOrder)) = None /\
  (None = failAt StagePersist -> storeFailed (fst (run obliging [] (Drain_Execute fullExecutor drainOrder))) \/
     currentState (fst (run obliging [] (Drain_Execute fullExecutor drainOrder))) InstanceFailed).
Proof.
  assert (honours obliging) as Hh by (eapply backed_honours, obligingOn_backed).
  split; [exact Hh|]. split; [vm_compute; reflexivity|].
  exact (proj2 (drain_return_is_truthful fullExecutor drainOrder obliging Hh)).
Defined.
