(* ===== verification/Provision.v ===== *)
(** * The provision executor (internal/lifecycle/executor.go, ProvisionExecutor)

    One provision operation takes an instance from planned to assigned: it
    creates the machine, starts it, waits for the guest, registers it with a
    single-use secret and waits for its runner to appear.  It can be restarted at
    any point; the state of the instance row selects the first effect that is
    still to be observed. *)

From Stdlib Require Import ZArith Lia String.
From stdpp Require Import base tactics list gmap strings.
From S2P Require Import Prelude GoStrings Liveness Domain Operations Failure Effects Store Ports.

#[local] Open Scope prog_scope.

(** The maps are read by indexing only: a missing base is the empty string. *)
Record ProvisionExecutor := {
  pe_State : bool;
  pe_VM : bool;
  pe_Ready : bool;
  pe_Registration : bool;
  pe_Bootstrap : bool;
  Bases : Platform -> string;
  DiskGiB : gmap ProfileID Z;
  Capabilities : gmap ProfileID (list string);
  WorkFolder : string;
  RegistrationTimeout : Duration;
  RegistrationPollInterval : Duration
}.

Definition registrationTimeout (e : ProvisionExecutor) : Duration :=
  if RegistrationTimeout e <=? 0 then 30 * Second else RegistrationTimeout e.

Definition registrationPollInterval (e : ProvisionExecutor) : Duration :=
  if RegistrationPollInterval e <=? 0 then 250 * Millisecond else RegistrationPollInterval e.

Definition workFolder (e : ProvisionExecutor) : string :=
  if bool_decide (WorkFolder e = "") then defaultWorkFolder else WorkFolder e.

(** [errors.As] finds a [stageError] or not; only a bounded reason is kept. *)
Definition bootstrapFailure (cause : option stageError) : Exec :=
  match cause with
  | Some staged =>
      if ValidBootstrapFailureReason (err_reason staged) then Some (Staged staged) else failAt StageBootstrap
  | None => failAt StageBootstrap
  end.

Section Execute.
Variable e : ProvisionExecutor.
Variable op : DurableOperation.

Definition provisionAdvance (row : InstanceRow) (next : InstanceState) : Prog Call Round :=
  answer <~ StateAdvance (advanceTo row next) ;; Ret (Advanced answer).

Definition returnFail (stage : FailStage) : Prog Call Round := Ret (Return (failAt stage)).

Definition specOf (row : InstanceRow) : InstanceSpec :=
  {| spec_Name := row_ID row; spec_Image := Bases e (row_Platform row); spec_CPU := CPU (row_Resources row);
     spec_MemoryMB := MemoryMB (row_Resources row);
     spec_DiskGB := default 0 (DiskGiB e !! row_Profile row); spec_Ownership := row_Ownership row |}.

Definition plannedRound (row : InstanceRow) : Prog Call Round :=
  if negb (pe_VM e) || negb (ValidateImageReference (Bases e (row_Platform row))) then returnFail StageClone
  else
    ok <~ VMCreate (specOf row) ;;
    if ok : bool then provisionAdvance row InstanceCloning else returnFail StageClone.

Definition cloningRound (row : InstanceRow) : Prog Call Round :=
  if negb (pe_VM e) then returnFail StageStart
  else
    ok <~ VMStart (row_ID row) (row_Ownership row) ;;
    if ok : bool then provisionAdvance row InstanceBooting else returnFail StageStart.

Definition bootingRound (row : InstanceRow) : Prog Call Round :=
  if negb (pe_Ready e) then returnFail StageReady
  else
    ok <~ ReadyWait row ;;
    if ok : bool then provisionAdvance row InstanceReachable else returnFail StageReady.

(** The secret is destroyed as soon as the guest has it. *)
Definition bootstrapGuest (row : InstanceRow) (secret : string) : Prog Call Round :=
  failure <~ Bootstrap (row_ID row) secret (default [] (Capabilities e !! row_Profile row)) ;;
  _ <~ DestroySecret secret ;;
  match failure with
  | Some cause => _ <~ ResetRegistration (row_ID row) ;; Ret (Return (bootstrapFailure cause))
  | None => provisionAdvance row InstanceRegistering
  end.

Definition acquireJIT (row : InstanceRow) : Prog Call Round :=
  answer <~ AcquireAndGenerateJIT (key_JobID (row_Demand row)) (row_ID row) (workFolder e) ;;
  match answer with
  | (_, None) => returnFail StageAcquire
  | (ok, Some secret) =>
      if negb ok || bool_decide (secret = "")
      then _ <~ DestroySecret secret ;; returnFail StageAcquire
      else bootstrapGuest row secret
  end.

Definition reachableRound (row : InstanceRow) : Prog Call Round :=
  if negb (pe_Registration e) || negb (pe_Bootstrap e) then returnFail StageAcquire
  else
    registered <~ Registered (row_ID row) ;;
    match registered with
    | None => returnFail StageRegister
    | Some false => acquireJIT row
    | Some true =>
        ok <~ ResetRegistration (row_ID row) ;;
        if ok : bool then acquireJIT row else returnFail StageRegister
    end.

Fixpoint registeredLoop (id : string) (polls : nat) : Prog Call bool :=
  answer <~ Registered id ;;
  match answer with
  | None => Ret false
  | Some true => Ret true
  | Some false =>
      match polls with
      | O => Ret false
      | S polls' => registeredLoop id polls'
      end
  end.

Definition waitRegistered (id : string) : Prog Call bool :=
  polls <~ Polls (registrationTimeout e) (registrationPollInterval e) ;;
  registeredLoop id polls.

Definition registeringRound (row : InstanceRow) : Prog Call Round :=
  if negb (pe_Registration e) then returnFail StageRegister
  else
    ok <~~ waitRegistered (row_ID row) ;;
    if ok then provisionAdvance row InstanceAssigned
    else
      done <~ CtxErr ;;
      Ret (Return (if done : bool then Some ContextDone else failAt StageRegister)).

Definition provisionRound (row : InstanceRow) : Prog Call Round :=
  match row_State row with
  | InstanceAssigned | InstanceRunning
  | InstanceDraining | InstanceDeregistering | InstanceStopping | InstanceDeleted => Ret (Return None)
  | InstanceOnlineIdle => provisionAdvance row InstanceAssigned
  | InstanceFailed => returnFail StagePersist
  | InstancePlanned => plannedRound row
  | InstanceCloning => cloningRound row
  | InstanceBooting => bootingRound row
  | InstanceReachable => reachableRound row
  | InstanceRegistering => registeringRound row
  | _ => Ret (Return (Some (Sentinel ErrConflict)))
  end.

(** [for range 8]. *)
Fixpoint provisionRounds (rounds : nat) (row : InstanceRow) : Prog Call Exec :=
  match rounds with
  | O => Ret (failAt StagePersist)
  | S rounds' =>
      done <~ CtxErr ;;
      if done : bool then Ret (Some ContextDone)
      else
        next <~~ provisionRound row ;;
        match next with
        | Return r => Ret r
        | Advanced (inl _) => Ret (failAt StagePersist)
        | Advanced (inr row') => provisionRounds rounds' row'
        end
  end.

Definition Provision_Execute : Prog Call Exec :=
  if negb (pe_State e) || negb (bool_decide (do_Kind op = OperationProvisionKind))
     || bool_decide (do_ResourceID op = "")
  then Ret (Some (Sentinel ErrInvalid))
  else
    answer <~ StateInstance (do_ResourceID op) ;;
    match answer with
    | inl _ => Ret (failAt StagePersist)
    | inr row =>
        if negb (validateOwned row (do_ResourceID op)) then Ret (Some (Sentinel ErrInvalid))
        else provisionRounds 8 row
    end.

End Execute.
