(* ===== verification/ProvisionSafety.v ===== *)
(** * Safety of a provision

    Every effect of a provision is licensed by the state of the row it last
    obtained and by what it has been told since; no acquired secret survives the
    run; and a provision that returns says what became of the instance. *)

From Stdlib Require Import ZArith Lia String List.
From stdpp Require Import base tactics list gmap strings.
From S2P Require Import Prelude GoStrings Liveness Domain Operations Failure Effects Store Ports Knowledge Provision.

(** ** The licence of each call *)

Section Licence.
Variable e : ProvisionExecutor.

Definition inState (st : InstanceState) (s : History) (row : InstanceRow) : Prop := row_State row = st.

(** No stale registration stands when a secret is asked for. *)
Definition unregistered (s : History) (row : InstanceRow) : Prop :=
  In (Ev (Registered (row_ID row)) (Some false)) s \/ In (Ev (ResetRegistration (row_ID row)) true) s.

Definition bootstrapped (answer : option (option stageError)) (s : History) (row : InstanceRow) : Prop :=
  exists secret, In (Ev (Bootstrap (row_ID row) secret (default [] (Capabilities e !! row_Profile row))) answer) s.

Definition mayReset (s : History) (row : InstanceRow) : Prop :=
  row_State row = InstanceReachable /\
  (In (Ev (Registered (row_ID row)) (Some true)) s \/ exists cause, bootstrapped (Some cause) s row).

Definition mayBootstrap (secret : string) (s : History) (row : InstanceRow) : Prop :=
  row_State row = InstanceReachable /\ secret <> "" /\
  In (Ev (AcquireAndGenerateJIT (key_JobID (row_Demand row)) (row_ID row) (workFolder e)) (true, Some secret)) s.

Definition mayProvision (s : History) (row : InstanceRow) (next : InstanceState) : Prop :=
  match row_State row, next with
  | InstancePlanned, InstanceCloning => In (Ev (VMCreate (specOf e row)) true) s
  | InstanceCloning, InstanceBooting => In (Ev (VMStart (row_ID row) (row_Ownership row)) true) s
  | InstanceBooting, InstanceReachable => In (Ev (ReadyWait row) true) s
  | InstanceReachable, InstanceRegistering => bootstrapped None s row
  | InstanceRegistering, InstanceAssigned => In (Ev (Registered (row_ID row)) (Some true)) s
  | InstanceOnlineIdle, InstanceAssigned => True
  | _, _ => False
  end.

(** [may] holds of the row last obtained, and the call names it. *)
Definition ofCurrent (h : History) (id : string) (may : History -> InstanceRow -> Prop) : Prop :=
  exists row, fst (known h) = Some row /\ row_ID row = id /\ may (snd (known h)) row.

Definition provisionLicensed (h : History) (ev : Event Call) : Prop :=
  match ev with
  | Ev (VMCreate spec) _ =>
      exists row, fst (known h) = Some row /\ row_State row = InstancePlanned /\ spec = specOf e row /\
        ValidateImageReference (spec_Image spec) = true
  | Ev (VMStart id own) _ => onCurrent h id own (inState InstanceCloning)
  | Ev (ReadyWait row) _ => fst (known h) = Some row /\ row_State row = InstanceBooting
  | Ev (ResetRegistration id) _ => ofCurrent h id mayReset
  | Ev (AcquireAndGenerateJIT job id folder) _ =>
      ofCurrent h id (fun s row => row_State row = InstanceReachable /\ job = key_JobID (row_Demand row) /\
        unregistered s row)
  | Ev (Bootstrap id secret capabilities) _ => ofCurrent h id (mayBootstrap secret)
  | Ev (StateAdvance c) _ =>
      exists row next, fst (known h) = Some row /\ c = advanceTo row next /\ mayProvision (snd (known h)) row next
  | Ev (VMStop _ _) _ | Ev (VMTerminate _ _) _ | Ev (VMDestroy _ _) _ | Ev (VMDelete _ _) _
  | Ev (Deregister _) _ => False
  | _ => True
  end.

End Licence.

(** ** Secrets *)

(** The secret an event brings into the run. *)
Definition acquired (ev : Event Call) : option string :=
  match ev with
  | Ev (AcquireAndGenerateJIT _ _ _) (_, Some secret) => Some secret
  | _ => None
  end.

(** Every acquired secret but those of [pending] has been destroyed. *)
Definition destroyedBut (pending : list string) (h : History) : Prop :=
  forall ev secret, In ev h -> acquired ev = Some secret ->
    In secret pending \/ In (Ev (DestroySecret secret) tt) h.

Lemma destroyedBut_quiet pending h ev :
  acquired ev = None -> destroyedBut pending h -> destroyedBut pending (h ++ [ev]).
Proof.
  intros Ha Hd ev' secret Hin Hev. apply in_app_or in Hin as [Hin|[<-|[]]]; [|congruence].
  destruct (Hd ev' secret Hin Hev) as [?|?]; [by left|]. right. apply in_or_app. by left.
Qed.

Lemma destroyedBut_acquire h ev secret :
  acquired ev = Some secret -> destroyedBut [] h -> destroyedBut [secret] (h ++ [ev]).
Proof.
  intros Ha Hd ev' secret' Hin Hev. apply in_app_or in Hin as [Hin|[<-|[]]]; [|left; left; congruence].
  destruct (Hd ev' secret' Hin Hev) as [[]|?]. right. apply in_or_app. by left.
Qed.

Lemma destroyedBut_destroy h secret u :
  destroyedBut [secret] h -> destroyedBut [] (h ++ [Ev (DestroySecret secret) u]).
Proof.
  intros Hd ev' secret' Hin Hev. destruct u. right. apply in_app_or in Hin as [Hin|[<-|[]]]; [|done].
  destruct (Hd ev' secret' Hin Hev) as [[<-|[]]|?]; apply in_or_app; [right; by left|by left].
Qed.

#[local] Hint Resolve destroyedBut_quiet destroyedBut_acquire destroyedBut_destroy : fleet.
#[local] Hint Extern 1 (acquired _ = None) => reflexivity : fleet.
#[local] Hint Extern 1 (acquired _ = Some _) => reflexivity : fleet.

(** ** The rounds *)

Section Rounds.
Variable e : ProvisionExecutor.
Variable allows : History -> Event Call -> Prop.

Abbreviation wpp := (wp allows (provisionLicensed e)).

(** Where a provision has nothing left to do. *)
Definition provisioned (s : InstanceState) : bool :=
  match s with
  | InstanceAssigned | InstanceRunning | InstanceDraining | InstanceDeregistering | InstanceStopping
  | InstanceDeleted => true
  | _ => false
  end.

Definition provisionFollows (a b : InstanceState) : Prop :=
  (a = InstancePlanned /\ b = InstanceCloning) \/ (a = InstanceCloning /\ b = InstanceBooting) \/
  (a = InstanceBooting /\ b = InstanceReachable) \/ (a = InstanceReachable /\ b = InstanceRegistering) \/
  (a = InstanceRegistering /\ b = InstanceAssigned) \/ (a = InstanceOnlineIdle /\ b = InstanceAssigned).

Definition provisionEnds (row : InstanceRow) (h h' : History) (next : Round) : Prop :=
  destroyedBut [] h' /\
  match next with
  | Return r => (r = None -> h' = h /\ provisioned (row_State row) = true) /\
      (r = failAt StagePersist -> h' = h /\ row_State row = InstanceFailed)
  | Advanced (inl _) => storeFailed h'
  | Advanced (inr row') => known h' = (Some row', []) /\
      exists b h0, provisionFollows (row_State row) b /\ allows h0 (Ev (StateAdvance (advanceTo row b)) (inr row'))
  end.

(** A return that claims neither success nor a fault of the store. *)
Lemma provisionEnds_return row h h' r :
  r <> None -> r <> failAt StagePersist -> destroyedBut [] h' -> provisionEnds row h h' (Return r).
Proof. by intros. Qed.

Lemma bootstrapFailure_staged cause :
  bootstrapFailure cause <> None /\ bootstrapFailure cause <> failAt StagePersist.
Proof.
  destruct cause as [staged|]; [|done]. simpl.
  destruct (ValidBootstrapFailureReason (err_reason staged)) eqn:V; [|done].
  split; [done|]. intros [= ->]. done.
Qed.

Lemma wp_provisionAdvance h h0 row s b :
  known h = (Some row, s) -> destroyedBut [] h -> provisionFollows (row_State row) b ->
  mayProvision e s row b -> wpp h (provisionAdvance row b) (provisionEnds row h0).
Proof.
  intros K Hd Hf Hm answer Ha. split; [exists row, b; by rewrite K|]. split; [by auto with fleet|].
  destruct answer as [err|row'].
  - right. eexists _, err. apply in_or_app. right. by left.
  - rewrite known_snoc. split; [done|]. by exists b, h.
Qed.

Lemma wp_registeredLoop row polls h s (post : History -> bool -> Prop) :
  known h = (Some row, s) -> destroyedBut [] h ->
  (forall h' s', known h' = (Some row, s') -> destroyedBut [] h' ->
     In (Ev (Registered (row_ID row)) (Some true)) s' -> post h' true) ->
  (forall h', destroyedBut [] h' -> post h' false) -> wpp h (registeredLoop (row_ID row) polls) post.
Proof.
  intros K Hd Hok Hbad. revert h s K Hd. induction polls as [|polls IH]; intros h s K Hd;
    intros answer _; (split; [done|]); destruct answer as [[|]|]; try (apply Hbad; by auto with fleet).
  1,2: eapply Hok; [told|by auto with fleet|heard].
  eapply IH; [told|by auto with fleet].
Qed.

Ltac returns := apply provisionEnds_return; [done|done|by auto with fleet].

Lemma wp_bootstrapGuest h h0 row s secret :
  known h = (Some row, s) -> destroyedBut [secret] h -> row_State row = InstanceReachable ->
  mayBootstrap e secret s row -> wpp h (bootstrapGuest e row secret) (provisionEnds row h0).
Proof.
  intros K Hd Hs Hm failure _. split; [exists row; by rewrite K|]. intros u _. split; [done|].
  set (h2 := _ ++ [Ev (DestroySecret secret) u]).
  assert (destroyedBut [] h2) as Hd2 by (subst h2; auto with fleet).
  assert (exists s2, known h2 = (Some row, s2) /\ bootstrapped e failure s2 row) as (s2 & K2 & Hb).
  { eexists. split; [subst h2; rewrite known_snoc, known_snoc, K; reflexivity|]. exists secret. heard. }
  destruct failure as [cause|].
  - intros ok _. split; [exists row; rewrite K2; split_and!; [done|done|]|].
    { split; [done|]. right. by exists cause. }
    destruct (bootstrapFailure_staged cause). apply provisionEnds_return; [done|done|by auto with fleet].
  - eapply wp_provisionAdvance; [exact K2|done|rewrite Hs; unfold provisionFollows; auto 10|]. unfold mayProvision. by rewrite Hs.
Qed.

Lemma wp_acquireJIT h h0 row s :
  known h = (Some row, s) -> destroyedBut [] h -> row_State row = InstanceReachable -> unregistered s row ->
  wpp h (acquireJIT e row) (provisionEnds row h0).
Proof.
  intros K Hd Hs Hu answer _. split; [exists row; by rewrite K|]. destruct answer as [ok [secret|]]; [|returns].
  destruct (negb ok || bool_decide (secret = "")) eqn:Hok.
  - intros u _. split; [done|]. apply provisionEnds_return; [done|done|]. by eauto with fleet.
  - bool_to_prop. subst ok. eapply wp_bootstrapGuest; [told|by eauto with fleet|done|].
    split_and!; [done|done|heard].
Qed.

Lemma wp_reachableRound h row s :
  known h = (Some row, s) -> destroyedBut [] h -> row_State row = InstanceReachable ->
  wpp h (reachableRound e row) (provisionEnds row h).
Proof.
  intros K Hd Hs. unfold reachableRound. destruct (_ || _); [returns|]. intros registered _.
  split; [done|]. destruct registered as [[|]|]; [| |returns].
  - intros ok _. split.
    { exists row. rewrite known_snoc, K. split_and!; [done|done|]. split; [done|]. left. heard. }
    destruct ok; [|returns]. eapply wp_acquireJIT; [rewrite known_snoc, known_snoc, K; reflexivity| |done|].
    + by auto with fleet.
    + right. heard.
  - eapply wp_acquireJIT; [told|by auto with fleet|done|]. left. heard.
Qed.

Lemma wp_registeringRound h row s :
  known h = (Some row, s) -> destroyedBut [] h -> row_State row = InstanceRegistering ->
  wpp h (registeringRound e row) (provisionEnds row h).
Proof.
  intros K Hd Hs. unfold registeringRound. destruct (negb _); [returns|]. apply wp_bind.
  intros polls _. split; [done|]. eapply wp_registeredLoop; [told|by auto with fleet| |].
  - intros h' s' K' Hd' Hin. eapply wp_provisionAdvance; [exact K'|done|rewrite Hs; unfold provisionFollows; auto 10|].
    unfold mayProvision. by rewrite Hs.
  - intros h' Hd' b _. split; [done|]. apply provisionEnds_return; [by destruct b..|by auto with fleet].
Qed.

Lemma wp_provisionRound h row s :
  known h = (Some row, s) -> destroyedBut [] h -> wpp h (provisionRound e row) (provisionEnds row h).
Proof.
  intros K Hd. unfold provisionRound. destruct (row_State row) eqn:Hs;
    try (split; [done|]; by rewrite Hs); try returns.
  - unfold plannedRound. destruct (negb _ || negb _) eqn:V; [returns|]. bool_to_prop. intros ok _.
    split; [exists row; by rewrite K|]. destruct ok; [|returns].
    eapply wp_provisionAdvance; [told|by auto with fleet|rewrite Hs; unfold provisionFollows; auto 10|].
    unfold mayProvision. rewrite Hs. heard.
  - unfold cloningRound. destruct (negb _); [returns|]. intros ok _.
    split; [by eapply onCurrent_intro|]. destruct ok; [|returns].
    eapply wp_provisionAdvance; [told|by auto with fleet|rewrite Hs; unfold provisionFollows; auto 10|].
    unfold mayProvision. rewrite Hs. heard.
  - unfold bootingRound. destruct (negb _); [returns|]. intros ok _.
    split; [simpl; by rewrite K|]. destruct ok; [|returns].
    eapply wp_provisionAdvance; [told|by auto with fleet|rewrite Hs; unfold provisionFollows; auto 10|].
    unfold mayProvision. rewrite Hs. heard.
  - by eapply wp_reachableRound.
  - by eapply wp_registeringRound.
  - eapply wp_provisionAdvance; [exact K|done|rewrite Hs; unfold provisionFollows; auto 10|]. unfold mayProvision. by rewrite Hs.
Qed.

End Rounds.

(** ** The whole provision *)

(** What the end of the loop says: secrets are gone, success means the row left
    provisioning, and the store is blamed only with cause. *)
Definition provisionOutcome (h : History) (r : Exec) : Prop :=
  (r = None -> exists row, fst (known h) = Some row /\ provisioned (row_State row) = true) /\
  (r = failAt StagePersist -> storeFailed h \/ currentState h InstanceFailed).

(** Rounds a provision needs from a state, the last one included. *)
Definition provisionRoundsFrom (s : InstanceState) : nat :=
  match s with
  | InstancePlanned => 6
  | InstanceCloning => 5
  | InstanceBooting => 4
  | InstanceReachable => 3
  | InstanceRegistering | InstanceOnlineIdle => 2
  | _ => 1
  end.

Lemma provisionFollows_rounds a b :
  provisionFollows a b -> provisionRoundsFrom a = S (provisionRoundsFrom b).
Proof. unfold provisionFollows. intuition; by subst. Qed.

Lemma wp_provisionRounds_licensed e n row h s :
  known h = (Some row, s) -> destroyedBut [] h ->
  wp anyAnswer (provisionLicensed e) h (provisionRounds e n row) (fun h' _ => destroyedBut [] h').
Proof.
  revert row h s. induction n as [|n IH]; intros row h s K Hd; [done|]. intros b _. split; [done|].
  destruct b; [by apply destroyedBut_quiet|]. apply wp_bind.
  eapply wp_mono; [|eapply wp_provisionRound; [told|by apply destroyedBut_quiet]].
  intros h' [r|[err|row']] [Hd' Hr]; [done|done|]. destruct Hr as [K' _]. by eapply IH.
Qed.

Lemma wp_provisionRounds_outcome e n row h s :
  known h = (Some row, s) -> destroyedBut [] h -> (provisionRoundsFrom (row_State row) <= n)%nat ->
  wp storeContract (provisionLicensed e) h (provisionRounds e n row) provisionOutcome.
Proof.
  revert row h s. induction n as [|n IH]; intros row h s K Hd Hn;
    [destruct (row_State row); simpl in Hn; lia|].
  intros b _. split; [done|]. destruct b; [by split|].
  assert (known (h ++ [Ev CtxErr false]) = (Some row, s ++ [Ev CtxErr false])) as K1 by told.
  apply wp_bind. eapply wp_mono; [|eapply wp_provisionRound; [exact K1|by apply destroyedBut_quiet]].
  intros h' [r|[err|row']] [Hd' Hr].
  - destruct Hr as [R1 R2]. split; intros E; [destruct (R1 E) as [-> ?]|destruct (R2 E) as [-> ?]; right].
    + exists row. by rewrite K1.
    + exists row. by rewrite K1.
  - split; [done|]. intros _. by left.
  - destruct Hr as [K' (b & h1 & Hf & Hal)]. assert (row_State row' = b) as Hb by exact Hal.
    pose proof (provisionFollows_rounds _ _ Hf) as Hm. rewrite <- Hb in Hm. eapply IH; [exact K'|done|lia].
Qed.

(** C27: A provision acts in order and keeps no secret.  Whatever the ports answer:
    it creates a machine only for a planned row, from a valid image and with the
    row's own vector; starts it only when cloning, and waits for it only when
    booting; it asks for a secret only for a reachable row with no registration
    standing, and hands a guest only the secret it was given for it; it moves
    the row only after the effect of its state was observed, and never stops,
    deletes or deregisters anything; and every secret it acquired it has
    destroyed when it returns. *)
Theorem provision_acts_in_order e op (env : Env Call) before ev after :
  fst (run env [] (Provision_Execute e op)) = before ++ ev :: after ->
  provisionLicensed e before ev /\
  forall secret, acquired ev = Some secret -> In (Ev (DestroySecret secret) tt) (before ++ ev :: after).
Proof.
  intros Hrun. assert (destroyedBut [] (fst (run env [] (Provision_Execute e op))) /\
    guardedFrom (provisionLicensed e) 0 (fst (run env [] (Provision_Execute e op)))) as [Hd Hg].
  { apply (wp_run anyAnswer (provisionLicensed e) env (Provision_Execute e op) [] 0
      (fun h _ => destroyedBut [] h)); [done|by apply guardedFrom_refl|].
    unfold Provision_Execute. destruct (_ || _); [by intros ? ? []|]. intros answer _. split; [done|].
    assert (destroyedBut [] ([] ++ [Ev (StateInstance (do_ResourceID op)) answer])) as Hd
      by (apply destroyedBut_quiet; [done|by intros ? ? []]).
    destruct answer as [err|row]; [done|]. destruct (negb _); [done|].
    by eapply wp_provisionRounds_licensed with (s := []). }
  split; [apply (Hg before ev after Hrun); lia|]. intros secret Hs. rewrite Hrun in Hd.
  destruct (Hd ev secret) as [[]|?]; [apply in_or_app; right; by left|done|done].
Qed.

(** A provision that returns says what became of the instance.  Against a
    store that keeps its contract, a provision that succeeds has seen the row
    assigned, running or past it in its teardown, never failed and never short
    of registration; and it blames the store only when the store refused or the
    row had failed, so the eight rounds of its loop are always enough. *)
Theorem provision_return_is_truthful e op (env : Env Call) :
  honours env ->
  let h := fst (run env [] (Provision_Execute e op)) in
  let r := snd (run env [] (Provision_Execute e op)) in
  (r = None -> exists row, fst (known h) = Some row /\ provisioned (row_State row) = true) /\
  (r = failAt StagePersist -> storeFailed h \/ currentState h InstanceFailed).
Proof.
  intros Henv. apply (wp_run storeContract (provisionLicensed e) env (Provision_Execute e op) [] 0
    provisionOutcome); [done|by apply guardedFrom_refl|].
  unfold Provision_Execute. destruct (_ || _); [by split|]. intros answer _. split; [done|].
  destruct answer as [err|row].
  { split; [done|]. intros _. left. left. exists (do_ResourceID op), err. by left. }
  destruct (negb _); [by split|]. eapply wp_provisionRounds_outcome with (s := []); [done| |].
  - apply destroyedBut_quiet; [done|by intros ? ? []].
  - destruct (row_State row); simpl; lia.
Qed.

(** ** A provision that goes through *)

Definition plannedRow : InstanceRow :=
  {| row_ID := "vm-2"; row_Repo := ""; row_Platform := PlatformOther ""; row_Profile := ""; row_Route := "";
     row_Resources := zeroResources; row_Demand := zeroDemandKey; row_Image := ""; row_State := InstancePlanned;
     row_Version := 1; row_DrainPhase := 0;
     row_Ownership := {| ControllerID := "fleet"; own_ResourceID := "job"; own_OperationID := "clone-2" |};
     row_LastError := ""; row_CreatedAt := midday; row_UpdatedAt := midday |}.

Definition provisionOrder : DurableOperation :=
  {| do_ID := "clone-2"; do_IdempotencyKey := "key-2"; do_EffectKey := "clone:vm-2";
     do_Kind := OperationProvisionKind; do_ResourceID := "vm-2"; do_Payload := ""; do_Status := OperationClaimed;
     do_Attempts := 0; do_AvailableAt := midday; do_LeaseOwner := "worker"; do_LeaseUntil := midday;
     do_LastError := ""; do_CreatedAt := midday; do_UpdatedAt := midday; do_DependsOn := [] |}.

Definition fullProvision : ProvisionExecutor :=
  {| pe_State := true; pe_VM := true; pe_Ready := true; pe_Registration := true; pe_Bootstrap := true;
     Bases := fun _ => "base"; DiskGiB := ∅; Capabilities := ∅; WorkFolder := ""; RegistrationTimeout := 0;
     RegistrationPollInterval := 0 |}.

Definition welcoming : Env Call := obligingOn (setInstances emptyDb {[ "vm-2" := plannedRow ]}).

Lemma provision_acts_in_order_witness :
  let trace := fst (run welcoming [] (Provision_Execute fullProvision provisionOrder)) in
  trace = firstn 13 trace ++ Ev (AcquireAndGenerateJIT 0 "vm-2" "_work") (true, Some "secret") :: skipn 14 trace /\
  In (Ev (DestroySecret "secret") tt) trace.
Proof.
  intros trace.
  assert (trace = firstn 13 trace ++ Ev (AcquireAndGenerateJIT 0 "vm-2" "_work") (true, Some "secret")
                  :: skipn 14 trace) as Ht by (vm_compute; reflexivity).
  split; [exact Ht|]. rewrite Ht.
  exact (proj2 (provision_acts_in_order fullProvision provisionOrder welcoming _ _ _ Ht) "secret" eq_refl).
Defined.

Lemma provision_return_is_truthful_witness :
  honours welcoming /\ snd (run welcoming [] (Provision_Execute fullProvision provisionOrder)) = None /\
  exists row, fst (known (fst (run welcoming [] (Provision_Execute fullProvision provisionOrder)))) = Some row /\
    provisioned (row_State row) = true.
Proof.
  assert (honours welcoming) as Hh by (eapply backed_honours, obligingOn_backed).
  split; [exact Hh|]. split; [vm_compute; reflexivity|].
  apply (proj1 (provision_return_is_truthful fullProvision provisionOrder welcoming Hh)). vm_compute. reflexivity.
Defined.
