(* ===== verification/Router.v ===== *)
(** * The control router (internal/lifecycle/control.go)

    The router answers the drain's and the provision's questions about a runner
    by binding the instance to the scale set of its repository and profile, and
    asking that scale set and the durable record of its demand.  Composed with
    the drain executor, it is what the executor's evidence really rests on. *)

From Stdlib Require Import ZArith Lia String List.
From stdpp Require Import base tactics list gmap strings.
From S2P Require Import Prelude GoStrings Liveness Domain Operations Failure Effects Store Inbox Ports Knowledge.
From S2P Require Import Drain DrainSpec DrainSafety.

#[local] Open Scope prog_scope.

(** ** What the router asks *)

Definition SourceKey : Set := string * ProfileID.

(** [hasSource] is whether the source is set, [directJIT] whether it also
    generates a secret for a job assigned to it in advance. *)
Record SourceBinding := { StoreKey : Z; hasSource : bool; directJIT : bool }.

Inductive Wire : Set -> Type :=
  | Direct {X : Set} (c : Call X) : Wire X
  | SourceRegistered (k : SourceKey) (id : string) : Wire (option bool)
  | SourceDeregister (k : SourceKey) (id : string) : Wire (option RunnerError)
  | SourceAcquire (k : SourceKey) (job : Z) (id folder : string) : Wire (bool * option string)
  | SourceGenerate (k : SourceKey) (id folder : string) : Wire (bool * option string)
  | ReadDemand (store job : Z) : Wire (option DemandRecord)
  | RunnerActiveJob (store : Z) (id : string) : Wire (option bool).

Record ControlRouter := {
  cr_State : bool;
  cr_Demand : bool;
  Sources : gmap SourceKey SourceBinding
}.

Definition derivesInactivityFromRunnerAbsence (phase : Z) : bool :=
  (phase =? DrainPhaseStoppedRecovery) || (phase =? DrainPhaseStalledAssignment)
  || (phase =? DrainPhaseLingeringRunner) || (phase =? DrainPhaseOccupancyBudget)
  || (phase =? DrainPhaseGuestUnresponsive) || (phase =? DrainPhaseProvisionStalled).

Definition preassignedRequestIDFloor : Z := Z.shiftl 1 62.
Definition IsPreassignedRequestID (id : Z) : bool := preassignedRequestIDFloor <=? id.

(** ** The router's answers; an error is [None] *)

Section Router.
Variable r : ControlRouter.

Definition sourceKey (row : InstanceRow) : SourceKey := (row_Repo row, row_Profile row).

Definition binding (row : InstanceRow) : option SourceBinding :=
  match Sources r !! sourceKey row with
  | None => None
  | Some b => if (StoreKey b <=? 0) || negb (hasSource b) then None else Some b
  end.

Definition resolve (name : string) : Prog Wire (option (InstanceRow * SourceBinding)) :=
  if negb (cr_State r) || bool_decide (name = "") then Ret None
  else
    answer <~ Direct (StateInstance name) ;;
    match answer with
    | inl _ => Ret None
    | inr row => Ret (match binding row with None => None | Some b => Some (row, b) end)
    end.

Definition demand (b : SourceBinding) (row : InstanceRow) : Prog Wire (option DemandRecord) :=
  if negb (cr_Demand r) || (key_JobID (row_Demand row) <=? 0) then Ret None
  else record <~ ReadDemand (StoreKey b) (key_JobID (row_Demand row)) ;; Ret record.

Definition spawningDemand (row : InstanceRow) : Prog Wire (option DemandRecord) :=
  match binding row with
  | None => Ret None
  | Some b => demand b row
  end.

Definition Router_Registered (name : string) : Prog Wire (option bool) :=
  resolved <~~ resolve name ;;
  match resolved with
  | None => Ret None
  | Some (row, _) => answer <~ SourceRegistered (sourceKey row) name ;; Ret answer
  end.

Definition Router_ResetRegistration (name : string) : Prog Wire bool :=
  resolved <~~ resolve name ;;
  match resolved with
  | None => Ret false
  | Some (row, _) =>
      refusal <~ SourceDeregister (sourceKey row) name ;;
      Ret (match refusal with None => true | Some _ => false end)
  end.

Definition Router_AcquireAndGenerateJIT (request : Z) (name folder : string)
    : Prog Wire (bool * option string) :=
  resolved <~~ resolve name ;;
  match resolved with
  | None => Ret (false, None)
  | Some (row, b) =>
      if (request <=? 0) || negb (request =? key_JobID (row_Demand row)) then Ret (false, None)
      else if IsPreassignedRequestID request then
        if negb (directJIT b) then Ret (false, None)
        else answer <~ SourceGenerate (sourceKey row) name folder ;; Ret answer
      else answer <~ SourceAcquire (sourceKey row) request name folder ;; Ret answer
  end.

Definition completedDemand (b : SourceBinding) (row : InstanceRow) : Prog Wire (option bool) :=
  record <~~ demand b row ;;
  Ret (option_map (fun rec => bool_decide (dr_Status rec = DemandJobCompleted)) record).

Definition Router_SafeToDeregister (row : InstanceRow) : Prog Wire (option bool) :=
  match binding row with
  | None => Ret None
  | Some b =>
      if row_DrainPhase row =? DrainPhaseStoppedRecovery then
        registered <~ SourceRegistered (sourceKey row) (row_ID row) ;; Ret (option_map negb registered)
      else if row_DrainPhase row =? DrainPhaseInactiveRecovery then
        registered <~ SourceRegistered (sourceKey row) (row_ID row) ;;
        match registered with
        | None => Ret None
        | Some true => Ret (Some false)
        | Some false => completedDemand b row
        end
      else completedDemand b row
  end.

Definition Router_RunnerRegistered (row : InstanceRow) : Prog Wire (option bool) :=
  match binding row with
  | None => Ret None
  | Some _ => answer <~ SourceRegistered (sourceKey row) (row_ID row) ;; Ret answer
  end.

Definition Router_StartUnattributed (row : InstanceRow) : Prog Wire (option bool) :=
  record <~~ spawningDemand row ;;
  Ret (option_map (fun rec =>
         bool_decide (dr_Status rec = DemandJobStarted) && bool_decide (dr_RunnerName rec = "")) record).

Definition Router_RunnerBusy (row : InstanceRow) : Prog Wire (option bool) :=
  match binding row with
  | None => Ret None
  | Some b =>
      if negb (cr_Demand r) || bool_decide (row_ID row = "") then Ret None
      else answer <~ RunnerActiveJob (StoreKey b) (row_ID row) ;; Ret answer
  end.

Definition unresolvedScope : RunnerError :=
  {| jobStillRunning := false; adminUnavailable := false; scopeUnresolved := true; accessDenied := false;
     lookupFailed := false; removalFailed := false |}.

Definition Router_Deregister (row : InstanceRow) : Prog Wire (option RunnerError) :=
  match binding row with
  | None => Ret (Some unresolvedScope)
  | Some _ => refusal <~ SourceDeregister (sourceKey row) (row_ID row) ;; Ret refusal
  end.

Definition confirmation (runner jobs : bool) : Prog Wire (option DeletionConfirmation) :=
  now <~ Direct Now ;;
  Ret (Some {| dc_Fresh := true; dc_RunnerInactive := runner; dc_JobsInactive := jobs; dc_ObservedAt := now |}).

Definition Router_ConfirmDeletion (name : string) : Prog Wire (option DeletionConfirmation) :=
  resolved <~~ resolve name ;;
  match resolved with
  | None => Ret None
  | Some (row, b) =>
      registered <~ SourceRegistered (sourceKey row) name ;;
      match registered with
      | None => Ret None
      | Some reg =>
          if derivesInactivityFromRunnerAbsence (row_DrainPhase row)
          then confirmation (negb reg) (negb reg)
          else
            completed <~~ completedDemand b row ;;
            match completed with
            | None => Ret None
            | Some jobs => confirmation (negb reg) jobs
            end
      end
  end.

(** Planning evidence only; no executor asks for it. *)
Definition Router_JobActive (row : InstanceRow) : Prog Wire (option bool) :=
  record <~~ spawningDemand row ;;
  Ret (option_map (fun rec => bool_decide (dr_Status rec = DemandJobStarted)) record).

(** The ports of the executors, with the router behind the ones it implements. *)
Definition route (X : Set) (c : Call X) : Prog Wire X :=
  match c in Call X return Prog Wire X with
  | Registered id => Router_Registered id
  | ResetRegistration id => Router_ResetRegistration id
  | AcquireAndGenerateJIT job id folder => Router_AcquireAndGenerateJIT job id folder
  | SafeToDeregister row => Router_SafeToDeregister row
  | Deregister row => Router_Deregister row
  | ConfirmDeletion id => Router_ConfirmDeletion id
  | RunnerRegistered row => Router_RunnerRegistered row
  | RunnerBusy row => Router_RunnerBusy row
  | StartUnattributed row => Router_StartUnattributed row
  | c => Do (Direct c) Ret
  end.

(** ** What an answer of the router rests on *)

Abbreviation Wires := (list (Event Wire)).

(** The record of the row's own demand, as its scale set has it. *)
Definition demandRead (h : Wires) (row : InstanceRow) (ok : DemandRecord -> Prop) : Prop :=
  exists b rec, binding row = Some b /\
    In (Ev (ReadDemand (StoreKey b) (key_JobID (row_Demand row))) (Some rec)) h /\ ok rec.

Definition demandCompleted (h : Wires) (row : InstanceRow) : Prop :=
  demandRead h row (fun rec => dr_Status rec = DemandJobCompleted).

(** No job is recorded as executing on the runner of the row. *)
Definition runnerIdle (h : Wires) (row : InstanceRow) : Prop :=
  exists b, binding row = Some b /\ In (Ev (RunnerActiveJob (StoreKey b) (row_ID row)) (Some false)) h.

Definition absentFrom (h : Wires) (row : InstanceRow) : Prop :=
  In (Ev (SourceRegistered (sourceKey row) (row_ID row)) (Some false)) h.

(** The runner of the instance is gone, and so is its job. *)
Definition goneFromGitHub (h : Wires) (id : string) : Prop :=
  exists row, In (Ev (Direct (StateInstance id)) (inr row)) h /\
    In (Ev (SourceRegistered (sourceKey row) id) (Some false)) h /\
    (derivesInactivityFromRunnerAbsence (row_DrainPhase row) = true \/ demandCompleted h row).

(** What happened on the wires when a call of the executor got its answer. *)
Definition meaning (h : Wires) (ev : Event Call) : Prop :=
  match ev with
  | Ev (RunnerBusy row) (Some false) => runnerIdle h row
  | Ev (SafeToDeregister row) (Some true) =>
      row_DrainPhase row <> DrainPhaseStoppedRecovery -> demandCompleted h row
  | Ev (StartUnattributed row) (Some false) =>
      demandRead h row (fun rec => ~ (dr_Status rec = DemandJobStarted /\ dr_RunnerName rec = ""))
  | Ev (RunnerRegistered row) (Some false) => absentFrom h row
  | Ev (ConfirmDeletion id) (Some c) =>
      dc_RunnerInactive c = true -> dc_JobsInactive c = true -> goneFromGitHub h id
  | Ev (VMPower id) answer => In (Ev (Direct (VMPower id)) answer) h
  | Ev (Probe id) answer => In (Ev (Direct (Probe id)) answer) h
  | Ev (VMStop id own) ok => In (Ev (Direct (VMStop id own)) ok) h
  | Ev (VMTerminate id own) ok => In (Ev (Direct (VMTerminate id own)) ok) h
  | Ev (VMDestroy id own) ok => In (Ev (Direct (VMDestroy id own)) ok) h
  | _ => True
  end.

Definition wireStopped (h : Wires) (row : InstanceRow) : Prop :=
  In (Ev (Direct (VMStop (row_ID row) (row_Ownership row))) true) h \/
  In (Ev (Direct (VMTerminate (row_ID row) (row_Ownership row))) true) h \/
  In (Ev (Direct (VMDestroy (row_ID row) (row_Ownership row))) true) h \/
  exists p, ProvenIdle p = true /\ In (Ev (Direct (VMPower (row_ID row))) (Some p)) h.

(** The premise of a drain, phase by phase, on the wires. *)
Definition wirePremise (h : Wires) (row : InstanceRow) : Prop :=
  let phase := row_DrainPhase row in
  if phase =? DrainPhaseStoppedRecovery
  then exists p, ProvenIdle p = true /\ In (Ev (Direct (VMPower (row_ID row))) (Some p)) h
  else if phase =? DrainPhaseInactiveRecovery then absentFrom h row /\ demandCompleted h row
  else if (phase =? DrainPhaseStalledAssignment) || (phase =? DrainPhaseLingeringRunner)
  then runnerIdle h row /\
       demandRead h row (fun rec => ~ (dr_Status rec = DemandJobStarted /\ dr_RunnerName rec = ""))
  else if phase =? DrainPhaseGuestUnresponsive
  then In (Ev (Direct (Probe (row_ID row))) GuestLivenessRefused) h /\ wireStopped h row
  else if phase =? DrainPhaseProvisionStalled then runnerIdle h row
  else if phase =? DrainPhaseOccupancyBudget then wireStopped h row
  else runnerIdle h row /\ demandCompleted h row.

Definition wireLicensed (h : Wires) (ev : Event Wire) : Prop :=
  match ev with
  | Ev (SourceDeregister k id) _ =>
      exists row, k = sourceKey row /\ id = row_ID row /\ row_State row = InstanceDraining /\ wirePremise h row
  | Ev (Direct (VMDelete id _)) _ => goneFromGitHub h id
  | Ev (Direct (StateAdvance c)) _ =>
      sc_NextState c = InstanceDeregistering -> goneFromGitHub h (sc_InstanceID c)
  | _ => True
  end.

(** ** The executor over the router *)

Lemma demandRead_mono h h' row ok : incl h h' -> demandRead h row ok -> demandRead h' row ok.
Proof. intros Hi (b & rec & ? & ? & ?). exists b, rec. auto. Qed.

Lemma runnerIdle_mono h h' row : incl h h' -> runnerIdle h row -> runnerIdle h' row.
Proof. intros Hi (b & ? & ?). exists b. auto. Qed.

Lemma goneFromGitHub_mono h h' id : incl h h' -> goneFromGitHub h id -> goneFromGitHub h' id.
Proof.
  intros Hi (row & ? & ? & Hd). exists row. split_and!; [auto|auto|].
  destruct Hd; [by left|right; by eapply demandRead_mono].
Qed.

#[local] Hint Resolve demandRead_mono runnerIdle_mono goneFromGitHub_mono : fleet.

Lemma meaning_mono h h' ev : incl h h' -> meaning h ev -> meaning h' ev.
Proof.
  intros Hi. destruct ev as [X c x]. destruct c; simpl; try done; try apply Hi;
    destruct x as [[]|]; try done; unfold demandCompleted, absentFrom; eauto with fleet.
Qed.

(** What the executor has heard since it obtained its row is true on the wires. *)
Definition grounded (hE : History) (hF : Wires) : Prop :=
  forall ev, In ev (snd (known hE)) -> meaning hF ev.

Lemma grounded_snoc hE hF hF' ev :
  grounded hE hF -> incl hF hF' -> meaning hF' ev -> grounded (hE ++ [ev]) hF'.
Proof.
  intros Hg Hi Hm ev' Hin. rewrite known_snoc in Hin.
  assert (In ev' (snd (known hE) ++ [ev]) -> meaning hF' ev') as Hcase.
  { intros H. apply in_app_or in H as [H|[<-|[]]]; [|done]. by eapply meaning_mono, Hg. }
  destruct ev as [X c x]. destruct c; try by apply Hcase; destruct x; simpl in Hin; by try apply Hcase.
Qed.

(** An answer that claims nothing. *)
Ltac unsaid := split; [solve [apply incl_refl | assumption]|done].

Abbreviation wpw := (wp anyAnswer wireLicensed).

(** The answer is what it means, and nothing is forgotten. *)
Definition answers {X : Set} (c : Call X) (h h' : Wires) (x : X) : Prop := incl h h' /\ meaning h' (Ev c x).

Lemma wp_resolve h name (post : Wires -> option (InstanceRow * SourceBinding) -> Prop) :
  post h None ->
  (forall answer, post (h ++ [Ev (Direct (StateInstance name)) answer]) None) ->
  (forall row b, binding row = Some b -> post (h ++ [Ev (Direct (StateInstance name)) (inr row)]) (Some (row, b))) ->
  wpw h (resolve name) post.
Proof.
  intros H1 H2 H3. unfold resolve. destruct (_ || _); [done|]. intros answer _. split; [done|].
  destruct answer as [err|row]; [apply H2|]. simpl. destruct (binding row) eqn:B; simpl; [by apply H3|apply H2].
Qed.

Lemma wp_demand h b row (post : Wires -> option DemandRecord -> Prop) :
  (forall h', incl h h' -> post h' None) ->
  (forall rec, post (h ++ [Ev (ReadDemand (StoreKey b) (key_JobID (row_Demand row))) (Some rec)]) (Some rec)) ->
  wpw h (demand b row) post.
Proof.
  intros H1 H2. unfold demand. destruct (_ || _); [apply H1, incl_refl|]. intros record _. split; [done|].
  destruct record; [apply H2|]. apply H1. more.
Qed.

Lemma wp_completedDemand h b row (post : Wires -> option bool -> Prop) :
  binding row = Some b -> (forall h', incl h h' -> post h' None) ->
  (forall h' jobs, incl h h' -> (jobs = true -> demandCompleted h' row) -> post h' (Some jobs)) ->
  wpw h (completedDemand b row) post.
Proof.
  intros B H1 H2. apply wp_bind, wp_demand; [by apply H1|]. intros rec. apply H2; [more|].
  intros Hj. bool_to_prop. exists b, rec. split_and!; [done|heard|done].
Qed.

Lemma wp_Router_SafeToDeregister h row :
  wpw h (Router_SafeToDeregister row) (answers (SafeToDeregister row) h).
Proof.
  unfold Router_SafeToDeregister. destruct (binding row) as [b|] eqn:B; [|unsaid].
  destruct (row_DrainPhase row =? DrainPhaseStoppedRecovery) eqn:P2.
  { apply Z.eqb_eq in P2. intros registered _. split; [done|]. split; [more|].
    destruct registered as [[|]|]; simpl; [done|intros []; done|done]. }
  assert (forall h0, incl h h0 -> wpw h0 (completedDemand b row) (answers (SafeToDeregister row) h)) as Hc.
  { intros h0 Hi. apply wp_completedDemand; [done| |].
    - intros h' Hi'. split; [by eapply incl_tran|done].
    - intros h' jobs Hi' Hj. split; [by eapply incl_tran|]. destruct jobs; [|done]. intros _. by apply Hj. }
  destruct (row_DrainPhase row =? DrainPhaseInactiveRecovery); [|apply Hc, incl_refl].
  intros registered _. split; [done|]. destruct registered as [[|]|]; [|apply Hc; more|]; (split; [more|done]).
Qed.

Lemma wp_Router_ConfirmDeletion h id :
  wpw h (Router_ConfirmDeletion id) (answers (ConfirmDeletion id) h).
Proof.
  apply wp_bind, wp_resolve; [unsaid|intros; split; [more|done]|]. intros row b B registered _.
  split; [done|]. set (h1 := _ ++ [Ev (SourceRegistered _ _) registered]).
  assert (incl h h1) as Hi by (intros ev Hev; subst h1; heard).
  destruct registered as [reg|]; [|unsaid].
  assert (forall h' jobs, incl h1 h' ->
    (jobs = true -> reg = true \/ derivesInactivityFromRunnerAbsence (row_DrainPhase row) = true \/ demandCompleted h' row) ->
    wpw h' (confirmation (negb reg) jobs) (answers (ConfirmDeletion id) h)) as Hc.
  { intros h' jobs Hi' Hj now _. split; [done|]. split; [apply incl_appl; by eapply incl_tran|].
    intros Hr Hjobs. simpl in Hr, Hjobs. destruct reg; [done|].
    apply goneFromGitHub_mono with h'; [more|]. exists row. split_and!.
    - apply Hi'. subst h1. heard.
    - apply Hi'. subst h1. heard.
    - by destruct (Hj Hjobs) as [?|?]. }
  destruct (derivesInactivityFromRunnerAbsence (row_DrainPhase row)) eqn:D;
    [apply Hc; [apply incl_refl|by auto]|].
  apply wp_bind, wp_completedDemand; [done| |].
  - intros h' Hi'. split; [by eapply incl_tran|done].
  - intros h' jobs Hi' Hj. apply Hc; [done|by auto].
Qed.

(** The other questions are one step on the wires. *)
Lemma wp_Router_reads h row :
  wpw h (Router_RunnerRegistered row) (answers (RunnerRegistered row) h) /\
  wpw h (Router_RunnerBusy row) (answers (RunnerBusy row) h) /\
  wpw h (Router_StartUnattributed row) (answers (StartUnattributed row) h).
Proof.
  split_and!.
  - unfold Router_RunnerRegistered. destruct (binding row) as [b|] eqn:B; [|unsaid].
    intros answer _. split; [done|]. split; [more|]. destruct answer as [[|]|]; [done| |done]. simpl. unfold absentFrom. heard.
  - unfold Router_RunnerBusy. destruct (binding row) as [b|] eqn:B; [|unsaid].
    destruct (_ || _); [unsaid|]. intros answer _. split; [done|]. split; [more|].
    destruct answer as [[|]|]; [done| |done]. exists b. split; [done|]. heard.
  - unfold Router_StartUnattributed, spawningDemand. apply wp_bind. destruct (binding row) as [b|] eqn:B; [|unsaid].
    apply wp_demand; [intros h' Hi; by split|]. intros rec. split; [more|]. simpl.
    destruct (_ && _) eqn:U; [done|]. exists b, rec. split_and!; [done|heard|]. intros [H1 H2].
    rewrite H1, H2 in U. done.
Qed.

(** ** The licences carry over *)

Lemma wireStopped_grounded hE hF row :
  grounded hE hF -> guestStopped (snd (known hE)) row -> wireStopped hF row.
Proof.
  intros Hg [H|[H|[H|(p & Hp & H)]]]; apply Hg in H; unfold wireStopped; [auto|auto|auto|].
  right; right; right. by exists p.
Qed.

Lemma wirePremise_grounded hE hF row :
  grounded hE hF -> premise (snd (known hE)) row -> wirePremise hF row.
Proof.
  intros Hg. unfold premise, wirePremise.
  assert (forall ev, In ev (snd (known hE)) -> meaning hF ev) as Hm by exact Hg.
  destruct (row_DrainPhase row =? DrainPhaseStoppedRecovery) eqn:P2.
  { intros (p & Hp & H). exists p. split; [done|]. by apply Hm in H. }
  apply Z.eqb_neq in P2.
  destruct (_ =? DrainPhaseInactiveRecovery).
  { intros [H1 H2]. apply Hm in H1, H2. split; [done|by apply H2]. }
  destruct (_ || _); [intros [H1 H2]; by apply Hm in H1, H2|].
  destruct (_ =? DrainPhaseGuestUnresponsive).
  { intros [H1 H2]. apply Hm in H1. split; [done|by eapply wireStopped_grounded]. }
  destruct (_ =? DrainPhaseProvisionStalled); [intros H; by apply Hm in H|].
  destruct (_ =? DrainPhaseOccupancyBudget); [intros H; by eapply wireStopped_grounded|].
  intros [H1 H2]. apply Hm in H1, H2. split; [done|by apply H2].
Qed.

Lemma confirmed_gone e hE hF row :
  grounded hE hF -> deletionConfirmed e (snd (known hE)) row -> goneFromGitHub hF (row_ID row).
Proof.
  intros Hg (c & now & H & _ & Hs). apply Hg in H. unfold Safe in Hs. bool_to_prop. by apply H.
Qed.

Lemma wp_direct {X : Set} (c : Call X) hE hF :
  grounded hE hF -> (forall x, wireLicensed hF (Ev (Direct c) x)) ->
  (forall x, meaning (hF ++ [Ev (Direct c) x]) (Ev c x)) ->
  wpw hF (Do (Direct c) Ret) (fun hF' x => grounded (hE ++ [Ev c x]) hF').
Proof.
  intros Hg Hl Hm x _. split; [apply Hl|]. eapply grounded_snoc; [exact Hg|more|apply Hm].
Qed.

Lemma wp_answers {X : Set} (c : Call X) (p : Prog Wire X) hE hF :
  grounded hE hF -> wpw hF p (answers c hF) -> wpw hF p (fun hF' x => grounded (hE ++ [Ev c x]) hF').
Proof.
  intros Hg. apply wp_mono. intros hF' x [Hi Hm]. by eapply grounded_snoc.
Qed.

Lemma wp_Router_Registered h id : wpw h (Router_Registered id) (answers (Registered id) h).
Proof.
  apply wp_bind, wp_resolve; [unsaid|intros; split; [more|done]|]. intros row b _ answer _.
  split; [done|]. split; [|done]. intros ev Hev. heard.
Qed.

Lemma wp_Router_Deregister hE hF row :
  grounded hE hF -> row_State row = InstanceDraining -> premise (snd (known hE)) row ->
  wpw hF (Router_Deregister row) (answers (Deregister row) hF).
Proof.
  intros Hg Hs Hp. unfold Router_Deregister. destruct (binding row); [|unsaid].
  intros refusal _. split; [|split; [more|done]]. exists row. split_and!; [done..|].
  by eapply wirePremise_grounded.
Qed.

Lemma mayAdvance_wire e op hE hF row c :
  grounded hE hF -> mayAdvance e op (snd (known hE)) row c ->
  sc_NextState c = InstanceDeregistering -> goneFromGitHub hF (sc_InstanceID c).
Proof.
  intros Hg [(-> & _ & _ & Hd)|[(-> & _)|[(-> & _)|(ev & -> & _)]]] Hn; try done.
  by eapply confirmed_gone.
Qed.

(** Each call a drain is entitled to is carried out within the wires' licence. *)
Lemma route_implements e op (X : Set) (c : Call X) hE hF :
  grounded hE hF -> (forall x, licensed e op hE (Ev c x)) ->
  wpw hF (route X c) (fun hF' x => grounded (hE ++ [Ev c x]) hF').
Proof.
  intros Hg Hl. destruct c;
    try (by destruct (Hl true)); try (by destruct (Hl (true, None))); try (by destruct (Hl None));
    try (apply wp_direct; [done|done|intros; simpl; heard]).
  - apply wp_direct; [done| |done]. intros x. destruct (Hl x) as (row & _ & Hm).
    intros Hn. by eapply mayAdvance_wire.
  - apply wp_direct; [done| |done]. intros x. destruct (Hl x) as (row & _ & <- & _ & _ & Hd).
    by eapply confirmed_gone.
  - apply wp_answers; [done|apply wp_Router_Registered].
  - apply wp_answers; [done|apply wp_Router_SafeToDeregister].
  - apply wp_answers; [done|]. destruct (Hl None) as (_ & Hs & Hp). by eapply wp_Router_Deregister.
  - apply wp_answers; [done|apply wp_Router_ConfirmDeletion].
  - apply wp_answers; [done|apply wp_Router_reads].
  - apply wp_answers; [done|apply wp_Router_reads].
  - apply wp_answers; [done|apply wp_Router_reads].
Qed.

End Router.

(** ** The drain on the wires *)

Lemma drain_wires_licensed r e op (env : Env Wire) :
  guardedFrom (wireLicensed r) 0 (fst (run env [] (interp (route r) (Drain_Execute e op)))).
Proof.
  eapply (wp_run anyAnswer (wireLicensed r)); [done|by apply guardedFrom_refl|].
  eapply wp_interp with (rel := grounded r) (hE := []);
    [apply route_implements|by intros ? []|apply wp_Drain_Execute_licensed].
Qed.

(** A drain through the router rests on what GitHub and the durable demands
    say.  In every run of the composed program, when a runner is removed from
    its scale set the instance is draining and, by the phase of the drain, the
    scale set's demands show no job executing on that runner and its own demand
    completed; or the runner was seen unregistered; or the machine was seen
    powered off; or the guest refused its probe and was stopped; or its budget
    was spent and it was stopped.  The machine is deleted, and the row leaves
    draining, only after the runner was seen gone from the scale set that its
    row is bound to, with its job over unless the phase takes the runner's
    absence for it. *)
Theorem drain_through_router_is_grounded r e op (env : Env Wire) before ev after :
  fst (run env [] (interp (route r) (Drain_Execute e op))) = before ++ ev :: after ->
  wireLicensed r before ev.
Proof.
  intros Hrun. apply (drain_wires_licensed r e op env before ev after Hrun). lia.
Qed.

(** ** A drain on concrete wires *)

Definition boundRow : InstanceRow :=
  {| row_ID := "vm-3"; row_Repo := "org/app"; row_Platform := PlatformLinux; row_Profile := "small";
     row_Route := "small"; row_Resources := {| CPU := 2; MemoryMB := 4096; Slots := 1 |};
     row_Demand := {| key_Repo := "org/app"; key_RunID := 1; key_Attempt := 1; key_JobID := 7 |};
     row_Image := ""; row_State := InstanceDraining; row_Version := 3; row_DrainPhase := DrainPhaseEvent;
     row_Ownership := {| ControllerID := "fleet"; own_ResourceID := "job"; own_OperationID := "clone-3" |};
     row_LastError := ""; row_CreatedAt := midday; row_UpdatedAt := midday |}.

Definition boundOrder : DurableOperation :=
  {| do_ID := "drain-3"; do_IdempotencyKey := "key-3"; do_EffectKey := "deregister:vm-3";
     do_Kind := OperationDrainKind; do_ResourceID := "vm-3"; do_Payload := ""; do_Status := OperationClaimed;
     do_Attempts := 0; do_AvailableAt := midday; do_LeaseOwner := "worker"; do_LeaseUntil := midday;
     do_LastError := ""; do_CreatedAt := midday; do_UpdatedAt := midday; do_DependsOn := [] |}.

Definition oneSource : ControlRouter :=
  {| cr_State := true; cr_Demand := true;
     Sources := {[ ("org/app", "small") := {| StoreKey := 5; hasSource := true; directJIT := false |} ]} |}.

Definition completion : DemandEvent :=
  {| de_Kind := DemandJobCompleted; de_RunnerRequestID := 7; de_Owner := "org"; de_Repository := "app";
     de_WorkflowRunID := 1; de_JobID := "job-7"; de_DisplayName := "build"; de_WorkflowRef := "";
     de_EventName := "push"; de_Labels := Some ["small"]; de_QueueTime := midday; de_RunnerID := 3;
     de_RunnerName := "vm-3"; de_Result := "succeeded" |}.

(** A runner that is idle, whose job is over, and that goes when it is told to. *)
Definition quietWires : Env Wire := fun X h w =>
  match w in Wire X return X with
  | Direct c => obligingOn (setInstances emptyDb {[ "vm-3" := boundRow ]}) _ [] c
  | SourceRegistered _ _ => Some false
  | SourceDeregister _ _ => None
  | SourceAcquire _ _ _ _ | SourceGenerate _ _ _ => (false, None)
  | ReadDemand _ _ => Some (mergeDemandEvent (zeroRecord 5 7) completion midday)
  | RunnerActiveJob _ _ => Some false
  end.

Lemma drain_through_router_is_grounded_witness :
  let trace := fst (run quietWires [] (interp (route oneSource) (Drain_Execute fullExecutor boundOrder))) in
  trace = firstn 4 trace ++ Ev (SourceDeregister ("org/app", "small") "vm-3") None :: skipn 5 trace /\
  exists row, ("org/app", "small") = sourceKey row /\ "vm-3" = row_ID row /\
    row_State row = InstanceDraining /\ wirePremise oneSource (firstn 4 trace) row.
Proof.
  intros trace.
  assert (trace = firstn 4 trace ++ Ev (SourceDeregister ("org/app", "small") "vm-3") None :: skipn 5 trace) as Ht
    by (vm_compute; reflexivity).
  split; [exact Ht|].
  exact (drain_through_router_is_grounded oneSource fullExecutor boundOrder quietWires _ _ _ Ht).
Defined.
