(* ===== verification/Queue.v ===== *)
(** * The demand coordinator (internal/app/demand.go)

    Between the inbox and the scheduler stands the coordinator of demand.  It
    feeds broker messages and REST snapshots to the inbox, and turns the durable
    rows of a binding into the queue the scheduler plans: one demand for each
    logical job, oldest first, and no more of them than the broker's statistics
    say belong to this scale set.  Its store is the SQLite store, which has every
    optional interface, so the type assertions of the source succeed.  Each
    function is a program whose calls are the store's transactions. *)

From Stdlib Require Import ZArith Lia String List.
From stdpp Require Import base tactics list gmap strings pretty.
From S2P Require Import Prelude GoStrings Liveness Domain Corroboration PriorityPolicy Scheduler Operations Failure.
From S2P Require Import Effects Store Inbox Ports Projection Reconcile Bindings Router.

#[local] Open Scope prog_scope.

Inductive QueueCall : Set -> Type :=
  | QueueNow : QueueCall Time
  | Active (key : Z) : QueueCall (Answer (list DemandRecord))
  | StatisticsOf (key : Z) : QueueCall (Answer DemandStatistics)
  | PutStatistics (key : Z) (s : DemandStatistics) : QueueCall (Answer bool)
  | Batch (key message : Z) (events : list DemandEvent) : QueueCall (Answer DemandBatchResult)
  | Project (key : Z) (event : DemandEvent) : QueueCall Outcome
  | PutSnapshot (observedAt : Time) (jobs : gmap Z (list GitHubJobObservation)) : QueueCall (Answer bool)
  | ExpireGhosts (key : Z) (criteria : GhostDemandCriteria) : QueueCall (Answer Z)
  | ExpireOverdue (key : Z) (criteria : OverdueDemandCriteria) : QueueCall (Answer Z)
  | QueuedJobs (key : Z) : QueueCall (Answer (list GitHubJobObservation))
  | SweepRunners (key : Z) : QueueCall (list string * Outcome).

Record DemandCoordinator := {
  co_StatisticsMaxAge : Duration;
  co_GhostAbsence : Duration;
  co_StrictJobRouting : bool;
  co_ForeignSelectors : list ForeignScaleSetSelector;
  co_Priority : PriorityPolicy
}.

Definition defaultStatisticsMaxAge : Duration := 2 * Minute.
Definition defaultGhostAbsence : Duration := 15 * Minute.
Definition minGhostObservations : Z := 3.
Definition overdueDemandTTL : Duration := 48 * Hour.

Definition statisticsMaxAge (c : DemandCoordinator) : Duration :=
  if 0 <? co_StatisticsMaxAge c then co_StatisticsMaxAge c else defaultStatisticsMaxAge.

Definition ghostAbsence (c : DemandCoordinator) : Duration :=
  if 0 <? co_GhostAbsence c then co_GhostAbsence c else defaultGhostAbsence.

(** Statistics that may bound anything. *)
Definition currentStatistics (c : DemandCoordinator) (now : Time) (s : DemandStatistics) : bool :=
  negb (negb (DemandStatistics_Valid s) || IsZero (stat_ObservedAt s) || After (stat_ObservedAt s) now
        || (statisticsMaxAge c <? TimeSub now (stat_ObservedAt s))).

(** ** The queue of one binding *)

(** A queue, a queue without usable statistics, or an error. *)
Inductive QueueRead :=
  | Queued (demands : list Demand)
  | Degraded (demands : list Demand)
  | Unreadable (e : StoreError).

Definition queuedAt (r : DemandRecord) : Time :=
  if IsZero (dr_FirstQueueTime r) then dr_QueueTime r else dr_FirstQueueTime r.

Definition actionable (b : Binding) (r : DemandRecord) : bool :=
  bool_decide (dr_Status r = DemandJobAvailable) && accepts b (DemandRecord_Repo r) && acceptsLabels b (dr_Labels r).

Definition incomplete (r : DemandRecord) : bool :=
  (dr_RunnerRequestID r <=? 0) || (dr_WorkflowRunID r <=? 0) || bool_decide (dr_Owner r = "")
  || bool_decide (dr_Repository r = "") || IsZero (queuedAt r).

Definition logicalKeyOf (r : DemandRecord) : string :=
  if bool_decide (dr_LogicalKey r = "") then "request:" +:+ pretty (dr_RunnerRequestID r) else dr_LogicalKey r.

Definition supersedes (r previous : DemandRecord) : bool :=
  After (dr_UpdatedAt r) (dr_UpdatedAt previous)
  || (TimeEqual (dr_UpdatedAt r) (dr_UpdatedAt previous) && (dr_RunnerRequestID previous <? dr_RunnerRequestID r)).

Definition keepNewest (canonical : gmap string DemandRecord) (r : DemandRecord) : gmap string DemandRecord :=
  match canonical !! logicalKeyOf r with
  | Some previous => if supersedes r previous then <[logicalKeyOf r := r]> canonical else canonical
  | None => <[logicalKeyOf r := r]> canonical
  end.

(** The loop over the active rows. *)
Fixpoint canonicalize (b : Binding) (records : list DemandRecord) (canonical : gmap string DemandRecord)
    : Answer (gmap string DemandRecord) :=
  match records with
  | [] => inr canonical
  | r :: rest =>
      if negb (actionable b r) then canonicalize b rest canonical
      else if incomplete r then inl ErrUncertain
      else canonicalize b rest (keepNewest canonical r)
  end.

Definition olderRecord (a b : DemandRecord) : bool :=
  if TimeEqual (queuedAt a) (queuedAt b) then dr_RunnerRequestID a <? dr_RunnerRequestID b
  else Before (queuedAt a) (queuedAt b).

Definition selectedRecords (canonical : gmap string DemandRecord) : list DemandRecord :=
  sortBy olderRecord (map snd (map_to_list canonical)).

(** The loop that admits the oldest requests of either kind while its limit
    lasts. *)
Fixpoint boundedRecords (records : list DemandRecord) (normal preassigned : Z) : list DemandRecord :=
  match records with
  | [] => []
  | r :: rest =>
      if IsPreassignedRequestID (dr_RunnerRequestID r) then
        if preassigned =? 0 then boundedRecords rest normal preassigned
        else r :: boundedRecords rest normal (preassigned - 1)
      else if normal =? 0 then boundedRecords rest normal preassigned
      else r :: boundedRecords rest (normal - 1) preassigned
  end.

Definition event_ (name : string) : Domain.Event :=
  let name := lowered name in
  if bool_decide (name = "pull_request") || bool_decide (name = "pull_request_target")
     || bool_decide (name = "merge_group") then EventPullRequest
  else if bool_decide (name = "schedule") then EventSchedule else EventPush.

Definition convertDemandRecord (c : DemandCoordinator) (b : Binding) (r : DemandRecord) : Demand :=
  {| demand_Key := DemandRecord_DemandKey r; demand_CreatedAt := queuedAt r; demand_NotBefore := zeroTime;
     demand_Profile := profile_ID (b_Profile b); demand_Route := profile_Route (b_Profile b);
     demand_Platform := profile_Platform (b_Profile b); demand_Event := event_ (dr_EventName r);
     demand_RunStatus := RunQueued;
     demand_Priority := Classify (co_Priority c)
       {| facts_Repo := DemandRecord_Repo r; facts_WorkflowRef := dr_WorkflowRef r; facts_JobName := dr_DisplayName r |} |}.

Definition convertDemandRecords (c : DemandCoordinator) (b : Binding) (records : list DemandRecord) : list Demand :=
  map (convertDemandRecord c b) records.

Definition preassignedLimit (s : DemandStatistics) : Z := Z.max 0 (sub64 (stat_Assigned s) (stat_Running s)).

Definition QueuedDemands (c : DemandCoordinator) (b : Binding) : Prog QueueCall QueueRead :=
  if negb (Binding_valid b) then Ret (Unreadable ErrInvalid)
  else
    records <~ Active (durableKey b) ;;
    match records with
    | inl err => Ret (Unreadable err)
    | inr records =>
        match canonicalize b records ∅ with
        | inl err => Ret (Unreadable err)
        | inr canonical =>
            match selectedRecords canonical with
            | [] => Ret (Queued [])
            | selected =>
                statistics <~ StatisticsOf (durableKey b) ;;
                match statistics with
                | inl ErrNotFound => Ret (Degraded (convertDemandRecords c b selected))
                | inl err => Ret (Unreadable err)
                | inr s =>
                    now <~ QueueNow ;;
                    Ret (if currentStatistics c now s
                         then Queued (convertDemandRecords c b (boundedRecords selected (stat_Available s) (preassignedLimit s)))
                         else Degraded (convertDemandRecords c b selected))
                end
            end
        end
    end.

(** ** What a binding may claim of a shared queue *)

Definition restCorrelationKey (owner repository : string) (run : Z) (display : string) : string :=
  lowered owner +:+ "/" +:+ lowered repository +:+ nul +:+ pretty run +:+ nul +:+ display.

Definition restJobKey (id : Z) : string := "job" +:+ nul +:+ pretty id.

Definition observedShare (c : DemandCoordinator) (now : Time) (s : DemandStatistics) : Z :=
  if currentStatistics c now s
  then Z.max (sub64 (add64 (stat_Available s) (stat_Assigned s)) (stat_Running s)) 0 else 0.

Definition vouchedKeys (records : list DemandRecord) : gset string :=
  list_to_set (concat (map (fun r =>
    restCorrelationKey (dr_Owner r) (dr_Repository r) (dr_WorkflowRunID r) (dr_DisplayName r)
    :: (if 0 <? dr_WorkflowJobID r then [restJobKey (dr_WorkflowJobID r)] else [])) records)).

Definition vouchedFor (vouched : gset string) (j : GitHubJobObservation) : bool :=
  bool_decide (restCorrelationKey (gj_Owner j) (gj_Repository j) (gj_WorkflowRunID j) (gj_DisplayName j) ∈ vouched)
  || bool_decide (restJobKey (gj_WorkflowJobID j) ∈ vouched).

Definition olderJob (a b : GitHubJobObservation) : bool :=
  if TimeEqual (gj_CreatedAt a) (gj_CreatedAt b) then gj_WorkflowJobID a <? gj_WorkflowJobID b
  else Before (gj_CreatedAt a) (gj_CreatedAt b).

(** The vouched jobs, then the oldest contested ones up to the share. *)
Definition withinShare (share : Z) (vouched : gset string) (jobs : list GitHubJobObservation) : list GitHubJobObservation :=
  let kept := List.filter (vouchedFor vouched) jobs in
  let contested := sortBy olderJob (List.filter (fun j => negb (vouchedFor vouched j)) jobs) in
  kept ++ take (Z.to_nat (share - Z.of_nat (length kept))) contested.

Definition claimWithin (b : Binding) (jobs : list GitHubJobObservation) (share : Z)
    : Prog QueueCall (Answer (list GitHubJobObservation)) :=
  if Z.of_nat (length jobs) <=? share then Ret (inr jobs)
  else
    records <~ Active (durableKey b) ;;
    Ret (match records with
         | inl err => inl err
         | inr records => inr (withinShare share (vouchedKeys records) jobs)
         end).

Definition boundToOwnShare (c : DemandCoordinator) (b : Binding) (jobs : list GitHubJobObservation)
    : Prog QueueCall (Answer (list GitHubJobObservation)) :=
  match jobs with
  | [] => Ret (inr jobs)
  | _ =>
      statistics <~ StatisticsOf (durableKey b) ;;
      match statistics with
      | inr s => now <~ QueueNow ;; claimWithin b jobs (observedShare c now s)
      | inl ErrNotFound => claimWithin b jobs 0
      | inl err => Ret (inl err)
      end
  end.

(** ** A REST snapshot *)

Inductive ReconcileStage := StageInput | StageRouting | StageShare | StageCommit | StageExpiry.

Definition Reconciled : Set := bool * option (ReconcileStage * StoreError).

Abbreviation Observations := (gmap Z (list GitHubJobObservation)).

Definition observationOf (job : WorkflowJob) : GitHubJobObservation :=
  {| gj_WorkflowJobID := job_ID job; gj_Owner := job_Owner job; gj_Repository := job_Repository job;
     gj_WorkflowRunID := job_RunID job; gj_RunAttempt := job_RunAttempt job; gj_DisplayName := job_Name job;
     gj_WorkflowRef := ""; gj_Labels := job_Labels job; gj_Status := job_Status job;
     gj_CreatedAt := job_CreatedAt job; gj_QueueTimeExact := job_QueueTimeExact job |}.

Definition observe1 (job : WorkflowJob) (observations : Observations) (b : Binding) : Observations :=
  <[durableKey b := default [] (observations !! durableKey b) ++ [observationOf job]]> observations.

(** A job no binding takes that nothing proves to be another node's. *)
Definition unroutable (c : DemandCoordinator) (bindings : list Binding) (job : WorkflowJob) : bool :=
  co_StrictJobRouting c && containsFold (job_Labels job) selfHosted
  && negb (jobRequiresUnservedCapability bindings job)
  && negb (jobSelectsForeignSet (co_ForeignSelectors c) bindings job).

(** The loop over the jobs: the observations of every binding, and the bindings
    seen to share a job. *)
Fixpoint routeJobs (c : DemandCoordinator) (bindings : list Binding) (jobs : list WorkflowJob)
    (observations : Observations) (shared : gset Z) : Answer (Observations * gset Z) :=
  match jobs with
  | [] => inr (observations, shared)
  | job :: rest =>
      match matchingBindings bindings job with
      | inl err => inl err
      | inr [] => if unroutable c bindings job then inl ErrUncertain else routeJobs c bindings rest observations shared
      | inr matched =>
          routeJobs c bindings rest (fold_left (observe1 job) matched observations)
            (if (1 <? length matched)%nat then list_to_set (map durableKey matched) ∪ shared else shared)
      end
  end.

(** The loop that bounds the claims on shared queues. *)
Fixpoint boundShared (c : DemandCoordinator) (bindings : list Binding) (shared : gset Z) (observations : Observations)
    : Prog QueueCall (Answer Observations) :=
  match bindings with
  | [] => Ret (inr observations)
  | b :: rest =>
      if negb (b_SharedLabels b) && negb (bool_decide (durableKey b ∈ shared)) then boundShared c rest shared observations
      else
        bounded <~~ boundToOwnShare c b (default [] (observations !! durableKey b)) ;;
        match bounded with
        | inl err => Ret (inl err)
        | inr jobs => boundShared c rest shared (<[durableKey b := jobs]> observations)
        end
  end.

Definition ghostCriteria (c : DemandCoordinator) (observedAt : Time) : GhostDemandCriteria :=
  {| gc_ObservedAt := observedAt; gc_AbsentBefore := TimeAdd observedAt (- ghostAbsence c);
     gc_MinObservations := minGhostObservations |}.

Fixpoint expireEach (bindings : list Binding) (criteria : GhostDemandCriteria) (expired : bool)
    : Prog QueueCall (bool * option StoreError) :=
  match bindings with
  | [] => Ret (expired, None)
  | b :: rest =>
      count <~ ExpireGhosts (durableKey b) criteria ;;
      match count with
      | inl err => Ret (expired, Some err)
      | inr count => expireEach rest criteria (expired || (0 <? count))
      end
  end.

Definition expireGhostDemand (c : DemandCoordinator) (bindings : list Binding) (observedAt : Time)
    : Prog QueueCall (bool * option StoreError) :=
  expireEach bindings (ghostCriteria c observedAt) false.

Definition commitSnapshot (c : DemandCoordinator) (bindings : list Binding) (observedAt : Time) (observations : Observations)
    : Prog QueueCall Reconciled :=
  changed <~ PutSnapshot observedAt observations ;;
  match changed with
  | inl err => Ret (false, Some (StageCommit, err))
  | inr changed =>
      expired <~~ expireGhostDemand c bindings observedAt ;;
      Ret (changed || fst expired, option_map (pair StageExpiry) (snd expired))
  end.

Definition ReconcileQueuedJobs (c : DemandCoordinator) (bindings : list Binding) (observedAt : Time) (jobs : list WorkflowJob)
    : Prog QueueCall Reconciled :=
  if IsZero observedAt || negb (forallb Binding_valid bindings) then Ret (false, Some (StageInput, ErrInvalid))
  else
    match routeJobs c bindings jobs (list_to_map (map (fun b => (durableKey b, [])) bindings)) ∅ with
    | inl err => Ret (false, Some (StageRouting, err))
    | inr (observations, shared) =>
        bounded <~~ boundShared c bindings shared observations ;;
        match bounded with
        | inl err => Ret (false, Some (StageShare, err))
        | inr observations => commitSnapshot c bindings observedAt observations
        end
    end.

(** ** The tick's sweeps over the bindings *)

Fixpoint expireOverdueEach (bindings : list Binding) (criteria : OverdueDemandCriteria) (total : Z)
    : Prog QueueCall (Z * option StoreError) :=
  match bindings with
  | [] => Ret (total, None)
  | b :: rest =>
      count <~ ExpireOverdue (durableKey b) criteria ;;
      match count with
      | inl err => Ret (total, Some err)
      | inr count => expireOverdueEach rest criteria (add64 total count)
      end
  end.

Definition expireOverdueDemands (bindings : list Binding) (now : Time) : Prog QueueCall (Z * option StoreError) :=
  expireOverdueEach bindings {| oc_Now := now; oc_TTL := overdueDemandTTL |} 0.

Fixpoint sweepEach (bindings : list Binding) (drained : list string) : Prog QueueCall (list string * Outcome) :=
  match bindings with
  | [] => Ret (drained, None)
  | b :: rest =>
      answer <~ SweepRunners (durableKey b) ;;
      match answer with
      | (runners, Some err) => Ret (drained ++ runners, Some err)
      | (runners, None) => sweepEach rest (drained ++ runners)
      end
  end.

Definition drainCompletedRunners (bindings : list Binding) : Prog QueueCall (list string * Outcome) := sweepEach bindings [].

(** ** A broker message *)

Record JobEvent := {
  je_Kind : DemandEventKind;
  je_RunnerRequestID : Z;
  je_Owner : string;
  je_Repository : string;
  je_WorkflowRunID : Z;
  je_JobID : string;
  je_DisplayName : string;
  je_WorkflowRef : string;
  je_EventName : string;
  je_Labels : list string;
  je_QueueTime : Time;
  je_RunnerID : Z;
  je_RunnerName : string;
  je_Result : string
}.

Record BrokerMessage := { bm_MessageID : Z; bm_Statistics : DemandStatistics; bm_Events : list JobEvent }.

(** [append([]string(nil), labels...)] is nil for no labels. *)
Definition convertEvent (e : JobEvent) : DemandEvent :=
  {| de_Kind := je_Kind e; de_RunnerRequestID := je_RunnerRequestID e; de_Owner := je_Owner e;
     de_Repository := je_Repository e; de_WorkflowRunID := je_WorkflowRunID e; de_JobID := je_JobID e;
     de_DisplayName := je_DisplayName e; de_WorkflowRef := je_WorkflowRef e; de_EventName := je_EventName e;
     de_Labels := match je_Labels e with [] => None | labels => Some labels end; de_QueueTime := je_QueueTime e;
     de_RunnerID := je_RunnerID e; de_RunnerName := je_RunnerName e; de_Result := je_Result e |}.

Definition ownEvents (b : Binding) (events : list JobEvent) : list DemandEvent :=
  map convertEvent (List.filter (fun e =>
    accepts b (je_Owner e +:+ "/" +:+ je_Repository e) && acceptsLabels b (je_Labels e)) events).

Definition observedStatistics (s : DemandStatistics) (now : Time) : DemandStatistics :=
  {| stat_MessageID := stat_MessageID s; stat_Available := stat_Available s; stat_Acquired := stat_Acquired s;
     stat_Assigned := stat_Assigned s; stat_Running := stat_Running s; stat_Registered := stat_Registered s;
     stat_Busy := stat_Busy s; stat_Idle := stat_Idle s; stat_ObservedAt := now |}.

(** Every event is projected; the errors are joined. *)
Fixpoint projectEach (key : Z) (events : list DemandEvent) (errors : list StoreError)
    : Prog QueueCall (list StoreError) :=
  match events with
  | [] => Ret errors
  | e :: rest =>
      answer <~ Project key e ;;
      projectEach key rest (match answer with Some err => errors ++ [err] | None => errors end)
  end.

Definition applyMessage (b : Binding) (message : BrokerMessage) (changed : bool) : Prog QueueCall (bool * list StoreError) :=
  let events := ownEvents b (bm_Events message) in
  batch <~ Batch (durableKey b) (bm_MessageID message) events ;;
  match batch with
  | inl err => Ret (changed, [err])
  | inr batch =>
      errors <~~ projectEach (durableKey b) events [] ;;
      Ret (changed || Applied batch, errors)
  end.

(** The function handed to [source.Handle]: whether anything became durable, and
    the errors that keep the message unacknowledged. *)
Definition ingest (c : DemandCoordinator) (b : Binding) (message : BrokerMessage) : Prog QueueCall (bool * list StoreError) :=
  if 0 <? stat_MessageID (bm_Statistics message) then
    now <~ QueueNow ;;
    put <~ PutStatistics (durableKey b) (observedStatistics (bm_Statistics message) now) ;;
    match put with
    | inl err => Ret (false, [err])
    | inr changed => applyMessage b message changed
    end
  else applyMessage b message false.

(** ** The summary of a queue *)

Record QueueTier := { qt_Tier : string; qt_Rank : Z; qt_Count : Z; qt_Oldest : Time }.

Record QueueSummary_ := {
  qs_Count : Z;
  qs_Oldest : Time;
  qs_Delivered : Z;
  qs_Observed : Z;
  qs_Tiers : list QueueTier
}.

Record tierTally := { tt_rank : Z; tt_count : Z; tt_oldest : Time }.

Definition emptyTally : tierTally := {| tt_rank := 0; tt_count := 0; tt_oldest := zeroTime |}.

Definition tierTally_observe (t : tierTally) (rank : Z) (createdAt : Time) (exact : bool) : tierTally :=
  {| tt_rank := rank; tt_count := add64 (tt_count t) 1;
     tt_oldest := if exact && negb (IsZero createdAt) && (IsZero (tt_oldest t) || Before createdAt (tt_oldest t))
                  then createdAt else tt_oldest t |}.

Definition tally (lanes : gmap string tierTally) (p : Priority) (createdAt : Time) (exact : bool) : gmap string tierTally :=
  let name := PriorityTierName p in
  <[name := tierTally_observe (default emptyTally (lanes !! name)) (Rank p) createdAt exact]> lanes.

Definition mergeTier (name : string) (delivered : tierTally) (observed : option tierTally) : QueueTier :=
  match observed with
  | None => {| qt_Tier := name; qt_Rank := tt_rank delivered; qt_Count := tt_count delivered; qt_Oldest := tt_oldest delivered |}
  | Some o =>
      {| qt_Tier := name; qt_Rank := tt_rank delivered; qt_Count := Z.max (tt_count o) (tt_count delivered);
         qt_Oldest := if negb (IsZero (tt_oldest o)) && (IsZero (tt_oldest delivered) || Before (tt_oldest o) (tt_oldest delivered))
                      then tt_oldest o else tt_oldest delivered |}
  end.

Definition higherTier (a b : QueueTier) : bool :=
  if negb (qt_Rank a =? qt_Rank b) then qt_Rank b <? qt_Rank a else strLess (qt_Tier a) (qt_Tier b).

Definition queueTiers (c : DemandCoordinator) (executable : list Demand) (jobs : list GitHubJobObservation) : list QueueTier :=
  if negb (Declared (co_Priority c)) then []
  else
    let delivered := fold_left (fun lanes d => tally lanes (demand_Priority d) (demand_CreatedAt d) true) executable ∅ in
    let observed := fold_left (fun lanes j =>
      tally lanes (Classify (co_Priority c) {| facts_Repo := gj_Owner j +:+ "/" +:+ gj_Repository j;
                                               facts_WorkflowRef := gj_WorkflowRef j; facts_JobName := gj_DisplayName j |})
        (gj_CreatedAt j) (gj_QueueTimeExact j)) jobs ∅ in
    sortBy higherTier
      (map (fun lane : string * tierTally => mergeTier (fst lane) (snd lane) (observed !! fst lane)) (map_to_list delivered)
       ++ map (fun lane : string * tierTally => mergeTier (fst lane) (snd lane) None)
            (List.filter (fun lane : string * tierTally => bool_decide (delivered !! fst lane = None)) (map_to_list observed))).

Definition earliest (oldest createdAt : Time) : Time :=
  if IsZero oldest || Before createdAt oldest then createdAt else oldest.

Definition QueueSummary (c : DemandCoordinator) (b : Binding) (executable : list Demand)
    : Prog QueueCall (Answer QueueSummary_) :=
  let delivered := Z.of_nat (length executable) in
  let oldest := fold_left (fun t d => earliest t (demand_CreatedAt d)) executable zeroTime in
  jobs <~ QueuedJobs (durableKey b) ;;
  Ret (match jobs with
       | inl err => inl err
       | inr jobs =>
           let observed := Z.of_nat (length jobs) in
           inr {| qs_Count := Z.max observed delivered;
                  qs_Oldest := fold_left (fun t j => if gj_QueueTimeExact j then earliest t (gj_CreatedAt j) else t) jobs oldest;
                  qs_Delivered := delivered; qs_Observed := observed; qs_Tiers := queueTiers c executable jobs |}
       end).
