(* ===== verification/Advertise.v ===== *)
(** * What a scale set advertises (internal/app/advertise.go)

    GitHub fills a scale set up to the capacity it advertised on its last long
    poll.  A tick computes for every binding what the set holds and its share of
    what the node can still start, and each poll reads that view.  Beside it, the
    count of live instances per set (internal/app/scalesetinstances.go). *)

From Stdlib Require Import ZArith Lia String List.
From stdpp Require Import base tactics list gmap strings.
From S2P Require Import Prelude GoStrings Liveness Domain Scheduler Operations Failure.
From S2P Require Import Effects Headroom Store Inbox Ports Projection Bindings Queue.

#[local] Open Scope prog_scope.

Record ScaleSetHeadroom := {
  hr_StoreKey : Z;
  hr_Held : Z;
  hr_Fit : Z;
  hr_Placed : Z;
  hr_Gated : bool;
  hr_Stranded : bool
}.

Definition zeroHeadroom : ScaleSetHeadroom :=
  {| hr_StoreKey := 0; hr_Held := 0; hr_Fit := 0; hr_Placed := 0; hr_Gated := false; hr_Stranded := false |}.

Definition AdvertisedCapacity (configured : Z) (headroom : ScaleSetHeadroom) (known : bool) : Z :=
  if negb known then configured
  else
    let offered := add64 (Z.max 0 (hr_Held headroom)) (Z.max 0 (hr_Fit headroom)) in
    let offered :=
      if negb (hr_Gated headroom) && negb (hr_Stranded headroom)
      then Z.max offered (add64 (Z.max 0 (hr_Placed headroom)) 1) else offered in
    Z.max 0 (Z.min configured offered).

(** ** The view every poll reads *)

(** The zero value knows nothing. *)
Record ResidualAdvertisement := { ra_headroom : gmap Z ScaleSetHeadroom }.

Definition zeroAdvertisement : ResidualAdvertisement := {| ra_headroom := ∅ |}.

Definition viewOf (rows : list ScaleSetHeadroom) : gmap Z ScaleSetHeadroom :=
  fold_left (fun view row => <[hr_StoreKey row := row]> view) rows ∅.

(** Only a ready plan with a headroom replaces the view; [failed] is the error of
    the tick. *)
Definition Advertisement_Observe (a : ResidualAdvertisement) (status : PlanStatus) (headroom : option (list ScaleSetHeadroom))
    (failed : bool) : ResidualAdvertisement :=
  match failed, status, headroom with
  | false, PlanReady, Some rows => {| ra_headroom := viewOf rows |}
  | _, _, _ => a
  end.

Definition Advertisement_Capacity (a : ResidualAdvertisement) (storeKey configured : Z) : Z :=
  match ra_headroom a !! storeKey with
  | Some row => AdvertisedCapacity configured row true
  | None => AdvertisedCapacity configured zeroHeadroom false
  end.

(** ** The headroom of every binding *)

Definition updateDrainReason : string := "update drain".

(** A fresh host whose own guardrails admit work (inventory.go). *)
Definition hostHealthy (host : Observation Host) : bool :=
  Usable host && (AdmissionAllowed (host_Pressure (obs_Value host))
                  || bool_decide (AdmissionReason (host_Pressure (obs_Value host)) = updateDrainReason)).

(** GitHub's own count of the work it placed, where it is current. *)
Definition brokerHeld (c : DemandCoordinator) (b : Binding) : Prog QueueCall (Answer Z) :=
  statistics <~ StatisticsOf (durableKey b) ;;
  match statistics with
  | inl ErrNotFound => Ret (inr 0)
  | inl err => Ret (inl err)
  | inr s => now <~ QueueNow ;; Ret (inr (if currentStatistics c now s then stat_Assigned s else 0))
  end.

Definition placedOn (b : Binding) (instances : list Instance_) : Z :=
  Z.of_nat (length (List.filter (fun i =>
    HoldsAssignment i && bool_decide (inst_Profile i = profile_ID (b_Profile b)) && accepts b (inst_Repo i)) instances)).

Definition headroomRow (b : Binding) (input : Input) (held : gmap Z Z) (broker : Z) : ScaleSetHeadroom :=
  let placed := placedOn b (instancesOf input) in
  {| hr_StoreKey := durableKey b; hr_Held := Z.max (add64 (default 0 (held !! durableKey b)) placed) broker; hr_Fit := 0;
     hr_Placed := placed; hr_Gated := negb (hostHealthy (in_Host input));
     hr_Stranded := negb (FitsOnceLinuxDrains input (profile_ID (b_Profile b))) |}.

Definition claimOf (b : Binding) (row : ScaleSetHeadroom) (undelivered : gmap Z Z) : Headroom.Claim :=
  {| claim_Profile := profile_ID (b_Profile b);
     claim_Room := if 0 <? b_Capacity b then Z.max 0 (sub64 (b_Capacity b) (hr_Held row)) else maxInt64;
     claim_Waiting := default 0 (undelivered !! durableKey b) |}.

(** The loop over the bindings; one whose statistics cannot be read is left out. *)
Fixpoint headroomRows (c : DemandCoordinator) (bindings : list Binding) (input : Input) (held undelivered : gmap Z Z)
    (rows : list (ScaleSetHeadroom * Headroom.Claim)) : Prog QueueCall (list (ScaleSetHeadroom * Headroom.Claim)) :=
  match bindings with
  | [] => Ret rows
  | b :: rest =>
      broker <~~ brokerHeld c b ;;
      match broker with
      | inl _ => headroomRows c rest input held undelivered rows
      | inr broker =>
          let row := headroomRow b input held broker in
          headroomRows c rest input held undelivered (rows ++ [(row, claimOf b row undelivered)])
      end
  end.

Definition withFit (row : ScaleSetHeadroom) (fit : Z) : ScaleSetHeadroom :=
  {| hr_StoreKey := hr_StoreKey row; hr_Held := hr_Held row; hr_Fit := fit; hr_Placed := hr_Placed row;
     hr_Gated := hr_Gated row; hr_Stranded := hr_Stranded row |}.

(** The rows whose profile has a size, with their shares. *)
Fixpoint sizedRows (rows : list (ScaleSetHeadroom * Headroom.Claim)) (shares : list Z) : list ScaleSetHeadroom :=
  match rows, shares with
  | (row, _) :: rows, share :: shares =>
      if share =? Unsized then sizedRows rows shares else withFit row share :: sizedRows rows shares
  | _, _ => []
  end.

(** [None] is the panic of [PartitionHeadroom]; [Some None] is nil. *)
Definition scaleSetHeadroom (c : DemandCoordinator) (bindings : list Binding) (input : Input) (held undelivered : gmap Z Z)
    : Prog QueueCall (option (option (list ScaleSetHeadroom))) :=
  if negb (Usable (in_Instances input)) then Ret (Some None)
  else
    rows <~~ headroomRows c bindings input held undelivered [] ;;
    Ret (match PartitionHeadroom input (map snd rows) with
         | None => None
         | Some None => Some None
         | Some (Some shares) => Some (Some (sizedRows rows shares))
         end).

(** ** Live instances per set *)

Record ScopeInstance := {
  si_Scope : string;
  si_Profile : ProfileID;
  si_ScaleSetID : Z;
  si_Count : Z
}.

Definition scopeInstanceOf (instances : list Instance_) (b : Binding) : ScopeInstance :=
  {| si_Scope := b_Scope b; si_Profile := profile_ID (b_Profile b); si_ScaleSetID := b_ScaleSetID b;
     si_Count := Z.of_nat (length (List.filter (fun i =>
       Domain.Live i && bool_decide (inst_Profile i = profile_ID (b_Profile b))
       && existsb (fun target => bool_decide (target = inst_Repo i)) (b_Targets b)) instances)) |}.

Definition scopeInstanceLess (a b : ScopeInstance) : bool :=
  if negb (bool_decide (si_Scope a = si_Scope b)) then strLess (si_Scope a) (si_Scope b)
  else if negb (bool_decide (si_Profile a = si_Profile b)) then strLess (si_Profile a) (si_Profile b)
  else si_ScaleSetID a <? si_ScaleSetID b.

Definition ScaleSetInstances (bindings : list Binding) (instances : Observation (list Instance_)) : option (list ScopeInstance) :=
  match obs_State instances, bindings with
  | ObservationUnavailable, _ => None
  | _, [] => None
  | _, _ => Some (sortBy scopeInstanceLess (map (scopeInstanceOf (obs_Value instances)) bindings))
  end.
