(* ===== verification/HostProbe.v ===== *)
(** * The host as the scheduler sees it
      (internal/executor/host.go, internal/app/inventory.go)

    A probe measures the machine; the guardrails decide whether it may take more
    work; and [hostObservation] turns both into the scheduler's admission facts.
    A [float64] is the binary64 number of the standard library's specification of
    floating point, so products, quotients and comparisons round as Go's do. *)

From Stdlib Require Import ZArith Lia String List Floats.SpecFloat.
From stdpp Require Import base tactics list strings pretty.
From S2P Require Import Prelude GoStrings Liveness Domain Scheduler Advertise.

(** ** [float64] *)

Abbreviation float64 := spec_float (only parsing).

Definition floatOf (n : Z) : float64 := binary_normalize 53 1024 n 0 false.
Definition fmul (a b : float64) : float64 := SFmul 53 1024 a b.
Definition fdiv (a b : float64) : float64 := SFdiv 53 1024 a b.
Definition flt (a b : float64) : bool := SFltb a b.
Definition fle (a b : float64) : bool := SFleb a b.

(** [int(x)] truncates; of an infinity, a NaN or a value out of range the
    language leaves the result to the implementation. *)
Class FloatToInt := { unspecifiedInt : float64 -> Z }.

Definition intOf `{FloatToInt} (x : float64) : Z :=
  match x with
  | S754_zero _ => 0
  | S754_finite s m e =>
      let n := if 0 <=? e then Z.pos m * 2 ^ e else Z.pos m / 2 ^ (- e) in
      let n := if s then - n else n in
      if (minInt64 <=? n) && (n <=? maxInt64) then n else unspecifiedInt x
  | _ => unspecifiedInt x
  end.

(** ** The probe (internal/executor/host.go) *)

Inductive Freshness :=
  | ProbeFresh
  | ProbeStale
  | ProbeUnavailable
  | ProbeOther (s : string).

Definition freshnessText (f : Freshness) : string :=
  match f with
  | ProbeFresh => "fresh"
  | ProbeStale => "stale"
  | ProbeUnavailable => "unavailable"
  | ProbeOther s => s
  end.

Record HostSnapshot := {
  hs_Freshness : Freshness;
  hs_ObservedAt : Time;
  hs_AvailableMemoryMB : Z;
  hs_FreeDiskGB : Z;
  hs_FreeInodes : Z;
  hs_TotalInodes : Z;
  hs_SwapUsedMB : Z;
  hs_SwapOuts : Z;
  hs_CPUidlePercent : float64;
  hs_LoadAverage : float64;
  hs_SwapOutRatePerSecond : float64;
  hs_SwapOutRateObserved : bool;
  hs_PhysicalCPU : Z;
  hs_PhysicalMemoryMB : Z
}.

Record Guardrails := {
  MinFreeDiskGB : Z;
  MinFreeInodePercent : float64;
  MinAvailableMemoryMB : Z;
  MaxSwapUsedMB : Z;
  SwapOutPagesPerSecond : float64;
  MaxLoadAverage : float64;
  MinCPUidlePercent : float64
}.

Definition DefaultSwapOutPagesPerSecond : Z := 10.

Record AdmissionDecision := { Allowed : bool; Reason : string }.

Definition refused (reason : string) : AdmissionDecision := {| Allowed := false; Reason := reason |}.

Definition activelyPagingOut (g : Guardrails) (s : HostSnapshot) : bool :=
  if negb (hs_SwapOutRateObserved s) then true
  else
    let threshold :=
      if fle (SwapOutPagesPerSecond g) (floatOf 0) then floatOf DefaultSwapOutPagesPerSecond else SwapOutPagesPerSecond g in
    fle threshold (hs_SwapOutRatePerSecond s).

Definition inodesBelowFloor (g : Guardrails) (s : HostSnapshot) : bool :=
  if fle (MinFreeInodePercent g) (floatOf 0) || (hs_TotalInodes s <=? 0) then false
  else flt (fmul (floatOf (hs_FreeInodes s)) (floatOf 100)) (fmul (MinFreeInodePercent g) (floatOf (hs_TotalInodes s))).

Definition Evaluate (g : Guardrails) (s : HostSnapshot) (memoryMB : Z) : AdmissionDecision :=
  match hs_Freshness s with
  | ProbeFresh =>
      if memoryMB <? 0 then refused "invalid requested memory"
      else if hs_FreeDiskGB s <? MinFreeDiskGB g then refused "disk reserve"
      else if inodesBelowFloor g s then refused "inode reserve"
      else if sub64 (hs_AvailableMemoryMB s) memoryMB <? MinAvailableMemoryMB g then refused "memory reserve"
      else if (0 <? MaxSwapUsedMB g) && (MaxSwapUsedMB g <? hs_SwapUsedMB s) && activelyPagingOut g s
      then refused "swap pressure"
      else if flt (floatOf 0) (MaxLoadAverage g) && flt (MaxLoadAverage g) (hs_LoadAverage s)
              && flt (hs_CPUidlePercent s) (MinCPUidlePercent g)
      then refused "cpu pressure"
      else {| Allowed := true; Reason := "capacity available" |}
  | f => refused ("host observation " +:+ freshnessText f)
  end.

(** ** The admission facts (internal/app/inventory.go) *)

Definition zeroHost : Host :=
  {| host_Available := zeroResources; host_Capacity := zeroResources; host_Pressure := zeroHostPressure |}.

Section Observation.
Context `{FloatToInt}.

(** Whole free cores, truncated. *)
Definition idleCores (s : HostSnapshot) : Z :=
  let idle := hs_CPUidlePercent s in
  if fle idle (floatOf 0) then 0
  else
    let idle := if flt (floatOf 100) idle then floatOf 100 else idle in
    intOf (fdiv (fmul (floatOf (hs_PhysicalCPU s)) idle) (floatOf 100)).

Definition physicalCapacity (s : HostSnapshot) (capacity : Resources) (g : Guardrails) : Resources :=
  {| CPU := if 0 <? hs_PhysicalCPU s then hs_PhysicalCPU s else 0;
     MemoryMB := if 0 <? hs_PhysicalMemoryMB s then Z.max 0 (sub64 (hs_PhysicalMemoryMB s) (MinAvailableMemoryMB g)) else 0;
     Slots := Slots capacity |}.

(** The empty string when the machine can honour the budget. *)
Definition budgetExceedsHost (s : HostSnapshot) (g : Guardrails) (budget : Resources) : string :=
  if bool_decide (budget = zeroResources) then ""
  else if (0 <? hs_PhysicalCPU s) && (hs_PhysicalCPU s <? CPU budget) then
    "host budget of " +:+ pretty (CPU budget) +:+ " CPU exceeds the " +:+ pretty (hs_PhysicalCPU s)
    +:+ " physical cores this host has"
  else
    let usable := sub64 (hs_PhysicalMemoryMB s) (MinAvailableMemoryMB g) in
    if (0 <? hs_PhysicalMemoryMB s) && (usable <? MemoryMB budget) then
      "host budget of " +:+ pretty (MemoryMB budget) +:+ " MB memory exceeds the " +:+ pretty usable
      +:+ " MB this host can offer (" +:+ pretty (hs_PhysicalMemoryMB s) +:+ " MB physical less the "
      +:+ pretty (MinAvailableMemoryMB g) +:+ " MB reserve)"
    else "".

(** The pressure as it is reported, without its floating-point readings. *)
Definition pressureOf (s : HostSnapshot) (d : AdmissionDecision) : HostPressure :=
  {| AvailableMemoryMB := hs_AvailableMemoryMB s; FreeDiskGB := hs_FreeDiskGB s; SwapUsedMB := hs_SwapUsedMB s;
     SwapOuts := hs_SwapOuts s; SwapOutRateObserved := hs_SwapOutRateObserved s; AdmissionAllowed := Allowed d;
     AdmissionReason := Reason d; FreeInodes := hs_FreeInodes s; TotalInodes := hs_TotalInodes s |}.

Definition availableOf (s : HostSnapshot) (capacity : Resources) (g : Guardrails) (elastic : bool) : Resources :=
  let memory := sub64 (hs_AvailableMemoryMB s) (MinAvailableMemoryMB g) in
  if elastic then
    {| CPU := if 0 <? CPU (physicalCapacity s capacity g) then idleCores s else CPU capacity;
       MemoryMB := Z.max 0 memory; Slots := Slots capacity |}
  else {| CPU := CPU capacity; MemoryMB := Z.max 0 (Z.min memory (MemoryMB capacity)); Slots := Slots capacity |}.

Definition decisionOf (s : HostSnapshot) (g : Guardrails) (draining : bool) : AdmissionDecision :=
  let decision := Evaluate g s 0 in
  if draining && Allowed decision then refused updateDrainReason else decision.

Definition hostObservation (s : HostSnapshot) (capacity : Resources) (g : Guardrails) (elastic : bool) (budget : Resources)
    (draining : bool) : Observation Host :=
  match hs_Freshness s with
  | ProbeStale => Stale zeroHost (hs_ObservedAt s) "host probe is stale"
  | ProbeUnavailable => Unavailable zeroHost "host probe unavailable"
  | ProbeOther _ => Unavailable zeroHost "host probe freshness is invalid"
  | ProbeFresh =>
      let exceeded := budgetExceedsHost s g budget in
      if negb (bool_decide (exceeded = "")) then Unavailable zeroHost exceeded
      else
        let decision := decisionOf s g draining in
        let pressure := pressureOf s decision in
        if negb (Allowed decision) then
          Build_Observation ObservationFresh
            {| host_Available := zeroResources; host_Capacity := zeroResources; host_Pressure := pressure |}
            (hs_ObservedAt s) (Reason decision)
        else
          Fresh {| host_Available := availableOf s capacity g elastic;
                   host_Capacity := if elastic then physicalCapacity s capacity g else zeroResources;
                   host_Pressure := pressure |} (hs_ObservedAt s)
  end.

End Observation.
