(* ===== verification/HostSpec.v ===== *)
(** * What a host observation admits

    The observation made of a host probe, composed with the scheduler: a host that
    refuses admission offers nothing and no plan starts anything on it; and the
    readiness a node reports of itself is the verdict of its guardrails, not that of
    an update drain. *)

From Stdlib Require Import ZArith Lia String List Floats.SpecFloat.
From stdpp Require Import base tactics list gmap strings.
From S2P Require Import Prelude GoStrings Liveness Domain Scheduler Fixture Envelope Recovery Order Admission.
From S2P Require Import Passes Lanes PassSpec LaneSpec TickSpec Safety Advertise HostProbe.

(** ** An exhausted host *)

(** No envelope, aged or not, offers a slot the host does not have. *)
Lemma freeCapacity_slots input l aged :
  Slots (host_Available (obs_Value (in_Host input))) <= 0 -> Slots (freeCapacity input l aged) <= 0.
Proof.
  intros Ha. unfold freeCapacity.
  destruct (budgetBound_le (if ElasticHostEnvelope (in_Config input) then elasticFree input l (liveResources l) aged
    else staticFree input l) (HostBudget (in_Config input)) (liveResources l)) as (_ & _ & Hs).
  etransitivity; [exact Hs|]. destruct (ElasticHostEnvelope _).
  - unfold elasticFree. destruct (chargeAll _ _ _); [|done]. destruct aged; simpl; lia.
  - unfold staticFree. destruct (chargeAll _ _ _); [|done]. simpl. lia.
Qed.

Section Starved.
Context `{ContentAddress}.

Lemma starved_admits_nothing input insts queue sel :
  wellFormed input -> Slots (host_Available (obs_Value (in_Host input))) <= 0 ->
  positive_demands (in_Config input) sel ->
  Admits (wellFormed input) (withInstances input insts) queue sel -> sel = [].
Proof.
  intros W Ha Hp A. destruct (decide (sel = [])) as [->|Hne]; [done|].
  destruct (admits_fits _ _ _ _ A W) as [Hv _].
  destruct (Hv Hne) as (_ & _ & Hs). destruct (vsum_positive _ _ Hne Hp) as (_ & _ & H1).
  pose proof (freeCapacity_slots (withInstances input insts) (instancesOf (withInstances input insts)) true Ha) as H0.
  unfold linuxFreeAged in Hs. change (in_Config (withInstances input insts)) with (in_Config input) in Hs. lia.
Qed.

Lemma PlanTick_starved input p :
  wellFormed input -> Slots (host_Available (obs_Value (in_Host input))) <= 0 -> PlanTick input = Some p ->
  containsSpawn (plan_Operations p) = false.
Proof.
  intros W Ha E. apply noSpawn_filter. destruct (PlanTick_normal input p E) as [[-> _]|N]; [apply recoveries_noSpawn|].
  destruct N as (ds & sel1 & sel2 & sops1 & sops2 & insts1 & insts2 & deps & N).
  destruct (NormalForm_filters _ _ _ _ _ _ _ _ _ _ _ N) as (-> & _).
  destruct (NormalForm_positive _ _ _ _ _ _ _ _ _ _ W N) as [Hp1 Hp2].
  assert (sel1 = []) as -> by (eapply starved_admits_nothing; [done..|apply N]).
  assert (sel2 = []) as ->.
  { destruct (decide (sel2 = [])) as [|Hne]; [done|].
    destruct (nf_second _ _ _ _ _ _ _ _ _ _ _ N Hne) as (_ & _ & _ & _ & A & _).
    by eapply starved_admits_nothing. }
  pose proof (nf_spawns1 _ _ _ _ _ _ _ _ _ _ _ N) as H1. pose proof (nf_spawns2 _ _ _ _ _ _ _ _ _ _ _ N) as H2.
  inversion H1. by inversion H2.
Qed.
End Starved.

(** ** A host that refuses admission *)

Section Refusing.
Context `{ContentAddress} `{FloatToInt}.

Lemma decisionOf_refused s g draining :
  draining = true \/ Allowed (Evaluate g s 0) = false -> Allowed (decisionOf s g draining) = false.
Proof. unfold decisionOf. destruct draining, (Allowed (Evaluate g s 0)) eqn:E; naive_solver. Qed.

Lemma refused_offers_nothing s capacity g elastic budget draining :
  draining = true \/ Allowed (Evaluate g s 0) = false ->
  host_Available (obs_Value (hostObservation s capacity g elastic budget draining)) = zeroResources.
Proof.
  intros Hr. unfold hostObservation. destruct (hs_Freshness s); try done.
  cbv zeta. destruct (negb _); [done|]. by rewrite decisionOf_refused.
Qed.


(** ** Readiness *)

(** No guardrail gives the reason of an update drain. *)
Lemma Evaluate_reason s g : Reason (Evaluate g s 0) <> updateDrainReason.
Proof. unfold Evaluate. destruct (hs_Freshness s); repeat case_match; try discriminate. Qed.

(** A node is healthy exactly when its probe is fresh, its budget is one the machine
    can honour and its guardrails pass; an update drain does not make it unhealthy. *)
Lemma hostHealthy_guardrails s capacity g elastic budget draining :
  hostHealthy (hostObservation s capacity g elastic budget draining) = true <->
  hs_Freshness s = ProbeFresh /\ budgetExceedsHost s g budget = "" /\ Allowed (Evaluate g s 0) = true.
Proof.
  unfold hostObservation. destruct (hs_Freshness s); [|by split; [done|intros [? _]]..].
  cbv zeta. case_bool_decide as Hb; simpl; [|by split; [done|intros (_ & ? & _)]].
  pose proof (Evaluate_reason s g) as Hn. unfold decisionOf.
  destruct draining, (Allowed (Evaluate g s 0)) eqn:E; simpl; rewrite ?E; simpl.
  all: unfold hostHealthy; simpl; rewrite ?E; simpl; split; try done; try naive_solver.
  all: rewrite bool_decide_eq_true; done.
Qed.
End Refusing.

(** ** A quiet host *)

Module Probe.

#[export] Instance wrapping : FloatToInt := {| unspecifiedInt x := minInt64 |}.

Definition quiet : HostSnapshot :=
  {| hs_Freshness := ProbeFresh; hs_ObservedAt := Node.now; hs_AvailableMemoryMB := 20480; hs_FreeDiskGB := 100;
     hs_FreeInodes := 0; hs_TotalInodes := 0; hs_SwapUsedMB := 0; hs_SwapOuts := 0; hs_CPUidlePercent := floatOf 75;
     hs_LoadAverage := floatOf 1; hs_SwapOutRatePerSecond := floatOf 0; hs_SwapOutRateObserved := true;
     hs_PhysicalCPU := 12; hs_PhysicalMemoryMB := 32768 |}.

Definition guards : Guardrails :=
  {| MinFreeDiskGB := 20; MinFreeInodePercent := floatOf 5; MinAvailableMemoryMB := 4096; MaxSwapUsedMB := 2048;
     SwapOutPagesPerSecond := floatOf 0; MaxLoadAverage := floatOf 0; MinCPUidlePercent := floatOf 0 |}.

(** The mixed node of [Fixture] under the observation of that host. *)
Definition observedInput (draining : bool) : Input :=
  {| Now := Now Node.mixedInput; in_Config := in_Config Node.mixedInput; in_Demands := in_Demands Node.mixedInput;
     in_Instances := in_Instances Node.mixedInput;
     in_Host := hostObservation quiet (Node.vec 8 16384 4) guards false zeroResources draining; Prior := Prior Node.mixedInput |}.

End Probe.

#[local] Existing Instance Probe.wrapping.

