(* ===== verification/Releases.v ===== *)
(** * Releases (internal/autoupdate/controller.go, drain.go, prune.go)

    Version order, the release a node waits for, the releases it may delete, and the
    promotion of one generation over another.  Listings of the release directory,
    modification times and the steps of the host are what the operating system
    answers: arguments of the pure functions, calls of the promotion. *)

From Stdlib Require Import ZArith Lia String Ascii List Sorted Permutation.
From stdpp Require Import base tactics list gmap strings.
From S2P Require Import Prelude GoStrings Effects.

#[local] Open Scope prog_scope.

(** ** Versions *)

(** [strconv.Atoi]: an optional sign and decimal digits, in the range of [int]. *)
Definition digitOf (c : ascii) : option Z :=
  let n := Z.of_N (N_of_ascii c) in if (48 <=? n) && (n <=? 57) then Some (n - 48) else None.

Fixpoint decimal (value : Z) (s : bytes) : option Z :=
  match s with
  | [] => Some value
  | c :: rest => match digitOf c with Some d => decimal (10 * value + d) rest | None => None end
  end.

Definition unsigned (s : bytes) : option Z := match s with [] => None | _ => decimal 0 s end.

Definition Atoi (s : bytes) : option Z :=
  let number :=
    match s with
    | "-"%char :: rest => option_map Z.opp (unsigned rest)
    | "+"%char :: rest => unsigned rest
    | _ => unsigned s
    end in
  match number with
  | Some n => if (minInt64 <=? n) && (n <=? maxInt64) then Some n else None
  | None => None
  end.

Definition TrimPrefix (s prefix : bytes) : bytes := if HasPrefix s prefix then drop (length prefix) s else s.

Definition partNumber (part : bytes) : option Z :=
  match part, Atoi part with
  | [], _ | _, None => None
  | _, Some number => if number <? 0 then None else Some number
  end.

Definition parseVersion (value : string) : option (list Z) :=
  let core := TrimPrefix (hd [] (SplitOn "-" (hd [] (SplitOn "+" (bytesOf value))))) (bytesOf "v") in
  mapM partNumber (SplitOn "." core).

(** The loop over the components; a missing one is zero. *)
Fixpoint compareFrom (length : nat) (left right : list Z) : Z :=
  match length with
  | O => 0
  | S n =>
      let leftPart := hd 0 left in
      let rightPart := hd 0 right in
      if leftPart <? rightPart then -1
      else if rightPart <? leftPart then 1
      else compareFrom n (tl left) (tl right)
  end.

(** [None] is the error of a version that does not parse. *)
Definition compareVersions (left right : string) : option Z :=
  match parseVersion left, parseVersion right with
  | Some leftParts, Some rightParts => Some (compareFrom (Nat.max (length leftParts) (length rightParts)) leftParts rightParts)
  | _, _ => None
  end.

Definition laterThan (a b : string) : bool := match compareVersions a b with Some order => 0 <? order | None => false end.
Definition olderThan (a b : string) : bool := match compareVersions a b with Some order => order <? 0 | None => false end.

(** ** The release a node waits for (drain.go) *)

(** [listing] is what reading the release directory gives, [None] for an error or a
    missing reader. *)
Definition newerReleases (rootDir running : string) (listing : option (list string)) : list string :=
  if bool_decide (rootDir = "") || bool_decide (running = "") then []
  else
    match listing with
    | None => []
    | Some names => List.filter (fun name => negb (bool_decide (name = running)) && laterThan name running) names
    end.

Definition newestStep (newest name : string) : string :=
  if bool_decide (newest = "") then name else if laterThan name newest then name else newest.

Definition PendingCandidate (rootDir running : string) (listing : option (list string)) : bool * string :=
  let newest := fold_left newestStep (newerReleases rootDir running listing) "" in
  (negb (bool_decide (newest = "")), newest).

Definition earliestStep (modTime : string -> option Time) (earliest : Time) (name : string) : Time :=
  match modTime name with
  | Some at_ => if IsZero earliest || Before at_ earliest then at_ else earliest
  | None => earliest
  end.

(** [modTime] dates a release by its name; [None] is a missing reader. *)
Definition PendingSince (rootDir running : string) (listing : option (list string)) (modTime : option (string -> option Time)) : Time :=
  match modTime with
  | None => zeroTime
  | Some modTime => fold_left (earliestStep modTime) (newerReleases rootDir running listing) zeroTime
  end.

(** ** The releases a node may delete (prune.go) *)

Definition DefaultRetainedReleases : Z := 2.

Definition newestFirst (a b : string) : bool :=
  match compareVersions a b with Some order => 0 <? order | None => strLess b a end.

(** [sort.Slice] orders by [less] and promises nothing about elements it does not
    tell apart. *)
Class SliceSort := {
  sortSlice : (string -> string -> bool) -> list string -> list string;
  sortSlice_perm : forall less l, Permutation (sortSlice less l) l;
  sortSlice_sorted : forall less l,
    (forall a, In a l -> less a a = false) ->
    (forall a b c, In a l -> In b l -> In c l -> less a b = false -> less b c = false -> less a c = false) ->
    (forall a b, In a l -> In b l -> less a b = true -> less b a = false) ->
    StronglySorted (before less) (sortSlice less l)
}.

Section Prune.
Context {sorting : SliceSort}.

Definition versionsAmong (names : list string) (running : string) : list string :=
  List.filter (fun name => negb (bool_decide (name = "")) && bool_decide (is_Some (compareVersions name running))) names.

Definition sortVersionsNewestFirst (names : list string) : list string := sortSlice newestFirst names.

Definition keptReleases (versions : list string) (running current : string) (retain : Z) (referenced : list string) : gset string :=
  let newest := fold_left newestStep versions "" in
  let older := sortVersionsNewestFirst (List.filter (fun name => olderThan name running) versions) in
  {[running; newest]} ∪ list_to_set referenced ∪ (if bool_decide (current = "") then ∅ else {[current]})
  ∪ list_to_set (take (Z.to_nat retain) older).

Definition PrunableReleases (names : list string) (running current : string) (retain : Z) (referenced : list string) : list string :=
  if bool_decide (running = "") then []
  else
    let retain := if retain <? 0 then 0 else retain in
    let versions := versionsAmong names running in
    let kept := keptReleases versions running current retain referenced in
    rev (sortVersionsNewestFirst (List.filter (fun name => negb (bool_decide (name ∈ kept))) versions)).

(** [removes] says which directories the system removed. *)
Definition PruneReleases (rootDir running : string) (retain : Z) (referenced : list string) (listing : option (list string))
    (current : string) (removes : string -> bool) : list string :=
  if bool_decide (rootDir = "") || bool_decide (running = "") then []
  else
    match listing with
    | None => []
    | Some names => List.filter removes (PrunableReleases names running current retain referenced)
    end.
End Prune.

(** ** The promotion of a generation (controller.go) *)

Record Generation := {
  gen_Version : string;
  gen_Mode : string;
  gen_ReleaseDir : string;
  gen_ConfigPath : string;
  gen_Endpoint : string
}.

#[export] Instance Generation_eq_dec : EqDecision Generation.
Proof. solve_decision. Defined.

Definition IsAbs (path : string) : bool := HasPrefix (bytesOf path) (bytesOf "/").

Definition knownMode (mode : string) : bool :=
  bool_decide (mode = "observe") || bool_decide (mode = "shadow") || bool_decide (mode = "canary") || bool_decide (mode = "authority").

(** True when [validate] returns no error. *)
Definition Generation_validate (g : Generation) : bool :=
  negb (bool_decide (TrimSpace (bytesOf (gen_Version g)) = []) || negb (knownMode (gen_Mode g))
        || negb (IsAbs (gen_ReleaseDir g)) || negb (IsAbs (gen_ConfigPath g))
        || negb (HasPrefix (bytesOf (gen_Endpoint g)) (bytesOf "unix:///"))).

(** The host: [Current] answers nothing on an error, the steps whether they
    succeeded. *)
Inductive UpdateCall : Set -> Type :=
  | HostCurrent : UpdateCall (option Generation)
  | HostValidate : Generation -> UpdateCall bool
  | HostPrepare : Generation -> Generation -> UpdateCall bool
  | HostActivate : Generation -> UpdateCall bool
  | HostReady : Generation -> UpdateCall bool
  | HostCommit : Generation -> UpdateCall bool
  | HostRollback : Generation -> UpdateCall bool.

Inductive UpdateStep := StepActivate | StepReady | StepCommit.

(** A failure after activation says at which step, and whether the rollback that
    followed succeeded. *)
Inductive UpdateError :=
  | ErrInvalidGeneration
  | ErrReadInstalled
  | ErrInstalledInvalid
  | ErrModeChange
  | ErrDowngrade
  | ErrValidateCandidate
  | ErrPrepareUpdate
  | ErrRolledBack (step : UpdateStep) (restored : bool).

Definition rollback (current : Generation) (cause : UpdateStep) : Prog UpdateCall (option UpdateError) :=
  restored <~ HostRollback current ;; Ret (Some (ErrRolledBack cause restored)).

Definition configOnly (current candidate : Generation) : bool :=
  bool_decide (gen_Version current = gen_Version candidate) && bool_decide (gen_ReleaseDir current = gen_ReleaseDir candidate)
  && bool_decide (gen_Endpoint current = gen_Endpoint candidate).

Definition movesForward (current candidate : Generation) : bool :=
  match compareVersions (gen_Version current) (gen_Version candidate) with
  | None => false
  | Some order => negb ((0 <? order) || ((order =? 0) && negb (configOnly current candidate)))
  end.

Definition promote (current candidate : Generation) : Prog UpdateCall (option UpdateError) :=
  valid <~ HostValidate candidate ;;
  if negb valid then Ret (Some ErrValidateCandidate) else
  prepared <~ HostPrepare current candidate ;;
  if negb prepared then Ret (Some ErrPrepareUpdate) else
  activated <~ HostActivate candidate ;;
  if negb activated then rollback current StepActivate else
  ready <~ HostReady candidate ;;
  if negb ready then rollback current StepReady else
  committed <~ HostCommit candidate ;;
  if negb committed then rollback current StepCommit else Ret None.

(** [wired] is false for a missing host. *)
Definition Apply (wired : bool) (candidate : Generation) : Prog UpdateCall (option UpdateError) :=
  if negb wired then Ret (Some ErrInvalidGeneration)
  else if negb (Generation_validate candidate) then Ret (Some ErrInvalidGeneration)
  else
    installed <~ HostCurrent ;;
    match installed with
    | None => Ret (Some ErrReadInstalled)
    | Some current =>
        if negb (Generation_validate current) then Ret (Some ErrInstalledInvalid)
        else if bool_decide (current = candidate) then Ret None
        else if negb (bool_decide (gen_Mode current = gen_Mode candidate)) then Ret (Some ErrModeChange)
        else if negb (movesForward current candidate) then Ret (Some ErrDowngrade)
        else promote current candidate
    end.

(** ** What the release functions promise

    The version order is a total preorder on the versions that parse; the candidate a
    node waits for is a newest one; a prune never takes what a node runs, boots, waits
    for or may roll back to; and a promotion either completes or restores what was
    installed. *)

#[local] Open Scope prog_scope.

(** ** The order of versions *)

Lemma compareFrom_anti n : forall l r, compareFrom n r l = - compareFrom n l r.
Proof.
  induction n as [|n IH]; intros l r; simpl; [done|].
  destruct (Z.ltb_spec (hd 0 l) (hd 0 r)), (Z.ltb_spec (hd 0 r) (hd 0 l)); try lia. apply IH.
Qed.

Lemma compareFrom_extend k n : forall l r, (length l <= n)%nat -> (length r <= n)%nat -> compareFrom (n + k) l r = compareFrom n l r.
Proof.
  induction n as [|n IH]; intros l r Hl Hr; simpl.
  - destruct l, r; simpl in *; try lia. clear. induction k as [|k IH]; [done|]. simpl. exact IH.
  - rewrite IH; [done|destruct l; simpl in *; lia|destruct r; simpl in *; lia].
Qed.

Lemma compareFrom_trans n : forall a b c, compareFrom n a b <= 0 -> compareFrom n b c <= 0 -> compareFrom n a c <= 0.
Proof.
  induction n as [|n IH]; intros a b c; simpl; [lia|].
  destruct (Z.ltb_spec (hd 0 a) (hd 0 b)), (Z.ltb_spec (hd 0 b) (hd 0 a)), (Z.ltb_spec (hd 0 b) (hd 0 c)),
    (Z.ltb_spec (hd 0 c) (hd 0 b)), (Z.ltb_spec (hd 0 a) (hd 0 c)), (Z.ltb_spec (hd 0 c) (hd 0 a)); try lia. apply IH.
Qed.

(** [a] parses. *)
Definition isVersion (a : string) : Prop := is_Some (parseVersion a).

Lemma compareVersions_Some a b : is_Some (compareVersions a b) <-> isVersion a /\ isVersion b.
Proof.
  unfold compareVersions, isVersion. destruct (parseVersion a), (parseVersion b); split; try (intros [? ?]; done); try done.
Qed.

(** One comparison serves any number of versions at once. *)
Lemma compareVersions_at n a b l r :
  parseVersion a = Some l -> parseVersion b = Some r -> (length l <= n)%nat -> (length r <= n)%nat ->
  compareVersions a b = Some (compareFrom n l r).
Proof.
  intros Ea Eb Hl Hr. unfold compareVersions. rewrite Ea, Eb. f_equal.
  replace n with (Nat.max (length l) (length r) + (n - Nat.max (length l) (length r)))%nat by lia.
  symmetry. apply compareFrom_extend; lia.
Qed.

Lemma laterThan_irrefl a : laterThan a a = false.
Proof.
  unfold laterThan, compareVersions. destruct (parseVersion a) as [l|]; [|done].
  pose proof (compareFrom_anti (Nat.max (length l) (length l)) l l). apply Z.ltb_ge. lia.
Qed.

Lemma laterThan_anti a b : olderThan a b = laterThan b a.
Proof.
  unfold laterThan, olderThan, compareVersions. destruct (parseVersion a) as [l|], (parseVersion b) as [r|]; try done.
  rewrite Nat.max_comm, (compareFrom_anti _ r l).
  destruct (Z.ltb_spec (- compareFrom (Nat.max (length r) (length l)) r l) 0),
    (Z.ltb_spec 0 (compareFrom (Nat.max (length r) (length l)) r l)); lia.
Qed.

Lemma laterThan_asym a b : laterThan a b = true -> laterThan b a = false.
Proof.
  rewrite <- (laterThan_anti a b). unfold laterThan, olderThan. destruct (compareVersions a b); [|done].
  rewrite Z.ltb_lt, Z.ltb_ge. lia.
Qed.

Lemma laterThan_cotrans a b c :
  isVersion b -> laterThan a b = false -> laterThan b c = false -> laterThan a c = false.
Proof.
  intros [m Eb]. unfold laterThan. destruct (parseVersion a) as [l|] eqn:Ea; [|unfold compareVersions; by rewrite Ea].
  destruct (parseVersion c) as [r|] eqn:Ec; [|unfold compareVersions; by rewrite Ea, Ec].
  set (n := (length l + length m + length r)%nat).
  rewrite (compareVersions_at n a b l m), (compareVersions_at n b c m r), (compareVersions_at n a c l r) by (done || lia).
  rewrite !Z.ltb_ge. apply compareFrom_trans.
Qed.

Lemma laterThan_versions a b : laterThan a b = true -> isVersion a /\ isVersion b.
Proof. unfold laterThan. intros E. apply compareVersions_Some. destruct (compareVersions a b); [eauto|done]. Qed.

(** Strictly later than [b], and [b] at least [c]. *)
Lemma laterThan_trans a b c : isVersion c -> laterThan a b = true -> laterThan c b = false -> laterThan a c = true.
Proof.
  intros Hc H1 H2. destruct (laterThan a c) eqn:E; [done|]. rewrite <- H1. symmetry. by apply (laterThan_cotrans a c b).
Qed.

Lemma version_nonempty a : isVersion a -> a <> "".
Proof. intros [l E] ->. done. Qed.

(** ** The newest of a list *)

Section Newest.
Variable l : list string.
Hypothesis Hl : forall a, In a l -> isVersion a.

Lemma newestStep_from acc :
  acc = "" \/ isVersion acc ->
  let r := fold_left newestStep l acc in
  (r = "" <-> l = [] /\ acc = "") /\ (r <> "" -> r = acc \/ In r l) /\ (acc <> "" -> laterThan acc r = false) /\
  (forall a, In a l -> laterThan a r = false).
Proof.
  revert acc. induction l as [|x xs IH]; intros acc Ha; simpl.
  { split; [naive_solver|]. split; [by left|]. split; [|done]. intros _. apply laterThan_irrefl. }
  assert (isVersion x) as Hx by (apply Hl; by left). pose proof (version_nonempty x Hx) as Hn.
  assert (newestStep acc x <> "" /\ isVersion (newestStep acc x) /\ (newestStep acc x = acc \/ newestStep acc x = x) /\
    (acc <> "" -> laterThan acc (newestStep acc x) = false) /\ laterThan x (newestStep acc x) = false) as (S1 & S2 & S3 & S4 & S5).
  { unfold newestStep. case_bool_decide as Hacc; [split_and!; try done; [by right|apply laterThan_irrefl]|].
    destruct Ha as [->|Ha]; [done|]. destruct (laterThan x acc) eqn:E.
    - split_and!; try done; [by right|intros _; by apply laterThan_asym|apply laterThan_irrefl].
    - split_and!; try done; [by left|intros _; apply laterThan_irrefl]. }
  destruct (IH (fun a H => Hl a (or_intror H)) (newestStep acc x) (or_intror S2)) as (R1 & R2 & R3 & R4).
  set (r := fold_left newestStep xs (newestStep acc x)) in *.
  split; [split; [intros E; by apply R1 in E as [_ E]|by intros [? _]]|].
  split; [intros Hr; destruct (R2 Hr) as [->|?]; [destruct S3 as [->| ->]; auto|auto]|].
  split; [intros Hacc; eapply laterThan_cotrans; [exact S2|by apply S4|by apply R3]|].
  intros a [<-|Ha']; [|by apply R4]. eapply laterThan_cotrans; [exact S2|exact S5|by apply R3].
Qed.
End Newest.

Lemma newerReleases_In rootDir running names a :
  In a (newerReleases rootDir running (Some names)) -> In a names /\ laterThan a running = true.
Proof.
  unfold newerReleases. destruct (_ || _); [done|]. intros Ha. apply List.filter_In in Ha as [Ha E].
  apply andb_true_iff in E as [_ E]. done.
Qed.

(** The candidate is a release on disk, later than the running one, and none on disk
    is later. *)
Lemma PendingCandidate_newest rootDir running listing candidate :
  PendingCandidate rootDir running listing = (true, candidate) ->
  exists names, listing = Some names /\ In candidate names /\ laterThan candidate running = true /\
    forall a, In a names -> laterThan a candidate = false.
Proof.
  unfold PendingCandidate. intros [= Hn <-]. apply negb_true_iff, bool_decide_eq_false_1 in Hn.
  destruct listing as [names|]; [|unfold newerReleases in Hn; by destruct (_ || _)].
  exists names. split; [done|]. set (l := newerReleases rootDir running (Some names)) in *.
  assert (forall a, In a l -> isVersion a) as Hl.
  { intros a Ha. apply newerReleases_In in Ha as [_ Ha]. apply (laterThan_versions _ _ Ha). }
  destruct (newestStep_from l Hl "" (or_introl eq_refl)) as (_ & R2 & _ & R4). destruct (R2 Hn) as [?|Hr]; [done|].
  destruct (newerReleases_In _ _ _ _ Hr) as [Hin Hlater]. split_and!; [done..|].
  intros a Ha. destruct (laterThan a (fold_left newestStep l "")) eqn:E; [|done]. rewrite <- E. apply R4.
  unfold l, newerReleases in *. destruct (_ || _); [done|]. apply List.filter_In. split; [done|].
  assert (laterThan a running = true) as Hlate.
  { destruct (laterThan_versions _ _ E) as [_ Hv]. destruct (laterThan_versions _ _ Hlater) as [_ Hw].
    apply (laterThan_trans a (fold_left newestStep l "") running Hw E).
    apply laterThan_asym. exact Hlater. }
  rewrite Hlate, andb_true_r. apply negb_true_iff, bool_decide_eq_false_2. intros ->. by rewrite laterThan_irrefl in Hlate.
Qed.

(** ** What a prune keeps *)

Lemma filter_filter_length {A} (c g : A -> bool) l : (length (List.filter c (List.filter g l)) <= length (List.filter c l))%nat.
Proof. induction l as [|x l IH]; simpl; [done|]. destruct (g x); simpl; destruct (c x); simpl; lia. Qed.

Lemma filter_none {A} (c : A -> bool) l : (forall x, In x l -> c x = false) -> List.filter c l = [].
Proof. induction l as [|x l IH]; simpl; intros Hc; [done|]. rewrite (Hc x) by auto. auto. Qed.

Lemma in_take {A} n (l : list A) x : In x (take n l) -> In x l.
Proof. intros Hx. rewrite <- (take_drop n l). apply in_app_iff. auto. Qed.

Lemma StronglySorted_rev {A} (R : A -> A -> Prop) l : StronglySorted R l -> StronglySorted (fun a b => R b a) (rev l).
Proof.
  induction 1 as [|x l S IH F]; simpl; [constructor|]. rewrite List.Forall_forall in F.
  assert (forall y, In y (rev l) -> R x y) as Hx by (intros y Hy; apply F; by apply in_rev).
  clear S F. induction IH as [|y l' S IH F]; simpl; [repeat constructor|]. constructor.
  - apply IH. intros z Hz. apply Hx. by right.
  - rewrite List.Forall_forall in *. intros z Hz. apply in_app_iff in Hz as [Hz|[<-|[]]]; [by apply F|]. apply Hx. by left.
Qed.

Lemma StronglySorted_split {A} (R : A -> A -> Prop) l1 l2 : StronglySorted R (l1 ++ l2) -> forall a b, In a l1 -> In b l2 -> R a b.
Proof.
  induction l1 as [|x l1 IH]; simpl; [done|]. intros S a b. apply StronglySorted_inv in S as [S F].
  intros [<-|Ha] Hb; [|by apply IH]. rewrite List.Forall_forall in F. apply F, in_app_iff. auto.
Qed.

(** Among all versions on disk the newest is the candidate the node waits for, when
    there is one: both loops take the first of the latest. *)
Lemma newest_agree running l : forall all newer,
  isVersion running -> (forall a, In a l -> isVersion a) -> (all = "" \/ isVersion all) ->
  (newer = "" /\ laterThan all running = false \/ newer = all /\ laterThan all running = true) ->
  let r := fold_left newestStep (List.filter (fun a => laterThan a running) l) newer in
  r = "" \/ r = fold_left newestStep l all.
Proof.
  intros all newer Hr Hl. revert all newer. induction l as [|x xs IH]; intros all newer Ha Hrel; simpl.
  { destruct Hrel as [[-> _]|[-> _]]; auto. }
  assert (isVersion x) as Hx by (apply Hl; by left).
  assert (newestStep all x = "" \/ isVersion (newestStep all x)) as Hs.
  { unfold newestStep. case_bool_decide; [by right|]. destruct (laterThan x all); [by right|done]. }
  assert (forall newer', (newer' = "" /\ laterThan (newestStep all x) running = false
                          \/ newer' = newestStep all x /\ laterThan (newestStep all x) running = true) ->
    let r := fold_left newestStep (List.filter (fun a => laterThan a running) xs) newer' in
    r = "" \/ r = fold_left newestStep xs (newestStep all x)) as Step
    by (intros newer' Hn; apply IH; [intros a Hin; apply Hl; by right|done..]).
  destruct (laterThan x running) eqn:Ex; simpl; apply Step; unfold newestStep in *.
  - destruct Hrel as [[-> Hn]|[-> Hn]]; [|case_bool_decide; [right; split; done|]; by destruct (laterThan x all); right].
    rewrite bool_decide_eq_true_2 by done. right. case_bool_decide; [done|].
    destruct Ha as [->|Ha]; [done|]. by rewrite (laterThan_trans x running all Ha Ex Hn).
  - destruct Hrel as [[-> Hn]|[-> Hn]].
    + left. case_bool_decide; [done|]. by destruct (laterThan x all).
    + right. case_bool_decide as He; [subst; by apply laterThan_versions in Hn as [[? ?] _]|].
      destruct (laterThan x all) eqn:E; [|done]. exfalso.
      assert (laterThan all running = false) as Hf; [|congruence].
      apply (laterThan_cotrans all x running Hx); [by apply laterThan_asym|done].
Qed.

Section Pruning.
Context {sorting : SliceSort}.
Variables (names : list string) (running current : string) (retain : Z) (referenced : list string).

Abbreviation versions := (versionsAmong names running).
Abbreviation kept := (keptReleases versions running current (if retain <? 0 then 0 else retain) referenced).
Abbreviation prunable := (PrunableReleases names running current retain referenced).

Lemma versionsAmong_In a : In a versions <-> In a names /\ isVersion a /\ isVersion running.
Proof.
  unfold versionsAmong. rewrite List.filter_In, andb_true_iff, negb_true_iff, bool_decide_eq_false, bool_decide_eq_true.
  rewrite compareVersions_Some. split; [naive_solver|]. intros (? & Ha & ?). split; [done|]. split; [|done].
  by apply version_nonempty.
Qed.

Lemma newestFirst_later a b : isVersion a -> isVersion b -> newestFirst a b = laterThan a b.
Proof.
  intros Ha Hb. unfold newestFirst, laterThan.
  destruct (proj2 (compareVersions_Some a b) (conj Ha Hb)) as [o ->]. done.
Qed.

Lemma sorted_versions l :
  (forall a, In a l -> isVersion a) -> StronglySorted (fun a b => laterThan b a = false) (sortVersionsNewestFirst l).
Proof.
  intros Hl. unfold sortVersionsNewestFirst.
  assert (StronglySorted (before newestFirst) (sortSlice newestFirst l)) as S.
  { apply sortSlice_sorted.
    - intros a Ha. rewrite newestFirst_later by auto. apply laterThan_irrefl.
    - intros a b c Ha Hb Hc. rewrite !newestFirst_later by auto. apply laterThan_cotrans. auto.
    - intros a b Ha Hb. rewrite !newestFirst_later by auto. apply laterThan_asym. }
  assert (forall a, In a (sortSlice newestFirst l) -> isVersion a) as Hs
    by (intros a Ha; apply Hl; eapply Permutation_in; [apply sortSlice_perm|exact Ha]).
  induction S as [|a s S IH F]; constructor.
  - apply IH. intros b Hb. apply Hs. by right.
  - rewrite List.Forall_forall in *. intros b Hb. rewrite <- newestFirst_later; [by apply F|apply Hs; by right|apply Hs; by left].
Qed.

Lemma prunable_In a : In a prunable <-> running <> "" /\ In a versions /\ a ∉ kept.
Proof.
  unfold PrunableReleases. case_bool_decide as Hr; [naive_solver|].
  rewrite <- in_rev. unfold sortVersionsNewestFirst. split.
  - intros Ha. apply (Permutation_in _ (sortSlice_perm _ _)) in Ha. apply List.filter_In in Ha as [? Hn].
    apply negb_true_iff, bool_decide_eq_false_1 in Hn. done.
  - intros (_ & ? & Hn). apply (Permutation_in _ (Permutation_sym (sortSlice_perm _ _))). apply List.filter_In.
    split; [done|]. by apply negb_true_iff, bool_decide_eq_false_2.
Qed.

Lemma kept_In a :
  a ∈ kept <-> a = running \/ a = fold_left newestStep versions "" \/ In a referenced \/ (current <> "" /\ a = current)
    \/ In a (take (Z.to_nat (if retain <? 0 then 0 else retain))
               (sortVersionsNewestFirst (List.filter (fun a => olderThan a running) versions))).
Proof.
  unfold keptReleases. cbv zeta. rewrite <- !list_elem_of_In. case_bool_decide; set_solver.
Qed.

(** A prunable release older than the running one leaves the full rollback headroom
    of releases at least as new. *)
Lemma prunable_headroom a :
  In a prunable -> olderThan a running = true ->
  retain <= Z.of_nat (length (List.filter
    (fun b => olderThan b running && negb (laterThan a b) && negb (bool_decide (b ∈ prunable))) names)).
Proof.
  intros Ha Ho. apply prunable_In in Ha as (Hr & Hv & Hk).
  set (n := Z.to_nat (if retain <? 0 then 0 else retain)).
  set (old := List.filter (fun a => olderThan a running) versions).
  set (s := sortVersionsNewestFirst old).
  assert (forall b, In b old -> isVersion b) as Hold
    by (intros b Hb; apply List.filter_In in Hb as [Hb _]; apply versionsAmong_In in Hb; tauto).
  assert (In a s) as Hs.
  { apply (Permutation_in _ (Permutation_sym (sortSlice_perm _ _))). unfold old. by apply List.filter_In. }
  assert (~ In a (take n s)) as Hnt by (intros Ht; apply Hk, kept_In; tauto).
  assert (In a (drop n s)) as Hd by (rewrite <- (take_drop n s), in_app_iff in Hs; tauto).
  assert (length (take n s) = n) as Hn.
  { rewrite length_take. assert (length (drop n s) <> 0%nat) by (destruct (drop n s); done). rewrite length_drop in *. lia. }
  set (cond := fun b => _). assert (length (List.filter cond (take n s)) = n) as Hc.
  { rewrite filter_all; [done|]. intros b Hb. unfold cond.
    assert (In b s) as Hbs by (rewrite <- (take_drop n s); apply in_app_iff; auto).
    pose proof (Permutation_in _ (sortSlice_perm _ _) Hbs) as Hb'.
    apply List.filter_In in Hb' as [_ ->]. simpl. apply andb_true_iff. split; apply negb_true_iff.
    - pose proof (sorted_versions old Hold) as S. fold s in S. rewrite <- (take_drop n s) in S.
      by apply (StronglySorted_split _ _ _ S).
    - apply bool_decide_eq_false_2. rewrite list_elem_of_In. intros Hp. apply prunable_In in Hp as (_ & _ & Hp).
      apply Hp, kept_In. tauto. }
  assert (length (List.filter cond s) = length (List.filter cond old)) as Hp
    by (apply Permutation_length, filter_perm, sortSlice_perm).
  assert (length (List.filter cond old) <= length (List.filter cond versions))%nat as H1 by apply filter_filter_length.
  assert (length (List.filter cond versions) <= length (List.filter cond names))%nat as H2 by apply filter_filter_length.
  rewrite <- (take_drop n s), List.filter_app, length_app, Hc in Hp.
  unfold n in *. destruct (Z.ltb_spec retain 0); lia.
Qed.

Lemma candidate_is_kept rootDir : snd (PendingCandidate rootDir running (Some names)) <> "" ->
  snd (PendingCandidate rootDir running (Some names)) ∈ kept.
Proof.
  intros Hn. apply kept_In. right. left. revert Hn. unfold PendingCandidate, newerReleases. simpl.
  destruct (_ || _) eqn:Er; [done|].
  destruct (decide (isVersion running)) as [Hr|Hr].
  - assert (List.filter (fun name => negb (bool_decide (name = running)) && laterThan name running) names
      = List.filter (fun a => laterThan a running) versions) as ->.
    { unfold versionsAmong. clear -Hr. induction names as [|a l IH]; simpl; [done|].
      destruct (laterThan a running) eqn:E.
      - destruct (laterThan_versions _ _ E) as [Ha _].
        assert (a <> running) by (intros ->; by rewrite laterThan_irrefl in E).
        pose proof (proj2 (compareVersions_Some a running) (conj Ha Hr)).
        rewrite (bool_decide_eq_false_2 (a = running)), (bool_decide_eq_false_2 (a = "")) by (done || by apply version_nonempty).
        rewrite bool_decide_eq_true_2 by done. simpl. by rewrite E, IH.
      - rewrite andb_false_r. destruct (_ && _); simpl; [by rewrite E|done]. }
    intros Hn. destruct (newest_agree running versions "" "" Hr) as [E|E]; [|by left|by left|done|exact E].
    intros a Ha. apply versionsAmong_In in Ha. tauto.
  - intros Hn. exfalso. apply Hn. rewrite filter_none; [done|]. intros a _.
    destruct (laterThan a running) eqn:E; [|by rewrite andb_false_r]. by destruct (laterThan_versions _ _ E).
Qed.

(** A prune never takes what a node needs, and takes the rest.  A release it may
    delete is on disk and is not the one that runs, not the one the boot link names,
    not one a service refers to and not the one the node waits to adopt; if it is older
    than the running one, at least [retain] older releases no older than it stay.
    Everything else on disk that is newer than the running release and is not a newest
    goes, and the oldest go first. *)
Theorem prune_keeps_what_a_node_needs rootDir :
  (forall a, In a prunable ->
     In a names /\ a <> running /\ a <> current /\ ~ In a referenced /\
     a <> snd (PendingCandidate rootDir running (Some names)) /\
     (olderThan a running = true ->
      retain <= Z.of_nat (length (List.filter
        (fun b => olderThan b running && negb (laterThan a b) && negb (bool_decide (b ∈ prunable))) names)))) /\
  (forall a b, In a names -> In b names -> laterThan a running = true -> laterThan b a = true -> a <> current ->
     ~ In a referenced -> In a prunable) /\
  StronglySorted (fun a b => laterThan a b = false) prunable.
Proof.
  split_and!.
  - intros a Ha. pose proof (prunable_headroom a Ha) as Hh. apply prunable_In in Ha as (Hr & Hv & Hk).
    rewrite kept_In in Hk. pose proof (proj1 (versionsAmong_In a) Hv) as (Hin & Hva & _).
    pose proof (version_nonempty a Hva) as Hne.
    split_and!; [done|tauto|intros ->; tauto|tauto| |done].
    intros E. destruct (decide (snd (PendingCandidate rootDir running (Some names)) = "")) as [E0|E0]; [congruence|].
    pose proof (candidate_is_kept rootDir E0) as Hc. rewrite <- E in Hc. by apply kept_In in Hc.
  - intros a b Ha Hb Hl Hlb Hc Hf. apply prunable_In.
    destruct (laterThan_versions _ _ Hl) as [Va Vr]. destruct (laterThan_versions _ _ Hlb) as [Vb _].
    split; [by apply version_nonempty|]. split; [by apply versionsAmong_In|]. rewrite kept_In.
    intros [->|[->|[?|[[_ ?]|Ht]]]]; try done.
    + by rewrite laterThan_irrefl in Hl.
    + destruct (newestStep_from versions (fun a H => proj1 (proj2 (proj1 (versionsAmong_In a) H))) "" (or_introl eq_refl))
        as (_ & _ & _ & R). rewrite R in Hlb; [done|]. by apply versionsAmong_In.
    + apply (in_take (Z.to_nat (if retain <? 0 then 0 else retain))) in Ht.
      apply (Permutation_in _ (sortSlice_perm _ _)), List.filter_In in Ht as [_ Ho].
      rewrite laterThan_anti in Ho. by rewrite (laterThan_asym _ _ Hl) in Ho.
  - unfold PrunableReleases. case_bool_decide; [constructor|]. apply StronglySorted_rev, sorted_versions.
    intros a Ha. apply List.filter_In in Ha as [Ha _]. apply versionsAmong_In in Ha. tauto.
Qed.
End Pruning.

(** ** A promotion *)

Definition isActivate (ev : Event UpdateCall) : bool := match ev with Ev (HostActivate _) _ => true | _ => false end.

Definition fails (ev : Event UpdateCall) : Prop :=
  match ev with
  | Ev (HostActivate _) ok | Ev (HostReady _) ok | Ev (HostCommit _) ok => ok = false
  | _ => False
  end.

Section Promotion.
Variable candidate : Generation.

(** What may precede a call that changes the installed generation. *)
Definition promotes (h : list (Event UpdateCall)) (ev : Event UpdateCall) : Prop :=
  match ev with
  | Ev (HostActivate g) _ =>
      g = candidate /\ exists current,
        In (Ev HostCurrent (Some current)) h /\ Generation_validate current = true /\ Generation_validate candidate = true /\
        gen_Mode current = gen_Mode candidate /\ movesForward current candidate = true /\
        In (Ev (HostValidate candidate) true) h /\ In (Ev (HostPrepare current candidate) true) h
  | Ev (HostCommit g) _ =>
      g = candidate /\ In (Ev (HostActivate candidate) true) h /\ In (Ev (HostReady candidate) true) h
  | Ev (HostRollback g) _ => In (Ev HostCurrent (Some g)) h /\ exists h' failure, h = h' ++ [failure] /\ fails failure
  | _ => True
  end.

(** How a promotion may end. *)
Definition promoted (h : list (Event UpdateCall)) (result : option UpdateError) : Prop :=
  match result with
  | None => h = [Ev HostCurrent (Some candidate)] \/ exists h', h = h' ++ [Ev (HostCommit candidate) true]
  | Some (ErrRolledBack _ restored) =>
      exists h' current, In (Ev HostCurrent (Some current)) h /\ h = h' ++ [Ev (HostRollback current) restored]
  | Some _ => existsb isActivate h = false
  end.

Lemma wp_rollback h current cause failure :
  In (Ev HostCurrent (Some current)) h -> fails failure ->
  wp anyAnswer promotes (h ++ [failure]) (rollback current cause) promoted.
Proof.
  intros Hc Hf restored _. split; [split; [apply in_app_iff; auto|by exists h, failure]|].
  exists (h ++ [failure]), current. split; [|done]. rewrite !in_app_iff. auto.
Qed.

Lemma wp_promote current :
  Generation_validate current = true -> Generation_validate candidate = true -> gen_Mode current = gen_Mode candidate ->
  movesForward current candidate = true ->
  wp anyAnswer promotes [Ev HostCurrent (Some current)] (promote current candidate) promoted.
Proof.
  intros Vc Vn Em Ef valid _. split; [done|]. destruct valid; [|done].
  intros prepared _. split; [done|]. destruct prepared; [|done].
  intros activated _. split; [split; [done|]; exists current; simpl; split_and!; auto|].
  destruct activated; cbn [negb]; [|apply wp_rollback; simpl; auto].
  intros ready _. split; [done|]. destruct ready; cbn [negb]; [|apply wp_rollback; simpl; auto].
  intros committed _. split; [simpl; auto 10|].
  destruct committed; cbn [negb]; [|apply wp_rollback; simpl; auto].
  right. eexists. reflexivity.
Qed.

(** C32: A promotion completes or restores what was installed.  Whatever the host
    answers, a candidate is activated only over a valid generation of the same mode
    that it moves forward, after the host validated it and staged both; it is committed
    only after it was activated and ready; a rollback restores the generation that was
    read as installed, and follows at once on the step that failed.  Without an error
    the last call is the commit, or the candidate was installed already; an error is
    either before any activation or ends with the rollback. *)
Theorem promotion_completes_or_restores env wired :
  let '(h, result) := run env [] (Apply wired candidate) in
  (forall before ev after, h = before ++ ev :: after -> promotes before ev) /\ promoted h result.
Proof.
  destruct (run env [] (Apply wired candidate)) as [h result] eqn:E.
  assert (wp anyAnswer promotes [] (Apply wired candidate) promoted) as W.
  { unfold Apply. destruct wired; [|done]. cbn [negb]. destruct (Generation_validate candidate) eqn:Vn; [|done]. cbn [negb].
    intros [current|] _; (split; [done|]); [|done].
    destruct (Generation_validate current) eqn:Vc; [|done]. cbn [negb]. case_bool_decide as Ec; [subst; by left|].
    case_bool_decide as Em; [|done]. cbn [negb]. destruct (movesForward current candidate) eqn:Ef; [|done].
    by apply wp_promote. }
  destruct (wp_run anyAnswer promotes env (Apply wired candidate) [] 0 promoted) as [Hp Hg];
    [done|apply (guardedFrom_refl _ [])|exact W|].
  rewrite E in Hp, Hg. split; [|exact Hp]. intros before ev after Eh. apply (Hg before ev after Eh). lia.
Qed.
End Promotion.

(** ** A stable sort is a slice sort *)

Section Stable.
Context (less : string -> string -> bool).

Lemma insertBy_sorted_on x l :
  (forall a b c, In a (x :: l) -> In b (x :: l) -> In c (x :: l) -> less a b = false -> less b c = false -> less a c = false) ->
  (forall a b, In a (x :: l) -> In b (x :: l) -> less a b = true -> less b a = false) ->
  StronglySorted (before less) l -> StronglySorted (before less) (insertBy less x l).
Proof.
  intros Ht Ha S. induction S as [|y l S IH F]; simpl; [repeat constructor|]. destruct (less y x) eqn:E.
  - constructor; [apply IH; [intros a b c ???; apply Ht; simpl in *; tauto|intros a b ??; apply Ha; simpl in *; tauto]|]. apply List.Forall_forall. intros z Hz.
    apply (Permutation_in _ (insertBy_perm less x l)) in Hz as [<-|Hz]; [apply Ha; simpl; auto|].
    rewrite List.Forall_forall in F. by apply F.
  - constructor; [by constructor|]. constructor; [done|]. rewrite List.Forall_forall in *. intros z Hz.
    apply (Ht z y x); simpl; auto. by apply F.
Qed.

Lemma sortBy_sorted_on l :
  (forall a b c, In a l -> In b l -> In c l -> less a b = false -> less b c = false -> less a c = false) ->
  (forall a b, In a l -> In b l -> less a b = true -> less b a = false) ->
  StronglySorted (before less) (sortBy less l).
Proof.
  induction l as [|x l IH]; intros Ht Ha; simpl; [constructor|].
  assert (forall a, In a (x :: sortBy less l) -> In a (x :: l)) as Hs
    by (intros a [<-|Hin]; [by left|right; by apply (sortBy_in less)]).
  apply insertBy_sorted_on; [intros a b c ???; apply Ht; auto|intros a b ??; apply Ha; auto|].
  apply IH; [intros a b c ???; apply Ht; by right|intros a b ??; apply Ha; by right].
Qed.
End Stable.

Definition stableSort : SliceSort.
Proof.
  refine {| sortSlice less l := sortBy less l; sortSlice_perm less l := sortBy_perm less l |}.
  intros less l _ Ht Ha. by apply sortBy_sorted_on.
Defined.

(** A node that runs 0.1.461, holds two rollbacks too many and three releases it never
    adopted, and boots one of the old ones. *)
Lemma prune_keeps_what_a_node_needs_witness :
  PrunableReleases (sorting := stableSort)
    ["v0.1.457"; "v0.1.458"; "v0.1.459"; "v0.1.460"; "v0.1.461"; "v0.1.462"; "v0.1.463"; "v0.1.464"; ".generation-7"]
    "v0.1.461" "v0.1.457" 2 ["v0.1.462"] = ["v0.1.458"; "v0.1.463"] /\
  forall a, In a (PrunableReleases (sorting := stableSort)
    ["v0.1.457"; "v0.1.458"; "v0.1.459"; "v0.1.460"; "v0.1.461"; "v0.1.462"; "v0.1.463"; "v0.1.464"; ".generation-7"]
    "v0.1.461" "v0.1.457" 2 ["v0.1.462"]) -> a <> "v0.1.461" /\ a <> "v0.1.464".
Proof.
  split; [vm_compute; reflexivity|]. intros a Ha.
  destruct (proj1 (prune_keeps_what_a_node_needs (sorting := stableSort) _ _ _ _ _ "/opt/fleet") a Ha) as (_ & H1 & _ & _ & H2 & _).
  split; [exact H1|]. intros E. apply H2. rewrite E. vm_compute. reflexivity.
Defined.
