(* ===== verification/UpdateDrain.v ===== *)
(** * The update drain (internal/autoupdate/drain.go, internal/daemon/updatedrain.go)

    A node that waits for an update stops admitting work for a bounded time, serves
    for a while when that was not enough, and tries again.  The state machine folds
    one tick at a time; the controller beside it reads the release directory and
    tells it whether, and since when, a newer release is waiting. *)

From Stdlib Require Import ZArith Lia String List.
From stdpp Require Import base tactics list strings.
From S2P Require Import Prelude GoStrings Releases.

Inductive DrainAction := DrainNone | DrainStart | DrainStop.

Record DrainPolicy := {
  dp_Enabled : bool;
  PendingFor : Duration;
  MaxWait : Duration;
  Cooldown : Duration
}.

Record DrainFacts := {
  df_At : Time;
  CandidatePending : bool;
  df_LiveInstances : Z;
  df_PendingSince : Time
}.

Record DrainState := {
  st_draining : bool;
  st_since : Time;
  st_cooldown : bool;
  st_observed : bool;
  st_pendingAt : Time
}.

(** [NewDrainState]; the policy is an argument of what follows. *)
Definition NewDrainState : DrainState :=
  {| st_draining := false; st_since := zeroTime; st_cooldown := false; st_observed := false; st_pendingAt := zeroTime |}.

Section Policy.
Variable policy : DrainPolicy.

Definition reset (s : DrainState) (at_ : Time) : DrainState :=
  {| st_draining := false; st_since := at_; st_cooldown := false; st_observed := st_observed s; st_pendingAt := st_pendingAt s |}.

Definition withPhase (s : DrainState) (draining cooldown : bool) (since : Time) : DrainState :=
  {| st_draining := draining; st_since := since; st_cooldown := cooldown; st_observed := st_observed s; st_pendingAt := st_pendingAt s |}.

Definition withPending (s : DrainState) (observed : bool) (pendingAt : Time) : DrainState :=
  {| st_draining := st_draining s; st_since := st_since s; st_cooldown := st_cooldown s; st_observed := observed;
     st_pendingAt := pendingAt |}.

Definition waitingSince (facts : DrainFacts) : Time :=
  if negb (IsZero (df_PendingSince facts)) && negb (After (df_PendingSince facts) (df_At facts)) then df_PendingSince facts
  else df_At facts.

(** The phase the wait has reached, and whether it is a drain. *)
Definition resume (s : DrainState) (facts : DrainFacts) : DrainState * bool :=
  let s := withPending s (st_observed s) (waitingSince facts) in
  let s := withPhase s (st_draining s) (st_cooldown s) (st_pendingAt s) in
  let elapsed := sub64 (TimeSub (df_At facts) (st_pendingAt s)) (PendingFor policy) in
  let cycle := add64 (MaxWait policy) (Cooldown policy) in
  if (elapsed <? 0) || (cycle <=? 0) then (s, false)
  else
    let offset := Z.rem elapsed cycle in
    if offset <? MaxWait policy then (withPhase s true (st_cooldown s) (TimeAdd (df_At facts) (sub64 0 offset)), true)
    else (withPhase s (st_draining s) true (TimeAdd (df_At facts) (sub64 (MaxWait policy) offset)), false).

(** What [Observe] does once a candidate is pending and its wait is dated. *)
Definition advanceDrain (s : DrainState) (at_ : Time) : DrainState * DrainAction :=
  if st_draining s then
    if MaxWait policy <=? TimeSub at_ (st_since s) then (withPhase s false true at_, DrainStop) else (s, DrainNone)
  else if st_cooldown s then
    if Cooldown policy <=? TimeSub at_ (st_since s) then (withPhase s (st_draining s) false at_, DrainNone) else (s, DrainNone)
  else if PendingFor policy <=? TimeSub at_ (st_pendingAt s) then (withPhase s true (st_cooldown s) at_, DrainStart)
  else (s, DrainNone).

Definition Drain_Observe (s : DrainState) (facts : DrainFacts) : DrainState * DrainAction :=
  if negb (dp_Enabled policy) then
    if st_draining s then (reset s (df_At facts), DrainStop) else (s, DrainNone)
  else if negb (CandidatePending facts) then
    let s := withPending s (st_observed s) zeroTime in
    if st_draining s then (reset s (df_At facts), DrainStop)
    else (withPhase s (st_draining s) false (st_since s), DrainNone)
  else if negb (st_observed s) || IsZero (st_pendingAt s) || Before (df_At facts) (st_pendingAt s) then
    let '(s, drains) := resume (withPending s true (st_pendingAt s)) facts in
    if drains then (s, DrainStart) else advanceDrain s (df_At facts)
  else advanceDrain s (df_At facts).

(** ** The controller of the daemon *)

Record UpdateController := {
  uc_state : DrainState;
  uc_pendingSince : Time;
  uc_candidate : string
}.

Definition newUpdateDrainController : UpdateController :=
  {| uc_state := NewDrainState; uc_pendingSince := zeroTime; uc_candidate := "" |}.

(** One tick's answers of the file system.  The directory is read once for the
    candidate and once more when its wait is dated. *)
Record Disk := {
  disk_first : option (list string);
  disk_second : option (list string);
  disk_modTime : option (string -> option Time)
}.

Definition Controller_Draining (c : UpdateController) : bool := st_draining (uc_state c).

Definition Controller_Observe (root running : string) (c : UpdateController) (disk : Disk) (at_ : Time) (live : Z)
    : UpdateController * DrainAction :=
  let '(pending, candidate) := PendingCandidate root running (disk_first disk) in
  let '(materialised, pendingSince) :=
    if negb pending then (zeroTime, zeroTime)
    else if IsZero (uc_pendingSince c) then
      let materialised := PendingSince root running (disk_second disk) (disk_modTime disk) in
      (materialised, if negb (IsZero materialised) && negb (After materialised at_) then materialised else at_)
    else (zeroTime, uc_pendingSince c) in
  let '(state, action) :=
    Drain_Observe (uc_state c)
      {| df_At := at_; CandidatePending := pending; df_LiveInstances := live; df_PendingSince := materialised |} in
  ({| uc_state := state; uc_pendingSince := pendingSince; uc_candidate := candidate |}, action).

End Policy.

(** ** What the update drain promises

    A drain is bounded and rests on a newer release that is on disk; a drain that was
    given up is followed by the full cooldown; and a daemon that restarts resumes the
    schedule that the date of the waiting release determines. *)

(** The bounds the configuration allows. *)
Record boundedPolicy (p : DrainPolicy) : Prop := {
  bp_pending : Minute <= PendingFor p <= 24 * Hour;
  bp_wait : Minute <= MaxWait p <= 24 * Hour;
  bp_cooldown : Minute <= Cooldown p <= 24 * Hour
}.

Ltac durations := unfold int64, Hour, Minute, Second, minInt64, maxInt64 in *.

Section Bounded.
Variable policy : DrainPolicy.
Hypothesis Hp : boundedPolicy policy.

Lemma TimeSub_before t u d : u <= t -> 0 <= d <= 24 * Hour -> (d <=? TimeSub t u) = (u + d <=? t).
Proof. intros Ht Hd. durations. unfold TimeSub. destruct (Z.leb_spec d (Z.max minInt64 (Z.min maxInt64 (t - u)))), (Z.leb_spec (u + d) t); durations; lia. Qed.

(** What holds between two ticks, the last one at [t]. *)
Record between (s : DrainState) (t : Time) : Prop := {
  bt_pending : st_pendingAt s <= t;
  bt_since : st_since s <= t;
  bt_drains : st_draining s = true ->
    st_observed s = true /\ st_pendingAt s <> 0 /\ st_cooldown s = false /\ t < st_since s + MaxWait policy;
  bt_fresh : st_observed s = false \/ st_pendingAt s = 0 -> st_cooldown s = false
}.

Lemma waitingSince_le facts : waitingSince facts <= df_At facts.
Proof.
  unfold waitingSince, After. destruct (_ && _) eqn:E; [|lia]. bool_to_prop. lia.
Qed.

Lemma cycle_exact : add64 (MaxWait policy) (Cooldown policy) = MaxWait policy + Cooldown policy.
Proof. destruct Hp as [_ H1 H2]. apply add64_exact. durations. lia. Qed.

Lemma rem_bound e c : 0 <= e -> 0 < c -> 0 <= Z.rem e c < c.
Proof. intros. apply Z.rem_bound_pos; lia. Qed.

Lemma neg_exact x : 0 <= x <= 48 * Hour -> sub64 0 x = - x.
Proof. intros. unfold sub64. rewrite wrap64_id; durations; lia. Qed.

Lemma rest_exact x : 0 <= x <= 48 * Hour -> sub64 (MaxWait policy) x = MaxWait policy - x.
Proof. intros. destruct Hp as [_ H1 _]. unfold sub64. rewrite wrap64_id; durations; lia. Qed.

(** A wait that is dated anew while the node serves. *)
Lemma resume_phase s facts :
  st_draining s = false -> st_cooldown s = false ->
  let '(s', drains) := resume policy s facts in
  st_pendingAt s' = waitingSince facts /\ st_observed s' = st_observed s /\ st_draining s' = drains /\
  (if drains then st_cooldown s' = false /\ st_since s' <= df_At facts < st_since s' + MaxWait policy
   else st_since s' <= df_At facts /\ (st_cooldown s' = true -> df_At facts < st_since s' + Cooldown policy)).
Proof.
  intros Hd Hc. unfold resume. simpl. rewrite Hd, Hc, cycle_exact. pose proof (waitingSince_le facts) as Hw.
  destruct Hp as [H1 H2 H3].
  destruct (_ || _) eqn:E; simpl; [rewrite ?Hd, ?Hc; split_and!; try done; lia|].
  apply orb_false_iff in E as [E1 E2]. apply Z.ltb_ge in E1. apply Z.leb_gt in E2.
  pose proof (rem_bound _ _ E1 E2) as Ho. set (offset := Z.rem _ _) in *.
  assert (0 <= offset <= 48 * Hour) as Hr by (durations; lia).
  destruct (Z.ltb_spec offset (MaxWait policy)); simpl; unfold TimeAdd.
  - rewrite (neg_exact offset Hr). split_and!; try done; lia.
  - rewrite (rest_exact offset Hr). split_and!; try done; lia.
Qed.

Lemma waitingSince_dated facts : 0 < df_At facts -> waitingSince facts <> 0.
Proof. intros Ha. unfold waitingSince, IsZero. destruct (_ && _) eqn:E; [|lia]. bool_to_prop. lia. Qed.

(** The machine once the wait is dated: a drain ends at its bound or goes on with the
    same start; a cooldown lasts its bound; otherwise a drain may start now. *)
Lemma advanceDrain_step s at_ :
  st_pendingAt s <= at_ -> st_since s <= at_ -> (st_draining s = true -> st_cooldown s = false) ->
  let s' := fst (advanceDrain policy s at_) in
  st_pendingAt s' = st_pendingAt s /\ st_observed s' = st_observed s /\ st_since s' <= at_ /\
  (st_draining s' = true -> at_ < st_since s' + MaxWait policy /\ st_cooldown s' = false /\
     (st_draining s = true -> st_since s' = st_since s)) /\
  (st_cooldown s = true -> st_draining s' = false) /\
  (st_cooldown s = true -> at_ < st_since s + Cooldown policy -> s' = s) /\
  (st_draining s = true -> st_draining s' = false -> st_cooldown s' = true /\ st_since s' = at_).
Proof.
  intros Hpe Hsi Hdc. destruct Hp as [H1 H2 H3]. unfold advanceDrain.
  rewrite !(TimeSub_before at_ _ _) by (done || durations; lia).
  destruct (st_draining s) eqn:Ed; [rewrite (Hdc eq_refl)|destruct (st_cooldown s) eqn:Ec].
  - destruct (Z.leb_spec (st_since s + MaxWait policy) at_); simpl; rewrite ?Ed; split_and!; try done; try lia.
    intros _. split_and!; [lia|auto|done].
  - destruct (Z.leb_spec (st_since s + Cooldown policy) at_); simpl; rewrite ?Ed; split_and!; try done; lia.
  - destruct (Z.leb_spec (st_pendingAt s + PendingFor policy) at_); simpl; rewrite ?Ed, ?Ec; split_and!; try done; try lia.
    intros _. durations. lia.
Qed.

(** ** One tick *)

Lemma Drain_Observe_between s t facts :
  between s t -> 0 < df_At facts -> t <= df_At facts -> between (fst (Drain_Observe policy s facts)) (df_At facts).
Proof.
  intros [B1 B2 B3 B4] Ha Ht. unfold Drain_Observe. destruct (dp_Enabled policy); cbn [negb].
  2: { destruct (st_draining s) eqn:Ed; (split; simpl; [lia|lia|intros E; rewrite ?Ed in E; done|try done; exact B4]). }
  destruct (CandidatePending facts); cbn [negb].
  2: { simpl. destruct (st_draining s) eqn:Ed; (split; simpl; unfold zeroTime; [lia|lia|intros E; rewrite ?Ed in E; done|done]). }
  destruct (_ || _) eqn:Ef.
  - assert (st_draining s = false /\ st_cooldown s = false) as [Ed Ec].
    { unfold IsZero, Before in Ef. rewrite !orb_true_iff, negb_true_iff, Z.eqb_eq, Z.ltb_lt in Ef.
      split; [|apply B4; destruct Ef as [[?|?]|?]; [auto|auto|lia]]. destruct (st_draining s); [|done]. destruct (B3 eq_refl) as (? & ? & _).
      destruct Ef as [[?|?]|?]; [congruence|done|lia]. }
    pose proof (resume_phase (withPending s true (st_pendingAt s)) facts Ed Ec) as R.
    pose proof (waitingSince_dated facts Ha) as Hw. pose proof (waitingSince_le facts) as Hle.
    destruct (resume policy _ facts) as [s' drains]. destruct R as (R1 & R2 & R3 & R4).
    destruct drains.
    + destruct R4 as [R4 R5]. split; simpl; [lia|lia|intros _; rewrite R1, R2; split_and!; try done; lia|rewrite R1, R2; intros [?|?]; done].
    + destruct R4 as [R4 R5].
      destruct (advanceDrain_step s' (df_At facts)) as (A1 & A2 & A3 & A4 & _); [lia|lia|by rewrite R3|].
      split; [lia|done|intros E; destruct (A4 E) as (? & ? & _); rewrite A1, A2, R1, R2; split_and!; done|].
      rewrite A1, A2, R1, R2. intros [?|?]; done.
  - apply orb_false_iff in Ef as [Ef _]. apply orb_false_iff in Ef as [Eo Ez]. apply negb_false_iff in Eo. apply Z.eqb_neq in Ez.
    destruct (advanceDrain_step s (df_At facts)) as (A1 & A2 & A3 & A4 & _); [lia|lia|intros E; apply (B3 E)|].
    split; [lia|done|intros E; destruct (A4 E) as (? & ? & _); rewrite A1, A2; split_and!; done|].
    rewrite A1, A2, Eo. intros [?|?]; done.
Qed.

(** A node that drains enabled the policy. *)
Lemma Drain_Observe_enabled s facts :
  st_draining (fst (Drain_Observe policy s facts)) = true -> dp_Enabled policy = true /\ CandidatePending facts = true.
Proof.
  unfold Drain_Observe. destruct (dp_Enabled policy), (CandidatePending facts); cbn [negb]; try done;
    destruct (st_draining s) eqn:Ed; simpl; rewrite ?Ed; done.
Qed.

(** A tick inside the cooldown changes nothing. *)
Lemma Drain_Observe_cooling s facts at_ :
  dp_Enabled policy = true -> CandidatePending facts = true -> st_observed s = true -> st_pendingAt s <> 0 ->
  st_pendingAt s <= at_ -> st_since s = at_ -> st_cooldown s = true -> st_draining s = false ->
  at_ <= df_At facts < at_ + Cooldown policy -> fst (Drain_Observe policy s facts) = s.
Proof.
  intros He Hc Ho Hz Hpe Hs Hco Hd Ha. unfold Drain_Observe. rewrite He, Hc, Ho. cbn [negb orb].
  unfold IsZero, Before. rewrite (proj2 (Z.eqb_neq _ _) Hz), (proj2 (Z.ltb_ge _ _)) by lia. simpl.
  apply advanceDrain_step; [lia|lia|by rewrite Hd|done|lia].
Qed.

(** A drain that a tick does not end keeps its start; one that it ends while the
    candidate waits begins the cooldown. *)
Lemma Drain_Observe_drains s t facts :
  between s t -> t <= df_At facts -> st_draining s = true -> dp_Enabled policy = true -> CandidatePending facts = true ->
  let s' := fst (Drain_Observe policy s facts) in
  (st_draining s' = true -> st_since s' = st_since s) /\
  (st_draining s' = false -> st_cooldown s' = true /\ st_since s' = df_At facts /\ st_observed s' = true /\
     st_pendingAt s' <> 0 /\ st_pendingAt s' <= df_At facts).
Proof.
  intros [B1 B2 B3 _] Ht Hd He Hc. destruct (B3 Hd) as (Ho & Hz & Hco & _). unfold Drain_Observe. rewrite He, Hc, Ho. cbn [negb orb].
  unfold IsZero, Before. rewrite (proj2 (Z.eqb_neq _ _) Hz), (proj2 (Z.ltb_ge _ _)) by lia. simpl.
  destruct (advanceDrain_step s (df_At facts)) as (A1 & A2 & A3 & A4 & _ & _ & A7); [lia|lia|done|].
  split; [intros E; by apply A4|]. intros E. destruct (A7 Hd E). rewrite A1, A2. split_and!; try done. lia.
Qed.

(** ** The controller over its ticks *)

Variables root running : string.

Inductive Served : UpdateController -> Time -> Prop :=
  | served_start t : 0 < t -> Served newUpdateDrainController t
  | served_tick c t disk at_ live : Served c t -> t <= at_ ->
      Served (fst (Controller_Observe policy root running c disk at_ live)) at_.

(** The facts the controller makes of one reading of the disk. *)
Lemma Controller_Observe_facts c disk at_ live :
  exists since, let pending := PendingCandidate root running (disk_first disk) in
  let facts := {| df_At := at_; CandidatePending := fst pending; df_LiveInstances := live; df_PendingSince := since |} in
  let c' := fst (Controller_Observe policy root running c disk at_ live) in
  uc_state c' = fst (Drain_Observe policy (uc_state c) facts) /\ uc_candidate c' = snd pending.
Proof.
  unfold Controller_Observe. destruct (PendingCandidate root running (disk_first disk)) as [pending candidate]. simpl.
  destruct (if negb pending then _ else _) as [materialised pendingSince]. exists materialised.
  by destruct (Drain_Observe policy (uc_state c) _).
Qed.

Lemma Served_between c t : Served c t -> 0 < t /\ between (uc_state c) t /\ (Controller_Draining c = true -> dp_Enabled policy = true).
Proof.
  induction 1 as [t Ht|c t disk at_ live _ (IH1 & IH2 & _) Ha].
  { split; [done|]. split; [|done]. split; simpl; unfold zeroTime; [lia|lia|done|done]. }
  split; [lia|]. destruct (Controller_Observe_facts c disk at_ live) as (since & E & _).
  unfold Controller_Draining. rewrite E. split; [by apply (Drain_Observe_between _ t); simpl; [|lia|]|].
  intros Hd. apply (Drain_Observe_enabled _ _ Hd).
Qed.

Definition serve (c : UpdateController) (tick : Disk * Time * Z) : UpdateController :=
  fst (Controller_Observe policy root running c (fst (fst tick)) (snd (fst tick)) (snd tick)).

(** The candidate still waits, at a time within the cooldown from [at_] on. *)
Definition coolingTick (at_ : Time) (tick : Disk * Time * Z) : Prop :=
  fst (PendingCandidate root running (disk_first (fst (fst tick)))) = true /\
  at_ <= snd (fst tick) < at_ + Cooldown policy.

Lemma serve_cooling at_ ticks : forall c,
  dp_Enabled policy = true -> st_observed (uc_state c) = true -> st_pendingAt (uc_state c) <> 0 ->
  st_pendingAt (uc_state c) <= at_ -> st_since (uc_state c) = at_ -> st_cooldown (uc_state c) = true ->
  st_draining (uc_state c) = false -> Forall (coolingTick at_) ticks ->
  Controller_Draining (fold_left serve ticks c) = false.
Proof.
  induction ticks as [|[[disk a] live] ticks IH]; intros c He Ho Hz Hpe Hs Hco Hd Hf; simpl; [done|].
  inversion Hf as [|? ? [Hc Ha] Hf']; subst. simpl in Hc, Ha.
  destruct (Controller_Observe_facts c disk a live) as (since & E & _).
  rewrite Drain_Observe_cooling with (at_ := st_since (uc_state c)) in E by (done || (simpl; lia)).
  unfold serve at 2. simpl. apply IH; rewrite ?E; done.
Qed.


(** ** A restarted daemon *)

(** The start of the drain of number [k] for a release that waits since [since]. *)
Definition drainStart (since : Time) (k : Z) : Time := since + PendingFor policy + k * (MaxWait policy + Cooldown policy).

(** The first tick of a process, before and after the pending time. *)
Lemma first_tick live at_ since :
  0 < since <= at_ -> at_ - since <= maxInt64 ->
  let facts := {| df_At := at_; CandidatePending := true; df_LiveInstances := live; df_PendingSince := since |} in
  let s := fst (let '(s, drains) := resume policy (withPending NewDrainState true zeroTime) facts in
                if drains then (s, DrainStart) else advanceDrain policy s at_) in
  (at_ - since < PendingFor policy -> st_draining s = false) /\
  (PendingFor policy <= at_ - since -> exists k offset, 0 <= k /\ 0 <= offset < MaxWait policy + Cooldown policy /\
     at_ = drainStart since k + offset /\ st_draining s = (offset <? MaxWait policy) /\
     (offset < MaxWait policy -> st_since s = drainStart since k)).
Proof.
  intros Hs Hr. cbv zeta. pose proof cycle_exact as Hc. destruct Hp as [H1 H2 H3]. unfold resume. simpl.
  assert (waitingSince {| df_At := at_; CandidatePending := true; df_LiveInstances := live; df_PendingSince := since |} = since) as ->.
  { unfold waitingSince, IsZero, After. simpl. rewrite (proj2 (Z.eqb_neq since 0)), (proj2 (Z.ltb_ge at_ since)) by lia. done. }
  assert (TimeSub at_ since = at_ - since) as Et by (apply TimeSub_exact; durations; lia).
  assert (sub64 (at_ - since) (PendingFor policy) = at_ - since - PendingFor policy) as Ee by (unfold sub64; apply wrap64_id; durations; lia).
  rewrite Et, Ee, Hc, (proj2 (Z.leb_gt (MaxWait policy + Cooldown policy) 0)), orb_false_r by (durations; lia).
  destruct (Z.ltb_spec (at_ - since - PendingFor policy) 0) as [Hlt|Hge].
  { split; [|lia]. intros _. unfold advanceDrain. simpl. rewrite Et, (proj2 (Z.leb_gt _ _)) by lia. done. }
  split; [lia|]. intros _. set (e := at_ - since - PendingFor policy) in *. set (cycle := MaxWait policy + Cooldown policy) in *.
  assert (0 < cycle) by (unfold cycle; durations; lia).
  pose proof (Z.rem_bound_pos e cycle ltac:(lia) ltac:(lia)) as Hb. pose proof (Z.quot_rem' e cycle) as Hq.
  exists (Z.quot e cycle), (Z.rem e cycle). split; [by apply Z.quot_pos; lia|]. split; [done|].
  split; [unfold drainStart; fold cycle; lia|]. assert (0 <= Z.rem e cycle <= 48 * Hour) as Hh by (unfold cycle in *; durations; lia).
  destruct (Z.ltb_spec (Z.rem e cycle) (MaxWait policy)) as [Ho|Ho]; simpl.
  - split; [done|]. intros _. unfold TimeAdd. rewrite (neg_exact _ Hh). unfold drainStart. fold cycle. lia.
  - split; [|lia]. unfold advanceDrain, TimeAdd. simpl. rewrite (rest_exact _ Hh).
    rewrite (TimeSub_before at_) by (durations; lia). by destruct (Z.leb_spec (at_ + (MaxWait policy - Z.rem e cycle) + Cooldown policy) at_).
Qed.

(** A daemon that restarts resumes the schedule of its release.  Whatever ran
    before, the first tick of a new process at [at_], with a release on disk that waits
    since [since], refuses admission exactly when [at_] lies in one of the windows that
    follow each other from [since]: the pending time, then for every [k] a drain and a
    cooldown; and it dates the drain from the start of that window. *)
Theorem restart_resumes_the_schedule disk at_ live :
  let since := PendingSince root running (disk_second disk) (disk_modTime disk) in
  let c := fst (Controller_Observe policy root running newUpdateDrainController disk at_ live) in
  dp_Enabled policy = true -> fst (PendingCandidate root running (disk_first disk)) = true ->
  0 < since <= at_ -> at_ - since <= maxInt64 ->
  (Controller_Draining c = true <-> exists k, 0 <= k /\ drainStart since k <= at_ < drainStart since k + MaxWait policy) /\
  (Controller_Draining c = true -> exists k, 0 <= k /\ st_since (uc_state c) = drainStart since k).
Proof.
  intros since c He Hpe Hs Hr.
  set (facts := {| df_At := at_; CandidatePending := true; df_LiveInstances := live; df_PendingSince := since |}).
  assert (uc_state c = fst (let '(s, drains) := resume policy (withPending NewDrainState true zeroTime) facts in
    if drains then (s, DrainStart) else advanceDrain policy s at_)) as Ec.
  { unfold c, Controller_Observe. destruct (PendingCandidate root running (disk_first disk)) as [pending candidate].
    simpl in Hpe. subst pending. cbn [negb uc_pendingSince newUpdateDrainController]. change (IsZero zeroTime) with true. cbn iota.
    fold since. fold facts. unfold Drain_Observe. rewrite He. change (uc_state newUpdateDrainController) with NewDrainState.
    cbn [negb CandidatePending facts st_observed st_pendingAt NewDrainState orb df_At]. by destruct (resume _ _ _) as [s []]; [|destruct (advanceDrain _ _ _)]. }
  unfold Controller_Draining. rewrite Ec. destruct (first_tick live at_ since Hs Hr) as [Hn Hy]. fold facts in Hn, Hy.
  destruct (Z.ltb_spec (at_ - since) (PendingFor policy)) as [Hlt|Hge].
  - rewrite (Hn Hlt). split; [|done]. split; [done|]. intros (k & Hk & Hw & _). exfalso.
    unfold drainStart in Hw. destruct Hp as [? ? ?]. assert (0 <= k * (MaxWait policy + Cooldown policy)) by (durations; nia). lia.
  - destruct (Hy Hge) as (k & offset & Hk & Ho & Ea & Hd & Hsi). rewrite Hd. split.
    + split; [intros Hlt%Z.ltb_lt; exists k; lia|]. intros (k' & Hk' & Hw). apply Z.ltb_lt.
      set (o' := at_ - drainStart since k'). destruct Hp as [_ _ H3]. assert (0 < Cooldown policy) by (durations; lia).
      destruct (Z.div_mod_unique (MaxWait policy + Cooldown policy) k k' offset o') as [_ ->]; unfold o', drainStart in *; lia.
    + intros Hlt. exists k. split; [done|]. apply Hsi. by apply Z.ltb_lt.
Qed.
End Bounded.

(** ** A node with a release on disk *)

Module Waiting.

Definition policy (pending wait cooldown : Duration) : DrainPolicy :=
  {| dp_Enabled := true; PendingFor := pending; MaxWait := wait; Cooldown := cooldown |}.

Definition defaults : DrainPolicy := policy (30 * Minute) (2 * Hour) Hour.

Definition disk (since : Time) : Disk :=
  {| disk_first := Some ["v0.1.461"; "v0.1.462"]; disk_second := Some ["v0.1.461"; "v0.1.462"];
     disk_modTime := Some (fun _ => Some since) |}.

Definition tick (p : DrainPolicy) (c : UpdateController) (since at_ : Time) : UpdateController :=
  fst (Controller_Observe p "/opt/fleet" "v0.1.461" c (disk since) at_ 3).

(** A process that ticks every [period] from [start] on. *)
Fixpoint live (p : DrainPolicy) (since start period : Time) (ticks : nat) : UpdateController :=
  match ticks with
  | O => newUpdateDrainController
  | S n => tick p (live p since start period n) since (start + Z.of_nat n * period)
  end.

Lemma defaults_bounded : boundedPolicy defaults.
Proof. split; vm_compute; split; discriminate. Qed.

(** Draining since 1:30, one tick before the bound at 3:30. *)
Definition draining : UpdateController := tick defaults newUpdateDrainController Hour (3 * Hour).

Lemma draining_served : Served defaults "/opt/fleet" "v0.1.461" draining (3 * Hour).
Proof.
  exact (served_tick defaults _ _ _ (3 * Hour) (disk Hour) (3 * Hour) 3 (served_start defaults _ _ (3 * Hour) eq_refl) (Z.le_refl _)).
Qed.

End Waiting.


Lemma restart_resumes_the_schedule_witness :
  Controller_Draining (Waiting.tick Waiting.defaults newUpdateDrainController Hour (3 * Hour)) = true /\
  Controller_Draining (Waiting.tick Waiting.defaults newUpdateDrainController Hour (4 * Hour)) = false.
Proof.
  split.
  - refine (proj2 (proj1 (restart_resumes_the_schedule Waiting.defaults Waiting.defaults_bounded "/opt/fleet" "v0.1.461"
      (Waiting.disk Hour) (3 * Hour) 3 eq_refl _ _ _)) _); [vm_compute; reflexivity|vm_compute; split; [reflexivity|discriminate]|vm_compute; discriminate|].
    exists 0. vm_compute. repeat split; discriminate.
  - vm_compute. reflexivity.
Defined.

(** A live process starts each phase at a tick, so it falls behind the schedule a
    restart computes.  Once it has fallen behind by a cooldown, a restart inside its
    drain dates that drain later than the live process did, and the resumed drain runs
    past the bound of the original one. *)
Example restart_can_prolong_a_drain :
  let p := Waiting.policy Minute Minute Minute in
  let live := Waiting.live p Hour Hour (25 * Second) 13 in
  let restarted := Waiting.tick p newUpdateDrainController Hour (Hour + 12 * (25 * Second)) in
  let resumed := Waiting.tick p restarted Hour (st_since (uc_state live) + 75 * Second) in
  Controller_Draining live = true /\ st_since (uc_state live) = Hour + 250 * Second /\
  Controller_Draining restarted = true /\ st_since (uc_state restarted) = Hour + 300 * Second /\
  Controller_Draining resumed = true.
Proof. vm_compute. repeat split. Qed.
