(* ===== verification/Config.v ===== *)
(** * Configuration: the file and the effective settings (internal/config/config.go)

    A node's file is one JSON object.  [wireConfig] is that object as Go decodes
    it, [Config] the settings the node runs with: [settings] reads the one from
    the other and fills in what the file leaves out, [wireOf] writes it back.
    Whether settings are acceptable is decided in [Validation].  The JSON text
    itself is outside: [unmarshalled] is what survives it of a wire record. *)

From Stdlib Require Import ZArith Lia String Ascii List Floats.SpecFloat.
From stdpp Require Import base tactics list gmap strings.
From S2P Require Import Prelude GoStrings Liveness Domain PriorityPolicy HostProbe.
From S2P Require Membership.

(** ** Settings *)

Record Resources := { r_CPU : Z; r_MemoryMiB : Z }.

#[export] Instance Resources_eq_dec : EqDecision Resources.
Proof. solve_decision. Defined.

Definition noResources : Resources := {| r_CPU := 0; r_MemoryMiB := 0 |}.

(** [Resources] is not part of the file; [CPU] and [MemoryMiB] are. *)
Record Profile := {
  p_ID : string;
  p_Label : string;
  p_Aliases : list string;
  p_Resources : Resources;
  p_CPU : Z;
  p_MemoryMiB : Z;
  p_DiskGiB : Z;
  p_MaxActive : Z;
  p_OccupancyBudgetSeconds : option Z
}.

Definition noProfile : Profile :=
  {| p_ID := ""; p_Label := ""; p_Aliases := []; p_Resources := noResources; p_CPU := 0; p_MemoryMiB := 0; p_DiskGiB := 0;
     p_MaxActive := 0; p_OccupancyBudgetSeconds := None |}.

Definition withResources (p : Profile) (r : Resources) : Profile :=
  {| p_ID := p_ID p; p_Label := p_Label p; p_Aliases := p_Aliases p; p_Resources := r; p_CPU := p_CPU p;
     p_MemoryMiB := p_MemoryMiB p; p_DiskGiB := p_DiskGiB p; p_MaxActive := p_MaxActive p;
     p_OccupancyBudgetSeconds := p_OccupancyBudgetSeconds p |}.

Definition Profile_normalized (p : Profile) : Profile :=
  if r_CPU (p_Resources p) =? 0 then withResources p {| r_CPU := p_CPU p; r_MemoryMiB := p_MemoryMiB p |} else p.

Definition seconds (n : Z) : Duration := mul64 n Second.

Definition MinOccupancyBudget : Duration := 5 * Minute.
Definition MaxOccupancyBudget : Duration := 6 * Hour.

Definition occupancyBudgetInRange (p : Profile) : bool :=
  match p_OccupancyBudgetSeconds p with
  | None => true
  | Some n => (n =? 0) || ((MinOccupancyBudget <=? seconds n) && (seconds n <=? MaxOccupancyBudget))
  end.

Definition DefaultOccupancyBudget (platform : Platform) : Duration :=
  if bool_decide (platform = PlatformMacOS) then 2 * Hour else Hour.

Definition OccupancyBudget (p : Profile) (platform : Platform) : Duration :=
  match p_OccupancyBudgetSeconds p with
  | Some n => seconds n
  | None => DefaultOccupancyBudget platform
  end.

Record Target := {
  t_Type : string;
  t_Slug : string;
  t_MaxActive : Z;
  t_SchedulingClass : string;
  t_DefaultLinuxProfile : string;
  t_RunnerLabels : list string
}.

Definition Target_normalized (t : Target) : Target :=
  if bool_decide (t_SchedulingClass t = "") then
    {| t_Type := t_Type t; t_Slug := t_Slug t; t_MaxActive := t_MaxActive t; t_SchedulingClass := "standard";
       t_DefaultLinuxProfile := t_DefaultLinuxProfile t; t_RunnerLabels := t_RunnerLabels t |}
  else t.

Record Linux := {
  l_BaseVM : string;
  l_VMPrefix : string;
  l_MaxInstances : Z;
  l_Capacity : Resources;
  l_Profiles : list Profile;
  l_NestedVirtualization : bool;
  l_SerialLogDirectory : string;
  l_BaseImageCapabilities : list string;
  l_BaseImageRunnerVersion : string;
  l_BaseImageTools : list string
}.

Definition ExecutorNone : string := "".
Definition ExecutorPodman : string := "podman".

(** The same fields in the file ([wireExecutor]) and in the settings. *)
Record Executor := {
  x_Backend : string;
  x_Image : string;
  x_Binary : string;
  x_KVMProfiles : list string;
  x_EmulatorSlotsDir : string;
  x_HoldCommand : list string
}.

#[export] Instance Executor_eq_dec : EqDecision Executor.
Proof. solve_decision. Defined.

Definition noExecutor : Executor :=
  {| x_Backend := ""; x_Image := ""; x_Binary := ""; x_KVMProfiles := []; x_EmulatorSlotsDir := ""; x_HoldCommand := [] |}.

Definition MacOSAdmissionShared : string := "shared".
Definition MacOSAdmissionExclusive : string := "macos-exclusive".

Record MacOS := {
  m_Enabled : bool;
  m_AdmissionPolicy : string;
  m_MixedPlatformAdmission : bool;
  m_MixedProfileCohorts : bool;
  m_BaseVM : string;
  m_VMPrefix : string;
  m_Builder : Profile;
  m_Compact : Profile;
  m_RootDiskOptions : string;
  m_SharedDirectoryPath : string;
  m_NestedVirtualization : bool;
  m_BaseImageCapabilities : list string;
  m_BaseImageRunnerVersion : string;
  m_BaseImageTools : list string
}.

Record Timeouts := { to_GitHub : Duration; to_Tart : Duration; to_Boot : Duration; to_Assigned : Duration }.

Record Guards := {
  g_MinFreeDiskGiB : Z;
  g_MinFreeInodePercent : float64;
  g_MinAvailableMemoryMiB : Z;
  g_MaxSwapUsedMiB : Z;
  g_SwapOutPagesPerSecond : float64;
  g_MaxLoadAverage : float64;
  g_MinCPUIdlePercent : float64;
  g_PressureMemoryAccounting : bool;
  g_ElasticHostEnvelope : bool
}.

Record SessionRecovery := { sr_MaxConsecutiveFailures : Z; sr_FailureWindow : Duration }.
Record UpdateDrain := { ud_Enabled : bool; ud_PendingFor : Duration; ud_MaxWait : Duration; ud_Cooldown : Duration }.
Record SessionYield := { sy_Enabled : bool; sy_BlockedFor : Duration; sy_HealthyFor : Duration }.
Record GuestLiveness := { gl_ConsecutiveRefusals : Z; gl_Window : Duration; gl_ProbeTimeout : Duration }.

Definition noLiveness : GuestLiveness := {| gl_ConsecutiveRefusals := 0; gl_Window := 0; gl_ProbeTimeout := 0 |}.

Definition GuestLiveness_Enabled (g : GuestLiveness) : bool :=
  (0 <? gl_ConsecutiveRefusals g) && (0 <? gl_Window g) && (0 <? gl_ProbeTimeout g).

(** ** GitHub *)

Record GitHubApp := { a_ClientID : string; a_KeychainService : string; a_KeychainAccount : string; a_PrivateKeyFile : string }.

#[export] Instance GitHubApp_eq_dec : EqDecision GitHubApp.
Proof. solve_decision. Defined.

Definition noApp : GitHubApp := {| a_ClientID := ""; a_KeychainService := ""; a_KeychainAccount := ""; a_PrivateKeyFile := "" |}.

Record GitHubInstallation := { in_Name : string; in_InstallationID : Z }.

Record ScaleSet := {
  s_Profile : string;
  s_Name : string;
  s_ID : Z;
  s_MaxCapacity : Z;
  s_Labels : list string;
  s_SharedLabels : bool;
  s_RequiresCapabilities : list string;
  s_RequiresTools : list string
}.

Definition ScopeRepository : string := "repository".
Definition ScopeOrganization : string := "organization".

Record GitHubScope := {
  sc_Name : string;
  sc_Kind : string;
  sc_ConfigURL : string;
  sc_Installation : string;
  sc_RunnerGroup : string;
  sc_Targets : list string;
  sc_ScaleSets : list ScaleSet
}.

Record GitHub := {
  h_ConfigURL : string;
  h_Owner : string;
  h_ClientID : string;
  h_InstallationID : Z;
  h_KeychainService : string;
  h_KeychainAccount : string;
  h_ScaleSets : list ScaleSet;
  h_SessionOwner : string;
  h_CanonicalJobInventory : bool;
  h_ParkedScaleSetAuditMinutes : option Z;
  h_App : GitHubApp;
  h_Installations : list GitHubInstallation;
  h_Scopes : list GitHubScope
}.

(** cachegate.go, priority.go *)
Record CacheGate := { cg_URL : string; cg_PublicKey : string; cg_NPMRegistry : string }.

#[export] Instance CacheGate_eq_dec : EqDecision CacheGate.
Proof. solve_decision. Defined.

Definition noCacheGate : CacheGate := {| cg_URL := ""; cg_PublicKey := ""; cg_NPMRegistry := "" |}.

Record Priority := { pr_EscalateAfter : Duration; pr_Tiers : list PriorityTier }.

Definition noPriority : Priority := {| pr_EscalateAfter := 0; pr_Tiers := [] |}.

(** The state directory, which the daemon sets and no file holds, is left out. *)
Record Config := {
  c_PollInterval : Duration;
  c_ReservationAge : Duration;
  c_HostBudget : Resources;
  c_RunnerVersionFloor : string;
  c_CacheGate : CacheGate;
  c_GuestArch : string;
  c_Linux : Linux;
  c_Executor : Executor;
  c_MacOS : MacOS;
  c_GitHub : GitHub;
  c_Timeouts : Timeouts;
  c_Guards : Guards;
  c_SessionRecovery : SessionRecovery;
  c_SessionYield : SessionYield;
  c_Membership : string;
  c_UpdateDrain : UpdateDrain;
  c_GuestLiveness : GuestLiveness;
  c_Targets : list Target;
  c_Priority : Priority
}.

Definition ExecutesLinux (c : Config) : bool := match l_Profiles (c_Linux c) with [] => false | _ => true end.

(** ** The file *)

(** A tier of the file has the fields of [PriorityTier]. *)
Record wirePriority := { wp_EscalateAfterSeconds : Z; wp_Tiers : list PriorityTier }.

Record wireMacOS := {
  wm_Enabled : bool;
  wm_AdmissionPolicy : string;
  wm_MixedPlatformAdmission : bool;
  wm_MixedProfileCohorts : bool;
  wm_BaseVM : string;
  wm_BaseImageCapabilities : list string;
  wm_BaseImageRunnerVersion : string;
  wm_BaseImageTools : list string;
  wm_VMPrefix : string;
  wm_Builder : Profile;
  wm_Compact : option Profile;
  wm_Maestro : option Profile;
  wm_RootDiskOptions : string;
  wm_SharedDirectoryPath : string;
  wm_NestedVirtualization : bool
}.

Record wireConfig := {
  w_BaseVM : string;
  w_BaseImageCapabilities : list string;
  w_BaseImageRunnerVersion : string;
  w_RunnerVersionFloor : string;
  w_BaseImageTools : list string;
  w_GuestArch : string;
  w_CacheGate : option CacheGate;
  w_VMPrefix : string;
  w_PollSeconds : Z;
  w_MaxLinuxWhenMacOSIdle : Z;
  w_MaxLinuxCPU : Z;
  w_MaxLinuxMemoryMiB : Z;
  w_HostBudget : option Resources;
  w_LinuxReservationAgeSecs : Z;
  w_LinuxProfiles : list Profile;
  w_Executor : option Executor;
  w_LinuxNestedVirtualization : bool;
  w_LinuxSerialLogDirectory : string;
  w_MinFreeDiskGiB : Z;
  w_MinFreeInodePercent : float64;
  w_MinAvailableMemoryMiB : Z;
  w_MaxSwapUsedMiB : Z;
  w_SwapOutPagesPerSecond : option float64;
  w_MaxLoadAverage : float64;
  w_MinCPUIdlePercent : float64;
  w_PressureMemoryAccounting : bool;
  w_ElasticHostEnvelope : bool;
  w_GitHubTimeoutSeconds : Z;
  w_TartControlTimeoutSeconds : Z;
  w_BootTimeoutSeconds : Z;
  w_AssignedTimeoutSeconds : Z;
  w_GitHubSessionMaxIngestFailures : Z;
  w_GitHubSessionFailureWindowSeconds : Z;
  w_SessionYieldDisabled : bool;
  w_SessionYieldBlockedForSeconds : Z;
  w_SessionYieldHealthyForSeconds : Z;
  w_Membership : string;
  w_UpdateDrainDisabled : bool;
  w_UpdateDrainPendingForSeconds : Z;
  w_UpdateDrainMaxWaitSeconds : Z;
  w_UpdateDrainCooldownSeconds : Z;
  w_GuestLivenessRefusals : Z;
  w_GuestLivenessWindowSeconds : Z;
  w_GuestLivenessProbeTimeoutSeconds : Z;
  w_MacOSBurst : wireMacOS;
  w_GitHub : GitHub;
  w_Targets : list Target;
  w_Priority : option wirePriority
}.

(** ** From the file to the settings *)

Definition feq (a b : float64) : bool := SFeqb a b.

Definition secondsOr (value fallback : Z) : Duration := seconds (if value =? 0 then fallback else value).

(** A default for what the file leaves at zero. *)
Definition orElse (value fallback : Z) : Z := if value =? 0 then fallback else value.
Definition orElseF (value : float64) (fallback : Z) : float64 := if feq value (floatOf 0) then floatOf fallback else value.

Definition defaultMinAvailableMemoryMiB : Z := 1024.
Definition defaultMinFreeInodePercent : Z := 5.
Definition defaultMaxSwapUsedMiB : Z := 2048.
Definition defaultMaxLoadAverage : Z := 9.
Definition defaultMinCPUIdlePercent : Z := 5.

Definition normalizeGuards (w : wireConfig) : Guards :=
  {| g_MinFreeDiskGiB := w_MinFreeDiskGiB w;
     g_MinFreeInodePercent := orElseF (w_MinFreeInodePercent w) defaultMinFreeInodePercent;
     g_MinAvailableMemoryMiB := orElse (w_MinAvailableMemoryMiB w) defaultMinAvailableMemoryMiB;
     g_MaxSwapUsedMiB := orElse (w_MaxSwapUsedMiB w) defaultMaxSwapUsedMiB;
     g_SwapOutPagesPerSecond := default (floatOf DefaultSwapOutPagesPerSecond) (w_SwapOutPagesPerSecond w);
     g_MaxLoadAverage := orElseF (w_MaxLoadAverage w) defaultMaxLoadAverage;
     g_MinCPUIdlePercent := orElseF (w_MinCPUIdlePercent w) defaultMinCPUIdlePercent;
     g_PressureMemoryAccounting := w_PressureMemoryAccounting w;
     g_ElasticHostEnvelope := w_ElasticHostEnvelope w |}.

Definition hostBudget (budget : option Resources) : Resources := default noResources budget.

Definition defaultSessionMaxIngestFailures : Z := 5.
Definition defaultSessionFailureWindow : Duration := 5 * Minute.
Definition defaultSessionYieldBlockedFor : Duration := 10 * Minute.
Definition defaultSessionYieldHealthyFor : Duration := 2 * Minute.
Definition defaultUpdateDrainPendingFor : Duration := 30 * Minute.
Definition defaultUpdateDrainMaxWait : Duration := 2 * Hour.
Definition defaultUpdateDrainCooldown : Duration := Hour.
Definition defaultGuestLivenessRefusals : Z := 5.
Definition defaultGuestLivenessWindow : Duration := 90 * Second.
Definition defaultGuestLivenessProbe : Duration := 5 * Second.
Definition guestLivenessDisabledRefusals : Z := -1.
Definition guestLivenessDisabledWindowSecs : Z := -1.

Definition normalizeUpdateDrain (w : wireConfig) : UpdateDrain :=
  {| ud_Enabled := negb (w_UpdateDrainDisabled w);
     ud_PendingFor := orElse (seconds (w_UpdateDrainPendingForSeconds w)) defaultUpdateDrainPendingFor;
     ud_MaxWait := orElse (seconds (w_UpdateDrainMaxWaitSeconds w)) defaultUpdateDrainMaxWait;
     ud_Cooldown := orElse (seconds (w_UpdateDrainCooldownSeconds w)) defaultUpdateDrainCooldown |}.

Definition normalizeSessionYield (w : wireConfig) : SessionYield :=
  {| sy_Enabled := negb (w_SessionYieldDisabled w);
     sy_BlockedFor := orElse (seconds (w_SessionYieldBlockedForSeconds w)) defaultSessionYieldBlockedFor;
     sy_HealthyFor := orElse (seconds (w_SessionYieldHealthyForSeconds w)) defaultSessionYieldHealthyFor |}.

Definition normalizeSessionRecovery (w : wireConfig) : SessionRecovery :=
  {| sr_MaxConsecutiveFailures := orElse (w_GitHubSessionMaxIngestFailures w) defaultSessionMaxIngestFailures;
     sr_FailureWindow := orElse (seconds (w_GitHubSessionFailureWindowSeconds w)) defaultSessionFailureWindow |}.

Definition normalizeGuestLiveness (w : wireConfig) : GuestLiveness :=
  if (w_GuestLivenessRefusals w =? guestLivenessDisabledRefusals)
     || (w_GuestLivenessWindowSeconds w =? guestLivenessDisabledWindowSecs) then noLiveness
  else
    {| gl_ConsecutiveRefusals := orElse (w_GuestLivenessRefusals w) defaultGuestLivenessRefusals;
       gl_Window := orElse (seconds (w_GuestLivenessWindowSeconds w)) defaultGuestLivenessWindow;
       gl_ProbeTimeout := orElse (seconds (w_GuestLivenessProbeTimeoutSeconds w)) defaultGuestLivenessProbe |}.

Definition normalizeProfiles (l : list Profile) : list Profile := map Profile_normalized l.
Definition normalizeTargets (l : list Target) : list Target := map Target_normalized l.

Definition normalizeMacOSAdmissionPolicy (policy : string) : string :=
  if bool_decide (policy = "") then MacOSAdmissionShared else policy.

Definition decodeExecutor (w : option Executor) : Executor := default noExecutor w.
Definition decodeCacheGate (w : option CacheGate) : CacheGate := default noCacheGate w.

Definition decodePriority (w : option wirePriority) : Priority :=
  match w with
  | None => noPriority
  | Some w => {| pr_EscalateAfter := seconds (wp_EscalateAfterSeconds w); pr_Tiers := wp_Tiers w |}
  end.

(** [None] is the refusal of a file that names the profile twice. *)
Definition decodeCompact (compact maestro : option Profile) : option Profile :=
  match compact, maestro with
  | Some _, Some _ => None
  | Some p, None | None, Some p => Some p
  | None, None => Some noProfile
  end.

Definition linuxSettings (w : wireConfig) : Linux :=
  {| l_BaseVM := w_BaseVM w; l_VMPrefix := w_VMPrefix w; l_MaxInstances := w_MaxLinuxWhenMacOSIdle w;
     l_Capacity := {| r_CPU := w_MaxLinuxCPU w; r_MemoryMiB := w_MaxLinuxMemoryMiB w |};
     l_Profiles := normalizeProfiles (w_LinuxProfiles w); l_NestedVirtualization := w_LinuxNestedVirtualization w;
     l_SerialLogDirectory := w_LinuxSerialLogDirectory w; l_BaseImageCapabilities := w_BaseImageCapabilities w;
     l_BaseImageRunnerVersion := w_BaseImageRunnerVersion w; l_BaseImageTools := w_BaseImageTools w |}.

Definition macSettings (w : wireMacOS) (compact : Profile) : MacOS :=
  {| m_Enabled := wm_Enabled w; m_AdmissionPolicy := normalizeMacOSAdmissionPolicy (wm_AdmissionPolicy w);
     m_MixedPlatformAdmission := wm_MixedPlatformAdmission w; m_MixedProfileCohorts := wm_MixedProfileCohorts w;
     m_BaseVM := wm_BaseVM w; m_VMPrefix := wm_VMPrefix w; m_Builder := Profile_normalized (wm_Builder w);
     m_Compact := Profile_normalized compact; m_RootDiskOptions := wm_RootDiskOptions w;
     m_SharedDirectoryPath := wm_SharedDirectoryPath w; m_NestedVirtualization := wm_NestedVirtualization w;
     m_BaseImageCapabilities := wm_BaseImageCapabilities w; m_BaseImageRunnerVersion := wm_BaseImageRunnerVersion w;
     m_BaseImageTools := wm_BaseImageTools w |}.

(** The settings of [Decode] before they are validated. *)
Definition settings (w : wireConfig) (compact : Profile) : Config :=
  {| c_PollInterval := seconds (w_PollSeconds w); c_ReservationAge := seconds (w_LinuxReservationAgeSecs w);
     c_HostBudget := hostBudget (w_HostBudget w); c_RunnerVersionFloor := w_RunnerVersionFloor w;
     c_CacheGate := decodeCacheGate (w_CacheGate w); c_GuestArch := w_GuestArch w; c_Linux := linuxSettings w;
     c_Executor := decodeExecutor (w_Executor w); c_MacOS := macSettings (w_MacOSBurst w) compact; c_GitHub := w_GitHub w;
     c_Timeouts := {| to_GitHub := secondsOr (w_GitHubTimeoutSeconds w) 15; to_Tart := secondsOr (w_TartControlTimeoutSeconds w) 45;
       to_Boot := secondsOr (w_BootTimeoutSeconds w) 180; to_Assigned := secondsOr (w_AssignedTimeoutSeconds w) 900 |};
     c_Guards := normalizeGuards w; c_SessionRecovery := normalizeSessionRecovery w; c_SessionYield := normalizeSessionYield w;
     c_Membership := w_Membership w; c_UpdateDrain := normalizeUpdateDrain w; c_GuestLiveness := normalizeGuestLiveness w;
     c_Targets := normalizeTargets (w_Targets w); c_Priority := decodePriority (w_Priority w) |}.

(** ** From the settings to the file *)

(** The error names the setting. *)
Definition wholeSeconds (name : string) (value : Duration) : string + Z :=
  if Z.rem value Second =? 0 then inr (Z.quot value Second) else inl name.

Definition encodeProfile (p : Profile) : Profile :=
  let p := Profile_normalized p in
  {| p_ID := p_ID p; p_Label := p_Label p; p_Aliases := p_Aliases p; p_Resources := p_Resources p;
     p_CPU := r_CPU (p_Resources p); p_MemoryMiB := r_MemoryMiB (p_Resources p); p_DiskGiB := p_DiskGiB p;
     p_MaxActive := p_MaxActive p; p_OccupancyBudgetSeconds := p_OccupancyBudgetSeconds p |}.

Definition encodeProfiles (l : list Profile) : list Profile := map encodeProfile l.

Record wireGuestLiveness := { refusals : Z; windowSeconds : Z; probeSeconds : Z }.

(** What is written of a setting: nothing where it is the default. *)
Definition unless (fallback value written : Z) : Z := if value =? fallback then 0 else written.

Definition encodeGuestLiveness (g : GuestLiveness) : string + wireGuestLiveness :=
  if negb (GuestLiveness_Enabled g) then inr {| refusals := guestLivenessDisabledRefusals; windowSeconds := 0; probeSeconds := 0 |}
  else
    match wholeSeconds "guest liveness window" (gl_Window g), wholeSeconds "guest liveness probe timeout" (gl_ProbeTimeout g) with
    | inl e, _ | _, inl e => inl e
    | inr window, inr probe =>
        inr {| refusals := unless defaultGuestLivenessRefusals (gl_ConsecutiveRefusals g) (gl_ConsecutiveRefusals g);
               windowSeconds := unless defaultGuestLivenessWindow (gl_Window g) window;
               probeSeconds := unless defaultGuestLivenessProbe (gl_ProbeTimeout g) probe |}
    end.

Definition encodePriority (p : Priority) : string + option wirePriority :=
  match pr_Tiers p with
  | [] => inr None
  | tiers =>
      match wholeSeconds "priority escalation" (pr_EscalateAfter p) with
      | inl e => inl e
      | inr n => inr (Some {| wp_EscalateAfterSeconds := n; wp_Tiers := tiers |})
      end
  end.

Definition encodeCacheGate (gate : CacheGate) : option CacheGate := if bool_decide (gate = noCacheGate) then None else Some gate.

Definition encodeExecutor (x : Executor) : option Executor := if bool_decide (x_Backend x = ExecutorNone) then None else Some x.

Definition encodeBudget (budget : Resources) : option Resources := if bool_decide (budget = noResources) then None else Some budget.

Definition encodeMacOS (m : MacOS) : wireMacOS :=
  {| wm_Enabled := m_Enabled m;
     wm_AdmissionPolicy := if bool_decide (m_AdmissionPolicy m = MacOSAdmissionExclusive) then MacOSAdmissionExclusive else "";
     wm_MixedPlatformAdmission := m_MixedPlatformAdmission m; wm_MixedProfileCohorts := m_MixedProfileCohorts m;
     wm_BaseVM := m_BaseVM m; wm_BaseImageCapabilities := m_BaseImageCapabilities m;
     wm_BaseImageRunnerVersion := m_BaseImageRunnerVersion m; wm_BaseImageTools := m_BaseImageTools m;
     wm_VMPrefix := m_VMPrefix m; wm_Builder := encodeProfile (m_Builder m); wm_Compact := None;
     wm_Maestro := Some (encodeProfile (m_Compact m)); wm_RootDiskOptions := m_RootDiskOptions m;
     wm_SharedDirectoryPath := m_SharedDirectoryPath m; wm_NestedVirtualization := false |}.

Definition unlessF (fallback : Z) (value : float64) : float64 := if feq value (floatOf fallback) then floatOf 0 else value.

(** The durations of [Encode], in its order. *)
Record Spans := {
  sp_poll : Z; sp_reservation : Z; sp_github : Z; sp_tart : Z; sp_boot : Z; sp_assigned : Z; sp_sessionWindow : Z;
  sp_yieldBlocked : Z; sp_yieldHealthy : Z; sp_drainPending : Z; sp_drainMaxWait : Z; sp_drainCooldown : Z
}.

Definition spansOf (c : Config) : string + Spans :=
  let whole name value k := match wholeSeconds name value with inl e => inl e | inr n => k n end in
  whole "poll interval" (c_PollInterval c) (fun poll =>
  whole "reservation age" (c_ReservationAge c) (fun reservation =>
  whole "GitHub timeout" (to_GitHub (c_Timeouts c)) (fun github =>
  whole "Tart timeout" (to_Tart (c_Timeouts c)) (fun tart =>
  whole "boot timeout" (to_Boot (c_Timeouts c)) (fun boot =>
  whole "assigned timeout" (to_Assigned (c_Timeouts c)) (fun assigned =>
  whole "session failure window" (sr_FailureWindow (c_SessionRecovery c)) (fun window =>
  whole "session yield blocked bound" (sy_BlockedFor (c_SessionYield c)) (fun blocked =>
  whole "session yield healthy bound" (sy_HealthyFor (c_SessionYield c)) (fun healthy =>
  whole "update drain pending bound" (ud_PendingFor (c_UpdateDrain c)) (fun pending =>
  whole "update drain max wait bound" (ud_MaxWait (c_UpdateDrain c)) (fun maxWait =>
  whole "update drain cooldown bound" (ud_Cooldown (c_UpdateDrain c)) (fun cooldown =>
    inr {| sp_poll := poll; sp_reservation := reservation; sp_github := github; sp_tart := tart; sp_boot := boot;
           sp_assigned := assigned; sp_sessionWindow := window; sp_yieldBlocked := blocked; sp_yieldHealthy := healthy;
           sp_drainPending := pending; sp_drainMaxWait := maxWait; sp_drainCooldown := cooldown |})))))))))))).

Definition wireWith (c : Config) (sp : Spans) (priority : option wirePriority) (liveness : wireGuestLiveness) : wireConfig :=
  let l := c_Linux c in let g := c_Guards c in let d := c_UpdateDrain c in let y := c_SessionYield c in let r := c_SessionRecovery c in
  {| w_BaseVM := l_BaseVM l; w_BaseImageCapabilities := l_BaseImageCapabilities l;
     w_BaseImageRunnerVersion := l_BaseImageRunnerVersion l; w_RunnerVersionFloor := c_RunnerVersionFloor c;
     w_BaseImageTools := l_BaseImageTools l; w_GuestArch := c_GuestArch c; w_CacheGate := encodeCacheGate (c_CacheGate c);
     w_VMPrefix := l_VMPrefix l; w_PollSeconds := sp_poll sp; w_MaxLinuxWhenMacOSIdle := l_MaxInstances l;
     w_MaxLinuxCPU := r_CPU (l_Capacity l); w_MaxLinuxMemoryMiB := r_MemoryMiB (l_Capacity l);
     w_HostBudget := encodeBudget (c_HostBudget c); w_LinuxReservationAgeSecs := sp_reservation sp;
     w_LinuxProfiles := encodeProfiles (l_Profiles l); w_Executor := encodeExecutor (c_Executor c);
     w_LinuxNestedVirtualization := l_NestedVirtualization l; w_LinuxSerialLogDirectory := l_SerialLogDirectory l;
     w_MinFreeDiskGiB := g_MinFreeDiskGiB g;
     w_MinFreeInodePercent := unlessF defaultMinFreeInodePercent (g_MinFreeInodePercent g);
     w_MinAvailableMemoryMiB := g_MinAvailableMemoryMiB g; w_MaxSwapUsedMiB := g_MaxSwapUsedMiB g;
     w_SwapOutPagesPerSecond := if feq (g_SwapOutPagesPerSecond g) (floatOf DefaultSwapOutPagesPerSecond) then None
                                else Some (g_SwapOutPagesPerSecond g);
     w_MaxLoadAverage := g_MaxLoadAverage g; w_MinCPUIdlePercent := g_MinCPUIdlePercent g;
     w_PressureMemoryAccounting := g_PressureMemoryAccounting g; w_ElasticHostEnvelope := g_ElasticHostEnvelope g;
     w_GitHubTimeoutSeconds := sp_github sp; w_TartControlTimeoutSeconds := sp_tart sp; w_BootTimeoutSeconds := sp_boot sp;
     w_AssignedTimeoutSeconds := sp_assigned sp;
     w_GitHubSessionMaxIngestFailures := unless defaultSessionMaxIngestFailures (sr_MaxConsecutiveFailures r) (sr_MaxConsecutiveFailures r);
     w_GitHubSessionFailureWindowSeconds := unless defaultSessionFailureWindow (sr_FailureWindow r) (sp_sessionWindow sp);
     w_SessionYieldDisabled := negb (sy_Enabled y);
     w_SessionYieldBlockedForSeconds := unless defaultSessionYieldBlockedFor (sy_BlockedFor y) (sp_yieldBlocked sp);
     w_SessionYieldHealthyForSeconds := unless defaultSessionYieldHealthyFor (sy_HealthyFor y) (sp_yieldHealthy sp);
     w_Membership := c_Membership c; w_UpdateDrainDisabled := negb (ud_Enabled d);
     w_UpdateDrainPendingForSeconds := unless defaultUpdateDrainPendingFor (ud_PendingFor d) (sp_drainPending sp);
     w_UpdateDrainMaxWaitSeconds := unless defaultUpdateDrainMaxWait (ud_MaxWait d) (sp_drainMaxWait sp);
     w_UpdateDrainCooldownSeconds := unless defaultUpdateDrainCooldown (ud_Cooldown d) (sp_drainCooldown sp);
     w_GuestLivenessRefusals := refusals liveness; w_GuestLivenessWindowSeconds := windowSeconds liveness;
     w_GuestLivenessProbeTimeoutSeconds := probeSeconds liveness; w_MacOSBurst := encodeMacOS (c_MacOS c);
     w_GitHub := c_GitHub c; w_Targets := normalizeTargets (c_Targets c); w_Priority := priority |}.

(** [Encode] after its validation, up to the JSON text. *)
Definition wireOf (c : Config) : string + wireConfig :=
  match spansOf c with
  | inl e => inl e
  | inr sp =>
      match encodePriority (c_Priority c) with
      | inl e => inl e
      | inr priority =>
          match encodeGuestLiveness (c_GuestLiveness c) with
          | inl e => inl e
          | inr liveness => inr (wireWith c sp priority liveness)
          end
      end
  end.

(** The fields tagged out of the file are empty after reading it. *)
Definition unmarshalledProfile (p : Profile) : Profile := withResources p noResources.

Definition unmarshalledMacOS (w : wireMacOS) : wireMacOS :=
  {| wm_Enabled := wm_Enabled w; wm_AdmissionPolicy := wm_AdmissionPolicy w;
     wm_MixedPlatformAdmission := wm_MixedPlatformAdmission w; wm_MixedProfileCohorts := wm_MixedProfileCohorts w;
     wm_BaseVM := wm_BaseVM w; wm_BaseImageCapabilities := wm_BaseImageCapabilities w;
     wm_BaseImageRunnerVersion := wm_BaseImageRunnerVersion w; wm_BaseImageTools := wm_BaseImageTools w;
     wm_VMPrefix := wm_VMPrefix w; wm_Builder := unmarshalledProfile (wm_Builder w);
     wm_Compact := unmarshalledProfile <$> wm_Compact w; wm_Maestro := unmarshalledProfile <$> wm_Maestro w;
     wm_RootDiskOptions := wm_RootDiskOptions w; wm_SharedDirectoryPath := wm_SharedDirectoryPath w;
     wm_NestedVirtualization := wm_NestedVirtualization w |}.

Definition unmarshalled (w : wireConfig) : wireConfig :=
  {| w_BaseVM := w_BaseVM w; w_BaseImageCapabilities := w_BaseImageCapabilities w;
     w_BaseImageRunnerVersion := w_BaseImageRunnerVersion w; w_RunnerVersionFloor := w_RunnerVersionFloor w;
     w_BaseImageTools := w_BaseImageTools w; w_GuestArch := w_GuestArch w; w_CacheGate := w_CacheGate w;
     w_VMPrefix := w_VMPrefix w; w_PollSeconds := w_PollSeconds w; w_MaxLinuxWhenMacOSIdle := w_MaxLinuxWhenMacOSIdle w;
     w_MaxLinuxCPU := w_MaxLinuxCPU w; w_MaxLinuxMemoryMiB := w_MaxLinuxMemoryMiB w; w_HostBudget := w_HostBudget w;
     w_LinuxReservationAgeSecs := w_LinuxReservationAgeSecs w; w_LinuxProfiles := map unmarshalledProfile (w_LinuxProfiles w);
     w_Executor := w_Executor w; w_LinuxNestedVirtualization := w_LinuxNestedVirtualization w;
     w_LinuxSerialLogDirectory := w_LinuxSerialLogDirectory w; w_MinFreeDiskGiB := w_MinFreeDiskGiB w;
     w_MinFreeInodePercent := w_MinFreeInodePercent w; w_MinAvailableMemoryMiB := w_MinAvailableMemoryMiB w;
     w_MaxSwapUsedMiB := w_MaxSwapUsedMiB w; w_SwapOutPagesPerSecond := w_SwapOutPagesPerSecond w;
     w_MaxLoadAverage := w_MaxLoadAverage w; w_MinCPUIdlePercent := w_MinCPUIdlePercent w;
     w_PressureMemoryAccounting := w_PressureMemoryAccounting w; w_ElasticHostEnvelope := w_ElasticHostEnvelope w;
     w_GitHubTimeoutSeconds := w_GitHubTimeoutSeconds w; w_TartControlTimeoutSeconds := w_TartControlTimeoutSeconds w;
     w_BootTimeoutSeconds := w_BootTimeoutSeconds w; w_AssignedTimeoutSeconds := w_AssignedTimeoutSeconds w;
     w_GitHubSessionMaxIngestFailures := w_GitHubSessionMaxIngestFailures w;
     w_GitHubSessionFailureWindowSeconds := w_GitHubSessionFailureWindowSeconds w;
     w_SessionYieldDisabled := w_SessionYieldDisabled w; w_SessionYieldBlockedForSeconds := w_SessionYieldBlockedForSeconds w;
     w_SessionYieldHealthyForSeconds := w_SessionYieldHealthyForSeconds w; w_Membership := w_Membership w;
     w_UpdateDrainDisabled := w_UpdateDrainDisabled w; w_UpdateDrainPendingForSeconds := w_UpdateDrainPendingForSeconds w;
     w_UpdateDrainMaxWaitSeconds := w_UpdateDrainMaxWaitSeconds w; w_UpdateDrainCooldownSeconds := w_UpdateDrainCooldownSeconds w;
     w_GuestLivenessRefusals := w_GuestLivenessRefusals w; w_GuestLivenessWindowSeconds := w_GuestLivenessWindowSeconds w;
     w_GuestLivenessProbeTimeoutSeconds := w_GuestLivenessProbeTimeoutSeconds w; w_MacOSBurst := unmarshalledMacOS (w_MacOSBurst w);
     w_GitHub := w_GitHub w; w_Targets := w_Targets w; w_Priority := w_Priority w |}.

(** ** Refusals

    One constructor for each message; the texts also quote the offending names. *)
Inductive Invalid :=
  | InvalidIntervals | InvalidEscalationWithoutTier | InvalidTierCount | InvalidEscalation | InvalidTierName
  | InvalidReservedTier | InvalidDuplicateTier | InvalidTierRules | InvalidTierPattern
  | InvalidTimeouts | InvalidAssignedTimeout | InvalidSessionFailures | InvalidSessionWindow | InvalidYieldBound
  | InvalidMembershipMode | InvalidMembershipAudit | InvalidMembershipScopes | InvalidDrainBound
  | InvalidLivenessPartial | InvalidLivenessBounds | InvalidAuditMinutes | InvalidNoTechnology | InvalidBaseVM
  | InvalidMaxInstances | InvalidCapacity | InvalidUnfillableSlots | InvalidNestedMacOS | InvalidDiskReserve
  | InvalidRootDisk | InvalidSharedDirectory | InvalidAdmissionPolicy | InvalidGuards
  | InvalidLinuxProfile | InvalidOccupancyBudget | InvalidProfileExceedsCapacity | InvalidDuplicateProfile
  | InvalidTarget | InvalidSchedulingClass | InvalidDuplicateTarget | InvalidMacOSBase | InvalidMacOSProfile
  | InvalidHostBudget | InvalidProfileExceedsBudget
  | InvalidExecutorSettings | InvalidExecutorBackend | InvalidExecutorImage | InvalidEmulatorSlots | InvalidKVMProfile
  | InvalidHoldCommand | InvalidRetiredLinux | InvalidCapability | InvalidDuplicateCapability | InvalidUnknownProfile
  | InvalidMissingCapability | InvalidRunnerVersion | InvalidTool | InvalidDuplicateTool
  | InvalidCacheGate | InvalidGuestArch
  | InvalidVector | InvalidFractionalMemory | InvalidEmptyLabel | InvalidLabelGrammar | InvalidLabelVector
  | InvalidAmbiguousLabel
  | InvalidCompactTwice | InvalidNotWholeSeconds (name : string)
  | InvalidDiskFloor | InvalidMixedAuthority | InvalidGitHubApp | InvalidScaleSet | InvalidUntruthfulCapacity
  | InvalidLookahead | InvalidDuplicateScaleSet | InvalidMissingScaleSet | InvalidInstallations | InvalidInstallation
  | InvalidScopeName | InvalidDuplicateScope | InvalidScopeURL | InvalidScopeTargets | InvalidUnassignedTarget
  | InvalidSharedLabels | InvalidScaleSetLabels | InvalidForeignLabel | InvalidScopeWithoutSet.

(** A check that passes is [None]; the first that does not decides. *)
Definition refuseIf (b : bool) (e : Invalid) : option Invalid := if b then Some e else None.

Definition andThen (first rest : option Invalid) : option Invalid := match first with Some e => Some e | None => rest end.

Declare Scope check_scope.
Notation "a >>> b" := (andThen a b) (at level 62, right associativity) : check_scope.
#[global] Open Scope check_scope.

Lemma andThen_None a b : andThen a b = None <-> a = None /\ b = None.
Proof. destruct a; simpl; intuition congruence. Qed.

Lemma refuseIf_None b e : refuseIf b e = None <-> b = false.
Proof. destruct b; naive_solver. Qed.

Fixpoint checkEach {A} (check : A -> option Invalid) (l : list A) : option Invalid :=
  match l with [] => None | x :: l => check x >>> checkEach check l end.

Lemma checkEach_None {A} (check : A -> option Invalid) l : checkEach check l = None <-> forall x, In x l -> check x = None.
Proof. induction l as [|y l IH]; simpl; [done|]. rewrite andThen_None, IH.
  split; [intros [? ?] x [<-|?]; auto|auto].
Qed.
