(* ===== verification/Labels.v ===== *)
(** * Runner labels of the profiles (internal/config/labels.go)

    Every profile has one canonical label, which spells out its vector, and
    aliases.  [profileLabelSets] refuses a configuration in which one label would
    name two profiles, and an alias of the canonical form that spells another
    vector.  Text is ASCII, as in [GoStrings]. *)

From Stdlib Require Import ZArith Lia String Ascii List.
From stdpp Require Import base tactics list gmap strings pretty.
From S2P Require Import Prelude GoStrings Liveness Domain Inbox Bindings Config.

Definition folded (value : string) : string := lowered (trimmed value).

(** ** Grammars *)

Definition isWord (s : bytes) : bool := match s with [] => false | _ => forallb isAlnum s end.
Definition isUnderscored (s : bytes) : bool :=
  match s with [] => false | _ => forallb (fun c => isAlnum c || bool_decide (c = "_"%char)) s end.
Definition isDigits (s : bytes) : bool := match s with [] => false | _ => forallb isDigit s end.

(** [^(?i:trf)-[A-Za-z0-9]+-[A-Za-z0-9_]+-[0-9]+x[0-9]+$]. *)
Definition canonicalLabelGrammar (label : string) : bool :=
  match SplitOn "-"%char (bytesOf label) with
  | [trf; os; arch; size] =>
      bool_decide (ToLower trf = bytesOf "trf") && isWord os && isUnderscored arch
      && match CutAt "x"%char size with Some (cpu, memory) => isDigits cpu && isDigits memory | None => false end
  | _ => false
  end.

(** The same expression as for the name of an instance. *)
Definition runnerLabelGrammar (label : string) : bool := instanceName label.

(** ** Label sets *)

Record LabelSet := { ls_Canonical : string; ls_Aliases : list string }.

Definition noLabels : LabelSet := {| ls_Canonical := ""; ls_Aliases := [] |}.

(** The closure [add] of [Advertise]. *)
Definition addLabel (acc : list string * gset string) (label : string) : list string * gset string :=
  let key := folded label in
  if bool_decide (key = "") || bool_decide (key ∈ snd acc) then acc else (fst acc ++ [label], {[key]} ∪ snd acc).

Definition LabelSet_Advertise (s : LabelSet) (configured : list string) : list string :=
  fst (fold_left addLabel (configured ++ ls_Canonical s :: ls_Aliases s) ([], ∅)).

Definition LabelSet_All (s : LabelSet) : list string := LabelSet_Advertise s [].

Definition LabelSet_Contains (s : LabelSet) (label : string) : bool :=
  EqualFold label (ls_Canonical s) || existsb (EqualFold label) (ls_Aliases s).

(** ** The labels of a profile *)

Definition canonicalLabelPrefix : string := "trf".
Definition mibPerGiB : Z := 1024.

Definition labelText (os arch : string) (cpu gib : Z) : string :=
  canonicalLabelPrefix +:+ "-" +:+ os +:+ "-" +:+ arch +:+ "-" +:+ pretty cpu +:+ "x" +:+ pretty gib.

Definition canonicalLabel (os arch : string) (r : Resources) : Invalid + string :=
  if (r_CPU r <=? 0) || (r_MemoryMiB r <=? 0) then inl InvalidVector
  else if negb (Z.rem (r_MemoryMiB r) mibPerGiB =? 0) then inl InvalidFractionalMemory
  else inr (labelText os arch (r_CPU r) (Z.quot (r_MemoryMiB r) mibPerGiB)).

Definition checkAlias (alias canonical : string) : option Invalid :=
  refuseIf (bool_decide (trimmed alias = "")) InvalidEmptyLabel
  >>> refuseIf (negb (runnerLabelGrammar alias)) InvalidLabelGrammar
  >>> refuseIf (canonicalLabelGrammar alias && negb (EqualFold alias canonical)) InvalidLabelVector.

Fixpoint addAliases (canonical : string) (seen : gset string) (aliases : list string) : Invalid + list string :=
  match aliases with
  | [] => inr []
  | alias :: rest =>
      match checkAlias alias canonical with
      | Some e => inl e
      | None =>
          if bool_decide (folded alias ∈ seen) then addAliases canonical seen rest
          else match addAliases canonical ({[folded alias]} ∪ seen) rest with
               | inl e => inl e
               | inr kept => inr (alias :: kept)
               end
      end
  end.

Definition labelSet (p : Profile) (os arch : string) : Invalid + LabelSet :=
  let p := Profile_normalized p in
  match canonicalLabel os arch (p_Resources p) with
  | inl e => inl e
  | inr canonical =>
      match addAliases canonical {[folded canonical]} (p_Label p :: p_Aliases p) with
      | inl e => inl e
      | inr aliases => inr {| ls_Canonical := canonical; ls_Aliases := aliases |}
      end
  end.

(** ** The labels of a node *)

Definition guestArchARM64 : string := "arm64".
Definition guestArchAMD64 : string := "amd64".
Definition canonicalLinuxOS : string := "linux".
Definition canonicalMacOS : string := "macos".

Definition GuestArchOrDefault (c : Config) : string :=
  if bool_decide (trimmed (c_GuestArch c) = "") then guestArchARM64 else trimmed (c_GuestArch c).

Definition validateGuestArch (c : Config) : option Invalid :=
  let arch := GuestArchOrDefault c in
  refuseIf (negb (bool_decide (arch = guestArchARM64)) && negb (bool_decide (arch = guestArchAMD64))) InvalidGuestArch
  >>> refuseIf (m_Enabled (c_MacOS c) && negb (bool_decide (arch = guestArchARM64))) InvalidGuestArch.

Abbreviation LabelSets := (gmap string LabelSet).

(** [claimed] holds the labels that name a profile already. *)
Fixpoint claimLabels (claimed : gset string) (labels : list string) : option (gset string) :=
  match labels with
  | [] => Some claimed
  | label :: rest => if bool_decide (folded label ∈ claimed) then None else claimLabels ({[folded label]} ∪ claimed) rest
  end.

Definition addLabelSet (sets : LabelSets) (claimed : gset string) (os arch : string) (p : Profile)
    : Invalid + (LabelSets * gset string) :=
  match labelSet p os arch with
  | inl e => inl e
  | inr set =>
      match claimLabels claimed (LabelSet_All set) with
      | None => inl InvalidAmbiguousLabel
      | Some claimed => inr (<[p_ID p := set]> sets, claimed)
      end
  end.

(** The sets made so far come with the error. *)
Fixpoint addLabelSets (sets : LabelSets) (claimed : gset string) (arch : string) (l : list (string * Profile))
    : LabelSets * option Invalid :=
  match l with
  | [] => (sets, None)
  | (os, p) :: rest =>
      match addLabelSet sets claimed os arch p with
      | inl e => (sets, Some e)
      | inr (sets, claimed) => addLabelSets sets claimed arch rest
      end
  end.

(** Every profile a guest can boot from, with the system of its label. *)
Definition labelledProfiles (c : Config) : list (string * Profile) :=
  map (fun p => (canonicalLinuxOS, p)) (l_Profiles (c_Linux c))
  ++ (if m_Enabled (c_MacOS c) then [(canonicalMacOS, m_Builder (c_MacOS c)); (canonicalMacOS, m_Compact (c_MacOS c))] else []).

Definition profileLabelSets (c : Config) : LabelSets * option Invalid :=
  addLabelSets ∅ ∅ (GuestArchOrDefault c) (labelledProfiles c).

Definition ProfileLabelSets (c : Config) : LabelSets := fst (profileLabelSets c).
