(* ===== verification/Validation.v ===== *)
(** * Which settings are acceptable
      (internal/config: config.go, priority.go, capabilities.go, imagetools.go,
      runnerversion.go and cachegate.go)

    [Validate] decides from the file alone; the first check that fails decides the
    error.  [Decode] reads and validates a file, [Encode] validates and writes one.
    What [net/url] and [net] make of a text is the class [NetText], and no theorem
    depends on it. *)

From Stdlib Require Import ZArith Lia String Ascii List Floats.SpecFloat.
From stdpp Require Import base tactics list gmap strings.
From S2P Require Import Prelude GoStrings Liveness Domain PriorityPolicy HostProbe Inbox Releases Config Labels.
From S2P Require Membership.

Definition within (low value high : Z) : bool := (low <=? value) && (value <=? high).

(** ** Grammars *)

Definition isSmall (c : ascii) : bool :=
  let n := nat_of_ascii c in ((48 <=? n)%nat && (n <=? 57)%nat) || ((97 <=? n)%nat && (n <=? 122)%nat).

(** [^[a-z0-9]([a-z0-9-]*[a-z0-9])?$]. *)
Definition identifierGrammar (s : bytes) : bool :=
  match s, rev s with
  | first :: _, last :: _ => isSmall first && isSmall last && forallb (fun c => isSmall c || bool_decide (c = "-"%char)) s
  | _, _ => false
  end.

Definition priorityTierGrammar (name : string) : bool := identifierGrammar (bytesOf name).
Definition capabilityGrammar (name : string) : bool := identifierGrammar (bytesOf name).

(** [^[0-9]+\.[0-9]+\.[0-9]+$]. *)
Definition runnerVersionGrammar (version : string) : bool :=
  match SplitOn "."%char (bytesOf version) with
  | [a; b; c] => isDigits a && isDigits b && isDigits c
  | _ => false
  end.

(** [^[a-z0-9]([a-z0-9-]*[a-z0-9])?@[0-9]+(\.[0-9]+)*$]. *)
Definition toolVersionGrammar (tool : string) : bool :=
  match CutAt "@"%char (bytesOf tool) with
  | Some (name, version) => identifierGrammar name && forallb isDigits (SplitOn "."%char version)
  | None => false
  end.

(** ** Priority *)

Definition validateTierRules (tier : PriorityTier) : option Invalid :=
  refuseIf (bool_decide (tier_Match tier = [])) InvalidTierRules
  >>> refuseIf (16 <? Z.of_nat (length (tier_Match tier))) InvalidTierRules
  >>> checkEach (fun rule =>
        refuseIf (bool_decide (match_Scope rule = "") && bool_decide (match_WorkflowRef rule = "") && bool_decide (match_JobName rule = ""))
          InvalidTierRules
        >>> checkEach (fun pattern => refuseIf (256 <? Z.of_nat (String.length pattern)) InvalidTierPattern)
              [match_Scope rule; match_WorkflowRef rule; match_JobName rule]) (tier_Match tier).

Fixpoint validateTiers (seen : gset string) (tiers : list PriorityTier) : option Invalid :=
  match tiers with
  | [] => None
  | tier :: rest =>
      refuseIf (negb (priorityTierGrammar (tier_Name tier))) InvalidTierName
      >>> refuseIf (bool_decide (tier_Name tier = DefaultPriorityTier)) InvalidReservedTier
      >>> refuseIf (bool_decide (tier_Name tier ∈ seen)) InvalidDuplicateTier
      >>> validateTierRules tier
      >>> validateTiers ({[tier_Name tier]} ∪ seen) rest
  end.

Definition Priority_validate (p : Priority) : option Invalid :=
  match pr_Tiers p with
  | [] => refuseIf (negb (pr_EscalateAfter p =? 0)) InvalidEscalationWithoutTier
  | tiers =>
      refuseIf (8 <? Z.of_nat (length tiers)) InvalidTierCount
      >>> refuseIf (negb (within Minute (pr_EscalateAfter p) (24 * Hour))) InvalidEscalation
      >>> validateTiers ∅ tiers
  end.

(** ** Membership and guest liveness *)

Definition DefaultParkedScaleSetAuditInterval : Duration := 15 * Minute.

Definition ParkedScaleSetAuditInterval (g : GitHub) : Duration :=
  match h_ParkedScaleSetAuditMinutes g with
  | None => DefaultParkedScaleSetAuditInterval
  | Some n => if n <=? 0 then 0 else mul64 n Minute
  end.

Definition validateMembership (c : Config) : option Invalid :=
  match Membership.ParseMode (c_Membership c) with
  | None => Some InvalidMembershipMode
  | Some mode =>
      if negb (Membership.Mode_Enabled mode) then None
      else refuseIf (ParkedScaleSetAuditInterval (c_GitHub c) <=? 0) InvalidMembershipAudit
           >>> refuseIf (bool_decide (length (h_Scopes (c_GitHub c)) = 0%nat)) InvalidMembershipScopes
  end.

Definition GuestLiveness_validate (g : GuestLiveness) : option Invalid :=
  if negb (GuestLiveness_Enabled g) then
    refuseIf (negb (gl_ConsecutiveRefusals g =? 0) || negb (gl_Window g =? 0) || negb (gl_ProbeTimeout g =? 0)) InvalidLivenessPartial
  else
    refuseIf (negb (within 3 (gl_ConsecutiveRefusals g) 100)) InvalidLivenessBounds
    >>> refuseIf (negb (within (30 * Second) (gl_Window g) Hour)) InvalidLivenessBounds
    >>> refuseIf (negb (within Second (gl_ProbeTimeout g) Minute)) InvalidLivenessBounds.

(** ** Host budget and slots *)

Definition exposedProfiles (c : Config) : list string :=
  map s_Profile (h_ScaleSets (c_GitHub c) ++ flat_map sc_ScaleSets (h_Scopes (c_GitHub c))).

Definition budgetedProfiles (c : Config) : list Profile :=
  l_Profiles (c_Linux c) ++ (if m_Enabled (c_MacOS c) then [m_Builder (c_MacOS c); m_Compact (c_MacOS c)] else []).

Definition exceeds (r limit : Resources) : bool := (r_CPU limit <? r_CPU r) || (r_MemoryMiB limit <? r_MemoryMiB r).

Definition validateHostBudget (c : Config) : option Invalid :=
  let budget := c_HostBudget c in
  if bool_decide (budget = noResources) then None
  else
    refuseIf ((r_CPU budget <=? 0) || (r_MemoryMiB budget <=? 0)) InvalidHostBudget
    >>> checkEach (fun raw =>
          let p := Profile_normalized raw in
          refuseIf (bool_decide (p_ID p ∈ exposedProfiles c) && exceeds (p_Resources p) budget) InvalidProfileExceedsBudget)
        (budgetedProfiles c).

Definition narrowed (limit budget : Z) : Z := if 0 <? budget then Z.min limit budget else limit.

Definition fillableStep (envelope : Resources) (fillable : Z) (raw : Profile) : Z :=
  let r := p_Resources (Profile_normalized raw) in
  if (r_CPU r <=? 0) || (r_MemoryMiB r <=? 0) then fillable
  else Z.max fillable (Z.min (Z.quot (r_CPU envelope) (r_CPU r)) (Z.quot (r_MemoryMiB envelope) (r_MemoryMiB r))).

Definition fillableSlots (c : Config) : Z :=
  let capacity := l_Capacity (c_Linux c) in
  let envelope := {| r_CPU := narrowed (r_CPU capacity) (r_CPU (c_HostBudget c));
                     r_MemoryMiB := narrowed (r_MemoryMiB capacity) (r_MemoryMiB (c_HostBudget c)) |} in
  fold_left (fillableStep envelope) (l_Profiles (c_Linux c)) 0.

(** ** The executor *)

(** [filepath.Clean] of an absolute path. *)
Definition cleanStep (kept : list bytes) (part : bytes) : list bytes :=
  if bool_decide (part = []) || bool_decide (part = bytesOf ".") then kept
  else if bool_decide (part = bytesOf "..") then tail kept
  else part :: kept.

Definition Clean (path : string) : string :=
  "/" +:+ Join (map string_of_list_ascii (rev (fold_left cleanStep (SplitOn "/"%char (bytesOf path)) []))) "/".

Definition dedicatedDirectory (dir : string) : bool :=
  IsAbs dir && bool_decide (Clean dir = dir) && negb (bool_decide (dir = "/"))
  && negb (ContainsAny (bytesOf dir) [","; "013"; "010"; "000"]%char).

Definition validateExecutor (c : Config) : option Invalid :=
  let x := c_Executor c in
  if bool_decide (x_Backend x = ExecutorNone) then refuseIf (negb (bool_decide (x = noExecutor))) InvalidExecutorSettings
  else
    refuseIf (negb (bool_decide (x_Backend x = ExecutorPodman))) InvalidExecutorBackend
    >>> refuseIf (negb (ValidateImageReference (x_Image x))) InvalidExecutorImage
    >>> (if bool_decide (x_EmulatorSlotsDir x = "") then None
         else refuseIf (negb (dedicatedDirectory (x_EmulatorSlotsDir x))) InvalidEmulatorSlots
              >>> refuseIf (bool_decide (x_KVMProfiles x = [])) InvalidEmulatorSlots)
    >>> checkEach (fun profile => refuseIf (negb (bool_decide (profile ∈ map p_ID (l_Profiles (c_Linux c))))) InvalidKVMProfile)
          (x_KVMProfiles x)
    >>> checkEach (fun argument => refuseIf (bool_decide (trimmed argument = "")) InvalidHoldCommand) (x_HoldCommand x).

(** ** Guest images *)

(** Every scale set of the node, the flat list first; with the scope's name,
    empty for the flat list. *)
Definition ScopedScaleSets (c : Config) : list (string * ScaleSet) :=
  map (pair "") (h_ScaleSets (c_GitHub c))
  ++ flat_map (fun scope => map (pair (sc_Name scope)) (sc_ScaleSets scope)) (h_Scopes (c_GitHub c)).

Definition capabilityPlatform (c : Config) (profile : string) : option Platform :=
  if existsb (fun p => bool_decide (p_ID p = profile)) (l_Profiles (c_Linux c)) then Some PlatformLinux
  else if m_Enabled (c_MacOS c)
          && (bool_decide (profile = p_ID (m_Builder (c_MacOS c))) || bool_decide (profile = p_ID (m_Compact (c_MacOS c))))
  then Some PlatformMacOS else None.

Definition validateRetiredLinuxExecution (c : Config) : option Invalid :=
  if ExecutesLinux c then None
  else checkEach (fun scoped => refuseIf (bool_decide (capabilityPlatform c (s_Profile (snd scoped)) = None)) InvalidRetiredLinux)
         (ScopedScaleSets c).

Fixpoint distinctNames (grammar : string -> bool) (malformed duplicate : Invalid) (seen : gset string) (l : list string)
    : Invalid + gset string :=
  match l with
  | [] => inr seen
  | x :: rest =>
      if negb (grammar x) then inl malformed
      else if bool_decide (x ∈ seen) then inl duplicate
      else distinctNames grammar malformed duplicate ({[x]} ∪ seen) rest
  end.

Definition capabilitySet (l : list string) : Invalid + gset string :=
  distinctNames capabilityGrammar InvalidCapability InvalidDuplicateCapability ∅ l.

(** The two images of a node: what the Linux one declares, then the macOS one. *)
Definition baseImages (c : Config) : Invalid + (gset string * gset string) :=
  match capabilitySet (l_BaseImageCapabilities (c_Linux c)) with
  | inl e => inl e
  | inr linux =>
      match capabilitySet (m_BaseImageCapabilities (c_MacOS c)) with
      | inl e => inl e
      | inr mac => inr (linux, mac)
      end
  end.

Definition imageOn (images : gset string * gset string) (platform : Platform) : gset string :=
  if bool_decide (platform = PlatformMacOS) then snd images else fst images.

Definition validateCapabilities (c : Config) : option Invalid :=
  match baseImages c with
  | inl e => Some e
  | inr images =>
      checkEach (fun scoped =>
        match capabilitySet (s_RequiresCapabilities (snd scoped)) with
        | inl e => Some e
        | inr required =>
            if bool_decide (required = ∅) then None
            else
              match capabilityPlatform c (s_Profile (snd scoped)) with
              | None => Some InvalidUnknownProfile
              | Some platform => refuseIf (negb (bool_decide (required ⊆ imageOn images platform))) InvalidMissingCapability
              end
        end) (ScopedScaleSets c)
  end.

Definition declaredVersion (version : string) : option Invalid :=
  refuseIf (negb (bool_decide (version = "")) && negb (runnerVersionGrammar version)) InvalidRunnerVersion.

Definition validateRunnerVersions (c : Config) : option Invalid :=
  declaredVersion (l_BaseImageRunnerVersion (c_Linux c))
  >>> declaredVersion (m_BaseImageRunnerVersion (c_MacOS c))
  >>> declaredVersion (c_RunnerVersionFloor c).

Definition validateToolList (tools : list string) : option Invalid :=
  match distinctNames toolVersionGrammar InvalidTool InvalidDuplicateTool ∅ tools with inl e => Some e | inr _ => None end.

Definition validateTools (c : Config) : option Invalid :=
  validateToolList (l_BaseImageTools (c_Linux c))
  >>> validateToolList (m_BaseImageTools (c_MacOS c))
  >>> checkEach (fun scoped =>
        validateToolList (s_RequiresTools (snd scoped))
        >>> refuseIf (negb (bool_decide (s_RequiresTools (snd scoped) = []))
                      && bool_decide (capabilityPlatform c (s_Profile (snd scoped)) = None)) InvalidUnknownProfile)
      (ScopedScaleSets c).

(** ** The cache gate *)

(** A parsed [url.URL] and its accessors. *)
Record URL := {
  u_Scheme : string; u_Host : string; u_HasUser : bool; u_RawQuery : string; u_Fragment : string; u_Path : string;
  u_Hostname : string; u_Port : string
}.

Class NetText := {
  parseURL : string -> option URL;
  privateIP : string -> bool;
  loopbackIP : string -> bool
}.

Definition isBase64 (c : ascii) : bool := isAlnum c || bool_decide (c = "+"%char) || bool_decide (c = "/"%char).

(** How many bytes [base64.StdEncoding] decodes to; line breaks are skipped. *)
Fixpoint quanta (s : bytes) : option Z :=
  match s with
  | [] => Some 0
  | a :: b :: c :: d :: rest =>
      if isBase64 a && isBase64 b && isBase64 c && isBase64 d then Z.add 3 <$> quanta rest
      else if isBase64 a && isBase64 b && bool_decide (d = "="%char) && bool_decide (rest = []) then
        if bool_decide (c = "="%char) then Some 1 else if isBase64 c then Some 2 else None
      else None
  | _ => None
  end.

Definition base64Length (s : string) : option Z :=
  quanta (List.filter (fun c => negb (bool_decide (c = "013"%char) || bool_decide (c = "010"%char))) (bytesOf s)).

(** The length of an Ed25519 public key is 32. *)
Definition ParsePublicKey (encoded : string) : bool := bool_decide (base64Length encoded = Some 32).

Section Gate.
Context `{NetText}.

Definition NPMPrefix : string := "/npm/".
Definition NPMContainerHost : string := "host.containers.internal".

Definition validateNPMRegistry (gate : URL) (raw : string) (podman : bool) : option Invalid :=
  let host := u_Hostname gate in
  let direct := privateIP host || (podman && loopbackIP host) in
  refuseIf (negb (bool_decide (u_Scheme gate = "http")) || negb direct) InvalidCacheGate
  >>> match parseURL raw with
      | None => Some InvalidCacheGate
      | Some registry =>
          let want := if podman then NPMContainerHost else host in
          refuseIf (negb (bool_decide (u_Scheme registry = "http")) || u_HasUser registry
                    || negb (bool_decide (u_RawQuery registry = "")) || negb (bool_decide (u_Fragment registry = ""))
                    || negb (bool_decide (u_Path registry = NPMPrefix)) || negb (bool_decide (u_Hostname registry = want))
                    || bool_decide (u_Port registry = "") || negb (bool_decide (u_Port registry = u_Port gate))) InvalidCacheGate
      end.

Definition validateCacheGate (c : Config) : option Invalid :=
  let gate := c_CacheGate c in
  if bool_decide (gate = noCacheGate) then None
  else
    let podman := bool_decide (x_Backend (c_Executor c) = ExecutorPodman) in
    refuseIf (podman && bool_decide (cg_NPMRegistry gate = "")) InvalidCacheGate
    >>> match parseURL (cg_URL gate) with
        | None => Some InvalidCacheGate
        | Some parsed =>
            refuseIf ((negb (bool_decide (u_Scheme parsed = "http")) && negb (bool_decide (u_Scheme parsed = "https")))
                      || bool_decide (u_Host parsed = "")) InvalidCacheGate
            >>> refuseIf (negb (ParsePublicKey (cg_PublicKey gate))) InvalidCacheGate
            >>> (if bool_decide (cg_NPMRegistry gate = "") then None else validateNPMRegistry parsed (cg_NPMRegistry gate) podman)
        end.

(** ** [Validate] *)

Definition isNaN (x : float64) : bool := match x with S754_nan => true | _ => false end.
Definition isInf (x : float64) : bool := match x with S754_infinity _ => true | _ => false end.

Definition invalidGuards (g : Guards) : bool :=
  (g_MinAvailableMemoryMiB g <? 0) || (g_MaxSwapUsedMiB g <? 0) || flt (g_MaxLoadAverage g) (floatOf 0)
  || isNaN (g_MaxLoadAverage g) || isInf (g_MaxLoadAverage g)
  || flt (g_MinCPUIdlePercent g) (floatOf 0) || flt (floatOf 100) (g_MinCPUIdlePercent g)
  || isNaN (g_MinCPUIdlePercent g) || isInf (g_MinCPUIdlePercent g)
  || negb (flt (floatOf 0) (g_MinFreeInodePercent g) && fle (g_MinFreeInodePercent g) (floatOf 100))
  || negb (flt (floatOf 0) (g_SwapOutPagesPerSecond g)) || isInf (g_SwapOutPagesPerSecond g).

Definition validateIntervals (c : Config) : option Invalid :=
  refuseIf ((c_PollInterval c <=? 0) || (c_ReservationAge c <=? 0)) InvalidIntervals
  >>> Priority_validate (c_Priority c)
  >>> refuseIf ((to_GitHub (c_Timeouts c) <=? 0) || (to_Tart (c_Timeouts c) <=? 0) || (to_Boot (c_Timeouts c) <=? 0)) InvalidTimeouts
  >>> refuseIf (negb (within Minute (to_Assigned (c_Timeouts c)) Hour)) InvalidAssignedTimeout
  >>> refuseIf (negb (within 1 (sr_MaxConsecutiveFailures (c_SessionRecovery c)) 100)) InvalidSessionFailures
  >>> refuseIf (negb (within (30 * Second) (sr_FailureWindow (c_SessionRecovery c)) Hour)) InvalidSessionWindow
  >>> refuseIf (negb (within (30 * Second) (sy_BlockedFor (c_SessionYield c)) Hour)) InvalidYieldBound
  >>> refuseIf (negb (within (30 * Second) (sy_HealthyFor (c_SessionYield c)) Hour)) InvalidYieldBound
  >>> validateMembership c
  >>> checkEach (fun bound => refuseIf (negb (within Minute bound (24 * Hour))) InvalidDrainBound)
        [ud_PendingFor (c_UpdateDrain c); ud_MaxWait (c_UpdateDrain c); ud_Cooldown (c_UpdateDrain c)]
  >>> GuestLiveness_validate (c_GuestLiveness c)
  >>> refuseIf (match h_ParkedScaleSetAuditMinutes (c_GitHub c) with Some n => negb (within 0 n 1440) | None => false end)
        InvalidAuditMinutes.

Definition rootDiskOptions : list string := [""; "sync=none"; "sync=fsync"; "sync=full"].

Definition validateEnvelope (c : Config) : option Invalid :=
  let l := c_Linux c in let m := c_MacOS c in let policy := normalizeMacOSAdmissionPolicy (m_AdmissionPolicy m) in
  refuseIf (negb (ExecutesLinux c) && negb (m_Enabled m)) InvalidNoTechnology
  >>> refuseIf (bool_decide (l_VMPrefix l = "") || (ExecutesLinux c && bool_decide (l_BaseVM l = ""))) InvalidBaseVM
  >>> refuseIf (negb (within 1 (l_MaxInstances l) 16)) InvalidMaxInstances
  >>> refuseIf ((r_CPU (l_Capacity l) <=? 0) || (r_MemoryMiB (l_Capacity l) <=? 0)) InvalidCapacity
  >>> refuseIf (Z.max 4 (fillableSlots c) <? l_MaxInstances l) InvalidUnfillableSlots
  >>> refuseIf (m_NestedVirtualization m) InvalidNestedMacOS
  >>> refuseIf (g_MinFreeDiskGiB (c_Guards c) <=? 0) InvalidDiskReserve
  >>> refuseIf (negb (bool_decide (m_RootDiskOptions m ∈ rootDiskOptions))) InvalidRootDisk
  >>> refuseIf (negb (bool_decide (m_SharedDirectoryPath m = "")) && negb (IsAbs (m_SharedDirectoryPath m))) InvalidSharedDirectory
  >>> refuseIf (negb (bool_decide (policy = MacOSAdmissionShared)) && negb (bool_decide (policy = MacOSAdmissionExclusive)))
        InvalidAdmissionPolicy
  >>> refuseIf (invalidGuards (c_Guards c)) InvalidGuards.

Fixpoint validateLinuxProfiles (capacity : Resources) (seen : gset string) (l : list Profile) : option Invalid :=
  match l with
  | [] => None
  | raw :: rest =>
      let p := Profile_normalized raw in let r := p_Resources p in
      refuseIf (bool_decide (p_ID p = "") || bool_decide (p_Label p = "") || (r_CPU r <=? 0) || (r_MemoryMiB r <=? 0) || (p_DiskGiB p <? 0))
        InvalidLinuxProfile
      >>> refuseIf (negb (occupancyBudgetInRange p)) InvalidOccupancyBudget
      >>> refuseIf (exceeds r capacity) InvalidProfileExceedsCapacity
      >>> refuseIf (bool_decide (p_ID p ∈ seen)) InvalidDuplicateProfile
      >>> validateLinuxProfiles capacity ({[p_ID p]} ∪ seen) rest
  end.

Definition slashes (s : string) : nat := length (List.filter (fun c => bool_decide (c = "/"%char)) (bytesOf s)).

Fixpoint validateTargets (seen : gset string) (l : list Target) : option Invalid :=
  match l with
  | [] => None
  | t :: rest =>
      let class := t_SchedulingClass (Target_normalized t) in
      refuseIf (negb (bool_decide (t_Type t = "repo")) || negb (bool_decide (slashes (t_Slug t) = 1%nat)) || (t_MaxActive t <=? 0)) InvalidTarget
      >>> refuseIf (negb (bool_decide (class = "standard")) && negb (bool_decide (class = "control-plane"))) InvalidSchedulingClass
      >>> refuseIf (bool_decide (t_Slug t ∈ seen)) InvalidDuplicateTarget
      >>> validateTargets ({[t_Slug t]} ∪ seen) rest
  end.

Definition validateMacOS (m : MacOS) : option Invalid :=
  if negb (m_Enabled m) then None
  else
    refuseIf (bool_decide (m_BaseVM m = "") || bool_decide (m_VMPrefix m = "")) InvalidMacOSBase
    >>> checkEach (fun raw =>
          let p := Profile_normalized raw in let r := p_Resources p in
          refuseIf (bool_decide (p_Label p = "") || (r_CPU r <=? 0) || (r_MemoryMiB r <=? 0) || (p_MaxActive p <=? 0)) InvalidMacOSProfile
          >>> refuseIf (negb (occupancyBudgetInRange p)) InvalidOccupancyBudget) [m_Builder m; m_Compact m].

Definition Validate (c : Config) : option Invalid :=
  validateIntervals c >>> validateEnvelope c
  >>> validateLinuxProfiles (l_Capacity (c_Linux c)) ∅ (l_Profiles (c_Linux c))
  >>> validateTargets ∅ (c_Targets c) >>> validateMacOS (c_MacOS c)
  >>> validateHostBudget c >>> validateExecutor c >>> validateRetiredLinuxExecution c >>> validateCapabilities c
  >>> validateRunnerVersions c >>> validateTools c >>> validateCacheGate c >>> validateGuestArch c >>> snd (profileLabelSets c).

(** ** [Decode] and [Encode] *)

Definition Decode (w : wireConfig) : Invalid + Config :=
  match decodeCompact (wm_Compact (w_MacOSBurst w)) (wm_Maestro (w_MacOSBurst w)) with
  | None => inl InvalidCompactTwice
  | Some compact =>
      match Membership.ParseMode (w_Membership w) with
      | None => inl InvalidMembershipMode
      | Some _ =>
          match Validate (settings w compact) with
          | Some e => inl e
          | None => inr (settings w compact)
          end
      end
  end.

Definition Encode (c : Config) : Invalid + wireConfig :=
  match Validate c with
  | Some e => inl e
  | None => match wireOf c with inl name => inl (InvalidNotWholeSeconds name) | inr w => inr w end
  end.
End Gate.
