(* ===== verification/ScopeRules.v ===== *)
(** * What a node needs to act on GitHub (internal/config/config.go 1586-2041)

    [ValidateAuthority] adds to [Validate] what a node that mutates anything must
    have: credentials, scopes that own distinct targets, and scale sets whose
    advertised capacity and labels are truthful.  A division by a vector that was
    never normalised panics, which is [None]. *)

From Stdlib Require Import ZArith Lia String Ascii List.
From stdpp Require Import base tactics list gmap strings.
From S2P Require Import Prelude GoStrings Liveness Domain Inbox Bindings Config Labels Validation.

(** ** Capacity of a profile *)

Definition quotient (a b : Z) : option Z := if b =? 0 then None else Some (Z.quot a b).

Definition budgetedCapacity (c : Config) (limit : Z) (raw : Profile) : option Z :=
  if bool_decide (c_HostBudget c = noResources) then Some limit
  else
    let r := p_Resources (Profile_normalized raw) in
    cpu ← quotient (r_CPU (c_HostBudget c)) (r_CPU r);
    memory ← quotient (r_MemoryMiB (c_HostBudget c)) (r_MemoryMiB r);
    Some (Z.min limit (Z.min cpu memory)).

Definition linuxLimit (c : Config) (p : Profile) : option Z :=
  cpu ← quotient (r_CPU (l_Capacity (c_Linux c))) (r_CPU (p_Resources p));
  memory ← quotient (r_MemoryMiB (l_Capacity (c_Linux c))) (r_MemoryMiB (p_Resources p));
  budgetedCapacity c (Z.min (Z.min (l_MaxInstances (c_Linux c)) cpu) memory) p.

Fixpoint capacitiesOf (limit : Profile -> option Z) (acc : gmap string Z) (l : list Profile) : option (gmap string Z) :=
  match l with
  | [] => Some acc
  | p :: rest => n ← limit p; capacitiesOf limit (<[p_ID p := n]> acc) rest
  end.

Definition macProfiles (c : Config) : list Profile :=
  if m_Enabled (c_MacOS c) then [m_Builder (c_MacOS c); m_Compact (c_MacOS c)] else [].

Definition authorityProfileCapacities (c : Config) : option (gmap string Z) :=
  linux ← capacitiesOf (linuxLimit c) ∅ (l_Profiles (c_Linux c));
  capacitiesOf (fun p => budgetedCapacity c (p_MaxActive p) p) linux (macProfiles c).

(** ** One flat list of scale sets *)

Definition untruthful (canonical : bool) (declared runtime : Z) : option Invalid :=
  refuseIf (canonical && negb (declared =? runtime)) InvalidUntruthfulCapacity
  >>> refuseIf (negb canonical && (declared <=? runtime)) InvalidLookahead.

Fixpoint legacySets (canonical : bool) (profiles : gset string) (capacity : string -> Z) (seen : gset string) (l : list ScaleSet)
    : Invalid + gset string :=
  match l with
  | [] => inr seen
  | s :: rest =>
      match refuseIf (negb (bool_decide (s_Profile s ∈ profiles)) || (s_ID s <=? 0)) InvalidScaleSet
            >>> untruthful canonical (s_MaxCapacity s) (capacity (s_Profile s))
            >>> refuseIf (bool_decide (s_Profile s ∈ seen)) InvalidDuplicateScaleSet with
      | Some e => inl e
      | None => legacySets canonical profiles capacity ({[s_Profile s]} ∪ seen) rest
      end
  end.

Definition sumMaxActive (l : list Target) : Z := fold_left (fun sum t => add64 sum (t_MaxActive t)) l 0.

Definition validateLegacyAuthority (c : Config) : option (option Invalid) :=
  let g := c_GitHub c in
  if bool_decide (h_ConfigURL g = "") || bool_decide (h_Owner g = "") || bool_decide (h_ClientID g = "") || (h_InstallationID g <=? 0)
     || bool_decide (h_KeychainService g = "") || bool_decide (h_KeychainAccount g = "") then Some (Some InvalidGitHubApp)
  else
    capacities ← authorityProfileCapacities c;
    let profiles : gset string := list_to_set (map p_ID (l_Profiles (c_Linux c) ++ macProfiles c)) in
    let runtime id := Z.min (default 0 (capacities !! id)) (sumMaxActive (c_Targets c)) in
    Some (match legacySets (h_CanonicalJobInventory g) profiles runtime ∅ (h_ScaleSets g) with
          | inl e => Some e
          | inr seen => refuseIf (negb (bool_decide (size seen = size profiles))) InvalidMissingScaleSet
          end).

(** ** Scopes *)

Definition multiScopeConfigured (g : GitHub) : bool :=
  negb (bool_decide (h_SessionOwner g = "")) || negb (bool_decide (h_App g = noApp))
  || negb (bool_decide (length (h_Installations g) = 0%nat)) || negb (bool_decide (length (h_Scopes g) = 0%nat)).

Definition legacyConfigured (g : GitHub) : bool :=
  negb (bool_decide (h_ConfigURL g = "")) || negb (bool_decide (h_Owner g = "")) || negb (bool_decide (h_ClientID g = ""))
  || negb (h_InstallationID g =? 0) || negb (bool_decide (h_KeychainService g = "")) || negb (bool_decide (h_KeychainAccount g = ""))
  || negb (bool_decide (length (h_ScaleSets g) = 0%nat)).

Definition hasCredentialSource (a : GitHubApp) : bool :=
  negb (bool_decide (trimmed (a_PrivateKeyFile a) = ""))
  || (negb (bool_decide (trimmed (a_KeychainService a) = "")) && negb (bool_decide (trimmed (a_KeychainAccount a) = ""))).

Fixpoint validateInstallations (names : gset string) (ids : gset Z) (l : list GitHubInstallation) : Invalid + gset string :=
  match l with
  | [] => inr names
  | i :: rest =>
      let key := folded (in_Name i) in
      if bool_decide (key = "") || (in_InstallationID i <=? 0) || bool_decide (key ∈ names) || bool_decide (in_InstallationID i ∈ ids)
      then inl InvalidInstallation
      else validateInstallations ({[key]} ∪ names) ({[in_InstallationID i]} ∪ ids) rest
  end.

(** [strings.Trim(path, "/")], then [strings.Split]. *)
Fixpoint trimSlashes (s : bytes) : bytes :=
  match s with c :: rest => if bool_decide (c = "/"%char) then trimSlashes rest else s | [] => [] end.

Definition pathParts (path : string) : list string :=
  match rev (trimSlashes (rev (trimSlashes (bytesOf path)))) with
  | [] => []
  | inner => map string_of_list_ascii (SplitOn "/"%char inner)
  end.

Definition scopeURLKey (u : URL) (parts : list string) : string :=
  let host := if bool_decide (u_Port u = "443") then u_Hostname u else u_Host u in
  lowered (u_Scheme u +:+ "://" +:+ host +:+ "/" +:+ Join parts "/").

Section Scopes.
Context `{NetText}.

Definition parseConfigURL (raw : string) : option URL :=
  u ← parseURL raw;
  if bool_decide (u_Scheme u = "https") && negb (bool_decide (u_Host u = "")) && negb (u_HasUser u)
     && bool_decide (u_RawQuery u = "") && bool_decide (u_Fragment u = "") then Some u else None.

Definition parseScopeURL (scope : GitHubScope) : option (URL * string) :=
  u ← parseConfigURL (sc_ConfigURL scope);
  let parts := pathParts (u_Path u) in
  if bool_decide (sc_Kind scope = ScopeRepository) then
    if bool_decide (length parts = 2%nat) && (bool_decide (sc_RunnerGroup scope = "") || EqualFold (sc_RunnerGroup scope) "default")
    then Some (u, scopeURLKey u parts) else None
  else if bool_decide (sc_Kind scope = ScopeOrganization) then
    if bool_decide (length parts = 1%nat) then Some (u, scopeURLKey u parts) else None
  else None.

Definition ownerOf (slug : string) : string :=
  match CutAt "/"%char (bytesOf slug) with Some (owner, _) => string_of_list_ascii owner | None => slug end.

(** Whether a scope's URL covers the target. *)
Definition scopeCovers (kind : string) (parts : list string) (slug : string) : bool :=
  if bool_decide (kind = ScopeRepository) then EqualFold (Join parts "/") slug
  else if bool_decide (kind = ScopeOrganization) then EqualFold (nth 0 parts "") (ownerOf slug)
  else true.

Fixpoint assignTargets (kind : string) (parts : list string) (targets : gmap string string) (assigned : gset string) (l : list string)
    : option (gset string) :=
  match l with
  | [] => Some assigned
  | target :: rest =>
      let key := folded target in
      match targets !! key with
      | None => None
      | Some canonical =>
          if bool_decide (key ∈ assigned) || negb (scopeCovers kind parts canonical) then None
          else assignTargets kind parts targets ({[key]} ∪ assigned) rest
      end
  end.

Definition validateScopeTargets (scope : GitHubScope) (u : URL) (targets : gmap string string) (assigned : gset string)
    : option (gset string) :=
  if bool_decide (length (sc_Targets scope) = 0%nat)
     || (bool_decide (sc_Kind scope = ScopeRepository) && negb (bool_decide (length (sc_Targets scope) = 1%nat))) then None
  else assignTargets (sc_Kind scope) (pathParts (u_Path u)) targets assigned (sc_Targets scope).

(** ** Labels of a scale set *)

Definition foreignCanonical (sets : LabelSets) (profile label : string) : bool :=
  existsb (fun entry => negb (bool_decide (fst entry = profile)) && EqualFold label (ls_Canonical (snd entry))) (map_to_list sets).

Fixpoint checkLabels (sets : LabelSets) (profile : string) (seen : gset string) (l : list string) : option Invalid :=
  match l with
  | [] => None
  | label :: rest =>
      let key := folded label in
      refuseIf (bool_decide (key = "") || bool_decide (key ∈ seen)) InvalidScaleSetLabels
      >>> refuseIf (foreignCanonical sets profile label) InvalidForeignLabel
      >>> checkLabels sets profile ({[key]} ∪ seen) rest
  end.

Definition validateScaleSetLabels (s : ScaleSet) (sets : LabelSets) : option Invalid :=
  let set := default noLabels (sets !! s_Profile s) in
  checkLabels sets (s_Profile s) ∅ (s_Labels s)
  >>> refuseIf (negb (existsb (fun label => bool_decide (folded label = "self-hosted")) (s_Labels s))
                || negb (existsb (LabelSet_Contains set) (s_Labels s))) InvalidScaleSetLabels.

Fixpoint checkScaleSets (canonical : bool) (sets : LabelSets) (runtime : string -> Z) (profiles names : gset string) (l : list ScaleSet)
    : option Invalid :=
  match l with
  | [] => None
  | s :: rest =>
      refuseIf (bool_decide (sets !! s_Profile s = None) || bool_decide (trimmed (s_Name s) = "") || (s_ID s <? 0) || (s_MaxCapacity s <=? 0))
        InvalidScaleSet
      >>> untruthful canonical (s_MaxCapacity s) (runtime (s_Profile s))
      >>> refuseIf (s_SharedLabels s && negb canonical) InvalidSharedLabels
      >>> refuseIf (bool_decide (s_Profile s ∈ profiles)) InvalidDuplicateScaleSet
      >>> refuseIf (bool_decide (folded (s_Name s) ∈ names)) InvalidDuplicateScaleSet
      >>> validateScaleSetLabels s sets
      >>> checkScaleSets canonical sets runtime ({[s_Profile s]} ∪ profiles) ({[folded (s_Name s)]} ∪ names) rest
  end.

Definition scopeCapacity (targetCapacities : gmap string Z) (targets : list string) : Z :=
  fold_left (fun sum target => add64 sum (default 0 (targetCapacities !! folded target))) targets 0.

Definition validateScopeScaleSets (scope : GitHubScope) (sets : LabelSets) (capacities targetCapacities : gmap string Z) (canonical : bool)
    : option Invalid :=
  let total := scopeCapacity targetCapacities (sc_Targets scope) in
  checkScaleSets canonical sets (fun id => Z.min (default 0 (capacities !! id)) total) ∅ ∅ (sc_ScaleSets scope)
  >>> refuseIf (bool_decide (length (sc_ScaleSets scope) = 0%nat)) InvalidScopeWithoutSet.

(** ** All scopes *)

Record Registered := { rg_names : gset string; rg_urls : gset string; rg_assigned : gset string }.

Definition validateScope (c : Config) (installations : gset string) (capacities : gmap string Z) (done : Registered) (scope : GitHubScope)
    : Invalid + Registered :=
  let name := folded (sc_Name scope) in
  let targets : gmap string string := fold_left (fun m t => <[folded (t_Slug t) := t_Slug t]> m) (c_Targets c) ∅ in
  let targetCapacities : gmap string Z := fold_left (fun m t => <[folded (t_Slug t) := t_MaxActive t]> m) (c_Targets c) ∅ in
  if bool_decide (name = "") then inl InvalidScopeName
  else if bool_decide (name ∈ rg_names done) then inl InvalidDuplicateScope
  else if negb (bool_decide (folded (sc_Installation scope) ∈ installations)) then inl InvalidInstallation
  else
    match parseScopeURL scope with
    | None => inl InvalidScopeURL
    | Some (u, key) =>
        if bool_decide (key ∈ rg_urls done) then inl InvalidDuplicateScope
        else
          match validateScopeTargets scope u targets (rg_assigned done) with
          | None => inl InvalidScopeTargets
          | Some assigned =>
              match validateScopeScaleSets scope (ProfileLabelSets c) capacities targetCapacities (h_CanonicalJobInventory (c_GitHub c)) with
              | Some e => inl e
              | None => inr {| rg_names := {[name]} ∪ rg_names done; rg_urls := {[key]} ∪ rg_urls done; rg_assigned := assigned |}
              end
          end
    end.

Fixpoint validateScopes (c : Config) (installations : gset string) (capacities : gmap string Z) (done : Registered) (l : list GitHubScope)
    : Invalid + Registered :=
  match l with
  | [] => inr done
  | scope :: rest =>
      match validateScope c installations capacities done scope with
      | inl e => inl e
      | inr done => validateScopes c installations capacities done rest
      end
  end.

Definition validateMultiScopeAuthority (c : Config) : option (option Invalid) :=
  let g := c_GitHub c in
  if bool_decide (trimmed (h_SessionOwner g) = "") || bool_decide (trimmed (a_ClientID (h_App g)) = "") || negb (hasCredentialSource (h_App g))
  then Some (Some InvalidGitHubApp)
  else if bool_decide (length (h_Installations g) = 0%nat) || bool_decide (length (h_Scopes g) = 0%nat) then Some (Some InvalidInstallations)
  else
    match validateInstallations ∅ ∅ (h_Installations g) with
    | inl e => Some (Some e)
    | inr installations =>
        capacities ← authorityProfileCapacities c;
        Some (match validateScopes c installations capacities {| rg_names := ∅; rg_urls := ∅; rg_assigned := ∅ |} (h_Scopes g) with
              | inl e => Some e
              | inr done =>
                  checkEach (fun t => refuseIf (negb (bool_decide (folded (t_Slug t) ∈ rg_assigned done))) InvalidUnassignedTarget) (c_Targets c)
              end)
    end.

Definition ValidateAuthority (c : Config) : option (option Invalid) :=
  match Validate c >>> checkEach (fun p => refuseIf (p_DiskGiB p <=? 0) InvalidDiskFloor) (l_Profiles (c_Linux c)) with
  | Some e => Some (Some e)
  | None =>
      if multiScopeConfigured (c_GitHub c) then
        if legacyConfigured (c_GitHub c) then Some (Some InvalidMixedAuthority) else validateMultiScopeAuthority c
      else validateLegacyAuthority c
  end.
End Scopes.
