(* ===== verification/Configure.v ===== *)
(** * What the node makes of its settings (internal/app/config.go)

    [BuildSchedulerConfig] gives the scheduler its profiles, caps and envelope;
    [BuildBindings] gives the coordinator one binding for each scale set.  The
    first bytes of a SHA-256 sum, from which a durable key is made, are the class
    [ScopeSum]. *)

From Stdlib Require Import ZArith Lia String Ascii List.
From stdpp Require Import base tactics list gmap strings pretty.
From S2P Require Import Prelude GoStrings Liveness Domain PriorityPolicy Inbox Bindings UpdateDrain Config Labels Validation ScopeRules.
From S2P Require Scheduler.

(** ** The scheduler *)

Definition schedulingClassOf (s : string) : SchedulingClass :=
  if bool_decide (s = "standard") then SchedulingStandard
  else if bool_decide (s = "control-plane") then SchedulingControlPlane
  else SchedulingOther s.

Definition profileFor (platform : Platform) (p : Profile) : Domain.Profile :=
  {| profile_ID := p_ID p; profile_Platform := platform; profile_Route := p_Label p;
     profile_Resources := {| CPU := r_CPU (p_Resources p); MemoryMB := r_MemoryMiB (p_Resources p); Slots := 1 |};
     profile_MaxActive := p_MaxActive p; profile_OccupancyBudget := OccupancyBudget p platform |}.

Definition addProfile (profiles : gmap string Domain.Profile) (entry : Platform * Profile) : gmap string Domain.Profile :=
  <[p_ID (snd entry) := profileFor (fst entry) (snd entry)]> profiles.

(** Every profile a guest can boot from, with its platform. *)
Definition platformProfiles (c : Config) : list (Platform * Profile) :=
  map (pair PlatformLinux) (l_Profiles (c_Linux c)) ++ map (pair PlatformMacOS) (macProfiles c).

Definition Policy (p : Priority) : PriorityPolicy := {| Tiers := pr_Tiers p |}.

Definition priorityEscalation (c : Config) : Duration :=
  if negb (Declared (Policy (c_Priority c))) then 0 else pr_EscalateAfter (c_Priority c).

Definition classFor (t : Target) : SchedulingClass :=
  schedulingClassOf (if bool_decide (t_SchedulingClass t = "") then "standard" else t_SchedulingClass t).

Definition BuildSchedulerConfig (c : Config) : Scheduler.Config :=
  {| Scheduler.LinuxCapacity := {| CPU := r_CPU (l_Capacity (c_Linux c)); MemoryMB := r_MemoryMiB (l_Capacity (c_Linux c));
                                   Slots := l_MaxInstances (c_Linux c) |};
     Scheduler.FairnessAge := c_ReservationAge c;
     Scheduler.AssignedTimeout := to_Assigned (c_Timeouts c);
     Scheduler.RepoCaps := fold_left (fun m t => <[t_Slug t := t_MaxActive t]> m) (c_Targets c) ∅;
     Scheduler.RepoSchedulingClasses := fold_left (fun m t => <[t_Slug t := classFor t]> m) (c_Targets c) ∅;
     Scheduler.Profiles := fold_left addProfile (platformProfiles c) ∅;
     Scheduler.MacOSExclusive := bool_decide (m_AdmissionPolicy (c_MacOS c) = MacOSAdmissionExclusive);
     Scheduler.MixedPlatformAdmission := m_MixedPlatformAdmission (c_MacOS c);
     Scheduler.MixedProfileCohorts := m_MixedProfileCohorts (c_MacOS c);
     Scheduler.ElasticHostEnvelope := g_ElasticHostEnvelope (c_Guards c);
     Scheduler.HostBudget := {| CPU := r_CPU (c_HostBudget c); MemoryMB := r_MemoryMiB (c_HostBudget c); Slots := 0 |};
     Scheduler.PriorityEscalation := priorityEscalation c;
     Scheduler.cfg_GuestLiveness := {| ConsecutiveRefusals := gl_ConsecutiveRefusals (c_GuestLiveness c);
                                       Window := gl_Window (c_GuestLiveness c) |} |}.

(** internal/daemon/runtime.go 784-786 *)
Definition drainPolicyOf (c : Config) : DrainPolicy :=
  {| dp_Enabled := ud_Enabled (c_UpdateDrain c); PendingFor := ud_PendingFor (c_UpdateDrain c);
     MaxWait := ud_MaxWait (c_UpdateDrain c); Cooldown := ud_Cooldown (c_UpdateDrain c) |}.

(** ** Bindings *)

Inductive BindingError := UnknownProfile | NonPositiveID | IdentityCollision.

Definition resolveScaleSetProfile (sched : Scheduler.Config) (s : ScaleSet) : BindingError + Domain.Profile :=
  match Scheduler.Profiles sched !! s_Profile s with
  | None => inl UnknownProfile
  | Some profile => if s_ID s <=? 0 then inl NonPositiveID else inr profile
  end.

Definition effectiveScaleSetLabels (s : ScaleSet) (set : LabelSet) : list string :=
  let labels := LabelSet_Advertise set (s_Labels s) in
  let name := trimmed (s_Name s) in
  if bool_decide (name = "") || existsb (fun label => EqualFold label name) labels then labels else labels ++ [name].

(** The first eight bytes of the sum, big endian. *)
Class ScopeSum := { scopeSum : string -> Z }.

Section Bindings.
Context `{ScopeSum}.

Definition scopedStoreKey (scope : string) (id : Z) : Z :=
  let key := Z.land (scopeSum (scope +:+ nul +:+ pretty id)) maxInt64 in
  if key =? 0 then 1 else key.

Definition bindingOf (c : Config) (scope : GitHubScope) (s : ScaleSet) (key : Z) (profile : Domain.Profile) : Binding :=
  {| b_StoreKey := key; b_ScaleSetID := s_ID s; b_Scope := sc_Name scope; b_Targets := sc_Targets scope;
     b_ScaleSetLabels := effectiveScaleSetLabels s (default noLabels (ProfileLabelSets c !! s_Profile s)); b_RequiredLabels := [];
     b_Profile := profile; b_SharedLabels := s_SharedLabels s; b_Capacity := s_MaxCapacity s |}.

Fixpoint scopedBindings (c : Config) (sched : Scheduler.Config) (seen : gset Z) (l : list (GitHubScope * ScaleSet))
    : BindingError + list Binding :=
  match l with
  | [] => inr []
  | (scope, s) :: rest =>
      match resolveScaleSetProfile sched s with
      | inl e => inl e
      | inr profile =>
          let key := scopedStoreKey (sc_Name scope) (s_ID s) in
          if bool_decide (key ∈ seen) then inl IdentityCollision
          else match scopedBindings c sched ({[key]} ∪ seen) rest with
               | inl e => inl e
               | inr bindings => inr (bindingOf c scope s key profile :: bindings)
               end
      end
  end.

(** The binding of a scale set of the flat list has no scope and no targets. *)
Definition noScope : GitHubScope :=
  {| sc_Name := ""; sc_Kind := ""; sc_ConfigURL := ""; sc_Installation := ""; sc_RunnerGroup := ""; sc_Targets := []; sc_ScaleSets := [] |}.

Fixpoint legacyBindings (c : Config) (sched : Scheduler.Config) (l : list ScaleSet) : BindingError + list Binding :=
  match l with
  | [] => inr []
  | s :: rest =>
      match resolveScaleSetProfile sched s with
      | inl e => inl e
      | inr profile =>
          match legacyBindings c sched rest with
          | inl e => inl e
          | inr bindings => inr (bindingOf c noScope s (s_ID s) profile :: bindings)
          end
      end
  end.

Definition scopedSets (c : Config) : list (GitHubScope * ScaleSet) :=
  flat_map (fun scope => map (pair scope) (sc_ScaleSets scope)) (h_Scopes (c_GitHub c)).

Definition BuildBindings (c : Config) (sched : Scheduler.Config) : BindingError + list Binding :=
  match h_Scopes (c_GitHub c) with
  | [] => legacyBindings c sched (h_ScaleSets (c_GitHub c))
  | _ => scopedBindings c sched ∅ (scopedSets c)
  end.

Definition ValidateBindings (c : Config) : option BindingError :=
  match BuildBindings c (BuildSchedulerConfig c) with inl e => Some e | inr _ => None end.
End Bindings.
