(* ===== verification/ConfigSpec.v ===== *)
(** * Reading and writing a configuration

    A file that was read can be written back: what [Encode] writes reads as the
    same settings, also after the scale sets were given the identifiers GitHub
    assigned to them, which is what the file is rewritten for. *)

From Stdlib Require Import ZArith Lia String Ascii List Floats.SpecFloat.
From stdpp Require Import base tactics list gmap strings.
From S2P Require Import Prelude GoStrings Liveness Domain PriorityPolicy HostProbe Config Labels Validation.
From S2P Require Membership.

(** ** Durations *)

(** A number of seconds that a duration can hold. *)
Definition fits (n : Z) : Prop := -9223372036 <= n <= 9223372036.

Definition whole (value : Duration) : Prop := exists n, fits n /\ value = n * Second.

Lemma seconds_fit n : fits n -> seconds n = n * Second.
Proof. unfold fits, seconds, mul64, Second. intros Hn. apply wrap64_id. unfold int64, minInt64, maxInt64. lia. Qed.

Lemma whole_seconds n : fits n -> whole (seconds n).
Proof. intros Hn. exists n. by rewrite seconds_fit. Qed.

Lemma whole_quot value : whole value -> fits (Z.quot value Second) /\ seconds (Z.quot value Second) = value.
Proof. intros (n & Hn & ->). rewrite Z.quot_mul by done. split; [done|by apply seconds_fit]. Qed.

Lemma wholeSeconds_whole name value : whole value -> wholeSeconds name value = inr (Z.quot value Second).
Proof. intros (n & _ & ->). unfold wholeSeconds. by rewrite Z.rem_mul. Qed.

Lemma whole_orElse value fallback : whole value -> whole fallback -> whole (orElse value fallback).
Proof. unfold orElse. by destruct (value =? 0). Qed.

Lemma whole_secondsOr n fallback : fits n -> fits fallback -> whole (secondsOr n fallback).
Proof. intros. unfold secondsOr. destruct (n =? 0); by apply whole_seconds. Qed.

(** A setting that is left out when it is the default reads as itself. *)
Lemma orElse_unless value fallback :
  whole value -> value <> 0 -> orElse (seconds (unless fallback value (Z.quot value Second))) fallback = value.
Proof.
  intros Hw Hn. unfold unless. destruct (Z.eqb_spec value fallback) as [->|_]; [done|].
  destruct (whole_quot _ Hw) as [_ ->]. unfold orElse. destruct (Z.eqb_spec value 0); done.
Qed.

Lemma count_unless n fallback : n <> 0 -> orElse (unless fallback n n) fallback = n.
Proof. unfold unless, orElse. destruct (Z.eqb_spec n fallback) as [->|]; [done|]. by destruct (Z.eqb_spec n 0). Qed.

Lemma secondsOr_quot value fallback : whole value -> value <> 0 -> secondsOr (Z.quot value Second) fallback = value.
Proof.
  intros Hw Hn. destruct (whole_quot _ Hw) as [_ E]. unfold secondsOr.
  destruct (Z.eqb_spec (Z.quot value Second) 0) as [E0|]; [|done]. rewrite E0 in E. by rewrite <- E in Hn.
Qed.

(** ** Settings that survive the file *)

Definition plainProfile (p : Profile) : Prop := p_Resources p = {| r_CPU := p_CPU p; r_MemoryMiB := p_MemoryMiB p |}.

(** Equal under [==] to a positive number is equal to it. *)
Lemma feq_finite a m e : feq a (S754_finite false m e) = true -> a = S754_finite false m e.
Proof.
  unfold feq, SFeqb, SFcompare. destruct a as [s|s| |s m' e']; try destruct s; try done.
  destruct (Z.compare_spec e' e) as [->| |]; try done. fold (Pos.compare m' m). destruct (Pos.compare_spec m' m) as [->| |]; done.
Qed.

Lemma orElseF_zero x n : 0 < n -> feq (floatOf n) (floatOf 0) = false -> feq (orElseF x n) (floatOf 0) = false.
Proof. intros _ Hn. unfold orElseF. by destruct (feq x (floatOf 0)) eqn:E. Qed.

Lemma orElseF_same x n : feq x (floatOf 0) = false -> orElseF x n = x.
Proof. unfold orElseF. by intros ->. Qed.

(** What [Decode] makes of a file whose seconds fit. *)
Record Settled (c : Config) : Prop := {
  st_poll : whole (c_PollInterval c);
  st_reservation : whole (c_ReservationAge c);
  st_timeouts : whole (to_GitHub (c_Timeouts c)) /\ whole (to_Tart (c_Timeouts c)) /\ whole (to_Boot (c_Timeouts c)) /\
    whole (to_Assigned (c_Timeouts c));
  st_recovery : whole (sr_FailureWindow (c_SessionRecovery c));
  st_yield : whole (sy_BlockedFor (c_SessionYield c)) /\ whole (sy_HealthyFor (c_SessionYield c));
  st_drain : whole (ud_PendingFor (c_UpdateDrain c)) /\ whole (ud_MaxWait (c_UpdateDrain c)) /\ whole (ud_Cooldown (c_UpdateDrain c));
  st_liveness : whole (gl_Window (c_GuestLiveness c)) /\ whole (gl_ProbeTimeout (c_GuestLiveness c));
  st_priority : whole (pr_EscalateAfter (c_Priority c));
  st_profiles : Forall plainProfile (l_Profiles (c_Linux c)) /\ plainProfile (m_Builder (c_MacOS c)) /\ plainProfile (m_Compact (c_MacOS c));
  st_targets : Forall (fun t => t_SchedulingClass t <> "") (c_Targets c);
  st_policy : m_AdmissionPolicy (c_MacOS c) <> "";
  st_guards : g_MinAvailableMemoryMiB (c_Guards c) <> 0 /\ g_MaxSwapUsedMiB (c_Guards c) <> 0 /\
    feq (g_MaxLoadAverage (c_Guards c)) (floatOf 0) = false /\ feq (g_MinCPUIdlePercent (c_Guards c)) (floatOf 0) = false
}.

(** The numbers of seconds of a file. *)
Definition secondsOf (w : wireConfig) : list Z :=
  [w_PollSeconds w; w_LinuxReservationAgeSecs w; w_GitHubTimeoutSeconds w; w_TartControlTimeoutSeconds w; w_BootTimeoutSeconds w;
   w_AssignedTimeoutSeconds w; w_GitHubSessionFailureWindowSeconds w; w_SessionYieldBlockedForSeconds w;
   w_SessionYieldHealthyForSeconds w; w_UpdateDrainPendingForSeconds w; w_UpdateDrainMaxWaitSeconds w; w_UpdateDrainCooldownSeconds w;
   w_GuestLivenessWindowSeconds w; w_GuestLivenessProbeTimeoutSeconds w;
   match w_Priority w with Some p => wp_EscalateAfterSeconds p | None => 0 end].

Lemma plain_normalized p : p_Resources p = noResources -> plainProfile (Profile_normalized p).
Proof. intros E. unfold plainProfile, Profile_normalized. by rewrite E. Qed.

Lemma whole_const value : (Z.rem value Second =? 0) && within (-9223372036) (Z.quot value Second) 9223372036 = true -> whole value.
Proof.
  unfold within, fits. intros Hv. bool_to_prop. exists (Z.quot value Second). split; [unfold fits; lia|].
  pose proof (Z.quot_rem' value Second). lia.
Qed.

Lemma Decode_settled `{NetText} w c : Forall fits (secondsOf w) -> Decode (unmarshalled w) = inr c -> Settled c /\ Validate c = None.
Proof.
  intros Hf. unfold Decode. destruct (decodeCompact _ _) as [compact|] eqn:Ec; [|done].
  destruct (Membership.ParseMode _); [|done]. destruct (Validate _) eqn:V; [done|]. intros [= <-]. split; [|done].
  repeat (apply Forall_cons in Hf as [? Hf]).
  assert (p_Resources compact = noResources) as Ep.
  { unfold decodeCompact, unmarshalled, unmarshalledMacOS in Ec. simpl in Ec.
    destruct (wm_Compact _), (wm_Maestro _); simplify_eq/=; done. }
  constructor; simpl.
  - by apply whole_seconds.
  - by apply whole_seconds.
  - split_and!; by apply whole_secondsOr.
  - apply whole_orElse; [by apply whole_seconds|by apply whole_const].
  - split; (apply whole_orElse; [by apply whole_seconds|by apply whole_const]).
  - split_and!; (apply whole_orElse; [by apply whole_seconds|by apply whole_const]).
  - unfold normalizeGuestLiveness. destruct (_ || _); simpl; [split; by apply whole_const|].
    split; (apply whole_orElse; [by apply whole_seconds|by apply whole_const]).
  - unfold decodePriority. simpl. destruct (w_Priority w); simpl in *; [by apply whole_seconds|by apply whole_const].
  - split_and!; [|by apply plain_normalized..]. apply List.Forall_forall. intros p Hp.
    apply List.in_map_iff in Hp as (q & <- & Hq). apply List.in_map_iff in Hq as (r & <- & _). by apply plain_normalized.
  - apply List.Forall_forall. intros t Ht. apply List.in_map_iff in Ht as (u & <- & _). unfold Target_normalized. by case_bool_decide.
  - unfold normalizeMacOSAdmissionPolicy. by case_bool_decide.
  - split_and!; [unfold orElse; by destruct (Z.eqb_spec (w_MinAvailableMemoryMiB w) 0)|
      unfold orElse; by destruct (Z.eqb_spec (w_MaxSwapUsedMiB w) 0)|by apply orElseF_zero..].
Qed.

(** ** Each part of the settings survives *)

Ltac passed H := rewrite ?andThen_None, ?refuseIf_None in H; destruct_and? H.

Lemma within_true low value high : within low value high = true <-> low <= value <= high.
Proof. unfold within. rewrite andb_true_iff, !Z.leb_le. done. Qed.

Lemma profile_survives p : plainProfile p -> Profile_normalized (unmarshalledProfile (encodeProfile p)) = p.
Proof.
  destruct p as [id label aliases [cpu mem] cpu' mem' disk active budget]. unfold plainProfile. simpl. intros [= -> ->].
  unfold unmarshalledProfile, encodeProfile, Profile_normalized. simpl. by destruct (cpu' =? 0).
Qed.

Lemma profiles_survive l : Forall plainProfile l -> normalizeProfiles (map unmarshalledProfile (encodeProfiles l)) = l.
Proof.
  unfold normalizeProfiles, encodeProfiles. rewrite !map_map. intros Hl. induction Hl as [|p l Hp _ IH]; simpl; [done|].
  by rewrite profile_survives, IH.
Qed.

Lemma targets_survive l : Forall (fun t => t_SchedulingClass t <> "") l -> normalizeTargets l = l.
Proof.
  unfold normalizeTargets. induction 1 as [|t l Ht _ IH]; simpl; [done|]. rewrite IH. f_equal.
  unfold Target_normalized. by case_bool_decide.
Qed.

Lemma executor_survives `{NetText} c : validateExecutor c = None -> decodeExecutor (encodeExecutor (c_Executor c)) = c_Executor c.
Proof.
  unfold validateExecutor, decodeExecutor, encodeExecutor. case_bool_decide; [|done]. rewrite refuseIf_None. simpl.
  by case_bool_decide.
Qed.

Lemma budget_survives r : hostBudget (encodeBudget r) = r.
Proof. unfold hostBudget, encodeBudget. by case_bool_decide. Qed.

Lemma gate_survives g : decodeCacheGate (encodeCacheGate g) = g.
Proof. unfold decodeCacheGate, encodeCacheGate. by case_bool_decide. Qed.

Lemma priority_survives p :
  whole (pr_EscalateAfter p) -> Priority_validate p = None -> exists e, encodePriority p = inr e /\ decodePriority e = p.
Proof.
  destruct p as [after tiers]. unfold Priority_validate, encodePriority. simpl. intros Hw Hv.
  destruct tiers as [|tier tiers].
  - exists None. split; [done|]. passed Hv. bool_to_prop. by subst.
  - rewrite wholeSeconds_whole by done. eexists. split; [done|]. simpl. by destruct (whole_quot _ Hw) as [_ ->].
Qed.

Lemma liveness_survives g :
  whole (gl_Window g) -> whole (gl_ProbeTimeout g) -> GuestLiveness_validate g = None ->
  exists e, encodeGuestLiveness g = inr e /\
    forall w, w_GuestLivenessRefusals w = refusals e -> w_GuestLivenessWindowSeconds w = windowSeconds e ->
      w_GuestLivenessProbeTimeoutSeconds w = probeSeconds e -> normalizeGuestLiveness w = g.
Proof.
  destruct g as [n window probe]. unfold GuestLiveness_validate, encodeGuestLiveness. simpl. intros Hw Hp Hv.
  destruct (GuestLiveness_Enabled _) eqn:E; simpl in *.
  - passed Hv. rewrite !negb_false_iff, !within_true in *. rewrite !wholeSeconds_whole by done. eexists. split; [done|].
    intros w E1 E2 E3. unfold normalizeGuestLiveness. rewrite E1, E2, E3. simpl.
    assert ((unless defaultGuestLivenessRefusals n n =? guestLivenessDisabledRefusals) = false) as ->.
    { unfold unless, guestLivenessDisabledRefusals. destruct (n =? defaultGuestLivenessRefusals); lia. }
    assert ((unless defaultGuestLivenessWindow window (Z.quot window Second) =? guestLivenessDisabledWindowSecs) = false) as ->.
    { unfold unless, guestLivenessDisabledWindowSecs. pose proof (Z.quot_pos window Second).
      destruct (window =? defaultGuestLivenessWindow); [done|]. unfold Second in *. lia. }
    simpl. rewrite !orElse_unless, count_unless by (done || (unfold Second in *; lia)). done.
  - passed Hv. bool_to_prop. subst. eexists. split; [done|]. intros w E1 E2 E3. unfold normalizeGuestLiveness. by rewrite E1.
Qed.

Lemma positive_nonzero x : flt (floatOf 0) x = true -> feq x (floatOf 0) = false.
Proof. change (floatOf 0) with (S754_zero false). destruct x as [s|s| |s m e]; try destruct s; done. Qed.

Lemma inode_survives x n : flt (floatOf 0) x = true -> (exists m e, floatOf n = S754_finite false m e) -> orElseF (unlessF n x) n = x.
Proof.
  intros Hx (m & e & En). unfold unlessF. destruct (feq x (floatOf n)) eqn:E.
  - rewrite En in E. apply feq_finite in E as ->. by rewrite <- En.
  - by apply orElseF_same, positive_nonzero.
Qed.

Lemma guards_survive c g sp priority liveness :
  g_MinAvailableMemoryMiB g <> 0 /\ g_MaxSwapUsedMiB g <> 0 /\
  feq (g_MaxLoadAverage g) (floatOf 0) = false /\ feq (g_MinCPUIdlePercent g) (floatOf 0) = false ->
  invalidGuards g = false -> c_Guards c = g ->
  normalizeGuards (unmarshalled (wireWith c sp priority liveness)) = g.
Proof.
  intros (H1 & H2 & H3 & H4) Hv Hg. unfold invalidGuards in Hv. repeat (apply orb_false_iff in Hv as [Hv ?]). bool_to_prop.
  destruct g as [disk inode mem swap pages load idle pressure elastic]. simpl in *.
  unfold normalizeGuards. simpl. rewrite Hg. simpl.
  rewrite inode_survives; [|done|by do 2 eexists]. rewrite !orElseF_same by done.
  f_equal; [unfold orElse; destruct (Z.eqb_spec mem 0); congruence|unfold orElse; destruct (Z.eqb_spec swap 0); congruence|].
  destruct (feq pages _) eqn:E; [|done].
  change (binary_round _ _ _ _ _) with (S754_finite false 5629499534213120 (-49)) in E. by apply feq_finite in E as ->.
Qed.

Lemma macos_survives m :
  plainProfile (m_Builder m) -> plainProfile (m_Compact m) -> m_NestedVirtualization m = false ->
  m_AdmissionPolicy m = MacOSAdmissionShared \/ m_AdmissionPolicy m = MacOSAdmissionExclusive ->
  macSettings (unmarshalledMacOS (encodeMacOS m)) (unmarshalledProfile (encodeProfile (m_Compact m))) = m.
Proof.
  intros Hb Hc Hn Hp. unfold macSettings. simpl. rewrite !profile_survives by done.
  destruct m as [enabled policy mixed cohorts base prefix builder compact disk shared nested caps version tools]. simpl in *. subst nested.
  f_equal. by destruct Hp as [-> | ->].
Qed.

Lemma linux_survives c sp priority liveness :
  Forall plainProfile (l_Profiles (c_Linux c)) -> linuxSettings (unmarshalled (wireWith c sp priority liveness)) = c_Linux c.
Proof.
  intros Hp. unfold linuxSettings. simpl. rewrite profiles_survive by done. destruct (c_Linux c) as [base prefix n [cpu mem]]. done.
Qed.

(** ** The round trip *)

Definition wholeSpans (c : Config) : Spans :=
  {| sp_poll := Z.quot (c_PollInterval c) Second; sp_reservation := Z.quot (c_ReservationAge c) Second;
     sp_github := Z.quot (to_GitHub (c_Timeouts c)) Second; sp_tart := Z.quot (to_Tart (c_Timeouts c)) Second;
     sp_boot := Z.quot (to_Boot (c_Timeouts c)) Second; sp_assigned := Z.quot (to_Assigned (c_Timeouts c)) Second;
     sp_sessionWindow := Z.quot (sr_FailureWindow (c_SessionRecovery c)) Second;
     sp_yieldBlocked := Z.quot (sy_BlockedFor (c_SessionYield c)) Second;
     sp_yieldHealthy := Z.quot (sy_HealthyFor (c_SessionYield c)) Second;
     sp_drainPending := Z.quot (ud_PendingFor (c_UpdateDrain c)) Second; sp_drainMaxWait := Z.quot (ud_MaxWait (c_UpdateDrain c)) Second;
     sp_drainCooldown := Z.quot (ud_Cooldown (c_UpdateDrain c)) Second |}.

Lemma spansOf_settled c : Settled c -> spansOf c = inr (wholeSpans c).
Proof.
  intros S. destruct (st_timeouts _ S) as (? & ? & ? & ?), (st_yield _ S) as [? ?], (st_drain _ S) as (? & ? & ?).
  unfold spansOf. by rewrite !wholeSeconds_whole by (apply S || done).
Qed.

Section RoundTrip.
Context `{NetText}.

Lemma Validate_parts c :
  Validate c = None ->
  validateIntervals c = None /\ validateEnvelope c = None /\
  validateLinuxProfiles (l_Capacity (c_Linux c)) ∅ (l_Profiles (c_Linux c)) = None /\ validateTargets ∅ (c_Targets c) = None /\
  validateMacOS (c_MacOS c) = None /\ validateHostBudget c = None /\ validateExecutor c = None /\
  validateGuestArch c = None /\ snd (profileLabelSets c) = None.
Proof. unfold Validate. intros V. rewrite !andThen_None in V. tauto. Qed.

(** The durations a valid configuration has are not zero. *)
Lemma Validate_positive c :
  Validate c = None ->
  to_GitHub (c_Timeouts c) <> 0 /\ to_Tart (c_Timeouts c) <> 0 /\ to_Boot (c_Timeouts c) <> 0 /\ to_Assigned (c_Timeouts c) <> 0 /\
  sr_MaxConsecutiveFailures (c_SessionRecovery c) <> 0 /\ sr_FailureWindow (c_SessionRecovery c) <> 0 /\
  sy_BlockedFor (c_SessionYield c) <> 0 /\ sy_HealthyFor (c_SessionYield c) <> 0 /\
  ud_PendingFor (c_UpdateDrain c) <> 0 /\ ud_MaxWait (c_UpdateDrain c) <> 0 /\ ud_Cooldown (c_UpdateDrain c) <> 0.
Proof.
  intros V. apply Validate_parts in V as [V _]. unfold validateIntervals in V. simpl in V. passed V.
  repeat match goal with E : negb _ = false |- _ => apply negb_false_iff, within_true in E end. bool_to_prop.
  unfold Minute, Second in *. repeat split; lia.
Qed.

Lemma Validate_macos c :
  Validate c = None ->
  m_NestedVirtualization (c_MacOS c) = false /\ invalidGuards (c_Guards c) = false /\
  (normalizeMacOSAdmissionPolicy (m_AdmissionPolicy (c_MacOS c)) = MacOSAdmissionShared \/
   normalizeMacOSAdmissionPolicy (m_AdmissionPolicy (c_MacOS c)) = MacOSAdmissionExclusive).
Proof.
  intros V. apply Validate_parts in V as (_ & V & _). unfold validateEnvelope in V. rewrite !andThen_None, !refuseIf_None in V.
  destruct V as (_ & _ & _ & _ & _ & Hn & _ & _ & _ & Hp & Hg). split; [done|]. split; [done|].
  apply andb_false_iff in Hp as [Hp|Hp]; apply negb_false_iff, bool_decide_eq_true in Hp; [by left|by right].
Qed.

Lemma settings_survive c priority liveness compact :
  Settled c -> Validate c = None -> decodePriority priority = c_Priority c ->
  compact = unmarshalledProfile (encodeProfile (m_Compact (c_MacOS c))) ->
  let w := unmarshalled (wireWith c (wholeSpans c) priority liveness) in
  normalizeGuestLiveness w = c_GuestLiveness c -> settings w compact = c.
Proof.
  intros S V Ep -> w El. destruct (Validate_positive _ V) as (? & ? & ? & ? & Hn & ? & ? & ? & ? & ? & ?).
  destruct (Validate_macos _ V) as (Hv & Hg & Hp). apply Validate_parts in V as (_ & _ & _ & _ & _ & _ & Vx & _).
  destruct (st_timeouts _ S) as (? & ? & ? & ?), (st_yield _ S) as [? ?], (st_drain _ S) as (? & ? & ?), (st_profiles _ S) as (? & ? & ?).
  assert (normalizeMacOSAdmissionPolicy (m_AdmissionPolicy (c_MacOS c)) = m_AdmissionPolicy (c_MacOS c)) as Em.
  { unfold normalizeMacOSAdmissionPolicy. by rewrite bool_decide_eq_false_2 by apply (st_policy _ S). }
  rewrite Em in Hp. unfold settings. rewrite El. clear El. subst w. rewrite linux_survives by done.
  rewrite (guards_survive c (c_Guards c)) by (apply S || done).
  unfold normalizeSessionRecovery, normalizeSessionYield, normalizeUpdateDrain.
  cbn [unmarshalled wireWith w_PollSeconds w_LinuxReservationAgeSecs w_HostBudget w_RunnerVersionFloor w_CacheGate w_GuestArch w_Executor
    w_MacOSBurst w_GitHub w_GitHubTimeoutSeconds w_TartControlTimeoutSeconds w_BootTimeoutSeconds w_AssignedTimeoutSeconds
    w_GitHubSessionMaxIngestFailures w_GitHubSessionFailureWindowSeconds w_SessionYieldDisabled w_SessionYieldBlockedForSeconds
    w_SessionYieldHealthyForSeconds w_Membership w_UpdateDrainDisabled w_UpdateDrainPendingForSeconds w_UpdateDrainMaxWaitSeconds
    w_UpdateDrainCooldownSeconds w_Targets w_Priority wholeSpans sp_poll sp_reservation sp_github sp_tart sp_boot sp_assigned
    sp_sessionWindow sp_yieldBlocked sp_yieldHealthy sp_drainPending sp_drainMaxWait sp_drainCooldown].
  rewrite budget_survives, gate_survives, (executor_survives c), Ep, !negb_involutive, !orElse_unless, !secondsOr_quot by (apply S || done).
  rewrite !(targets_survive (c_Targets c)), macos_survives by (apply S || done).
  destruct (whole_quot _ (st_poll _ S)) as [_ ->], (whole_quot _ (st_reservation _ S)) as [_ ->].
  rewrite count_unless by done. clear. destruct c as [? ? ? ? ? ? ? ? ? ? [] ? [] [] ? []]. done.
Qed.

Lemma round_trip c : Settled c -> Validate c = None -> exists w, Encode c = inr w /\ Decode (unmarshalled w) = inr c.
Proof.
  intros S V. pose proof (Validate_parts _ V) as (Vi & _). unfold validateIntervals in Vi. rewrite !andThen_None in Vi.
  destruct Vi as (_ & Vp & _ & _ & _ & _ & _ & _ & Vm & _ & Vl & _). destruct (st_liveness _ S) as [Hw Hp].
  destruct (priority_survives _ (st_priority _ S) Vp) as (priority & Ep & Ep').
  destruct (liveness_survives _ Hw Hp Vl) as (liveness & El & El').
  exists (wireWith c (wholeSpans c) priority liveness). unfold Encode, wireOf. rewrite V, spansOf_settled, Ep, El by done. split; [done|].
  unfold Decode. cbn [decodeCompact unmarshalled unmarshalledMacOS wireWith encodeMacOS w_MacOSBurst w_Membership wm_Compact wm_Maestro fmap
    option_fmap option_map].
  assert (is_Some (Membership.ParseMode (c_Membership c))) as [mode Em].
  { unfold validateMembership in Vm. destruct (Membership.ParseMode _); [by eexists|done]. }
  rewrite Em. rewrite settings_survive; [by rewrite V|done|done|done|done|]. by apply El'.
Qed.

(** ** Identifiers assigned by the server *)

Definition assignID (f : ScaleSet -> Z) (s : ScaleSet) : ScaleSet :=
  {| s_Profile := s_Profile s; s_Name := s_Name s; s_ID := f s; s_MaxCapacity := s_MaxCapacity s; s_Labels := s_Labels s;
     s_SharedLabels := s_SharedLabels s; s_RequiresCapabilities := s_RequiresCapabilities s; s_RequiresTools := s_RequiresTools s |}.

Definition assignScope (f : string -> ScaleSet -> Z) (scope : GitHubScope) : GitHubScope :=
  {| sc_Name := sc_Name scope; sc_Kind := sc_Kind scope; sc_ConfigURL := sc_ConfigURL scope; sc_Installation := sc_Installation scope;
     sc_RunnerGroup := sc_RunnerGroup scope; sc_Targets := sc_Targets scope;
     sc_ScaleSets := map (assignID (f (sc_Name scope))) (sc_ScaleSets scope) |}.

Definition assignGitHub (f : string -> ScaleSet -> Z) (g : GitHub) : GitHub :=
  {| h_ConfigURL := h_ConfigURL g; h_Owner := h_Owner g; h_ClientID := h_ClientID g; h_InstallationID := h_InstallationID g;
     h_KeychainService := h_KeychainService g; h_KeychainAccount := h_KeychainAccount g; h_ScaleSets := map (assignID (f "")) (h_ScaleSets g);
     h_SessionOwner := h_SessionOwner g; h_CanonicalJobInventory := h_CanonicalJobInventory g;
     h_ParkedScaleSetAuditMinutes := h_ParkedScaleSetAuditMinutes g; h_App := h_App g; h_Installations := h_Installations g;
     h_Scopes := map (assignScope f) (h_Scopes g) |}.

Definition assignIDs (f : string -> ScaleSet -> Z) (c : Config) : Config :=
  {| c_PollInterval := c_PollInterval c; c_ReservationAge := c_ReservationAge c; c_HostBudget := c_HostBudget c;
     c_RunnerVersionFloor := c_RunnerVersionFloor c; c_CacheGate := c_CacheGate c; c_GuestArch := c_GuestArch c; c_Linux := c_Linux c;
     c_Executor := c_Executor c; c_MacOS := c_MacOS c; c_GitHub := assignGitHub f (c_GitHub c); c_Timeouts := c_Timeouts c;
     c_Guards := c_Guards c; c_SessionRecovery := c_SessionRecovery c; c_SessionYield := c_SessionYield c; c_Membership := c_Membership c;
     c_UpdateDrain := c_UpdateDrain c; c_GuestLiveness := c_GuestLiveness c; c_Targets := c_Targets c; c_Priority := c_Priority c |}.

Lemma assign_scoped f c :
  ScopedScaleSets (assignIDs f c) = map (fun e => (fst e, assignID (f (fst e)) (snd e))) (ScopedScaleSets c).
Proof.
  unfold ScopedScaleSets. simpl. rewrite map_app, !map_map. f_equal.
  induction (h_Scopes (c_GitHub c)) as [|scope l IH]; simpl; [done|]. by rewrite map_app, !map_map, IH.
Qed.

Lemma assign_exposed f c : exposedProfiles (assignIDs f c) = exposedProfiles c.
Proof.
  unfold exposedProfiles. simpl. rewrite !map_app, !map_map. f_equal.
  induction (h_Scopes (c_GitHub c)) as [|scope l IH]; simpl; [done|]. by rewrite !map_app, !map_map, IH.
Qed.

Lemma checkEach_map {A B} (g : A -> B) check l : checkEach check (map g l) = checkEach (fun x => check (g x)) l.
Proof. induction l as [|x l IH]; simpl; [done|]. by rewrite IH. Qed.

(** No check reads the identifier of a scale set. *)
Lemma Validate_assign f c : Validate (assignIDs f c) = Validate c.
Proof.
  unfold Validate.
  assert (validateIntervals (assignIDs f c) = validateIntervals c) as ->.
  { unfold validateIntervals, validateMembership. simpl. by rewrite length_map. }
  assert (validateHostBudget (assignIDs f c) = validateHostBudget c) as ->.
  { unfold validateHostBudget. by rewrite assign_exposed. }
  assert (validateRetiredLinuxExecution (assignIDs f c) = validateRetiredLinuxExecution c) as ->.
  { unfold validateRetiredLinuxExecution. by rewrite assign_scoped, checkEach_map. }
  assert (validateCapabilities (assignIDs f c) = validateCapabilities c) as ->.
  { unfold validateCapabilities. change (baseImages (assignIDs f c)) with (baseImages c).
    destruct (baseImages c); [done|]. by rewrite assign_scoped, checkEach_map. }
  assert (validateTools (assignIDs f c) = validateTools c) as ->.
  { unfold validateTools. by rewrite assign_scoped, checkEach_map. }
  done.
Qed.

End RoundTrip.

(** ** A file *)

Module Sample.
#[export] Instance net : NetText := {|
  parseURL raw :=
    if bool_decide (raw = "https://github.com/owner/repo") then
      Some {| u_Scheme := "https"; u_Host := "github.com"; u_HasUser := false; u_RawQuery := ""; u_Fragment := ""; u_Path := "/owner/repo";
              u_Hostname := "github.com"; u_Port := "" |}
    else None;
  privateIP _ := false; loopbackIP _ := false |}.

Definition profile (id label : string) (cpu memory active : Z) : Profile :=
  {| p_ID := id; p_Label := label; p_Aliases := []; p_Resources := noResources; p_CPU := cpu; p_MemoryMiB := memory; p_DiskGiB := 50;
     p_MaxActive := active; p_OccupancyBudgetSeconds := None |}.

Definition scaleSet (profile name : string) (id capacity : Z) (labels : list string) : ScaleSet :=
  {| s_Profile := profile; s_Name := name; s_ID := id; s_MaxCapacity := capacity; s_Labels := labels; s_SharedLabels := false;
     s_RequiresCapabilities := []; s_RequiresTools := [] |}.

Definition sets : list ScaleSet :=
  [scaleSet "small" "repo-small" 11 4 ["self-hosted"; "linux-small"]; scaleSet "large" "repo-large" 12 2 ["self-hosted"; "linux-large"];
   scaleSet "builder" "repo-builder" 13 1 ["self-hosted"; "macos-builder"]].

Definition github (sets : list ScaleSet) : GitHub :=
  {| h_ConfigURL := ""; h_Owner := ""; h_ClientID := ""; h_InstallationID := 0; h_KeychainService := ""; h_KeychainAccount := "";
     h_ScaleSets := []; h_SessionOwner := "node-a"; h_CanonicalJobInventory := true; h_ParkedScaleSetAuditMinutes := None;
     h_App := {| a_ClientID := "app"; a_KeychainService := ""; a_KeychainAccount := ""; a_PrivateKeyFile := "/etc/key.pem" |};
     h_Installations := [{| in_Name := "main"; in_InstallationID := 7 |}];
     h_Scopes := [{| sc_Name := "repo"; sc_Kind := ScopeRepository; sc_ConfigURL := "https://github.com/owner/repo"; sc_Installation := "main";
                     sc_RunnerGroup := ""; sc_Targets := ["owner/repo"]; sc_ScaleSets := sets |}] |}.

(** A file with the given builder, scale sets and interval. *)
Definition fileWith (builder : Profile) (sets : list ScaleSet) (poll : Z) : wireConfig :=
  {| w_BaseVM := "linux-base"; w_BaseImageCapabilities := []; w_BaseImageRunnerVersion := ""; w_RunnerVersionFloor := "";
     w_BaseImageTools := []; w_GuestArch := ""; w_CacheGate := None; w_VMPrefix := "gha-linux"; w_PollSeconds := poll;
     w_MaxLinuxWhenMacOSIdle := 4; w_MaxLinuxCPU := 8; w_MaxLinuxMemoryMiB := 16384; w_HostBudget := None;
     w_LinuxReservationAgeSecs := 300; w_LinuxProfiles := [profile "small" "linux-small" 2 4096 0; profile "large" "linux-large" 4 8192 0];
     w_Executor := None; w_LinuxNestedVirtualization := false; w_LinuxSerialLogDirectory := ""; w_MinFreeDiskGiB := 60;
     w_MinFreeInodePercent := floatOf 0; w_MinAvailableMemoryMiB := 0; w_MaxSwapUsedMiB := 0; w_SwapOutPagesPerSecond := Some (floatOf 20);
     w_MaxLoadAverage := floatOf 12; w_MinCPUIdlePercent := floatOf 0; w_PressureMemoryAccounting := false; w_ElasticHostEnvelope := false;
     w_GitHubTimeoutSeconds := 0; w_TartControlTimeoutSeconds := 0; w_BootTimeoutSeconds := 0; w_AssignedTimeoutSeconds := 0;
     w_GitHubSessionMaxIngestFailures := 0; w_GitHubSessionFailureWindowSeconds := 0; w_SessionYieldDisabled := true;
     w_SessionYieldBlockedForSeconds := 0; w_SessionYieldHealthyForSeconds := 60; w_Membership := "stationary";
     w_UpdateDrainDisabled := false; w_UpdateDrainPendingForSeconds := 0; w_UpdateDrainMaxWaitSeconds := 3600;
     w_UpdateDrainCooldownSeconds := 0; w_GuestLivenessRefusals := 0; w_GuestLivenessWindowSeconds := 120;
     w_GuestLivenessProbeTimeoutSeconds := 0;
     w_MacOSBurst := {| wm_Enabled := true; wm_AdmissionPolicy := ""; wm_MixedPlatformAdmission := true; wm_MixedProfileCohorts := false;
       wm_BaseVM := "macos-base"; wm_BaseImageCapabilities := []; wm_BaseImageRunnerVersion := ""; wm_BaseImageTools := [];
       wm_VMPrefix := "gha-macos"; wm_Builder := builder; wm_Compact := Some (profile "maestro" "macos-maestro" 4 7168 2);
       wm_Maestro := None; wm_RootDiskOptions := ""; wm_SharedDirectoryPath := ""; wm_NestedVirtualization := false |};
     w_GitHub := github sets;
     w_Targets := [{| t_Type := "repo"; t_Slug := "owner/repo"; t_MaxActive := 4; t_SchedulingClass := ""; t_DefaultLinuxProfile := "";
                      t_RunnerLabels := [] |}];
     w_Priority := Some {| wp_EscalateAfterSeconds := 600;
       wp_Tiers := [{| tier_Name := "release"; tier_Match := [{| match_Scope := ""; match_WorkflowRef := "*release*"; match_JobName := "" |}] |}] |} |}.

Definition builder : Profile := profile "builder" "macos-builder" 8 12288 1.
Definition file : wireConfig := fileWith builder sets 20.

(** The configuration the file decodes to. *)
Definition config : Config := settings (unmarshalled file) (unmarshalledProfile (profile "maestro" "macos-maestro" 4 7168 2)).

Lemma file_decodes : Decode (unmarshalled file) = inr config.
Proof. vm_compute. done. Qed.

(** A number of seconds that overflows wraps before it is checked: a file that asks
    for a poll every 584 years polls about every second, and cannot be written back. *)
Example seconds_wrap_before_the_check :
  match Decode (unmarshalled (fileWith builder sets 18446744075)) with
  | inr c => c_PollInterval c = 1290448384 /\ Encode c = inl (InvalidNotWholeSeconds "poll interval")
  | inl _ => False
  end.
Proof. vm_compute. done. Qed.
End Sample.
