(* ===== verification/ConfigureSpec.v ===== *)
(** * A configuration and the node it makes

    A decoded file meets what the scheduler, the update drain and the coordinator
    are proved under: profiles are filed under their own names with positive
    vectors, every bound is in range, bindings have durable keys of their own, and
    the capacity a scale set declares is one the node can run.  The examples at the
    end show what the checks let through. *)

From Stdlib Require Import ZArith Lia String Ascii List.
From stdpp Require Import base tactics list gmap strings pretty.
From S2P Require Import Prelude GoStrings Liveness Domain PriorityPolicy Scheduler Fixture Envelope Recovery Order Admission Passes Lanes.
From S2P Require Import PassSpec LaneSpec TickSpec Safety Totality Inbox Bindings HostProbe UpdateDrain.
From S2P Require Import Config Labels Validation ScopeRules Configure ConfigSpec.
From S2P Require Membership.

(** ** Profiles of a decoded file *)

Lemma normalized_idempotent p : Profile_normalized (Profile_normalized p) = Profile_normalized p.
Proof.
  unfold Profile_normalized. destruct (r_CPU (p_Resources p) =? 0) eqn:E; simpl; [|by rewrite E].
  by destruct (p_CPU p =? 0).
Qed.

(** Every profile a guest can boot from carries its vector. *)
Definition normal (c : Config.Config) : Prop := forall p, In p (l_Profiles (c_Linux c) ++ macProfiles c) -> Profile_normalized p = p.

Lemma Decode_valid `{NetText} w c : Decode w = inr c -> Validate c = None /\ normal c.
Proof.
  unfold Decode. destruct (decodeCompact _ _); [|done]. destruct (Membership.ParseMode _); [|done].
  destruct (Validate _) eqn:V; [done|]. intros [= <-]. split; [done|]. intros q Hq. apply List.in_app_iff in Hq as [Hq|Hq].
  - simpl in Hq. apply List.in_map_iff in Hq as (r & <- & _). apply normalized_idempotent.
  - unfold macProfiles in Hq. simpl in Hq. destruct (wm_Enabled _); [|done].
    destruct Hq as [<-|[<-|[]]]; apply normalized_idempotent.
Qed.

(** The last profile of a name is the one that is filed under it. *)
Lemma fold_insert_lookup {A B} (key : A -> string) (value : A -> B) l (m : gmap string B) id b :
  fold_left (fun m x => <[key x := value x]> m) l m !! id = Some b ->
  m !! id = Some b \/ exists x, In x l /\ key x = id /\ value x = b.
Proof.
  revert m. induction l as [|x l IH]; intros m; simpl; [by left|]. intros E. apply IH in E as [E|(y & Hy & Hk & Hv)].
  - destruct (decide (key x = id)) as [<-|Hn].
    + rewrite lookup_insert_eq in E. injection E as E. right. exists x. auto.
    + rewrite lookup_insert_ne in E by done. by left.
  - right. exists y. auto.
Qed.

Lemma Profiles_built c id p :
  Profiles (BuildSchedulerConfig c) !! id = Some p ->
  exists platform q, In (platform, q) (platformProfiles c) /\ p_ID q = id /\ p = profileFor platform q.
Proof.
  simpl. intros E. apply (fold_insert_lookup (fun e => p_ID (snd e)) (fun e => profileFor (fst e) (snd e))) in E as [E|([platform q] & H1 & H2 & H3)].
  - done.
  - exists platform, q. auto.
Qed.

Lemma platformProfiles_In c platform q :
  In (platform, q) (platformProfiles c) ->
  (platform = PlatformLinux /\ In q (l_Profiles (c_Linux c))) \/ (platform = PlatformMacOS /\ In q (macProfiles c)).
Proof.
  unfold platformProfiles. rewrite List.in_app_iff, !List.in_map_iff. intros [(x & [= <- <-] & Hx)|(x & [= <- <-] & Hx)]; auto.
Qed.

(** ** What the checks say of a profile *)

Lemma validateLinuxProfiles_In capacity seen l p :
  validateLinuxProfiles capacity seen l = None -> In p l ->
  let q := Profile_normalized p in
  p_ID q <> "" /\ p_Label q <> "" /\ 1 <= r_CPU (p_Resources q) <= r_CPU capacity /\ 1 <= r_MemoryMiB (p_Resources q) <= r_MemoryMiB capacity /\
  occupancyBudgetInRange q = true /\ p_ID q ∉ seen.
Proof.
  revert seen. induction l as [|x l IH]; intros seen; [done|]. cbn [validateLinuxProfiles]. rewrite !andThen_None, !refuseIf_None.
  intros (H1 & H2 & H3 & H4 & H5) [<-|Hp].
  - unfold exceeds in H3. bool_to_prop. repeat split; try done; lia.
  - destruct (IH _ H5 Hp) as (? & ? & ? & ? & ? & Hs). repeat split; try lia; try done. intros Hin. apply Hs. by apply elem_of_union_r.
Qed.

Lemma validateMacOS_In c p :
  validateMacOS (c_MacOS c) = None -> In p (macProfiles c) ->
  let q := Profile_normalized p in
  p_Label q <> "" /\ 1 <= r_CPU (p_Resources q) /\ 1 <= r_MemoryMiB (p_Resources q) /\ 1 <= p_MaxActive q /\ occupancyBudgetInRange q = true.
Proof.
  unfold validateMacOS, macProfiles. destruct (m_Enabled _); [|done]. cbn [negb]. rewrite andThen_None, checkEach_None. intros [_ Hc] Hp.
  specialize (Hc p Hp). rewrite andThen_None, !refuseIf_None in Hc. destruct Hc as [H1 H2]. bool_to_prop.
  repeat split; try done; lia.
Qed.

Lemma validateTargets_In seen l t :
  validateTargets seen l = None -> In t l ->
  1 <= t_MaxActive t /\ (classFor t = SchedulingStandard \/ classFor t = SchedulingControlPlane) /\ t_Slug t ∉ seen.
Proof.
  revert seen. induction l as [|x l IH]; intros seen; [done|]. cbn [validateTargets]. rewrite !andThen_None, !refuseIf_None.
  intros (H1 & H2 & H3 & H4) [<-|Ht].
  - split; [bool_to_prop; lia|]. split; [|by apply bool_decide_eq_false in H3].
    unfold classFor, schedulingClassOf, Target_normalized in *. destruct (bool_decide (t_SchedulingClass x = "")) eqn:E; [by left|].
    apply andb_false_iff in H2 as [H2|H2]; apply negb_false_iff in H2; rewrite H2; [by left|].
    destruct (bool_decide (t_SchedulingClass x = "standard")); [by left|by right].
  - destruct (IH _ H4 Ht) as (? & ? & Hs). repeat split; try done. intros Hin. apply Hs. by apply elem_of_union_r.
Qed.

(** ** The profiles, caps and bounds the node runs with *)

Definition soundProfile (s : Scheduler.Config) (id : string) (p : Domain.Profile) : Prop :=
  profile_ID p = id /\ positive (profile_Resources p) /\
  (profile_Platform p = PlatformLinux /\ vle (profile_Resources p) (LinuxCapacity s) \/
   profile_Platform p = PlatformMacOS /\ 1 <= profile_MaxActive p) /\
  (profile_OccupancyBudget p = 0 \/ MinOccupancyBudget <= profile_OccupancyBudget p <= MaxOccupancyBudget).

Lemma budget_in_range p platform :
  occupancyBudgetInRange p = true -> OccupancyBudget p platform = 0 \/ MinOccupancyBudget <= OccupancyBudget p platform <= MaxOccupancyBudget.
Proof.
  unfold occupancyBudgetInRange, OccupancyBudget. destruct (p_OccupancyBudgetSeconds p) as [n|].
  - intros E. apply orb_true_iff in E as [E|E]; bool_to_prop; [left; by subst|right; lia].
  - intros _. right. unfold DefaultOccupancyBudget. case_bool_decide; vm_compute; split; discriminate.
Qed.

Section Node.
Context `{NetText} `{ContentAddress}.

Lemma built_profiles c id p :
  Validate c = None -> normal c -> Profiles (BuildSchedulerConfig c) !! id = Some p -> soundProfile (BuildSchedulerConfig c) id p.
Proof.
  intros V Hn E. apply Profiles_built in E as (platform & q & Hq & <- & ->). apply Validate_parts in V as (_ & Ve & Vl & _ & Vm & _).
  assert (1 <= l_MaxInstances (c_Linux c)) as Hs.
  { unfold validateEnvelope in Ve. rewrite !andThen_None, !refuseIf_None in Ve. destruct Ve as (_ & _ & Ve & _).
    apply negb_false_iff, within_true in Ve. lia. }
  apply platformProfiles_In in Hq as [[-> Hq]|[-> Hq]].
  - pose proof (validateLinuxProfiles_In _ _ _ _ Vl Hq) as Hv. cbv zeta in Hv.
    rewrite (Hn q) in Hv by (apply List.in_app_iff; auto). destruct Hv as (_ & _ & ? & ? & ? & _).
    repeat split; simpl; try lia; [|by apply budget_in_range]. left. repeat split; simpl; lia.
  - pose proof (validateMacOS_In _ _ Vm Hq) as Hv. cbv zeta in Hv.
    rewrite (Hn q) in Hv by (apply List.in_app_iff; auto). destruct Hv as (_ & ? & ? & ? & ?).
    repeat split; simpl; try lia; [|by apply budget_in_range]. right. split; [done|lia].
Qed.

End Node.

(** ** Capacities *)

(** What a declared number of guests of a profile may be at most. *)
Definition runnable (c : Config.Config) (p : Domain.Profile) (n : Z) : Prop :=
  let r := profile_Resources p in
  (profile_Platform p = PlatformLinux -> n <= l_MaxInstances (c_Linux c) /\
     n * CPU r <= r_CPU (l_Capacity (c_Linux c)) /\ n * MemoryMB r <= r_MemoryMiB (l_Capacity (c_Linux c))) /\
  (profile_Platform p = PlatformMacOS -> n <= profile_MaxActive p) /\
  (c_HostBudget c <> noResources -> n * CPU r <= r_CPU (c_HostBudget c) /\ n * MemoryMB r <= r_MemoryMiB (c_HostBudget c)).

Lemma runnable_le c p m n : positive (profile_Resources p) -> m <= n -> runnable c p n -> runnable c p m.
Proof.
  intros (H1 & H2 & _) Hm (R1 & R2 & R3). split_and!.
  - intros E. destruct (R1 E) as (? & ? & ?). repeat split; nia.
  - intros E. specialize (R2 E). lia.
  - intros E. destruct (R3 E). split; nia.
Qed.

Lemma quotient_bound a b q n : 0 <= a -> 1 <= b -> quotient a b = Some q -> n <= q -> n * b <= a.
Proof.
  unfold quotient. intros Ha Hb. destruct (Z.eqb_spec b 0); [lia|]. intros [= <-] Hn.
  pose proof (Z.mul_quot_le a b). nia.
Qed.

Lemma budgeted_runnable c limit q n :
  Profile_normalized q = q -> 1 <= r_CPU (p_Resources q) -> 1 <= r_MemoryMiB (p_Resources q) ->
  (c_HostBudget c <> noResources -> 0 <= r_CPU (c_HostBudget c) /\ 0 <= r_MemoryMiB (c_HostBudget c)) ->
  budgetedCapacity c limit q = Some n ->
  n <= limit /\ (c_HostBudget c <> noResources ->
    n * r_CPU (p_Resources q) <= r_CPU (c_HostBudget c) /\ n * r_MemoryMiB (p_Resources q) <= r_MemoryMiB (c_HostBudget c)).
Proof.
  intros En H1 H2 Hb. unfold budgetedCapacity. case_bool_decide as Ez; [by intros [= <-]|]. rewrite En.
  destruct (quotient _ (r_CPU (p_Resources q))) as [cpu|] eqn:E1; [|done]. simpl.
  destruct (quotient _ (r_MemoryMiB (p_Resources q))) as [memory|] eqn:E2; [|done]. simpl. intros [= <-]. destruct (Hb Ez).
  split; [lia|]. intros _. split; eapply quotient_bound; eauto; lia.
Qed.

(** Two tables filled from one list agree on every name. *)
Lemma capacitiesOf_agree (good : Domain.Profile -> Z -> Prop) limit platform l : forall acc caps profiles,
  (forall q n, In q l -> limit q = Some n -> good (profileFor platform q) n) ->
  (forall id p n, profiles !! id = Some p -> acc !! id = Some n -> good p n) -> capacitiesOf limit acc l = Some caps ->
  forall id p n, fold_left addProfile (map (pair platform) l) profiles !! id = Some p -> caps !! id = Some n -> good p n.
Proof.
  induction l as [|q l IH]; intros acc caps profiles Hl Ha E; simpl in *; [by injection E as <-|].
  destruct (limit q) as [m|] eqn:Em; [|done]. simpl in E. eapply IH; [| |exact E]; [by eauto|].
  intros id p n. unfold addProfile. simpl. destruct (decide (p_ID q = id)) as [<-|Hne].
  - rewrite !lookup_insert_eq. intros [= <-] [= <-]. by apply Hl; [left|].
  - rewrite !lookup_insert_ne by done. apply Ha.
Qed.

Section Authority.
Context `{NetText}.

Lemma budget_positive c :
  Validate c = None -> c_HostBudget c <> noResources -> 0 <= r_CPU (c_HostBudget c) /\ 0 <= r_MemoryMiB (c_HostBudget c).
Proof.
  intros V Hn. apply Validate_parts in V as (_ & _ & _ & _ & _ & Vb & _). unfold validateHostBudget in Vb.
  rewrite bool_decide_eq_false_2 in Vb by done. rewrite andThen_None, refuseIf_None in Vb. destruct Vb as [Vb _]. bool_to_prop. lia.
Qed.

Lemma linux_vector c q :
  Validate c = None -> normal c -> In q (l_Profiles (c_Linux c)) ->
  Profile_normalized q = q /\ 1 <= r_CPU (p_Resources q) <= r_CPU (l_Capacity (c_Linux c)) /\
  1 <= r_MemoryMiB (p_Resources q) <= r_MemoryMiB (l_Capacity (c_Linux c)).
Proof.
  intros V Hn Hq. assert (Profile_normalized q = q) as En by (apply Hn, List.in_app_iff; auto).
  apply Validate_parts in V as (_ & _ & Vl & _). pose proof (validateLinuxProfiles_In _ _ _ _ Vl Hq) as Hv. cbv zeta in Hv.
  rewrite En in Hv. tauto.
Qed.

Lemma macos_vector c q :
  Validate c = None -> normal c -> In q (macProfiles c) ->
  Profile_normalized q = q /\ 1 <= r_CPU (p_Resources q) /\ 1 <= r_MemoryMiB (p_Resources q).
Proof.
  intros V Hn Hq. assert (Profile_normalized q = q) as En by (apply Hn, List.in_app_iff; auto).
  apply Validate_parts in V as (_ & _ & _ & _ & Vm & _). pose proof (validateMacOS_In _ _ Vm Hq) as Hv. cbv zeta in Hv.
  rewrite En in Hv. tauto.
Qed.

Lemma linuxLimit_runnable c q n :
  Validate c = None -> normal c -> In q (l_Profiles (c_Linux c)) -> linuxLimit c q = Some n -> runnable c (profileFor PlatformLinux q) n.
Proof.
  intros V Hn Hq. destruct (linux_vector _ _ V Hn Hq) as (En & H1 & H2). unfold linuxLimit.
  destruct (quotient _ (r_CPU _)) as [cpu|] eqn:E1; [|done]. simpl. destruct (quotient _ (r_MemoryMiB _)) as [memory|] eqn:E2; [|done]. simpl.
  intros E. apply budgeted_runnable in E as [Hl Hb]; [|done|lia|lia|by apply budget_positive].
  split; [|by split]. intros _. split; [lia|]. simpl. split; eapply quotient_bound; eauto; lia.
Qed.

Lemma capacities_runnable c caps :
  Validate c = None -> normal c -> authorityProfileCapacities c = Some caps ->
  forall id p n, Profiles (BuildSchedulerConfig c) !! id = Some p -> caps !! id = Some n -> runnable c p n.
Proof.
  intros V Hn. unfold authorityProfileCapacities. destruct (capacitiesOf (linuxLimit c) ∅ _) as [linux|] eqn:El; [|done]. simpl. intros E.
  unfold platformProfiles. rewrite fold_left_app. eapply capacitiesOf_agree; [| |exact E].
  - intros q n Hq Eq. destruct (macos_vector _ _ V Hn Hq) as (En & H1 & H2).
    apply budgeted_runnable in Eq as [Hl Hb]; [|done|lia|lia|by apply budget_positive]. by split.
  - eapply capacitiesOf_agree; [| |exact El]; [|done]. intros q n Hq. by apply linuxLimit_runnable.
Qed.

Lemma capacitiesOf_total limit l : (forall q, In q l -> is_Some (limit q)) -> forall acc, is_Some (capacitiesOf limit acc l).
Proof.
  induction l as [|q l IH]; intros Hl acc; simpl; [by eexists|]. destruct (Hl q (or_introl eq_refl)) as [n ->]. simpl.
  apply IH. intros x Hx. apply Hl. by right.
Qed.

Lemma budgeted_total c limit q :
  Profile_normalized q = q -> 1 <= r_CPU (p_Resources q) -> 1 <= r_MemoryMiB (p_Resources q) -> is_Some (budgetedCapacity c limit q).
Proof.
  intros En H1 H2. unfold budgetedCapacity. case_bool_decide; [by eexists|]. rewrite En. unfold quotient.
  destruct (Z.eqb_spec (r_CPU (p_Resources q)) 0); [lia|]. simpl. destruct (Z.eqb_spec (r_MemoryMiB (p_Resources q)) 0); [lia|]. by eexists.
Qed.

(** No division of a decoded configuration panics. *)
Lemma capacities_total c : Validate c = None -> normal c -> is_Some (authorityProfileCapacities c).
Proof.
  intros V Hn. unfold authorityProfileCapacities.
  destruct (capacitiesOf_total (linuxLimit c) (l_Profiles (c_Linux c))) with (acc := ∅ : gmap string Z) as [linux ->].
  - intros q Hq. destruct (linux_vector _ _ V Hn Hq) as (En & H1 & H2). unfold linuxLimit, quotient.
    destruct (Z.eqb_spec (r_CPU (p_Resources q)) 0); [lia|]. simpl. destruct (Z.eqb_spec (r_MemoryMiB (p_Resources q)) 0); [lia|]. simpl.
    by apply budgeted_total; [|lia|lia].
  - simpl. apply capacitiesOf_total. intros q Hq. destruct (macos_vector _ _ V Hn Hq) as (En & H1 & H2). by apply budgeted_total.
Qed.

(** ** Scopes *)

Lemma ValidateAuthority_scoped c :
  ValidateAuthority c = Some None -> h_Scopes (c_GitHub c) <> [] ->
  Validate c = None /\ exists installations caps registered,
    authorityProfileCapacities c = Some caps /\
    validateScopes c installations caps {| rg_names := ∅; rg_urls := ∅; rg_assigned := ∅ |} (h_Scopes (c_GitHub c)) = inr registered.
Proof.
  intros A Hs. unfold ValidateAuthority in A. destruct (andThen _ _) eqn:V in A; [done|]. apply andThen_None in V as [V _]. split; [done|].
  assert (multiScopeConfigured (c_GitHub c) = true) as Em.
  { unfold multiScopeConfigured. destruct (h_Scopes (c_GitHub c)); [done|]. by rewrite !orb_true_r. }
  rewrite Em in A. destruct (legacyConfigured _); [done|]. unfold validateMultiScopeAuthority in A.
  destruct (_ || _); [done|]. destruct (_ || _); [done|]. destruct (validateInstallations _ _ _) as [|installations]; [done|].
  destruct (authorityProfileCapacities c) as [caps|]; [|done]. simpl in A. destruct (validateScopes _ _ _ _ _) as [|registered] eqn:E; [done|].
  by exists installations, caps, registered.
Qed.

Lemma validateScope_done c installations caps registered scope registered' :
  validateScope c installations caps registered scope = inr registered' ->
  exists u targets targetCapacities, validateScopeTargets scope u targets (rg_assigned registered) = Some (rg_assigned registered') /\
    validateScopeScaleSets scope (ProfileLabelSets c) caps targetCapacities (h_CanonicalJobInventory (c_GitHub c)) = None.
Proof.
  unfold validateScope. repeat case_bool_decide; try done. simpl. destruct (parseScopeURL scope) as [[u key]|]; [|done].
  case_bool_decide; [done|]. destruct (validateScopeTargets _ _ _ _) as [assigned|] eqn:Ea; [|done].
  destruct (validateScopeScaleSets _ _ _ _ _) eqn:Es; [done|]. intros [= <-]. eauto.
Qed.

(** What is checked of one scale set. *)
Definition soundSet (c : Config.Config) (caps : gmap string Z) (s : ScaleSet) : Prop :=
  is_Some (ProfileLabelSets c !! s_Profile s) /\ 1 <= s_MaxCapacity s /\ 0 <= s_ID s /\
  (h_CanonicalJobInventory (c_GitHub c) = true -> s_MaxCapacity s <= default 0 (caps !! s_Profile s)) /\
  validateScaleSetLabels s (ProfileLabelSets c) = None.

Lemma checkScaleSets_spec canonical sets runtime profiles names l :
  checkScaleSets canonical sets runtime profiles names l = None ->
  List.NoDup (map s_Profile l) /\ forall s, In s l -> (s_Profile s ∉ profiles) /\ is_Some (sets !! s_Profile s) /\ 1 <= s_MaxCapacity s /\
    0 <= s_ID s /\ (canonical = true -> s_MaxCapacity s = runtime (s_Profile s)) /\ (validateScaleSetLabels s sets = None).
Proof.
  revert profiles names. induction l as [|x l IH]; intros profiles names; [by split; [constructor|]|]. cbn [checkScaleSets].
  rewrite !andThen_None, !refuseIf_None. unfold untruthful. rewrite andThen_None, !refuseIf_None.
  intros (H1 & [H2 _] & _ & H3 & _ & H4 & H5). apply IH in H5 as [Hd Hl]. split.
  - simpl. constructor; [|done]. intros Hin. apply List.in_map_iff in Hin as (s & E & Hs). apply Hl in Hs as [Hs _].
    apply Hs, elem_of_union_l, elem_of_singleton. done.
  - intros s [<-|Hs].
    + apply bool_decide_eq_false in H3. repeat (apply orb_false_iff in H1 as [H1 ?]). apply bool_decide_eq_false, not_eq_None_Some in H1.
      split_and!; try done; try lia. intros E. rewrite E in H2. by apply negb_false_iff, Z.eqb_eq in H2.
    + apply Hl in Hs as (Hn & Hs). split; [|done]. intros Hx. by apply Hn, elem_of_union_r.
Qed.

Lemma validateScopes_sets c installations caps l : forall registered registered' scope s,
  validateScopes c installations caps registered l = inr registered' -> In scope l -> In s (sc_ScaleSets scope) -> soundSet c caps s.
Proof.
  induction l as [|x l IH]; intros registered registered' scope s; simpl; [done|].
  destruct (validateScope _ _ _ _ _) as [|r] eqn:E; [done|]. intros Hl [<-|Hs] Hin; [|by eapply IH].
  apply validateScope_done in E as (u & targets & tc & _ & E). unfold validateScopeScaleSets in E. rewrite andThen_None in E.
  destruct E as [E _]. apply checkScaleSets_spec in E as [_ E]. apply E in Hin as (_ & ? & ? & ? & Ht & ?). split_and!; try done.
  intros Hc. rewrite Ht by done. lia.
Qed.
End Authority.

(** ** Bindings *)

Lemma scopedStoreKey_positive `{ScopeSum} scope id : 0 < scopedStoreKey scope id.
Proof.
  unfold scopedStoreKey. assert (0 <= Z.land (scopeSum (scope +:+ nul +:+ pretty id)) maxInt64) by (apply Z.land_nonneg; by right).
  destruct (Z.eqb_spec (Z.land (scopeSum (scope +:+ nul +:+ pretty id)) maxInt64) 0); lia.
Qed.

(** A binding of a scale set, and the profile it resolved to. *)
Definition bindsTo `{ScopeSum} (c : Config.Config) (sched : Scheduler.Config) (entry : GitHubScope * ScaleSet) (b : Binding) : Prop :=
  let '(scope, s) := entry in
  b = bindingOf c scope s (scopedStoreKey (sc_Name scope) (s_ID s)) (b_Profile b) /\
  Profiles sched !! s_Profile s = Some (b_Profile b) /\ 0 < s_ID s.

Lemma scopedBindings_spec `{ScopeSum} c sched l : forall seen bs,
  scopedBindings c sched seen l = inr bs ->
  Forall2 (bindsTo c sched) l bs /\ List.NoDup (map b_StoreKey bs) /\ forall b, In b bs -> b_StoreKey b ∉ seen.
Proof.
  induction l as [|[scope s] l IH]; intros seen bs; simpl; [intros [= <-]; by split_and!; [constructor|constructor|]|].
  unfold resolveScaleSetProfile. destruct (Profiles sched !! s_Profile s) as [p|] eqn:Ep; [|done].
  destruct (Z.leb_spec (s_ID s) 0); [done|]. case_bool_decide as Hk; [done|].
  destruct (scopedBindings _ _ _ l) as [|rest] eqn:E; [done|]. intros [= <-]. apply IH in E as (Hf & Hd & Hs). split_and!.
  - constructor; [|done]. simpl. split_and!; done.
  - simpl. constructor; [|done]. intros Hin. apply List.in_map_iff in Hin as (b & Eb & Hb). apply (Hs b Hb).
    rewrite Eb. apply elem_of_union_l, elem_of_singleton. done.
  - intros b [<-|Hb]; [done|]. intros Hx. by apply (Hs b Hb), elem_of_union_r.
Qed.

Lemma bound_durable `{ScopeSum} c sched entry b : bindsTo c sched entry b -> durableKey b = b_StoreKey b.
Proof.
  destruct entry as [scope s]. intros (E & _). unfold durableKey. rewrite E. cbn [bindingOf b_StoreKey b_ScaleSetID].
  pose proof (scopedStoreKey_positive (sc_Name scope) (s_ID s)). destruct (Z.ltb_spec 0 (scopedStoreKey (sc_Name scope) (s_ID s))); lia.
Qed.

Section Bound.
Context `{NetText} `{ScopeSum}.

Lemma BuildBindings_scoped c bs :
  h_Scopes (c_GitHub c) <> [] -> BuildBindings c (BuildSchedulerConfig c) = inr bs ->
  Forall2 (bindsTo c (BuildSchedulerConfig c)) (scopedSets c) bs /\ List.NoDup (map durableKey bs).
Proof.
  intros Hs. unfold BuildBindings. destruct (h_Scopes (c_GitHub c)); [done|]. intros E. apply scopedBindings_spec in E as (Hf & Hd & _).
  split; [done|]. enough (map durableKey bs = map b_StoreKey bs) as -> by done. clear Hd. induction Hf as [|e b ? ? He _ IH]; simpl; [done|].
  by rewrite IH, (bound_durable _ _ _ _ He).
Qed.

Lemma scopedSets_In c scope s : In (scope, s) (scopedSets c) -> In scope (h_Scopes (c_GitHub c)) /\ In s (sc_ScaleSets scope).
Proof.
  unfold scopedSets. rewrite List.in_flat_map. intros (x & Hx & Hin). apply List.in_map_iff in Hin as (y & [= -> ->] & Hy). done.
Qed.

End Bound.

(** ** A node *)

Module Configured.
Import ConfigSpec.Sample.

#[export] Instance sum : ScopeSum := {| scopeSum text := fold_left (fun n c => n * 31 + Z.of_nat (nat_of_ascii c)) (bytesOf text) 7 |}.
#[local] Existing Instance plainAddress.



(** ** What the checks let through *)

(** A macOS profile may carry the name of a Linux one; it then replaces it, and the
    scheduler has no Linux profile of that name. *)
Example macos_profile_can_replace_a_linux_one :
  match Decode (unmarshalled (fileWith (profile "small" "macos-builder" 8 12288 1) sets 20)) with
  | inr c => map p_ID (l_Profiles (c_Linux c)) = ["small"; "large"] /\
      profile_Platform <$> (Profiles (BuildSchedulerConfig c) !! "small") = Some PlatformMacOS /\
      capabilityPlatform c "small" = Some PlatformLinux
  | inl _ => False
  end.
Proof. vm_compute. done. Qed.

(** The truthful capacity of a macOS profile is its limit, whatever the envelope its
    guests are charged to can hold: authority is granted only if GitHub is told two
    guests of eight CPUs where the node has eight. *)
Example macos_capacity_ignores_the_envelope :
  let declare n := fileWith (profile "builder" "macos-builder" 8 12288 2) [scaleSet "builder" "repo-builder" 13 n ["self-hosted"; "macos-builder"]] 20 in
  match Decode (unmarshalled (declare 1)), Decode (unmarshalled (declare 2)) with
  | inr one, inr two =>
      ValidateAuthority one = Some (Some InvalidUntruthfulCapacity) /\ ValidateAuthority two = Some None /\
      CPU (LinuxCapacity (BuildSchedulerConfig two)) = 8 /\ ElasticHostEnvelope (BuildSchedulerConfig two) = false
  | _, _ => False
  end.
Proof. vm_compute. done. Qed.

(** Two scale sets of the flat list may have one identifier; their bindings then have
    one durable key. *)
Definition legacy (sets : list ScaleSet) : wireConfig :=
  let w := fileWith builder [] 20 in
  {| w_BaseVM := w_BaseVM w; w_BaseImageCapabilities := []; w_BaseImageRunnerVersion := ""; w_RunnerVersionFloor := "";
     w_BaseImageTools := []; w_GuestArch := ""; w_CacheGate := None; w_VMPrefix := w_VMPrefix w; w_PollSeconds := 20;
     w_MaxLinuxWhenMacOSIdle := 4; w_MaxLinuxCPU := 8; w_MaxLinuxMemoryMiB := 16384; w_HostBudget := None;
     w_LinuxReservationAgeSecs := 300; w_LinuxProfiles := w_LinuxProfiles w; w_Executor := None; w_LinuxNestedVirtualization := false;
     w_LinuxSerialLogDirectory := ""; w_MinFreeDiskGiB := 60; w_MinFreeInodePercent := floatOf 0; w_MinAvailableMemoryMiB := 0;
     w_MaxSwapUsedMiB := 0; w_SwapOutPagesPerSecond := None; w_MaxLoadAverage := floatOf 0; w_MinCPUIdlePercent := floatOf 0;
     w_PressureMemoryAccounting := false; w_ElasticHostEnvelope := false; w_GitHubTimeoutSeconds := 0; w_TartControlTimeoutSeconds := 0;
     w_BootTimeoutSeconds := 0; w_AssignedTimeoutSeconds := 0; w_GitHubSessionMaxIngestFailures := 0; w_GitHubSessionFailureWindowSeconds := 0;
     w_SessionYieldDisabled := false; w_SessionYieldBlockedForSeconds := 0; w_SessionYieldHealthyForSeconds := 0; w_Membership := "";
     w_UpdateDrainDisabled := false; w_UpdateDrainPendingForSeconds := 0; w_UpdateDrainMaxWaitSeconds := 0; w_UpdateDrainCooldownSeconds := 0;
     w_GuestLivenessRefusals := 0; w_GuestLivenessWindowSeconds := 0; w_GuestLivenessProbeTimeoutSeconds := 0;
     w_MacOSBurst := {| wm_Enabled := false; wm_AdmissionPolicy := ""; wm_MixedPlatformAdmission := false; wm_MixedProfileCohorts := false;
       wm_BaseVM := ""; wm_BaseImageCapabilities := []; wm_BaseImageRunnerVersion := ""; wm_BaseImageTools := []; wm_VMPrefix := "";
       wm_Builder := noProfile; wm_Compact := None; wm_Maestro := None; wm_RootDiskOptions := ""; wm_SharedDirectoryPath := "";
       wm_NestedVirtualization := false |};
     w_GitHub := {| h_ConfigURL := "https://github.com/owner/repo"; h_Owner := "owner"; h_ClientID := "app"; h_InstallationID := 7;
       h_KeychainService := "fleet"; h_KeychainAccount := "key"; h_ScaleSets := sets; h_SessionOwner := ""; h_CanonicalJobInventory := true;
       h_ParkedScaleSetAuditMinutes := None; h_App := noApp; h_Installations := []; h_Scopes := [] |};
     w_Targets := w_Targets w; w_Priority := None |}.

Example flat_list_can_share_an_identifier :
  match Decode (unmarshalled (legacy [scaleSet "small" "small" 11 4 []; scaleSet "large" "large" 11 2 []])) with
  | inr c => ValidateAuthority c = Some None /\ ValidateBindings c = None /\
      match BuildBindings c (BuildSchedulerConfig c) with inr bs => map durableKey bs = [11; 11] | inl _ => False end
  | inl _ => False
  end.
Proof. vm_compute. done. Qed.
End Configured.
