(* ===== verification/LabelSpec.v ===== *)
(** * Labels name one profile, and a job that names one has one home

    In a valid configuration no label names two profiles, an alias never spells a
    vector its profile does not have, and a job that asks for the canonical label
    of a profile is taken by at most one binding, which runs exactly the vector the
    label spells. *)

From Stdlib Require Import ZArith Lia String Ascii List.
From stdpp Require Import base tactics list gmap strings pretty.
From S2P Require Import Prelude GoStrings Liveness Domain Scheduler Operations Store Inbox Bindings.
From S2P Require Import Config Labels Validation ScopeRules Configure ConfigSpec ConfigureSpec.

(** ** Folding *)

Lemma isSpace_lower c : isSpace (lowerChar c) = isSpace c.
Proof. destruct c as [[] [] [] [] [] [] [] []]; vm_compute; done. Qed.

Lemma trimLeft_lower s : trimLeft (ToLower s) = ToLower (trimLeft s).
Proof. induction s as [|c s IH]; simpl; [done|]. rewrite isSpace_lower. by destruct (isSpace c). Qed.

Lemma TrimSpace_lower s : TrimSpace (ToLower s) = ToLower (TrimSpace s).
Proof.
  unfold TrimSpace. rewrite trimLeft_lower. unfold ToLower. rewrite <- !map_rev. fold (ToLower (rev (trimLeft s))).
  rewrite trimLeft_lower. unfold ToLower. by rewrite map_rev.
Qed.

Lemma bytesOf_string (b : bytes) : bytesOf (string_of_list_ascii b) = b.
Proof. apply list_ascii_of_string_of_list_ascii. Qed.

Lemma folded_lowered a : folded a = trimmed (lowered a).
Proof. unfold folded, trimmed, lowered. by rewrite !bytesOf_string, TrimSpace_lower. Qed.

Lemma EqualFold_folded a b : EqualFold a b = true -> folded a = folded b.
Proof. unfold EqualFold. rewrite bool_decide_eq_true, !folded_lowered. by intros ->. Qed.

Lemma EqualFold_sym a b : EqualFold a b = EqualFold b a.
Proof. unfold EqualFold. apply bool_decide_ext. naive_solver. Qed.

Lemma EqualFold_trans a b c : EqualFold a b = true -> EqualFold b c = true -> EqualFold a c = true.
Proof. unfold EqualFold. rewrite !bool_decide_eq_true. congruence. Qed.

Lemma trimLeft_keeps c s : In c s -> isSpace c = false -> In c (trimLeft s).
Proof.
  induction s as [|x s IH]; simpl; [done|]. intros [->|Hin] Hc; [rewrite Hc; by left|]. destruct (isSpace x); [auto|]. by right.
Qed.

(** A text with a visible character is not blank. *)
Lemma folded_visible s c : In c (bytesOf s) -> isSpace c = false -> folded s <> "".
Proof.
  intros Hin Hc E. unfold folded, lowered, trimmed in E. rewrite bytesOf_string in E. apply (f_equal bytesOf) in E. rewrite bytesOf_string in E.
  assert (In c (TrimSpace (bytesOf s))) as Ht.
  { unfold TrimSpace. apply -> List.in_rev. apply trimLeft_keeps; [|done]. apply -> List.in_rev. by apply trimLeft_keeps. }
  by destruct (TrimSpace (bytesOf s)).
Qed.

(** ** What a set advertises *)

Lemma addLabel_fold l : forall acc seen kept seen',
  fold_left addLabel l (acc, seen) = (kept, seen') ->
  (forall x, In x kept -> In x acc \/ In x l) /\ (forall x, In x l -> folded x = "" \/ folded x ∈ seen') /\
  (forall key, key ∈ seen' -> key ∈ seen \/ exists x, In x kept /\ folded x = key) /\ (forall x, In x acc -> In x kept) /\ seen ⊆ seen'.
Proof.
  induction l as [|y l IH]; intros acc seen kept seen'; cbn [fold_left]; [intros [= <- <-]; split_and!; auto; done|].
  unfold addLabel in *. cbn [fst snd]. destruct (bool_decide (folded y = "") || bool_decide (folded y ∈ seen)) eqn:Ey.
  - intros E. destruct (IH _ _ _ _ E) as (H1 & H2 & H3 & H4 & H5). split_and!; auto.
    + intros x Hx. destruct (H1 x Hx); simpl; auto.
    + intros x [<-|Hx]; [|auto]. apply orb_true_iff in Ey as [Ey|Ey]; apply bool_decide_eq_true in Ey; auto.
  - intros E. destruct (IH _ _ _ _ E) as (H1 & H2 & H3 & H4 & H5). split_and!.
    + intros x Hx. destruct (H1 x Hx) as [Hi|Hi]; [|simpl; auto].
      apply List.in_app_iff in Hi as [Hi|[<-|[]]]; simpl; auto.
    + intros x [<-|Hx]; [|auto]. right. apply H5, elem_of_union_l, elem_of_singleton. done.
    + intros key Hk. destruct (H3 key Hk) as [Hs|Hs]; [|auto]. apply elem_of_union in Hs as [Hs|Hs]; [|auto].
      apply elem_of_singleton in Hs as ->. right. exists y. split; [|done]. apply H4, List.in_app_iff. right. by left.
    + intros x Hx. apply H4, List.in_app_iff. by left.
    + intros key Hk. apply H5, elem_of_union_r. done.
Qed.

Lemma Advertise_In s configured x :
  In x (LabelSet_Advertise s configured) -> In x configured \/ x = ls_Canonical s \/ In x (ls_Aliases s).
Proof.
  unfold LabelSet_Advertise. destruct (fold_left _ _ _) as [kept seen] eqn:E. apply addLabel_fold in E as (H1 & _). simpl. intros Hx.
  destruct (H1 x Hx) as [[]|Hi]. apply List.in_app_iff in Hi as [Hi|[<-|Hi]]; auto.
Qed.

Lemma All_covers s x : x = ls_Canonical s \/ In x (ls_Aliases s) -> folded x <> "" -> exists y, In y (LabelSet_All s) /\ folded y = folded x.
Proof.
  unfold LabelSet_All, LabelSet_Advertise. cbn [app]. destruct (fold_left _ _ _) as [kept seen] eqn:E. apply addLabel_fold in E as (_ & H2 & H3 & _).
  intros Hx Hn. simpl. destruct (H2 x) as [E|E]; [|done|].
  - destruct Hx as [->|Hx]; [by left|by right].
  - destruct (H3 _ E) as [Hs|(y & Hy & Ey)]; [by apply elem_of_empty in Hs|]. by exists y.
Qed.

(** ** The label set of a profile *)

Definition arched (os arch : string) (q : Profile) : string :=
  labelText os arch (r_CPU (p_Resources q)) (Z.quot (r_MemoryMiB (p_Resources q)) mibPerGiB).

Lemma addAliases_In canonical aliases : forall seen kept a,
  addAliases canonical seen aliases = inr kept -> In a kept -> In a aliases /\ checkAlias a canonical = None.
Proof.
  induction aliases as [|x aliases IH]; intros seen kept a; cbn [addAliases]; [by intros [= <-]|].
  destruct (checkAlias x canonical) eqn:Ex; [done|]. destruct (bool_decide _).
  - intros E Ha. destruct (IH _ _ _ E Ha). split; [by right|done].
  - destruct (addAliases _ _ aliases) as [|rest] eqn:E; [done|]. intros [= <-] [<-|Ha]; [by split; [left|]|].
    destruct (IH _ _ _ E Ha). split; [by right|done].
Qed.

(** The canonical label spells the vector; an alias is not blank, and one of the
    canonical form is that label. *)
Lemma labelSet_spec q os arch set :
  labelSet q os arch = inr set -> Profile_normalized q = q ->
  ls_Canonical set = arched os arch q /\ Z.rem (r_MemoryMiB (p_Resources q)) mibPerGiB = 0 /\
  forall a, In a (ls_Aliases set) ->
    trimmed a <> "" /\ (canonicalLabelGrammar a = true -> EqualFold a (ls_Canonical set) = true).
Proof.
  unfold labelSet, canonicalLabel. intros E Hq. rewrite Hq in E. destruct (_ || _); [done|].
  destruct (Z.eqb_spec (Z.rem (r_MemoryMiB (p_Resources q)) mibPerGiB) 0) as [Hr|]; [|done]. cbn [negb] in E.
  destruct (addAliases _ _ _) as [|aliases] eqn:Ea; [done|]. injection E as <-. cbn [ls_Canonical ls_Aliases]. split_and!; [done|done|].
  intros a Ha. apply (addAliases_In _ _ _ _ _ Ea) in Ha as [_ Hc]. unfold checkAlias in Hc. rewrite !andThen_None, !refuseIf_None in Hc.
  destruct Hc as (H1 & _ & H3). apply bool_decide_eq_false in H1. split; [done|]. intros Hg. rewrite Hg in H3.
  by apply negb_false_iff in H3.
Qed.

Lemma canonical_visible os arch q : folded (arched os arch q) <> "".
Proof. apply (folded_visible _ "t"%char); [|done]. by left. Qed.

Lemma labelSet_visible q os arch set : labelSet q os arch = inr set -> folded (ls_Canonical set) <> "".
Proof.
  unfold labelSet, canonicalLabel. destruct (_ || _); [done|]. destruct (negb _); [done|]. destruct (addAliases _ _ _); [done|].
  intros [= <-]. apply canonical_visible.
Qed.

Lemma trimmed_folded a : trimmed a <> "" -> folded a <> "".
Proof.
  intros Ha E. apply Ha. unfold folded, lowered in E. apply (f_equal bytesOf) in E. rewrite bytesOf_string in E.
  unfold ToLower in E. apply bytesOf_inj. by apply map_eq_nil in E.
Qed.

(** ** No label names two profiles *)

Lemma claimLabels_spec labels : forall claimed claimed',
  claimLabels claimed labels = Some claimed' ->
  claimed ⊆ claimed' /\ (forall x, In x labels -> (folded x ∉ claimed) /\ folded x ∈ claimed').
Proof.
  induction labels as [|y labels IH]; intros claimed claimed'; simpl; [by intros [= <-]|]. case_bool_decide as Hy; [done|].
  intros E. destruct (IH _ _ E) as [Hs Hl]. split.
  - intros key Hk. apply Hs, elem_of_union_r. done.
  - intros x [<-|Hx].
    + split; [done|]. apply Hs, elem_of_union_l, elem_of_singleton. done.
    + destruct (Hl x Hx) as [Hn Hi]. split; [|done]. intros Hk. by apply Hn, elem_of_union_r.
Qed.

Record Distinct (sets : LabelSets) (claimed : gset string) : Prop := {
  di_claimed : forall id s x, sets !! id = Some s -> In x (LabelSet_All s) -> folded x ∈ claimed;
  di_apart : forall i j s t x y, sets !! i = Some s -> sets !! j = Some t -> In x (LabelSet_All s) -> In y (LabelSet_All t) ->
    folded x = folded y -> i = j;
  di_visible : forall id s, sets !! id = Some s -> folded (ls_Canonical s) <> ""
}.

Lemma addLabelSet_distinct sets claimed os arch q sets' claimed' :
  Distinct sets claimed -> addLabelSet sets claimed os arch q = inr (sets', claimed') ->
  Distinct sets' claimed' /\ exists set, labelSet q os arch = inr set /\ sets' = <[p_ID q := set]> sets.
Proof.
  intros [D1 D2 D3]. unfold addLabelSet. destruct (labelSet q os arch) as [|set] eqn:Eq; [done|].
  destruct (claimLabels claimed (LabelSet_All set)) as [c|] eqn:E; [|done]. intros [= <- <-].
  destruct (claimLabels_spec _ _ _ E) as [Hs Hl]. split; [|eauto]. split.
  - intros id s x. rewrite lookup_insert_Some. intros [[<- <-]|[_ Hi]] Hx; [by apply Hl|]. by eapply Hs, D1.
  - intros i j s t x y. rewrite !lookup_insert_Some. intros [[<- <-]|[Hi Ei]] [[<- <-]|[Hj Ej]] Hx Hy Exy; [done| | |by eapply D2].
    + exfalso. apply (Hl x Hx). rewrite Exy. by eapply D1.
    + exfalso. apply (Hl y Hy). rewrite <- Exy. by eapply D1.
  - intros id s. rewrite lookup_insert_Some. intros [[<- <-]|[_ Hi]]; [by eapply labelSet_visible|by eapply D3].
Qed.

(** ** Labels and profiles of a node *)

Definition osOf (platform : Platform) : string := if bool_decide (platform = PlatformMacOS) then canonicalMacOS else canonicalLinuxOS.

Lemma labelled_platforms c : labelledProfiles c = map (fun e => (osOf (fst e), snd e)) (platformProfiles c).
Proof.
  unfold labelledProfiles, platformProfiles, macProfiles. rewrite map_app, !map_map. f_equal. by destruct (m_Enabled _).
Qed.

(** The set filed under a name is that of the profile filed under it. *)
Definition labelled (arch : string) (sets : LabelSets) (id : string) (p : Domain.Profile) : Prop :=
  exists set q, sets !! id = Some set /\ p = profileFor (profile_Platform p) q /\ p_ID q = id /\ Profile_normalized q = q /\
    labelSet q (osOf (profile_Platform p)) arch = inr set.

Lemma addLabelSets_agree arch l : forall sets claimed profiles,
  (forall e, In e l -> Profile_normalized (snd e) = snd e) -> Distinct sets claimed ->
  (forall id p, profiles !! id = Some p -> labelled arch sets id p) ->
  snd (addLabelSets sets claimed arch (map (fun e => (osOf (fst e), snd e)) l)) = None ->
  let sets' := fst (addLabelSets sets claimed arch (map (fun e => (osOf (fst e), snd e)) l)) in
  (exists claimed', Distinct sets' claimed') /\
  (forall id p, fold_left addProfile l profiles !! id = Some p -> labelled arch sets' id p).
Proof.
  induction l as [|[platform q] l IH]; intros sets claimed profiles Hn D Hp; [by eauto|]. cbn [map fst snd addLabelSets fold_left].
  destruct (addLabelSet sets claimed (osOf platform) arch q) as [|[sets1 claimed1]] eqn:E; [done|].
  apply addLabelSet_distinct in E as (D1 & set & Es & ->); [|done]. apply IH; [intros e He; apply Hn; by right|done|].
  intros id p. unfold addProfile. cbn [fst snd]. rewrite lookup_insert_Some. intros [[<- <-]|[Hne Hid]].
  - exists set, q. rewrite lookup_insert_eq. split_and!; try done. apply (Hn (platform, q)). by left.
  - destruct (Hp _ _ Hid) as (s & q' & Hs & Hq). exists s, q'. by rewrite lookup_insert_ne.
Qed.

Section Node.
Context `{NetText}.

Lemma node_labels c :
  Validate c = None -> normal c ->
  (exists claimed, Distinct (ProfileLabelSets c) claimed) /\
  forall id p, Profiles (BuildSchedulerConfig c) !! id = Some p -> labelled (GuestArchOrDefault c) (ProfileLabelSets c) id p.
Proof.
  intros V Hn. apply Validate_parts in V as (_ & _ & _ & _ & _ & _ & _ & _ & Vl). unfold ProfileLabelSets, profileLabelSets in *.
  rewrite labelled_platforms in *. apply (addLabelSets_agree (GuestArchOrDefault c) (platformProfiles c) ∅ ∅ ∅); try done.
  intros [platform q] Hq. apply Hn, List.in_app_iff. apply platformProfiles_In in Hq as [[_ Hq]|[_ Hq]]; auto.
Qed.

(** The canonical label of the profile a scale set names is one of its own. *)
Lemma labels_apart c i j s t x y :
  Validate c = None -> normal c -> ProfileLabelSets c !! i = Some s -> ProfileLabelSets c !! j = Some t ->
  (x = ls_Canonical s \/ In x (ls_Aliases s)) -> (y = ls_Canonical t \/ In y (ls_Aliases t)) -> folded x <> "" ->
  folded x = folded y -> i = j.
Proof.
  intros V Hn Hi Hj Hx Hy Hv Exy. destruct (node_labels c V Hn) as [[claimed [_ D _]] _].
  destruct (All_covers s x Hx Hv) as (x' & Hx' & Ex). destruct (All_covers t y Hy) as (y' & Hy' & Ey); [by rewrite <- Exy|].
  eapply D; eauto. congruence.
Qed.

(** ** A job that names a canonical label *)

Lemma checkLabels_In sets profile l : forall seen x,
  checkLabels sets profile seen l = None -> In x l -> foreignCanonical sets profile x = false.
Proof.
  induction l as [|y l IH]; intros seen x; [done|]. cbn [checkLabels]. rewrite !andThen_None, !refuseIf_None.
  intros (_ & Hf & Hl) [<-|Hx]; [done|by eapply IH].
Qed.

Lemma foreign_not sets profile x id set :
  foreignCanonical sets profile x = false -> sets !! id = Some set -> EqualFold x (ls_Canonical set) = true -> id = profile.
Proof.
  unfold foreignCanonical. intros Hf Hs Hx. destruct (decide (id = profile)) as [|Hne]; [done|]. exfalso.
  assert (existsb (fun e => negb (bool_decide (fst e = profile)) && EqualFold x (ls_Canonical (snd e))) (map_to_list sets) = true) as E;
    [|by rewrite Hf in E].
  apply List.existsb_exists. exists (id, set). split; [by apply list_elem_of_In, elem_of_map_to_list|].
  cbn [fst snd]. rewrite Hx, bool_decide_eq_false_2 by done. done.
Qed.

(** No scale set is named like the canonical label of another profile. *)
Definition plainNames (c : Config.Config) : Prop := forall scope s,
  In (scope, s) (scopedSets c) -> foreignCanonical (ProfileLabelSets c) (s_Profile s) (trimmed (s_Name s)) = false.

Lemma own_label c caps scope s id set x :
  Validate c = None -> normal c -> plainNames c -> In (scope, s) (scopedSets c) -> soundSet c caps s -> ProfileLabelSets c !! id = Some set ->
  In x (effectiveScaleSetLabels s (default noLabels (ProfileLabelSets c !! s_Profile s))) -> EqualFold x (ls_Canonical set) = true ->
  s_Profile s = id.
Proof.
  intros V Hn Hp Hin ((own & Eo) & _ & _ & _ & Hl) Es Hx Ex. rewrite Eo in Hx. cbn [default from_option] in Hx.
  unfold validateScaleSetLabels in Hl. rewrite andThen_None in Hl. destruct Hl as [Hl _].
  assert (folded (ls_Canonical set) <> "") as Hv by (destruct (node_labels c V Hn) as [[claimed [_ _ D]] _]; by eapply D).
  pose proof (EqualFold_folded _ _ Ex) as Ef.
  assert (In x (LabelSet_Advertise own (s_Labels s)) \/ x = trimmed (s_Name s)) as [Ha| ->].
  { unfold effectiveScaleSetLabels in Hx. destruct (_ || _); [by left|]. apply List.in_app_iff in Hx as [Hx|[Hx|[]]]; auto. }
  - apply Advertise_In in Ha as [Ha|Ha].
    + symmetry. eapply foreign_not; [|exact Es|exact Ex]. by eapply checkLabels_In.
    + eapply (labels_apart c _ _ own set x (ls_Canonical set)); eauto. by rewrite Ef.
  - symmetry. by eapply foreign_not; [apply (Hp scope s)| |].
Qed.

(** ** Scopes own distinct targets *)

Lemma assignTargets_spec kind parts targets l : forall assigned assigned',
  assignTargets kind parts targets assigned l = Some assigned' ->
  assigned ⊆ assigned' /\ forall x, In x l -> (folded x ∉ assigned) /\ folded x ∈ assigned'.
Proof.
  induction l as [|y l IH]; intros assigned assigned'; cbn [assignTargets]; [by intros [= <-]|].
  destruct (targets !! folded y) as [canonical|]; [|done]. case_bool_decide as Hy; [done|]. cbn [orb]. destruct (scopeCovers _ _ _); [|done].
  cbn [negb]. intros E. destruct (IH _ _ E) as [Hs Hl]. split.
  - intros key Hk. apply Hs, elem_of_union_r. done.
  - intros x [<-|Hx].
    + split; [done|]. apply Hs, elem_of_union_l, elem_of_singleton. done.
    + destruct (Hl x Hx) as [Hn Hi]. split; [|done]. intros Hk. by apply Hn, elem_of_union_r.
Qed.

Lemma validateScope_targets c installations caps registered scope registered' :
  validateScope c installations caps registered scope = inr registered' ->
  List.NoDup (map s_Profile (sc_ScaleSets scope)) /\ sc_Targets scope <> [] /\ rg_assigned registered ⊆ rg_assigned registered' /\
  forall x, In x (sc_Targets scope) -> (folded x ∉ rg_assigned registered) /\ folded x ∈ rg_assigned registered'.
Proof.
  intros E. apply validateScope_done in E as (u & targets & tc & Et & Es). unfold validateScopeScaleSets in Es. rewrite andThen_None in Es.
  destruct Es as [Es _]. apply checkScaleSets_spec in Es as [Hd _]. split; [done|]. unfold validateScopeTargets in Et.
  destruct (sc_Targets scope) as [|x l] eqn:El; [done|]. destruct (_ || _); [done|]. split; [done|]. by eapply assignTargets_spec.
Qed.

Lemma validateScopes_targets c installations caps l : forall registered registered' scope,
  validateScopes c installations caps registered l = inr registered' -> In scope l ->
  sc_Targets scope <> [] /\ forall x, In x (sc_Targets scope) -> folded x ∉ rg_assigned registered.
Proof.
  induction l as [|y l IH]; intros registered registered' scope; cbn [validateScopes]; [done|].
  destruct (validateScope _ _ _ _ _) as [|r] eqn:E; [done|]. apply validateScope_targets in E as (_ & Ht & Hs & Hf). intros Hl [<-|Hin].
  - split; [done|]. intros x Hx. by apply Hf.
  - destruct (IH _ _ _ Hl Hin) as [Hne Hx]. split; [done|]. intros x Hi Hk. by apply (Hx x Hi), Hs.
Qed.

(** One target and one profile determine the scale set. *)
Lemma homes_unique c installations caps l : forall registered registered' i j scope s scope' s' x x',
  validateScopes c installations caps registered l = inr registered' ->
  let sets := flat_map (fun scope => map (pair scope) (sc_ScaleSets scope)) l in
  sets !! i = Some (scope, s) -> sets !! j = Some (scope', s') -> In x (sc_Targets scope) -> In x' (sc_Targets scope') ->
  folded x = folded x' -> s_Profile s = s_Profile s' -> i = j.
Proof.
  induction l as [|y l IH]; intros registered registered' i j scope s scope' s' x x' E sets Hi Hj Hx Hx' Ex Ep; [done|].
  cbn [validateScopes] in E. destruct (validateScope _ _ _ _ _) as [|r] eqn:Ey; [done|].
  apply validateScope_targets in Ey as (Hd & _ & _ & Hf). unfold sets in Hi, Hj. cbn [flat_map] in Hi, Hj.
  assert (forall scope s scope' s' x x' k, flat_map (fun scope => map (pair scope) (sc_ScaleSets scope)) l !! k = Some (scope', s') ->
    In (scope, s) (map (pair y) (sc_ScaleSets y)) -> In x (sc_Targets scope) -> In x' (sc_Targets scope') -> folded x <> folded x') as Hc.
  { intros a b a' b' z z' k Hk Ha Hz Hz' Ez. apply List.in_map_iff in Ha as (? & [= -> ->] & _).
    apply list_elem_of_lookup_2, list_elem_of_In, List.in_flat_map in Hk as (q & Hq & Hk). apply List.in_map_iff in Hk as (? & [= -> ->] & _).
    destruct (validateScopes_targets _ _ _ _ _ _ _ E Hq) as [_ Hq']. apply (Hq' z' Hz'). rewrite <- Ez. by apply Hf. }
  apply lookup_app_Some in Hi as [Hi|[Hge Hi]], Hj as [Hj|[Hge' Hj]].
  - rewrite list_lookup_fmap in Hi, Hj. destruct (sc_ScaleSets y !! i) as [a|] eqn:Ea; [|done]. destruct (sc_ScaleSets y !! j) as [b|] eqn:Eb; [|done].
    simplify_eq/=. apply NoDup_ListNoDup in Hd. eapply (NoDup_lookup _ _ _ _ Hd); rewrite list_lookup_fmap; [by rewrite Ea|rewrite Eb; simpl; by f_equal].
  - exfalso. eapply Hc; [exact Hj|eapply list_elem_of_In, list_elem_of_lookup_2; exact Hi|exact Hx|exact Hx'|done].
  - exfalso. eapply Hc; [exact Hi|eapply list_elem_of_In, list_elem_of_lookup_2; exact Hj|exact Hx'|exact Hx|done].
  - pose proof (IH _ _ _ _ _ _ _ _ _ _ E Hi Hj Hx Hx' Ex Ep) as Hk. lia.
Qed.
End Node.

(** ** The home of a job *)

Section Homes.
Context `{NetText} `{ScopeSum}.

(** A binding takes a job. *)
Definition takesJob (b : Binding) (job : WorkflowJob) : bool := accepts b (jobRepo job) && matchesRESTLabels b (job_Labels job).

Lemma takes_label c sched scope s b job label :
  bindsTo c sched (scope, s) b -> is_Some (ProfileLabelSets c !! s_Profile s) ->
  (forall set, ProfileLabelSets c !! s_Profile s = Some set -> folded (ls_Canonical set) <> "") ->
  takesJob b job = true -> containsFold (job_Labels job) label = true ->
  exists x, In x (effectiveScaleSetLabels s (default noLabels (ProfileLabelSets c !! s_Profile s))) /\ EqualFold x label = true.
Proof.
  intros (E & _) [set Es] Hv Ht Hl. unfold takesJob, matchesRESTLabels in Ht. apply andb_true_iff in Ht as [_ Ht].
  destruct (negb _); [done|]. rewrite E in Ht. cbn [bindingOf b_ScaleSetLabels] in Ht.
  remember (effectiveScaleSetLabels s (default noLabels (ProfileLabelSets c !! s_Profile s))) as advertised eqn:Ea.
  assert (advertised <> []) as Hne.
  { rewrite Ea, Es. cbn [default from_option]. unfold effectiveScaleSetLabels.
    assert (LabelSet_Advertise set (s_Labels s) <> []) as Hn;
      [|cbv zeta; destruct (_ || _); [done|]; intros En; by apply app_eq_nil in En as [? _]].
    unfold LabelSet_Advertise. destruct (fold_left _ _ _) as [kept seen] eqn:Ef. apply addLabel_fold in Ef as (_ & H2 & H3 & _).
    destruct (H2 (ls_Canonical set)) as [E2|E2]; [apply List.in_app_iff; right; by left|by apply Hv in Es|].
    destruct (H3 _ E2) as [Hs|(y & Hy & _)]; [by apply elem_of_empty in Hs|]. by destruct kept. }
  destruct advertised as [|a rest] eqn:Er; [done|]. rewrite <- Er in *. clear a rest Er.
  apply List.existsb_exists in Hl as (l & Hl & El). rewrite List.forallb_forall in Ht. specialize (Ht l Hl).
  apply List.existsb_exists in Ht as (x & Hx & Ex). exists x. split; [done|]. by eapply EqualFold_trans.
Qed.

Lemma takes_target c sched scope s b job :
  bindsTo c sched (scope, s) b -> sc_Targets scope <> [] -> takesJob b job = true ->
  exists x, In x (sc_Targets scope) /\ folded x = folded (jobRepo job).
Proof.
  intros (E & _) Hne Ht. unfold takesJob, accepts in Ht. apply andb_true_iff in Ht as [Ht _]. rewrite E in Ht. cbn [bindingOf b_Targets] in Ht.
  destruct (sc_Targets scope) as [|y l]; [done|]. apply List.existsb_exists in Ht as (x & Hx & Ex). exists x. split; [done|].
  by apply EqualFold_folded.
Qed.

End Homes.

(** ** A node *)

Module Routed.
Import ConfigSpec.Sample ConfigureSpec.Configured.

Definition boundBy (c : Config.Config) : list Binding :=
  match BuildBindings c (BuildSchedulerConfig c) with inr bs => bs | inl _ => [] end.

Definition jobNaming (label : string) : WorkflowJob :=
  {| job_ID := 1; job_RunID := 2; job_Owner := "Owner"; job_Repository := "repo"; job_Name := "build"; job_Status := "queued";
     job_Labels := ["self-hosted"; label]; job_RunAttempt := 1; job_CreatedAt := 0; job_QueueTimeExact := true |}.

Lemma sample_names : plainNames config.
Proof.
  enough (forallb (fun e => negb (foreignCanonical (ProfileLabelSets config) (s_Profile (snd e)) (trimmed (s_Name (snd e))))) (scopedSets config) = true)
    as E by (intros scope s Hin; rewrite List.forallb_forall in E; specialize (E _ Hin); by apply negb_true_iff in E).
  vm_compute. done.
Qed.


(** The name of a scale set is matched like a label, and is not checked like one: named
    like the canonical label of another profile, it takes the jobs of that profile, and
    the routing of such a job is a conflict. *)
Definition misnamed : list ScaleSet :=
  [scaleSet "small" "trf-linux-arm64-4x8" 11 4 ["self-hosted"; "linux-small"]; scaleSet "large" "repo-large" 12 2 ["self-hosted"; "linux-large"]].

Example scale_set_name_can_misroute :
  match Decode (unmarshalled (fileWith builder misnamed 20)) with
  | inr c => ValidateAuthority c = Some None /\ ValidateBindings c = None /\
      map (fun b => takesJob b (jobNaming "trf-linux-arm64-4x8")) (boundBy c) = [true; true] /\
      matchingBindings (boundBy c) (jobNaming "trf-linux-arm64-4x8") = inl ErrConflict
  | inl _ => False
  end.
Proof. vm_compute. done. Qed.
End Routed.
