(* ===== verification/Inventory.v ===== *)
(** * The inventory of a node (internal/app/inventory.go)

    A tick plans on instances and a host.  The inventory joins the durable rows
    with what the backend enumerates, asks for the evidence that some recoveries
    need, and folds every power reading and guest probe into what earlier ticks
    saw.  Whatever it cannot establish makes the whole observation unavailable.
    The accumulators live between ticks and are passed in and out. *)

From Stdlib Require Import ZArith Lia String List.
From stdpp Require Import base tactics list gmap strings.
From S2P Require Import Prelude GoStrings Liveness Domain Corroboration Scheduler Operations Failure.
From S2P Require Import Effects Store Inbox Ports Projection Advertise HostProbe.

#[local] Open Scope prog_scope.

(** [executor.Instance]: one instance the backend can see. *)
Record Machine := {
  vm_Name : string;
  vm_Power : InstancePower;
  vm_Unreadable : PowerReadFailure
}.

(** What the inventory asks of its adapters; [None] is an error. *)
Inductive InventoryCall : Set -> Type :=
  | WallClock : InventoryCall Time
  | Snapshot : InventoryCall HostSnapshot
  | UpdateDraining : InventoryCall bool
  | LiveRows : InventoryCall (Answer (list InstanceRow))
  | Machines : InventoryCall (option (list Machine))
  | Confirmation (id : string) : InventoryCall (option DeletionConfirmation)
  | JobActive (row : InstanceRow) : InventoryCall (option bool)
  | PowerClock : InventoryCall Time
  | GuestClock : InventoryCall Time
  | Probe (id : string) : InventoryCall GuestLiveness.

Abbreviation Runs := (gmap string GuestLivenessState).

(** ** Guest probes carried between ticks *)

Record GuestLivenessTracker := { tracker_Probe : bool; tracker_Policy : GuestLivenessPolicy }.

Definition runOf (runs : Runs) (id : string) : GuestLivenessState := default zeroGuestLivenessState (runs !! id).

(** The probes run concurrently; their answers are collected in order. *)
Fixpoint probeAll (ids : list string) : Prog InventoryCall (list GuestLiveness) :=
  match ids with
  | [] => Ret []
  | id :: rest => outcome <~ Probe id ;; outcomes <~~ probeAll rest ;; Ret (outcome :: outcomes)
  end.

Definition foldProbes (p : GuestLivenessPolicy) (state : Runs) (now : Time) (outcomes : list (string * GuestLiveness)) : Runs :=
  fold_left (fun next '(id, outcome) => <[id := Observe p (runOf state id) outcome now]> next) outcomes ∅.

(** What it returns, and the state it keeps.  A nil tracker is [None]. *)
Definition Tracker_Observe (t : option GuestLivenessTracker) (state : Runs) (ids : list string) : Prog InventoryCall (Runs * Runs) :=
  match t, ids with
  | Some t, _ :: _ =>
      if negb (tracker_Probe t) || negb (Enabled (tracker_Policy t)) then Ret (∅, state)
      else
        now <~ GuestClock ;;
        outcomes <~~ probeAll ids ;;
        let next := foldProbes (tracker_Policy t) state now (zip ids outcomes) in
        Ret (next, next)
  | _, _ => Ret (∅, state)
  end.

(** ** Power readings carried between ticks *)

Definition withPower (i : Instance_) (power : InstancePower) (run : GuestLivenessState) : Instance_ :=
  {| inst_ID := inst_ID i; inst_Repo := inst_Repo i; inst_Demand := inst_Demand i; inst_Platform := inst_Platform i;
     inst_Profile := inst_Profile i; inst_Route := inst_Route i; inst_Resources := inst_Resources i;
     inst_State := inst_State i; inst_Power := power; inst_RecoveryReady := inst_RecoveryReady i;
     inst_AssignedSince := inst_AssignedSince i; inst_RunningSince := inst_RunningSince i;
     inst_ProvisioningSince := inst_ProvisioningSince i; inst_JobInactive := inst_JobInactive i;
     inst_OccupiedSince := inst_OccupiedSince i; inst_Guest := inst_Guest i; inst_PowerRun := run;
     inst_PowerUnreadable := inst_PowerUnreadable i; inst_PowerRetracted := inst_PowerRetracted i;
     inst_Attempts := inst_Attempts i; inst_RetryAt := inst_RetryAt i |}.

Definition withGuest (i : Instance_) (guest : GuestLivenessState) : Instance_ :=
  {| inst_ID := inst_ID i; inst_Repo := inst_Repo i; inst_Demand := inst_Demand i; inst_Platform := inst_Platform i;
     inst_Profile := inst_Profile i; inst_Route := inst_Route i; inst_Resources := inst_Resources i;
     inst_State := inst_State i; inst_Power := inst_Power i; inst_RecoveryReady := inst_RecoveryReady i;
     inst_AssignedSince := inst_AssignedSince i; inst_RunningSince := inst_RunningSince i;
     inst_ProvisioningSince := inst_ProvisioningSince i; inst_JobInactive := inst_JobInactive i;
     inst_OccupiedSince := inst_OccupiedSince i; inst_Guest := guest; inst_PowerRun := inst_PowerRun i;
     inst_PowerUnreadable := inst_PowerUnreadable i; inst_PowerRetracted := inst_PowerRetracted i;
     inst_Attempts := inst_Attempts i; inst_RetryAt := inst_RetryAt i |}.

Definition powerRun (runs : Runs) (now : Time) (i : Instance_) : GuestLivenessState :=
  Observe PowerCorroboration (runOf runs (inst_ID i)) (PowerSignal (inst_Power i)) now.

Definition corroborated (runs : Runs) (now : Time) (i : Instance_) : Instance_ :=
  let run := powerRun runs now i in
  withPower i (CorroboratedPower (inst_Power i) (inst_State i) run (inst_PowerRetracted i) now) run.

(** The loop of [PowerCorroborator.Observe]. *)
Definition corroborateAll (runs : Runs) (now : Time) (instances : list Instance_) : list Instance_ * Runs :=
  (map (corroborated runs now) instances,
   fold_left (fun next i => <[inst_ID i := powerRun runs now i]> next) instances ∅).

(** [wired] is false for a nil corroborator. *)
Definition Corroborator_Observe (wired : bool) (runs : Runs) (instances : list Instance_)
    : Prog InventoryCall (list Instance_ * Runs) :=
  if negb wired then Ret (instances, runs)
  else now <~ PowerClock ;; Ret (corroborateAll runs now instances).

(** ** One durable row *)

Record ProductionInventory := {
  inv_Adapters : bool;
  inv_Recovery : bool;
  inv_RecoveryConfirmationMaxAge : Duration;
  inv_Capacity : Resources;
  inv_Guards : Guardrails;
  inv_ElasticHostEnvelope : bool;
  inv_HostBudget : Resources;
  inv_Guest : option GuestLivenessTracker;
  inv_Power : bool;
  inv_UpdateDrain : bool
}.

Definition recoveryConfirmationMaxAge (p : ProductionInventory) : Duration :=
  if inv_RecoveryConfirmationMaxAge p <=? 0 then 30 * Second else inv_RecoveryConfirmationMaxAge p.

Definition absenceIsReconcilable (state : InstanceState) : bool :=
  state_eqb state InstancePlanned || Provisioning state || TearingDown state.

(** The reading of a row, given the machine of its name. *)
Definition readingOf (row : InstanceRow) (vm : option Machine) : InstancePower * PowerReadFailure :=
  match vm with
  | Some vm => (vm_Power vm, vm_Unreadable vm)
  | None =>
      (if state_eqb (row_State row) InstancePlanned then InstancePowerUnknown else InstancePowerAbsent, zeroPowerReadFailure)
  end.

Definition instanceOf (row : InstanceRow) (power : InstancePower) (unreadable : PowerReadFailure) (recoveryReady jobInactive : bool)
    : Instance_ :=
  let since (p : bool) : Time := if p then row_UpdatedAt row else zeroTime in
  {| inst_ID := row_ID row; inst_Repo := row_Repo row; inst_Demand := row_Demand row; inst_Platform := row_Platform row;
     inst_Profile := row_Profile row; inst_Route := row_Route row; inst_Resources := row_Resources row;
     inst_State := row_State row; inst_Power := power; inst_RecoveryReady := recoveryReady;
     inst_AssignedSince := since (state_eqb (row_State row) InstanceAssigned);
     inst_RunningSince := since (state_eqb (row_State row) InstanceRunning);
     inst_ProvisioningSince := since (Provisioning (row_State row)); inst_JobInactive := jobInactive;
     inst_OccupiedSince := row_CreatedAt row; inst_Guest := zeroGuestLivenessState;
     inst_PowerRun := zeroGuestLivenessState; inst_PowerUnreadable := unreadable;
     inst_PowerRetracted := row_DrainPhase row =? DrainPhaseStoppedRecovery; inst_Attempts := 0; inst_RetryAt := zeroTime |}.

Definition askRecovery (p : ProductionInventory) (now : Time) (row : InstanceRow) (power : InstancePower) : Prog InventoryCall bool :=
  if bool_decide (power = InstancePowerRunning) && inv_Recovery p
     && (state_eqb (row_State row) InstanceAssigned || state_eqb (row_State row) InstanceRunning)
  then
    answer <~ Confirmation (row_ID row) ;;
    Ret (match answer with Some c => Safe c now (recoveryConfirmationMaxAge p) | None => false end)
  else Ret false.

Definition askInactive (p : ProductionInventory) (row : InstanceRow) (power : InstancePower) : Prog InventoryCall bool :=
  if state_eqb (row_State row) InstanceRunning && bool_decide (power = InstancePowerRunning) && inv_Recovery p
  then answer <~ JobActive row ;; Ret (match answer with Some active => negb active | None => false end)
  else Ret false.

Definition readRow (p : ProductionInventory) (now : Time) (row : InstanceRow) (vm : option Machine) : Prog InventoryCall Instance_ :=
  let '(power, unreadable) := readingOf row vm in
  recoveryReady <~~ askRecovery p now row power ;;
  jobInactive <~~ askInactive p row power ;;
  Ret (instanceOf row power unreadable recoveryReady jobInactive).

(** ** The whole observation *)

Abbreviation ByName := (gmap string Machine).

Definition byName (vms : list Machine) : ByName := fold_left (fun m vm => <[vm_Name vm := vm]> m) vms ∅.

(** The loop over the stored rows: the instances and the machines left over, or
    the reason the inventory is unavailable. *)
Fixpoint readRows (p : ProductionInventory) (now : Time) (stored : list InstanceRow) (machines : ByName) (result : list Instance_)
    : Prog InventoryCall (string + list Instance_ * ByName) :=
  match stored with
  | [] => Ret (inr (result, machines))
  | row :: rest =>
      if negb (SchedulingMetadataValid row) || bool_decide (row_Repo row = "") then Ret (inl "invalid durable scheduling metadata")
      else
        match machines !! row_ID row with
        | None =>
            if negb (absenceIsReconcilable (row_State row)) then Ret (inl ("owned VM " +:+ row_ID row +:+ " missing from Tart"))
            else i <~~ readRow p now row None ;; readRows p now rest (delete (row_ID row) machines) (result ++ [i])
        | Some vm => i <~~ readRow p now row (Some vm) ;; readRows p now rest (delete (row_ID row) machines) (result ++ [i])
        end
  end.

Definition controllerPrefix : string := "trf-".

Definition untracked (machines : ByName) : bool :=
  existsb (fun name => HasPrefix (bytesOf name) (bytesOf controllerPrefix)) (map fst (map_to_list machines)).

Definition probeCandidate (i : Instance_) : bool :=
  state_eqb (inst_State i) InstanceRunning && negb (ProvenIdle (inst_Power i)).

Definition attachGuests (states : Runs) (instances : list Instance_) : list Instance_ :=
  map (fun i => match states !! inst_ID i with Some s => withGuest i s | None => i end) instances.

Definition probeGuests (p : ProductionInventory) (state : Runs) (instances : list Instance_) : Prog InventoryCall (list Instance_ * Runs) :=
  observed <~~ Tracker_Observe (inv_Guest p) state (map inst_ID (List.filter probeCandidate instances)) ;;
  let '(states, state) := observed in
  Ret (attachGuests states instances, state).

(** The accumulators between two ticks. *)
Record Memory := { mem_power : Runs; mem_guest : Runs }.

Abbreviation Seen := (Observation (list Instance_) * Observation Host)%type.

Definition blind (reason : string) : Observation (list Instance_) := Unavailable [] reason.

Section Observe.
Context `{FloatToInt}.

Definition askDraining (p : ProductionInventory) : Prog InventoryCall bool :=
  if inv_UpdateDrain p then draining <~ UpdateDraining ;; Ret draining else Ret false.

Definition observeRows (p : ProductionInventory) (m : Memory) (now : Time) (stored : list InstanceRow) (vms : list Machine)
    : Prog InventoryCall (Observation (list Instance_) * Memory) :=
  rows <~~ readRows p now stored (byName vms) [] ;;
  match rows with
  | inl reason => Ret (blind reason, m)
  | inr (result, machines) =>
      if untracked machines then Ret (blind "untracked controller VM requires reconciliation", m)
      else
        powered <~~ Corroborator_Observe (inv_Power p) (mem_power m) result ;;
        let '(instances, power) := powered in
        probed <~~ probeGuests p (mem_guest m) instances ;;
        let '(instances, guest) := probed in
        Ret (Fresh instances now, {| mem_power := power; mem_guest := guest |})
  end.

Definition Inventory_Observe (p : ProductionInventory) (m : Memory) : Prog InventoryCall (Seen * Memory) :=
  if negb (inv_Adapters p) then
    Ret ((blind "inventory adapters are required", Unavailable zeroHost "inventory adapters are required"), m)
  else
    now <~ WallClock ;;
    snapshot <~ Snapshot ;;
    draining <~~ askDraining p ;;
    let host := hostObservation snapshot (inv_Capacity p) (inv_Guards p) (inv_ElasticHostEnvelope p) (inv_HostBudget p) draining in
    stored <~ LiveRows ;;
    match stored with
    | inl _ => Ret ((blind "durable instance inventory unavailable", host), m)
    | inr stored =>
        vms <~ Machines ;;
        match vms with
        | None => Ret ((blind "Tart inventory unavailable", host), m)
        | Some vms => seen <~~ observeRows p m now stored vms ;; Ret ((fst seen, host), snd seen)
        end
    end.

End Observe.
