(* ===== verification/Tick.v ===== *)
(** * One tick of the engine (internal/app/tick.go)

    A tick reads the scheduler's state, drains runners whose job is finished,
    observes the node, expires overdue demand, assembles the queue of every
    binding, plans and commits.  Everything it asks of the store, the inventory
    and the clock is a call.  The image signals and runner refusals it carries for
    operators are left out: nothing in the fleet reads them to decide anything. *)

From Stdlib Require Import ZArith Lia String List.
From stdpp Require Import base tactics list gmap strings.
From S2P Require Import Prelude GoStrings Liveness Domain Corroboration PriorityPolicy Scheduler Lanes Operations Failure.
From S2P Require Import Effects Store Inbox Ports Projection Reconcile Bindings Router Queue Headroom Advertise.

#[local] Open Scope prog_scope.

Record EmptyExitKey := { ek_Demand : DemandKey; ek_Image : string }.

#[export] Instance EmptyExitKey_eq_dec : EqDecision EmptyExitKey.
Proof. solve_decision. Defined.

#[export] Instance EmptyExitKey_countable : Countable EmptyExitKey.
Proof.
  refine (inj_countable' (fun k => (ek_Demand k, ek_Image k)) (fun p => {| ek_Demand := fst p; ek_Image := snd p |}) _).
  by intros [].
Defined.

Abbreviation Exits := (gmap EmptyExitKey EmptyExits).

Inductive EngineCall : Set -> Type :=
  | EngineNow : EngineCall Time
  | OnPlan {X : Set} (c : PlanCall X) : EngineCall X
  | OnQueue {X : Set} (c : QueueCall X) : EngineCall X
  | Reseed : EngineCall Outcome
  | Inventory_ : EngineCall (Observation (list Instance_) * Observation Host)
  | ExitsSince (t : Time) : EngineCall (Answer Exits).

Definition onPlan {A : Set} (p : Prog PlanCall A) : Prog EngineCall A := interp (fun X c => Do (OnPlan c) Ret) p.
Definition onQueue {A : Set} (p : Prog QueueCall A) : Prog EngineCall A := interp (fun X c => Do (OnQueue c) Ret) p.

(** [json.Unmarshal] of the scheduler's state. *)
Class StateDecoding := { decodeState : string -> option State }.

(** ** Why a tick failed (tick_failure.go) *)

Inductive TickReason :=
  | ReasonEngineInvalid
  | ReasonSchedulerStateUnreadable
  | ReasonSchedulerStateReseedFailed
  | ReasonSchedulerStateCorrupt
  | ReasonDemandUnreadable
  | ReasonQueueSummaryUnreadable
  | ReasonPlanCommitFailed
  | ReasonPlanInvalid
  | ReasonPlanCommitContended
  | ReasonPlanCommitRejected.

Definition Transient (r : TickReason) : bool := match r with ReasonPlanCommitContended => true | _ => false end.

Definition commitFailureReason (status : PlanStatus) (err : CommitError) : TickReason :=
  match status with
  | PlanReady =>
      match err with
      | Refused ErrConflict => ReasonPlanCommitContended
      | Refused ErrInvalid => ReasonPlanCommitRejected
      | _ => ReasonPlanCommitFailed
      end
  | _ => ReasonPlanInvalid
  end.

Definition TickError : Set := TickReason * CommitError.

(** ** The engine *)

Record Engine := {
  en_Store : bool;
  en_Inventory : bool;
  en_Demand : DemandCoordinator;
  en_Config : Config;
  en_Bindings : list Binding;
  en_ControllerID : string;
  en_Mode : Mode;
  en_Images : gmap string string
}.

Record EmptyExitBackoff_ := {
  eb_Demand : DemandKey;
  eb_Scope : string;
  eb_Profile : ProfileID;
  eb_Exits : Z;
  eb_LastAt : Time;
  eb_RetryAt : Time
}.

Record ScopeQueue := {
  sq_Scope : string;
  sq_Profile : ProfileID;
  sq_ScaleSetID : Z;
  sq_Count : Z;
  sq_Oldest : Time;
  sq_Tiers : list QueueTier;
  sq_Delivered : Z;
  sq_Observed : Z;
  sq_SharedLabels : bool
}.

Record TickResult := {
  tick_At : Time;
  tick_Plan : Plan;
  tick_Applied : bool;
  tick_Demands : list Demand;
  tick_Queues : gmap ProfileID (Z * Time);
  tick_ScopeInstances : option (list ScopeInstance);
  tick_ScopeQueues : list ScopeQueue;
  tick_Instances : list Instance_;
  tick_HostMode : option HostMode;
  tick_Host : Host;
  tick_HostHealthy : bool;
  tick_ExpiredOverdue : Z;
  tick_CompletedDrains : list string;
  tick_Headroom : option (list ScaleSetHeadroom);
  tick_EmptyExitBackoffs : list EmptyExitBackoff_
}.

(** A tick that stopped before planning, or planned and tried to commit; the
    scheduler's panic. *)
Inductive TickOutcome :=
  | Stopped (err : TickError)
  | Ticked (result : TickResult) (err : option TickError)
  | Panicked.

(** ** The queue handed to the scheduler *)

Definition zeroExits : EmptyExits := {| exits_Count := 0; exits_Last := zeroTime; exits_Unassigned := 0; exits_Assigned := zeroTime |}.

Definition spentOn (images : gmap string string) (exits : Exits) (d : Demand) : EmptyExits :=
  default zeroExits (exits !! {| ek_Demand := demand_Key d; ek_Image := default "" (images !! platformText (demand_Platform d)) |}).

Definition backoffOf (b : Binding) (d : Demand) (spent : EmptyExits) : EmptyExitBackoff_ :=
  {| eb_Demand := demand_Key d; eb_Scope := b_Scope b; eb_Profile := profile_ID (b_Profile b);
     eb_Exits := exits_Count spent; eb_LastAt := exits_Last spent; eb_RetryAt := RetryAt EmptyExitBackoff spent |}.

Definition emptyExitBackoffs (b : Binding) (queued : list Demand) (exits : Exits) (images : gmap string string) (now : Time)
    : list EmptyExitBackoff_ :=
  map (fun d => backoffOf b d (spentOn images exits d))
    (List.filter (fun d => Exceeded EmptyExitBackoff (spentOn images exits d)
                           && negb (After (exits_Last (spentOn images exits d)) now)) queued).

Definition backoffHolds (now : Time) (k : EmptyExitBackoff_) : bool :=
  Holds EmptyExitBackoff {| exits_Count := eb_Exits k; exits_Last := eb_LastAt k; exits_Unassigned := 0;
                            exits_Assigned := zeroTime |} now.

Definition withholding (now : Time) (backoffs : list EmptyExitBackoff_) (withheld : gset DemandKey) : gset DemandKey :=
  list_to_set (map eb_Demand (List.filter (backoffHolds now) backoffs)) ∪ withheld.

Definition servedKeys (instances : list Instance_) : gset DemandKey :=
  list_to_set (map inst_Demand (List.filter IncarnatesDemand instances)).

Definition plannableDemands (queued : list Demand) (withheld : gset DemandKey) : list Demand :=
  List.filter (fun d => negb (bool_decide (demand_Key d ∈ withheld))) queued.

Definition trickle (plannable : list Demand) : list Demand :=
  match plannable with [] => [] | d :: _ => [d] end.

(** What the loop over the bindings accumulates. *)
Record Assembly := {
  as_demands : list Demand;
  as_waiting : list Demand;
  as_held : gmap Z Z;
  as_undelivered : gmap Z Z;
  as_queues : gmap ProfileID (Z * Time);
  as_scopeQueues : list ScopeQueue;
  as_backoffs : list EmptyExitBackoff_;
  as_withheld : gset DemandKey
}.

Definition foldQueue (current : Z * Time) (s : QueueSummary_) : Z * Time :=
  (add64 (fst current) (qs_Count s),
   if IsZero (snd current) || (negb (IsZero (qs_Oldest s)) && Before (qs_Oldest s) (snd current))
   then qs_Oldest s else snd current).

Definition scopeQueueOf (b : Binding) (s : QueueSummary_) : ScopeQueue :=
  {| sq_Scope := b_Scope b; sq_Profile := profile_ID (b_Profile b); sq_ScaleSetID := b_ScaleSetID b;
     sq_Count := qs_Count s; sq_Oldest := qs_Oldest s; sq_Tiers := qs_Tiers s; sq_Delivered := qs_Delivered s;
     sq_Observed := qs_Observed s; sq_SharedLabels := b_SharedLabels b |}.

Definition scopeQueueLess (a b : ScopeQueue) : bool :=
  if negb (bool_decide (sq_Scope a = sq_Scope b)) then strLess (sq_Scope a) (sq_Scope b)
  else if negb (bool_decide (sq_Profile a = sq_Profile b)) then strLess (sq_Profile a) (sq_Profile b)
  else sq_ScaleSetID a <? sq_ScaleSetID b.

(** [m[key] += n]. *)
Definition addTo (m : gmap Z Z) (key n : Z) : gmap Z Z := <[key := add64 (default 0 (m !! key)) n]> m.

Definition addBinding (b : Binding) (a : Assembly) (backoffs : list EmptyExitBackoff_) (withheld : gset DemandKey)
    (plannable schedulable : list Demand) (s : QueueSummary_) : Assembly :=
  {| as_demands := as_demands a ++ schedulable; as_waiting := as_waiting a ++ plannable;
     as_held := addTo (as_held a) (durableKey b) (Z.of_nat (length plannable));
     as_undelivered := addTo (as_undelivered a) (durableKey b) (Z.max 0 (sub64 (qs_Observed s) (qs_Delivered s)));
     as_queues := <[profile_ID (b_Profile b) := foldQueue (default (0, zeroTime) (as_queues a !! profile_ID (b_Profile b))) s]>
                    (as_queues a);
     as_scopeQueues := as_scopeQueues a ++ [scopeQueueOf b s]; as_backoffs := as_backoffs a ++ backoffs;
     as_withheld := withheld |}.

Definition emptyAssembly (withheld : gset DemandKey) : Assembly :=
  {| as_demands := []; as_waiting := []; as_held := ∅; as_undelivered := ∅; as_queues := ∅; as_scopeQueues := []; as_backoffs := []; as_withheld := withheld |}.

(** One binding: its queue, what is held back of it, and its summary. *)
Definition assembleOne (e : Engine) (exits : Exits) (now : Time) (b : Binding) (a : Assembly)
    : Prog EngineCall (TickError + Assembly) :=
  read <~~ onQueue (QueuedDemands (en_Demand e) b) ;;
  match read with
  | Unreadable err => Ret (inl (ReasonDemandUnreadable, Refused err))
  | Queued queued | Degraded queued =>
      let backoffs := emptyExitBackoffs b queued exits (en_Images e) now in
      let withheld := withholding now backoffs (as_withheld a) in
      let plannable := plannableDemands queued withheld in
      let schedulable := match read with Degraded _ => trickle plannable | _ => plannable end in
      summary <~~ onQueue (QueueSummary (en_Demand e) b queued) ;;
      Ret (match summary with
           | inl err => inl (ReasonQueueSummaryUnreadable, Refused err)
           | inr s => inr (addBinding b a backoffs withheld plannable schedulable s)
           end)
  end.

Fixpoint assemble (e : Engine) (exits : Exits) (now : Time) (bindings : list Binding) (a : Assembly)
    : Prog EngineCall (TickError + Assembly) :=
  match bindings with
  | [] => Ret (inr a)
  | b :: rest =>
      next <~~ assembleOne e exits now b a ;;
      match next with
      | inl err => Ret (inl err)
      | inr a => assemble e exits now rest a
      end
  end.

(** ** The tick *)

Section Tick.
Context `{ContentAddress} `{PlanEncoding} `{StateDecoding}.

Definition engineController (e : Engine) : Controller :=
  {| ctl_Store := true; ctl_ID := en_ControllerID e; ctl_Mode := en_Mode e; ctl_Profiles := Profiles (en_Config e);
     ctl_Images := en_Images e |}.

Definition tickInput (e : Engine) (now : Time) (prior : State) (demands : list Demand)
    (instances : Observation (list Instance_)) (host : Observation Host) : Input :=
  {| Scheduler.Now := now; in_Config := en_Config e; in_Demands := Fresh demands now; in_Instances := instances; in_Host := host;
     Prior := prior |}.

(** Reading the state, with one repair of a missing row. *)
Definition readState : Prog EngineCall (TickError + SchedulerState) :=
  prior <~ OnPlan ReadScheduler ;;
  match prior with
  | inr s => Ret (inr s)
  | inl ErrSchedulerStateMissing =>
      repaired <~ Reseed ;;
      match repaired with
      | Some err => Ret (inl (ReasonSchedulerStateReseedFailed, Refused err))
      | None =>
          again <~ OnPlan ReadScheduler ;;
          Ret (match again with inl err => inl (ReasonSchedulerStateUnreadable, Refused err) | inr s => inr s end)
      end
  | inl err => Ret (inl (ReasonSchedulerStateUnreadable, Refused err))
  end.

Definition priorState (record : SchedulerState) : option State :=
  if bool_decide (ss_Data record = "") then Some zeroState else decodeState (ss_Data record).

(** Only a mode that runs executors drains. *)
Definition sweepFirst (e : Engine) : Prog EngineCall (list string * Outcome) :=
  match en_Mode e with
  | Canary | Authority => onQueue (drainCompletedRunners (en_Bindings e))
  | _ => Ret ([], None)
  end.

Definition planAndCommit (e : Engine) (now : Time) (prior : State) (instances : Observation (list Instance_))
    (host : Observation Host) (drained : list string) (expired : Z) (a : Assembly) : Prog EngineCall TickOutcome :=
  match PlanTick (tickInput e now prior (as_demands a) instances host) with
  | None => Ret Panicked
  | Some plan =>
      headroom <~~ onQueue (scaleSetHeadroom (en_Demand e) (en_Bindings e)
        (tickInput e now prior (as_waiting a) instances host) (as_held a) (as_undelivered a)) ;;
      match headroom with
      | None => Ret Panicked
      | Some headroom =>
          committed <~~ onPlan (Commit (engineController e) plan "" now) ;;
          Ret (Ticked
            {| tick_At := now; tick_Plan := plan; tick_Applied := fst committed; tick_Demands := as_demands a;
               tick_Queues := as_queues a; tick_ScopeInstances := ScaleSetInstances (en_Bindings e) instances;
               tick_ScopeQueues := sortBy scopeQueueLess (as_scopeQueues a); tick_Instances := obs_Value instances;
               tick_HostMode := DeriveHostMode (obs_Value instances); tick_Host := obs_Value host;
               tick_HostHealthy := hostHealthy host; tick_ExpiredOverdue := expired; tick_CompletedDrains := drained;
               tick_Headroom := headroom; tick_EmptyExitBackoffs := as_backoffs a |}
            (option_map (fun err => (commitFailureReason (plan_Status plan) err, err)) (snd committed)))
      end
  end.

Definition observeAndPlan (e : Engine) (now : Time) (prior : State) (drained : list string) : Prog EngineCall TickOutcome :=
  seen <~ Inventory_ ;;
  let '(instances, host) := seen in
  expired <~~ onQueue (expireOverdueDemands (en_Bindings e) now) ;;
  match expired with
  | (_, Some err) => Ret (Stopped (ReasonDemandUnreadable, Refused err))
  | (expired, None) =>
      exits <~ ExitsSince (TimeAdd now (- overdueDemandTTL)) ;;
      match exits with
      | inl err => Ret (Stopped (ReasonDemandUnreadable, Refused err))
      | inr exits =>
          assembled <~~ assemble e exits now (en_Bindings e) (emptyAssembly (servedKeys (obs_Value instances))) ;;
          match assembled with
          | inl err => Ret (Stopped err)
          | inr a => planAndCommit e now prior instances host drained expired a
          end
      end
  end.

Definition Tick (e : Engine) : Prog EngineCall TickOutcome :=
  if negb (en_Store e) || negb (en_Inventory e) || bool_decide (en_ControllerID e = "") || negb (Mode_Valid (en_Mode e))
  then Ret (Stopped (ReasonEngineInvalid, Refused ErrInvalid))
  else
    now <~ EngineNow ;;
    if IsZero now then Ret (Stopped (ReasonEngineInvalid, Refused ErrInvalid))
    else
      record <~~ readState ;;
      match record with
      | inl err => Ret (Stopped err)
      | inr record =>
          match priorState record with
          | None => Ret (Stopped (ReasonSchedulerStateCorrupt, Undecodable))
          | Some prior =>
              drained <~~ sweepFirst e ;;
              match drained with
              | (_, Some err) => Ret (Stopped (ReasonDemandUnreadable, Refused err))
              | (drained, None) => observeAndPlan e now prior drained
              end
          end
      end.

End Tick.
