(* ===== verification/QueueSpec.v ===== *)
(** * What the demand coordinator promises

    The queue of a binding is, of every logical job with an actionable request,
    its newest request, oldest job first, and of these the oldest of each kind
    within the broker's statistics.  A claim on a shared queue never surrenders a
    job the binding's own demand names.  A REST snapshot is recorded for every
    binding as it was routed, or not at all. *)

From Stdlib Require Import ZArith Lia String List Permutation Sorted.
From stdpp Require Import base tactics list gmap strings pretty.
From S2P Require Import Prelude GoStrings Liveness Domain Corroboration PriorityPolicy Scheduler Operations Failure.
From S2P Require Import Effects Store Inbox Ports Projection Reconcile Bindings Router Queue.

#[local] Open Scope prog_scope.

(** ** The newest request of every job *)

Section Canonical.
Variable b : Binding.

(** No actionable record of the same job supersedes it. *)
Definition newest (records : list DemandRecord) (r : DemandRecord) : Prop :=
  In r records /\ actionable b r = true /\
  forall r', In r' records -> actionable b r' = true -> logicalKeyOf r' = logicalKeyOf r -> supersedes r' r = false.

Lemma supersedes_spec a c :
  supersedes a c = true <->
  dr_UpdatedAt c < dr_UpdatedAt a \/
  dr_UpdatedAt a = dr_UpdatedAt c /\ dr_RunnerRequestID c < dr_RunnerRequestID a.
Proof.
  unfold supersedes, After, TimeEqual. rewrite orb_true_iff, andb_true_iff, Z.ltb_lt, Z.eqb_eq, Z.ltb_lt. done.
Qed.

Lemma supersedes_false a c :
  supersedes a c = false <->
  dr_UpdatedAt a < dr_UpdatedAt c \/
  dr_UpdatedAt a = dr_UpdatedAt c /\ dr_RunnerRequestID a <= dr_RunnerRequestID c.
Proof. rewrite <- not_true_iff_false, supersedes_spec. lia. Qed.

(** The map after some records: under each key the newest of them. *)
Definition canonicalOf (seen : list DemandRecord) (m : gmap string DemandRecord) : Prop :=
  (forall k r, m !! k = Some r -> logicalKeyOf r = k /\ newest seen r) /\
  (forall r, In r seen -> actionable b r = true -> is_Some (m !! logicalKeyOf r)).

Lemma newest_snoc seen r0 r :
  newest seen r -> (actionable b r0 = true -> logicalKeyOf r0 = logicalKeyOf r -> supersedes r0 r = false) ->
  newest (seen ++ [r0]) r.
Proof.
  intros (Hin & Ha & Hmax) H0. split; [apply in_or_app; by left|]. split; [done|].
  intros r' [Hr'|[<-|[]]]%in_app_or Hact Hk; [by apply Hmax|by apply H0].
Qed.

Lemma canonicalOf_skip seen m r : canonicalOf seen m -> actionable b r = false -> canonicalOf (seen ++ [r]) m.
Proof.
  intros [Hm Hs] Hr. split.
  - intros k r' L. destruct (Hm k r' L). split; [done|]. apply newest_snoc; [done|congruence].
  - intros r' [Hr'|[<-|[]]]%in_app_or Ha; [by apply Hs|congruence].
Qed.

Lemma canonicalOf_insert seen m r :
  canonicalOf seen m -> actionable b r = true ->
  (forall previous, m !! logicalKeyOf r = Some previous -> supersedes r previous = true) ->
  canonicalOf (seen ++ [r]) (<[logicalKeyOf r := r]> m).
Proof.
  intros [Hm Hs] Hr Hp. split.
  - intros k r' L'. destruct (decide (logicalKeyOf r = k)) as [<-|Hne].
    + rewrite lookup_insert_eq in L'. injection L' as <-. split; [done|]. split; [apply in_or_app; right; by left|].
      split; [done|]. intros r' [Hr'|[<-|[]]]%in_app_or Ha Hkk; [|rewrite supersedes_false; lia].
      destruct (Hs r' Hr' Ha) as [previous L]. rewrite Hkk in L. destruct (Hm _ _ L) as [Hk (_ & _ & Hmax)].
      specialize (Hmax r' Hr' Ha ltac:(congruence)). specialize (Hp _ L). rewrite supersedes_false in *.
      rewrite supersedes_spec in Hp. lia.
    + rewrite lookup_insert_ne in L' by done. destruct (Hm _ _ L') as [<- Hn]. split; [done|].
      apply newest_snoc; [done|congruence].
  - intros r' [Hr'|[<-|[]]]%in_app_or Ha; apply lookup_insert_is_Some'; [right; by apply Hs|by left].
Qed.

Lemma canonicalOf_stay seen m r previous :
  canonicalOf seen m -> m !! logicalKeyOf r = Some previous -> supersedes r previous = false -> canonicalOf (seen ++ [r]) m.
Proof.
  intros [Hm Hs] L S. split.
  - intros k r' L'. destruct (Hm _ _ L') as [<- Hn]. split; [done|]. apply newest_snoc; [done|]. intros _ Hk. congruence.
  - intros r' [Hr'|[<-|[]]]%in_app_or Ha; [by apply Hs|by eexists].
Qed.

Lemma canonicalOf_keep seen m r : canonicalOf seen m -> actionable b r = true -> canonicalOf (seen ++ [r]) (keepNewest m r).
Proof.
  intros Hc Hr. unfold keepNewest. destruct (m !! logicalKeyOf r) as [previous|] eqn:L.
  - destruct (supersedes r previous) eqn:S; [|by eapply canonicalOf_stay].
    apply canonicalOf_insert; [done|done|congruence].
  - apply canonicalOf_insert; [done|done|congruence].
Qed.

Lemma canonicalize_spec records : forall seen m m',
  canonicalOf seen m -> canonicalize b records m = inr m' ->
  canonicalOf (seen ++ records) m' /\ Forall (fun r => actionable b r = true -> incomplete r = false) records.
Proof.
  induction records as [|r records IH]; intros seen m m' Hc; simpl.
  { intros [= <-]. rewrite app_nil_r. split; [done|constructor]. }
  rewrite cons_middle, app_assoc. destruct (actionable b r) eqn:A; simpl.
  - destruct (incomplete r) eqn:I; [done|]. intros Hx. destruct (IH (seen ++ [r]) _ _ (canonicalOf_keep _ _ _ Hc A) Hx) as [H1 H2].
    split; [done|by constructor].
  - intros Hx. destruct (IH (seen ++ [r]) _ _ (canonicalOf_skip _ _ _ Hc A) Hx) as [H1 H2].
    split; [done|]. constructor; [congruence|done].
Qed.

Lemma canonicalize_error records : forall m err,
  canonicalize b records m = inl err ->
  err = ErrUncertain /\ exists r, In r records /\ actionable b r = true /\ incomplete r = true.
Proof.
  induction records as [|r records IH]; intros m err; simpl; [done|].
  assert (forall m', canonicalize b records m' = inl err ->
    err = ErrUncertain /\ exists r0, (r = r0 \/ In r0 records) /\ actionable b r0 = true /\ incomplete r0 = true) as Hrest.
  { intros m' Hx. destruct (IH m' err Hx) as (-> & r0 & Hr & ?). split; [done|]. exists r0. auto. }
  destruct (actionable b r) eqn:A; simpl; [|apply Hrest].
  destruct (incomplete r) eqn:I; [|apply Hrest]. intros [= <-]. split; [done|]. exists r. auto.
Qed.

(** The queue: of every job its newest request, oldest job first. *)
Record IsQueue (records queue : list DemandRecord) : Prop := {
  iq_newest : forall r, In r queue -> newest records r;
  iq_every : forall r, In r records -> actionable b r = true -> exists r', In r' queue /\ logicalKeyOf r' = logicalKeyOf r;
  iq_once : NoDup (map logicalKeyOf queue);
  iq_oldest : StronglySorted (before olderRecord) queue;
  iq_complete : forall r, In r queue -> incomplete r = false
}.

Lemma olderRecord_spec a c :
  olderRecord a c = true <->
  queuedAt a < queuedAt c \/ queuedAt a = queuedAt c /\ dr_RunnerRequestID a < dr_RunnerRequestID c.
Proof.
  unfold olderRecord, TimeEqual, Before. destruct (queuedAt a =? queuedAt c) eqn:E; bool_to_prop; rewrite Z.ltb_lt; lia.
Qed.

Lemma olderRecord_false a c :
  olderRecord a c = false <->
  queuedAt c < queuedAt a \/ queuedAt a = queuedAt c /\ dr_RunnerRequestID c <= dr_RunnerRequestID a.
Proof. rewrite <- not_true_iff_false, olderRecord_spec. lia. Qed.

Lemma canonicalize_queue records m :
  canonicalize b records ∅ = inr m -> IsQueue records (selectedRecords m).
Proof.
  intros Hc. destruct (canonicalize_spec records [] ∅ m) as [[Hm Hs] Hi]; [|done|].
  { split; [intros k r L; by rewrite lookup_empty in L|by intros ? []]. }
  simpl in Hm, Hs.
  assert (forall r, In r (selectedRecords m) <-> exists k, m !! k = Some r) as Hin.
  { intros r. unfold selectedRecords. rewrite sortBy_in, in_map_iff. split.
    - intros ([k r'] & <- & Hk). exists k. by apply elem_of_map_to_list, list_elem_of_In.
    - intros [k L]. exists (k, r). split; [done|]. by apply list_elem_of_In, elem_of_map_to_list. }
  assert (forall r, In r (selectedRecords m) -> newest records r) as Hnew by (intros r [k L]%Hin; by apply (Hm k)).
  split; [done| | | |].
  - intros r Hr Ha. destruct (Hs r Hr Ha) as [r' L]. exists r'. split; [apply Hin; by eexists|]. by apply (Hm _ _ L).
  - unfold selectedRecords. rewrite (Permutation_map _ (sortBy_perm _ _)).
    rewrite map_map, (map_ext_in _ fst); [apply NoDup_fst_map_to_list|].
    intros [k r] Hk. apply list_elem_of_In, elem_of_map_to_list in Hk. by apply (Hm _ _ Hk).
  - apply sortBy_sorted.
    + intros a c d. rewrite !olderRecord_false. lia.
    + intros a c. rewrite olderRecord_spec, olderRecord_false. lia.
  - intros r Hr. destruct (Hnew r Hr) as (Hrec & Ha & _). rewrite List.Forall_forall in Hi. by apply Hi.
Qed.

End Canonical.

(** ** The oldest requests within the statistics *)

Definition preassigned (r : DemandRecord) : bool := IsPreassignedRequestID (dr_RunnerRequestID r).
Definition offered (r : DemandRecord) : bool := negb (preassigned r).

Lemma boundedRecords_spec l : forall n p,
  0 <= n -> 0 <= p ->
  sublist (boundedRecords l n p) l /\
  List.filter offered (boundedRecords l n p) = take (Z.to_nat n) (List.filter offered l) /\
  List.filter preassigned (boundedRecords l n p) = take (Z.to_nat p) (List.filter preassigned l).
Proof.
  induction l as [|r l IH]; intros n p Hn Hp; cbn [boundedRecords].
  { split; [constructor|]. cbn [List.filter]. by rewrite !take_nil. }
  assert (offered r = negb (preassigned r)) as O by done. fold (preassigned r). destruct (preassigned r) eqn:P; cbn [negb] in O.
  - destruct (Z.eqb_spec p 0) as [->|Hne].
    + destruct (IH n 0 Hn ltac:(lia)) as (Hs & Ho & Hq). cbn [List.filter]. rewrite P, O.
      split; [by constructor|]. split; [done|]. by rewrite Hq.
    + destruct (IH n (p - 1) Hn ltac:(lia)) as (Hs & Ho & Hq). cbn [List.filter]. rewrite P, O.
      split; [by constructor|]. split; [done|]. rewrite Hq. by replace (Z.to_nat p) with (S (Z.to_nat (p - 1))) by lia.
  - destruct (Z.eqb_spec n 0) as [->|Hne].
    + destruct (IH 0 p ltac:(lia) Hp) as (Hs & Ho & Hq). cbn [List.filter]. rewrite P, O.
      split; [by constructor|]. split; [|done]. by rewrite Ho.
    + destruct (IH (n - 1) p ltac:(lia) Hp) as (Hs & Ho & Hq). cbn [List.filter]. rewrite P, O.
      split; [by constructor|]. split; [|done]. rewrite Ho. by replace (Z.to_nat n) with (S (Z.to_nat (n - 1))) by lia.
Qed.

(** [admitted] is the part of the queue the statistics allow: of the requests
    GitHub offered the oldest [Available], of those it assigned in advance the
    oldest that are assigned and not running. *)
Record AdmittedBy (s : DemandStatistics) (queue admitted : list DemandRecord) : Prop := {
  ad_sublist : sublist admitted queue;
  ad_offered : List.filter offered admitted = take (Z.to_nat (stat_Available s)) (List.filter offered queue);
  ad_preassigned : List.filter preassigned admitted =
    take (Z.to_nat (preassignedLimit s)) (List.filter preassigned queue)
}.

Abbreviation QueueCalls := (list (Event QueueCall)).

Section QueueRead.
Variables (c : DemandCoordinator) (b : Binding).

(** What a read of the queue returns, from what it asked. *)
Definition queueRead (h : QueueCalls) (r : QueueRead) : Prop :=
  match r with
  | Unreadable err =>
      (err = ErrInvalid /\ Binding_valid b = false) \/
      In (Ev (Active (durableKey b)) (inl err)) h \/ In (Ev (StatisticsOf (durableKey b)) (inl err)) h \/
      exists records r, In (Ev (Active (durableKey b)) (inr records)) h /\ In r records /\
        actionable b r = true /\ incomplete r = true /\ err = ErrUncertain
  | Queued demands => exists records queue,
      In (Ev (Active (durableKey b)) (inr records)) h /\ IsQueue b records queue /\
      ((queue = [] /\ demands = []) \/
       exists s now admitted,
         In (Ev (StatisticsOf (durableKey b)) (inr s)) h /\ In (Ev QueueNow now) h /\ currentStatistics c now s = true /\
         AdmittedBy s queue admitted /\ demands = convertDemandRecords c b admitted)
  | Degraded demands => exists records queue,
      In (Ev (Active (durableKey b)) (inr records)) h /\ IsQueue b records queue /\
      demands = convertDemandRecords c b queue /\
      (In (Ev (StatisticsOf (durableKey b)) (inl ErrNotFound)) h \/
       exists s now, In (Ev (StatisticsOf (durableKey b)) (inr s)) h /\ In (Ev QueueNow now) h /\
         currentStatistics c now s = false)
  end.

Lemma currentStatistics_valid now s : currentStatistics c now s = true -> DemandStatistics_Valid s = true.
Proof. unfold currentStatistics. intros Hc. bool_to_prop. done. Qed.

Definition readOnly (ev : Event QueueCall) : Prop :=
  match ev with
  | Ev QueueNow _ | Ev (Active _) _ | Ev (StatisticsOf _) _ | Ev (QueuedJobs _) _ => True
  | _ => False
  end.

Lemma wp_QueuedDemands h :
  wp anyAnswer (fun _ => readOnly) h (QueuedDemands c b) (fun h' r => incl h h' /\ queueRead h' r).
Proof.
  unfold QueuedDemands. destruct (Binding_valid b) eqn:Valid; cbn -[app canonicalize]; [|split; [apply incl_refl|by left]].
  intros [err|records] _; (split; [done|]); cbn -[app canonicalize].
  { split; [apply incl_appl, incl_refl|]. right. left. apply in_or_app. right. by left. }
  destruct (canonicalize b records ∅) as [err|m] eqn:E; cbn -[app].
  { split; [apply incl_appl, incl_refl|]. destruct (canonicalize_error b records _ _ E) as (-> & r & Hr & ? & ?).
    do 3 right. exists records, r. split; [apply in_or_app; right; by left|done]. }
  pose proof (canonicalize_queue b records m E) as Hq. destruct (selectedRecords m) as [|r rest] eqn:Es.
  { split; [apply incl_appl, incl_refl|]. exists records, []. split; [apply in_or_app; right; by left|]. auto. }
  cbn -[app boundedRecords convertDemandRecords]. set (queue := r :: rest) in *.
  intros [err|s] _; (split; [done|]).
  - destruct err; cbn -[app convertDemandRecords];
      (split; [do 2 apply incl_appl; apply incl_refl|]); try done.
    all: try (right; right; left; apply in_or_app; right; by left).
    exists records, queue. split; [apply in_or_app; left; apply in_or_app; right; by left|].
    split; [done|]. split; [done|]. left. apply in_or_app. right. by left.
  - cbn -[app boundedRecords convertDemandRecords]. intros now _. split; [done|].
    split; [do 3 apply incl_appl; apply incl_refl|].
    assert (forall ev, In ev (((h ++ [Ev (Active (durableKey b)) (inr records)]) ++ [Ev (StatisticsOf (durableKey b)) (inr s)])
      ++ [Ev QueueNow now]) <-> In ev h \/ ev = Ev (Active (durableKey b)) (inr records)
      \/ ev = Ev (StatisticsOf (durableKey b)) (inr s) \/ ev = Ev QueueNow now) as Hev.
    { intros ev. rewrite !in_app_iff. simpl.
      split; [intros [[[?|[<-|[]]]|[<-|[]]]|[<-|[]]]; auto|intros [?|[->|[->| ->]]]; auto 6]. }
    destruct (currentStatistics c now s) eqn:Cs; exists records, queue; rewrite Hev.
    + split; [by auto|]. split; [done|]. right. pose proof (currentStatistics_valid _ _ Cs) as V.
      unfold DemandStatistics_Valid in V. bool_to_prop.
      destruct (boundedRecords_spec queue (stat_Available s) (preassignedLimit s)) as (Hsub & Hoff & Hpre); [done|unfold preassignedLimit; lia|].
      exists s, now, (boundedRecords queue (stat_Available s) (preassignedLimit s)). rewrite !Hev. split; [by auto|]. split; [by auto|]. split; [done|]. split; [by split|done].
    + split; [by auto|]. split; [done|]. split; [done|]. right. exists s, now. rewrite !Hev. split; [by auto|]. split; [by auto|done].
Qed.

End QueueRead.

(** ** Claims on a shared queue *)

Lemma olderJob_spec a c :
  olderJob a c = true <->
  gj_CreatedAt a < gj_CreatedAt c \/ gj_CreatedAt a = gj_CreatedAt c /\ gj_WorkflowJobID a < gj_WorkflowJobID c.
Proof.
  unfold olderJob, TimeEqual, Before. destruct (gj_CreatedAt a =? gj_CreatedAt c) eqn:E; bool_to_prop; rewrite Z.ltb_lt; lia.
Qed.

Lemma olderJob_sorted l : StronglySorted (before olderJob) (sortBy olderJob l).
Proof.
  apply sortBy_sorted; intros a c; [intros d|]; rewrite <- !not_true_iff_false, !olderJob_spec; lia.
Qed.

Section Share.
Variables (share : Z) (vouched : gset string) (jobs : list GitHubJobObservation).

(** What a binding may claim: every job its own demand names, the oldest of the
    others, and no more than its share unless its own demand names more. *)
Record ClaimWithin (claimed : list GitHubJobObservation) : Prop := {
  cw_vouched : forall j, In j jobs -> vouchedFor vouched j = true -> In j claimed;
  cw_bound : Z.of_nat (length claimed) <= Z.max share (Z.of_nat (length (List.filter (vouchedFor vouched) jobs)));
  cw_oldest : exists dropped, claimed ++ dropped ≡ₚ jobs /\
    forall j d, In j claimed -> vouchedFor vouched j = false -> In d dropped -> olderJob d j = false
}.

Lemma withinShare_claim : ClaimWithin (withinShare share vouched jobs).
Proof.
  unfold withinShare. set (kept := List.filter (vouchedFor vouched) jobs).
  set (contested := sortBy olderJob (List.filter (fun j => negb (vouchedFor vouched j)) jobs)).
  set (n := Z.to_nat (share - Z.of_nat (length kept))). split.
  - intros j Hj Hv. apply in_or_app. left. by apply List.filter_In.
  - fold kept. rewrite length_app, length_take. lia.
  - exists (drop n contested). split.
    + rewrite <- app_assoc, take_drop. unfold contested. rewrite sortBy_perm. apply filter_negb_perm.
    + intros j d [Hj|Hj]%in_app_or Hv Hd.
      { apply List.filter_In in Hj as [_ Hj]. congruence. }
      pose proof (olderJob_sorted (List.filter (fun j => negb (vouchedFor vouched j)) jobs)) as Hs. fold contested in Hs.
      rewrite <- (take_drop n contested) in Hs. clear -Hs Hj Hd.
      induction (take n contested) as [|x l IH]; [done|]. simpl in Hs. apply StronglySorted_inv in Hs as [Hs Hf].
      destruct Hj as [->|Hj]; [|by apply IH]. rewrite List.Forall_forall in Hf. apply Hf, in_or_app. by right.
Qed.

End Share.

Section Claim.
Variables (c : DemandCoordinator) (b : Binding).

(** The share the statistics give, none without any. *)
Definition shareFrom (h : QueueCalls) (share : Z) : Prop :=
  (share = 0 /\ In (Ev (StatisticsOf (durableKey b)) (inl ErrNotFound)) h) \/
  exists s now, In (Ev (StatisticsOf (durableKey b)) (inr s)) h /\ In (Ev QueueNow now) h /\ share = observedShare c now s.

Definition claims (h : QueueCalls) (jobs claimed : list GitHubJobObservation) : Prop :=
  (jobs = [] /\ claimed = []) \/
  exists share, shareFrom h share /\
    ((Z.of_nat (length jobs) <= share /\ claimed = jobs) \/
     exists records, In (Ev (Active (durableKey b)) (inr records)) h /\ ClaimWithin share (vouchedKeys records) jobs claimed).

Lemma shareFrom_mono h h' share : incl h h' -> shareFrom h share -> shareFrom h' share.
Proof. intros Hi [[-> Hs]|(s & now & Hs & Hn & ->)]; [left; auto|right; exists s, now; auto]. Qed.

Lemma claims_mono h h' jobs claimed : incl h h' -> claims h jobs claimed -> claims h' jobs claimed.
Proof.
  intros Hi [Hn|(share & Hs & Hc)]; [by left|right]. exists share. split; [by eapply shareFrom_mono|].
  destruct Hc as [?|(records & Hr & ?)]; [by left|right; exists records; auto].
Qed.

(** Programs that only read extend the history by reads. *)
Definition readsAfter (h h' : QueueCalls) : Prop := exists more, h' = h ++ more /\ Forall readOnly more.

Lemma readsAfter_incl h h' : readsAfter h h' -> incl h h'.
Proof. intros (more & -> & _). apply incl_appl, incl_refl. Qed.

Lemma readsAfter_refl h : readsAfter h h.
Proof. exists []. by rewrite app_nil_r. Qed.

Lemma readsAfter_snoc {X : Set} h h' (k : QueueCall X) x : readsAfter h h' -> readOnly (Ev k x) -> readsAfter h (h' ++ [Ev k x]).
Proof.
  intros (more & -> & Hm) Hk. exists (more ++ [Ev k x]). rewrite app_assoc. split; [done|].
  apply Forall_app. split; [done|by constructor].
Qed.

Lemma readsAfter_trans h1 h2 h3 : readsAfter h1 h2 -> readsAfter h2 h3 -> readsAfter h1 h3.
Proof. intros (a & -> & Ha) (d & -> & Hd). exists (a ++ d). rewrite app_assoc. split; [done|by apply Forall_app]. Qed.

End Claim.

Section Bound.
Variables (c : DemandCoordinator) (guard : QueueCalls -> Event QueueCall -> Prop).
Hypothesis reads_allowed : forall h ev, readOnly ev -> guard h ev.

Ltac step := split; [by apply reads_allowed|].

Lemma wp_claimWithin b jobs share h :
  shareFrom c b h share -> jobs <> [] ->
  wp anyAnswer guard h (claimWithin b jobs share)
    (fun h' r => readsAfter h h' /\ match r with inr claimed => claims c b h' jobs claimed | inl _ => True end).
Proof.
  intros Hs Hj. unfold claimWithin. destruct (Z.leb_spec (Z.of_nat (length jobs)) share) as [Hle|Hgt].
  { split; [apply readsAfter_refl|]. right. exists share. auto. }
  cbn -[app]. intros [err|records] _; step; (split; [by apply readsAfter_snoc; [apply readsAfter_refl|]|]); [done|].
  right. exists share. split; [eapply shareFrom_mono; [|exact Hs]; apply incl_appl, incl_refl|].
  right. exists records. split; [apply in_or_app; right; by left|apply withinShare_claim].
Qed.

Lemma wp_boundToOwnShare b jobs h :
  wp anyAnswer guard h (boundToOwnShare c b jobs)
    (fun h' r => readsAfter h h' /\ match r with inr claimed => claims c b h' jobs claimed | inl _ => True end).
Proof.
  unfold boundToOwnShare. destruct jobs as [|j jobs]; [split; [apply readsAfter_refl|by left; auto]|].
  cbn -[app claimWithin]. intros [err|s] _; step; cbn -[app claimWithin].
  - destruct err; cbn -[app claimWithin]; try (split; [by apply readsAfter_snoc; [apply readsAfter_refl|]|done]).
    eapply wp_mono; [|apply wp_claimWithin; [|done]].
    + intros h' r [Hr Hc]. split; [|done]. eapply readsAfter_trans; [|exact Hr]. by apply readsAfter_snoc; [apply readsAfter_refl|].
    + left. split; [done|]. apply in_or_app. right. by left.
  - intros now _. step. eapply wp_mono; [|apply wp_claimWithin; [|done]].
    + intros h' r [Hr Hc]. split; [|done]. eapply readsAfter_trans; [|exact Hr].
      by apply readsAfter_snoc; [apply readsAfter_snoc; [apply readsAfter_refl|]|].
    + right. exists s, now. rewrite !in_app_iff. simpl. auto 6.
Qed.

(** What the loop over the bindings makes of the observations. *)
Definition boundedFor (h : QueueCalls) (shared : gset Z) (before after : Observations) (b : Binding) : Prop :=
  let own := default [] (before !! durableKey b) in
  if b_SharedLabels b || bool_decide (durableKey b ∈ shared)
  then exists claimed, after !! durableKey b = Some claimed /\ claims c b h own claimed
  else after !! durableKey b = before !! durableKey b.

Lemma wp_boundShared bindings shared : forall observations h,
  NoDup (map durableKey bindings) ->
  wp anyAnswer guard h (boundShared c bindings shared observations)
    (fun h' r => readsAfter h h' /\
       match r with
       | inr after =>
           (forall b, In b bindings -> boundedFor h' shared observations after b) /\
           (forall k, ~ In k (map durableKey bindings) -> after !! k = observations !! k)
       | inl _ => True
       end).
Proof.
  induction bindings as [|b bindings IH]; intros observations h Hn; cbn [boundShared].
  { split; [apply readsAfter_refl|]. split; [by intros ? []|done]. }
  apply NoDup_cons in Hn as [Hb Hn]. rewrite list_elem_of_In in Hb.
  assert (negb (b_SharedLabels b) && negb (bool_decide (durableKey b ∈ shared)) =
          negb (b_SharedLabels b || bool_decide (durableKey b ∈ shared))) as -> by (by rewrite negb_orb).
  destruct (b_SharedLabels b || bool_decide (durableKey b ∈ shared)) eqn:S; cbn [negb].
  - apply wp_bind. eapply wp_mono; [|apply wp_boundToOwnShare]. intros h1 [err|claimed] [Hr1 Hc]; [by split|].
    eapply wp_mono; [|apply IH; exact Hn]. intros h2 [err|after] [Hr2 Hx]; (split; [by eapply readsAfter_trans|]); [done|].
    destruct Hx as [Hin Hout]. split.
    + intros b' [<-|Hb'].
      * unfold boundedFor. rewrite S. exists claimed. rewrite Hout by done. rewrite lookup_insert_eq. split; [done|].
        eapply claims_mono; [by apply readsAfter_incl|done].
      * specialize (Hin b' Hb'). unfold boundedFor in *. rewrite lookup_insert_ne in Hin; [done|].
        intros E. apply Hb. rewrite E. by apply in_map.
    + intros k Hk. simpl in Hk. rewrite Hout by tauto. apply lookup_insert_ne. tauto.
  - eapply wp_mono; [|apply IH; exact Hn]. intros h2 [err|after] [Hr2 Hx]; (split; [done|]); [done|].
    destruct Hx as [Hin Hout]. split.
    + intros b' [<-|Hb']; [|by apply Hin]. unfold boundedFor. rewrite S. by apply Hout.
    + intros k Hk. simpl in Hk. apply Hout. tauto.
Qed.

End Bound.

(** ** Routing a snapshot *)

Definition takes (job : WorkflowJob) (b : Binding) : bool :=
  accepts b (jobRepo job) && matchesRESTLabels b (job_Labels job).

Lemma matchLoop_spec job bindings : forall matched all,
  matchLoop job bindings matched = inr all -> all = matched ++ List.filter (takes job) bindings.
Proof.
  induction bindings as [|b bindings IH]; intros matched all; simpl.
  { intros [= <-]. by rewrite app_nil_r. }
  unfold takes at 1. destruct (accepts b (jobRepo job)); simpl; [|apply IH].
  destruct (matchesRESTLabels b (job_Labels job)); simpl; [|apply IH].
  destruct matched as [|first matched]; [apply IH|].
  destruct (interchangeable first b); simpl; [|done]. intros Hx. apply IH in Hx. rewrite Hx. simpl. by rewrite <- app_assoc.
Qed.

(** The jobs of a binding, as it observes them. *)
Definition routed (b : Binding) (jobs : list WorkflowJob) : list GitHubJobObservation :=
  map observationOf (List.filter (fun job => takes job b) jobs).

Lemma observe_fold job matched : forall observations k,
  NoDup (map durableKey matched) ->
  fold_left (observe1 job) matched observations !! k =
  if bool_decide (k ∈ map durableKey matched) then Some (default [] (observations !! k) ++ [observationOf job])
  else observations !! k.
Proof.
  induction matched as [|b matched IH]; intros observations k Hn; [done|].
  cbn [map] in Hn |- *. apply NoDup_cons in Hn as [Hb Hn]. cbn [fold_left]. rewrite IH by done. unfold observe1.
  destruct (decide (durableKey b = k)) as [<-|Hne].
  - rewrite (bool_decide_eq_false_2 (durableKey b ∈ map durableKey matched)) by done.
    rewrite bool_decide_eq_true_2 by by left. by rewrite lookup_insert_eq.
  - rewrite !lookup_insert_ne by done. case_bool_decide as H1; case_bool_decide as H2; try done; exfalso.
    + apply H2. by right.
    + apply elem_of_cons in H2 as [->|H2]; done.
Qed.

Section Routing.
Variables (c : DemandCoordinator) (bindings : list Binding).
Hypothesis distinct : NoDup (map durableKey bindings).

Lemma key_injective b b' : In b bindings -> In b' bindings -> durableKey b = durableKey b' -> b = b'.
Proof.
  intros Hb Hb' E. apply list_elem_of_In, list_elem_of_lookup in Hb as [i Hi].
  apply list_elem_of_In, list_elem_of_lookup in Hb' as [j Hj].
  assert (i = j) as ->.
  { eapply (NoDup_lookup (map durableKey bindings)); [exact distinct| |]; rewrite list_lookup_fmap.
    - by rewrite Hi.
    - rewrite Hj. simpl. by rewrite E. }
  congruence.
Qed.

Lemma others_of_two f b :
  (1 < length (List.filter f bindings))%nat -> exists b', In b' bindings /\ b' <> b /\ f b' = true.
Proof.
  intros Hl. destruct (List.filter f bindings) as [|x [|y l]] eqn:E; simpl in Hl; [lia|lia|].
  assert (In x (List.filter f bindings) /\ In y (List.filter f bindings)) as [Hx Hy] by (rewrite E; simpl; auto).
  apply List.filter_In in Hx as [Hx Fx], Hy as [Hy Fy].
  assert (x <> y) as Hne.
  { intros ->. assert (NoDup (map durableKey (List.filter f bindings))) as Hn.
    { apply NoDup_ListNoDup. eapply sublist_NoDup_map; [apply filter_sublist|by apply NoDup_ListNoDup]. }
    rewrite E in Hn. apply NoDup_cons in Hn as [Hn _]. apply Hn. by left. }
  destruct (decide (durableKey x = durableKey b)) as [Ek|Hk].
  - exists y. split; [done|]. split; [|done]. intros ->. apply Hne. by apply key_injective.
  - exists x. split; [done|]. split; [congruence|done].
Qed.

(** What the jobs seen so far left. *)
Record RoutedSoFar (seen : list WorkflowJob) (observations : Observations) (shared : gset Z) : Prop := {
  rs_own : forall b, In b bindings -> observations !! durableKey b = Some (routed b seen);
  rs_only : forall k, is_Some (observations !! k) -> In k (map durableKey bindings);
  rs_shared : forall b, In b bindings ->
    durableKey b ∈ shared <->
    exists job b', In job seen /\ takes job b = true /\ In b' bindings /\ b' <> b /\ takes job b' = true
}.

Lemma takers_key job b :
  In b bindings -> bool_decide (durableKey b ∈ map durableKey (List.filter (takes job) bindings)) = takes job b.
Proof.
  intros Hb. destruct (takes job b) eqn:T.
  - apply bool_decide_eq_true_2, list_elem_of_In, in_map, List.filter_In. done.
  - apply bool_decide_eq_false_2. intros Hin. apply list_elem_of_In, in_map_iff in Hin as (b' & E & Hb').
    apply List.filter_In in Hb' as [Hb' T']. assert (b' = b) as -> by by apply key_injective. congruence.
Qed.

Lemma RoutedSoFar_snoc seen observations shared job :
  RoutedSoFar seen observations shared ->
  RoutedSoFar (seen ++ [job]) (fold_left (observe1 job) (List.filter (takes job) bindings) observations)
    (if (1 <? length (List.filter (takes job) bindings))%nat
     then list_to_set (map durableKey (List.filter (takes job) bindings)) ∪ shared else shared).
Proof.
  intros [Hown Honly Hsh].
  assert (NoDup (map durableKey (List.filter (takes job) bindings))) as Hn.
  { apply NoDup_ListNoDup. eapply sublist_NoDup_map; [apply filter_sublist|by apply NoDup_ListNoDup]. }
  split.
  - intros b Hb. rewrite observe_fold by done. rewrite takers_key by done. rewrite (Hown b Hb). unfold routed.
    rewrite List.filter_app, map_app. simpl. destruct (takes job b); simpl; [done|by rewrite app_nil_r].
  - intros k. rewrite observe_fold by done. case_bool_decide as Hk; [|apply Honly]. intros _.
    apply list_elem_of_In, in_map_iff in Hk as (b & <- & Hb). apply in_map. by apply List.filter_In in Hb as [? _].
  - intros b Hb.
    assert ((exists job0 b', In job0 (seen ++ [job]) /\ takes job0 b = true /\ In b' bindings /\ b' <> b /\ takes job0 b' = true)
      <-> durableKey b ∈ shared \/ (takes job b = true /\ exists b', In b' bindings /\ b' <> b /\ takes job b' = true)) as ->.
    { rewrite (Hsh b Hb). setoid_rewrite in_app_iff. simpl. split.
      - intros (j & b' & [Hj|[<-|[]]] & T & Hb' & Hne & T'); [left; eauto 10|right; eauto 10].
      - intros [(j & b' & Hj & Hx)|(T & b' & Hx)]; [exists j, b'; auto|exists job, b'; split; [auto|]; by split]. }
    pose proof (takers_key job b Hb) as Hk. destruct (Nat.ltb_spec 1 (length (List.filter (takes job) bindings))) as [Hl|Hl].
    + rewrite elem_of_union, elem_of_list_to_set. split.
      * intros [Hin|?]; [|by left]. right. rewrite bool_decide_eq_true_2 in Hk by done. split; [done|].
        by apply others_of_two.
      * intros [?|[T _]]; [by right|left]. rewrite T in Hk. by apply bool_decide_eq_true in Hk.
    + split; [by left|]. intros [?|(T & b' & Hb' & Hne & T')]; [done|]. exfalso.
      assert (In b (List.filter (takes job) bindings) /\ In b' (List.filter (takes job) bindings)) as [H1 H2]
        by (split; by apply List.filter_In).
      destruct (List.filter (takes job) bindings) as [|x [|y l]]; simpl in *; [done| |lia].
      destruct H1 as [->|[]], H2 as [->|[]]. done.
Qed.

Lemma routeJobs_spec jobs : forall seen observations shared observations' shared',
  RoutedSoFar seen observations shared -> routeJobs c bindings jobs observations shared = inr (observations', shared') ->
  RoutedSoFar (seen ++ jobs) observations' shared'.
Proof.
  induction jobs as [|job jobs IH]; intros seen o s o' s' HR; cbn [routeJobs].
  { intros [= <- <-]. by rewrite app_nil_r. }
  rewrite cons_middle, app_assoc. destruct (matchingBindings bindings job) as [err|matched] eqn:M; [done|].
  apply matchLoop_spec in M. simpl in M. pose proof (RoutedSoFar_snoc seen o s job HR) as HR'. rewrite <- M in HR'.
  destruct matched as [|b matched].
  - destruct (unroutable c bindings job); [done|]. simpl in HR'. by apply IH.
  - by apply IH.
Qed.

(** Nobody else takes a job of the binding, and it is not declared shared. *)
Definition alone (jobs : list WorkflowJob) (b : Binding) : Prop :=
  b_SharedLabels b = false /\
  forall job b', In job jobs -> takes job b = true -> In b' bindings -> takes job b' = true -> b' = b.

(** The snapshot handed to the store: the bindings and nothing else, each with
    all its jobs, or on a shared queue with its claim of them. *)
Definition recorded (h : QueueCalls) (jobs : list WorkflowJob) (snapshot : Observations) : Prop :=
  (forall k, is_Some (snapshot !! k) -> In k (map durableKey bindings)) /\
  forall b, In b bindings -> exists own, snapshot !! durableKey b = Some own /\
    (own = routed b jobs \/ (~ alone jobs b /\ claims c b h (routed b jobs) own)).

Variables (observedAt : Time) (jobs : list WorkflowJob).

Definition mayRecord (h : QueueCalls) (ev : Event QueueCall) : Prop :=
  match ev with
  | Ev (PutSnapshot t snapshot) _ => t = observedAt /\ Forall readOnly h /\ recorded h jobs snapshot
  | Ev (ExpireGhosts k criteria) _ => criteria = ghostCriteria c observedAt /\ In k (map durableKey bindings) /\
      exists snapshot changed, In (Ev (PutSnapshot observedAt snapshot) (inr changed)) h
  | _ => readOnly ev
  end.

Lemma mayRecord_reads h ev : readOnly ev -> mayRecord h ev.
Proof. by destruct ev as [X [] x]. Qed.

(** A stage before the commit leaves everything as it was. *)
Definition reconciled (h : QueueCalls) (r : Reconciled) : Prop :=
  match snd r with
  | Some (StageInput, _) | Some (StageRouting, _) | Some (StageShare, _) => fst r = false /\ Forall readOnly h
  | Some (StageCommit, err) => fst r = false /\ exists snapshot, last h = Some (Ev (PutSnapshot observedAt snapshot) (inl err))
  | Some (StageExpiry, _) | None => exists snapshot changed, In (Ev (PutSnapshot observedAt snapshot) (inr changed)) h
  end.

Lemma wp_expireEach some criteria : forall h expired,
  incl some bindings -> criteria = ghostCriteria c observedAt ->
  (exists snapshot changed, In (Ev (PutSnapshot observedAt snapshot) (inr changed)) h) ->
  wp anyAnswer mayRecord h (expireEach some criteria expired)
    (fun h' _ => exists snapshot changed, In (Ev (PutSnapshot observedAt snapshot) (inr changed)) h').
Proof.
  induction some as [|b some IH]; intros h expired Hi Hc Hp; cbn -[app]; [done|].
  assert (forall ev, exists snapshot changed, In (Ev (PutSnapshot observedAt snapshot) (inr changed)) (h ++ [ev])) as Hp'.
  { intros ev. destruct Hp as (sn & ch & Hp). exists sn, ch. apply in_or_app. by left. }
  intros [err|count] _; (split; [split; [done|split; [apply in_map, Hi; by left|done]]|]); [apply Hp'|].
  apply IH; [by intros x Hx; apply Hi; right|done|apply Hp'].
Qed.

Lemma recorded_from h observations shared after :
  RoutedSoFar jobs observations shared -> (forall b, In b bindings -> boundedFor c h shared observations after b) ->
  (forall k, ~ In k (map durableKey bindings) -> after !! k = observations !! k) -> recorded h jobs after.
Proof.
  intros [Hown Honly Hsh] Hb Hout. split.
  - intros k Hk. destruct (in_dec Z.eq_dec k (map durableKey bindings)) as [|Hn]; [done|]. apply Honly. by rewrite <- Hout.
  - intros b Hin. specialize (Hb b Hin). unfold boundedFor in Hb. rewrite (Hown b Hin) in Hb. simpl in Hb.
    destruct (b_SharedLabels b || bool_decide (durableKey b ∈ shared)) eqn:S; [|exists (routed b jobs); auto].
    destruct Hb as (claimed & L & Hc). exists claimed. split; [done|right]. split; [|done].
    intros [Ha1 Ha2]. rewrite Ha1 in S. simpl in S. apply bool_decide_eq_true in S.
    apply (Hsh b Hin) in S as (job & b' & Hj & T & Hb' & Hne & T'). apply Hne. by eapply Ha2.
Qed.

Lemma RoutedSoFar_nil : RoutedSoFar [] (list_to_map (map (fun b => (durableKey b, [])) bindings)) ∅.
Proof.
  split.
  - intros b Hb. apply elem_of_list_to_map_1; [by rewrite <- list_fmap_compose|].
    apply list_elem_of_In, in_map_iff. by exists b.
  - intros k [l L]. apply elem_of_list_to_map_2, list_elem_of_In, in_map_iff in L as (b & [= <- <-] & Hb). by apply in_map.
  - intros b Hb. split; [by intros ?%elem_of_empty|by intros (? & ? & [] & _)].
Qed.

Lemma wp_ReconcileQueuedJobs : wp anyAnswer mayRecord [] (ReconcileQueuedJobs c bindings observedAt jobs) reconciled.
Proof.
  unfold ReconcileQueuedJobs. destruct (_ || _); [by split|].
  destruct (routeJobs _ _ _ _ _) as [err|[observations shared]] eqn:R; [by split|].
  pose proof (routeJobs_spec _ [] _ _ _ _ RoutedSoFar_nil R) as HR. simpl in HR.
  apply wp_bind. eapply wp_mono; [|apply (wp_boundShared c mayRecord mayRecord_reads bindings shared observations []); exact distinct].
  intros h [err|after] [(more & -> & Hro) Hx]; simpl in Hro |- *; [by split|]. destruct Hx as [Hin Hout].
  intros [err|changed] _; (split; [split; [done|split; [done|by eapply recorded_from]]|]).
  - unfold reconciled. simpl. split; [done|]. exists after. by rewrite last_snoc.
  - apply wp_bind. eapply wp_mono; [|apply wp_expireEach; [apply incl_refl|done|]].
    + intros h' [expired err] Hp. unfold reconciled. simpl. by destruct err.
    + exists after, changed. apply in_or_app. right. by left.
Qed.

End Routing.

(** ** A broker message *)

Section Ingest.
Variables (c : DemandCoordinator) (b : Binding) (message : BrokerMessage).
Abbreviation own := (ownEvents b (bm_Events message)).
Abbreviation theBatch := (Batch (durableKey b) (bm_MessageID message) own).

Definition accepted (ev : Event QueueCall) : bool :=
  match ev with Ev (Batch _ _ _) (inr _) => true | _ => false end.

Definition projectionOf (ev : Event QueueCall) : option DemandEvent :=
  match ev with Ev (Project _ e) _ => Some e | _ => None end.

(** The statistics come first, then the events of this binding as one batch, and
    a projection only of an event that batch has made durable. *)
Definition mayIngest (h : QueueCalls) (ev : Event QueueCall) : Prop :=
  match ev with
  | Ev QueueNow _ => h = []
  | Ev (PutStatistics k s) _ => k = durableKey b /\
      exists now, h = [Ev QueueNow now] /\ s = observedStatistics (bm_Statistics message) now
  | Ev (Batch k m events) _ => k = durableKey b /\ m = bm_MessageID message /\ events = own /\ omap projectionOf h = [] /\
      (0 < stat_MessageID (bm_Statistics message) ->
       exists s changed, In (Ev (PutStatistics (durableKey b) s) (inr changed)) h)
  | Ev (Project k e) _ => k = durableKey b /\ In e own /\ exists batch, In (Ev theBatch (inr batch)) h
  | _ => False
  end.

(** Every event of an accepted batch was projected once, in order, whatever
    became of its neighbours; without an error every projection succeeded. *)
Definition ingested (h : QueueCalls) (r : bool * list StoreError) : Prop :=
  (fst r = true -> (exists s, In (Ev (PutStatistics (durableKey b) s) (inr true)) h) \/
                   exists batch, In (Ev theBatch (inr batch)) h /\ Applied batch = true) /\
  ((exists batch, In (Ev theBatch (inr batch)) h) -> omap projectionOf h = own) /\
  (snd r = [] -> (exists batch, In (Ev theBatch (inr batch)) h) /\
     forall e, In e own -> In (Ev (Project (durableKey b) e) None) h).

Lemma wp_projectEach events : forall h done_ errors,
  done_ ++ events = own -> omap projectionOf h = done_ -> (exists batch, In (Ev theBatch (inr batch)) h) ->
  (errors = [] -> forall e, In e done_ -> In (Ev (Project (durableKey b) e) None) h) ->
  wp anyAnswer mayIngest h (projectEach (durableKey b) events errors)
    (fun h' errors' => incl h h' /\ omap projectionOf h' = own /\
       (errors' = [] -> forall e, In e own -> In (Ev (Project (durableKey b) e) None) h')).
Proof.
  induction events as [|e events IH]; intros h done_ errors Hd Hp (batch & Hb) Hok; cbn [projectEach].
  { rewrite app_nil_r in Hd. subst done_. split; [apply incl_refl|]. split; [congruence|].
    intros He e Hin. apply Hok; congruence. }
  cbn -[app]. intros answer _. split.
  { split; [done|]. split; [rewrite <- Hd; apply in_or_app; right; by left|by exists batch]. }
  eapply wp_mono; [|apply (IH _ (done_ ++ [e]))].
  - intros h' errors' (Hi & Hx). split; [|done]. intros ev Hev. apply Hi, in_or_app. by left.
  - by rewrite <- app_assoc.
  - rewrite omap_app. simpl. by rewrite Hp.
  - exists batch. apply in_or_app. by left.
  - intros He e' [Hin|[<-|[]]]%in_app_or; apply in_or_app.
    + left. apply Hok; [|done]. by destruct answer; [destruct errors|].
    + right. left. destruct answer; [by destruct errors|done].
Qed.

Lemma wp_applyMessage h changed :
  omap projectionOf h = [] -> (forall batch, ~ In (Ev theBatch (inr batch)) h) ->
  (0 < stat_MessageID (bm_Statistics message) -> exists s put, In (Ev (PutStatistics (durableKey b) s) (inr put)) h) ->
  (changed = true -> exists s, In (Ev (PutStatistics (durableKey b) s) (inr true)) h) ->
  wp anyAnswer mayIngest h (applyMessage b message changed) ingested.
Proof.
  intros Hp Hno Hst Hch. unfold applyMessage. cbn -[app ownEvents]. intros [err|batch] _; (split; [done|]).
  - split; [|split; [|done]].
    + simpl. intros ->. left. destruct (Hch eq_refl) as [s Hs]. exists s. apply in_or_app. by left.
    + intros [batch [Hb|[Hb|[]]]%in_app_or]; [by destruct (Hno batch)|by apply (f_equal accepted) in Hb].
  - apply wp_bind. eapply wp_mono; [|apply (wp_projectEach own _ [] [])].
    + intros h' errors (Hi & Ho & Hok). assert (In (Ev theBatch (inr batch)) h') as Hb by (apply Hi, in_or_app; right; by left).
      split; [|split; [done|]].
      * simpl. intros [->|Ha]%orb_true_iff; [left|right; by exists batch].
        destruct (Hch eq_refl) as [s Hs]. exists s. apply Hi, in_or_app. by left.
      * simpl. intros ->. split; [by exists batch|by apply Hok].
    + done.
    + rewrite omap_app. simpl. by rewrite Hp.
    + exists batch. apply in_or_app. right. by left.
    + by intros _ ? [].
Qed.

Lemma wp_ingest : wp anyAnswer mayIngest [] (ingest c b message) ingested.
Proof.
  unfold ingest. destruct (Z.ltb_spec 0 (stat_MessageID (bm_Statistics message))) as [Hs|Hs].
  - cbn -[app applyMessage]. intros now _. split; [done|]. intros [err|changed] _; (split; [by split; [|exists now]|]).
    + split; [done|]. split; [|done]. intros [batch Hb]. by destruct Hb as [Hb|[Hb|[]]]; apply (f_equal accepted) in Hb.
    + apply wp_applyMessage; [done| | |].
      * intros batch Hb. by destruct Hb as [Hb|[Hb|[]]]; apply (f_equal accepted) in Hb.
      * intros _. eexists _, changed. right. by left.
      * intros ->. eexists. right. by left.
  - apply wp_applyMessage; [done|by intros ? []|lia|done].
Qed.

End Ingest.

(** ** The claims *)

(** The queue of a binding is what the broker vouches for.  Reading it writes
    nothing.  A successful read holds, of every logical job with an actionable
    request, its newest request and no other, oldest job first; of the requests
    GitHub offered it admits exactly the oldest as many as the statistics call
    available, and of those assigned in advance the oldest as many as are
    assigned and not running.  Without current statistics the whole queue is
    reported as degraded, and an error names a failed read or an incomplete row. *)
Theorem queue_is_what_the_broker_vouches_for (env : Env QueueCall) c b :
  queueRead c b (fst (run env [] (QueuedDemands c b))) (snd (run env [] (QueuedDemands c b))) /\
  Forall readOnly (fst (run env [] (QueuedDemands c b))).
Proof.
  destruct (wp_run anyAnswer (fun _ => readOnly) env _ [] 0 _ ltac:(done) (guardedFrom_refl _ []) (wp_QueuedDemands c b []))
    as [[_ Hr] Hg]. split; [exact Hr|].
  apply Forall_forall. intros ev Hev. apply list_elem_of_In, in_split in Hev as (l1 & l2 & E).
  apply (Hg l1 ev l2 E). lia.
Qed.

(** A REST snapshot is recorded as it was routed, or not at all.  The snapshot
    handed to the store covers exactly the served bindings.  A binding that is
    alone on its labels is recorded with every job it takes; on a shared queue it
    is recorded with every taken job its own durable demand names, and beyond
    these with the oldest others, no more than its current statistics give it.
    Demand is expired only behind a snapshot the store accepted, and a snapshot
    that cannot be routed or bounded changes nothing. *)
Theorem snapshot_is_recorded_as_routed (env : Env QueueCall) c bindings observedAt jobs :
  NoDup (map durableKey bindings) ->
  (forall before ev after, fst (run env [] (ReconcileQueuedJobs c bindings observedAt jobs)) = before ++ ev :: after ->
     mayRecord c bindings observedAt jobs before ev) /\
  reconciled observedAt (fst (run env [] (ReconcileQueuedJobs c bindings observedAt jobs)))
    (snd (run env [] (ReconcileQueuedJobs c bindings observedAt jobs))).
Proof.
  intros Hn.
  destruct (wp_run anyAnswer (mayRecord c bindings observedAt jobs) env _ [] 0 _ ltac:(done) (guardedFrom_refl _ [])
    (wp_ReconcileQueuedJobs c bindings Hn observedAt jobs)) as [Hr Hg].
  split; [|exact Hr]. intros before ev after E. apply (Hg before ev after E). lia.
Qed.

(** A broker message is durable before it is acted on.  Its statistics are
    stored first, then the events of this binding as one batch, and an instance is
    touched only for an event of a batch the store accepted.  Every event of an
    accepted batch is projected once and in order, whatever becomes of its
    neighbours, and the message is acknowledged only when all of it succeeded. *)
Theorem message_is_durable_before_projection (env : Env QueueCall) c b message :
  (forall before ev after, fst (run env [] (ingest c b message)) = before ++ ev :: after -> mayIngest b message before ev) /\
  ingested b message (fst (run env [] (ingest c b message))) (snd (run env [] (ingest c b message))).
Proof.
  destruct (wp_run anyAnswer (mayIngest b message) env _ [] 0 _ ltac:(done) (guardedFrom_refl _ []) (wp_ingest c b message))
    as [Hr Hg].
  split; [|exact Hr]. intros before ev after E. apply (Hg before ev after E). lia.
Qed.

(** ** Two scale sets with the same labels *)

Definition exampleProfile : Profile :=
  {| profile_ID := "xl"; profile_Platform := PlatformLinux; profile_Route := "xl";
     profile_Resources := {| CPU := 4; MemoryMB := 8192; Slots := 1 |}; profile_MaxActive := 0;
     profile_OccupancyBudget := 2 * Hour |}.

Definition exampleBinding (set : Z) : Binding :=
  {| b_StoreKey := 0; b_ScaleSetID := set; b_Scope := "acme"; b_Targets := []; b_ScaleSetLabels := ["xl"];
     b_RequiredLabels := []; b_Profile := exampleProfile; b_SharedLabels := false; b_Capacity := 4 |}.

Definition exampleJob (id : Z) (name : string) : WorkflowJob :=
  {| job_ID := id; job_RunID := 7; job_Owner := "acme"; job_Repository := "app"; job_Name := name; job_Status := "queued";
     job_Labels := ["xl"]; job_RunAttempt := 1; job_CreatedAt := fromNanos (1700000000000000000 + id);
     job_QueueTimeExact := true |}.

Definition exampleCoordinator : DemandCoordinator :=
  {| co_StatisticsMaxAge := 0; co_GhostAbsence := 0; co_StrictJobRouting := true; co_ForeignSelectors := [];
     co_Priority := {| Tiers := [] |} |}.

(** The demand of scale set 1 names job 12; there are no statistics. *)
Definition exampleRecord : DemandRecord :=
  {| dr_ScaleSetID := 1; dr_RunnerRequestID := 5; dr_Status := DemandJobAvailable; dr_Owner := "Acme"; dr_Repository := "App";
     dr_WorkflowRunID := 7; dr_JobID := "j"; dr_DisplayName := "test"; dr_WorkflowRef := ""; dr_LogicalKey := "";
     dr_EventName := "push"; dr_Labels := ["xl"]; dr_QueueTime := fromNanos 1700000000000000000; dr_FirstQueueTime := zeroTime;
     dr_WorkflowJobID := 0; dr_RunAttempt := 0; dr_RunnerID := 0; dr_RunnerName := ""; dr_Result := "";
     dr_UpdatedAt := fromNanos 1700000000000000000 |}.

Definition exampleEnv (X : Set) (h : QueueCalls) (call : QueueCall X) : X :=
  match call in QueueCall X return X with
  | QueueNow => fromNanos 1700000000000000000
  | Active key => inr (if key =? 1 then [exampleRecord] else [])
  | StatisticsOf _ => inl ErrNotFound
  | PutStatistics _ _ => inr true
  | Batch _ _ _ => inl ErrConflict
  | Project _ _ => None
  | PutSnapshot _ _ => inr true
  | ExpireGhosts _ _ => inr 0
  | ExpireOverdue _ _ => inr 0
  | QueuedJobs _ => inr []
  | SweepRunners _ => ([], None)
  end.

Definition exampleReconcile := ReconcileQueuedJobs exampleCoordinator [exampleBinding 1; exampleBinding 2]
  (fromNanos 1700000001000000000) [exampleJob 11 "build"; exampleJob 12 "test"].

Lemma snapshot_is_recorded_as_routed_witness :
  NoDup (map durableKey [exampleBinding 1; exampleBinding 2]) /\
  snd (run exampleEnv [] exampleReconcile) = (true, None) /\
  reconciled (fromNanos 1700000001000000000) (fst (run exampleEnv [] exampleReconcile)) (snd (run exampleEnv [] exampleReconcile)).
Proof.
  split; [apply (bool_decide_unpack _); vm_compute; exact I|]. split; [vm_compute; reflexivity|].
  apply (snapshot_is_recorded_as_routed exampleEnv exampleCoordinator [exampleBinding 1; exampleBinding 2]).
  apply (bool_decide_unpack _). vm_compute. exact I.
Defined.

(** The set whose demand names job 12 keeps it; the other claims nothing. *)
Lemma vouched_job_is_kept :
  existsb (fun ev => match ev with
                     | Ev (PutSnapshot _ m) _ =>
                         bool_decide (map gj_WorkflowJobID (default [] (m !! 1)) = [12]) && bool_decide (map gj_WorkflowJobID <$> m !! 2 = Some [])
                     | _ => false
                     end) (fst (run exampleEnv [] exampleReconcile)) = true.
Proof. vm_compute. reflexivity. Qed.
