(* ===== verification/AdvertiseSpec.v ===== *)
(** * What an advertisement promises GitHub

    A set never advertises more than it holds plus its share of what the node can
    start, except one standing slot while none of its work waits for a guest; and
    all the shares together could start at once. *)

From Stdlib Require Import ZArith Lia String List.
From stdpp Require Import base tactics list gmap strings.
From S2P Require Import Prelude GoStrings Liveness Domain Scheduler Fixture Envelope Recovery Order Admission Passes Lanes PassSpec LaneSpec Headroom.
From S2P Require Import Operations Failure Effects Store Inbox Ports Projection Bindings Queue QueueSpec Advertise.

(** ** The rows of a tick *)

Section Rows.
Variable c : DemandCoordinator.
Variable input : Input.
Variables held_ undelivered : gmap Z Z.

(** A row and its claim are those of one binding. *)
Definition rowOf (bindings : list Binding) (entry : ScaleSetHeadroom * Headroom.Claim) : Prop :=
  exists b broker, In b bindings /\ broker <= maxInt64 /\
    fst entry = headroomRow b input held_ broker /\ snd entry = claimOf b (fst entry) undelivered.

(** GitHub's counts are machine integers. *)
Definition machineCounts (h : list (Event QueueCall)) (ev : Event QueueCall) : Prop :=
  match ev with
  | Ev (StatisticsOf _) (inr s) => stat_Assigned s <= maxInt64
  | _ => True
  end.

(** What [scaleSetHeadroom] returns. *)
Definition headroomOf (bindings : list Binding) (r : option (option (list ScaleSetHeadroom))) : Prop :=
  match r with
  | None => exists claims, PartitionHeadroom input claims = None
  | Some None => True
  | Some (Some sized) => exists rows shares, Forall (rowOf bindings) rows /\
      PartitionHeadroom input (map snd rows) = Some (Some shares) /\ sized = sizedRows rows shares
  end.

Lemma wp_brokerHeld b h :
  wp machineCounts (fun _ => readOnly) h (brokerHeld c b)
    (fun _ r => match r with inr broker => broker <= maxInt64 | inl _ => True end).
Proof.
  unfold brokerHeld. cbn -[app]. intros [[]|s] Hs; (split; [done|]); try done. cbn -[app]. intros now _. split; [done|].
  destruct (currentStatistics c now s); done.
Qed.

Lemma wp_headroomRows bindings all : incl bindings all -> forall h rows, Forall (rowOf all) rows ->
  wp machineCounts (fun _ => readOnly) h (headroomRows c bindings input held_ undelivered rows) (fun _ rows => Forall (rowOf all) rows).
Proof.
  intros Hb. induction bindings as [|b bindings IH]; intros h rows Hr; [done|]. cbn [headroomRows].
  assert (incl bindings all) as Hi by (intros x Hx; apply Hb; by right).
  apply wp_bind. eapply wp_mono; [|apply wp_brokerHeld]. intros h' [err|broker] Hm; apply IH; try done.
  apply Forall_app. split; [done|]. constructor; [|constructor]. exists b, broker. split; [apply Hb; by left|done].
Qed.

Lemma wp_scaleSetHeadroom bindings h :
  wp machineCounts (fun _ => readOnly) h (scaleSetHeadroom c bindings input held_ undelivered) (fun _ r => headroomOf bindings r).
Proof.
  unfold scaleSetHeadroom. destruct (Usable (in_Instances input)); [|done]. cbn [negb]. apply wp_bind.
  eapply wp_mono; [|apply (wp_headroomRows bindings bindings); [apply incl_refl|constructor]].
  intros h' rows Hr. cbn [wp]. destruct (PartitionHeadroom input (map snd rows)) as [[shares|]|] eqn:E; cbn [headroomOf]; eauto.
  exists rows, shares. done.
Qed.

End Rows.

(** ** The standing offer *)

Lemma outlasting_sublist input : outlasting input `sublist_of` instancesOf input.
Proof. apply filter_sublist. Qed.

(** The memory the node's own Linux guests give back does not overflow. *)
Lemma drained_nonneg (credited : Instance_ -> bool) l :
  (forall i, credited i = true -> ConsumesHostResources i = true) -> nonneg_instances l ->
  forall memory, 0 <= memory -> memory + MemoryMB (held l) <= maxInt64 ->
  0 <= fold_left (fun memory i => if credited i then add64 memory (MemoryMB (inst_Resources i)) else memory) l memory.
Proof.
  intros Hc Hl. induction Hl as [|i l Hi Hl IH]; intros memory H0 Hm; [done|]. cbn [fold_left].
  pose proof (heldBy_nonneg ConsumesHostResources l Hl) as (_ & Hn & _). fold (held l) in Hn. simpl in Hn.
  destruct Hi as (_ & Hi & _). simpl in Hi. unfold held, heldBy in Hm. cbn [List.filter] in Hm. specialize (Hc i).
  assert (MemoryMB (held l) = MemoryMB (vsum (map inst_Resources (List.filter ConsumesHostResources l)))) as E by done.
  destruct (credited i).
  - rewrite (Hc eq_refl) in Hm. simpl in Hm.
    rewrite add64_exact by (unfold int64, minInt64, maxInt64 in *; lia). apply IH; lia.
  - apply IH; [done|]. destruct (ConsumesHostResources i); simpl in Hm; lia.
Qed.

Lemma drainedHost_sane input claims : divisible input claims -> sane (drainedHost input) (outlasting input).
Proof.
  intros D. apply (sane_sublist _ _ (instancesOf input)); [apply outlasting_sublist|]. destruct (di_sane _ _ D). by split.
Qed.

(** What a job waits for when it is attracted by the standing offer: everything
    that outlasts the node's Linux work, the queued macOS work, and the job's own
    vector fit the node together. *)
Lemma standing_offer_fits input claims profile definition :
  divisible input claims -> MemoryMB (host_Available (obs_Value (in_Host input))) + MemoryMB (held (instancesOf input)) <= maxInt64 ->
  Profiles (in_Config input) !! profile = Some definition -> profile_Platform definition = PlatformLinux ->
  FitsOnceLinuxDrains input profile = true ->
  accommodates input (outlasting input)
    (vadd (vsum (queuedVectors (in_Config input) (instancesOf input) (snd (partition (normalizedDemands input)))))
       (profile_Resources definition)).
Proof.
  intros D Hm Hp HL HF. unfold FitsOnceLinuxDrains in HF. rewrite Hp, HL in HF. simpl in HF. apply CanFit_spec in HF.
  destruct (di_profiles _ _ D _ _ Hp) as (Hpos & _). pose proof (queued_chargeable _ _ (snd (partition (normalizedDemands input))) D) as Hq.
  pose proof (drainedHost_sane _ _ D) as S.
  assert (chargeable (freeCapacity (drainedHost input) (outlasting input) true)) as Hf.
  { split.
    - apply freeCapacity_nonneg; [done|]. simpl. unfold nonneg, vle. simpl. split; [done|]. split; [|done]. unfold drainedMemory.
      destruct (negb _); [done|]. apply drained_nonneg; [|apply D|lia|].
      + intros i Hc. bool_to_prop. done.
      + pose proof (di_available _ _ D) as (_ & Ha & _). simpl in Ha. lia.
    - pose proof (freeCapacity_le_capacity _ _ true S) as Hle. destruct (sane_held _ _ S) as [_ Hc]. vec. }
  apply (freeCapacity_sound (drainedHost input) (outlasting input) true); [done| |by apply exhausted_fits].
  assert (nonneg (vsum (queuedVectors (in_Config input) (instancesOf input) (snd (partition (normalizedDemands input)))))) as Hn
    by (apply vsum_nonneg; eapply Forall_impl; [exact Hq|]; by intros ? []).
  revert Hpos Hn. unfold positive, nonneg, vle, vadd. simpl. lia.
Qed.

(** ** One advertisement *)

(** Between what the set holds and its configured capacity; beyond its share only
    one slot, and only while none of its work waits for a guest. *)
Lemma advertised_bounds configured row :
  0 <= hr_Placed row <= hr_Held row -> 0 <= hr_Fit row -> 1 <= configured <= maxInt64 ->
  hr_Held row + hr_Fit row <= maxInt64 -> hr_Placed row < maxInt64 ->
  let cap := AdvertisedCapacity configured row true in
  Z.min configured (hr_Held row) <= cap <= configured /\
  (cap <= hr_Held row + hr_Fit row \/
   cap = hr_Placed row + 1 /\ hr_Held row = hr_Placed row /\ hr_Gated row = false /\ hr_Stranded row = false) /\
  (hr_Gated row = false -> hr_Stranded row = false -> Z.min configured (hr_Placed row + 1) <= cap).
Proof.
  intros Hp Hf Hc Hs Hl. unfold AdvertisedCapacity. simpl.
  rewrite !add64_exact by (unfold int64, minInt64, maxInt64 in *; lia).
  destruct (hr_Gated row), (hr_Stranded row); simpl; (split; [lia|]); (split; [|intros; try done; lia]); try (left; lia).
  destruct (Z.le_gt_cases (Z.max 0 (Z.min configured (Z.max (Z.max 0 (hr_Held row) + Z.max 0 (hr_Fit row)) (Z.max 0 (hr_Placed row) + 1))))
    (hr_Held row + hr_Fit row)); [by left|right]. split; [lia|]. split; [lia|done].
Qed.

Lemma viewOf_lookup rows : forall (view : gmap Z ScaleSetHeadroom) key row,
  fold_left (fun view row => <[hr_StoreKey row := row]> view) rows view !! key = Some row ->
  (In row rows /\ hr_StoreKey row = key) \/ view !! key = Some row.
Proof.
  induction rows as [|r rows IH]; intros view key row H; simpl in *; [by right|].
  destruct (IH _ _ _ H) as [[Hin E]|Hv]; [left; auto|].
  destruct (decide (hr_StoreKey r = key)) as [<-|Hne]; [rewrite lookup_insert_eq in Hv; injection Hv as ->; left; auto|].
  rewrite lookup_insert_ne in Hv by done. by right.
Qed.

Lemma sizedRows_In rows : forall shares row, In row (sizedRows rows shares) ->
  exists i entry share, rows !! i = Some entry /\ shares !! i = Some share /\ share <> Unsized /\ row = withFit (fst entry) share.
Proof.
  induction rows as [|[r c] rows IH]; intros [|share shares] row; simpl; try done.
  assert (forall row, In row (sizedRows rows shares) -> exists i entry share0, ((r, c) :: rows) !! i = Some entry /\
    (share :: shares) !! i = Some share0 /\ share0 <> Unsized /\ row = withFit (fst entry) share0) as Hx.
  { intros row' Hr. destruct (IH shares row' Hr) as (i & entry & s & H). by exists (S i), entry, s. }
  destruct (Z.eqb_spec share Unsized) as [E|Hne]; [apply Hx|]. intros [<-|Hr]; [|by apply Hx].
  by exists 0%nat, (r, c), share.
Qed.

Lemma divisible_claims input claims :
  divisible input [] -> (forall i claim, claims !! i = Some claim -> claim_Room claim <= maxInt64) -> divisible input claims.
Proof. intros [] Hr. by split. Qed.

Lemma claimOf_room b row undelivered : claim_Room (claimOf b row undelivered) <= maxInt64.
Proof.
  unfold claimOf. simpl. destruct (0 <? b_Capacity b); [|done]. pose proof (wrap64_int64 (b_Capacity b - hr_Held row)) as H.
  unfold sub64, int64, maxInt64 in *. lia.
Qed.

(** ** The claim *)

Section Advertised.
Variable env : Env QueueCall.
Variables (c : DemandCoordinator) (input : Input) (bindings : list Binding) (held_ undelivered : gmap Z Z).

(** The row the view holds for a binding, and the share it carries. *)
Lemma view_row a sized b row :
  (forall (X : Set) h (call : QueueCall X), machineCounts h (Ev call (env X h call))) -> divisible input [] ->
  List.NoDup (map durableKey bindings) -> In b bindings ->
  snd (run env [] (scaleSetHeadroom c bindings input held_ undelivered)) = Some (Some sized) ->
  ra_headroom (Advertisement_Observe a PlanReady (Some sized) false) !! durableKey b = Some row ->
  exists claims shares i broker,
    divisible input claims /\ PartitionHeadroom input claims = Some (Some shares) /\ broker <= maxInt64 /\
    row = withFit (headroomRow b input held_ broker) (hr_Fit row) /\
    claims !! i = Some (claimOf b (headroomRow b input held_ broker) undelivered) /\ shares !! i = Some (hr_Fit row) /\
    hr_Fit row <> Unsized.
Proof.
  intros Henv D Hnd Hb Hrun Hrow.
  pose proof (proj1 (wp_run machineCounts (fun _ => readOnly) env _ [] 0 _ Henv (guardedFrom_refl _ [])
    (wp_scaleSetHeadroom c input held_ undelivered bindings []))) as Hh. rewrite Hrun in Hh.
  destruct Hh as (rows & shares & Hrows & HP & ->). apply viewOf_lookup in Hrow as [[Hin Hkey]|Hemp]; [|done].
  destruct (sizedRows_In _ _ _ Hin) as (i & [r cl] & share & Hi & Hs & Hu & E). rewrite Forall_lookup in Hrows.
  destruct (Hrows _ _ Hi) as (b' & broker & Hb' & Hbr & Er & Ec). simpl in Er, Ec, E. subst r cl row. simpl in Hkey.
  assert (b' = b) as ->.
  { apply (NoDup_ListNoDup) in Hnd. apply list_elem_of_In, list_elem_of_lookup in Hb' as [x Hx].
    apply list_elem_of_In, list_elem_of_lookup in Hb as [y Hy]. assert (x = y) as ->; [|congruence].
    eapply (NoDup_lookup _ _ _ _ Hnd); rewrite list_lookup_fmap; [by rewrite Hx|rewrite Hy]. simpl. by rewrite Hkey. }
  exists (map snd rows), shares, i, broker. simpl. rewrite list_lookup_fmap, Hi. split_and!; try done.
  apply divisible_claims; [done|]. intros j claim Hj. rewrite list_lookup_fmap in Hj.
  destruct (rows !! j) as [e|] eqn:Ej; [|done]. simpl in Hj. injection Hj as <-.
  destruct (Hrows _ _ Ej) as (bj & brj & _ & _ & _ & ->). apply claimOf_room.
Qed.


End Advertised.

(** ** A busy node with one set *)

Definition oneSet : Binding :=
  {| b_StoreKey := 0; b_ScaleSetID := 4; b_Scope := "acme"; b_Targets := []; b_ScaleSetLabels := ["small"];
     b_RequiredLabels := []; b_Profile := Node.profile "small" PlatformLinux (Node.vec 2 2048 1) 0;
     b_SharedLabels := false; b_Capacity := 6 |}.

(** GitHub has told nothing about the set. *)
Definition silentBroker (X : Set) (h : list (Event QueueCall)) (call : QueueCall X) : X :=
  match call in QueueCall X return X with
  | QueueNow => Offers.instant
  | Active _ => inr []
  | StatisticsOf _ => inl ErrNotFound
  | PutStatistics _ _ => inr true
  | Batch _ _ _ => inl ErrConflict
  | Project _ _ => None
  | PutSnapshot _ _ => inr true
  | ExpireGhosts _ _ => inr 0
  | ExpireOverdue _ _ => inr 0
  | QueuedJobs _ => inr []
  | SweepRunners _ => ([], None)
  end.

(** One guest runs, one job is queued, and two more instances fit. *)
Definition oneRow : ScaleSetHeadroom :=
  {| hr_StoreKey := 4; hr_Held := 2; hr_Fit := 2; hr_Placed := 1; hr_Gated := true; hr_Stranded := false |}.

