(* ===== verification/Grounding.v ===== *)
(** * From the broker's message to the removal of a runner

    The drain executor asks the router, the router asks the inbox, and the inbox
    holds what the broker reported.  Here the three are put together: the inbox
    behind the router's wires may change between any two questions, as messages,
    snapshots and expiries reach it. *)

From Stdlib Require Import ZArith Lia String List.
From stdpp Require Import base tactics list gmap strings.
From S2P Require Import Prelude GoStrings Liveness Domain Operations Failure Effects Store Inbox Ledger Demands.
From S2P Require Import Ports Knowledge Drain DrainSpec DrainSafety Router.

#[local] Open Scope prog_scope.

(** A result over the wires: the record, or an error. *)
Definition answered {A : Set} (r : Result A) : option A :=
  match r with inr a => Some a | inl _ => None end.

Section Grounding.
Context `{DemandDigest}.

(** The inbox as it is after each history of the wires, and its own history. *)
Record InboxBehind := {
  inboxAt : list (Event Wire) -> Inbox;
  pastAt : list (Event Wire) -> list (InboxAct * bool);
  inboxFollows : forall h, Follows (pastAt h) (inboxAt h)
}.

(** The two questions of the router that the store answers are read from it. *)
Definition readsInbox (behind : InboxBehind) (env : Env Wire) : Prop :=
  forall h,
    (forall set request, env _ h (ReadDemand set request) = answered (DemandRecord_read (inboxAt behind h) set request)) /\
    (forall set runner, env _ h (RunnerActiveJob set runner) = answered (RunnerActiveJob_read (inboxAt behind h) set runner)).

(** Up to some earlier question the broker had reported the demand's job done. *)
Definition completionReported (behind : InboxBehind) (before : list (Event Wire)) (set request : Z) : Prop :=
  exists earlier later, before = earlier ++ later /\
    In DemandJobCompleted (reported set request (pastAt behind earlier)).

(** At some earlier question no job of the scale set was running on the runner. *)
Definition nothingRunning (behind : InboxBehind) (before : list (Event Wire)) (set : Z) (runner : string) : Prop :=
  exists earlier later, before = earlier ++ later /\
    forall request row, ib_demands (inboxAt behind earlier) !! (set, request) = Some row ->
      d_runnerName row = runner -> d_status row <> DemandJobStarted.

(** Whether a drain of the phase waits for the demand's completion, and whether
    it asks that the runner execute nothing. *)
Definition waitsForCompletion (phase : Z) : bool :=
  negb (derivesInactivityFromRunnerAbsence phase).

Definition asksForIdle (phase : Z) : bool :=
  negb ((phase =? DrainPhaseStoppedRecovery) || (phase =? DrainPhaseInactiveRecovery)
        || (phase =? DrainPhaseGuestUnresponsive) || (phase =? DrainPhaseOccupancyBudget)).

Lemma completed_record_reported ib trace set request rec :
  Follows trace ib -> DemandRecord_read ib set request = inr rec -> dr_Status rec = DemandJobCompleted ->
  In DemandJobCompleted (reported set request trace).
Proof.
  intros Hf. unfold DemandRecord_read. destruct (_ || _); [done|].
  pose proof (follows_furthest _ _ Hf set request) as Hs. unfold statusOf in Hs.
  destruct (ib_demands ib !! _) as [row|]; [|done]. intros [= <-] Hd. simpl in Hd, Hs. rewrite <- Hd. apply Hs.
Qed.

Lemma idle_answer_none_started ib set runner request row :
  RunnerActiveJob_read ib set runner = inr false -> ib_demands ib !! (set, request) = Some row ->
  d_runnerName row = runner -> d_status row <> DemandJobStarted.
Proof.
  unfold RunnerActiveJob_read. destruct (_ || _); [done|]. intros [= Hx] L Hn Hs.
  apply not_true_iff_false in Hx. apply Hx, existsb_exists. exists ((set, request), row). split.
  - by apply list_elem_of_In, elem_of_map_to_list.
  - unfold startedOn. simpl. by rewrite Z.eqb_refl, bool_decide_eq_true_2, Hs.
Qed.

Section Run.
Variable behind : InboxBehind.
Variable env : Env Wire.
Hypothesis reads : readsInbox behind env.
Variables (r : ControlRouter) (A : Set) (p : Prog Wire A).

Lemma wires_completed before after row :
  fst (run env [] p) = before ++ after -> demandCompleted r before row ->
  exists b, binding r row = Some b /\ completionReported behind before (StoreKey b) (key_JobID (row_Demand row)).
Proof.
  intros Hr (b & rec & Hb & Hin & Hs). exists b. split; [done|].
  apply in_split in Hin as (earlier & later & ->). rewrite <- app_assoc in Hr. simpl in Hr.
  apply run_answered in Hr. simpl in Hr. rewrite (proj1 (reads earlier)) in Hr.
  exists earlier, (Ev (ReadDemand (StoreKey b) (key_JobID (row_Demand row))) (Some rec) :: later).
  split; [done|].
  destruct (DemandRecord_read _ _ _) as [|rec'] eqn:E; [done|]. injection Hr as <-.
  by eapply completed_record_reported; [apply inboxFollows| |].
Qed.

Lemma wires_idle before after row :
  fst (run env [] p) = before ++ after -> runnerIdle r before row ->
  exists b, binding r row = Some b /\ nothingRunning behind before (StoreKey b) (row_ID row).
Proof.
  intros Hr (b & Hb & Hin). exists b. split; [done|].
  apply in_split in Hin as (earlier & later & ->). rewrite <- app_assoc in Hr. simpl in Hr.
  apply run_answered in Hr. simpl in Hr. rewrite (proj2 (reads earlier)) in Hr.
  exists earlier, (Ev (RunnerActiveJob (StoreKey b) (row_ID row)) (Some false) :: later). split; [done|].
  destruct (RunnerActiveJob_read _ _ _) as [|busy] eqn:E; [done|]. injection Hr as <-.
  intros request row'. by apply idle_answer_none_started.
Qed.

End Run.

Lemma premise_completion r h row :
  wirePremise r h row -> waitsForCompletion (row_DrainPhase row) = true -> demandCompleted r h row.
Proof.
  unfold wirePremise, waitsForCompletion, derivesInactivityFromRunnerAbsence. intros Hp Hw.
  apply negb_true_iff in Hw. rewrite !orb_false_iff in Hw. destruct Hw as (((((H0 & H1) & H2) & H3) & H4) & H5).
  cbv zeta in Hp. rewrite H0, H1, H2, H3, H4, H5 in Hp. simpl in Hp. destruct (_ =? DrainPhaseInactiveRecovery); apply Hp.
Qed.

Lemma premise_idle r h row :
  wirePremise r h row -> asksForIdle (row_DrainPhase row) = true -> runnerIdle r h row.
Proof.
  unfold wirePremise, asksForIdle. intros Hp Hw.
  apply negb_true_iff in Hw. rewrite !orb_false_iff in Hw. destruct Hw as (((Ha & Hb) & H1) & H2).
  cbv zeta in Hp. rewrite Ha, Hb, H1, H2 in Hp. destruct (_ || _); [apply Hp|]. destruct (_ =? DrainPhaseProvisionStalled); apply Hp.
Qed.


End Grounding.

(** ** The three together at work *)

(** One message reports the job of the drained instance completed. *)
Definition completionActs : list (InboxAct * bool) := [(ActBatch midday 5 1 [completion], true)].

Definition completedInbox : Inbox :=
  match perform (H := plainDigest) (ActBatch midday 5 1 [completion]) emptyInbox with
  | inr (ib, _) => ib
  | inl _ => emptyInbox
  end.

Lemma completedInbox_follows : Follows (H := plainDigest) completionActs completedInbox.
Proof. apply (follows_act _ emptyInbox); [apply follows_nil|exact I|vm_compute; reflexivity]. Qed.

Definition completedBehind : InboxBehind (H := plainDigest) :=
  {| inboxAt _ := completedInbox; pastAt _ := completionActs; inboxFollows _ := completedInbox_follows |}.

Definition inboxWires : Env Wire := fun X h w =>
  match w in Wire X return X with
  | ReadDemand set request => answered (DemandRecord_read completedInbox set request)
  | RunnerActiveJob set runner => answered (RunnerActiveJob_read completedInbox set runner)
  | w => quietWires _ h w
  end.

