(* ===== verification/Outbox.v ===== *)
(** * The transition system of the store

    Every transaction of the store that changes rows is a step of one transition
    system.  Its invariant holds in every database reachable from the empty one;
    beside it stands what no transaction undoes: completed operations, recorded
    effects, discharged rows and what was left waiting for them. *)

From Stdlib Require Import ZArith Lia String Permutation Sorted.
From stdpp Require Import base tactics list gmap strings relations.
From S2P Require Import Prelude GoStrings Liveness Domain Operations Failure Store.

Section Outbox.
Context `{PlanDigest} `{CleanupIdentity}.

(** ** The transition system *)

Inductive DbStep : Db -> Db -> Prop :=
| step_apply db plan db' b : ApplyPlan db plan = inr (db', b) -> DbStep db db'
| step_create clock db i db' : CreateInstance clock db i = inr db' -> DbStep db db'
| step_reseed db : DbStep db (ReseedSchedulerState db)
| step_advance clock db c db' row : Advance clock db c = inr (db', row) -> DbStep db db'
| step_transition clock db t db' row : Transition clock db t = inr (db', row) -> DbStep db db'
| step_claim db owner limit now leaseFor db' ops :
    Claim db owner limit now leaseFor = inr (db', ops) -> DbStep db db'
| step_renew db id owner now leaseFor db' : RenewOperation db id owner now leaseFor = inr db' -> DbStep db db'
| step_complete db id owner effect now db' b : Complete db id owner effect now = inr (db', b) -> DbStep db db'
| step_retry clock db id owner msg available dead db' :
    Retry clock db id owner msg available dead = inr db' -> DbStep db db'
| step_recover db now : DbStep db (fst (RecoverExpired db now))
| step_discharge db d db' out : DischargeDeadLetter db d = inr (db', out) -> DbStep db db'
| step_resume db id resource stopped at_ db' : ResumeCleanup db id resource stopped at_ = inr db' -> DbStep db db'
| step_acquire db name owner now ttl db' lease : AcquireLease db name owner now ttl = inr (db', lease) -> DbStep db db'
| step_renew_lease db lease now ttl db' lease' : RenewLease db lease now ttl = inr (db', lease') -> DbStep db db'
| step_release db lease db' : ReleaseLease db lease = inr db' -> DbStep db db'
| step_own db resource o db' : PutOwnership db resource o = inr db' -> DbStep db db'
| step_bind db current repo demand now db' : bindInstance db current repo demand now = inr db' -> DbStep db db'
| step_swap db source target now db' : swapInstances db source target now = inr db' -> DbStep db db'.

Definition Reachable (db : Db) : Prop := rtc DbStep emptyDb db.

(** ** The invariant *)

Definition ran (s : OperationStatus) : Prop := s = OperationClaimed \/ s = OperationCompleted.

Definition prerequisitesDone (db : Db) (id : string) : Prop :=
  forall d, (id, d) ∈ db_dependencies db -> statusOf db d = Some OperationCompleted.

(** A lease is held exactly while claimed. *)
Definition leaseConsistent (row : OpRow) : Prop :=
  o_status row = OperationClaimed <-> o_owner row <> "".

Definition legalMove (h : HistoryRow) : Prop :=
  CanTransitionTo (h_from h) (h_to h) = true \/ (reapable (h_from h) = true /\ h_to h = InstanceDeleted).

Record Consistent (db : Db) : Prop := {
  con_deps : forall o d, (o, d) ∈ db_dependencies db ->
    is_Some (db_operations db !! o) /\ is_Some (db_operations db !! d);
  con_keys : forall i j ri rj, db_operations db !! i = Some ri -> db_operations db !! j = Some rj ->
    o_key ri = o_key rj -> i = j;
  con_order : forall id row, db_operations db !! id = Some row -> ran (o_status row) ->
    prerequisitesDone db id;
  con_effects : forall k id, db_effects db !! k = Some id ->
    exists row, db_operations db !! id = Some row /\ o_effect row = k /\ o_status row = OperationCompleted;
  con_lease : forall id row, db_operations db !! id = Some row -> leaseConsistent row;
  con_ids : forall id row, db_instances db !! id = Some row -> row_ID row = id /\ ValidState (row_State row) = true;
  con_history : Forall legalMove (db_history db)
}.

(** How one transaction may change one operation row. *)
Record rowStep (db : Db) (id : string) (row row' : OpRow) : Prop := {
  rs_key : o_key row' = o_key row;
  rs_effect : o_effect row' = o_effect row;
  rs_done : o_status row = OperationCompleted -> o_status row' = OperationCompleted;
  rs_ran : ran (o_status row') -> ran (o_status row) \/ prerequisitesDone db id;
  rs_lease : leaseConsistent row'
}.

Definition evolves (db : Db) (ops' : gmap string OpRow) : Prop :=
  forall id, match db_operations db !! id, ops' !! id with
             | Some row, Some row' => rowStep db id row row'
             | None, None => True
             | _, _ => False
             end.

Lemma evolves_Some db ops' id row' :
  evolves db ops' -> ops' !! id = Some row' ->
  exists row, db_operations db !! id = Some row /\ rowStep db id row row'.
Proof. intros E Hr. specialize (E id). rewrite Hr in E. destruct (db_operations db !! id); [eauto|done]. Qed.

Lemma evolves_status db ops' id :
  evolves db ops' -> statusOf db id = Some OperationCompleted ->
  statusOf (setOperations db ops') id = Some OperationCompleted.
Proof.
  intros E. unfold statusOf. simpl. specialize (E id). destruct (db_operations db !! id), (ops' !! id); try done.
  simpl. intros [= Hs]. f_equal. by apply E.
Qed.

Lemma evolves_consistent db ops' :
  Consistent db -> evolves db ops' -> Consistent (setOperations db ops').
Proof.
  intros C E. split; simpl.
  - intros o d Hd. destruct (con_deps _ C o d Hd) as [[ro Ho] [rd Hd']].
    pose proof (E o) as Eo. pose proof (E d) as Ed. rewrite Ho in Eo. rewrite Hd' in Ed.
    destruct (ops' !! o); [|done]. destruct (ops' !! d); [|done]. split; by eexists.
  - intros i j ri rj Hi Hj Hk. destruct (evolves_Some _ _ _ _ E Hi) as (ri0 & Hi0 & Si).
    destruct (evolves_Some _ _ _ _ E Hj) as (rj0 & Hj0 & Sj).
    rewrite (rs_key _ _ _ _ Si), (rs_key _ _ _ _ Sj) in Hk. by eapply (con_keys _ C).
  - intros id row Hr Hran d Hd. simpl in Hd. destruct (evolves_Some _ _ _ _ E Hr) as (row0 & Hr0 & S0).
    apply evolves_status; [done|].
    destruct (rs_ran _ _ _ _ S0 Hran) as [Hran0|Hp]; [|by apply Hp]. by eapply (con_order _ C).
  - intros k id Hk. destruct (con_effects _ C k id Hk) as (row & Hr & He & Hs).
    specialize (E id). rewrite Hr in E. destruct (ops' !! id) as [row'|]; [|done].
    exists row'. split; [done|]. rewrite (rs_effect _ _ _ _ E). split; [done|]. by apply E.
  - intros id row Hr. destruct (evolves_Some _ _ _ _ E Hr) as (row0 & _ & S0). apply S0.
  - apply C.
  - apply C.
Qed.

Lemma rowStep_refl db id row : Consistent db -> db_operations db !! id = Some row -> rowStep db id row row.
Proof. intros C Hr. split; try done; [by left|]. by eapply (con_lease _ C). Qed.

Lemma evolves_insert db id row row' :
  Consistent db -> db_operations db !! id = Some row -> rowStep db id row row' ->
  evolves db (<[id := row']> (db_operations db)).
Proof.
  intros C Hr S j. destruct (decide (j = id)) as [->|Hne].
  - by rewrite Hr, lookup_insert_eq.
  - rewrite lookup_insert_ne by done. destruct (db_operations db !! j) eqn:E; [|done]. by apply rowStep_refl.
Qed.

Lemma update_consistent db id row row' :
  Consistent db -> db_operations db !! id = Some row -> rowStep db id row row' ->
  Consistent (setOperations db (<[id := row']> (db_operations db))).
Proof. intros. apply evolves_consistent; [done|]. by eapply evolves_insert. Qed.

(** ** Insertions *)

Lemma insertRow_inr db id row db' :
  insertRow db id row = inr db' ->
  db_operations db !! id = None /\
  (forall j rj, db_operations db !! j = Some rj -> o_key rj <> o_key row) /\
  db' = setOperations db (<[id := row]> (db_operations db)).
Proof.
  unfold insertRow. destruct (db_operations db !! id) eqn:E; [done|].
  destruct (keyTaken db (o_key row)) eqn:K; [done|]. intros [= <-]. split; [done|]. split; [|done].
  intros j rj Hj Hk. enough (keyTaken db (o_key row) = true) by congruence.
  apply existsb_exists. exists (j, rj). split; [by apply list_elem_of_In, elem_of_map_to_list|].
  by apply bool_decide_eq_true.
Qed.

Lemma insert_consistent db id row db' :
  Consistent db -> insertRow db id row = inr db' -> o_status row = OperationPending -> o_owner row = "" ->
  Consistent db'.
Proof.
  intros C Hi Hs Ho. apply insertRow_inr in Hi as (Hn & Hk & ->).
  assert (forall j r, <[id:=row]> (db_operations db) !! j = Some r ->
    (j = id /\ r = row) \/ (j <> id /\ db_operations db !! j = Some r)) as Hl.
  { intros j r. destruct (decide (j = id)) as [->|Hne];
      [rewrite lookup_insert_eq; intros [= <-]; by left|rewrite lookup_insert_ne by done; by right]. }
  assert (forall j s, statusOf db j = Some s -> statusOf (setOperations db (<[id:=row]> (db_operations db))) j = Some s) as Hst.
  { intros j s. unfold statusOf. simpl. destruct (decide (j = id)) as [->|Hne]; [by rewrite Hn|by rewrite lookup_insert_ne]. }
  split; simpl.
  - intros o d Hd. destruct (con_deps _ C o d Hd) as [[ro Hro] [rd Hrd]].
    rewrite !lookup_insert_ne by congruence. split; by eexists.
  - intros i j ri rj Hi Hj E. destruct (Hl _ _ Hi) as [[-> ->]|[Hi' Hi0]], (Hl _ _ Hj) as [[-> ->]|[Hj' Hj0]].
    + done.
    + destruct (Hk _ _ Hj0). done.
    + destruct (Hk _ _ Hi0). done.
    + by eapply (con_keys _ C).
  - intros j r Hj Hran d Hd. simpl in Hd. destruct (Hl _ _ Hj) as [[-> ->]|[Hne Hj0]].
    + destruct (con_deps _ C _ _ Hd) as [[? ?] _]. congruence.
    + apply Hst. by eapply (con_order _ C).
  - intros k j Hj. destruct (con_effects _ C k j Hj) as (r & Hr & Hrest). exists r.
    rewrite lookup_insert_ne by congruence. done.
  - intros j r Hj. destruct (Hl _ _ Hj) as [[-> ->]|[_ Hj0]]; [|by eapply (con_lease _ C)].
    unfold leaseConsistent. rewrite Hs, Ho. split; [done|]. intros []. done.
  - apply C.
  - apply C.
Qed.

Lemma recordDependencies_consistent db id deps db' :
  Consistent db -> (exists row, db_operations db !! id = Some row /\ ~ ran (o_status row)) ->
  recordDependencies db id deps = inr db' ->
  Consistent db' /\ db_operations db' = db_operations db.
Proof.
  revert db. induction deps as [|d deps IH]; intros db C Hid; simpl; [by intros [= <-]|].
  destruct (db_operations db !! d) as [rd|] eqn:Ed; [|done].
  destruct (bool_decide _); [done|]. intros Hr.
  apply IH in Hr as [C' E]; [by split| |done]. clear IH Hr. destruct Hid as (row & Hrow & Hnr).
  split; simpl; try apply C.
  - intros o d' Hd'. apply elem_of_union in Hd' as [Hd'|Hd']; [|by apply (con_deps _ C)].
    apply elem_of_singleton in Hd'. injection Hd' as -> ->. split; by eexists.
  - intros j r Hj Hran d' Hd'. simpl in Hd'. apply elem_of_union in Hd' as [Hd'|Hd'].
    + apply elem_of_singleton in Hd'. injection Hd' as -> ->. congruence.
    + by eapply (con_order _ C).
Qed.

Lemma eachOf_ind {A} (P : Db -> Prop) (step : Db -> A -> Result Db) l db db' :
  P db -> (forall x d d', In x l -> P d -> step d x = inr d' -> P d') ->
  eachOf step l db = inr db' -> P db'.
Proof.
  revert db. induction l as [|x l IH]; intros db HP Hstep; simpl; [by intros [= <-]|].
  destruct (step db x) as [e|d] eqn:E; simpl; [done|]. apply IH.
  - eapply Hstep; [by left|done|done].
  - intros y d1 d2 Hy. apply Hstep. by right.
Qed.

(** Inserting the operations of a plan: they are pending afterwards. *)
Lemma insertOperations_consistent created ops db db' :
  Consistent db -> eachOf (fun d op => insertOperation d op created) ops db = inr db' ->
  Consistent db' /\
  (forall id row, db_operations db !! id = Some row -> db_operations db' !! id = Some row) /\
  (forall op, In op ops -> exists row, db_operations db' !! do_ID op = Some row /\ ~ ran (o_status row)).
Proof.
  revert db. induction ops as [|op ops IH]; intros db C; simpl; [intros [= <-]; by split_and!|].
  destruct (insertOperation db op created) as [e|d] eqn:E; simpl; [done|]. intros Hr.
  pose proof (insert_consistent _ _ _ _ C E eq_refl eq_refl) as Cd.
  apply insertRow_inr in E as (Hn & _ & ->). destruct (IH _ Cd Hr) as (C' & Hp & Hall). split; [done|]. split.
  - intros id row Hid. apply Hp. simpl. by rewrite lookup_insert_ne by congruence.
  - intros op' [<-|Hop]; [|by apply Hall]. eexists. split; [apply Hp; simpl; by rewrite lookup_insert_eq|].
    simpl. by intros [?|?].
Qed.

(** ** Instances *)

Lemma instances_consistent db id row :
  Consistent db -> row_ID row = id -> ValidState (row_State row) = true ->
  Consistent (setInstances db (<[id := row]> (db_instances db))).
Proof.
  intros C Hid Hv. split; simpl; try apply C. intros j r Hj.
  destruct (decide (j = id)) as [->|Hne]; [rewrite lookup_insert_eq in Hj; by injection Hj as <-|].
  rewrite lookup_insert_ne in Hj by done. by eapply (con_ids _ C).
Qed.

Lemma history_consistent db h : Consistent db -> legalMove h -> Consistent (addHistory db h).
Proof.
  intros C Hh. split; simpl; try apply C. apply Forall_app. split; [apply C|by constructor].
Qed.

Lemma insertInstance_consistent db i now db' :
  Consistent db -> ValidState (row_State i) = true -> insertInstance db i now = inr db' -> Consistent db'.
Proof.
  intros C Hv. unfold insertInstance. destruct (db_instances db !! row_ID i); [done|]. intros [= <-].
  by apply instances_consistent.
Qed.

Lemma moveInstance_consistent db id expected version next phase err op now db' row :
  Consistent db -> ValidState next = true -> CanTransitionTo expected next = true ->
  moveInstance db id expected version next phase err op now = inr (db', row) ->
  Consistent db' /\ db_operations db' = db_operations db /\ db_dependencies db' = db_dependencies db.
Proof.
  intros C Hv Ht. unfold moveInstance. destruct (db_instances db !! id) as [cur|] eqn:E; [|done].
  destruct (_ && _); [|done]. intros [= <- <-]. split; [|done].
  destruct (con_ids _ C _ _ E) as [Hid _].
  apply history_consistent; [by apply instances_consistent|by left].
Qed.

(** ** Every transaction preserves the invariant *)

Lemma intentValid_state intent : intentValid intent = true -> ValidState (row_State (intent_Instance intent)) = true.
Proof.
  unfold intentValid. destruct (_ || _ || _ || _) eqn:E; [done|]. intros _.
  apply orb_false_iff in E as [E _]. apply orb_false_iff in E as [E _]. apply orb_false_iff in E as [_ E].
  by apply negb_false_iff in E.
Qed.

Lemma ApplyPlan_consistent db plan db' b :
  Consistent db -> ApplyPlan db plan = inr (db', b) -> Consistent db'.
Proof.
  intros C. unfold ApplyPlan. destruct (DurablePlan_Valid plan) eqn:V; simpl; [|done].
  destruct (db_plans db !! dp_ID plan); [destruct (bool_decide _); [by intros [= <- <-]|done]|].
  destruct (db_scheduler db); [|done]. destruct (negb _); [done|].
  destruct (eachOf (applyIntent _) _ db) as [|db1] eqn:E1; simpl; [done|].
  destruct (eachOf (fun d op => insertOperation d op _) _ db1) as [|db2] eqn:E2; simpl; [done|].
  destruct (eachOf _ (dp_Operations plan) db2) as [|db3] eqn:E3; simpl; [done|]. intros [= <- <-].
  assert (forallb intentValid (dp_Instances plan) = true) as Hi.
  { unfold DurablePlan_Valid in V. apply andb_true_iff in V as [V _]. apply andb_true_iff in V as [V _].
    by apply andb_true_iff in V as [_ V]. }
  rewrite forallb_forall in Hi.
  assert (Consistent db1) as C1.
  { eapply (eachOf_ind Consistent); [exact C| |exact E1]. intros intent d d' Hin Cd.
    pose proof (intentValid_state _ (Hi _ Hin)) as Hv. unfold applyIntent. destruct (_ <? 0).
    { by apply insertInstance_consistent. }
    destruct (db_instances d !! _) as [row|] eqn:Er; [|done]. destruct (_ && _ && _); [|done].
    intros [= <-]. apply instances_consistent; [done| |done]. simpl. by apply (con_ids _ Cd) in Er as [? _]. }
  destruct (insertOperations_consistent _ _ _ _ C1 E2) as (C2 & _ & Hpend).
  assert (Consistent db3 /\ db_operations db3 = db_operations db2) as [C3 _].
  { eapply (eachOf_ind (fun d => Consistent d /\ db_operations d = db_operations db2)); [done| |exact E3].
    intros op d d' Hin [Cd Ed] Hr. apply recordDependencies_consistent in Hr as [Cd' Ed']; [|done|].
    - split; [done|congruence].
    - rewrite Ed. by apply Hpend. }
  split; simpl; apply C3.
Qed.

Lemma released_step db id row s err now :
  o_status row <> OperationCompleted \/ s = OperationCompleted ->
  s <> OperationClaimed -> (s = OperationCompleted -> ran (o_status row)) ->
  rowStep db id row (released row s err now).
Proof.
  intros Hd Hs Hc. split; simpl; try done.
  - intros E. by destruct Hd as [Hd|Hd].
  - intros [?|E]; [done|]. left. by apply Hc.
Qed.

Lemma Advance_consistent clock db c db' row :
  Consistent db -> Advance clock db c = inr (db', row) -> Consistent db'.
Proof.
  intros C. unfold Advance. destruct (stateChangeInvalid c) eqn:V; [done|].
  unfold stateChangeInvalid in V. bool_to_prop.
  destruct (moveInstance _ _ _ _ _ _ _ _ _) as [|[d r]] eqn:E; simpl; [done|].
  apply moveInstance_consistent in E as (Cd & Ed & _); [|done..].
  case_bool_decide; [by intros [= <- <-]|]. unfold settle.
  destruct (db_operations d !! sc_SettlesID c) as [orow|] eqn:Er; simpl; [|done].
  destruct (_ && _ && _) eqn:G; simpl; [|done]. intros [= <- <-]. bool_to_prop.
  eapply update_consistent; [done|exact Er|]. apply released_step; [by right|done|]. intros _. by left.
Qed.

Lemma Transition_consistent clock db t db' row :
  Consistent db -> Transition clock db t = inr (db', row) -> Consistent db'.
Proof.
  intros C. unfold Transition. destruct (_ || _ || _ || _ || _) eqn:V; [done|]. bool_to_prop.
  destruct (operationByKey _ _) as [found|].
  { unfold Instance_read. destruct (db_instances db !! _); simpl; [|done]. destruct (_ || _); [done|].
    by intros [= <- <-]. }
  destruct (moveInstance _ _ _ _ _ _ _ _ _) as [|[d r]] eqn:E; cbn [rbind fst snd]; [done|].
  apply moveInstance_consistent in E as (Cd & _); [|done..].
  destruct (insertRow d _ _) as [|d2] eqn:E2; cbn [rbind]; [done|].
  pose proof (insert_consistent _ _ _ _ Cd E2 eq_refl eq_refl) as C2.
  apply insertRow_inr in E2 as (_ & _ & Hd2).
  destruct (recordDependencies d2 _ _) as [|d3] eqn:E3; cbn [rbind]; [done|]. intros [= <- <-].
  apply recordDependencies_consistent in E3 as [C3 _]; [done|done|].
  rewrite Hd2. simpl. eexists. rewrite lookup_insert_eq. split; [done|]. simpl. by intros [?|?].
Qed.

Lemma propagate_evolves now db :
  Consistent db -> evolves db (db_operations (propagate now db)).
Proof.
  intros C id. unfold propagate. simpl. rewrite map_lookup_imap.
  destruct (db_operations db !! id) as [row|] eqn:E; simpl; [|done].
  destruct (_ && _) eqn:G; [|by apply rowStep_refl]. bool_to_prop.
  apply released_step; [left; congruence|done|done].
Qed.

Lemma leased_step db id row owner until now :
  o_status row <> OperationCompleted -> owner <> "" ->
  (ran (o_status row) \/ prerequisitesDone db id) -> rowStep db id row (leasedBy row owner until now).
Proof.
  intros Hd Ho Hp. split; simpl; done.
Qed.

Lemma claimable_not_done now row : claimable now row = true -> o_status row <> OperationCompleted.
Proof. unfold claimable. intros G E. rewrite E in G. done. Qed.

Lemma evolves_prerequisites db ops' id :
  evolves db ops' -> prerequisitesDone db id -> prerequisitesDone (setOperations db ops') id.
Proof. intros E Hp d Hd. apply evolves_status; [done|]. by apply Hp. Qed.

Lemma claimEach_consistent owner now leaseFor ids db :
  Consistent db -> owner <> "" -> (forall id, In id ids -> prerequisitesDone db id) ->
  Consistent (fst (claimEach owner now leaseFor ids db)).
Proof.
  intros C Ho. revert db C. induction ids as [|id ids IH]; intros db C Hp; simpl; [done|].
  destruct (db_operations db !! id) as [row|] eqn:E; [|apply IH; [done|intros; apply Hp; by right]].
  destruct (claimable now row) eqn:G; [|apply IH; [done|intros; apply Hp; by right]].
  assert (rowStep db id row (leasedBy row owner (UnixNano (TimeAdd now leaseFor)) (UnixNano now))) as S.
  { apply leased_step; [by eapply claimable_not_done|done|]. right. apply Hp. by left. }
  set (db1 := setOperations db _). specialize (IH db1).
  destruct (claimEach owner now leaseFor ids db1) as [db' claimed] eqn:Er. simpl in *. apply IH.
  - by eapply update_consistent.
  - intros j Hj. apply evolves_prerequisites; [by eapply evolves_insert|]. apply Hp. by right.
Qed.

Lemma selected_eligible now limit db id :
  In id (selected now limit db) ->
  exists row, db_operations db !! id = Some row /\ eligible now db (id, row) = true.
Proof.
  unfold selected. intros Hin. apply in_map_iff in Hin as ([j row] & <- & Hin). simpl.
  assert (In (j, row) (sortBy claimOrder (List.filter (eligible now db) (map_to_list (db_operations db))))) as Hs.
  { apply list_elem_of_In. apply list_elem_of_In in Hin. apply (elem_of_take) in Hin as (i & Hi & _).
    by eapply list_elem_of_lookup_2. }
  apply sortBy_in, List.filter_In in Hs as [Hs He]. exists row. split; [|done].
  by apply elem_of_map_to_list, list_elem_of_In.
Qed.

Lemma unblocked_spec db id : unblocked db id = true <-> prerequisitesDone db id.
Proof.
  unfold unblocked. rewrite bool_decide_eq_true. unfold set_Forall, prerequisitesDone. split.
  - intros Hf d Hd. by apply (Hf (id, d)).
  - intros Hp [o d] Hd E. simpl in *. subst o. by apply Hp.
Qed.

Lemma eligible_prerequisites now db id row : eligible now db (id, row) = true -> prerequisitesDone db id.
Proof. unfold eligible. intros He. apply andb_true_iff in He as [_ He]. by apply unblocked_spec. Qed.

Lemma Claim_consistent db owner limit now leaseFor db' ops :
  Consistent db -> Claim db owner limit now leaseFor = inr (db', ops) -> Consistent db'.
Proof.
  intros C. unfold Claim. destruct (_ || _ || _) eqn:V; [done|]. bool_to_prop.
  intros [= Hc]. set (db1 := propagate now db) in *.
  assert (Consistent db1) as C1 by (apply evolves_consistent; [done|by apply propagate_evolves]).
  pose proof (claimEach_consistent owner now leaseFor (selected now limit db1) db1 C1) as Hcc.
  rewrite Hc in Hcc. apply Hcc; [done|].
  intros id Hid. apply selected_eligible in Hid as (row & _ & He). by eapply eligible_prerequisites.
Qed.

Lemma Complete_consistent db id owner effect now db' b :
  Consistent db -> Complete db id owner effect now = inr (db', b) -> Consistent db'.
Proof.
  intros C. unfold Complete. destruct (db_operations db !! id) as [row|] eqn:E; [|done].
  destruct (negb _) eqn:G1; [done|]. destruct (bool_decide (o_status row = _)); [by intros [= <- <-]|].
  destruct (_ || _) eqn:G2; [done|]. bool_to_prop.
  set (db1 := setOperations db _).
  assert (Consistent db1) as C1.
  { eapply update_consistent; [done|exact E|]. apply released_step; [by right|done|]. intros _. by left. }
  destruct (db_effects db !! effect) eqn:Ee; intros [= <- <-]; [done|].
  split; simpl; try apply C1. intros k j. destruct (decide (k = effect)) as [->|Hne].
  - rewrite lookup_insert_eq. intros [= <-]. eexists. rewrite lookup_insert_eq. by split_and!.
  - rewrite lookup_insert_ne by done. apply (con_effects _ C1).
Qed.

Lemma Retry_consistent clock db id owner msg available dead db' :
  Consistent db -> Retry clock db id owner msg available dead = inr db' -> Consistent db'.
Proof.
  intros C. unfold Retry. destruct (db_operations db !! id) as [row|] eqn:E; [|done].
  destruct (_ && _) eqn:G; [|done]. bool_to_prop. intros [= <-].
  eapply update_consistent; [done|exact E|]. split; simpl; try done; [congruence|..].
  - by destruct dead; intros [?|?].
  - by destruct dead.
Qed.

Lemma RenewOperation_consistent db id owner now leaseFor db' :
  Consistent db -> RenewOperation db id owner now leaseFor = inr db' -> Consistent db'.
Proof.
  intros C. unfold RenewOperation. destruct (_ || _ || _) eqn:V; [done|].
  destruct (db_operations db !! id) as [row|] eqn:E; [|done].
  destruct (_ && _ && _) eqn:G; [|done]. bool_to_prop. intros [= <-].
  eapply update_consistent; [done|exact E|]. apply leased_step; [congruence|done|]. left. by left.
Qed.

Lemma RecoverExpired_consistent db now : Consistent db -> Consistent (fst (RecoverExpired db now)).
Proof.
  intros C. unfold RecoverExpired. cbn [fst]. apply evolves_consistent; [done|].
  intros id. rewrite lookup_fmap. destruct (db_operations db !! id) as [row|] eqn:E; simpl; [|done].
  unfold expiredClaim. destruct (_ && _) eqn:G; [|by apply rowStep_refl]. bool_to_prop.
  apply released_step; [left; congruence|done|done].
Qed.

Lemma reapInstance_consistent db row now db' :
  Consistent db -> db_instances db !! row_ID row = Some row ->
  reapInstance db row now = inr db' -> Consistent db'.
Proof.
  intros C E. unfold reapInstance. rewrite E. destruct (_ && _) eqn:G; [|done]. bool_to_prop. intros [= <-].
  apply history_consistent; [by apply instances_consistent|by right].
Qed.

Lemma DischargeDeadLetter_consistent db d db' out :
  Consistent db -> DischargeDeadLetter db d = inr (db', out) -> Consistent db'.
Proof.
  intros C. unfold DischargeDeadLetter. destruct (negb (Discharge_Valid d)); [done|].
  destruct (db_operations db !! dis_OperationID d) as [row|] eqn:E; [|done].
  destruct (negb (bool_decide _)); [done|]. destruct (_ && _) eqn:G; [done|].
  destruct (progressing _ _); [done|].
  set (db1 := if bool_decide _ then _ else db).
  assert (Consistent db1) as C1.
  { subst db1. case_bool_decide; [|done]. eapply update_consistent; [done|exact E|].
    apply released_step; [left; congruence|done|done]. }
  unfold Instance_read. destruct (db_instances db1 !! dis_InstanceID d) as [i|] eqn:Ei; cbn [rbind]; [|done].
  destruct (dis_ReapInstance d && _); [|by intros Hx; injection Hx as <- <-].
  destruct (reapInstance db1 i _) as [|db2] eqn:Er; cbn [rbind]; [done|]. intros [= <- <-].
  destruct (con_ids _ C1 _ _ Ei) as [Hid _]. eapply reapInstance_consistent; [done| |exact Er]. by rewrite Hid.
Qed.

(** Dependencies may be rewritten for operations that have not run. *)
Lemma repoint_consistent db id next row :
  Consistent db -> db_operations db !! next = Some row -> Consistent (setDependencies db (repoint db id next)).
Proof.
  intros C Hn.
  assert (forall o d, (o, d) ∈ repoint db id next ->
    (o, d) ∈ db_dependencies db \/
    (d = next /\ is_Some (db_operations db !! o) /\ statusOf db o = Some OperationPending)) as Hr.
  { intros o d Hd. apply elem_of_map in Hd as ([o' d'] & E & Hin). simpl in E.
    destruct (_ && _) eqn:G; [|left; by injection E as -> ->]. bool_to_prop. injection E as -> ->.
    right. split; [done|]. split; [by apply (con_deps _ C) in Hin as [? _]|done]. }
  split; simpl; try apply C.
  - intros o d Hd. destruct (Hr o d Hd) as [Hd'|(-> & Ho & _)]; [by apply (con_deps _ C)|].
    split; [done|]. by eexists.
  - intros o r Ho Hran d Hd. simpl in Hd. destruct (Hr o d Hd) as [Hd'|(_ & _ & Hp)]; [by eapply (con_order _ C)|].
    unfold statusOf in Hp. rewrite Ho in Hp. injection Hp as Hp. rewrite Hp in Hran. by destruct Hran.
Qed.

Lemma ResumeCleanup_consistent db id resource stopped at_ db' :
  Consistent db -> ResumeCleanup db id resource stopped at_ = inr db' -> Consistent db'.
Proof.
  intros C HR. unfold ResumeCleanup in HR. refuse HR.
  destruct (db_operations db !! id) as [old|] eqn:E; [|done]. refuse HR.
  destruct (bool_decide (o_status old = OperationDischarged)); [by injection HR as <-|].
  refuse HR. refuse HR. unfold Instance_read in HR.
  destruct (db_instances db !! resource) as [i|] eqn:Ei; cbn [rbind] in HR; [|done].
  refuse HR. refuse HR. refuse HR.
  destruct (insertRow db _ _) as [|db1] eqn:E1; cbn [rbind] in HR; [done|].
  match goal with G : negb (bool_decide (o_status old = OperationDead)) = false |- _ =>
    apply negb_false_iff, bool_decide_eq_true_1 in G end.
  pose proof (insert_consistent _ _ _ _ C E1 eq_refl eq_refl) as C1.
  apply insertRow_inr in E1 as (Hn & _ & Hd1).
  assert (db_operations db1 !! id = Some old) as E'
    by (rewrite Hd1; simpl; by rewrite lookup_insert_ne by congruence).
  assert (exists r, db_operations db1 !! recoveryID id = Some r) as [r Hr]
    by (eexists; rewrite Hd1; simpl; by rewrite lookup_insert_eq).
  pose proof (repoint_consistent db1 id (recoveryID id) r C1 Hr) as C2.
  set (db2 := setDependencies db1 _) in *.
  set (db3 := setOperations db2 (<[id := superseded old (UnixNano at_)]> (db_operations db2))) in *.
  assert (Consistent db3) as C3.
  { eapply update_consistent; [done|exact E'|]. pose proof (con_lease _ C1 _ _ E') as Hl.
    unfold leaseConsistent in Hl. split; simpl; try done; [congruence|by intros [?|?]|].
    unfold leaseConsistent. simpl. split; [done|]. intros Ho. apply Hl in Ho. congruence. }
  injection HR as <-. destruct (stopped && _); [|exact C3].
  assert (db_instances db3 !! resource = Some i) as Ei3 by (subst db3 db2; simpl; by rewrite Hd1).
  destruct (con_ids _ C3 _ _ Ei3) as [Hid Hv]. by apply (instances_consistent db3).
Qed.

Lemma side_consistent db db' :
  Consistent db -> db_operations db' = db_operations db -> db_dependencies db' = db_dependencies db ->
  db_effects db' = db_effects db -> db_instances db' = db_instances db -> db_history db' = db_history db ->
  Consistent db'.
Proof.
  intros C Eo Ed Ee Ei Eh.
  assert (forall id, prerequisitesDone db id -> prerequisitesDone db' id) as Hp.
  { intros id Hp d. unfold statusOf. rewrite Ed, Eo. apply Hp. }
  split; rewrite ?Eo, ?Ed, ?Ee, ?Ei, ?Eh; try apply C. intros id row Hr Hran. apply Hp. by eapply (con_order _ C).
Qed.

Lemma bindInstance_consistent db current repo demand now db' :
  Consistent db -> bindInstance db current repo demand now = inr db' -> Consistent db'.
Proof.
  intros C. unfold bindInstance. destruct (db_instances db !! row_ID current) as [row|] eqn:L; [|done].
  destruct (_ && _ && _); [|done]. intros [= <-]. destruct (con_ids _ C _ _ L) as [Hid Hv].
  by apply instances_consistent.
Qed.

Lemma DbStep_consistent db db' : Consistent db -> DbStep db db' -> Consistent db'.
Proof.
  intros C S. destruct S as
    [db plan db' b E|clock db i db' E|db|clock db c db' row E|clock db t db' row E|db owner limit now leaseFor db' ops E
    |db id owner now leaseFor db' E|db id owner effect now db' b E|clock db id owner msg av dead db' E|db now|db d db' out E
    |db id resource stopped at_ db' E|db name owner now ttl db' lease E|db lease now ttl db' lease' E|db lease db' E
    |db resource o db' E|db current repo demand now db' E|db source target now db' E].
  - by eapply ApplyPlan_consistent.
  - unfold CreateInstance in E. destruct (_ || _ || _ || _) eqn:V; [done|]. bool_to_prop.
    by eapply insertInstance_consistent.
  - unfold ReseedSchedulerState. destruct (db_scheduler db); [done|]. by eapply side_consistent.
  - by eapply Advance_consistent.
  - by eapply Transition_consistent.
  - by eapply Claim_consistent.
  - by eapply RenewOperation_consistent.
  - by eapply Complete_consistent.
  - by eapply Retry_consistent.
  - by apply RecoverExpired_consistent.
  - by eapply DischargeDeadLetter_consistent.
  - by eapply ResumeCleanup_consistent.
  - unfold AcquireLease in E. destruct (_ || _ || _); [done|].
    destruct (db_leases db !! name); [destruct (_ || _); [|done]|]; injection E as <- <-; by eapply side_consistent.
  - unfold RenewLease in E. destruct (db_leases db !! _); [|done]. destruct (_ && _); [|done].
    injection E as <- <-. by eapply side_consistent.
  - unfold ReleaseLease in E. destruct (db_leases db !! _); [|done]. destruct (holdsRow _ _); [|done].
    injection E as <-. by eapply side_consistent.
  - unfold PutOwnership in E. destruct (_ || _); [done|]. destruct (db_ownership db !! resource).
    + destruct (bool_decide _); [|done]. by injection E as <-.
    + injection E as <-. by eapply side_consistent.
  - by eapply bindInstance_consistent.
  - unfold swapInstances in E. destruct (bindInstance _ _ _ _ _) as [|db1] eqn:B; [done|].
    eapply bindInstance_consistent; [by eapply bindInstance_consistent|exact E].
Qed.

Lemma empty_consistent : Consistent emptyDb.
Proof. split; simpl; try done; intros *; rewrite ?lookup_empty, ?elem_of_empty; done. Qed.

Lemma Reachable_consistent db : Reachable db -> Consistent db.
Proof.
  intros R. unfold Reachable in R. remember emptyDb as db0. assert (Consistent db0) as C0 by (subst; apply empty_consistent).
  clear Heqdb0. induction R as [db|db1 db2 db3 S R IH]; [done|]. apply IH. by eapply DbStep_consistent.
Qed.

(** ** What no transaction undoes *)

Definition kept (row row' : OpRow) : Prop :=
  o_key row' = o_key row /\ o_effect row' = o_effect row /\ o_resource row' = o_resource row /\
  match o_status row with
  | OperationCompleted => o_status row' = OperationCompleted
  | OperationDischarged => o_status row' = OperationDischarged
  | OperationDead => o_status row' = OperationDead \/ o_status row' = OperationDischarged
  | _ => True
  end.

Record Grows (db db' : Db) : Prop := {
  gr_ops : forall id row, db_operations db !! id = Some row ->
    exists row', db_operations db' !! id = Some row' /\ kept row row';
  gr_deps : forall o d, (o, d) ∈ db_dependencies db -> statusOf db d = Some OperationDischarged ->
    (o, d) ∈ db_dependencies db';
  gr_effects : forall k id, db_effects db !! k = Some id -> db_effects db' !! k = Some id;
  gr_rows : forall id, is_Some (db_instances db !! id) -> is_Some (db_instances db' !! id)
}.

Lemma kept_refl row : kept row row.
Proof. unfold kept. split_and!; try done. destruct (o_status row); try done. by left. Qed.

Lemma kept_trans r1 r2 r3 : kept r1 r2 -> kept r2 r3 -> kept r1 r3.
Proof.
  unfold kept. intros (K1 & E1 & R1 & S1) (K2 & E2 & R2 & S2). split_and!; try congruence.
  destruct (o_status r1); try done; [by rewrite S1 in S2| |by rewrite S1 in S2].
  destruct S1 as [S1|S1]; rewrite S1 in S2; [done|by right].
Qed.

Lemma Grows_refl db : Grows db db.
Proof. split; try done. intros id row Hr. exists row. split; [done|apply kept_refl]. Qed.

Lemma Grows_discharged db db' d :
  Grows db db' -> statusOf db d = Some OperationDischarged -> statusOf db' d = Some OperationDischarged.
Proof.
  intros G. unfold statusOf. destruct (db_operations db !! d) as [row|] eqn:E; [|done]. simpl. intros [= Hs].
  destruct (gr_ops _ _ G _ _ E) as (row' & -> & (_ & _ & _ & K)). rewrite Hs in K. simpl. by rewrite K.
Qed.

Lemma Grows_trans db1 db2 db3 : Grows db1 db2 -> Grows db2 db3 -> Grows db1 db3.
Proof.
  intros G1 G2. split.
  - intros id row Hr. destruct (gr_ops _ _ G1 _ _ Hr) as (r2 & Hr2 & K2).
    destruct (gr_ops _ _ G2 _ _ Hr2) as (r3 & Hr3 & K3). exists r3. split; [done|by eapply kept_trans].
  - intros o d Hd Hs. eapply (gr_deps _ _ G2); [by eapply (gr_deps _ _ G1)|by eapply Grows_discharged].
  - intros k id Hk. by eapply (gr_effects _ _ G2), (gr_effects _ _ G1).
  - intros id Hi. by apply (gr_rows _ _ G2), (gr_rows _ _ G1).
Qed.

Lemma Grows_update db id row row' :
  db_operations db !! id = Some row -> kept row row' ->
  Grows db (setOperations db (<[id := row']> (db_operations db))).
Proof.
  intros Hr K. split; simpl; try done. intros j rj Hj. destruct (decide (j = id)) as [->|Hne].
  - exists row'. rewrite lookup_insert_eq. split; [done|congruence].
  - exists rj. rewrite lookup_insert_ne by done. split; [done|apply kept_refl].
Qed.

Lemma Grows_insert db id row db' : insertRow db id row = inr db' -> Grows db db'.
Proof.
  intros Hi. apply insertRow_inr in Hi as (Hn & _ & ->). split; simpl; try done.
  intros j rj Hj. exists rj. rewrite lookup_insert_ne by congruence. split; [done|apply kept_refl].
Qed.

Lemma Grows_side db db' :
  db_operations db' = db_operations db -> db_dependencies db ⊆ db_dependencies db' ->
  db_effects db' = db_effects db ->
  (forall id, is_Some (db_instances db !! id) -> is_Some (db_instances db' !! id)) -> Grows db db'.
Proof.
  intros Eo Ed Ee Hi. split; [|intros; by apply Ed|by rewrite Ee|done].
  rewrite Eo. intros id row Hr. exists row. split; [done|apply kept_refl].
Qed.

Ltac grows_side :=
  apply Grows_side; simpl; try done; intros; apply lookup_insert_is_Some'; by right.

Lemma recordDependencies_instances db key deps db' : recordDependencies db key deps = inr db' -> db_instances db' = db_instances db.
Proof.
  revert db. induction deps as [|d deps IH]; intros db; simpl; [by intros [= <-]|].
  destruct (db_operations db !! d); [|done]. destruct (bool_decide _); [done|]. intros Hr. by apply IH in Hr.
Qed.

Lemma recordDependencies_grows db id deps db' : recordDependencies db id deps = inr db' -> Grows db db'.
Proof.
  revert db. induction deps as [|d deps IH]; intros db; simpl; [intros [= <-]; apply Grows_refl|].
  destruct (db_operations db !! d); [|done]. destruct (bool_decide _); [done|]. intros Hr.
  eapply Grows_trans; [|by apply IH]. apply Grows_side; simpl; try done. apply union_subseteq_r.
Qed.

Lemma moveInstance_side db id expected version next phase err op now db' row :
  moveInstance db id expected version next phase err op now = inr (db', row) -> Grows db db'.
Proof.
  unfold moveInstance. destruct (db_instances db !! id); [|done]. destruct (_ && _); [|done].
  intros Hx. injection Hx as <- <-. grows_side.
Qed.

Lemma eachOf_grows {A} (step : Db -> A -> Result Db) l db db' :
  (forall x d d', step d x = inr d' -> Grows d d') -> eachOf step l db = inr db' -> Grows db db'.
Proof.
  intros Hs. apply (eachOf_ind (Grows db)); [apply Grows_refl|].
  intros x d d' _ G E. eapply Grows_trans; [exact G|by eapply Hs].
Qed.

Lemma applyIntent_grows created db intent db' : applyIntent created db intent = inr db' -> Grows db db'.
Proof.
  unfold applyIntent, insertInstance. destruct (_ <? 0).
  - destruct (db_instances db !! _); [done|]. intros Hx. injection Hx as <-. grows_side.
  - destruct (db_instances db !! _); [|done]. destruct (_ && _ && _); [|done].
    intros Hx. injection Hx as <-. grows_side.
Qed.

Lemma ApplyPlan_grows db plan db' b : ApplyPlan db plan = inr (db', b) -> Grows db db'.
Proof.
  intros HR. unfold ApplyPlan in HR. refuse HR.
  destruct (db_plans db !! dp_ID plan).
  { destruct (bool_decide _); [|done]. injection HR as <- <-. apply Grows_refl. }
  destruct (db_scheduler db); [|done]. refuse HR.
  destruct (eachOf (applyIntent _) _ db) as [|db1] eqn:E1; cbn [rbind] in HR; [done|].
  destruct (eachOf (fun d op => insertOperation d op _) _ db1) as [|db2] eqn:E2; cbn [rbind] in HR; [done|].
  destruct (eachOf _ (dp_Operations plan) db2) as [|db3] eqn:E3; cbn [rbind] in HR; [done|].
  injection HR as <- <-. eapply Grows_trans; [eapply eachOf_grows; [|exact E1]; intros; by eapply applyIntent_grows|].
  eapply Grows_trans; [eapply eachOf_grows; [|exact E2]; intros x d d' Hi; exact (Grows_insert _ _ _ _ Hi)|].
  eapply Grows_trans; [eapply eachOf_grows; [|exact E3]; intros x d d' Hi; exact (recordDependencies_grows _ _ _ _ Hi)|].
  grows_side.
Qed.

Lemma Claim_grows db owner limit now leaseFor db' ops :
  Claim db owner limit now leaseFor = inr (db', ops) -> Grows db db'.
Proof.
  unfold Claim. intros HR. refuse HR. injection HR as HR.
  assert (Grows db (propagate now db)) as G1.
  { split; simpl; try done. intros id row Hr. rewrite map_lookup_imap, Hr. simpl. eexists. split; [done|].
    destruct (_ && _) eqn:G; [|apply kept_refl]. bool_to_prop. unfold kept. simpl. split_and!; try done.
    by match goal with Hs : o_status row = _ |- _ => rewrite Hs end. }
  eapply Grows_trans; [exact G1|]. clear G1. set (db1 := propagate now db) in *.
  generalize dependent (selected now limit db1). intros ids. generalize dependent db1. revert ops.
  induction ids as [|id ids IH]; intros ops db1; simpl; [intros [= <- _]; apply Grows_refl|].
  destruct (db_operations db1 !! id) as [row|] eqn:E; [|apply IH].
  destruct (claimable now row) eqn:G; [|apply IH].
  set (db2 := setOperations db1 _). destruct (claimEach owner now leaseFor ids db2) as [d cl] eqn:Ec.
  intros Hx. injection Hx as <- _. eapply Grows_trans; [|by eapply IH].
  eapply Grows_update; [exact E|]. unfold kept. simpl. split_and!; try done.
  unfold claimable in G. destruct (o_status row); done.
Qed.

Lemma ResumeCleanup_grows db id resource stopped at_ db' :
  ResumeCleanup db id resource stopped at_ = inr db' -> Grows db db'.
Proof.
  intros HR. unfold ResumeCleanup in HR. refuse HR.
  destruct (db_operations db !! id) as [old|] eqn:E; [|done]. refuse HR.
  destruct (bool_decide (o_status old = OperationDischarged)); [injection HR as <-; apply Grows_refl|].
  refuse HR. refuse HR. unfold Instance_read in HR.
  destruct (db_instances db !! resource) as [i|]; cbn [rbind] in HR; [|done].
  refuse HR. refuse HR. refuse HR.
  destruct (insertRow db _ _) as [|db1] eqn:E1; cbn [rbind] in HR; [done|]. injection HR as <-.
  assert (o_status old = OperationDead) as Hdead.
  { match goal with G : negb (bool_decide (o_status old = OperationDead)) = false |- _ =>
      by apply negb_false_iff, bool_decide_eq_true_1 in G end. }
  eapply Grows_trans; [by eapply Grows_insert|]. apply insertRow_inr in E1 as (Hn & _ & Hd1).
  assert (db_operations db1 !! id = Some old) as E'
    by (rewrite Hd1; simpl; by rewrite lookup_insert_ne by congruence).
  set (db2 := setDependencies db1 _).
  assert (Grows db1 db2) as G2.
  { split; simpl; try done; [intros j r Hj; exists r; split; [done|apply kept_refl]|].
    intros o d Hd Hs. apply elem_of_map. exists (o, d). split; [|done]. simpl.
    destruct (decide (d = id)) as [->|Hne]; [|by rewrite bool_decide_eq_false_2].
    unfold statusOf in Hs. rewrite E' in Hs. simpl in Hs. congruence. }
  eapply Grows_trans; [exact G2|]. eapply Grows_trans; [eapply (Grows_update db2 id old); [exact E'|]|].
  - instantiate (1 := superseded old (UnixNano at_)). unfold kept. simpl. rewrite Hdead. split_and!; try done. by right.
  - destruct (stopped && _); [grows_side|apply Grows_refl].
Qed.

Lemma released_kept row s err now :
  o_status row <> OperationCompleted -> o_status row <> OperationDischarged ->
  (o_status row = OperationDead -> s = OperationDead \/ s = OperationDischarged) -> kept row (released row s err now).
Proof. intros H1 H2 H3. unfold kept. simpl. split_and!; try done. destruct (o_status row); try done. by apply H3. Qed.

Lemma DischargeDeadLetter_grows db d db' out :
  DischargeDeadLetter db d = inr (db', out) -> Grows db db'.
Proof.
  intros HR. unfold DischargeDeadLetter in HR. refuse HR.
  destruct (db_operations db !! dis_OperationID d) as [row|] eqn:E; [|done]. refuse HR. refuse HR. refuse HR.
  set (db1 := if bool_decide _ then _ else db) in *.
  assert (Grows db db1) as G1.
  { subst db1. destruct (bool_decide (o_status row = OperationDead)) eqn:Hd; [|apply Grows_refl].
    apply bool_decide_eq_true_1 in Hd. eapply Grows_update; [exact E|].
    apply released_kept; [congruence|congruence|by right]. }
  eapply Grows_trans; [exact G1|]. unfold Instance_read in HR.
  destruct (db_instances db1 !! dis_InstanceID d) as [i|]; cbn [rbind] in HR; [|done].
  destruct (dis_ReapInstance d && _); [|injection HR as <- <-; apply Grows_refl].
  destruct (reapInstance db1 i _) as [|db2] eqn:Er; cbn [rbind] in HR; [done|]. injection HR as <- <-.
  unfold reapInstance in Er. destruct (db_instances db1 !! row_ID i); [|done]. accept Er.
  injection Er as <-. grows_side.
Qed.

Lemma Advance_grows clock db c db' row : Advance clock db c = inr (db', row) -> Grows db db'.
Proof.
  intros HR. unfold Advance in HR. refuse HR.
  destruct (moveInstance _ _ _ _ _ _ _ _ _) as [|[d r]] eqn:E; cbn [rbind] in HR; [done|].
  apply moveInstance_side in E. destruct (bool_decide (sc_SettlesID c = "")); [by injection HR as <- <-|].
  unfold settle in HR. cbn [fst snd] in HR.
  destruct (db_operations d !! sc_SettlesID c) as [orow|] eqn:Er; cbn [rbind] in HR; [|done].
  destruct (_ && _ && _) eqn:G; cbn [rbind] in HR; [|done]. injection HR as <- <-. bool_to_prop.
  eapply Grows_trans; [exact E|]. eapply Grows_update; [exact Er|]. apply released_kept; congruence.
Qed.

Lemma Transition_grows clock db t db' row : Transition clock db t = inr (db', row) -> Grows db db'.
Proof.
  intros HR. unfold Transition in HR. refuse HR.
  destruct (operationByKey _ _) as [found|].
  { unfold Instance_read in HR. destruct (db_instances db !! _); cbn [rbind] in HR; [|done]. refuse HR.
    injection HR as <- <-. apply Grows_refl. }
  destruct (moveInstance _ _ _ _ _ _ _ _ _) as [|[d r]] eqn:E; cbn [rbind fst snd] in HR; [done|].
  destruct (insertRow d _ _) as [|d2] eqn:E2; cbn [rbind] in HR; [done|].
  destruct (recordDependencies d2 _ _) as [|d3] eqn:E3; cbn [rbind] in HR; [done|]. injection HR as <- <-.
  eapply Grows_trans; [by eapply moveInstance_side|]. eapply Grows_trans; [by eapply Grows_insert|].
  by eapply recordDependencies_grows.
Qed.

Lemma bindInstance_grows db current repo demand now db' :
  bindInstance db current repo demand now = inr db' -> Grows db db'.
Proof.
  unfold bindInstance. destruct (db_instances db !! row_ID current); [|done].
  destruct (_ && _ && _); [|done]. intros [= <-]. grows_side.
Qed.

Lemma DbStep_grows db db' : DbStep db db' -> Grows db db'.
Proof.
  intros S. destruct S as
    [db plan db' b E|clock db i db' E|db|clock db c db' row E|clock db t db' row E|db owner limit now leaseFor db' ops E
    |db id owner now leaseFor db' E|db id owner effect now db' b E|clock db id owner msg av dead db' E|db now|db d db' out E
    |db id resource stopped at_ db' E|db name owner now ttl db' lease E|db lease now ttl db' lease' E|db lease db' E
    |db resource o db' E|db current repo demand now db' E|db source target now db' E].
  - by eapply ApplyPlan_grows.
  - unfold CreateInstance in E. refuse E. unfold insertInstance in E.
    destruct (db_instances db !! row_ID i); [done|]. injection E as <-. grows_side.
  - unfold ReseedSchedulerState. destruct (db_scheduler db); [apply Grows_refl|grows_side].
  - by eapply Advance_grows.
  - by eapply Transition_grows.
  - by eapply Claim_grows.
  - unfold RenewOperation in E. refuse E. destruct (db_operations db !! id) as [row|] eqn:Er; [|done].
    accept E. injection E as <-. bool_to_prop. eapply Grows_update; [exact Er|]. unfold kept. simpl.
    split_and!; try done. by match goal with Hs : o_status row = _ |- _ => rewrite Hs end.
  - unfold Complete in E. destruct (db_operations db !! id) as [row|] eqn:Er; [|done]. refuse E.
    destruct (bool_decide (o_status row = _)); [injection E as <- <-; apply Grows_refl|]. refuse E. bool_to_prop.
    assert (kept row (released row OperationCompleted (o_error row) (UnixNano now))) as K
      by (apply released_kept; congruence).
    destruct (db_effects db !! effect) eqn:Ee; injection E as <- <-; [by eapply Grows_update|].
    eapply Grows_trans; [by eapply Grows_update|]. split; simpl; try done.
    + intros j r Hj. exists r. split; [done|apply kept_refl].
    + intros k j Hk. rewrite lookup_insert_ne; [done|]. intros ->. congruence.
  - unfold Retry in E. destruct (db_operations db !! id) as [row|] eqn:Er; [|done]. accept E. injection E as <-.
    bool_to_prop. eapply Grows_update; [exact Er|]. unfold kept. simpl. split_and!; try done.
    by match goal with Hs : o_status row = _ |- _ => rewrite Hs end.
  - split; simpl; try done. intros id row Hr. rewrite lookup_fmap, Hr. simpl. eexists. split; [done|].
    unfold expiredClaim. destruct (_ && _) eqn:G; [|apply kept_refl]. bool_to_prop. apply released_kept; congruence.
  - by eapply DischargeDeadLetter_grows.
  - by eapply ResumeCleanup_grows.
  - unfold AcquireLease in E. refuse E.
    destruct (db_leases db !! name); [accept E|]; injection E as <- <-; grows_side.
  - unfold RenewLease in E. destruct (db_leases db !! _); [|done]. accept E. injection E as <- <-. grows_side.
  - unfold ReleaseLease in E. destruct (db_leases db !! _); [|done]. accept E. injection E as <-. grows_side.
  - unfold PutOwnership in E. refuse E. destruct (db_ownership db !! resource).
    + accept E. injection E as <-. apply Grows_refl.
    + injection E as <-. grows_side.
  - by eapply bindInstance_grows.
  - unfold swapInstances in E. destruct (bindInstance _ _ _ _ _) as [|db1] eqn:B; [done|].
    eapply Grows_trans; eapply bindInstance_grows; eassumption.
Qed.

Lemma DbSteps_grow db db' : rtc DbStep db db' -> Grows db db'.
Proof.
  induction 1 as [|db1 db2 db3 S _ IH]; [apply Grows_refl|]. eapply Grows_trans; [by apply DbStep_grows|done].
Qed.

Lemma DbSteps_consistent db db' : rtc DbStep db db' -> Consistent db -> Consistent db'.
Proof. induction 1 as [|db1 db2 db3 S _ IH]; [done|]. intros C. apply IH. by eapply DbStep_consistent. Qed.

End Outbox.
