(* ===== verification/ProjectionSpec.v ===== *)
(** * What a projection does to the store

    The programs of [Projection] run against the tables of [Store] and [Inbox],
    with other writers between any two of their transactions.  Whatever the
    others do, a projection changes rows only as the durable demand record and
    the instances it listed entitle it to, and when it succeeds the instance has
    caught up with the demand. *)

From Stdlib Require Import ZArith Lia String List.
From stdpp Require Import base tactics list gmap strings relations.
From S2P Require Import Prelude GoStrings Liveness Domain Operations Failure Effects Store Inbox Ports.
From S2P Require Import Ledger Knowledge Projection Outbox.

#[local] Open Scope prog_scope.

Abbreviation Calls := (list (Event StoreCall)).

(** ** Running on the tables *)

(** [SELECT DISTINCT i.id FROM runner_demands d JOIN instances i ON i.id=d.runner_name ...]. *)
Definition completedOn (ib : Inbox) (set : Z) (runner : string) : bool :=
  existsb (fun entry : Z * Z * DemandRow => (fst (fst entry) =? set)
    && bool_decide (d_runnerName (snd entry) = runner)
    && (demandRank (d_status (snd entry)) =? demandRank DemandJobCompleted)) (map_to_list (ib_demands ib)).

Definition completedRunners (db : Db) (ib : Inbox) (set : Z) : list string :=
  sortBy strLess (map fst (List.filter (fun entry : string * InstanceRow =>
    completedOn ib set (fst entry) && liveRunnerState (row_State (snd entry))) (map_to_list (db_instances db)))).

Definition stored {A B : Type} (db : Db) (r : Result A) (next : A -> Db) (reply : A -> B) : Db * (StoreError + B) :=
  match r with inr a => (next a, inr (reply a)) | inl err => (db, inl err) end.

Definition answer {X : Set} (clock : Time) (w : Db * Inbox) (c : StoreCall X) : Db * X :=
  let '(db, ib) := w in
  match c in StoreCall X return Db * X with
  | Instant => (db, clock)
  | DemandOf set request => (db, DemandRecord_read ib set request)
  | Live => (db, inr (LiveInstances db))
  | Swap source target now => stored db (swapInstances db source target now) (fun d => d) (fun _ => tt)
  | Rebind target repo demand now => stored db (bindInstance db target repo demand now) (fun d => d) (fun _ => tt)
  | AdvanceBy c => stored db (Advance clock db c) fst snd
  | DrainsBefore id => (db, inr (DrainGeneration db id))
  | TransitionBy t => stored db (Transition clock db t) fst snd
  | CompletedRunners set => (db, inr (completedRunners db ib set))
  | ActiveOn set runner => (db, RunnerActiveJob_read ib set runner)
  | InstanceOf id => (db, Instance_read db id)
  end.

(** Before each call the clock has moved and others may have written. *)
Record Meanwhile := { mw_clock : Calls -> Time; mw_others : Calls -> Db * Inbox -> Db * Inbox }.

Definition meets (m : Meanwhile) (X : Set) (h : Calls) (w : Db * Inbox) (c : StoreCall X) : (Db * Inbox) * X :=
  let w0 := mw_others m h w in
  let r := answer (mw_clock m h) w0 c in
  ((fst r, snd w0), snd r).

(** What the programs rely on of the store's answers. *)
Definition storeAnswers (h : Calls) (ev : Event StoreCall) : Prop :=
  match ev with
  | Ev (AdvanceBy c) (inr row) => row_ID row = sc_InstanceID c /\ row_State row = sc_NextState c
  | Ev (TransitionBy t) (inr row) => row_ID row = tr_InstanceID t /\ row_State row = tr_NextState t
  | Ev (AdvanceBy _) (inl err) | Ev (TransitionBy _) (inl err) | Ev (Swap _ _ _) (inl err)
  | Ev (Rebind _ _ _ _) (inl err) => err <> ErrUncertain
  | Ev (DemandOf _ _) (inl err) => err <> ErrUncertain
  | Ev Live (inl _) | Ev (DrainsBefore _) (inl _) => False
  | _ => True
  end.

Section Spec.
Context `{PlanDigest} `{CleanupIdentity}.

(** The others write only by the store's own transactions. *)
Definition honest (m : Meanwhile) : Prop := forall h w, rtc DbStep (fst w) (fst (mw_others m h w)).

Lemma stored_step {A B} db (r : Result A) next (reply : A -> B) db' x :
  (forall a, r = inr a -> DbStep db (next a)) -> stored db r next reply = (db', x) -> rtc DbStep db db'.
Proof.
  intros Hs. unfold stored. destruct r as [err|a]; intros [= <- _]; [apply rtc_refl|]. by apply rtc_once, Hs.
Qed.

Lemma answer_steps {X : Set} clock w (c : StoreCall X) : rtc DbStep (fst w) (fst (answer clock w c)).
Proof.
  destruct w as [db ib]. destruct c; simpl; try apply rtc_refl;
    match goal with |- context [stored db ?r ?n ?p] => destruct (stored db r n p) as [db' x] eqn:E end;
    (eapply stored_step; [|exact E]).
  - intros a Ha. by eapply step_swap.
  - intros a Ha. by eapply step_bind.
  - intros [a row] Ha. by eapply step_advance.
  - intros [a row] Ha. by eapply step_transition.
Qed.

Lemma moveInstance_id db id a v b phase err o now db' row :
  Consistent db -> moveInstance db id a v b phase err o now = inr (db', row) -> row_ID row = id.
Proof.
  intros C. unfold moveInstance. destruct (db_instances db !! id) as [i|] eqn:L; [|done].
  destruct (_ && _); [|done]. intros [= _ <-]. simpl. by eapply (con_ids _ C).
Qed.

Lemma moveInstance_certain db id a v b phase err o now e :
  moveInstance db id a v b phase err o now = inl e -> e = ErrConflict.
Proof.
  unfold moveInstance. destruct (db_instances db !! id); [|by intros [= <-]]. destruct (_ && _); [done|by intros [= <-]].
Qed.

Lemma Advance_answer clock db c :
  Consistent db ->
  match Advance clock db c with
  | inr (_, row) => row_ID row = sc_InstanceID c /\ row_State row = sc_NextState c
  | inl err => err <> ErrUncertain
  end.
Proof.
  intros C. unfold Advance. destruct (stateChangeInvalid c); [done|].
  destruct (moveInstance _ _ _ _ _ _ _ _ _) as [err|[db1 row]] eqn:M; simpl.
  { by rewrite (moveInstance_certain _ _ _ _ _ _ _ _ _ _ M). }
  pose proof (moveInstance_id _ _ _ _ _ _ _ _ _ _ _ C M). pose proof (moveInstance_state _ _ _ _ _ _ _ _ _ _ _ M).
  destruct (bool_decide _); [done|]. unfold settle. destruct (db_operations db1 !! _); [|done].
  destruct (_ && _ && _); done.
Qed.

Lemma recordDependencies_certain id deps : forall db err,
  recordDependencies db id deps = inl err -> err <> ErrUncertain.
Proof.
  induction deps as [|d deps IH]; intros db err; simpl; [done|].
  repeat match goal with |- context [if ?b then _ else _] => destruct b end; try by intros [= <-]. apply IH.
Qed.

Lemma Transition_answer clock db t :
  Consistent db ->
  match Transition clock db t with
  | inr (_, row) => row_ID row = tr_InstanceID t /\ row_State row = tr_NextState t
  | inl err => err <> ErrUncertain
  end.
Proof.
  intros C. unfold Transition. destruct (_ || _ || _ || _ || _); [done|].
  destruct (operationByKey _ _).
  - unfold Instance_read. destruct (db_instances db !! _) as [row|] eqn:L; simpl; [|done].
    destruct (_ || _) eqn:G; [done|]. bool_to_prop. split; [by eapply (con_ids _ C)|done].
  - destruct (moveInstance _ _ _ _ _ _ _ _ _) as [err|[db1 row]] eqn:M; simpl.
    { by rewrite (moveInstance_certain _ _ _ _ _ _ _ _ _ _ M). }
    pose proof (moveInstance_id _ _ _ _ _ _ _ _ _ _ _ C M). pose proof (moveInstance_state _ _ _ _ _ _ _ _ _ _ _ M).
    unfold insertRow. destruct (db_operations db1 !! _); simpl; [done|]. destruct (keyTaken _ _); simpl; [done|].
    destruct (recordDependencies _ _ _) as [err|] eqn:D; simpl; [by eapply recordDependencies_certain|done].
Qed.

Lemma bindInstance_certain db current repo demand now err :
  bindInstance db current repo demand now = inl err -> err = ErrConflict.
Proof.
  unfold bindInstance. destruct (db_instances db !! _); [|by intros [= <-]]. destruct (_ && _ && _); [done|by intros [= <-]].
Qed.

Lemma answer_allowed {X : Set} clock w (c : StoreCall X) h :
  Consistent (fst w) -> storeAnswers h (Ev c (snd (answer clock w c))).
Proof.
  intros C. destruct w as [db ib]. destruct c; simpl; try done; unfold stored.
  - unfold DemandRecord_read. destruct (_ || _); [done|]. by destruct (ib_demands ib !! _).
  - unfold swapInstances. destruct (bindInstance _ _ _ _ _) as [err|db1] eqn:B; simpl.
    + by rewrite (bindInstance_certain _ _ _ _ _ _ B).
    + destruct (bindInstance db1 _ _ _ _) as [err|] eqn:B2; simpl; [|done].
      by rewrite (bindInstance_certain _ _ _ _ _ _ B2).
  - destruct (bindInstance _ _ _ _ _) as [err|] eqn:B; simpl; [|done].
    by rewrite (bindInstance_certain _ _ _ _ _ _ B).
  - pose proof (Advance_answer clock db c C) as Ha. by destruct (Advance clock db c) as [|[? ?]].
  - pose proof (Transition_answer clock db t C) as Ha. by destruct (Transition clock db t) as [|[? ?]].
Qed.

Lemma meets_steps m (X : Set) h w (c : StoreCall X) :
  honest m -> Reachable (fst w) ->
  storeAnswers h (Ev c (snd (meets m X h w c))) /\ Reachable (fst (fst (meets m X h w c))).
Proof.
  intros Hm Hr. unfold meets. set (w0 := mw_others m h w).
  assert (Reachable (fst w0)) as Hr0 by (unfold Reachable in *; etransitivity; [exact Hr|apply Hm]).
  split; [by apply answer_allowed, Reachable_consistent|].
  unfold Reachable in *. etransitivity; [exact Hr0|apply answer_steps].
Qed.

(** A program whose calls satisfy a guard keeps to it, and to the store's
    transactions, whatever the others do. *)
Lemma wp_store m {A : Set} (p : Prog StoreCall A) guard post w :
  honest m -> Reachable (fst w) -> wp storeAnswers guard [] p post ->
  let r := execute (meets m) [] w p in
  post (historyOf r) (snd r) /\ guardedFrom guard 0 (historyOf r) /\ Reachable (fst (stateOf r)).
Proof.
  intros Hm Hr Hw. eapply (wp_execute (meets m) storeAnswers guard (fun _ w => Reachable (fst w)));
    [|exact Hr|apply (guardedFrom_refl _ [])|exact Hw].
  intros X h w' c Hi. by apply meets_steps.
Qed.

(** ** What entitles a projection to a write *)

Definition isBound (record : DemandRecord) (i : InstanceRow) : bool :=
  bool_decide (row_Repo i = DemandRecord_Repo record) && (key_JobID (row_Demand i) =? dr_RunnerRequestID record).

(** The listed instance that runs the demand: the one GitHub names, or without a
    name the one bound to it. *)
Definition standsFor (record : DemandRecord) (live : list InstanceRow) (id : string) : Prop :=
  exists i, In i live /\ row_ID i = id /\
    (if bool_decide (dr_RunnerName record = "") then isBound record i = true else dr_RunnerName record = id).

(** How far a status carries an instance. *)
Definition followsStatus (status : DemandEventKind) (from to : InstanceState) : bool :=
  match from, to with
  | InstanceRegistering, InstanceOnlineIdle =>
      match status with DemandJobAssigned | DemandJobStarted | DemandJobCompleted => true | _ => false end
  | InstanceOnlineIdle, InstanceAssigned =>
      match status with DemandJobAssigned | DemandJobStarted => true | _ => false end
  | InstanceAssigned, InstanceRunning => match status with DemandJobStarted => true | _ => false end
  | _, _ => false
  end.

Definition provisioning (s : InstanceState) : bool :=
  match s with InstancePlanned | InstanceCloning | InstanceBooting | InstanceReachable => true | _ => false end.

Section Event.
Variables (set : Z) (event : DemandEvent).

Definition knows (h : Calls) (record : DemandRecord) (live : list InstanceRow) : Prop :=
  In (Ev (DemandOf set (de_RunnerRequestID event)) (inr record)) h /\ In (Ev Live (inr live)) h.

(** The demand the runner is to give up was not served by it. *)
Definition releasable (h : Calls) (record : DemandRecord) (target : InstanceRow) : Prop :=
  exists answer, In (Ev (DemandOf (dr_ScaleSetID record) (key_JobID (row_Demand target))) answer) h /\
    match answer with inl err => err = ErrNotFound | inr released => servedHere released target = false end.

Definition mayWrite (h : Calls) (ev : Event StoreCall) : Prop :=
  match ev with
  | Ev (AdvanceBy c) _ => exists record live row next, knows h record live /\
      standsFor record live (row_ID row) /\ c = advanceTo row next /\
      followsStatus (dr_Status record) (row_State row) next = true
  | Ev (TransitionBy t) _ => exists record live row generation now, knows h record live /\
      standsFor record live (row_ID row) /\ dr_Status record = DemandJobCompleted /\
      In (Ev (DrainsBefore (row_ID row)) (inr generation)) h /\
      t = eventDrain row generation
            (if provisioning (row_State row) then [own_OperationID (row_Ownership row)] else []) now
  | Ev (Swap source target _) _ => exists record live, knows h record live /\
      In source live /\ In target live /\ row_ID source <> row_ID target /\
      isBound record source = true /\ row_ID target = dr_RunnerName record /\ sameMachine source target = true
  | Ev (Rebind target repo demand _) _ => exists record live, knows h record live /\
      In target live /\ row_ID target = dr_RunnerName record /\ rebindableRunnerState (row_State target) = true /\
      (forall i, In i live -> isBound record i = true -> row_ID i = "") /\
      repo = DemandRecord_Repo record /\ demand = DemandRecord_DemandKey record /\ releasable h record target
  | _ => True
  end.

(** ** What a projection may conclude *)

(** A row of the instance in the state, as the store gave it in this run. *)
Definition seen (h : Calls) (id : string) (s : InstanceState) : Prop :=
  exists row, row_ID row = id /\ row_State row = s /\
    ((exists live, In (Ev Live (inr live)) h /\ In row live) \/
     (exists c, In (Ev (AdvanceBy c) (inr row)) h) \/ (exists t, In (Ev (TransitionBy t) (inr row)) h)).

Definition tearingDown (s : InstanceState) : bool :=
  match s with InstanceDraining | InstanceDeregistering | InstanceStopping | InstanceDeleted => true | _ => false end.

Definition caughtUp (status : DemandEventKind) (s : InstanceState) : bool :=
  tearingDown s ||
  match status, s with
  | DemandJobAssigned, (InstanceAssigned | InstanceRunning) => true
  | DemandJobStarted, InstanceRunning => true
  | _, _ => false
  end.

(** A state from which the status cannot be reached. *)
Definition offTheLadder (status : DemandEventKind) (s : InstanceState) : bool :=
  match s with
  | InstancePlanned | InstanceCloning | InstanceBooting | InstanceReachable =>
      negb (bool_decide (status = DemandJobCompleted))
  | InstanceRegistering | InstanceOnlineIdle | InstanceAssigned | InstanceRunning => false
  | s => negb (tearingDown s)
  end.

Definition conclusion (record : DemandRecord) (live : list InstanceRow) (h : Calls) (r : Outcome) : Prop :=
  match r with
  | None => exists id s, standsFor record live id /\ seen h id s /\ caughtUp (dr_Status record) s = true
  | Some ErrUncertain => exists id s, standsFor record live id /\ seen h id s /\ offTheLadder (dr_Status record) s = true
  | Some _ => True
  end.

Lemma knows_more h ev record live : knows h record live -> knows (h ++ [ev]) record live.
Proof. intros [H1 H2]. split; apply in_or_app; by left. Qed.

Lemma seen_more h ev id s : seen h id s -> seen (h ++ [ev]) id s.
Proof.
  intros (row & Hi & Hs & Hw). exists row. split_and!; [done..|].
  destruct Hw as [(live & H1 & H2)|[[c H1]|[t H1]]];
    [left; exists live|right; left; exists c|right; right; exists t]; rewrite in_app_iff; tauto.
Qed.

#[local] Hint Resolve knows_more seen_more : fleet.

(** How many rounds a state still needs. *)
Definition roundsLeft (s : InstanceState) : nat :=
  match s with InstanceRegistering => 4 | InstanceOnlineIdle => 3 | InstanceAssigned => 2 | _ => 1 end.

Lemma wp_enqueue h record live row :
  knows h record live -> standsFor record live (row_ID row) -> dr_Status record = DemandJobCompleted ->
  wp storeAnswers mayWrite h
    (enqueueDemandDrain row (if provisioning (row_State row) then [own_OperationID (row_Ownership row)] else []))
    (conclusion record live).
Proof.
  intros Hk Hst Hc. intros now _. split; [done|]. intros [err|generation] Hg; [done|]. split; [done|].
  intros answer Ha. split.
  - exists record, live, row, generation, now. split_and!; [auto with fleet|done|done| |done].
    rewrite !in_app_iff. simpl. tauto.
  - simpl. destruct answer as [err|row']; simpl in Ha; [by destruct err|].
    exists (row_ID row), InstanceDraining. split_and!; [done| |done]. exists row'. split_and!; [apply Ha|apply Ha|].
    right. right. eexists. apply in_or_app. right. by left.
Qed.

Lemma wp_advanceThen h record live row next k (post : Calls -> Outcome -> Prop) :
  knows h record live -> standsFor record live (row_ID row) ->
  followsStatus (dr_Status record) (row_State row) next = true ->
  (forall h' err, err <> ErrUncertain -> post h' (Some err)) ->
  (forall h' row', knows h' record live -> standsFor record live (row_ID row') -> row_State row' = next ->
     seen h' (row_ID row') next -> wp storeAnswers mayWrite h' (k row') post) ->
  wp storeAnswers mayWrite h (advanceThen row next k) post.
Proof.
  intros Hk Hst Hf Herr Hok answer Ha. split; [by exists record, live, row, next|].
  destruct answer as [err|row']; simpl in Ha; [by apply Herr|]. destruct Ha as [Hid Hn].
  apply Hok; [auto with fleet|by rewrite Hid|done|]. exists row'. split_and!; [done..|]. right. left.
  eexists. apply in_or_app. right. by left.
Qed.

Lemma wp_projectRounds record live rounds : forall h row,
  (roundsLeft (row_State row) <= rounds)%nat ->
  knows h record live -> standsFor record live (row_ID row) -> seen h (row_ID row) (row_State row) ->
  wp storeAnswers mayWrite h (projectRounds rounds row (dr_Status record)) (conclusion record live).
Proof.
  induction rounds as [|rounds IH]; intros h row Hl Hk Hst Hs; [destruct (row_State row); simpl in Hl; lia|].
  assert (forall s, row_State row = s -> caughtUp (dr_Status record) s = true ->
    wp storeAnswers mayWrite h (Ret None) (conclusion record live)) as Hdone
    by (intros s <- Hc; by exists (row_ID row), (row_State row)).
  assert (forall s, row_State row = s -> offTheLadder (dr_Status record) s = true ->
    wp storeAnswers mayWrite h (Ret (Some ErrUncertain)) (conclusion record live)) as Hstuck
    by (intros s <- Hc; by exists (row_ID row), (row_State row)).
  assert (forall next k, followsStatus (dr_Status record) (row_State row) next = true ->
    (forall h' row', knows h' record live -> standsFor record live (row_ID row') -> row_State row' = next ->
       seen h' (row_ID row') next -> wp storeAnswers mayWrite h' (k row') (conclusion record live)) ->
    wp storeAnswers mayWrite h (advanceThen row next k) (conclusion record live)) as Hadv.
  { intros next k Hf Hok. apply (wp_advanceThen h record live); try done. intros h' err He. by destruct err. }
  pose proof (wp_enqueue h record live row Hk Hst) as Hdrain.
  cbn [projectRounds]. destruct (dr_Status record) eqn:D; try done;
    [unfold assignedRound|unfold startedRound|unfold completedRound];
    destruct (row_State row) eqn:S; simpl in Hl; cbn [provisioning] in Hdrain;
    try (by apply Hdrain); try (by eapply (Hdone _ eq_refl)); try (by eapply (Hstuck _ eq_refl));
    try unfold advanceReturn; (apply Hadv; [done|]; intros h' row' Hk' Hst' Hn Hs');
    first [ apply IH; try done; rewrite Hn; [simpl; lia|done]
          | exists (row_ID row'), (row_State row'); rewrite D, Hn; done ].
Qed.

(** ** Finding and aligning the instance *)

Lemma boundInstance_spec record live : forall found r,
  boundInstance (DemandRecord_Repo record) (dr_RunnerRequestID record) found live = inr r ->
  (forall i, found = Some i -> r = Some i) /\
  match r with
  | Some i => found = Some i \/ (In i live /\ isBound record i = true /\ row_ID i <> "")
  | None => forall i, In i live -> isBound record i = true -> row_ID i = ""
  end.
Proof.
  induction live as [|c live IH]; intros found r; simpl.
  { intros [= <-]. split; [done|]. destruct found; [by left|done]. }
  fold (isBound record c). destruct (isBound record c) eqn:B.
  - destruct found; [done|]. intros Hr. apply IH in Hr as [H1 H2]. split; [done|].
    case_bool_decide as Hid.
    + destruct r as [i|]; [destruct H2 as [?|(? & ? & ?)]; [done|]; right; tauto|].
      intros i [<-|Hi] Hb; [done|by apply H2].
    + rewrite (H1 c eq_refl) in *. right. tauto.
  - intros Hr. apply IH in Hr as [H1 H2]. split; [done|]. destruct r as [i|].
    + destruct H2 as [?|(? & ? & ?)]; [by left|right; tauto].
    + intros i [<-|Hi] Hb; [congruence|by apply H2].
Qed.

Lemma boundInstance_error repo request live : forall found err,
  boundInstance repo request found live = inl err -> err = ErrConflict.
Proof.
  induction live as [|c l IH]; intros f err; simpl; [done|].
  destruct (_ && _); [destruct f; [by intros [= <-]|apply IH]|apply IH].
Qed.

(** Why a runner keeps its binding although GitHub dispatched it another request. *)
Definition keepsBinding (h : Calls) (record : DemandRecord) (live : list InstanceRow) : Prop :=
  exists target, In target live /\ row_ID target = dr_RunnerName record /\
    (forall i, In i live -> isBound record i = true -> row_ID i = "") /\
    (rebindableRunnerState (row_State target) = false \/ row_Demand target = DemandRecord_DemandKey record \/
     SchedulingMetadataValid (boundTo target (DemandRecord_Repo record) (DemandRecord_DemandKey record)
       (row_UpdatedAt target)) = false \/
     exists released, In (Ev (DemandOf (dr_ScaleSetID record) (key_JobID (row_Demand target))) (inr released)) h /\
       servedHere released target = true).

Definition aligned (record : DemandRecord) (live : list InstanceRow) (target : InstanceRow) (h h' : Calls)
    (r : Answer InstanceRow) : Prop :=
  incl h h' /\
  match r with
  | inr row => row_ID row = row_ID target /\ row_State row = row_State target
  | inl ErrUncertain => keepsBinding h' record live
  | inl _ => True
  end.

Lemma wp_rebindNow h0 h record live target :
  incl h0 h -> knows h record live -> In target live -> row_ID target = dr_RunnerName record ->
  rebindableRunnerState (row_State target) = true ->
  (forall i, In i live -> isBound record i = true -> row_ID i = "") -> releasable h record target ->
  wp storeAnswers mayWrite h (rebindNow target record) (aligned record live target h0).
Proof.
  intros Hi Hk Ht Hn Hs Hb Hr now _. split; [done|]. intros answer Ha. split.
  - exists record, live. split_and!; [auto with fleet|done..|]. destruct Hr as (a & Hin & Ha'). exists a.
    split; [|done]. apply in_or_app. by left.
  - split; [do 2 apply incl_appl; exact Hi|]. destruct answer as [err|]; [|done]. by destruct err.
Qed.

Lemma wp_rebind h record live target :
  knows h record live -> In target live -> row_ID target = dr_RunnerName record ->
  (forall i, In i live -> isBound record i = true -> row_ID i = "") ->
  wp storeAnswers mayWrite h (rebindRunnerDemand target record) (aligned record live target h).
Proof.
  intros Hk Ht Hn Hb. unfold rebindRunnerDemand. destruct (rebindableRunnerState (row_State target)) eqn:R; simpl.
  2:{ split; [apply incl_refl|]. exists target. tauto. }
  case_bool_decide as Hd; simpl.
  { split; [apply incl_refl|]. exists target. split_and!; [done..|]. right. by left. }
  destruct (SchedulingMetadataValid _) eqn:V; simpl.
  2:{ split; [apply incl_refl|]. exists target. split_and!; [done..|]. right. right. by left. }
  intros answer Ha. split; [done|].
  assert (In (Ev (DemandOf (dr_ScaleSetID record) (key_JobID (row_Demand target))) answer)
    (h ++ [Ev (DemandOf (dr_ScaleSetID record) (key_JobID (row_Demand target))) answer])) as Hin
    by (apply in_or_app; right; by left).
  assert (incl h (h ++ [Ev (DemandOf (dr_ScaleSetID record) (key_JobID (row_Demand target))) answer])) as Hi
    by (apply incl_appl, incl_refl).
  destruct answer as [err|released].
  - destruct err; try (split; [exact Hi|done]). apply (wp_rebindNow h _ record live); auto with fleet.
    by exists (inl ErrNotFound).
  - destruct (servedHere released target) eqn:S.
    + split; [exact Hi|]. exists target. split_and!; [done..|]. right. right. right. by exists released.
    + apply (wp_rebindNow h _ record live); auto with fleet. by exists (inr released).
Qed.

Lemma wp_align h record live target :
  knows h record live -> In target live -> row_ID target = dr_RunnerName record ->
  wp storeAnswers mayWrite h (alignRunnerDemand target live record) (aligned record live target h).
Proof.
  intros Hk Ht Hn. unfold alignRunnerDemand. destruct (_ || _ || _ || _); [split; [apply incl_refl|done]|].
  destruct (boundInstance _ _ _ _) as [err|source] eqn:B; [|apply boundInstance_spec in B as [_ B]].
  { split; [apply incl_refl|]. by rewrite (boundInstance_error _ _ _ _ _ B). }
  destruct source as [source|]; [|by apply wp_rebind].
  destruct B as [?|(Hs & Hb & Hne)]; [done|].
  case_bool_decide as Hid; [split; [apply incl_refl|done]|].
  destruct (sameMachine source target) eqn:I; simpl; [|split; [apply incl_refl|done]].
  destruct (_ || _); [split; [apply incl_refl|done]|].
  intros now _. split; [done|]. intros answer Ha. split.
  - exists record, live. split_and!; auto with fleet.
  - split; [do 2 apply incl_appl; apply incl_refl|]. destruct answer as [err|]; [|done]. by destruct err.
Qed.

(** ** One event *)

Definition nobody (record : DemandRecord) (live : list InstanceRow) : Prop :=
  forall id, id <> "" -> ~ standsFor record live id.

Definition eventOutcome (h : Calls) (r : Outcome) : Prop :=
  match r with
  | None => de_Kind event = DemandJobAvailable \/
      exists record live, knows h record live /\
        ((dr_Status record = DemandJobCompleted /\ nobody record live) \/ conclusion record live h None)
  | Some ErrUncertain => exists record live, knows h record live /\
      ((dr_Status record <> DemandJobCompleted /\ nobody record live) \/ keepsBinding h record live \/
       conclusion record live h (Some ErrUncertain))
  | Some _ => True
  end.

Lemma conclusion_outcome h record live r : knows h record live -> conclusion record live h r -> eventOutcome h r.
Proof.
  intros Hk Hc. destruct r as [err|]; [|right; by exists record, live; auto].
  destruct err; try done. exists record, live. auto.
Qed.

(** What was known stays known in the rest of the run. *)
Lemma wp_knows {A : Set} (p : Prog StoreCall A) h record live post :
  knows h record live -> wp storeAnswers mayWrite h p post ->
  wp storeAnswers mayWrite h p (fun h' a => knows h' record live /\ post h' a).
Proof.
  revert h. induction p as [a|X c k IH]; intros h Hk Hw; simpl; [done|].
  intros x Hx. destruct (Hw x Hx) as [Hg Hp]. split; [done|]. apply IH; [auto with fleet|done].
Qed.

Lemma wp_projectOnto h record live row :
  knows h record live -> standsFor record live (row_ID row) -> seen h (row_ID row) (row_State row) ->
  wp storeAnswers mayWrite h (projectOnto record (Some row)) eventOutcome.
Proof.
  intros Hk Hst Hs. eapply wp_mono; [|apply (wp_knows _ _ record live); [done|]].
  - intros h' r [Hk' Hc]. by eapply conclusion_outcome.
  - apply wp_projectRounds; [destruct (row_State row); simpl; lia|done..].
Qed.

Lemma wp_projectNobody h record live :
  knows h record live -> nobody record live -> wp storeAnswers mayWrite h (projectOnto record None) eventOutcome.
Proof.
  intros Hk Hn. simpl. case_bool_decide as Hc; [right|]; exists record, live; (split; [done|]); by left.
Qed.

Lemma wp_ProjectDemandEvent : wp storeAnswers mayWrite [] (ProjectDemandEvent set event) eventOutcome.
Proof.
  unfold ProjectDemandEvent. destruct (_ || _); [done|]. case_bool_decide as Ha; [by left|].
  intros [err|record] Hr; (split; [done|]); [by destruct err|].
  intros [err|live] Hl; (split; [done|]); [done|].
  match goal with |- wp _ _ ?h0 _ _ => set (h := h0) end. assert (knows h record live) as Hk.
  { unfold h. split; rewrite in_app_iff; simpl; tauto. }
  assert (forall i, In i live -> seen h (row_ID i) (row_State i)) as Hseen.
  { intros i Hi. exists i. split_and!; [done..|]. left. exists live. split; [apply Hk|done]. }
  case_bool_decide as Hname.
  - destruct (boundInstance _ _ _ _) as [err|[row|]] eqn:B.
    + by rewrite (boundInstance_error _ _ _ _ _ B).
    + apply boundInstance_spec in B as [_ [?|(Hi & Hb & Hne)]]; [done|].
      apply (wp_projectOnto h record live); [done| |by apply Hseen]. exists row. by rewrite bool_decide_eq_true_2.
    + apply boundInstance_spec in B as [_ B]. apply (wp_projectNobody h record live); [done|].
      intros id Hid (i & Hi & <- & Hb). rewrite bool_decide_eq_true_2 in Hb by done. by apply Hid, B.
  - destruct (List.find _ live) as [target|] eqn:F.
    + apply find_some in F as [Hi Ht]. bool_to_prop. apply wp_bind.
      eapply wp_mono; [|apply (wp_knows _ _ record live); [done|by apply wp_align]].
      intros h' [err|row] [Hk' [Hincl Hal]].
      * destruct err; try done. exists record, live. auto.
      * destruct Hal as [Hid Hs]. apply (wp_projectOnto h' record live); [done| |].
        { exists target. rewrite bool_decide_eq_false_2 by done. by rewrite Hid. }
        rewrite Hid, Hs. destruct (Hseen target Hi) as (row' & Hid' & Hs' & Hw). exists row'. split_and!; [done..|].
        destruct Hw as [(l & Hl' & Hin)|[[c Hin]|[t Hin]]]; [left; exists l|right; left; exists c|right; right; exists t]; auto.
    + apply (wp_projectNobody h record live); [done|]. intros id Hid (i & Hi & <- & Hb).
      rewrite bool_decide_eq_false_2 in Hb by done. pose proof (find_none _ _ F i Hi) as Hx. simpl in Hx.
      by rewrite bool_decide_eq_true_2 in Hx.
Qed.

End Event.

(** ** The sweep *)

Section Sweep.
Variable set : Z.

Definition sweepWrites (h : Calls) (ev : Event StoreCall) : Prop :=
  match ev with
  | Ev (TransitionBy t) _ => exists runners runner row generation now,
      In (Ev (CompletedRunners set) (inr runners)) h /\ In runner runners /\
      In (Ev (ActiveOn set runner) (inr false)) h /\ In (Ev (InstanceOf runner) (inr row)) h /\
      liveRunnerState (row_State row) = true /\ t = eventDrain row generation [] now
  | Ev (AdvanceBy _) _ | Ev (Swap _ _ _) _ | Ev (Rebind _ _ _ _) _ => False
  | _ => True
  end.

(** Every runner reported as drained was moved to draining by the store. *)
Definition swept (h : Calls) (r : list string * Outcome) : Prop :=
  Forall (fun runner => exists row row' generation now,
    In (Ev (InstanceOf runner) (inr row)) h /\
    In (Ev (TransitionBy (eventDrain row generation [] now)) (inr row')) h /\
    row_State row' = InstanceDraining) (fst r).

Lemma swept_incl h h' drained r r' : incl h h' -> swept h (drained, r) -> swept h' (drained, r').
Proof.
  intros Hi Hs. eapply Forall_impl; [exact Hs|]. intros runner (row & row' & g & now & Hr & Ht & Hd).
  exists row, row', g, now. auto.
Qed.

Lemma swept_more h ev drained r r' : swept h (drained, r) -> swept (h ++ [ev]) (drained, r').
Proof. apply swept_incl, incl_appl, incl_refl. Qed.

Lemma wp_drainOne h row runners runner (post : Calls -> Outcome -> Prop) :
  In (Ev (CompletedRunners set) (inr runners)) h -> In runner runners ->
  In (Ev (ActiveOn set runner) (inr false)) h -> In (Ev (InstanceOf runner) (inr row)) h ->
  liveRunnerState (row_State row) = true ->
  (forall h' err, incl h h' -> post h' (Some err)) ->
  (forall h' generation now row', incl h h' ->
     In (Ev (TransitionBy (eventDrain row generation [] now)) (inr row')) h' ->
     row_State row' = InstanceDraining -> post h' None) ->
  wp storeAnswers sweepWrites h (projectDemandRank row DemandJobCompleted) post.
Proof.
  intros Hc Hr Ha Hi Hl Herr Hok. unfold projectDemandRank. cbn [projectRounds].
  assert (wp storeAnswers sweepWrites h (enqueueDemandDrain row []) post) as He.
  { intros now _. split; [done|]. intros [err|generation] Hg; [done|]. split; [done|]. intros answer Hx.
    assert (forall ev, In ev h -> In ev ((h ++ [Ev Instant now]) ++ [Ev (DrainsBefore (row_ID row)) (inr generation)]))
      as Hin by (intros ev Hev; rewrite !in_app_iff; tauto).
    split; [exists runners, runner, row, generation, now; split_and!; auto|]. simpl.
    destruct answer as [err|row']; [apply Herr; intros ev Hev; apply in_or_app; auto|].
    eapply Hok; [intros ev Hev; apply in_or_app; auto|apply in_or_app; right; by left|apply Hx]. }
  unfold completedRound. by destruct (row_State row).
Qed.

Lemma wp_drainEach runners all : forall h drained,
  In (Ev (CompletedRunners set) (inr all)) h -> incl runners all -> swept h (drained, None) ->
  wp storeAnswers sweepWrites h (drainEach set runners drained) swept.
Proof.
  induction runners as [|runner rest IH]; intros h drained Hc Hi Hs; simpl; [done|].
  assert (incl rest all) as Hi' by (intros x Hx; apply Hi; by right).
  intros busy Hb. split; [done|]. destruct busy as [err|[]].
  { by eapply swept_more. }
  { apply IH; [apply in_or_app; by left|done|by eapply swept_more]. }
  intros instance Hin. split; [done|]. destruct instance as [err|row].
  { by apply (swept_more _ _ _ None), (swept_more _ _ _ None). }
  destruct (liveRunnerState (row_State row)) eqn:Hl.
  2:{ apply IH; [rewrite !in_app_iff; tauto|done|by apply (swept_more _ _ _ None), (swept_more _ _ _ None)]. }
  match goal with |- wp _ _ ?h0 _ _ => set (h1 := h0) end.
  assert (swept h1 (drained, None)) as Hs1 by (by apply (swept_more _ _ _ None), (swept_more _ _ _ None)).
  assert (incl h h1) as Hh by (unfold h1; do 2 apply incl_appl; apply incl_refl).
  assert (forall h' r, incl h1 h' -> swept h' (drained, r)) as Hkeep
    by (intros h' r Hh'; by eapply swept_incl).
  apply wp_bind. eapply (wp_drainOne h1 row all runner); [by apply Hh|apply Hi; by left|unfold h1; rewrite !in_app_iff; simpl; tauto
    |unfold h1; rewrite !in_app_iff; simpl; tauto|done| |].
  - intros h' err Hh'. destruct err; try (by apply Hkeep). apply IH; [by apply Hh', Hh|done|by apply Hkeep].
  - intros h' g now row' Hh' Ht Hst. apply IH; [by apply Hh', Hh|done|]. apply Forall_app. split; [by apply (Hkeep h' None)|].
    constructor; [|done]. exists row, row', g, now. split_and!; [apply Hh'; unfold h1; rewrite !in_app_iff; simpl; tauto|done..].
Qed.

Lemma wp_DrainCompletedRunners : wp storeAnswers sweepWrites [] (DrainCompletedRunners set) swept.
Proof.
  unfold DrainCompletedRunners. destruct (set <=? 0); [by constructor|].
  intros [err|runners] _; (split; [done|]); [by constructor|].
  apply (wp_drainEach runners runners); [by left|apply incl_refl|by constructor].
Qed.

End Sweep.

(** ** Claims *)

(** A projection writes only what the record entitles it to.  Whatever other
    writers do between its transactions, it moves only the instance that stands
    for the demand (the one GitHub names, or without a name the one bound to it),
    and only as far as the demand's durable status; it enqueues the event drain
    only for a completed demand, behind provisioning if that is still running; it
    exchanges two bindings only between sameMachine machines, and moves one
    only to a working runner that no other machine stands in for and whose own
    demand it did not serve; and the database stays reachable by the store's
    transactions. *)
Theorem projection_obeys_the_record m w set event :
  honest m -> Reachable (fst w) ->
  (forall before ev after, historyOf (execute (meets m) [] w (ProjectDemandEvent set event)) = before ++ ev :: after ->
     mayWrite set event before ev) /\
  Reachable (fst (stateOf (execute (meets m) [] w (ProjectDemandEvent set event)))).
Proof.
  intros Hm Hr.
  destruct (wp_store m _ (mayWrite set event) (eventOutcome set event) w Hm Hr (wp_ProjectDemandEvent set event))
    as (_ & Hg & Hd).
  split; [|done]. intros before ev after Hh. apply (Hg before ev after Hh). lia.
Qed.

(** A projection that succeeds has caught up.  When it reports success for
    more than an announcement, the instance that stands for the demand was seen
    in a state that agrees with the demand's status, or the demand is completed
    and no instance stands for it.  It reports uncertainty only when nothing
    stands for an unfinished demand, when the runner keeps its binding for one of
    the stated reasons, or when the instance is in a state the status cannot be
    reached from; so the five rounds of its loop are always enough. *)
Theorem projection_catches_up m w set event :
  honest m -> Reachable (fst w) ->
  eventOutcome set event (historyOf (execute (meets m) [] w (ProjectDemandEvent set event)))
    (snd (execute (meets m) [] w (ProjectDemandEvent set event))).
Proof.
  intros Hm Hr.
  apply (wp_store m _ (mayWrite set event) (eventOutcome set event) w Hm Hr (wp_ProjectDemandEvent set event)).
Qed.

(** The sweep over completed runners enqueues drains and nothing else, each for
    a runner that the store listed as completed, on which it then found no
    started job, and whose row it then read in a live state; and every runner it
    reports as drained was moved to draining by the store. *)
Theorem sweep_drains_only_finished_runners m w set :
  honest m -> Reachable (fst w) ->
  (forall before ev after, historyOf (execute (meets m) [] w (DrainCompletedRunners set)) = before ++ ev :: after ->
     sweepWrites set before ev) /\
  swept (historyOf (execute (meets m) [] w (DrainCompletedRunners set))) (snd (execute (meets m) [] w (DrainCompletedRunners set))) /\
  Reachable (fst (stateOf (execute (meets m) [] w (DrainCompletedRunners set)))).
Proof.
  intros Hm Hr.
  destruct (wp_store m _ (sweepWrites set) swept w Hm Hr (wp_DrainCompletedRunners set)) as (Hs & Hg & Hd).
  split; [|done]. intros before ev after Hh. apply (Hg before ev after Hh). lia.
Qed.

End Spec.

(** ** Two crossed runners

    The broker dispatched request 11 to the machine that was started for request
    12, and reports it completed. *)

#[local] Instance planNames : PlanDigest := {| Digest p := dp_ID p |}.
#[local] Instance recoveryNames : CleanupIdentity := {| recoveryID id := "recovered-" +:+ id |}.

Definition crossedRow (id : string) (job : Z) : InstanceRow :=
  {| row_ID := id; row_Repo := "acme/app"; row_Platform := PlatformMacOS; row_Profile := "xl"; row_Route := "xl";
     row_Resources := {| CPU := 4; MemoryMB := 8192; Slots := 1 |};
     row_Demand := {| key_Repo := "acme/app"; key_RunID := 7; key_Attempt := 1; key_JobID := job |};
     row_Image := ""; row_State := InstanceRunning; row_Version := 5; row_DrainPhase := 0;
     row_Ownership := {| ControllerID := "fleet"; own_ResourceID := "job"; own_OperationID := "clone-" +:+ id |};
     row_LastError := ""; row_CreatedAt := midday; row_UpdatedAt := midday |}.

Definition createdIn (db : Db) (row : InstanceRow) : Db :=
  match CreateInstance midday db row with inr db' => db' | inl _ => db end.

Definition crossedDb : Db := createdIn (createdIn emptyDb (crossedRow "vm-1" 11)) (crossedRow "vm-2" 12).

Lemma crossedDb_reachable : Reachable crossedDb.
Proof.
  eapply rtc_l; [eapply (step_create midday emptyDb (crossedRow "vm-1" 11)); vm_compute; reflexivity|].
  eapply rtc_l; [eapply (step_create midday _ (crossedRow "vm-2" 12)); vm_compute; reflexivity|apply rtc_refl].
Qed.

Definition crossedEvent : DemandEvent :=
  {| de_Kind := DemandJobCompleted; de_RunnerRequestID := 11; de_Owner := "acme"; de_Repository := "app";
     de_WorkflowRunID := 7; de_JobID := "a"; de_DisplayName := "build"; de_WorkflowRef := ""; de_EventName := "push";
     de_Labels := Some ["xl"]; de_QueueTime := midday; de_RunnerID := 2; de_RunnerName := "vm-2";
     de_Result := "succeeded" |}.

Definition crossedInbox : Inbox :=
  match ApplyDemandBatch (H := plainDigest) midday emptyInbox 4 1 [crossedEvent] with
  | inr (ib, _) => ib
  | inl _ => emptyInbox
  end.

Definition undisturbed : Meanwhile := {| mw_clock _ := midday; mw_others _ w := w |}.

Lemma undisturbed_honest : honest undisturbed.
Proof. intros h w. apply rtc_refl. Qed.

Definition crossedRun := execute (meets undisturbed) [] (crossedDb, crossedInbox) (ProjectDemandEvent 4 crossedEvent).

Lemma projection_obeys_the_record_witness :
  historyOf crossedRun = firstn 3 (historyOf crossedRun)
    ++ Ev (Swap (crossedRow "vm-1" 11) (crossedRow "vm-2" 12) midday) (inr tt) :: skipn 4 (historyOf crossedRun) /\
  (exists row, db_instances (fst (stateOf crossedRun)) !! "vm-2" = Some row /\ row_State row = InstanceDraining /\
     key_JobID (row_Demand row) = 11) /\
  mayWrite 4 crossedEvent (firstn 3 (historyOf crossedRun))
    (Ev (Swap (crossedRow "vm-1" 11) (crossedRow "vm-2" 12) midday) (inr tt)) /\
  Reachable (fst (stateOf crossedRun)).
Proof.
  assert (historyOf crossedRun = firstn 3 (historyOf crossedRun)
    ++ Ev (Swap (crossedRow "vm-1" 11) (crossedRow "vm-2" 12) midday) (inr tt) :: skipn 4 (historyOf crossedRun)) as Hh
    by (vm_compute; reflexivity).
  split; [exact Hh|]. split; [eexists; split; [vm_compute; reflexivity|split; reflexivity]|].
  destruct (projection_obeys_the_record undisturbed (crossedDb, crossedInbox) 4 crossedEvent
    undisturbed_honest crossedDb_reachable) as [Hw Hr].
  split; [exact (Hw _ _ _ Hh)|exact Hr].
Defined.

Lemma projection_catches_up_witness :
  snd crossedRun = None /\ eventOutcome 4 crossedEvent (historyOf crossedRun) (snd crossedRun).
Proof.
  split; [vm_compute; reflexivity|].
  exact (projection_catches_up undisturbed (crossedDb, crossedInbox) 4 crossedEvent
    undisturbed_honest crossedDb_reachable).
Defined.

Definition sweepRun := execute (meets undisturbed) [] (crossedDb, crossedInbox) (DrainCompletedRunners 4).

Lemma sweep_drains_only_finished_runners_witness :
  snd sweepRun = (["vm-2"], None) /\ swept (historyOf sweepRun) (snd sweepRun) /\ Reachable (fst (stateOf sweepRun)).
Proof.
  split; [vm_compute; reflexivity|].
  exact (proj2 (sweep_drains_only_finished_runners undisturbed (crossedDb, crossedInbox) 4
    undisturbed_honest crossedDb_reachable)).
Defined.
