(* ===== verification/Durability.v ===== *)
(** * Guarantees of the durable store

    What the reachable databases promise the planner and the workers, and one
    promise they do not keep. *)

From Stdlib Require Import ZArith Lia String Permutation Sorted.
From stdpp Require Import base tactics list gmap strings relations.
From S2P Require Import Prelude GoStrings Liveness Domain Operations Failure Store Outbox.

(** ** A concrete node's database *)

#[local] Instance plainDigest : PlanDigest := {| Digest p := dp_ID p |}.
#[local] Instance plainRecovery : CleanupIdentity := {| recoveryID id := "recovered-" +:+ id |}.

Definition noon : Time := unixEpoch + 1000 * Hour.

Definition due (id kind resource : string) (deps : list string) : DurableOperation :=
  {| do_ID := id; do_IdempotencyKey := "key-" +:+ id; do_EffectKey := kind +:+ ":" +:+ resource; do_Kind := kind;
     do_ResourceID := resource; do_Payload := ""; do_Status := OperationPending; do_Attempts := 0;
     do_AvailableAt := noon; do_LeaseOwner := ""; do_LeaseUntil := zeroTime; do_LastError := "";
     do_CreatedAt := zeroTime; do_UpdatedAt := zeroTime; do_DependsOn := deps |}.

(** A drain and the spawn that waits for it. *)
Definition handover : DurablePlan :=
  {| dp_ID := "plan-1"; dp_ExpectedSchedulerVersion := 0;
     dp_Scheduler := {| ss_Version := 1; ss_Data := ""; ss_Reservations := ""; ss_DeficitRoundRobin := "";
                        ss_ObservationCursor := "" |};
     dp_Instances := []; dp_CreatedAt := noon;
     dp_Operations := [due "drain" OperationDrainKind "vm-1" []; due "spawn" OperationProvisionKind "vm-2" ["drain"]] |}.

Definition applied (db : Db) (plan : DurablePlan) : Db :=
  match ApplyPlan db plan with inr (db', _) => db' | inl _ => db end.

Definition claimedBy (db : Db) (owner : string) (now : Time) : Db :=
  match Claim db owner 10 now Minute with inr (db', _) => db' | inl _ => db end.

Definition vm1 : InstanceRow :=
  {| row_ID := "vm-1"; row_Repo := ""; row_Platform := PlatformOther ""; row_Profile := ""; row_Route := "";
     row_Resources := zeroResources; row_Demand := zeroDemandKey; row_Image := ""; row_State := InstanceDraining;
     row_Version := 3; row_DrainPhase := 1;
     row_Ownership := {| ControllerID := "fleet"; own_ResourceID := "job"; own_OperationID := "clone-1" |};
     row_LastError := ""; row_CreatedAt := noon; row_UpdatedAt := noon |}.

Definition inhabited : Db := match CreateInstance noon emptyDb vm1 with inr db => db | inl _ => emptyDb end.

Definition planned1 : Db := applied inhabited handover.
Definition draining1 : Db := claimedBy planned1 "worker" noon.

Lemma planned1_reachable : Reachable planned1.
Proof.
  eapply rtc_l; [eapply (step_create noon emptyDb vm1); vm_compute; reflexivity|].
  eapply rtc_l; [|apply rtc_refl]. eapply (step_apply inhabited handover). vm_compute. reflexivity.
Qed.

Lemma draining1_reachable : Reachable draining1.
Proof.
  eapply rtc_r; [exact planned1_reachable|].
  eapply (step_claim planned1 "worker" 10 noon Minute). vm_compute. reflexivity.
Qed.

(** ** Order *)

Section Guarantees.
Context `{PlanDigest} `{CleanupIdentity}.

Definition waitsFor (db : Db) (o d : string) : Prop := (o, d) ∈ db_dependencies db.

(** C11: No operation runs before what it depends on.  In every reachable database
    an operation that is claimed or completed has every prerequisite, direct or
    through others, completed. *)
Theorem operations_run_in_dependency_order db id row d :
  Reachable db -> db_operations db !! id = Some row ->
  o_status row = OperationClaimed \/ o_status row = OperationCompleted ->
  tc (waitsFor db) id d -> statusOf db d = Some OperationCompleted.
Proof.
  intros R Hr Hran Ht. pose proof (Reachable_consistent db R) as C. revert row Hr Hran.
  induction Ht as [o d Hd|o m d Hd _ IH]; intros row Hr Hran.
  - by eapply (con_order _ C).
  - pose proof (con_order _ C _ _ Hr Hran m Hd) as Hm. unfold statusOf in Hm.
    destruct (db_operations db !! m) as [rm|] eqn:Em; [|done]. injection Hm as Hm.
    eapply IH; [reflexivity|]. by right.
Qed.

(** ** Effects *)

Lemma Complete_true db id owner effect now db' :
  Complete db id owner effect now = inr (db', true) ->
  db_effects db !! effect = None /\ db_effects db' !! effect = Some id.
Proof.
  unfold Complete. destruct (db_operations db !! id) as [row|]; [|done]. intros HR. refuse HR.
  destruct (bool_decide (o_status row = OperationCompleted)); [done|]. refuse HR. destruct (db_effects db !! effect) eqn:E; [done|].
  injection HR as <-. simpl. by rewrite lookup_insert_eq.
Qed.

(** An effect is acknowledged at most once.  After a completion that recorded
    an effect, no completion of any operation records the same effect again,
    whatever transactions run in between; redeliveries and superseding attempts
    included. *)
Theorem effect_is_recorded_once db id owner effect now db1 db2 id' owner' now' db3 b :
  Complete db id owner effect now = inr (db1, true) -> rtc DbStep db1 db2 ->
  Complete db2 id' owner' effect now' = inr (db3, b) -> b = false.
Proof.
  intros Hc Hs Hc'. apply Complete_true in Hc as [_ He]. pose proof (gr_effects _ _ (DbSteps_grow _ _ Hs) _ _ He) as He2.
  destruct b; [|done]. apply Complete_true in Hc' as [Hn _]. congruence.
Qed.

(** ** History *)

(** Every recorded transition is legal.  In every reachable database each row
    of the transition history is an edge of the instance state machine, or an
    operator's discharge retiring an instance from a cleanup or failed state;
    and an instance row is always in a known state under its own id. *)
Theorem recorded_transitions_are_legal db :
  Reachable db ->
  Forall (fun h => CanTransitionTo (h_from h) (h_to h) = true \/
                   (reapable (h_from h) = true /\ h_to h = InstanceDeleted)) (db_history db) /\
  (forall id row, db_instances db !! id = Some row -> row_ID row = id /\ ValidState (row_State row) = true).
Proof. intros R. apply Reachable_consistent in R. split; [apply R|apply (con_ids _ R)]. Qed.

(** C36: The database is well formed.  In every reachable database both ends of a
    dependency are stored operations, no two operations share an idempotency key,
    a recorded effect belongs to a completed operation that declared it, an
    operation has a lease owner exactly while it is claimed, and an instance is
    stored under its own identifier in a known state. *)
Theorem database_is_well_formed db :
  Reachable db ->
  (forall o d, (o, d) ∈ db_dependencies db -> is_Some (db_operations db !! o) /\ is_Some (db_operations db !! d)) /\
  (forall i j ri rj, db_operations db !! i = Some ri -> db_operations db !! j = Some rj -> o_key ri = o_key rj -> i = j) /\
  (forall k id, db_effects db !! k = Some id ->
     exists row, db_operations db !! id = Some row /\ o_effect row = k /\ o_status row = OperationCompleted) /\
  (forall id row, db_operations db !! id = Some row -> (o_status row = OperationClaimed <-> o_owner row <> "")) /\
  (forall id row, db_instances db !! id = Some row -> row_ID row = id /\ ValidState (row_State row) = true).
Proof. intros R. apply Reachable_consistent in R as []. done. Qed.

(** ** A gap *)

(** C40: A discharged prerequisite blocks its dependents for good.  Only a dead
    prerequisite dooms what waits for it, and only a completed one releases it;
    so an operation whose prerequisite is discharged before the next claim is
    never claimed or completed by any later sequence of transactions. *)
Theorem discharged_prerequisite_blocks_forever db db' o d :
  Reachable db -> waitsFor db o d -> statusOf db d = Some OperationDischarged -> rtc DbStep db db' ->
  statusOf db' o <> Some OperationClaimed /\ statusOf db' o <> Some OperationCompleted.
Proof.
  intros R Hw Hd Hs. pose proof (DbSteps_grow _ _ Hs) as G.
  pose proof (DbSteps_consistent _ _ Hs (Reachable_consistent _ R)) as C.
  pose proof (gr_deps _ _ G _ _ Hw Hd) as Hw'. pose proof (Grows_discharged _ _ _ G Hd) as Hd'.
  enough (forall s, statusOf db' o = Some s -> ran s -> False) as Hn.
  { split; intros Hx; eapply Hn; try exact Hx; [by left|by right]. }
  intros s Hx Hran. unfold statusOf in Hx. destruct (db_operations db' !! o) as [row|] eqn:E; [|done].
  injection Hx as <-. pose proof (con_order _ C _ _ E Hran d Hw'). congruence.
Qed.
End Guarantees.

Lemma operations_run_in_dependency_order_witness :
  exists db row, Reachable db /\ db_operations db !! "spawn" = Some row /\ o_status row = OperationClaimed /\
    statusOf db "drain" = Some OperationCompleted.
Proof.
  set (db1 := match Complete draining1 "drain" "worker" "deregister:vm-1" noon with inr (d, _) => d | inl _ => draining1 end).
  set (db2 := claimedBy db1 "worker" noon).
  assert (Reachable db2) as R.
  { eapply rtc_r; [eapply rtc_r; [exact draining1_reachable|]|].
    - eapply (step_complete draining1 "drain" "worker" "deregister:vm-1" noon). vm_compute. reflexivity.
    - eapply (step_claim db1 "worker" 10 noon Minute). vm_compute. reflexivity. }
  eexists db2, _. split; [exact R|]. split; [vm_compute; reflexivity|]. split; [reflexivity|].
  refine (operations_run_in_dependency_order db2 "spawn" _ "drain" R _ _ _).
  - vm_compute. reflexivity.
  - left. reflexivity.
  - apply tc_once. apply (bool_decide_eq_true_1 (("spawn", "drain") ∈ db_dependencies db2)). vm_compute. reflexivity.
Defined.

Lemma effect_is_recorded_once_witness :
  exists db1, Complete draining1 "drain" "worker" "deregister:vm-1" noon = inr (db1, true) /\
    forall db2, Complete db1 "drain" "worker" "deregister:vm-1" noon = inr (db2, true) -> False.
Proof.
  eexists. split; [vm_compute; reflexivity|]. intros db2 E.
  refine (Bool.diff_true_false (effect_is_recorded_once draining1 "drain" "worker" "deregister:vm-1" noon _ _
            "drain" "worker" noon db2 true _ (rtc_refl _ _) E)).
  vm_compute. reflexivity.
Defined.

Definition abandonment : Discharge :=
  {| dis_OperationID := "drain"; dis_InstanceID := "vm-1"; dis_ReapInstance := true; dis_Reason := "host lost";
     dis_At := noon |}.

(** The drain is dead-lettered and discharged before another claim runs. *)
Definition dead1 : Db :=
  match Retry noon draining1 "drain" "worker" "runner lifecycle failed at stop" noon true with
  | inr db => db | inl _ => draining1 end.
Definition discharged1 : Db :=
  match DischargeDeadLetter dead1 abandonment with inr (db, _) => db | inl _ => dead1 end.

Lemma discharged1_reachable : Reachable discharged1.
Proof.
  eapply rtc_r; [eapply rtc_r; [exact draining1_reachable|]|].
  - eapply (step_retry noon draining1 "drain" "worker" "runner lifecycle failed at stop" noon true).
    vm_compute. reflexivity.
  - eapply (step_discharge dead1 abandonment). vm_compute. reflexivity.
Qed.

Lemma recorded_transitions_are_legal_witness :
  map (fun h => (h_from h, h_to h)) (db_history discharged1) = [(InstanceDraining, InstanceDeleted)] /\
  Forall (fun h => CanTransitionTo (h_from h) (h_to h) = true \/
                   (reapable (h_from h) = true /\ h_to h = InstanceDeleted)) (db_history discharged1).
Proof.
  split; [vm_compute; reflexivity|].
  exact (proj1 (recorded_transitions_are_legal discharged1 discharged1_reachable)).
Defined.

Lemma discharged_prerequisite_blocks_forever_witness :
  statusOf discharged1 "spawn" = Some OperationPending /\
  forall db', rtc DbStep discharged1 db' -> statusOf db' "spawn" <> Some OperationClaimed.
Proof.
  split; [vm_compute; reflexivity|]. intros db' Hs.
  refine (proj1 (discharged_prerequisite_blocks_forever discharged1 db' "spawn" "drain" discharged1_reachable _ _ Hs)).
  - apply (bool_decide_eq_true_1 (("spawn", "drain") ∈ db_dependencies discharged1)). vm_compute. reflexivity.
  - vm_compute. reflexivity.
Defined.

Lemma database_is_well_formed_witness :
  statusOf discharged1 "spawn" = Some OperationPending /\
  forall id row, db_operations discharged1 !! id = Some row -> (o_status row = OperationClaimed <-> o_owner row <> "").
Proof.
  split; [vm_compute; reflexivity|].
  exact (proj1 (proj2 (proj2 (proj2 (database_is_well_formed discharged1 discharged1_reachable))))).
Defined.
