(* ===== verification/DischargeSpec.v ===== *)
(** * What the discharge service promises

    The row is retired before the machine, each on its own evidence, and stays retired;
    and one cleanup effect is resumed automatically at most three times, whatever else
    happens to the database in between. *)

From Stdlib Require Import ZArith Lia String List Permutation.
From stdpp Require Import base tactics list gmap strings relations.
From S2P Require Import Prelude GoStrings Liveness Domain Operations Failure Effects Store Ports Projection Outbox Durability Discharge.

#[local] Open Scope prog_scope.
#[local] Open Scope store_scope.

(** ** A retired row stays retired *)

Definition Buried (db : Db) (id : string) : Prop :=
  exists row, db_instances db !! id = Some row /\ row_State row = InstanceDeleted.

Lemma deleted_is_final s : CanTransitionTo InstanceDeleted s = false.
Proof. by destruct s. Qed.

Section Burial.
Context `{PlanDigest} `{CleanupIdentity}.

(** What a transaction may do to the rows: leave them, add one, or change one that is
    not deleted, or change a deleted one into a deleted one. *)
Lemma Buried_side db db' id : db_instances db' = db_instances db -> Buried db id -> Buried db' id.
Proof. intros E (row & Hr & Hs). exists row. by rewrite E. Qed.

Lemma Buried_insert db db' id key row' :
  db_instances db' = <[key := row']> (db_instances db) ->
  (forall row, db_instances db !! key = Some row -> row_State row = InstanceDeleted -> row_State row' = InstanceDeleted) ->
  Buried db id -> Buried db' id.
Proof.
  intros E Hk (row & Hr & Hs). unfold Buried. rewrite E. destruct (decide (key = id)) as [->|Hne].
  - exists row'. rewrite lookup_insert_eq. split; [done|]. by eapply Hk.
  - exists row. by rewrite lookup_insert_ne.
Qed.

Lemma moveInstance_buried db i expected version next phase err op now db' row id :
  CanTransitionTo expected next = true -> moveInstance db i expected version next phase err op now = inr (db', row) ->
  Buried db id -> Buried db' id.
Proof.
  intros Ht. unfold moveInstance. destruct (db_instances db !! i) as [r|] eqn:Er; [|done].
  destruct (_ && _) eqn:G; [|done]. intros [= <- <-]. eapply (Buried_insert db _ id i); [done|].
  intros r' Hr' Hd. bool_to_prop. exfalso. rewrite Er in Hr'. injection Hr' as <-.
  assert (expected = InstanceDeleted) as -> by congruence. by rewrite deleted_is_final in Ht.
Qed.

Lemma insertRow_buried db key row db' id : insertRow db key row = inr db' -> Buried db id -> Buried db' id.
Proof. intros E. apply insertRow_inr in E as (_ & _ & ->). by apply Buried_side. Qed.

Lemma bindInstance_buried db current repo demand now db' id :
  bindInstance db current repo demand now = inr db' -> Buried db id -> Buried db' id.
Proof.
  unfold bindInstance. destruct (db_instances db !! row_ID current) as [r|] eqn:Er; [|done].
  destruct (_ && _ && _); [|done]. intros [= <-]. eapply (Buried_insert db _ id (row_ID current)); [done|].
  intros r' Hr' Hd. rewrite Er in Hr'. by injection Hr' as <-.
Qed.

Lemma claimEach_instances owner now leaseFor ids : forall db, db_instances (fst (claimEach owner now leaseFor ids db)) = db_instances db.
Proof.
  induction ids as [|i ids IH]; intros db; simpl; [done|]. destruct (db_operations db !! i); [|apply IH].
  destruct (claimable now o); [|apply IH]. set (db2 := setOperations db _). pose proof (IH db2) as E.
  by destruct (claimEach owner now leaseFor ids db2).
Qed.


Lemma applyIntent_buried created db intent db' id :
  intentValid intent = true -> applyIntent created db intent = inr db' -> Buried db id -> Buried db' id.
Proof.
  intros V. unfold applyIntent, insertInstance. destruct (ExpectedVersion intent <? 0) eqn:Ev.
  - destruct (db_instances db !! _) eqn:En; [done|]. intros [= <-]. eapply Buried_insert; [done|]. intros r Hr. congruence.
  - destruct (db_instances db !! _) as [r|] eqn:Er; [|done]. destruct (_ && _ && _) eqn:G; [|done].
    intros [= <-]. eapply Buried_insert; [done|]. intros r' Hr' Hd. rewrite Er in Hr'. injection Hr' as <-.
    exfalso. bool_to_prop. unfold intentValid in V. destruct (_ || _ || _ || _); [done|].
    rewrite (proj2 (Z.leb_le 0 _)) in V by lia. assert (ExpectedState intent = InstanceDeleted) as Ed by congruence.
    rewrite Ed, deleted_is_final, orb_true_r in V. done.
Qed.

Lemma DurablePlan_intents plan intent : DurablePlan_Valid plan = true -> In intent (dp_Instances plan) -> intentValid intent = true.
Proof.
  unfold DurablePlan_Valid. rewrite !andb_true_iff. intros [[[_ V] _] _] Hi. by apply (proj1 (List.forallb_forall _ _) V).
Qed.

Lemma eachOf_buried {A} (step : Db -> A -> Result Db) l db db' id :
  (forall x d d', In x l -> step d x = inr d' -> Buried d id -> Buried d' id) -> eachOf step l db = inr db' ->
  Buried db id -> Buried db' id.
Proof. intros Hs E B. revert E. apply (eachOf_ind (fun d => Buried d id)); [done|]. intros x d d' Hx Hd E. by eapply Hs. Qed.

Lemma ApplyPlan_buried db plan db' b id : ApplyPlan db plan = inr (db', b) -> Buried db id -> Buried db' id.
Proof.
  intros HR B. unfold ApplyPlan in HR. destruct (DurablePlan_Valid plan) eqn:V; [|done]. cbn [negb] in HR.
  destruct (db_plans db !! dp_ID plan).
  { destruct (bool_decide _); [|done]. by injection HR as <- <-. }
  destruct (db_scheduler db); [|done]. refuse HR.
  destruct (eachOf (applyIntent _) _ db) as [|db1] eqn:E1; cbn [rbind] in HR; [done|].
  destruct (eachOf (fun d op => insertOperation d op _) _ db1) as [|db2] eqn:E2; cbn [rbind] in HR; [done|].
  destruct (eachOf _ (dp_Operations plan) db2) as [|db3] eqn:E3; cbn [rbind] in HR; [done|].
  injection HR as <- <-. apply (Buried_side db3); [done|].
  eapply eachOf_buried; [|exact E3|]; [intros x d d' _ E; apply Buried_side; exact (recordDependencies_instances _ _ _ _ E)|].
  eapply eachOf_buried; [|exact E2|]; [intros x d d' _ E; exact (insertRow_buried _ _ _ _ _ E)|].
  eapply eachOf_buried; [|exact E1|done]. intros x d d' Hx E. eapply applyIntent_buried; [|exact E].
  by eapply DurablePlan_intents.
Qed.

Lemma ResumeCleanup_buried db key resource stopped at_ db' id :
  ResumeCleanup db key resource stopped at_ = inr db' -> Buried db id -> Buried db' id.
Proof.
  intros HR B. unfold ResumeCleanup in HR. refuse HR.
  destruct (db_operations db !! key) as [old|] eqn:E; [|done]. refuse HR.
  destruct (bool_decide (o_status old = OperationDischarged)); [by injection HR as <-|].
  refuse HR. refuse HR. unfold Instance_read in HR.
  destruct (db_instances db !! resource) as [i|] eqn:Ei; cbn [rbind] in HR; [|done].
  refuse HR. refuse HR. refuse HR.
  destruct (insertRow db _ _) as [|db1] eqn:E1; cbn [rbind] in HR; [done|]. injection HR as <-.
  pose proof (insertRow_buried _ _ _ _ id E1 B) as B1. apply insertRow_inr in E1 as (_ & _ & Hd1).
  destruct (stopped && _) eqn:G; [|by apply (Buried_side db1)]. apply andb_true_iff in G as [_ G].
  eapply (Buried_insert db1 _ id resource); [reflexivity| |exact B1]. intros r Hr Hd. exfalso. rewrite Hd1 in Hr. simpl in Hr.
  rewrite Ei in Hr. injection Hr as <-. by rewrite Hd in G.
Qed.

Lemma Discharge_buried db d db' out id : DischargeDeadLetter db d = inr (db', out) -> Buried db id -> Buried db' id.
Proof.
  intros HR B. unfold DischargeDeadLetter in HR. refuse HR.
  destruct (db_operations db !! dis_OperationID d) as [row|] eqn:E; [|done]. refuse HR. refuse HR. refuse HR.
  set (db1 := if bool_decide _ then _ else db) in *.
  assert (Buried db1 id) as B1 by (subst db1; destruct (bool_decide (o_status row = OperationDead)); [by apply (Buried_side db)|done]).
  unfold Instance_read in HR. destruct (db_instances db1 !! dis_InstanceID d) as [i|]; cbn [rbind] in HR; [|done].
  destruct (dis_ReapInstance d && _); [|by injection HR as <- <-].
  destruct (reapInstance db1 i _) as [|db2] eqn:Er; cbn [rbind] in HR; [done|]. injection HR as <- <-.
  unfold reapInstance in Er. destruct (db_instances db1 !! row_ID i); [|done]. accept Er.
  injection Er as <-. by eapply Buried_insert.
Qed.

Lemma Advance_buried clock db c db' row id : Advance clock db c = inr (db', row) -> Buried db id -> Buried db' id.
Proof.
  intros E B.
  unfold Advance in E. destruct (stateChangeInvalid c) eqn:V; [done|].
  destruct (moveInstance _ _ _ _ _ _ _ _ _) as [|[d r]] eqn:Em; cbn [rbind] in E; [done|].
  assert (Buried d id) as Bd.
  { eapply moveInstance_buried; [|exact Em|done]. unfold stateChangeInvalid in V. bool_to_prop. done. }
  destruct (bool_decide (sc_SettlesID c = "")); [by injection E as <- <-|]. unfold settle in E. cbn [fst snd] in E.
  destruct (db_operations d !! sc_SettlesID c); cbn [rbind] in E; [|done].
  destruct (_ && _ && _); cbn [rbind] in E; [|done]. injection E as <- <-. by apply (Buried_side d).
Qed.

Lemma Transition_buried clock db t db' row id : Transition clock db t = inr (db', row) -> Buried db id -> Buried db' id.
Proof.
  intros E B.
  unfold Transition in E. destruct (_ || _ || _ || _ || _) eqn:V; [done|].
  destruct (operationByKey _ _); [unfold Instance_read in E; destruct (db_instances db !! _); cbn [rbind] in E; [|done];
    refuse E; by injection E as <- <-|].
  destruct (moveInstance _ _ _ _ _ _ _ _ _) as [|[d r]] eqn:Em; cbn [rbind fst snd] in E; [done|].
  destruct (insertRow d _ _) as [|d2] eqn:E2; cbn [rbind] in E; [done|].
  destruct (recordDependencies d2 _ _) as [|d3] eqn:E3; cbn [rbind] in E; [done|]. injection E as <- <-.
  eapply Buried_side; [by eapply recordDependencies_instances|]. eapply insertRow_buried; [exact E2|].
  eapply moveInstance_buried; [|exact Em|done]. bool_to_prop. done.
Qed.

Lemma DbStep_buried db db' id : DbStep db db' -> Buried db id -> Buried db' id.
Proof.
  intros S B. destruct S as
    [db plan db' b E|clock db i db' E|db|clock db c db' row E|clock db t db' row E|db owner limit now leaseFor db' ops E
    |db key owner now leaseFor db' E|db key owner effect now db' b E|clock db key owner msg av dead db' E|db now|db d db' out E
    |db key resource stopped at_ db' E|db name owner now ttl db' lease E|db lease now ttl db' lease' E|db lease db' E
    |db resource o db' E|db current repo demand now db' E|db source target now db' E].
  - by eapply ApplyPlan_buried.
  - unfold CreateInstance in E. refuse E. unfold insertInstance in E.
    destruct (db_instances db !! row_ID i) eqn:En; [done|]. injection E as <-. eapply Buried_insert; [done| |exact B].
    intros r Hr. congruence.
  - unfold ReseedSchedulerState. destruct (db_scheduler db); [done|by apply (Buried_side db)].
  - by eapply Advance_buried.
  - by eapply Transition_buried.
  - unfold Claim in E. refuse E. injection E as E. apply (Buried_side db); [|done].
    pose proof (claimEach_instances owner now leaseFor (selected now limit (propagate now db)) (propagate now db)) as Ec.
    rewrite E in Ec. exact Ec.
  - unfold RenewOperation in E. refuse E. destruct (db_operations db !! key); [|done]. accept E. injection E as <-.
    by apply (Buried_side db).
  - unfold Complete in E. destruct (db_operations db !! key) as [row|]; [|done]. refuse E.
    destruct (bool_decide (o_status row = _)); [by injection E as <- <-|]. refuse E.
    destruct (db_effects db !! effect); injection E as <- <-; by apply (Buried_side db).
  - unfold Retry in E. destruct (db_operations db !! key); [|done]. accept E. injection E as <-. by apply (Buried_side db).
  - by apply (Buried_side db).
  - by eapply Discharge_buried.
  - by eapply ResumeCleanup_buried.
  - unfold AcquireLease in E. refuse E. destruct (db_leases db !! name); [accept E|]; injection E as <- <-; by apply (Buried_side db).
  - unfold RenewLease in E. destruct (db_leases db !! _); [|done]. accept E. injection E as <- <-. by apply (Buried_side db).
  - unfold ReleaseLease in E. destruct (db_leases db !! _); [|done]. accept E. injection E as <-. by apply (Buried_side db).
  - unfold PutOwnership in E. refuse E. destruct (db_ownership db !! resource); [accept E|]; injection E as <-; [done|].
    by apply (Buried_side db).
  - by eapply bindInstance_buried.
  - unfold swapInstances in E. destruct (bindInstance _ _ _ _ _) as [|db1] eqn:Eb; [done|].
    eapply bindInstance_buried; [exact E|]. by eapply bindInstance_buried.
Qed.

Lemma DbSteps_buried db db' id : rtc DbStep db db' -> Buried db id -> Buried db' id.
Proof. induction 1 as [|db1 db2 db3 S _ IH]; [done|]. intros B. apply IH. by eapply DbStep_buried. Qed.

(** What an accepted discharge has done: the operation is closed, nothing of the
    resource progresses, the ownership is the row's, and a reap leaves the row deleted. *)
Lemma Discharge_done db d db' out :
  Consistent db -> DischargeDeadLetter db d = inr (db', out) ->
  statusOf db' (dis_OperationID d) = Some OperationDischarged /\ progressing db (dis_InstanceID d) = false /\
  (exists row, db_instances db !! dis_InstanceID d = Some row /\ out_Ownership out = row_Ownership row) /\
  (dis_ReapInstance d = true -> Buried db' (dis_InstanceID d)).
Proof.
  intros C HR. unfold DischargeDeadLetter in HR. refuse HR.
  destruct (db_operations db !! dis_OperationID d) as [row|] eqn:E; [|done].
  destruct (bool_decide (o_resource row = dis_InstanceID d)) eqn:Er; [|done]. apply bool_decide_eq_true_1 in Er. cbn [negb] in HR.
  destruct (negb _ && negb _) eqn:Es; [done|]. destruct (progressing db (o_resource row)) eqn:Ep; [done|]. rewrite Er in Ep.
  set (db1 := if bool_decide (o_status row = OperationDead) then _ else db) in *.
  assert (statusOf db1 (dis_OperationID d) = Some OperationDischarged) as H1.
  { unfold statusOf. subst db1. destruct (bool_decide (o_status row = OperationDead)) eqn:Ed; simpl.
    - by rewrite lookup_insert_eq.
    - rewrite E. simpl. f_equal. destruct (bool_decide (o_status row = OperationDischarged)) eqn:Ed'; [|done].
      by apply bool_decide_eq_true_1 in Ed'. }
  assert (db_instances db1 = db_instances db) as H2 by (subst db1; by destruct (bool_decide (o_status row = OperationDead))).
  unfold Instance_read in HR. rewrite H2 in HR. destruct (db_instances db !! dis_InstanceID d) as [i|] eqn:Ei; cbn [rbind] in HR; [|done].
  pose proof (con_ids _ C _ _ Ei) as [Eid _].
  destruct (dis_ReapInstance d && _) eqn:Eg.
  - destruct (reapInstance db1 i _) as [|db2] eqn:Ea; cbn [rbind] in HR; [done|]. injection HR as <- <-.
    unfold reapInstance in Ea. destruct (db_instances db1 !! row_ID i) as [r|]; [|done]. accept Ea. injection Ea as <-.
    split_and!; [exact H1|done|by exists i|]. intros _. eexists. simpl. rewrite Eid, lookup_insert_eq. done.
  - injection HR as <- <-. split_and!; [exact H1|done|by exists i|]. intros Hr. rewrite Hr in Eg. simpl in Eg.
    apply negb_false_iff, bool_decide_eq_true_1 in Eg. exists i. by rewrite H2.
Qed.

End Burial.

(** ** The operator's discharge *)

Abbreviation Discharging := (list (Event DischargeCall)).

Section Operator.
Context `{PlanDigest} `{CleanupIdentity}.

(** The service over the database.  Others may have written before each call, and the
    store may fail a call without a trace; the machine, GitHub and the clock answer as
    they like. *)
Definition serves (others : Discharging -> Db -> Db) (env : Env DischargeCall) (X : Set) (h : Discharging) (db : Db)
    (c : DischargeCall X) : Db * X :=
  let db0 := others h db in
  match c in DischargeCall X return Db * X with
  | StoreDischarge d =>
      match env _ h (StoreDischarge d), DischargeDeadLetter db0 d with
      | inl err, _ | _, inl err => (db0, inl err)
      | inr _, inr (db1, out) => (db1, inr out)
      end
  | StoreResume id resource stopped at_ =>
      match env _ h (StoreResume id resource stopped at_), ResumeCleanup db0 id resource stopped at_ with
      | inl err, _ | _, inl err => (db0, inl err)
      | inr _, inr db1 => (db1, inr tt)
      end
  | c => (db0, env _ h c)
  end.

Definition meddlesome (others : Discharging -> Db -> Db) : Prop := forall h db, rtc DbStep db (others h db).

(** An accepted reap has left its row deleted. *)
Definition retired (db : Db) (ev : Event DischargeCall) : Prop :=
  match ev with
  | Ev (StoreDischarge d) (inr _) =>
      statusOf db (dis_OperationID d) = Some OperationDischarged /\ (dis_ReapInstance d = true -> Buried db (dis_InstanceID d))
  | _ => True
  end.

Definition DischargeWorld (h : Discharging) (db : Db) : Prop := Reachable db /\ Forall (retired db) h.

Lemma retired_steps db db' ev : rtc DbStep db db' -> retired db ev -> retired db' ev.
Proof.
  intros S. destruct ev as [X [] x]; simpl; try done. destruct x; [done|]. intros [Hs Hb]. split.
  - eapply Grows_discharged; [by apply DbSteps_grow|done].
  - intros Hr. eapply DbSteps_buried; [exact S|auto].
Qed.

Lemma serves_steps others env (X : Set) h db (c : DischargeCall X) :
  meddlesome others -> DischargeWorld h db ->
  DischargeWorld (h ++ [Ev c (snd (serves others env X h db c))]) (fst (serves others env X h db c)).
Proof.
  intros Ho [Hr Hf]. unfold serves. set (db0 := others h db).
  assert (Reachable db0) as Hr0 by (unfold Reachable in *; etransitivity; [exact Hr|apply Ho]).
  assert (forall db1 ev, rtc DbStep db0 db1 -> retired db1 ev -> DischargeWorld (h ++ [ev]) db1) as Hw.
  { intros db1 ev Hs Hev. split; [unfold Reachable in *; by etransitivity|]. apply Forall_app. split; [|by constructor].
    eapply Forall_impl; [exact Hf|]. intros ev'. apply retired_steps. etransitivity; [apply Ho|exact Hs]. }
  destruct c; try (apply Hw; [apply rtc_refl|done]); simpl.
  - destruct (env _ h (StoreDischarge d)); [apply Hw; [apply rtc_refl|done]|].
    destruct (DischargeDeadLetter db0 d) as [|[db1 out]] eqn:E; [apply Hw; [apply rtc_refl|done]|].
    apply Hw; [by eapply rtc_once, step_discharge|]. destruct (Discharge_done db0 d db1 out (Reachable_consistent _ Hr0) E) as (? & _ & _ & ?).
    done.
  - destruct (env _ h _); [apply Hw; [apply rtc_refl|done]|].
    destruct (ResumeCleanup db0 id resource stopped at_) as [|db1] eqn:E; [apply Hw; [apply rtc_refl|done]|].
    apply Hw; [by eapply rtc_once, step_resume|done].
Qed.

Variables (authority : bool) (r : DischargeRequest).

Definition seenIdle (h : Discharging) : Prop :=
  exists power, In (Ev (VMPower (req_InstanceID r)) (Some power)) h /\ ProvenIdle power = true.

Definition acceptedAs (h : Discharging) (outcome : DischargeOutcome) : Prop :=
  exists now, In (Ev (StoreDischarge (dischargeOf r now)) (inr outcome)) h.

(** What may precede the two mutations. *)
Definition entitled (h : Discharging) (ev : Event DischargeCall) : Prop :=
  match ev with
  | Ev (StoreDischarge d) _ =>
      authority = true /\ DischargeRequest_Valid r = true /\ (exists now, d = dischargeOf r now) /\
      (req_ReapInstance r = true -> seenIdle h)
  | Ev (VMReap id ownership) _ =>
      id = req_InstanceID r /\ req_ReapInstance r = true /\ seenIdle h /\
      exists outcome, acceptedAs h outcome /\ ownership = out_Ownership outcome
  | Ev (StoreResume _ _ _ _) _ => False
  | _ => True
  end.

Definition accepts (ev : Event DischargeCall) : bool := match ev with Ev (StoreDischarge _) (inr _) => true | _ => false end.
Definition reaps (ev : Event DischargeCall) : bool := match ev with Ev (VMReap _ _) _ => true | _ => false end.

(** What an answer to the operator says. *)
Definition truthful (h : Discharging) (answer : Discharged) : Prop :=
  match answer with
  | (result, None) =>
      exists outcome, acceptedAs h outcome /\ result = resultOf r outcome (req_ReapInstance r) /\
        (req_ReapInstance r = true -> last h = Some (Ev (VMReap (req_InstanceID r) (out_Ownership outcome)) true))
  | (result, Some RefusalVMDeleteFailed) =>
      exists outcome, acceptedAs h outcome /\ result = resultOf r outcome false /\
        last h = Some (Ev (VMReap (req_InstanceID r) (out_Ownership outcome)) false)
  | (result, Some _) => result = zeroDischargeResult /\ existsb accepts h = false /\ existsb reaps h = false
  end.

Lemma refuse_truthful h code :
  code <> RefusalVMDeleteFailed -> existsb accepts h = false -> existsb reaps h = false -> truthful h (zeroDischargeResult, Some code).
Proof. intros Hc Ha Hr. destruct code; try done. Qed.

Lemma wp_Service : wp anyAnswer entitled [] (Service_DischargeDeadLetter authority r) truthful.
Proof.
  unfold Service_DischargeDeadLetter. destruct authority eqn:Ea; [|done]. cbn [negb].
  destruct (DischargeRequest_Valid r) eqn:Hvalid; cbn [negb].
  2: { apply refuse_truthful; [|done..]. unfold invalidCode. repeat case_match; done. }
  apply wp_bind. set (idle := fun h : Discharging => existsb accepts h = false /\ existsb reaps h = false /\ (req_ReapInstance r = true -> seenIdle h)).
  assert (wp anyAnswer entitled [] (reapGuard r) (fun h code =>
    match code with Some code => truthful h (zeroDischargeResult, Some code) | None => idle h end)) as Wg.
  { unfold reapGuard. destruct (req_ReapInstance r) eqn:Er; cbn [negb]; [|by split; [|split; [|congruence]]].
    intros power _. split; [done|]. destruct power as [power|]; [|done]. simpl.
    case_bool_decide; [done|]. destruct (ProvenIdle power) eqn:Ei; [|done]. simpl. split; [done|]. split; [done|].
    intros _. exists power. split; [by left|done]. }
  eapply wp_mono; [|exact Wg]. intros h [code|]; [done|]. intros (I1 & I2 & I3).
  intros now _. split; [done|]. intros answer _. split.
  { split_and!; [done|done|by exists now|]. intros Er. destruct (I3 Er) as (p & Hp & Hi). exists p. split; [|done]. apply in_app_iff. auto. }
  destruct answer as [err|outcome].
  { apply refuse_truthful; [by destruct err|..]; rewrite !existsb_app; simpl; by rewrite ?I1, ?I2. }
  assert (acceptedAs ((h ++ [Ev ServiceNow now]) ++ [Ev (StoreDischarge (dischargeOf r now)) (inr outcome)]) outcome) as Ha
    by (exists now; apply in_app_iff; right; by left).
  destruct (req_ReapInstance r) eqn:Er; cbn [negb]; [|exists outcome; rewrite Er; by split_and!].
  intros reaped _. split.
  { split_and!; [done|done| |by exists outcome]. destruct (I3 eq_refl) as (p & Hp & Hi). exists p. split; [|done]. rewrite !in_app_iff. auto. }
  assert (forall ev, acceptedAs (((h ++ [Ev ServiceNow now]) ++ [Ev (StoreDischarge (dischargeOf r now)) (inr outcome)]) ++ [ev]) outcome) as Ha'
    by (intros ev; destruct Ha as [n Hn]; exists n; apply in_app_iff; auto).
  destruct reaped; cbn [negb]; exists outcome; rewrite ?Er, last_snoc; by split_and!.
Qed.

(** A run that keeps the database as it stood after each call. *)
Definition recorded (others : Discharging -> Db -> Db) (env : Env DischargeCall) (X : Set) (h : Discharging) (w : Db * list Db)
    (c : DischargeCall X) : Db * list Db * X :=
  let '(db, x) := serves others env X h (fst w) c in (db, snd w ++ [db], x).

Definition RecordedWorld (h : Discharging) (w : Db * list Db) : Prop :=
  DischargeWorld h (fst w) /\ length (snd w) = length h /\
  forall i db, snd w !! i = Some db -> Forall (retired db) (take (S i) h).

Lemma recorded_steps others env (X : Set) h w (c : DischargeCall X) :
  meddlesome others -> RecordedWorld h w ->
  anyAnswer h (Ev c (snd (recorded others env X h w c))) /\
  RecordedWorld (h ++ [Ev c (snd (recorded others env X h w c))]) (fst (recorded others env X h w c)).
Proof.
  intros Ho (Hw & Hl & Ht). split; [done|]. unfold recorded. pose proof (serves_steps others env X h (fst w) c Ho Hw) as Hs.
  destruct (serves others env X h (fst w) c) as [db x]. simpl in *. split; [done|]. cbn [snd]. split; [by rewrite !length_app, Hl|].
  intros i d Hi. apply lookup_app_Some in Hi as [Hi|[Hge Hi]].
  - rewrite take_app_le; [by apply Ht|]. apply lookup_lt_Some in Hi. lia.
  - apply list_lookup_singleton_Some in Hi as [Hi <-]. rewrite firstn_all2 by (rewrite length_app; simpl; lia). apply Hs.
Qed.

(** C29: A discharge retires the row before the machine, and both on proof.  Whatever
    others write between its calls and whatever the machine answers, the store is asked
    to discharge only by a node with authority, for a valid request, and with a reap only
    after the machine was read as proven idle; the machine is removed only after the
    store accepted that discharge, under the ownership of the row, and at that moment the
    operation is discharged and the row is deleted.  An answer without a refusal reports
    what the store did and the removal that succeeded; a failed removal reports the
    durable half; every other refusal changed nothing. *)
Theorem discharge_retires_row_before_machine others env db :
  meddlesome others -> Reachable db ->
  let run := execute (recorded others env) [] (db, []) (Service_DischargeDeadLetter authority r) in
  let h := historyOf run in
  (forall before ev after, h = before ++ ev :: after -> entitled before ev) /\
  (forall i ownership ok dbi, h !! i = Some (Ev (VMReap (req_InstanceID r) ownership) ok) -> snd (stateOf run) !! i = Some dbi ->
     statusOf dbi (req_OperationID r) = Some OperationDischarged /\ Buried dbi (req_InstanceID r)) /\
  truthful h (snd run).
Proof.
  intros Ho Hr run h.
  destruct (wp_execute (recorded others env) anyAnswer entitled RecordedWorld) with (1 := fun X h w c => recorded_steps others env X h w c Ho)
    (p := Service_DischargeDeadLetter authority r) (post := truthful) (n := 0%nat) (h := @nil (Event DischargeCall)) (w := (db, @nil Db))
    as (Hp & Hg & _ & _ & Ht).
  { split; [split; [done|constructor]|]. split; [done|]. intros i d Hi. done. }
  { apply (guardedFrom_refl _ []). }
  { apply wp_Service. }
  fold run in Hp, Hg, Ht. fold h in Hp, Hg, Ht.
  assert (forall before ev after, h = before ++ ev :: after -> entitled before ev) as He
    by (intros before ev after Eh; apply (Hg before ev after Eh); lia).
  split; [exact He|]. split; [|exact Hp]. intros i ownership ok dbi Hi Hd.
  pose proof (take_drop_middle h i _ Hi) as Em. destruct (He _ _ _ (eq_sym Em)) as (_ & Er & _ & outcome & [now Hin] & _).
  pose proof (Ht i dbi Hd) as F. rewrite List.Forall_forall in F.
  destruct (F (Ev (StoreDischarge (dischargeOf r now)) (inr outcome))) as [F1 F2].
  { rewrite (take_S_r _ _ _ Hi). apply in_app_iff. auto. }
  split; [exact F1|]. by apply F2.
Qed.
End Operator.

(** ** Automatic recovery *)

Section Resumption.
Context `{PlanDigest} `{CleanupIdentity}.
Variables resource effect : string.

(** The superseded attempts of the effect. *)
Definition spent (db : Db) : gset string :=
  dom (filter (fun entry : string * OpRow =>
    o_resource (snd entry) = resource /\ o_effect (snd entry) = effect /\ o_status (snd entry) = OperationDischarged) (db_operations db)).

Lemma spent_In db id :
  id ∈ spent db <-> exists row, db_operations db !! id = Some row /\ o_resource row = resource /\ o_effect row = effect /\
    o_status row = OperationDischarged.
Proof.
  unfold spent. rewrite elem_of_dom. split.
  - intros [row Hr]. apply map_lookup_filter_Some in Hr as [Hr Hs]. by exists row.
  - intros (row & Hr & Hs). exists row. by apply map_lookup_filter_Some.
Qed.

Lemma spent_grows db db' : Grows db db' -> spent db ⊆ spent db'.
Proof.
  intros G id. rewrite !spent_In. intros (row & Hr & H1 & H2 & H3). destruct (gr_ops _ _ G _ _ Hr) as (row' & Hr' & K1 & K2 & K3 & K4).
  rewrite H3 in K4. exists row'. split_and!; congruence.
Qed.

(** The count of the query is the size of that set. *)
Lemma resumptionsOf_spent db row :
  o_resource row = resource -> o_effect row = effect -> resumptionsOf db row = Z.of_nat (size (spent db)).
Proof.
  intros Hr He. unfold resumptionsOf. rewrite Hr, He. f_equal. set (keep := fun entry => _).
  assert (spent db = list_to_set (map fst (List.filter keep (map_to_list (db_operations db))))) as ->.
  { apply set_eq. intros id. rewrite spent_In, elem_of_list_to_set, list_elem_of_In, in_map_iff. split.
    - intros (r & Hl & H1 & H2 & H3). exists (id, r). split; [done|]. apply List.filter_In. split.
      + by apply list_elem_of_In, elem_of_map_to_list.
      + unfold keep. simpl. by rewrite H1, H2, H3, !bool_decide_eq_true_2.
    - intros ([id' r] & <- & Hi). apply List.filter_In in Hi as [Hi Hk]. apply list_elem_of_In, elem_of_map_to_list in Hi.
      unfold keep in Hk. bool_to_prop. by exists r. }
  rewrite size_list_to_set, length_map; [done|]. eapply sublist_NoDup; [apply (NoDup_fst_map_to_list (db_operations db))|].
  clear. induction (map_to_list (db_operations db)) as [|e l IH]; simpl; [constructor|].
  destruct (keep e); by constructor.
Qed.

(** What a resumption of a dead attempt has checked and done. *)
Lemma ResumeCleanup_done db id old stopped at_ db' :
  db_operations db !! id = Some old -> o_status old = OperationDead -> ResumeCleanup db id resource stopped at_ = inr db' ->
  o_resource old = resource /\ CleanupResumptionDue (resumptionsOf db old) (fromNanos (o_updated old)) at_ = true /\
  progressing db resource = false /\
  db_operations db' !! id = Some (superseded old (UnixNano at_)) /\
  db_operations db' !! recoveryID id = Some (recoveryRow old (recoveryID id) (UnixNano at_)).
Proof.
  intros E Hd HR. unfold ResumeCleanup in HR. refuse HR. rewrite E in HR.
  destruct (bool_decide (o_resource old = resource)) eqn:Er; [|done]. apply bool_decide_eq_true_1 in Er. cbn [negb] in HR.
  rewrite Hd, bool_decide_eq_false_2, bool_decide_eq_true_2 in HR by done. cbn [negb] in HR. refuse HR. unfold Instance_read in HR.
  destruct (db_instances db !! resource) as [i|]; cbn [rbind] in HR; [|done].
  refuse HR. destruct (progressing db resource) eqn:Ep; [done|].
  destruct (CleanupResumptionDue _ _ _) eqn:Ec; [|done]. cbn [negb] in HR.
  destruct (insertRow db _ _) as [|db1] eqn:E1; cbn [rbind] in HR; [done|]. injection HR as <-.
  apply insertRow_inr in E1 as (Hn & _ & ->). assert (id <> recoveryID id) as Hne by congruence.
  split_and!; try done; destruct (stopped && _); simpl; rewrite ?lookup_insert_eq, ?lookup_insert_ne, ?lookup_insert_eq by done; done.
Qed.

(** Histories of the database with the number of times the effect was resumed. *)
Inductive Resumes (db0 : Db) : nat -> Db -> Prop :=
  | resumes_none : Resumes db0 0 db0
  | resumes_other n db db' : Resumes db0 n db -> DbStep db db' -> Resumes db0 n db'
  | resumes_again n db db' id old stopped at_ : Resumes db0 n db -> db_operations db !! id = Some old -> o_effect old = effect ->
      o_status old = OperationDead -> ResumeCleanup db id resource stopped at_ = inr db' -> Resumes db0 (S n) db'.

(** Automatic recovery is bounded by the durable rows.  Over every history of the
    database, with any transactions of others in between, one cleanup effect of one
    instance is resumed at most three times; each resumption leaves the old attempt
    discharged and a new pending attempt of the same effect under its own identity, was
    made while no operation of the instance could progress, and from the second on comes
    no earlier than the doubled backoff after the attempt died. *)
Theorem cleanup_resumes_at_most_three_times db0 n db :
  Resumes db0 n db ->
  (n <= 3)%nat /\
  forall id old stopped at_ db', db_operations db !! id = Some old -> o_effect old = effect -> o_status old = OperationDead ->
    ResumeCleanup db id resource stopped at_ = inr db' ->
    (n <= 2)%nat /\ progressing db resource = false /\ statusOf db' id = Some OperationDischarged /\
    (exists next, db_operations db' !! recoveryID id = Some next /\ o_effect next = effect /\ o_resource next = resource /\
       o_status next = OperationPending) /\
    (size (spent db) <> 0%nat -> fromNanos (o_updated old) <= at_ /\
       wrap64 (Z.shiftl CleanupResumptionBackoff (Z.of_nat (size (spent db)) - 1)) <= TimeSub at_ (fromNanos (o_updated old))).
Proof.
  intros R. assert ((n <= 3)%nat /\ (n <= size (spent db))%nat) as [H3 Hs].
  { induction R as [|n db db' _ [IH1 IH2] S|n db db' id old stopped at_ _ [_ IH2] E He Hd HR]; [lia| |].
    - pose proof (subseteq_size _ _ (spent_grows _ _ (DbStep_grows _ _ S))). lia.
    - destruct (ResumeCleanup_done _ _ _ _ _ _ E Hd HR) as (Er & Hdue & _ & E' & _).
      rewrite (resumptionsOf_spent _ _ Er He) in Hdue. unfold CleanupResumptionDue, MaxCleanupResumptions in Hdue.
      destruct (_ || _) eqn:Eb; [done|]. bool_to_prop.
      assert (spent db ∪ {[id]} ⊆ spent db') as Hsub.
      { apply union_subseteq. split; [eapply spent_grows, ResumeCleanup_grows, HR|]. apply singleton_subseteq_l, spent_In.
        eexists. split; [exact E'|]. done. }
      apply subseteq_size in Hsub. rewrite size_union, size_singleton in Hsub; [lia|].
      apply disjoint_singleton_r. rewrite spent_In. intros (row & Hr & _ & _ & Hx). congruence. }
  split; [done|]. intros id old stopped at_ db' E He Hd HR.
  destruct (ResumeCleanup_done _ _ _ _ _ _ E Hd HR) as (Er & Hdue & Hp & E' & En).
  rewrite (resumptionsOf_spent _ _ Er He) in Hdue. unfold CleanupResumptionDue, MaxCleanupResumptions in Hdue.
  destruct (_ || _) eqn:Eb; [done|]. bool_to_prop. split; [lia|]. split; [done|]. unfold statusOf. rewrite E'. split; [done|].
  split; [eexists; split; [exact En|done]|]. intros Hne. rewrite (proj2 (Z.eqb_neq _ _)) in Hdue by lia. bool_to_prop.
  unfold Before in *. bool_to_prop. done.
Qed.
End Resumption.

(** ** The recovery program *)

Section Recovery.
Variables (authority wired : bool) (letter : DeadLetter) (i : Instance_) (healthy : bool).

(** A resumption is asked for only with authority, for a cleanup the tick found
    recoverable and due, after a fresh reading of the machine that proves the same as
    the tick's, and a confirmation by GitHub that is safe at a later reading of the clock. *)
Definition recoverable (h : Discharging) (ev : Event DischargeCall) : Prop :=
  match ev with
  | Ev (StoreResume id resource stopped at_) _ =>
      authority = true /\ id = dl_OperationID letter /\ resource = inst_ID i /\
      recoverableCleanup letter i healthy = true /\
      (exists now, In (Ev ServiceNow now) h /\ CleanupResumptionDue (dl_Resumptions letter) (dl_DeadAt letter) now = true) /\
      (exists power, In (Ev (VMPower (inst_ID i)) (Some power)) h /\ samePower power (inst_Power i) = true /\ stopped = ProvenIdle power) /\
      (exists c judged, In (Ev (ConfirmDeletion (inst_ID i)) (Some c)) h /\ In (Ev ServiceNow judged) h /\ Safe c judged (30 * Second) = true)
  | Ev (StoreDischarge _) _ | Ev (VMReap _ _) _ => False
  | _ => True
  end.

Lemma wp_RecoverCleanup : wp anyAnswer recoverable [] (RecoverCleanup authority wired letter i healthy) (fun _ _ => True).
Proof.
  unfold RecoverCleanup. destruct (_ || _ || _) eqn:E; [done|].
  apply orb_false_iff in E as [E Er]. apply orb_false_iff in E as [Ea _]. apply negb_false_iff in Er, Ea.
  intros now _. split; [done|]. destruct (CleanupResumptionDue _ _ now) eqn:Ed; [|done]. cbn [negb].
  intros power _. split; [done|]. destruct power as [power|]; [|done]. destruct (samePower power (inst_Power i)) eqn:Es; [|done]. cbn [negb].
  intros observed _. split; [done|]. destruct observed as [c|]; [|done].
  intros judged _. split; [done|]. destruct (Safe c judged (30 * Second)) eqn:Ec; [|done]. cbn [negb].
  intros at_ _. split; [done|]. intros answer _. split; [|done]. split_and!; try done.
  - exists now. split; [simpl; auto|done].
  - exists power. split; [simpl; auto|done].
  - exists c, judged. split; [simpl; auto 10|]. split; [simpl; auto 10|done].
Qed.

(** A cleanup whose machine still runs is resumed only on a healthy host. *)
Lemma running_needs_a_healthy_host :
  recoverableCleanup letter i healthy = true -> ProvenIdle (inst_Power i) = false ->
  inst_Power i = InstancePowerRunning /\ dl_Code letter = "stop" /\ healthy = true.
Proof.
  unfold recoverableCleanup. destruct (_ || _ || _ || _); [done|]. intros H Hi. rewrite Hi in H.
  case_bool_decide as Hp; [|done]. bool_to_prop. done.
Qed.
End Recovery.

(** ** A dead drain on a lost host *)

Module Operator.

Definition request : DischargeRequest :=
  {| req_OperationID := "drain"; req_InstanceID := "vm-1"; req_ReapInstance := true; req_Confirm := DischargeConfirmation;
     req_Reason := "host lost" |}.

Definition answers (power : InstancePower) (X : Set) (h : Discharging) (c : DischargeCall X) : X :=
  match c in DischargeCall X return X with
  | VMPower _ => Some power
  | VMReap _ _ => true
  | StoreDischarge _ => inr {| out_Discharged := true; out_Reaped := true; out_Ownership := row_Ownership vm1 |}
  | StoreResume _ _ _ _ => inr tt
  | ConfirmDeletion _ => None
  | ServiceNow => noon
  end.

Lemma dead1_reachable : Reachable (H := plainDigest) (H0 := plainRecovery) dead1.
Proof.
  eapply rtc_r; [exact draining1_reachable|].
  eapply (step_retry noon draining1 "drain" "worker" "runner lifecycle failed at stop" noon true). vm_compute. reflexivity.
Qed.

End Operator.

Lemma discharge_retires_row_before_machine_witness :
  let run := execute (recorded (H0 := plainRecovery) (fun _ db => db) (Operator.answers InstancePowerStopped)) [] (dead1, [])
    (Service_DischargeDeadLetter true Operator.request) in
  snd (snd run) = None /\ res_VMDeleted (fst (snd run)) = true /\
  exists db, snd (stateOf run) !! 3%nat = Some db /\ Buried db "vm-1".
Proof.
  split; [vm_compute; reflexivity|]. split; [vm_compute; reflexivity|]. eexists. split; [vm_compute; reflexivity|].
  refine (proj2 (proj1 (proj2 (discharge_retires_row_before_machine (H := plainDigest) (H0 := plainRecovery) true Operator.request
    (fun _ db => db) (Operator.answers InstancePowerStopped) dead1 _ Operator.dead1_reachable)) 3%nat (row_Ownership vm1) true _ _ _)).
  - intros h db. apply rtc_refl.
  - vm_compute. reflexivity.
  - vm_compute. reflexivity.
Defined.

Lemma cleanup_resumes_at_most_three_times_witness :
  exists old db', db_operations dead1 !! "drain" = Some old /\
    ResumeCleanup (H := plainRecovery) dead1 "drain" "vm-1" true (noon + Minute) = inr db' /\
    statusOf db' "drain" = Some OperationDischarged.
Proof.
  eexists _, _. split; [vm_compute; reflexivity|]. split; [vm_compute; reflexivity|].
  refine (proj1 (proj2 (proj2 (proj2 (cleanup_resumes_at_most_three_times (H := plainDigest) (H0 := plainRecovery) "vm-1" "deregister:vm-1"
    dead1 0 dead1 (resumes_none _ _ _)) "drain" _ true (noon + Minute) _ _ _ _ _)))); vm_compute; reflexivity.
Defined.
