(* ===== verification/Claiming.v ===== *)
(** * Claiming operations

    The recursive query that finds the dependents of dead operations computes the
    transitive closure, and a claim hands out exactly the first operations that
    can run. *)

From Stdlib Require Import ZArith Lia String Permutation Sorted.
From stdpp Require Import base tactics list gmap strings relations.
From S2P Require Import Prelude GoStrings Liveness Domain Operations Failure Store Outbox Durability.

(** ** Bounded iteration reaches the fixed point *)

Section Iteration.
Context (f : gset string -> gset string) (U : gset string).
Hypothesis f_mono : forall X Y, X ⊆ Y -> f X ⊆ f Y.
Hypothesis f_bound : forall X, f X ⊆ U.

Abbreviation round n := (Nat.iter n f ∅).

Lemma round_step n : round n ⊆ round (S n).
Proof. induction n as [|n IH]; [apply empty_subseteq|]. by apply f_mono. Qed.

Lemma round_grows n : f (round n) = round n \/ (n < size (round (S n)))%nat.
Proof.
  induction n as [|n IH].
  - destruct (decide (f ∅ = ∅)) as [E|E]; [by left|right]. change (round 1) with (f ∅).
    enough (size (f ∅) <> 0%nat) by lia. rewrite size_empty_iff. by intros E'%leibniz_equiv.
  - destruct (decide (f (round (S n)) = round (S n))) as [E|E]; [by left|right].
    destruct IH as [IH|IH]; [destruct E; change (round (S n)) with (f (round n)); by rewrite !IH|].
    enough (size (round (S n)) < size (round (S (S n))))%nat by lia. apply subset_size.
    split; [apply round_step|]. intros Hs. apply E. apply leibniz_equiv, set_equiv_subseteq.
    split; [exact Hs|apply round_step].
Qed.

Lemma round_fixed n : (size U <= n)%nat -> f (round n) = round n.
Proof.
  intros Hn. destruct (round_grows n) as [E|E]; [done|]. exfalso.
  assert (size (round (S n)) <= size U)%nat by (apply subseteq_size, f_bound). lia.
Qed.
End Iteration.

(** ** The doomed operations *)

Definition dependent (db : Db) : gset string := set_map fst (db_dependencies db).

Lemma doomedRound_spec db X o :
  o ∈ doomedRound db X <->
  exists d, waitsFor db o d /\ (statusOf db d = Some OperationDead \/ d ∈ X).
Proof.
  unfold doomedRound, waitsFor. rewrite elem_of_map. split.
  - intros ([o' d] & -> & Hd). apply elem_of_filter in Hd as [Hp Hd]. simpl in *. by exists d.
  - intros (d & Hd & Hp). exists (o, d). split; [done|]. by apply elem_of_filter.
Qed.

Lemma size_list_to_set_le (l : list string) : (size (list_to_set l : gset string) <= length l)%nat.
Proof.
  induction l as [|x l IH]; [done|]. simpl list_to_set. rewrite size_union_alt, size_singleton.
  simpl length. apply le_n_S. etransitivity; [|exact IH]. apply subseteq_size, subseteq_difference_l. done.
Qed.

Lemma dependent_size db : (size (dependent db) <= size (db_dependencies db))%nat.
Proof.
  unfold dependent, set_map. etransitivity; [apply size_list_to_set_le|]. rewrite length_fmap. done.
Qed.

Lemma dependent_spec db o : o ∈ dependent db <-> exists d, waitsFor db o d.
Proof.
  unfold dependent, waitsFor. rewrite elem_of_map. split.
  - intros ([o' d] & -> & Hd). by exists d.
  - intros [d Hd]. by exists (o, d).
Qed.

Lemma doomedOf_fixed db : doomedRound db (doomedOf db) = doomedOf db.
Proof.
  unfold doomedOf. apply (round_fixed (doomedRound db) (dependent db)).
  - intros X Y HXY o. rewrite !doomedRound_spec. intros (d & Hd & [Hp|Hp]); exists d; auto.
  - intros X o. rewrite doomedRound_spec, dependent_spec. intros (d & Hd & _). by exists d.
  - pose proof (dependent_size db). lia.
Qed.

(** The recursive query is the transitive closure. *)
Lemma doomedOf_spec db o :
  o ∈ doomedOf db <-> exists d, tc (waitsFor db) o d /\ statusOf db d = Some OperationDead.
Proof.
  split.
  - unfold doomedOf. generalize (S (size (db_dependencies db))) as n. intros n. revert o.
    induction n as [|n IH]; intros o; [intros Ho; by apply elem_of_empty in Ho|].
    change (Nat.iter (S n) (doomedRound db) ∅) with (doomedRound db (Nat.iter n (doomedRound db) ∅)).
    rewrite doomedRound_spec. intros (d & Hd & [Hp|Hp]).
    + exists d. split; [by apply tc_once|done].
    + destruct (IH d Hp) as (e & He & Hs). exists e. split; [by eapply tc_l|done].
  - intros (d & Ht & Hs). induction Ht as [o d Hd|o m d Hd _ IH]; rewrite <- doomedOf_fixed, doomedRound_spec.
    + exists d. auto.
    + exists m. auto.
Qed.

(** ** After the propagation *)

Lemma propagate_status now db id :
  statusOf (propagate now db) id =
    (if bool_decide (statusOf db id = Some OperationPending) && bool_decide (id ∈ doomedOf db)
     then Some OperationDead else statusOf db id).
Proof.
  unfold statusOf, propagate. simpl. rewrite map_lookup_imap.
  destruct (db_operations db !! id) as [row|]; cbn [fmap option_fmap option_map mbind option_bind]; [|done].
  destruct (decide (o_status row = OperationPending)) as [E|E].
  - rewrite (bool_decide_eq_true_2 (Some _ = Some _)), (bool_decide_eq_true_2 (o_status row = _)) by congruence.
    simpl. by case_bool_decide.
  - rewrite (bool_decide_eq_false_2 (Some _ = Some _)), (bool_decide_eq_false_2 (o_status row = _)) by congruence.
    done.
Qed.

Lemma propagate_no_doomed now db o d :
  statusOf (propagate now db) o = Some OperationPending -> tc (waitsFor db) o d ->
  statusOf (propagate now db) d <> Some OperationDead.
Proof.
  rewrite !propagate_status. intros Ho Ht Hd.
  assert ((o ∉ doomedOf db) /\ statusOf db o = Some OperationPending) as [Hn Hp].
  { destruct (_ && _) eqn:G in Ho; [done|]. split; [|done]. intros Hin.
    rewrite Ho, !bool_decide_eq_true_2 in G; done. }
  apply Hn, doomedOf_spec. destruct (_ && _) eqn:G in Hd.
  - bool_to_prop. match goal with Hx : d ∈ doomedOf db |- _ => apply doomedOf_spec in Hx as (e & He & Hs) end.
    exists e. split; [by eapply tc_transitive|done].
  - by exists d.
Qed.

(** ** The claim loop *)

Section Loop.
Context (owner : string) (now : Time) (leaseFor : Duration).

Abbreviation lease row := (leasedBy row owner (UnixNano (TimeAdd now leaseFor)) (UnixNano now)).

Lemma claimEach_spec ids db :
  List.NoDup ids ->
  (forall id, In id ids -> exists row, db_operations db !! id = Some row /\ claimable now row = true) ->
  map do_ID (snd (claimEach owner now leaseFor ids db)) = ids /\
  (forall id, In id ids -> exists row, db_operations db !! id = Some row /\
     db_operations (fst (claimEach owner now leaseFor ids db)) !! id = Some (lease row)) /\
  (forall id, ~ In id ids ->
     db_operations (fst (claimEach owner now leaseFor ids db)) !! id = db_operations db !! id) /\
  db_dependencies (fst (claimEach owner now leaseFor ids db)) = db_dependencies db.
Proof.
  revert db. induction ids as [|id ids IH]; intros db Hn Hc; [done|]. inversion_clear Hn as [|? ? Hni Hn'].
  destruct (Hc id (or_introl eq_refl)) as (row & Hr & Hcl). cbn [claimEach]. rewrite Hr, Hcl.
  set (db1 := setOperations db _).
  assert (forall j, j <> id -> db_operations db1 !! j = db_operations db !! j) as Hne
    by (intros j Hj; simpl; by rewrite lookup_insert_ne).
  destruct (IH db1 Hn') as (I1 & I2 & I3 & I4).
  { intros j Hj. rewrite Hne by (by intros ->). apply Hc. by right. }
  destruct (claimEach owner now leaseFor ids db1) as [db' claimed]. simpl in I1, I2, I3, I4 |- *.
  split; [by f_equal|]. split; [|split; [|done]].
  - intros j [<-|Hj].
    + exists row. split; [done|]. rewrite I3 by done. simpl. by rewrite lookup_insert_eq.
    + destruct (I2 j Hj) as (r & Hr1 & Hr2). exists r. split; [|done].
      rewrite <- Hr1, lookup_insert_ne; [done|]. by intros ->.
  - intros j Hj. rewrite I3 by tauto. rewrite lookup_insert_ne; [done|]. intros ->. tauto.
Qed.
End Loop.

Lemma sorted_take_drop {A} (R : A -> A -> Prop) n l x y :
  StronglySorted R l -> In x (take n l) -> In y (drop n l) -> R x y.
Proof.
  revert n. induction l as [|a l IH]; intros n S; [by rewrite take_nil|].
  apply StronglySorted_inv in S as [S F]. rewrite List.Forall_forall in F.
  destruct n as [|n]; [done|]. simpl. intros [->|Hx] Hy; [|by eapply IH].
  apply F. eapply sublist_In; [apply sublist_drop|exact Hy].
Qed.

Lemma claimOrder_irrefl a : claimOrder a a = false.
Proof. unfold claimOrder. rewrite Z.eqb_refl. apply strLess_irrefl. Qed.

Lemma claimOrder_asym a b : claimOrder a b = true -> claimOrder b a = false.
Proof.
  unfold claimOrder. rewrite (Z.eqb_sym (o_created (snd b))).
  destruct (Z.eqb_spec (o_created (snd a)) (o_created (snd b))); [apply strLess_asym|].
  rewrite Z.ltb_lt, Z.ltb_ge. lia.
Qed.

Lemma claimOrder_cotrans a b c : claimOrder a b = false -> claimOrder b c = false -> claimOrder a c = false.
Proof.
  unfold claimOrder.
  destruct (Z.eqb_spec (o_created (snd a)) (o_created (snd b))),
    (Z.eqb_spec (o_created (snd b)) (o_created (snd c))), (Z.eqb_spec (o_created (snd a)) (o_created (snd c)));
    try lia; rewrite ?Z.ltb_ge; try lia. apply strLess_cotrans.
Qed.

Lemma selected_NoDup now limit db : List.NoDup (selected now limit db).
Proof.
  unfold selected. eapply (sublist_NoDup_map fst); [apply sublist_take|].
  eapply NoDup_map_perm; [apply sortBy_perm|].
  eapply (sublist_NoDup_map fst); [apply filter_sublist|]. apply NoDup_ListNoDup, NoDup_fst_map_to_list.
Qed.

(** An operation that can run and was not selected comes after every selected
    one, and the selection was full. *)
Lemma selected_first now limit db id row :
  0 <= limit -> db_operations db !! id = Some row -> eligible now db (id, row) = true ->
  ~ In id (selected now limit db) ->
  Z.of_nat (length (selected now limit db)) = limit /\
  forall j rj, In j (selected now limit db) -> db_operations db !! j = Some rj ->
    claimOrder (id, row) (j, rj) = false.
Proof.
  intros Hl Hr He Hni. unfold selected in *. set (l := sortBy claimOrder _) in *.
  assert (In (id, row) l) as Hin.
  { apply sortBy_in, List.filter_In. split; [by apply list_elem_of_In, elem_of_map_to_list|done]. }
  assert (In (id, row) (drop (Z.to_nat limit) l)) as Hd.
  { rewrite <- (take_drop (Z.to_nat limit) l) in Hin. apply in_app_or in Hin as [Hin|Hin]; [|done].
    destruct Hni. apply in_map_iff. by exists (id, row). }
  split.
  - rewrite length_map, length_take. assert (Z.to_nat limit < length l)%nat; [|lia].
    destruct (decide (length l <= Z.to_nat limit)%nat) as [Hle|]; [|lia]. by rewrite drop_ge in Hd.
  - intros j rj Hj Hrj. apply in_map_iff in Hj as ([j' rj'] & Ej & Hj). simpl in Ej. subst j'.
    assert (rj' = rj) as ->.
    { assert (In (j, rj') l) as Hjl by (eapply sublist_In; [apply sublist_take|exact Hj]).
      apply sortBy_in, List.filter_In in Hjl as [Hjl _]. apply list_elem_of_In, elem_of_map_to_list in Hjl. congruence. }
    apply (sorted_take_drop (before claimOrder) (Z.to_nat limit) l); [|done|done].
    apply sortBy_sorted; intros; [by eapply claimOrder_cotrans|by apply claimOrder_asym].
Qed.

(** A row the propagation leaves claimable is the row it found. *)
Lemma propagate_claimable now db id row :
  db_operations (propagate now db) !! id = Some row -> claimable now row = true ->
  db_operations db !! id = Some row.
Proof.
  unfold propagate. simpl. rewrite map_lookup_imap. destruct (db_operations db !! id) as [r|]; simpl; [|done].
  intros [= <-]. by destruct (_ && _).
Qed.

Lemma propagate_prerequisites now db id :
  prerequisitesDone (propagate now db) id -> prerequisitesDone db id.
Proof.
  intros Hp d Hd. specialize (Hp d Hd). rewrite propagate_status in Hp. by destruct (_ && _).
Qed.

(** What a claim may take: an operation nobody has started, or one whose lease
    has run out, that is due. *)
Definition runnable (now : Time) (row : OpRow) : Prop :=
  (o_status row = OperationPending \/
   (o_status row = OperationClaimed /\ o_until row <= UnixNano now)) /\
  o_available row <= UnixNano now.

Lemma eligible_spec now db id row :
  eligible now db (id, row) = true <-> runnable now row /\ prerequisitesDone db id.
Proof.
  unfold eligible, claimable, runnable. cbn [fst snd].
  rewrite !andb_true_iff, orb_true_iff, andb_true_iff, !bool_decide_eq_true, !Z.leb_le, unblocked_spec.
  tauto.
Qed.

Lemma eligible_claimable now db id row : eligible now db (id, row) = true -> claimable now row = true.
Proof. unfold eligible. intros He. by bool_to_prop. Qed.

Lemma claimOrder_false id row id' row' :
  claimOrder (id, row) (id', row') = false -> o_created row' <= o_created row.
Proof. unfold claimOrder. simpl. destruct (_ =? _) eqn:E; intros; bool_to_prop; lia. Qed.

(** What the rows that a claim has not taken say after it, they said before it. *)
Lemma claimed_back db db1 ids owner until now :
  (forall id, In id ids -> exists row, db_operations db1 !! id = Some row /\
     db_operations db !! id = Some (leasedBy row owner until now)) ->
  (forall id, ~ In id ids -> db_operations db !! id = db_operations db1 !! id) ->
  forall id s, statusOf db id = Some s -> s <> OperationClaimed -> statusOf db1 id = Some s.
Proof.
  intros I2 I3 id s. unfold statusOf. destruct (in_dec String.string_dec id ids) as [Hin|Hin]; [|by rewrite I3].
  destruct (I2 id Hin) as (row & _ & ->). simpl. by intros [= <-].
Qed.

(** C22: A claim hands out what can run, first come first served.  The claimed
    operations are distinct and at most [limit]; each was pending or held under
    an expired lease, was due, had every prerequisite completed, and is now
    leased to the claimer.  One that can still run afterwards was left behind
    only because the limit was reached by operations that are not younger.
    After the claim no pending operation waits, directly or through others, for
    a dead one. *)
Theorem claim_hands_out_what_can_run db owner limit now leaseFor db' claimed :
  Claim db owner limit now leaseFor = inr (db', claimed) ->
  List.NoDup (map do_ID claimed) /\ Z.of_nat (length claimed) <= limit /\
  (forall op, In op claimed -> exists row, db_operations db !! do_ID op = Some row /\
     runnable now row /\ prerequisitesDone db (do_ID op) /\
     db_operations db' !! do_ID op =
       Some (leasedBy row owner (UnixNano (TimeAdd now leaseFor)) (UnixNano now))) /\
  (forall id row, db_operations db' !! id = Some row -> ~ In id (map do_ID claimed) ->
     runnable now row -> prerequisitesDone db' id ->
     Z.of_nat (length claimed) = limit /\
     forall op rj, In op claimed -> db_operations db !! do_ID op = Some rj -> o_created rj <= o_created row) /\
  (forall o d, statusOf db' o = Some OperationPending -> tc (waitsFor db') o d ->
     statusOf db' d <> Some OperationDead).
Proof.
  unfold Claim. intros HR. refuse HR. injection HR as HR. bool_to_prop. set (db1 := propagate now db) in *.
  set (ids := selected now limit db1) in *.
  assert (forall id, In id ids -> exists row, db_operations db1 !! id = Some row /\
    eligible now db1 (id, row) = true) as Hel by (intros; by apply selected_eligible with (limit := limit)).
  destruct (claimEach_spec owner now leaseFor ids db1 (selected_NoDup now limit db1)) as (I1 & I2 & I3 & I4).
  { intros id Hid. destruct (Hel id Hid) as (row & Hr & He). eauto using eligible_claimable. }
  rewrite HR in I1, I2, I3, I4. cbn [fst snd] in I1, I2, I3, I4.
  pose proof (claimed_back _ _ _ _ _ _ I2 I3) as Hback.
  assert (length claimed = length ids) as Hlen by (by rewrite <- I1, length_map).
  assert (forall op, In op claimed -> In (do_ID op) ids) as Hop by (intros op Hop; rewrite <- I1; by apply in_map).
  split; [rewrite I1; apply selected_NoDup|]. split; [|split; [|split]].
  - rewrite Hlen. subst ids. unfold selected. rewrite length_map, length_take. lia.
  - intros op Ho. destruct (Hel _ (Hop _ Ho)) as (row & Hr & He).
    destruct (I2 _ (Hop _ Ho)) as (row2 & Hr2 & Hrow). assert (row2 = row) as -> by congruence.
    exists row. split; [by eapply propagate_claimable, eligible_claimable|].
    apply eligible_spec in He as [? He]. split; [done|]. split; [|done]. by apply (propagate_prerequisites now).
  - intros id row Hr Hni Hrun Hpre. rewrite I1 in Hni. rewrite (I3 _ Hni) in Hr.
    assert (eligible now db1 (id, row) = true) as He.
    { apply eligible_spec. split; [done|]. intros d Hd. rewrite <- I4 in Hd. apply Hback; [by apply Hpre|done]. }
    destruct (selected_first now limit db1 id row ltac:(lia) Hr He Hni) as [Hfull Hfirst].
    split; [by rewrite Hlen|]. intros op rj Ho Hrj. apply claimOrder_false with (id := id) (id' := do_ID op).
    apply Hfirst; [by apply Hop|]. destruct (Hel _ (Hop _ Ho)) as (rj' & Hrj' & He'). rewrite Hrj'.
    rewrite (propagate_claimable _ _ _ _ Hrj' (eligible_claimable _ _ _ _ He')) in Hrj. congruence.
  - intros o d Ho Ht Hd. apply (propagate_no_doomed now db o d); [by apply Hback| |by apply Hback].
    eapply tc_mono; [|exact Ht]. intros a b. unfold waitsFor. by rewrite I4.
Qed.

Lemma claim_hands_out_what_can_run_witness :
  exists db' claimed, Claim planned1 "worker" 10 noon Minute = inr (db', claimed) /\
    map do_ID claimed = ["drain"] /\ List.NoDup (map do_ID claimed).
Proof.
  eexists _, _. split; [vm_compute; reflexivity|]. split; [reflexivity|].
  refine (proj1 (claim_hands_out_what_can_run planned1 "worker" 10 noon Minute _ _ _)). vm_compute. reflexivity.
Defined.
