(* ===== verification/Authority.v ===== *)
(** * One writer at a time

    Plans apply once and in order, and at most one controller holds the lease. *)

From Stdlib Require Import ZArith Lia String.
From stdpp Require Import base tactics list gmap strings relations.
From S2P Require Import Prelude GoStrings Liveness Domain Operations Failure Store Outbox Durability.

Section Plans.
Context `{PlanDigest} `{CleanupIdentity}.

Lemma insertOperations_pending created ops db db' :
  eachOf (fun d op => insertOperation d op created) ops db = inr db' ->
  (forall id row, db_operations db !! id = Some row -> db_operations db' !! id = Some row) /\
  forall op, In op ops -> statusOf db' (do_ID op) = Some OperationPending.
Proof.
  revert db. induction ops as [|op ops IH]; intros db; simpl; [by intros [= <-]|].
  destruct (insertOperation db op created) as [|d] eqn:E; simpl; [done|]. intros Hr.
  apply insertRow_inr in E as (Hn & _ & ->). destruct (IH _ Hr) as [Hp Hall]. split.
  - intros id row Hid. apply Hp. simpl. by rewrite lookup_insert_ne by congruence.
  - intros op' [<-|Hop]; [|by apply Hall]. unfold statusOf.
    erewrite Hp; [|simpl; by rewrite lookup_insert_eq]. done.
Qed.

Lemma recordDependencies_rows db id deps db' :
  recordDependencies db id deps = inr db' ->
  db_operations db' = db_operations db /\ db_dependencies db ⊆ db_dependencies db' /\
  forall d, In d deps -> waitsFor db' id d.
Proof.
  revert db. induction deps as [|d deps IH]; intros db; simpl; [by intros [= <-]|].
  destruct (db_operations db !! d); [|done]. destruct (bool_decide _); [done|]. intros Hr.
  destruct (IH _ Hr) as (Eo & Es & Hd). simpl in Eo, Es. split; [done|]. split.
  - etransitivity; [|exact Es]. apply union_subseteq_r.
  - intros d' [<-|Hd']; [|by apply Hd]. apply Es, elem_of_union_l. by apply elem_of_singleton.
Qed.

Lemma recordAll_rows ops db db' :
  eachOf (fun d op => recordDependencies d (do_ID op) (do_DependsOn op)) ops db = inr db' ->
  db_operations db' = db_operations db /\ db_dependencies db ⊆ db_dependencies db' /\
  forall op d, In op ops -> In d (do_DependsOn op) -> waitsFor db' (do_ID op) d.
Proof.
  revert db. induction ops as [|op ops IH]; intros db; simpl; [by intros [= <-]|].
  destruct (recordDependencies db _ _) as [|d1] eqn:E; simpl; [done|]. intros Hr.
  apply recordDependencies_rows in E as (Eo & Es & Hd). destruct (IH _ Hr) as (Eo' & Es' & Hd').
  split; [congruence|]. split; [by etransitivity|].
  intros op' d [<-|Hop] Hin; [by apply Es', Hd|by eapply Hd'].
Qed.

(** What a plan that applied found and left. *)
Lemma ApplyPlan_applied db plan db' :
  ApplyPlan db plan = inr (db', true) ->
  DurablePlan_Valid plan = true /\
  (exists s, db_scheduler db = Some s /\ ss_Version s = dp_ExpectedSchedulerVersion plan) /\
  db_plans db' !! dp_ID plan = Some (Digest plan) /\
  db_scheduler db' = Some (persisted (dp_Scheduler plan)) /\
  (forall op, In op (dp_Operations plan) -> statusOf db' (do_ID op) = Some OperationPending) /\
  (forall op d, In op (dp_Operations plan) -> In d (do_DependsOn op) -> waitsFor db' (do_ID op) d).
Proof.
  intros HR. unfold ApplyPlan in HR. refuse HR. destruct (db_plans db !! dp_ID plan); [by destruct (bool_decide _)|].
  destruct (db_scheduler db) as [s|]; [|done]. refuse HR.
  destruct (eachOf (applyIntent _) _ db) as [|db1] eqn:E1; cbn [rbind] in HR; [done|].
  destruct (eachOf (fun d op => insertOperation d op _) _ db1) as [|db2] eqn:E2; cbn [rbind] in HR; [done|].
  destruct (eachOf _ (dp_Operations plan) db2) as [|db3] eqn:E3; cbn [rbind] in HR; [done|].
  injection HR as <-. bool_to_prop. apply insertOperations_pending in E2 as [_ Hp].
  apply recordAll_rows in E3 as (Eo & _ & Hd). split; [done|]. split; [by exists s|].
  split; [simpl; by rewrite lookup_insert_eq|]. split; [done|]. split; [|exact Hd].
  intros op Hop. unfold statusOf. simpl. rewrite Eo. by apply Hp.
Qed.

(** C21: A plan applies once and in order.  When it applies, the scheduler stood at
    exactly the version the plan was made for and now stands at the next one, and
    every operation of the plan is pending under its recorded dependencies.
    Applying it again changes nothing; another content under the same id is
    refused, and so is any other plan made for the same version. *)
Theorem plans_apply_once_and_in_order db plan db' :
  ApplyPlan db plan = inr (db', true) ->
  (exists s s', db_scheduler db = Some s /\ ss_Version s = dp_ExpectedSchedulerVersion plan /\
     db_scheduler db' = Some s' /\ ss_Version s' = add64 (dp_ExpectedSchedulerVersion plan) 1) /\
  (forall op, In op (dp_Operations plan) -> statusOf db' (do_ID op) = Some OperationPending /\
     forall d, In d (do_DependsOn op) -> waitsFor db' (do_ID op) d) /\
  ApplyPlan db' plan = inr (db', false) /\
  (forall other, dp_ID other = dp_ID plan -> Digest other <> Digest plan ->
     exists err, ApplyPlan db' other = inl err) /\
  (forall other, db_plans db' !! dp_ID other = None ->
     dp_ExpectedSchedulerVersion other = dp_ExpectedSchedulerVersion plan ->
     exists err, ApplyPlan db' other = inl err).
Proof.
  intros HR. destruct (ApplyPlan_applied _ _ _ HR) as (V & (s & Hs & Hv) & Hp & Hs' & Hops & Hdeps).
  assert (ss_Version (dp_Scheduler plan) = add64 (dp_ExpectedSchedulerVersion plan) 1) as Hnext.
  { unfold DurablePlan_Valid in V. apply andb_true_iff in V as [V _]. apply andb_true_iff in V as [V _].
    apply andb_true_iff in V as [V _]. apply negb_true_iff, orb_false_iff in V as [_ V].
    by apply negb_false_iff, Z.eqb_eq in V. }
  split; [by exists s, (persisted (dp_Scheduler plan))|].
  split; [intros op Hop; split; [by apply Hops|intros; by apply Hdeps]|]. split; [|split].
  - unfold ApplyPlan. rewrite V, Hp. cbn [negb]. by rewrite bool_decide_eq_true_2.
  - intros other Hid Hd. unfold ApplyPlan. destruct (negb _); [by eexists|]. rewrite Hid, Hp.
    rewrite bool_decide_eq_false_2 by congruence. by eexists.
  - intros other Hn He. unfold ApplyPlan. destruct (negb (DurablePlan_Valid other)); [by eexists|].
    rewrite Hn, Hs', He. cbn [persisted ss_Version]. rewrite Hnext.
    assert (add64 (dp_ExpectedSchedulerVersion plan) 1 <> dp_ExpectedSchedulerVersion plan) as Hne.
    { unfold add64, wrap64. intros E. set (v := dp_ExpectedSchedulerVersion plan) in *.
      pose proof (Z.div_mod (v + 1 + 9223372036854775808) 18446744073709551616 ltac:(lia)). lia. }
    rewrite (proj2 (Z.eqb_neq _ _) Hne). by eexists.
Qed.
End Plans.

Lemma plans_apply_once_and_in_order_witness :
  exists db', ApplyPlan (H := plainDigest) inhabited handover = inr (db', true) /\
    ApplyPlan (H := plainDigest) db' handover = inr (db', false) /\
    statusOf db' "spawn" = Some OperationPending.
Proof.
  eexists. split; [vm_compute; reflexivity|].
  destruct (plans_apply_once_and_in_order (H := plainDigest) inhabited handover _ ltac:(vm_compute; reflexivity))
    as (_ & Hops & Hagain & _).
  split; [exact Hagain|].
  exact (proj1 (Hops (due "spawn" OperationProvisionKind "vm-2" ["drain"]) (or_intror (or_introl eq_refl)))).
Defined.

(** ** The controller's lease *)

(** Instants [UnixNano] represents exactly: 1678 to 2262. *)
Definition datable (t : Time) : Prop := int64 (t - unixEpoch).

Lemma UnixNano_datable t : datable t -> UnixNano t = t - unixEpoch.
Proof. apply wrap64_id. Qed.

(** Controllers contending for the lease [name].  [t] is the clock; [held] is
    what each controller was last told it holds, until it gives it back. *)
Inductive Contention (name : string) : Time -> Db -> gmap string Lease_ -> Prop :=
| contend_start t db : db_leases db !! name = None -> Contention name t db ∅
| contend_wait t t' db held : Contention name t db held -> t <= t' -> Contention name t' db held
| contend_acquire t db held owner ttl db' lease :
    Contention name t db held -> datable t -> datable (t + ttl) ->
    AcquireLease db name owner t ttl = inr (db', lease) -> Contention name t db' (<[owner := lease]> held)
| contend_renew t db held owner lease ttl db' lease' :
    Contention name t db held -> held !! owner = Some lease -> datable t -> datable (t + ttl) ->
    RenewLease db lease t ttl = inr (db', lease') -> Contention name t db' (<[owner := lease']> held)
| contend_release t db held owner lease db' :
    Contention name t db held -> held !! owner = Some lease -> ReleaseLease db lease = inr db' ->
    Contention name t db' (delete owner held)
| contend_forget t db held owner : Contention name t db held -> Contention name t db (delete owner held).

(** A controller whose lease has not run out is the one the table names. *)
Definition named (name : string) (t : Time) (db : Db) (held : gmap string Lease_) : Prop :=
  forall owner lease, held !! owner = Some lease ->
    lease_Owner lease = owner /\ lease_Name lease = name /\
    (t < lease_ExpiresAt lease ->
     exists token, db_leases db !! name =
       Some {| l_owner := owner; l_token := token; l_expires := lease_ExpiresAt lease - unixEpoch |}).

Lemma AcquireLease_inr db name owner t ttl db' lease :
  AcquireLease db name owner t ttl = inr (db', lease) ->
  exists token,
    db_leases db' !! name = Some {| l_owner := owner; l_token := token; l_expires := UnixNano (t + ttl) |} /\
    lease = {| lease_Name := name; lease_Owner := owner; lease_Token := token; lease_ExpiresAt := t + ttl |} /\
    forall row, db_leases db !! name = Some row -> l_expires row <= UnixNano t \/ l_owner row = owner.
Proof.
  unfold AcquireLease, TimeAdd. intros HR. refuse HR. destruct (db_leases db !! name) as [row|].
  - accept HR. injection HR as <- <-. eexists. simpl. rewrite lookup_insert_eq. split; [done|]. split; [done|].
    intros row' [= <-]. bool_to_prop.
    match goal with G : _ \/ _ |- _ => destruct G as [G|G] end; bool_to_prop; auto.
  - injection HR as <- <-. exists 1. simpl. rewrite lookup_insert_eq. by split_and!.
Qed.

Lemma Contention_named name t db held : Contention name t db held -> named name t db held.
Proof.
  induction 1 as [t db Hn|t t' db held _ IH Ht|t db held owner ttl db' lease _ IH Ht Htt E
                 |t db held owner lease ttl db' lease' _ IH Hh Ht Htt E|t db held owner lease db' _ IH Hh E
                 |t db held owner _ IH]; intros o l Ho.
  - by rewrite lookup_empty in Ho.
  - destruct (IH o l Ho) as (Q1 & Q2 & Q3). split_and!; try done. intros. apply Q3. lia.
  - apply AcquireLease_inr in E as (token & Hdb & -> & Hprev). destruct (decide (o = owner)) as [->|Hne].
    + rewrite lookup_insert_eq in Ho. injection Ho as <-. simpl. split_and!; try done. intros _. exists token.
      by rewrite Hdb, UnixNano_datable.
    + rewrite lookup_insert_ne in Ho by done. destruct (IH o l Ho) as (Q1 & Q2 & Q3). split_and!; try done.
      intros Hl. exfalso. destruct (Q3 Hl) as (tok & Hrow). destruct (Hprev _ Hrow) as [Hx|Hx]; simpl in Hx; [|done].
      rewrite UnixNano_datable in Hx by done. lia.
  - unfold RenewLease in E. destruct (IH owner lease Hh) as (E1 & E2 & E3). rewrite E2 in E.
    destruct (db_leases db !! name) as [row|] eqn:Er; [|done]. accept E. unfold holdsRow in *. bool_to_prop.
    injection E as <- <-. unfold TimeAdd. simpl. destruct (decide (o = owner)) as [->|Hne].
    + rewrite lookup_insert_eq in Ho. injection Ho as <-. simpl. split_and!; try done. intros _.
      exists (l_token row). rewrite lookup_insert_eq, UnixNano_datable by done. f_equal. f_equal. congruence.
    + rewrite lookup_insert_ne in Ho by done. destruct (IH o l Ho) as (Q1 & Q2 & Q3). split_and!; try done.
      intros Hl. destruct (Q3 Hl) as (tok & Hrow). rewrite Er in Hrow. injection Hrow as ->. simpl in *. congruence.
  - unfold ReleaseLease in E. destruct (IH owner lease Hh) as (E1 & E2 & E3). rewrite E2 in E.
    destruct (db_leases db !! name) as [row|] eqn:Er; [|done]. accept E. unfold holdsRow in *. bool_to_prop.
    injection E as <-. simpl. destruct (decide (o = owner)) as [->|Hne]; [by rewrite lookup_delete_eq in Ho|].
    rewrite lookup_delete_ne in Ho by done. destruct (IH o l Ho) as (Q1 & Q2 & Q3). split_and!; try done.
    intros Hl. destruct (Q3 Hl) as (tok & Hrow). rewrite Er in Hrow. injection Hrow as ->. simpl in *. congruence.
  - destruct (decide (o = owner)) as [->|Hne]; [by rewrite lookup_delete_eq in Ho|].
    rewrite lookup_delete_ne in Ho by done. by apply IH.
Qed.

(** C19: At most one controller holds the lease.  Whatever sequence of waiting,
    acquiring, renewing, releasing and forgetting the controllers go through, two
    controllers that were both told they hold the lease past the present instant
    are the same controller. *)
Theorem lease_is_exclusive name t db held a b la lb :
  Contention name t db held ->
  held !! a = Some la -> held !! b = Some lb -> t < lease_ExpiresAt la -> t < lease_ExpiresAt lb -> a = b.
Proof.
  intros C Ha Hb Hta Htb. apply Contention_named in C.
  destruct (C a la Ha) as (_ & _ & Ca). destruct (C b lb Hb) as (_ & _ & Cb).
  destruct (Ca Hta) as [ta Ea]. destruct (Cb Htb) as [tb Eb]. congruence.
Qed.

Lemma noon_datable m : 0 <= m <= 100 -> datable (noon + m * Minute).
Proof. unfold datable, noon, unixEpoch, int64, minInt64, maxInt64, unixToInternal, Hour, Minute, Second. lia. Qed.

Definition acquired (db : Db) (owner : string) (t : Time) : Db * Lease_ :=
  match AcquireLease db "controller" owner t Minute with
  | inr granted => granted
  | inl _ => (db, {| lease_Name := ""; lease_Owner := ""; lease_Token := 0; lease_ExpiresAt := zeroTime |})
  end.

Definition firstLease : Db * Lease_ := acquired emptyDb "a" noon.
Definition secondLease : Db * Lease_ := acquired (fst firstLease) "b" (noon + 2 * Minute).

(** [a] takes the lease for a minute and goes silent; [b] takes over. *)
Lemma takeover :
  Contention "controller" (noon + 2 * Minute) (fst secondLease)
    (<["b" := snd secondLease]> (<["a" := snd firstLease]> ∅)).
Proof.
  eapply (contend_acquire "controller" (noon + 2 * Minute) (fst firstLease) _ "b" Minute).
  - eapply (contend_wait "controller" noon); [|vm_compute; discriminate].
    eapply (contend_acquire "controller" noon emptyDb ∅ "a" Minute).
    + apply contend_start. reflexivity.
    + apply (noon_datable 0). lia.
    + apply (noon_datable 1). lia.
    + vm_compute. reflexivity.
  - apply (noon_datable 2). lia.
  - replace (noon + 2 * Minute + Minute) with (noon + 3 * Minute) by (unfold Minute; lia).
    apply (noon_datable 3). lia.
  - vm_compute. reflexivity.
Qed.

Lemma lease_is_exclusive_witness :
  noon + 2 * Minute < lease_ExpiresAt (snd secondLease) /\
  ~ noon + 2 * Minute < lease_ExpiresAt (snd firstLease).
Proof.
  split; [vm_compute; reflexivity|]. intros Ha.
  assert ("a" = "b") as E; [|discriminate E].
  refine (lease_is_exclusive "controller" _ _ _ "a" "b" (snd firstLease) (snd secondLease) takeover _ _ Ha _);
    vm_compute; reflexivity.
Defined.
