(* ===== verification/ReconcileSpec.v ===== *)
(** * What a commit does to the store

    The controller's program runs against the tables of [Store], with other
    writers between any two of its transactions.  It writes nothing but the plan
    it was given, and a plan it reports applied has turned the durable fleet into
    the fleet the scheduler planned: what the scheduler proved of its own node
    holds of the rows. *)

From Stdlib Require Import ZArith Lia String List Permutation.
From stdpp Require Import base tactics list gmap strings relations.
From S2P Require Import Prelude GoStrings Liveness Domain Corroboration PriorityPolicy Scheduler Fixture Envelope Recovery.
From S2P Require Import Order Admission Passes Lanes PassSpec LaneSpec TickSpec Safety.
From S2P Require Import Operations Failure Effects Store Inbox Ports Projection Reconcile Knowledge Outbox Claiming Authority.

#[local] Open Scope prog_scope.

Abbreviation Reads := (list (Event PlanCall)).

(** ** Modes *)

(** Authority is entered only from canary, on fresh observations, a matching
    shadow, a passed canary and a rollback that is ready. *)
Lemma authority_needs_evidence from e :
  CanTransition from Authority e = true -> from <> Authority ->
  from = Canary /\ FreshObservations e = true /\ RollbackReady e = true /\ ShadowMatches e = true /\
  CanaryPassed e = true.
Proof.
  unfold CanTransition. destruct e as [f s c r]. simpl.
  destruct from; simpl; try done; destruct f, s, c, r; done.
Qed.

(** ** Running on the tables *)

Section Tables.
Context `{PlanDigest}.

Definition planAnswer {X : Set} (db : Db) (c : PlanCall X) : Db * X :=
  match c in PlanCall X return Db * X with
  | ReadScheduler => (db, SchedulerState_read db)
  | ReadInstance id => (db, Instance_read db id)
  | SpawnsBefore demand => (db, inr (SpawnGeneration db demand))
  | DrainsOf id => (db, inr (DrainGeneration db id))
  | Apply plan => match ApplyPlan db plan with inr (db', b) => (db', inr b) | inl err => (db, inl err) end
  end.

(** Others may have written before each call. *)
Definition commits (others : Reads -> Db -> Db) (X : Set) (h : Reads) (db : Db) (c : PlanCall X) : Db * X :=
  planAnswer (others h db) c.

Context `{CleanupIdentity}.

Definition lawful (others : Reads -> Db -> Db) : Prop := forall h db, rtc DbStep db (others h db).

(** What the program relies on of the store's answers. *)
Definition planAnswers (h : Reads) (ev : Event PlanCall) : Prop :=
  match ev with
  | Ev (ReadInstance id) (inr row) => row_ID row = id
  | _ => True
  end.

(** A row the program has read is still there. *)
Definition stillThere (db : Db) (ev : Event PlanCall) : Prop :=
  match ev with
  | Ev (ReadInstance id) (inr _) => is_Some (db_instances db !! id)
  | _ => True
  end.

(** [db] is what applying the plan to [db0] left. *)
Definition appliedTo (h : Reads) (db0 : Db) (plan : DurablePlan) (db : Db) : Prop :=
  Reachable db0 /\ Forall (stillThere db0) h /\ ApplyPlan db0 plan = inr (db, true).

Definition justApplied (h : Reads) (db : Db) (ev : Event PlanCall) : Prop :=
  match ev with
  | Ev (Apply plan) (inr true) => exists db0, appliedTo h db0 plan db
  | _ => True
  end.

Record PlanWorld (h : Reads) (db : Db) : Prop := {
  pw_reachable : Reachable db;
  pw_rows : Forall (stillThere db) h;
  pw_last : forall ev, last h = Some ev -> justApplied h db ev
}.

Lemma stillThere_grows db db' ev : Grows db db' -> stillThere db ev -> stillThere db' ev.
Proof. intros G. destruct ev as [X [] x]; simpl; try done. destruct x; [done|]. apply (gr_rows _ _ G). Qed.

Lemma planAnswer_steps {X : Set} db (c : PlanCall X) : rtc DbStep db (fst (planAnswer db c)).
Proof.
  destruct c; simpl; try apply rtc_refl. destruct (ApplyPlan db plan) as [|[db' b]] eqn:E; [apply rtc_refl|].
  by eapply rtc_once, step_apply.
Qed.

Lemma commits_steps others (X : Set) h db (c : PlanCall X) :
  lawful others -> PlanWorld h db ->
  planAnswers h (Ev c (snd (commits others X h db c))) /\
  PlanWorld (h ++ [Ev c (snd (commits others X h db c))]) (fst (commits others X h db c)).
Proof.
  intros Ho [Hr Hs _]. unfold commits. set (db0 := others h db).
  assert (Reachable db0) as Hr0 by (unfold Reachable in *; etransitivity; [exact Hr|apply Ho]).
  assert (Forall (stillThere db0) h) as Hs0.
  { eapply Forall_impl; [exact Hs|]. intros ev. apply stillThere_grows, DbSteps_grow, Ho. }
  pose proof (planAnswer_steps db0 c) as Hstep.
  assert (forall ev, stillThere (fst (planAnswer db0 c)) ev -> Forall (stillThere (fst (planAnswer db0 c))) (h ++ [ev])) as Hsn.
  { intros ev Hev. apply Forall_app. split; [|by constructor]. eapply Forall_impl; [exact Hs0|].
    intros ev'. by apply stillThere_grows, DbSteps_grow. }
  assert (Reachable (fst (planAnswer db0 c))) as Hr1 by (unfold Reachable in *; by etransitivity).
  split.
  - destruct c; simpl; try done. unfold Instance_read. destruct (db_instances db0 !! id) eqn:L; [|done].
    by apply (con_ids _ (Reachable_consistent _ Hr0)) in L as [? _].
  - split; [done| |].
    + apply Hsn. destruct c; simpl; try done. unfold Instance_read. destruct (db_instances db0 !! id) eqn:L; [by eexists|done].
    + intros ev. rewrite last_snoc. intros [= <-]. destruct c; simpl; try done.
      simpl in Hsn. destruct (ApplyPlan db0 plan) as [|[db1 [|]]] eqn:E; simpl; try done.
      exists db0. split; [done|]. split; [|done]. apply Forall_app. split; [done|by repeat constructor].
Qed.

Lemma wp_commits others {A : Set} (p : Prog PlanCall A) guard post db :
  lawful others -> Reachable db -> wp planAnswers guard [] p post ->
  let r := execute (commits others) [] db p in
  post (historyOf r) (snd r) /\ guardedFrom guard 0 (historyOf r) /\ PlanWorld (historyOf r) (stateOf r).
Proof.
  intros Ho Hr Hw. eapply (wp_execute (commits others) planAnswers guard PlanWorld);
    [|split; [exact Hr|constructor|done]|apply (guardedFrom_refl _ [])|exact Hw].
  intros X h w' c Hi. by apply commits_steps.
Qed.

End Tables.

(** ** What the program writes *)

Section Writes.
Context `{PlanEncoding}.
Variables (c : Controller) (plan : Plan) (cursor : string) (now : Time).

(** The intent and the outbox operation of one operation of the plan, from what
    was read for it. *)
Definition renders (h : Reads) (op : Operation) (r : Rendered) : Prop :=
  match op_Kind op with
  | OperationDrain => exists row generation,
      In (Ev (ReadInstance (op_Instance op)) (inr row)) h /\ In (Ev (DrainsOf (op_Instance op)) (inr generation)) h /\
      row_ID row = op_Instance op /\ drainable op (row_State row) = true /\
      r = (drainIntent row (drainPhaseOf op) now,
           outbox op (attemptIdentity (op_ID op) generation) "deregister" (op_Instance op) (row_Ownership row) now)
  | OperationSpawn => exists profile generation,
      In (Ev (SpawnsBefore (op_Demand op)) (inr generation)) h /\ spawnProfile c op = Some profile /\
      let name := instanceName op generation in
      let id := attemptIdentity (op_ID op) generation in
      r = (spawnIntent c op profile name id now, outbox op id "clone" name (spawnOwnership c op id) now)
  end.

(** The plan the program may hand to the store: of a ready tick, in a mode that
    writes, against the scheduler version it read, and in shadow mode without
    instances or operations. *)
Definition entitled (h : Reads) (durable : DurablePlan) : Prop :=
  plan_Status plan = PlanReady /\ ctl_Mode c <> Observe_ /\ Mode_Valid (ctl_Mode c) = true /\
  exists prior rendered,
    In (Ev ReadScheduler (inr prior)) h /\ durable = durablePlan c plan prior cursor now rendered /\
    (if bool_decide (ctl_Mode c = Shadow) then rendered = [] else Forall2 (renders h) (plan_Operations plan) rendered).

Definition onlyReads (ev : Event PlanCall) : Prop :=
  match ev with Ev (Apply _) _ => False | _ => True end.

(** One plan is handed over, and it is entitled. *)
Definition mayApply (h : Reads) (ev : Event PlanCall) : Prop :=
  match ev with
  | Ev (Apply durable) _ => entitled h durable /\ Forall onlyReads h
  | _ => True
  end.

Definition applyAnswer (ev : Event PlanCall) : option bool :=
  match ev with
  | Ev (Apply _) (inr b) => Some b
  | _ => None
  end.

(** What the program reports. *)
Definition reported (h : Reads) (r : Committed) : Prop :=
  match r with
  | (true, err) => err = None /\ exists durable, last h = Some (Ev (Apply durable) (inr true)) /\ entitled h durable
  | (false, None) =>
      plan_Status plan = PlanBlockedObservation \/ ctl_Mode c = Observe_ \/
      (last h ≫= applyAnswer) = Some false \/
      exists prior, last h = Some (Ev ReadScheduler (inr prior)) /\ plan_Operations plan = [] /\
        schedulerStateMatches prior (plan_Next plan) cursor = Some true
  | (false, Some _) => (last h ≫= applyAnswer) = None
  end.

Lemma renders_mono h h' op r : renders h op r -> renders (h ++ h') op r.
Proof.
  unfold renders. destruct (op_Kind op).
  - intros (p & g & Hg & Hx). exists p, g. split; [apply in_or_app; by left|done].
  - intros (row & g & Hr & Hg & Hx). exists row, g. split; [apply in_or_app; by left|].
    split; [apply in_or_app; by left|done].
Qed.

Lemma entitled_mono h h' durable : entitled h durable -> entitled (h ++ h') durable.
Proof.
  intros (Hs & Hm & Hv & prior & rendered & Hp & Hd & Hr). do 3 (split; [done|]). exists prior, rendered.
  split; [apply in_or_app; by left|]. split; [done|]. destruct (bool_decide _); [done|].
  eapply Forall2_impl; [exact Hr|]. intros op r. apply renders_mono.
Qed.

(** [h'] continues [h] with reads. *)
Definition readsOn (h h' : Reads) : Prop := exists more, h' = h ++ more /\ Forall onlyReads more.

Lemma readsOn_refl h : readsOn h h.
Proof. exists []. by rewrite app_nil_r. Qed.

Lemma readsOn_snoc {X : Set} h h' (k : PlanCall X) x : readsOn h h' -> onlyReads (Ev k x) -> readsOn h (h' ++ [Ev k x]).
Proof.
  intros (more & -> & Hm) Hk. exists (more ++ [Ev k x]). rewrite app_assoc. split; [done|].
  apply Forall_app. split; [done|by constructor].
Qed.

Lemma readsOn_trans h1 h2 h3 : readsOn h1 h2 -> readsOn h2 h3 -> readsOn h1 h3.
Proof.
  intros (a & -> & Ha) (b & -> & Hb). exists (a ++ b). rewrite app_assoc. split; [done|by apply Forall_app].
Qed.

Lemma renders_reads h h' op r : readsOn h h' -> renders h op r -> renders h' op r.
Proof. intros (more & -> & _). apply renders_mono. Qed.

Lemma in_snoc {A} (l : list A) x : In x (l ++ [x]).
Proof. apply in_or_app. right. by left. Qed.

Lemma wp_translateOne h op :
  wp planAnswers mayApply h (translateOne c op now)
    (fun h' answer => readsOn h h' /\ match answer with inr r => renders h' op r | inl _ => True end).
Proof.
  unfold translateOne, renders. destruct (op_Kind op).
  - unfold translateSpawn. destruct (spawnProfile c op) as [profile|] eqn:E; cbn -[app]; [|by split; [apply readsOn_refl|]].
    intros [err|g] _; (split; [done|]); (split; [by apply readsOn_snoc; [apply readsOn_refl|]|]); [done|].
    exists profile, g. split; [apply in_snoc|done].
  - unfold translateDrain. cbn -[app]. intros [err|row] Hrow; (split; [done|]); cbn -[app].
    { split; [|done]. by apply readsOn_snoc; [apply readsOn_refl|]. }
    destruct (drainable op (row_State row)) eqn:D; cbn -[app].
    2: { split; [|done]. by apply readsOn_snoc; [apply readsOn_refl|]. }
    intros [err|g] _; (split; [done|]);
      (split; [by apply readsOn_snoc; [apply readsOn_snoc; [apply readsOn_refl|]|]|]); [done|].
    exists row, g. split; [apply in_or_app; left; apply in_snoc|]. split; [apply in_snoc|].
    simpl in Hrow. rewrite Hrow. done.
Qed.

Lemma wp_translateAll ops : forall h earlier done_,
  Forall2 (renders h) earlier done_ ->
  wp planAnswers mayApply h (translateAll c ops now done_)
    (fun h' answer => readsOn h h' /\
       match answer with inr rendered => Forall2 (renders h') (earlier ++ ops) rendered | inl _ => True end).
Proof.
  induction ops as [|op ops IH]; intros h earlier rs Hrs; cbn [translateAll].
  { simpl. rewrite app_nil_r. split; [apply readsOn_refl|done]. }
  apply wp_bind. eapply wp_mono; [|apply wp_translateOne]. intros h' [err|r] [Hh Hr]; simpl; [done|].
  assert (Forall2 (renders h') (earlier ++ [op]) (rs ++ [r])) as Hrs'.
  { apply Forall2_app; [|by repeat constructor]. eapply Forall2_impl; [exact Hrs|]. intros ? ?. by apply renders_reads. }
  eapply wp_mono; [|apply (IH h' (earlier ++ [op]) _ Hrs')].
  intros h2 answer [Hh2 Ha]. rewrite <- app_assoc in Ha. split; [by eapply readsOn_trans|done].
Qed.

Lemma wp_translate prior h :
  plan_Status plan = PlanReady -> ctl_Mode c <> Observe_ -> Mode_Valid (ctl_Mode c) = true ->
  In (Ev ReadScheduler (inr prior)) h ->
  wp planAnswers mayApply h (translate c plan prior cursor now)
    (fun h' answer => readsOn h h' /\ match answer with inr durable => entitled h' durable | inl _ => True end).
Proof.
  intros Hs Hm Hv Hp. unfold translate, entitled. destruct (bool_decide (ctl_Mode c = Shadow)) eqn:Es.
  - simpl. split; [apply readsOn_refl|]. do 3 (split; [done|]). by exists prior, [].
  - apply wp_bind. eapply wp_mono; [|apply (wp_translateAll _ h [] [])]; [|constructor].
    intros h' [err|rendered] [Hh Hr]; simpl; (split; [done|]); [done|]. do 3 (split; [done|]).
    exists prior, rendered. split; [|done]. destruct Hh as (more & -> & _). apply in_or_app. by left.
Qed.

Lemma wp_commitTranslated prior :
  plan_Status plan = PlanReady -> ctl_Mode c <> Observe_ -> Mode_Valid (ctl_Mode c) = true ->
  wp planAnswers mayApply [Ev ReadScheduler (inr prior)] (commitTranslated c plan prior cursor now) reported.
Proof.
  intros Hs Hm Hv. unfold commitTranslated. apply wp_bind.
  eapply wp_mono; [|apply (wp_translate prior); try done; by left]. intros h' answer [Hh Ha].
  assert (Forall onlyReads h') as Hro by (destruct Hh as (more & -> & Hmore); by constructor).
  destruct answer as [err|durable]; cbn -[app].
  - destruct Hh as (more & -> & Hmore). destruct (last ([Ev ReadScheduler (inr prior)] ++ more)) as [ev|] eqn:L; [|done].
    apply last_Some_elem_of, list_elem_of_In in L. rewrite Forall_forall in Hro.
    specialize (Hro ev (proj2 (list_elem_of_In _ _) L)). by destruct ev as [X [] x].
  - intros [err|[|]] _; (split; [done|]); unfold reported; rewrite last_snoc; simpl; [done| |by auto].
    split; [done|]. exists durable. split; [done|by apply entitled_mono].
Qed.

Lemma wp_Commit : wp planAnswers mayApply [] (Commit c plan cursor now) reported.
Proof.
  unfold Commit. destruct (negb (ctl_Store c) || _ || _ || _ || _) eqn:G; [done|].
  assert (Mode_Valid (ctl_Mode c) = true) as Hv.
  { destruct (Mode_Valid (ctl_Mode c)); [done|]. by rewrite !orb_true_r in G. }
  destruct (plan_Status plan) eqn:Hs; [|by left|done]. clear G.
  case_bool_decide as Ho; [by right; left|].
  cbn -[app schedulerStateMatches commitTranslated]. intros [err|prior] _; (split; [done|]); [done|].
  pose proof (wp_commitTranslated prior Hs Ho Hv) as Hct.
  destruct (plan_Operations plan) as [|op ops] eqn:Eo; [|done].
  destruct (schedulerStateMatches prior (plan_Next plan) cursor) as [[|]|] eqn:M; [|done|done].
  do 3 right. by exists prior.
Qed.

End Writes.

(** ** What a committed plan leaves in the tables *)

(** An instance as the scheduler sees it, without the readings of the node. *)
Definition View : Type := string * DemandKey * Platform * ProfileID * Route * Resources * InstanceState.

Definition viewRow (r : InstanceRow) : View :=
  (row_Repo r, row_Demand r, row_Platform r, row_Profile r, row_Route r, row_Resources r, row_State r).

Definition viewInstance (i : Instance_) : View :=
  (inst_Repo i, inst_Demand i, inst_Platform i, inst_Profile i, inst_Route i, inst_Resources i, inst_State i).

Abbreviation Rows := (gmap string InstanceRow).

Section Realised.
Context (config : Config).

(** What one operation of the plan does to the rows. *)
Inductive Realises (op : Operation) (m : Rows) : Rows -> Prop :=
| realise_drain row row' :
    isDrain op = true -> m !! op_Instance op = Some row -> drainable op (row_State row) = true ->
    row_State row' = InstanceDraining -> row_DrainPhase row' = drainPhaseOf op ->
    Realises op m (<[op_Instance op := row']> m)
| realise_spawn name row :
    isSpawn op = true -> m !! name = None -> viewRow row = viewInstance (plannedInstance config op) ->
    Realises op m (<[name := row]> m).

Inductive RealisesAll : list Operation -> Rows -> Rows -> Prop :=
| realise_none m : RealisesAll [] m m
| realise_next op ops m m' m2 : Realises op m m' -> RealisesAll ops m' m2 -> RealisesAll (op :: ops) m m2.

Lemma drainable_settled op s : drainable op s = true -> s <> InstancePlanned /\ s <> InstanceDraining.
Proof. unfold drainable. destruct (op_Recovery op), (op_ProvisionStalled op), s; done. Qed.

Definition drainedIDs (ops : list Operation) : list string := map op_Instance (List.filter isDrain ops).

(** A row that was not there is a planned one. *)
Lemma RealisesAll_new ops m m' k :
  RealisesAll ops m m' -> (m !! k = None \/ exists row, m !! k = Some row /\ row_State row = InstancePlanned) ->
  m' !! k = None \/ exists row, m' !! k = Some row /\ row_State row = InstancePlanned.
Proof.
  induction 1 as [m|op ops m m1 m2 S _ IH]; [done|]. intros Hk. apply IH. clear IH. destruct S as [row row' _ L D _ _|name row _ L V].
  - assert (op_Instance op <> k) as Hne.
    { intros <-. destruct Hk as [Hk|(r & Hk & Hp)]; [congruence|]. rewrite L in Hk. injection Hk as ->.
      by destruct (drainable_settled _ _ D). }
    by rewrite lookup_insert_ne.
  - destruct (decide (name = k)) as [->|Hne]; [|by rewrite lookup_insert_ne]. right. exists row.
    rewrite lookup_insert_eq. split; [done|]. by injection V.
Qed.

(** A drained row was there, in a state to be drained, and a draining row stays. *)
Lemma RealisesAll_draining ops m m' k row :
  RealisesAll ops m m' -> m !! k = Some row -> row_State row = InstanceDraining -> m' !! k = Some row.
Proof.
  induction 1 as [m|op ops m m1 m2 S _ IH]; [done|]. intros Hk Hs. apply IH; [|done]. destruct S as [r r' _ L D _ _|name r _ L _].
  - rewrite lookup_insert_ne; [done|]. intros <-. rewrite Hk in L. injection L as ->. by destruct (drainable_settled _ _ D).
  - rewrite lookup_insert_ne; [done|congruence].
Qed.

Lemma RealisesAll_drains ops m m' op :
  RealisesAll ops m m' -> In op ops -> isDrain op = true ->
  (exists row, m !! op_Instance op = Some row /\ drainable op (row_State row) = true) /\
  (exists row', m' !! op_Instance op = Some row' /\ row_State row' = InstanceDraining /\ row_DrainPhase row' = drainPhaseOf op).
Proof.
  induction 1 as [m|o ops m m1 m2 S R IH]; [done|]. intros [->|Hin] Hd.
  - destruct S as [row row' _ L D Hs Hp|name row Hsp _ _].
    + split; [by exists row|]. exists row'. split; [|done]. eapply RealisesAll_draining; [exact R|by rewrite lookup_insert_eq|done].
    + unfold isDrain, isSpawn in *. by destruct (op_Kind op).
  - destruct (IH Hin Hd) as [(row & L & D) Hafter]. split; [|done]. exists row. split; [|done].
    destruct (drainable_settled _ _ D) as [Hnp Hnd]. destruct S as [r r' _ _ _ Hs _|name r _ _ V].
    + destruct (decide (op_Instance o = op_Instance op)) as [E|Hne]; [|by rewrite lookup_insert_ne in L].
      rewrite E, lookup_insert_eq in L. congruence.
    + destruct (decide (name = op_Instance op)) as [E|Hne]; [|by rewrite lookup_insert_ne in L].
      rewrite E, lookup_insert_eq in L. injection L as ->. injection V as. congruence.
Qed.

End Realised.

Section Fleet.
Context (config : Config).

(** The live rows but those of [gone], as the scheduler sees them. *)
Definition present (gone : list string) (entry : string * InstanceRow) : bool :=
  negb (bool_decide (fst entry ∈ gone)) && negb (state_eqb (row_State (snd entry)) InstanceDeleted).

Definition fleetWithout (gone : list string) (m : Rows) : list View :=
  map (fun entry : string * InstanceRow => viewRow (snd entry)) (List.filter (present gone) (map_to_list m)).

Lemma fleet_perm gone l l' :
  l ≡ₚ l' -> map (fun entry : string * InstanceRow => viewRow (snd entry)) (List.filter (present gone) l)
             ≡ₚ map (fun entry : string * InstanceRow => viewRow (snd entry)) (List.filter (present gone) l').
Proof. intros Hp. by apply Permutation_map, filter_perm. Qed.

Lemma fleet_replaced gone (m : Rows) k row :
  k ∈ gone -> is_Some (m !! k) -> fleetWithout gone (<[k := row]> m) ≡ₚ fleetWithout gone m.
Proof.
  intros Hk [old L]. unfold fleetWithout.
  rewrite (fleet_perm gone (map_to_list (<[k := row]> m)) ((k, row) :: map_to_list (delete k m))).
  2: { rewrite <- insert_delete_eq. apply map_to_list_insert, lookup_delete_eq. }
  rewrite (fleet_perm gone (map_to_list m) ((k, old) :: map_to_list (delete k m))) by (symmetry; by apply map_to_list_delete).
  assert (forall r, present gone (k, r) = false) as Hp by (intros r; unfold present; simpl; by rewrite bool_decide_eq_true_2).
  cbn [List.filter]. by rewrite !Hp.
Qed.

Lemma fleet_added gone (m : Rows) k row :
  k ∉ gone -> m !! k = None -> row_State row <> InstanceDeleted ->
  fleetWithout gone (<[k := row]> m) ≡ₚ viewRow row :: fleetWithout gone m.
Proof.
  intros Hk L Hs. unfold fleetWithout.
  rewrite (fleet_perm gone (map_to_list (<[k := row]> m)) ((k, row) :: map_to_list m)) by by apply map_to_list_insert.
  simpl. unfold present at 1. simpl. rewrite bool_decide_eq_false_2 by done. by destruct (row_State row).
Qed.

(** Carrying out the operations adds the planned instances to what stays. *)
Lemma RealisesAll_fleet gone ops m m' :
  RealisesAll config ops m m' -> (forall k, k ∈ gone -> is_Some (m !! k)) ->
  (forall op, In op ops -> isDrain op = true -> op_Instance op ∈ gone) ->
  fleetWithout gone m' ≡ₚ
    fleetWithout gone m ++ map viewInstance (map (plannedInstance config) (List.filter isSpawn ops)).
Proof.
  induction 1 as [m|op ops m m1 m2 S _ IH]; intros Hg Hops; [by rewrite app_nil_r|].
  assert (forall k, k ∈ gone -> is_Some (m1 !! k)) as Hg1.
  { intros k Hk. destruct S; apply lookup_insert_is_Some'; right; by apply Hg. }
  rewrite IH; [|done|intros o Ho; apply Hops; by right]. clear IH Hg1.
  destruct S as [row row' Hd L D Hs Hp|name row Hsp L V].
  - assert (isSpawn op = false) as Hns by (unfold isDrain, isSpawn in *; by destruct (op_Kind op)).
    cbn [List.filter]. rewrite Hns. rewrite fleet_replaced; [done|apply Hops; [by left|done]|by eexists].
  - cbn [List.filter]. rewrite Hsp. rewrite fleet_added; [|intros Hk; apply Hg in Hk as [? ?]; congruence|done|].
    + simpl. rewrite V. apply Permutation_middle.
    + injection V as. congruence.
Qed.

End Fleet.

(** ** From the plan to the rows *)

Section Committed.
Context `{PlanEncoding} `{PlanDigest} `{CleanupIdentity}.

Lemma ApplyPlan_rows db plan db' :
  ApplyPlan db plan = inr (db', true) ->
  exists db1, eachOf (applyIntent (dp_CreatedAt plan)) (dp_Instances plan) db = inr db1 /\
    db_instances db' = db_instances db1.
Proof.
  intros HR. unfold ApplyPlan in HR. refuse HR. destruct (db_plans db !! dp_ID plan); [by destruct (bool_decide _)|].
  destruct (db_scheduler db) as [s|]; [|done]. refuse HR.
  destruct (eachOf (applyIntent _) _ db) as [|db1] eqn:E1; cbn [rbind] in HR; [done|].
  destruct (eachOf (fun d op => insertOperation d op _) _ db1) as [|db2] eqn:E2; cbn [rbind] in HR; [done|].
  destruct (eachOf _ (dp_Operations plan) db2) as [|db3] eqn:E3; cbn [rbind] in HR; [done|].
  injection HR as <-. exists db1. split; [done|]. simpl.
  assert (db_instances db2 = db_instances db1) as E21.
  { eapply (eachOf_ind (fun d => db_instances d = db_instances db1)); [done| |exact E2].
    intros op d d' _ Hd Hi. apply insertRow_inr in Hi as (_ & _ & ->). done. }
  eapply (eachOf_ind (fun d => db_instances d = db_instances db1)); [done| |exact E3].
  intros op d d' _ Hd Hi. rewrite <- Hd. exact (recordDependencies_instances _ _ _ _ Hi).
Qed.

Context (config : Config) (c : Controller) (now : Time) (h : Reads).
Hypothesis profiles : ctl_Profiles c = Profiles config.

Lemma spawn_view op profile name id :
  spawnProfile c op = Some profile ->
  viewRow (intent_Instance (spawnIntent c op profile name id now)) = viewInstance (plannedInstance config op).
Proof.
  unfold spawnProfile, plannedInstance, profileOf. rewrite profiles. destruct (Profiles config !! op_Profile op) as [p|]; [|done].
  destruct (_ || _ || _ || _); [done|]. by intros [= <-].
Qed.

Lemma applyIntent_realises op r created db db' :
  renders c now h op r -> (isDrain op = true -> is_Some (db_instances db !! op_Instance op)) ->
  applyIntent created db (fst r) = inr db' -> Realises config op (db_instances db) (db_instances db').
Proof.
  unfold renders, isDrain. destruct (op_Kind op) eqn:K.
  - intros (profile & g & _ & Hp & ->) _. unfold applyIntent, insertInstance. cbn [fst spawnIntent ExpectedVersion].
    pose proof (spawn_view op profile (instanceName op g) (attemptIdentity (op_ID op) g) Hp) as V. simpl in V. simpl.
    destruct (db_instances db !! _) eqn:L; [done|]. intros [= <-]. simpl.
    eapply realise_spawn; [by unfold isSpawn; rewrite K|done|]. rewrite <- V. done.
  - intros (row & g & _ & _ & Hid & D & ->) Hrow. destruct (Hrow eq_refl) as [cur L].
    unfold applyIntent, insertInstance. simpl. rewrite Hid, L. destruct (row_Version row <? 0); [done|].
    destruct (_ && _) eqn:G; [|done]. apply andb_true_iff in G as [G _]. apply andb_true_iff in G as [_ G].
    apply bool_decide_eq_true in G. intros [= <-]. simpl.
    eapply realise_drain; [by unfold isDrain; rewrite K|exact L|by rewrite G|done|done].
Qed.

Lemma intents_realise created ops rendered : forall db db',
  Forall2 (renders c now h) ops rendered ->
  (forall op, In op ops -> isDrain op = true -> is_Some (db_instances db !! op_Instance op)) ->
  eachOf (applyIntent created) (map fst rendered) db = inr db' ->
  RealisesAll config ops (db_instances db) (db_instances db').
Proof.
  intros db db' HF. revert db. induction HF as [|op r ops rendered Hr _ IH]; intros db Hrows; simpl.
  { intros [= <-]. constructor. }
  destruct (applyIntent created db (fst r)) as [|db1] eqn:E; cbn [rbind]; [done|]. intros He.
  econstructor; [eapply applyIntent_realises; [exact Hr|apply Hrows; by left|exact E]|].
  apply IH; [|done]. intros o Ho Hd. apply (gr_rows _ _ (applyIntent_grows _ _ _ _ E)), Hrows; [by right|done].
Qed.

End Committed.

Section Claims.
Context `{PlanEncoding} `{PlanDigest} `{CleanupIdentity} `{ContentAddress}.

(** The live rows are the instances the tick was given. *)
Definition observes (m : Rows) (instances : list Instance_) : Prop :=
  map (fun entry : string * InstanceRow => (fst entry, viewRow (snd entry))) (List.filter (present []) (map_to_list m))
  ≡ₚ map (fun i => (inst_ID i, viewInstance i)) instances.

Definition without (gone : list string) (entry : string * View) : bool := negb (bool_decide (fst entry ∈ gone)).

Lemma fleet_split gone m :
  fleetWithout gone m =
  map snd (List.filter (without gone)
    (map (fun entry : string * InstanceRow => (fst entry, viewRow (snd entry))) (List.filter (present []) (map_to_list m)))).
Proof.
  unfold fleetWithout. induction (map_to_list m) as [|[k row] l IH]; [done|]. simpl.
  assert (present gone (k, row) = without gone (k, viewRow row) && present [] (k, row)) as ->.
  { unfold present, without. cbn [fst snd]. rewrite (bool_decide_eq_false_2 (k ∈ [])) by apply not_elem_of_nil. done. }
  destruct (present [] (k, row)); [|by rewrite andb_false_r].
  simpl. rewrite andb_true_r. destruct (without gone (k, viewRow row)); simpl; by rewrite IH.
Qed.

Lemma observed_fleet ops m instances :
  observes m instances ->
  fleetWithout (drainedIDs ops) m ≡ₚ map viewInstance (List.filter (fun i => negb (drainedBy ops i)) instances).
Proof.
  intros Ho. rewrite fleet_split.
  rewrite (filter_perm (without (drainedIDs ops)) _ _ Ho).
  induction instances as [|i instances IH] in |- *; [done|]. simpl.
  change (without (drainedIDs ops) (inst_ID i, viewInstance i)) with (negb (drainedBy ops i)).
  destruct (drainedBy ops i); simpl; [done|]. by apply Permutation_skip.
Qed.

(** What a committed plan left: every drained row was there and is now draining
    in the phase of its cause, every operation is in the outbox, and the rows
    that are not being drained are, where the tick saw the rows as they were,
    exactly the node the scheduler planned. *)
Record realised (input : Input) (plan : Plan) (c : Controller) (now : Time) (h : Reads) (db0 db1 : Db) : Prop := {
  re_drains : forall op, In op (plan_Operations plan) -> isDrain op = true ->
    (exists row, db_instances db0 !! op_Instance op = Some row /\ drainable op (row_State row) = true) /\
    (exists row', db_instances db1 !! op_Instance op = Some row' /\ row_State row' = InstanceDraining /\
       row_DrainPhase row' = drainPhaseOf op);
  re_outbox : exists rendered, Forall2 (renders c now h) (plan_Operations plan) rendered /\
    forall r, In r rendered -> statusOf db1 (do_ID (snd r)) = Some OperationPending;
  re_fleet : observes (db_instances db0) (instancesOf input) ->
    fleetWithout (drainedIDs (plan_Operations plan)) (db_instances db1) ≡ₚ
    map viewInstance (after input (plan_Operations plan))
}.

Lemma entitled_realised input plan c cursor now h durable db0 db1 :
  ctl_Profiles c = Profiles (in_Config input) -> ctl_Mode c <> Shadow ->
  entitled c plan cursor now h durable -> appliedTo h db0 durable db1 -> realised input plan c now h db0 db1.
Proof.
  intros Hprof Hmode (_ & _ & _ & prior & rendered & _ & -> & Hr) (Hreach & Hthere & HA).
  rewrite bool_decide_eq_false_2 in Hr by done.
  assert (forall op, In op (plan_Operations plan) -> isDrain op = true -> is_Some (db_instances db0 !! op_Instance op)) as Hrows.
  { intros op Hop Hd. destruct (Forall2_In_r _ _ _ _ (proj2 (Forall2_flip _ _ _) Hr) Hop) as (r & _ & Hop2). unfold flip, renders in Hop2. unfold isDrain in Hd.
    destruct (op_Kind op); [done|]. destruct Hop2 as (row & g & Hrow & _). rewrite Forall_forall in Hthere.
    exact (Hthere _ (proj2 (list_elem_of_In _ _) Hrow)). }
  destruct (ApplyPlan_rows _ _ _ HA) as (db' & He & Ei).
  pose proof (intents_realise (in_Config input) c now h Hprof _ _ _ _ _ Hr Hrows He) as HR. rewrite <- Ei in HR. clear Ei He db'.
  split.
  - intros op Hop Hd. by eapply RealisesAll_drains.
  - exists rendered. split; [done|]. intros r Hin. apply ApplyPlan_applied in HA as (_ & _ & _ & _ & Hp & _).
    apply Hp. simpl. by apply in_map.
  - intros Ho. rewrite (RealisesAll_fleet _ (drainedIDs (plan_Operations plan)) _ _ _ HR).
    + rewrite (observed_fleet _ _ _ Ho). unfold after, appendPlannedSpawns. by rewrite map_app.
    + intros k Hk. apply list_elem_of_In, in_map_iff in Hk as (op & <- & Hop). apply List.filter_In in Hop as [Hop Hd]. by apply Hrows.
    + intros op Hop Hd. apply list_elem_of_In, in_map_iff. exists op. split; [done|]. by apply List.filter_In.
Qed.

(** The controller writes nothing but its plan.  Whatever others write in
    between, a commit hands the store at most one plan, and only of a ready tick
    in a mode that writes: made for the scheduler version it read, in shadow mode
    without instances or operations, otherwise with exactly one intent and one
    outbox operation for every operation of the tick.  A drain is asked only for
    an instance it read in a state its cause allows, in the phase of that cause;
    a spawn carries the platform, route and vector of its profile.  It reports
    the plan applied exactly when the store applied it. *)
Theorem commit_writes_only_the_plan others db c plan cursor now :
  lawful others -> Reachable db ->
  (forall before ev after, historyOf (execute (commits others) [] db (Commit c plan cursor now)) = before ++ ev :: after ->
     mayApply c plan cursor now before ev) /\
  reported c plan cursor now (historyOf (execute (commits others) [] db (Commit c plan cursor now)))
    (snd (execute (commits others) [] db (Commit c plan cursor now))) /\
  Reachable (stateOf (execute (commits others) [] db (Commit c plan cursor now))).
Proof.
  intros Ho Hr. destruct (wp_commits others _ _ _ db Ho Hr (wp_Commit c plan cursor now)) as (Hp & Hg & Hw).
  split; [|split; [exact Hp|apply Hw]]. intros before ev after Hh. apply (Hg before ev after Hh). lia.
Qed.


End Claims.

(** ** A committed tick *)

#[local] Instance planText : PlanEncoding := {|
  encodeState st := "{next}"; encodeReservation r := "[]"; encodeCursor s := s; encodePayload op o := op_ID op;
  canonicalJSON s := Some s; hash8 s := s; hash12 s := s |}.
#[local] Instance digestByID : PlanDigest := {| Digest p := dp_ID p |}.
#[local] Instance recoveredNames : CleanupIdentity := {| recoveryID id := "recovered-" +:+ id |}.

Definition idleRow : InstanceRow :=
  {| row_ID := "i1"; row_Repo := "acme/lib"; row_Platform := PlatformLinux; row_Profile := "large";
     row_Route := "route-large"; row_Resources := Node.vec 6 8192 1; row_Demand := Node.key "acme/lib" 9;
     row_Image := ""; row_State := InstanceOnlineIdle; row_Version := 6; row_DrainPhase := 0;
     row_Ownership := {| ControllerID := "fleet"; own_ResourceID := "job"; own_OperationID := "clone-i1" |};
     row_LastError := ""; row_CreatedAt := midday; row_UpdatedAt := midday |}.

Definition idleDb : Db := match CreateInstance midday emptyDb idleRow with inr db => db | inl _ => emptyDb end.

Lemma idleDb_reachable : Reachable idleDb.
Proof. eapply rtc_l; [eapply (step_create midday emptyDb idleRow); vm_compute; reflexivity|apply rtc_refl]. Qed.

Definition canary : Controller :=
  {| ctl_Store := true; ctl_ID := "fleet"; ctl_Mode := Canary; ctl_Profiles := Node.sharedProfiles;
     ctl_Images := <["macos" := "sequoia"]> ∅ |}.

Definition handoffPlan : Plan :=
  match PlanTick (H := plainAddress) drainingInput with
  | Some p => p
  | None => newPlan PlanInvalidObservation zeroState
  end.

Definition alone (h : Reads) (db : Db) : Db := db.

Lemma alone_lawful : lawful alone.
Proof. intros h db. apply rtc_refl. Qed.

Definition handoffRun := execute (commits alone) [] idleDb (Commit canary handoffPlan "cursor" midday).

Lemma commit_writes_only_the_plan_witness :
  snd handoffRun = (true, None) /\ length (historyOf handoffRun) = 5%nat /\
  reported canary handoffPlan "cursor" midday (historyOf handoffRun) (snd handoffRun).
Proof.
  split; [vm_compute; reflexivity|]. split; [vm_compute; reflexivity|].
  apply (commit_writes_only_the_plan alone idleDb canary handoffPlan "cursor" midday alone_lawful idleDb_reachable).
Defined.


(** The rows the tick of [drainingInput] saw, and what the commit made of them. *)
Lemma handoff_observed :
  observes (db_instances idleDb) (instancesOf drainingInput) /\
  map row_State (map snd (map_to_list (db_instances (stateOf handoffRun)))) = [InstanceDraining; InstancePlanned].
Proof. split; vm_compute; reflexivity. Qed.
