(* ===== verification/InventorySpec.v ===== *)
(** * What the inventory promises the scheduler

    Every instance a tick plans on is a durable row read in that tick, joined with
    what the backend enumerated in that tick; what could not be read makes the
    observation unavailable, never shorter. *)

From Stdlib Require Import ZArith Lia String List.
From stdpp Require Import base tactics list gmap strings.
From S2P Require Import Prelude GoStrings Liveness Domain Corroboration Scheduler Fixture Operations Failure.
From S2P Require Import Effects Store Inbox Ports Projection Advertise HostProbe HostSpec Inventory ReconcileSpec.

#[local] Open Scope prog_scope.

Abbreviation Readings := (list (Event InventoryCall)).

(** The store keeps one row per name. *)
Definition distinctRows (h : Readings) (ev : Event InventoryCall) : Prop :=
  match ev with
  | Ev LiveRows (inr rows) => List.NoDup (map row_ID rows)
  | _ => True
  end.

(** The inventory only reads, so every call is allowed. *)
Definition anyCall (h : Readings) (ev : Event InventoryCall) : Prop := True.

Abbreviation wpi := (wp distinctRows anyCall).

(** Going on reading. *)
Definition extends (h h' : Readings) : Prop := exists more, h' = h ++ more.

Lemma extends_refl h : extends h h.
Proof. exists []. by rewrite app_nil_r. Qed.

Lemma extends_trans h1 h2 h3 : extends h1 h2 -> extends h2 h3 -> extends h1 h3.
Proof. intros (a & ->) (b & ->). exists (a ++ b). by rewrite app_assoc. Qed.

Lemma extends_snoc h ev : extends h (h ++ [ev]).
Proof. by exists [ev]. Qed.

Lemma extends_in h h' ev : extends h h' -> In ev h -> In ev h'.
Proof. intros (more & ->) Hin. apply in_or_app. by left. Qed.

#[local] Hint Resolve extends_refl extends_snoc : core.
#[local] Hint Extern 2 (In _ (_ ++ [_])) => (apply in_or_app; right; left; reflexivity) : core.

Lemma Forall2_impl_In {A B} (P Q : A -> B -> Prop) l l' :
  (forall x y, In x l -> P x y -> Q x y) -> Forall2 P l l' -> Forall2 Q l l'.
Proof. intros H. induction 1 as [|x y l l' Hx Hl IH]; constructor; [apply H; [by left|done]|]. apply IH. intros a b Ha. apply H. by right. Qed.

(** ** One row *)

Section Row.
Variables (p : ProductionInventory) (now : Time).

(** An instance read from a row and the machine of its name, with the evidence
    obtained on the way. *)
Record ReadAs (h : Readings) (row : InstanceRow) (vm : option Machine) (i : Instance_) : Prop := {
  ra_instance : i = instanceOf row (fst (readingOf row vm)) (snd (readingOf row vm)) (inst_RecoveryReady i) (inst_JobInactive i);
  ra_recovery : inst_RecoveryReady i = true -> exists c,
    In (Ev (Confirmation (row_ID row)) (Some c)) h /\ Safe c now (recoveryConfirmationMaxAge p) = true;
  ra_inactive : inst_JobInactive i = true -> In (Ev (JobActive row) (Some false)) h
}.

Lemma ReadAs_mono h h' row vm i : extends h h' -> ReadAs h row vm i -> ReadAs h' row vm i.
Proof.
  intros He [H1 H2 H3]. split; [done| |].
  - intros Hr. destruct (H2 Hr) as (c & Hc & Hs). exists c. split; [by eapply extends_in|done].
  - intros Hj. by eapply extends_in; [|apply H3].
Qed.

Lemma wp_readRow row vm h : wpi h (readRow p now row vm) (fun h' i => extends h h' /\ ReadAs h' row vm i).
Proof.
  unfold readRow. destruct (readingOf row vm) as [power unreadable] eqn:E. apply wp_bind.
  eapply (wp_mono _ _ _ _ (fun h' ready => extends h h' /\ (ready = true -> exists c,
    In (Ev (Confirmation (row_ID row)) (Some c)) h' /\ Safe c now (recoveryConfirmationMaxAge p) = true))).
  - intros h1 ready [He Hready]. apply wp_bind.
    eapply (wp_mono _ _ _ _ (fun h' inactive => extends h1 h' /\ (inactive = true -> In (Ev (JobActive row) (Some false)) h'))).
    + intros h2 inactive [He2 Hin]. cbn [wp]. split; [by eapply extends_trans|]. split; cbn; [by rewrite E| |done].
      intros Hr. destruct (Hready Hr) as (c & Hc & Hs). exists c. split; [by eapply extends_in|done].
    + unfold askInactive. destruct (_ && _ && _); [|cbn; by split]. cbn -[app]. intros [[]|] _; (split; [done|]); split; auto; done.
  - unfold askRecovery. destruct (_ && _ && _); [|cbn; by split]. cbn -[app]. intros [c|] _; (split; [done|]); split; auto; [|done].
    intros Hs. exists c. auto.
Qed.

(** ** The rows *)

(** A row the inventory accepts, and how it was read. *)
Record Accepted (h : Readings) (machines : ByName) (row : InstanceRow) (i : Instance_) : Prop := {
  ac_valid : SchedulingMetadataValid row = true /\ row_Repo row <> "";
  ac_present : machines !! row_ID row = None -> absenceIsReconcilable (row_State row) = true;
  ac_read : ReadAs h row (machines !! row_ID row) i
}.

Lemma Accepted_mono h h' machines row i : extends h h' -> Accepted h machines row i -> Accepted h' machines row i.
Proof. intros He [H1 H2 H3]. split; [done|done|by eapply ReadAs_mono]. Qed.

Lemma Accepted_other h machines name row i :
  row_ID row <> name -> Accepted h (delete name machines) row i -> Accepted h machines row i.
Proof. intros Hne [H1 H2 H3]. rewrite lookup_delete_ne in * by done. by split. Qed.

(** What the loop has read: an instance for every row, and no machine is lost but
    those of the rows. *)
Definition readOff (machines : ByName) (stored : list InstanceRow) (result : list Instance_) (h : Readings)
    (r : string + list Instance_ * ByName) : Prop :=
  match r with
  | inr (result', left_) => exists read, result' = result ++ read /\ Forall2 (Accepted h machines) stored read /\
      (forall name, is_Some (machines !! name) -> is_Some (left_ !! name) \/ In name (map row_ID stored))
  | inl _ => True
  end.

Lemma readOff_next h machines row stored result i r :
  ~ In (row_ID row) (map row_ID stored) -> Accepted h machines row i ->
  readOff (delete (row_ID row) machines) stored (result ++ [i]) h r -> readOff machines (row :: stored) result h r.
Proof.
  intros Hfresh Hi. destruct r as [err|[result' left_]]; [done|]. intros (read & -> & Hread & Hleft).
  exists (i :: read). split; [by rewrite <- app_assoc|]. split.
  - constructor; [done|]. eapply Forall2_impl_In; [|exact Hread]. intros row' i' Hin. apply Accepted_other.
    intros E. apply Hfresh. rewrite <- E. by apply in_map.
  - intros name Hn. destruct (decide (name = row_ID row)) as [->|Hne]; [right; by left|].
    destruct (Hleft name) as [Hl|Hl]; [by rewrite lookup_delete_ne by done|by left|right; by right].
Qed.

Lemma wp_readRows stored : forall machines result h, List.NoDup (map row_ID stored) ->
  wpi h (readRows p now stored machines result) (fun h' r => extends h h' /\ readOff machines stored result h' r).
Proof.
  induction stored as [|row stored IH]; intros machines result h Hnd; cbn [readRows].
  { split; [done|]. exists []. rewrite app_nil_r. split; [done|]. split; [constructor|]. by left. }
  inversion_clear Hnd as [|? ? Hfresh Hnd']. destruct (negb _ || _) eqn:Hv; [cbn; by split|]. bool_to_prop.
  assert ((machines !! row_ID row = None -> absenceIsReconcilable (row_State row) = true) ->
    wpi h (i <~~ readRow p now row (machines !! row_ID row) ;; readRows p now stored (delete (row_ID row) machines) (result ++ [i]))
      (fun h' r => extends h h' /\ readOff machines (row :: stored) result h' r)) as Hgo.
  { intros Habs. apply wp_bind. eapply wp_mono; [|apply wp_readRow]. intros h1 i [He1 Hi].
    eapply wp_mono; [|apply (IH (delete (row_ID row) machines) (result ++ [i]) h1 Hnd')]. intros h2 r [He2 Hr].
    split; [by eapply extends_trans|]. eapply readOff_next; [done| |exact Hr]. split; [done|done|by eapply ReadAs_mono]. }
  destruct (machines !! row_ID row) as [vm|] eqn:Hvm; [by apply Hgo|].
  destruct (absenceIsReconcilable (row_State row)) eqn:Ha; [by apply Hgo|]. cbn. by split.
Qed.

End Row.

(** ** The evidence of earlier ticks *)

Lemma wp_probeAll ids : forall h, wpi h (probeAll ids) (fun h' outcomes => extends h h' /\
  Forall2 (fun id outcome => In (Ev (Probe id) outcome) h') ids outcomes).
Proof.
  induction ids as [|id ids IH]; intros h; cbn [probeAll]; [cbn; split; [done|constructor]|]. intros outcome _. split; [done|].
  apply wp_bind. eapply wp_mono; [|apply IH]. intros h' outcomes [He Hf]. cbn. split; [eapply extends_trans; [apply extends_snoc|exact He]|].
  constructor; [|done]. eapply extends_in; [exact He|]. auto.
Qed.

Lemma foldProbes_lookup policy state now l : forall (next : Runs) id run,
  fold_left (fun next '(id, outcome) => <[id := Observe policy (runOf state id) outcome now]> next) l next !! id = Some run ->
  (exists outcome, In (id, outcome) l /\ run = Observe policy (runOf state id) outcome now) \/ next !! id = Some run.
Proof.
  induction l as [|[id' o] l IH]; intros next id run Hl; simpl in *; [by right|].
  destruct (IH _ _ _ Hl) as [(o' & Hin & ->)|Hn]; [left; exists o'; by auto|].
  destruct (decide (id' = id)) as [<-|Hne].
  - rewrite lookup_insert_eq in Hn. injection Hn as <-. left. exists o. by auto.
  - rewrite lookup_insert_ne in Hn by done. by right.
Qed.

(** The guest state of an instance folds one probe of this observation into what
    was remembered, by a policy that states a bound. *)
Definition probedIn (p : ProductionInventory) (m : Memory) (h : Readings) (id : string) (run : GuestLivenessState) : Prop :=
  exists t now outcome, inv_Guest p = Some t /\ Enabled (tracker_Policy t) = true /\
    In (Ev GuestClock now) h /\ In (Ev (Probe id) outcome) h /\
    run = Observe (tracker_Policy t) (runOf (mem_guest m) id) outcome now.

Lemma wp_Tracker p m ids h :
  wpi h (Tracker_Observe (inv_Guest p) (mem_guest m) ids) (fun h' r => extends h h' /\
    forall id run, fst r !! id = Some run -> probedIn p m h' id run).
Proof.
  unfold Tracker_Observe. destruct (inv_Guest p) as [t|] eqn:Ht, ids as [|id0 ids]; try (cbn; by split).
  destruct (negb _ || _) eqn:He; [cbn; by split|]. bool_to_prop. cbn -[app probeAll zip_with]. intros now _. split; [done|].
  apply wp_bind. eapply wp_mono; [|apply (wp_probeAll (id0 :: ids))]. intros h' outcomes [Hx Hf]. cbn [wp fst].
  split; [eapply extends_trans; [apply extends_snoc|exact Hx]|]. intros id run Hl. apply foldProbes_lookup in Hl as [(o & Hin & ->)|Hn]; [|done].
  exists t, now, o. split_and!; try done; [eapply extends_in; [exact Hx|]; auto|].
  apply list_elem_of_In, list_elem_of_lookup in Hin as [k Hk]. apply lookup_zip_with_Some in Hk as (x & y & [= <- <-] & Hx1 & Hy1).
  by apply (Forall2_lookup_lr _ _ _ _ _ _ Hf Hx1).
Qed.

(** An instance as it was read, with its power corroborated and its guest probed. *)
Definition seenAs (p : ProductionInventory) (m : Memory) (h : Readings) (t : Time) (i i' : Instance_) : Prop :=
  let j := if inv_Power p then corroborated (mem_power m) t i else i in
  i' = withGuest j (inst_Guest i') /\ (inst_Guest i' = inst_Guest i \/ probedIn p m h (inst_ID i) (inst_Guest i')).

Lemma seenAs_mono p m h h' t i i' : extends h h' -> seenAs p m h t i i' -> seenAs p m h' t i i'.
Proof.
  intros He [H1 H2]. split; [done|]. destruct H2 as [H2|(tr & now & o & H3 & H4 & H5 & H6 & H7)]; [by left|right].
  exists tr, now, o. split_and!; try done; by eapply extends_in.
Qed.

(** What an observation that succeeded rests on. *)
Record Grounded (p : ProductionInventory) (m : Memory) (h : Readings) (instances : Observation (list Instance_)) (m' : Memory)
    (rows : list InstanceRow) (vms : list Machine) (read : list Instance_) (t : Time) : Prop := {
  gr_clock : In (Ev WallClock (obs_ObservedAt instances)) h;
  gr_stored : In (Ev LiveRows (inr rows)) h /\ List.NoDup (map row_ID rows);
  gr_machines : In (Ev Machines (Some vms)) h;
  gr_read : Forall2 (Accepted p (obs_ObservedAt instances) h (byName vms)) rows read;
  gr_tracked : forall name, is_Some (byName vms !! name) -> HasPrefix (bytesOf name) (bytesOf controllerPrefix) = true ->
    In name (map row_ID rows);
  gr_power : inv_Power p = true -> In (Ev PowerClock t) h;
  gr_seen : Forall2 (seenAs p m h t) read (obs_Value instances);
  gr_memory : mem_power m' = if inv_Power p then snd (corroborateAll (mem_power m) t read) else mem_power m
}.

(** A fresh observation is grounded; any other is empty and changes nothing. *)
Definition observedAs (p : ProductionInventory) (m : Memory) (h : Readings) (instances : Observation (list Instance_)) (m' : Memory) : Prop :=
  match obs_State instances with
  | ObservationFresh => exists rows vms read t, Grounded p m h instances m' rows vms read t
  | _ => obs_Value instances = [] /\ m' = m
  end.

Lemma Forall2_map_self {A B} (R : A -> B -> Prop) (f : A -> B) l : (forall x, R x (f x)) -> Forall2 R l (map f l).
Proof. intros H. induction l; constructor; auto. Qed.

Lemma withGuest_same i : withGuest i (inst_Guest i) = i.
Proof. by destruct i. Qed.

Lemma attached_seen p m h t (states : Runs) i :
  (forall id run, states !! id = Some run -> probedIn p m h id run) ->
  let j := if inv_Power p then corroborated (mem_power m) t i else i in
  seenAs p m h t i (match states !! inst_ID j with Some s => withGuest j s | None => j end).
Proof.
  intros Hs. simpl. assert (inst_ID (if inv_Power p then corroborated (mem_power m) t i else i) = inst_ID i) as Ej by (by destruct (inv_Power p)).
  rewrite Ej. destruct (states !! inst_ID i) as [s|] eqn:E.
  - split; [done|]. right. simpl. by apply Hs.
  - split; [by rewrite withGuest_same|]. left. by destruct (inv_Power p).
Qed.

Lemma untracked_none machines name :
  untracked machines = false -> is_Some (machines !! name) -> HasPrefix (bytesOf name) (bytesOf controllerPrefix) = false.
Proof.
  intros Hu [vm Hvm]. destruct (HasPrefix _ _) eqn:E; [|done]. unfold untracked in Hu.
  apply not_true_iff_false in Hu. destruct Hu. apply existsb_exists. exists name. split; [|done].
  apply in_map_iff. exists (name, vm). split; [done|]. by apply list_elem_of_In, elem_of_map_to_list.
Qed.

Section Observation.
Variables (p : ProductionInventory) (m : Memory).

Lemma wp_Corroborator h read :
  wpi h (Corroborator_Observe (inv_Power p) (mem_power m) read) (fun h' r => extends h h' /\
    exists t, (inv_Power p = true -> In (Ev PowerClock t) h') /\
      fst r = map (fun i => if inv_Power p then corroborated (mem_power m) t i else i) read /\
      snd r = if inv_Power p then snd (corroborateAll (mem_power m) t read) else mem_power m).
Proof.
  unfold Corroborator_Observe. destruct (inv_Power p); cbn -[app].
  - intros now _. split; [done|]. split; [done|]. exists now. auto.
  - split; [done|]. exists 0. by rewrite map_id.
Qed.

Lemma wp_observeRows now stored vms h :
  In (Ev WallClock now) h -> In (Ev LiveRows (inr stored)) h -> List.NoDup (map row_ID stored) -> In (Ev Machines (Some vms)) h ->
  wpi h (observeRows p m now stored vms) (fun h' r => extends h h' /\ observedAs p m h' (fst r) (snd r)).
Proof.
  intros Hn Hr Hnd Hm. unfold observeRows. apply wp_bind. eapply wp_mono; [|by apply wp_readRows].
  intros h1 [reason|[result left_]] [He1 Hread]; [cbn; by split|]. destruct Hread as (read & -> & Hread & Hleft). simpl app in *.
  destruct (untracked left_) eqn:Hu; [cbn; by split|]. apply wp_bind. eapply wp_mono; [|apply wp_Corroborator].
  intros h2 [instances power] (He2 & t & Ht & Ei & Ep). simpl in Ei, Ep. subst instances power.
  apply wp_bind. unfold probeGuests. apply wp_bind. eapply wp_mono; [|apply wp_Tracker].
  intros h3 [states guest] [He3 Hs]. cbn [wp fst snd] in *. assert (extends h h3) as He by (eapply extends_trans; [exact He1|by eapply extends_trans]).
  split; [done|]. unfold observedAs. cbn [Fresh obs_State]. exists stored, vms, read, t. split; cbn [Fresh obs_ObservedAt obs_Value mem_power].
  - by eapply extends_in.
  - split; [by eapply extends_in|done].
  - by eapply extends_in.
  - eapply Forall2_impl_In; [|exact Hread]. intros row i _. apply Accepted_mono. by eapply extends_trans.
  - intros name Hname Hp. destruct (Hleft name Hname) as [Hl|Hl]; [|done]. by rewrite (untracked_none _ _ Hu Hl) in Hp.
  - intros Hp. eapply extends_in; [exact He3|by apply Ht].
  - unfold attachGuests. rewrite map_map. apply Forall2_map_self. intros i. by apply attached_seen.
  - done.
Qed.

Context `{FloatToInt}.

(** The host is the probe of this observation under the node's guardrails, with
    the drain gate as it stood. *)
Definition hostFrom (h : Readings) (host : Observation Host) : Prop :=
  exists snapshot draining, In (Ev Snapshot snapshot) h /\
    (if inv_UpdateDrain p then In (Ev UpdateDraining draining) h else draining = false) /\
    host = hostObservation snapshot (inv_Capacity p) (inv_Guards p) (inv_ElasticHostEnvelope p) (inv_HostBudget p) draining.

Lemma wp_Inventory :
  wpi [] (Inventory_Observe p m) (fun h r => observedAs p m h (fst (fst r)) (snd r) /\
    (hostFrom h (snd (fst r)) \/ Usable (snd (fst r)) = false)).
Proof.
  unfold Inventory_Observe. destruct (inv_Adapters p); [|cbn; split; [done|by right]]. cbn -[app observeRows askDraining hostObservation].
  intros now _. split; [done|]. intros snapshot _. split; [done|]. apply wp_bind.
  set (h0 := [Ev WallClock now] ++ [Ev Snapshot snapshot]).
  eapply (wp_mono _ _ _ _ (fun h draining => extends h0 h /\
    (if inv_UpdateDrain p then In (Ev UpdateDraining draining) h else draining = false))).
  2: { unfold askDraining. destruct (inv_UpdateDrain p); [|cbn; by split]. cbn -[app]. intros d _. split; [done|]. split; auto. }
  intros h1 draining [He1 Hd]. cbn -[app observeRows hostObservation]. intros stored Hst. split; [done|].
  set (host := hostObservation _ _ _ _ _ _). assert (forall h, extends h1 h -> hostFrom h host) as Hhost.
  { intros h He. exists snapshot, draining. split; [eapply extends_in; [exact He|]; eapply extends_in; [exact He1|]; right; by left|].
    split; [|done]. destruct (inv_UpdateDrain p); [by eapply extends_in|done]. }
  destruct stored as [err|stored]; [cbn -[app]; split; [done|]; left; by apply Hhost|].
  cbn -[app observeRows hostObservation]. intros [vms|] _; (split; [done|]).
  2: { cbn -[app]. split; [done|]. left. apply Hhost. eapply extends_trans; by apply extends_snoc. }
  apply wp_bind. eapply wp_mono; [|apply wp_observeRows; [| |exact Hst|]]; auto.
  - intros h r [He Ho]. cbn [wp fst snd]. split; [done|]. left. apply Hhost.
    eapply extends_trans; [apply extends_snoc|]. eapply extends_trans; [apply extends_snoc|exact He].
  - apply in_or_app. left. apply in_or_app. left. eapply extends_in; [exact He1|]. by left.
  - apply in_or_app. left. auto.
Qed.

End Observation.

(** ** What a tick plans on *)

(** An instance that says of a row what was read in this observation. *)
Record Faithful (p : ProductionInventory) (h : Readings) (now : Time) (machines : ByName) (row : InstanceRow) (i : Instance_) : Prop := {
  ff_name : inst_ID i = row_ID row;
  ff_view : viewInstance i = viewRow row;
  ff_valid : SchedulingMetadataValid row = true /\ row_Repo row <> "";
  ff_occupied : inst_OccupiedSince i = row_CreatedAt row;
  ff_absent : machines !! row_ID row = None -> absenceIsReconcilable (row_State row) = true;
  ff_power : let raw := fst (readingOf row (machines !! row_ID row)) in
    inst_Power i = raw \/ (raw = InstancePowerStopped /\ inst_Power i = InstancePowerUnknown /\ TearingDown (row_State row) = false);
  ff_recovery : inst_RecoveryReady i = true -> exists c,
    In (Ev (Confirmation (row_ID row)) (Some c)) h /\ Safe c now (recoveryConfirmationMaxAge p) = true;
  ff_inactive : inst_JobInactive i = true -> In (Ev (JobActive row) (Some false)) h
}.

Lemma corroborated_power runs t i :
  inst_Power (corroborated runs t i) = inst_Power i \/
  (inst_Power i = InstancePowerStopped /\ inst_Power (corroborated runs t i) = InstancePowerUnknown /\ TearingDown (inst_State i) = false).
Proof.
  unfold corroborated. simpl. unfold CorroboratedPower. destruct (negb _ || _ || _) eqn:E; [by left|]. bool_to_prop. right. done.
Qed.

Lemma accepted_faithful p m h now machines t row i i' :
  Accepted p now h machines row i -> seenAs p m h t i i' -> Faithful p h now machines row i'.
Proof.
  intros [Hv Ha [Hi Hr Hj]] [Hs _]. destruct (inv_Power p).
  - rewrite Hs. pose proof (corroborated_power (mem_power m) t i) as Hp. rewrite Hi in Hp at 2 3 5. split; simpl; try (by rewrite Hi); done.
  - rewrite Hs. split; simpl; try (by rewrite Hi); try done. left. by rewrite Hi.
Qed.

Section Claims.
Context `{FloatToInt}.

(** The store answers with one row per name. *)
Definition oneRowPerName (env : Env InventoryCall) : Prop := forall (X : Set) h (c : InventoryCall X), distinctRows h (Ev c (env X h c)).

(** The inventory a tick plans on is what was read in that tick.  A fresh observation has exactly one
    instance for every durable row the store answered with, in order and with the row's own identity,
    demand, resources and state; its power is what the backend enumerated for that name in the same
    observation, an uncorroborated stop being reported as unknown; an owned machine that is missing is
    accepted only in a state that reconciles absence, and no machine of the controller is left untracked;
    and evidence for a recovery was answered in the same observation.  Every other observation is empty and
    unusable, and the host is the probe's under the guardrails with the drain gate applied. *)
Theorem inventory_is_what_was_read (env : Env InventoryCall) (p : ProductionInventory) (m : Memory) :
  oneRowPerName env ->
  let h := fst (run env [] (Inventory_Observe p m)) in
  let instances := fst (fst (snd (run env [] (Inventory_Observe p m)))) in
  let host := snd (fst (snd (run env [] (Inventory_Observe p m)))) in
  match obs_State instances with
  | ObservationFresh => exists rows vms,
      In (Ev LiveRows (inr rows)) h /\ In (Ev Machines (Some vms)) h /\
      Forall2 (Faithful p h (obs_ObservedAt instances) (byName vms)) rows (obs_Value instances) /\
      (forall name, is_Some (byName vms !! name) -> HasPrefix (bytesOf name) (bytesOf controllerPrefix) = true -> In name (map row_ID rows))
  | _ => obs_Value instances = [] /\ Usable instances = false
  end /\
  (hostFrom p h host \/ Usable host = false).
Proof.
  intros Henv h instances host. destruct (wp_run distinctRows anyCall env _ [] 0 _ Henv (guardedFrom_refl _ []) (wp_Inventory p m)) as [[Ho Hh] _].
  fold h instances host in Ho, Hh. split; [|exact Hh]. unfold observedAs in Ho. unfold Usable.
  destruct (obs_State instances); try (destruct Ho; done). destruct Ho as (rows & vms & read & t & G).
  exists rows, vms. split; [apply G|]. split; [apply G|]. split; [|apply G].
  pose proof (gr_read _ _ _ _ _ _ _ _ _ G) as Hr. pose proof (gr_seen _ _ _ _ _ _ _ _ _ G) as Hs.
  clear -Hr Hs. revert Hs. generalize (obs_Value instances). induction Hr as [|row i rows read Hi Hr IH]; intros l Hs; inversion_clear Hs; constructor; [by eapply accepted_faithful|by apply IH].
Qed.

(** ** Many ticks *)

(** One observation that succeeded: the memory before and after it, the instances
    with their raw readings, and the instant of the readings. *)
Definition observation (p : ProductionInventory) (m : Memory) (read : list Instance_) (t : Time)
    (instances : Observation (list Instance_)) (m' : Memory) : Prop :=
  exists env host rows vms, oneRowPerName env /\ snd (run env [] (Inventory_Observe p m)) = ((instances, host), m') /\
    obs_State instances = ObservationFresh /\
    Grounded p m (fst (run env [] (Inventory_Observe p m))) instances m' rows vms read t.

(** The raw readings of a name, newest first, since it last was absent. *)
Definition readingsAfter (hist : string -> list (InstancePower * Time)) (read : list Instance_) (t : Time) (id : string)
    : list (InstancePower * Time) :=
  match List.find (fun i => bool_decide (inst_ID i = id)) read with
  | Some i => (inst_Power i, t) :: hist id
  | None => []
  end.

(** The memory of a node that has observed for some ticks since it started. *)
Inductive Watched (p : ProductionInventory) : Memory -> (string -> list (InstancePower * Time)) -> Prop :=
| watched_start : Watched p {| mem_power := ∅; mem_guest := ∅ |} (fun _ => [])
| watched_blind m hist env instances host m' :
    Watched p m hist -> oneRowPerName env -> snd (run env [] (Inventory_Observe p m)) = ((instances, host), m') ->
    obs_State instances <> ObservationFresh -> Watched p m' hist
| watched_tick m hist read t instances m' :
    Watched p m hist -> observation p m read t instances m' -> Watched p m' (readingsAfter hist read t).

Lemma fold_runs_find runs t read : List.NoDup (map inst_ID read) -> forall (next : Runs) id,
  fold_left (fun next i => <[inst_ID i := powerRun runs t i]> next) read next !! id =
  match List.find (fun i => bool_decide (inst_ID i = id)) read with
  | Some i => Some (powerRun runs t i)
  | None => next !! id
  end.
Proof.
  induction read as [|i read IH]; intros Hnd next id; simpl; [done|]. inversion_clear Hnd as [|? ? Hf Hnd'].
  rewrite IH by done. case_bool_decide as E.
  - assert (List.find (fun i => bool_decide (inst_ID i = id)) read = None) as ->; [|by rewrite E, lookup_insert_eq].
    destruct (List.find _ read) as [j|] eqn:Ef; [|done]. apply List.find_some in Ef as [Hj Hid]. bool_to_prop.
    destruct Hf. rewrite E, <- Hid. by apply in_map.
  - destruct (List.find _ read); [done|]. by rewrite lookup_insert_ne.
Qed.

Lemma accepted_ids p now h machines rows read :
  Forall2 (Accepted p now h machines) rows read -> map inst_ID read = map row_ID rows.
Proof. induction 1 as [|row i rows read Hi Hr IH]; [done|]. simpl. rewrite IH. f_equal. by rewrite (ra_instance _ _ _ _ _ _ (ac_read _ _ _ _ _ _ Hi)). Qed.

Lemma watched_runs p m hist :
  inv_Power p = true -> Watched p m hist -> forall id, runOf (mem_power m) id = observed PowerCorroboration (readings (hist id)).
Proof.
  intros Hp. induction 1 as [|m hist env instances host m' Hw IH Henv Hrun Hs|m hist read t instances m' Hw IH Hobs]; intros id.
  - done.
  - destruct (wp_run distinctRows anyCall env _ [] 0 _ Henv (guardedFrom_refl _ []) (wp_Inventory p m)) as [[Ho _] _].
    rewrite Hrun in Ho. unfold observedAs in Ho. simpl in Ho. destruct (obs_State instances); try done; destruct Ho as [_ ->]; apply IH.
  - destruct Hobs as (env & host & rows & vms & _ & _ & _ & G).
    unfold runOf. rewrite (gr_memory _ _ _ _ _ _ _ _ _ G), Hp. simpl. rewrite fold_runs_find.
    + unfold readingsAfter. destruct (List.find _ read) as [i|] eqn:Ef; [|done]. simpl.
      apply List.find_some in Ef as [_ Hid]. bool_to_prop. unfold powerRun. by rewrite Hid, IH.
    + rewrite (accepted_ids _ _ _ _ _ _ (gr_read _ _ _ _ _ _ _ _ _ G)). apply G.
Qed.

(** C28: a machine is believed to be off only after an unbroken run of readings.  On a node that corroborates
    power, an instance the fleet is not tearing down is reported stopped exactly when the backend said so in
    at least three successive successful observations spanning at least 45 seconds, or six minutes once a drain of that
    instance had found it running; until then the same reading is reported as unknown. *)
Theorem stop_is_believed_after_three_readings (p : ProductionInventory) (m : Memory) hist read t instances m' i i' k :
  inv_Power p = true -> Watched p m hist -> observation p m read t instances m' ->
  read !! k = Some i -> obs_Value instances !! k = Some i' ->
  inst_Power i = InstancePowerStopped -> TearingDown (inst_State i) = false ->
  let past := readings ((InstancePowerStopped, t) :: hist (inst_ID i)) in
  dated past -> Z.of_nat (S (length (hist (inst_ID i)))) <= maxInt64 -> int64 (t - runBegan past) ->
  inst_Power i' =
    if (3 <=? Z.of_nat (length (trailing past))) && ((if inst_PowerRetracted i then 360 else 45) * Second <=? t - runBegan past)
    then InstancePowerStopped else InstancePowerUnknown.
Proof.
  intros Hp Hw (env & host & rows & vms & _ & _ & _ & G) Hi Hi' Hs Ht past Hd Hl Hr.
  destruct (Forall2_lookup_lr _ _ _ _ _ _ (gr_seen _ _ _ _ _ _ _ _ _ G) Hi Hi') as [E _]. rewrite Hp in E. rewrite E. simpl.
  unfold powerRun. rewrite (watched_runs p m hist Hp Hw), Hs.
  pose proof (stopped_reading_needs_corroboration ((InstancePowerStopped, t) :: hist (inst_ID i)) InstancePowerStopped (inst_State i)
    (inst_PowerRetracted i) t Hd Hl Hr Ht) as H1. simpl in H1. exact H1.
Qed.

End Claims.

(** ** A node with one guest *)

Module Watch.

#[local] Existing Instance Probe.wrapping.

Definition row : InstanceRow :=
  {| row_ID := "trf-small-1"; row_Repo := "acme/app"; row_Platform := PlatformLinux; row_Profile := "small";
     row_Route := "route-small"; row_Resources := Node.vec 2 2048 1; row_Demand := Node.key "acme/app" 1; row_Image := "";
     row_State := InstanceRunning; row_Version := 6; row_DrainPhase := 0;
     row_Ownership := {| ControllerID := "c"; own_ResourceID := "d"; own_OperationID := "o" |}; row_LastError := "";
     row_CreatedAt := Node.now - Hour; row_UpdatedAt := Node.now - Hour |}.

Definition machine (power : InstancePower) : Machine :=
  {| vm_Name := "trf-small-1"; vm_Power := power; vm_Unreadable := zeroPowerReadFailure |}.

Definition inventory (corroborates : bool) (guest : option GuestLivenessTracker) : ProductionInventory :=
  {| inv_Adapters := true; inv_Recovery := true; inv_RecoveryConfirmationMaxAge := 0; inv_Capacity := Node.vec 8 16384 4;
     inv_Guards := Probe.guards; inv_ElasticHostEnvelope := true; inv_HostBudget := zeroResources; inv_Guest := guest;
     inv_Power := corroborates; inv_UpdateDrain := true |}.

(** A node at [t] whose backend reports [power] for the one guest, which answers
    probes with [liveness]. *)
Definition node (t : Time) (power : InstancePower) (liveness : GuestLiveness) (X : Set) (h : Readings) (c : InventoryCall X) : X :=
  match c in InventoryCall X return X with
  | WallClock => t
  | Snapshot => Probe.quiet
  | UpdateDraining => false
  | LiveRows => inr [row]
  | Machines => Some [machine power]
  | Confirmation _ => None
  | JobActive _ => None
  | PowerClock => t
  | GuestClock => t
  | Probe _ => liveness
  end.

Lemma node_rows t power liveness : oneRowPerName (node t power liveness).
Proof. intros X h []; try done. simpl. repeat constructor. intros []. Qed.

Definition stopped : Instance_ := instanceOf row InstancePowerStopped zeroPowerReadFailure false false.

(** An observation of the guest as stopped. *)
Lemma stopped_observation m t :
  observation (inventory true None) m [stopped] t (Fresh [corroborated (mem_power m) t stopped] t)
    {| mem_power := snd (corroborateAll (mem_power m) t [stopped]); mem_guest := mem_guest m |}.
Proof.
  exists (node t InstancePowerStopped GuestLivenessUnknown). eexists. exists [row], [machine InstancePowerStopped].
  split; [apply node_rows|]. split; [cbn -[corroborated hostObservation stopped]; reflexivity|]. split; [done|].
  split; cbn -[corroborated stopped In]; try done.
  - by left.
  - split; [do 3 right; by left|]. repeat constructor. by intros [].
  - do 4 right. by left.
  - constructor; [|constructor]. split; [done|done|]. by split.
  - intros name Hn _. unfold byName in Hn. simpl in Hn. destruct (decide (name = "trf-small-1")) as [->|Hne]; [by left|].
    rewrite lookup_insert_ne in Hn by done. by destruct Hn.
  - intros _. do 5 right. by left.
  - constructor; [|constructor]. split; [done|by left].
Qed.

Definition fresh_memory : Memory := {| mem_power := ∅; mem_guest := ∅ |}.
Definition first : Memory := {| mem_power := snd (corroborateAll ∅ Node.now [stopped]); mem_guest := ∅ |}.
Definition second : Memory :=
  {| mem_power := snd (corroborateAll (mem_power first) (Node.now + 30 * Second) [stopped]); mem_guest := ∅ |}.

Lemma twice_stopped :
  Watched (inventory true None) second (readingsAfter (readingsAfter (fun _ => []) [stopped] Node.now) [stopped] (Node.now + 30 * Second)).
Proof.
  assert (Watched (inventory true None) first (readingsAfter (fun _ => []) [stopped] Node.now)) as H1
    by exact (watched_tick _ fresh_memory _ _ _ _ _ (watched_start _) (stopped_observation fresh_memory Node.now)).
  exact (watched_tick _ first _ _ _ _ _ H1 (stopped_observation first (Node.now + 30 * Second))).
Qed.

End Watch.

#[local] Existing Instance Probe.wrapping.

Lemma inventory_is_what_was_read_witness :
  obs_State (fst (fst (snd (run (Watch.node Node.now InstancePowerStopped GuestLivenessUnknown) []
    (Inventory_Observe (Watch.inventory true None) Watch.fresh_memory))))) = ObservationFresh /\
  (hostFrom (Watch.inventory true None)
     (fst (run (Watch.node Node.now InstancePowerStopped GuestLivenessUnknown) [] (Inventory_Observe (Watch.inventory true None) Watch.fresh_memory)))
     (snd (fst (snd (run (Watch.node Node.now InstancePowerStopped GuestLivenessUnknown) []
       (Inventory_Observe (Watch.inventory true None) Watch.fresh_memory))))) \/
   Usable (snd (fst (snd (run (Watch.node Node.now InstancePowerStopped GuestLivenessUnknown) []
       (Inventory_Observe (Watch.inventory true None) Watch.fresh_memory))))) = false).
Proof.
  split; [vm_compute; reflexivity|].
  apply (inventory_is_what_was_read (Watch.node Node.now InstancePowerStopped GuestLivenessUnknown) (Watch.inventory true None)
    Watch.fresh_memory). apply Watch.node_rows.
Defined.

Lemma stop_is_believed_after_three_readings_witness :
  inst_Power (corroborated (mem_power Watch.second) (Node.now + 60 * Second) Watch.stopped) = InstancePowerStopped /\
  inst_Power (corroborated (mem_power Watch.second) (Node.now + 40 * Second) Watch.stopped) = InstancePowerUnknown.
Proof.
  split.
  - refine (stop_is_believed_after_three_readings (Watch.inventory true None) Watch.second _ _ _ _ _ _ _ 0%nat eq_refl Watch.twice_stopped
      (Watch.stopped_observation Watch.second (Node.now + 60 * Second)) eq_refl eq_refl eq_refl eq_refl _ _ _).
    + repeat constructor; discriminate.
    + vm_compute. discriminate.
    + vm_compute. split; discriminate.
  - refine (stop_is_believed_after_three_readings (Watch.inventory true None) Watch.second _ _ _ _ _ _ _ 0%nat eq_refl Watch.twice_stopped
      (Watch.stopped_observation Watch.second (Node.now + 40 * Second)) eq_refl eq_refl eq_refl eq_refl _ _ _).
    + repeat constructor; discriminate.
    + vm_compute. discriminate.
    + vm_compute. split; discriminate.
Defined.

(** ** Where the accumulators hold less than their comments say *)

Definition seenPowers (p : ProductionInventory) (m : Memory) (env : Env InventoryCall) : list InstancePower :=
  map inst_Power (obs_Value (fst (fst (snd (run env [] (Inventory_Observe p m)))))).

Definition memoryAfter (p : ProductionInventory) (m : Memory) (env : Env InventoryCall) : Memory :=
  snd (snd (run env [] (Inventory_Observe p m))).

(** Without a corroborator a single stopped reading of a running guest reaches the
    scheduler as stopped, although the field's comment calls a nil corroborator
    fail-closed. *)
Example unwired_corroborator_trusts_one_reading :
  seenPowers (Watch.inventory false None) Watch.fresh_memory (Watch.node Node.now InstancePowerStopped GuestLivenessUnknown)
    = [InstancePowerStopped] /\
  seenPowers (Watch.inventory true None) Watch.fresh_memory (Watch.node Node.now InstancePowerStopped GuestLivenessUnknown)
    = [InstancePowerUnknown].
Proof. vm_compute. split; reflexivity. Qed.

(** A guest that leaves the candidates is forgotten only when another guest is
    probed: the tracker returns before it replaces its state when there is no
    candidate, so an old run of refusals is resumed after the gap. *)
Example run_of_refusals_survives_a_gap :
  let p := Watch.inventory false (Some {| tracker_Probe := true; tracker_Policy := {| ConsecutiveRefusals := 2; Window := 5 * Minute |} |}) in
  let refused := memoryAfter p Watch.fresh_memory (Watch.node Node.now InstancePowerRunning GuestLivenessRefused) in
  let off := memoryAfter p refused (Watch.node (Node.now + Minute) InstancePowerStopped GuestLivenessUnknown) in
  let back := memoryAfter p off (Watch.node (Node.now + Hour) InstancePowerRunning GuestLivenessRefused) in
  mem_guest off = mem_guest refused /\
  Confirmed {| ConsecutiveRefusals := 2; Window := 5 * Minute |} (runOf (mem_guest back) "trf-small-1") (Node.now + Hour) = true.
Proof. vm_compute. split; reflexivity. Qed.
