(* ===== verification/EngineSpec.v ===== *)
(** * What a tick of the engine promises

    From the answers of the store and the inventory to the plan that is
    committed: a tick plans only demand that nothing on the node serves and that
    is not held back, and commits only what the scheduler made of it. *)

From Stdlib Require Import ZArith Lia String List.
From stdpp Require Import base tactics list gmap strings.
From S2P Require Import Prelude GoStrings Liveness Domain Corroboration PriorityPolicy Scheduler Fixture Envelope Recovery.
From S2P Require Import Order Admission Passes Lanes PassSpec LaneSpec TickSpec Safety Operations Failure.
From S2P Require Import Effects Store Inbox Ports Projection Reconcile Bindings Router Queue Headroom Advertise Tick QueueSpec AdvertiseSpec ReconcileSpec.

#[local] Open Scope prog_scope.

Abbreviation EngineCalls := (list (Event EngineCall)).
Abbreviation planEvent := (liftEvent (@OnPlan)).
Abbreviation queueEvent := (liftEvent (@OnQueue)).

Section Engine.
Context `{ContentAddress} `{PlanEncoding} `{StateDecoding}.
Variable e : Engine.

(** ** The demand a tick plans *)

(** A demand of the queue of one of the engine's bindings, as that queue was read. *)
Definition queuedBy (h : EngineCalls) (d : Demand) : Prop :=
  exists b hq read, In b (en_Bindings e) /\ incl (map queueEvent hq) h /\ queueRead (en_Demand e) b hq read /\
    match read with Queued demands | Degraded demands => In d demands | Unreadable _ => False end.

(** Nothing observed serves it and no hold keeps it back. *)
Definition plannable (instances : list Instance_) (exits : Exits) (now : Time) (d : Demand) : Prop :=
  (forall i, In i instances -> IncarnatesDemand i = true -> inst_Demand i <> demand_Key d) /\
  Holds EmptyExitBackoff (spentOn (en_Images e) exits d) now = false.

(** What a tick has assembled before it plans. *)
Definition assembledFrom (h : EngineCalls) (instances : list Instance_) (exits : Exits) (now : Time) (demands : list Demand) : Prop :=
  forall d, In d demands -> queuedBy h d /\ plannable instances exits now d.

(** The plan a tick derived from what it read. *)
Definition plannedFrom (h : EngineCalls) (now : Time) (demands : list Demand) (plan : Plan) : Prop :=
  exists record prior instances host exits,
    In (Ev (OnPlan ReadScheduler) (inr record)) h /\ priorState record = Some prior /\
    In (Ev Inventory_ (instances, host)) h /\ In (Ev (ExitsSince (TimeAdd now (- overdueDemandTTL))) (inr exits)) h /\
    assembledFrom h (obs_Value instances) exits now demands /\
    PlanTick (tickInput e now prior demands instances host) = Some plan.

Definition observed (ev : Event EngineCall) : Prop := match ev with Ev Inventory_ _ => True | _ => False end.

(** What entitles a tick to each of its writes. *)
Definition mayTick (h : EngineCalls) (ev : Event EngineCall) : Prop :=
  match ev with
  | Ev Reseed _ => In (Ev (OnPlan ReadScheduler) (inl ErrSchedulerStateMissing)) h
  | Ev (OnPlan (Apply durable)) _ => exists base hp now demands plan,
      h = base ++ map planEvent hp /\ In (Ev EngineNow now) base /\ plannedFrom base now demands plan /\
      entitled (engineController e) plan "" now hp durable
  | Ev (OnQueue (SweepRunners k)) _ => In k (map durableKey (en_Bindings e)) /\
      (en_Mode e = Canary \/ en_Mode e = Authority) /\ Forall (fun ev => ~ observed ev) h
  | Ev (OnQueue (ExpireOverdue k criteria)) _ => In k (map durableKey (en_Bindings e)) /\ oc_TTL criteria = overdueDemandTTL /\
      In (Ev EngineNow (oc_Now criteria)) h
  | Ev (OnQueue c) x => readOnly (Ev c x)
  | _ => True
  end.

(** The contract of the store behind the plan and the queues. *)
Definition engineAnswers (h : EngineCalls) (ev : Event EngineCall) : Prop :=
  match ev with
  | Ev (OnPlan (ReadInstance id)) (inr row) => row_ID row = id
  | Ev (OnQueue c) x => machineCounts [] (Ev c x)
  | _ => True
  end.

Lemma wp_reads {A : Set} (p : Prog QueueCall A) base post :
  wp machineCounts (fun _ => readOnly) [] p post ->
  wp engineAnswers mayTick base (onQueue p) (fun h a => exists hq, h = base ++ map queueEvent hq /\ post hq a).
Proof.
  intros Hw. pose proof (wp_lift (@OnQueue) base machineCounts (fun _ => readOnly) engineAnswers mayTick) as Hl.
  specialize (Hl ltac:(intros h [X [] x]; done)). rewrite <- (app_nil_r base) at 1.
  apply (Hl ltac:(intros h [X [] x]; done) A p post []). done.
Qed.

(** ** Assembling the queues *)

Lemma holds_by_count_and_last p now a a' :
  exits_Count a = exits_Count a' -> exits_Last a = exits_Last a' -> Holds p a now = Holds p a' now.
Proof. intros Ec El. unfold Holds, RetryAt, Exceeded. by rewrite Ec, El. Qed.

Lemma plannable_after b queued exits now instances withheld d :
  servedKeys instances ⊆ withheld ->
  In d (plannableDemands queued (withholding now (emptyExitBackoffs b queued exits (en_Images e) now) withheld)) ->
  In d queued /\ plannable instances exits now d.
Proof.
  intros Hs [Hd Hk]%List.filter_In. apply negb_true_iff, bool_decide_eq_false in Hk. split; [done|].
  unfold withholding in Hk. rewrite elem_of_union, elem_of_list_to_set in Hk. split.
  - intros i Hi Hinc E. apply Hk. right. apply Hs. apply elem_of_list_to_set. rewrite <- E.
    apply list_elem_of_In, in_map, List.filter_In. done.
  - destruct (Holds EmptyExitBackoff (spentOn (en_Images e) exits d) now) eqn:Hh; [|done]. destruct Hk. left.
    apply list_elem_of_In, in_map_iff. exists (backoffOf b d (spentOn (en_Images e) exits d)). split; [done|].
    apply List.filter_In. split.
    + apply in_map_iff. exists d. split; [done|]. apply List.filter_In. split; [done|].
      unfold Holds in Hh. apply andb_true_iff in Hh as [Hh _]. done.
    + unfold backoffHolds. by erewrite <- holds_by_count_and_last; [exact Hh|..].
Qed.

Lemma queuedBy_mono h h' d : incl h h' -> queuedBy h d -> queuedBy h' d.
Proof. intros Hi (b & hq & read & Hb & Hin & Hx). exists b, hq, read. split; [done|]. split; [by eapply incl_tran|done]. Qed.

Lemma assembledFrom_mono h h' instances exits now demands :
  incl h h' -> assembledFrom h instances exits now demands -> assembledFrom h' instances exits now demands.
Proof. intros Hi Ha d Hd. destruct (Ha d Hd). split; [by eapply queuedBy_mono|done]. Qed.

Lemma trickle_incl l : incl (trickle l) l.
Proof. destruct l as [|d l]; [by intros ? []|]. intros x [<-|[]]. by left. Qed.

Lemma incl_app_left {A} (l l' : list A) : incl l (l ++ l').
Proof. apply incl_appl, incl_refl. Qed.

(** Going on without applying a plan. *)
Definition applies (ev : Event EngineCall) : Prop := match ev with Ev (OnPlan (Apply _)) _ => True | _ => False end.

Definition quietly (h h' : EngineCalls) : Prop := exists more, h' = h ++ more /\ Forall (fun ev => ~ applies ev) more.

Lemma quietly_refl h : quietly h h.
Proof. exists []. by rewrite app_nil_r. Qed.

Lemma quietly_trans h1 h2 h3 : quietly h1 h2 -> quietly h2 h3 -> quietly h1 h3.
Proof. intros (a & -> & Ha) (b & -> & Hb). exists (a ++ b). rewrite app_assoc. split; [done|by apply Forall_app]. Qed.

Lemma quietly_one h ev : ~ applies ev -> quietly h (h ++ [ev]).
Proof. intros Hev. exists [ev]. split; [done|by repeat constructor]. Qed.

Lemma quietly_queue h hq : quietly h (h ++ map queueEvent hq).
Proof. exists (map queueEvent hq). split; [done|]. apply Forall_map, Forall_true. intros [X c x]. simpl. tauto. Qed.

Lemma quietly_incl h h' : quietly h h' -> incl h h'.
Proof. intros (more & -> & _). apply incl_app_left. Qed.

(** The invariant of the loop over the bindings. *)
Record Assembling (h : EngineCalls) (instances : list Instance_) (exits : Exits) (now : Time) (a : Assembly) : Prop := {
  am_demands : assembledFrom h instances exits now (as_demands a);
  am_withheld : servedKeys instances ⊆ as_withheld a
}.

Lemma wp_QueueSummary b executable :
  wp anyAnswer (fun _ => readOnly) [] (QueueSummary (en_Demand e) b executable) (fun _ _ => True).
Proof. unfold QueueSummary. cbn -[app queueTiers]. by intros [err|jobs] _. Qed.

Lemma wp_assembleOne instances exits now b a h :
  In b (en_Bindings e) -> Assembling h instances exits now a ->
  wp engineAnswers mayTick h (assembleOne e exits now b a)
    (fun h' r => quietly h h' /\ match r with inr a' => Assembling h' instances exits now a' | inl _ => True end).
Proof.
  intros Hb [Hd Hw]. unfold assembleOne. apply wp_bind.
  eapply wp_mono; [|apply wp_reads, (wp_contract anyAnswer); [done|apply (wp_QueuedDemands (en_Demand e) b [])]].
  intros h1 read (hq & -> & _ & Hq). simpl.
  assert (forall queued schedulable,
    match read with Queued l | Degraded l => l = queued | Unreadable _ => False end ->
    incl schedulable (plannableDemands queued (withholding now (emptyExitBackoffs b queued exits (en_Images e) now) (as_withheld a))) ->
    wp engineAnswers mayTick (h ++ map queueEvent hq)
      (bindProg (onQueue (QueueSummary (en_Demand e) b queued)) (fun summary => Ret (match summary with
         | inl err => inl (ReasonQueueSummaryUnreadable, Refused err)
         | inr s => inr (addBinding b a (emptyExitBackoffs b queued exits (en_Images e) now)
             (withholding now (emptyExitBackoffs b queued exits (en_Images e) now) (as_withheld a))
             (plannableDemands queued (withholding now (emptyExitBackoffs b queued exits (en_Images e) now) (as_withheld a)))
             schedulable s)
         end)))
      (fun h' r => quietly h h' /\ match r with inr a' => Assembling h' instances exits now a' | inl _ => True end)) as Hsum.
  { intros queued schedulable Hread Hs. apply wp_bind. eapply wp_mono; [|apply wp_reads, (wp_contract anyAnswer); [done|apply wp_QueueSummary]].
    intros h2 summary (hs & -> & _). simpl. split; [eapply quietly_trans; apply quietly_queue|]. rewrite <- app_assoc.
    destruct summary as [err|s]; [done|]. split; simpl; [|unfold withholding; set_solver].
    intros d [Hin|Hin]%in_app_or.
    - destruct (Hd d Hin). split; [eapply queuedBy_mono; [apply incl_app_left|done]|done].
    - apply Hs, (plannable_after _ _ _ _ instances) in Hin as [Hin Hp]; [|done]. split; [|done].
      exists b, hq, read. split; [done|]. split; [intros ev Hev; rewrite !in_app_iff; auto|].
      split; [done|]. destruct read; [by subst|by subst|done]. }
  destruct read as [queued|queued|err].
  - apply Hsum; [done|apply incl_refl].
  - apply Hsum; [done|apply trickle_incl].
  - split; [apply quietly_queue|done].
Qed.

Lemma wp_assemble instances exits now bindings : forall a h,
  incl bindings (en_Bindings e) -> Assembling h instances exits now a ->
  wp engineAnswers mayTick h (assemble e exits now bindings a)
    (fun h' r => quietly h h' /\ match r with inr a' => Assembling h' instances exits now a' | inl _ => True end).
Proof.
  induction bindings as [|b bindings IH]; intros a h Hb Ha; cbn [assemble]; [split; [apply quietly_refl|done]|].
  apply wp_bind. eapply wp_mono; [|apply wp_assembleOne; [apply Hb; by left|exact Ha]].
  intros h1 [err|a1] [Hi Ha1]; [by split|]. eapply wp_mono; [|apply IH; [intros x Hx; apply Hb; by right|exact Ha1]].
  intros h2 r [Hi2 Hr]. split; [by eapply quietly_trans|done].
Qed.

(** ** The tick *)

Lemma plannedFrom_mono h h' now demands plan : incl h h' -> plannedFrom h now demands plan -> plannedFrom h' now demands plan.
Proof.
  intros Hi (record & prior & instances & host & exits & Hr & Hp & Ho & Hx & Ha & HP).
  exists record, prior, instances, host, exits. do 4 (split; [by auto|]). split; [by eapply assembledFrom_mono|done].
Qed.

(** The headroom a tick reports is computed on the inventory it planned on. *)
Definition offeredFrom (h : EngineCalls) (result : TickResult) : Prop :=
  exists prior instances host waiting held_ undelivered,
    In (Ev Inventory_ (instances, host)) h /\ tick_Instances result = obs_Value instances /\
    headroomOf (tickInput e (tick_At result) prior waiting instances host) held_ undelivered (en_Bindings e)
      (Some (tick_Headroom result)).

(** What a tick returns. *)
Definition ticked (h : EngineCalls) (r : TickOutcome) : Prop :=
  match r with
  | Ticked result err =>
      In (Ev EngineNow (tick_At result)) h /\ plannedFrom h (tick_At result) (tick_Demands result) (tick_Plan result) /\
      offeredFrom h result /\
      (tick_Applied result = true -> err = None /\ exists durable, last h = Some (Ev (OnPlan (Apply durable)) (inr true))) /\
      (forall reason cause, err = Some (reason, cause) -> reason = commitFailureReason (plan_Status (tick_Plan result)) cause)
  | Panicked => exists now prior demands instances host, PlanTick (tickInput e now prior demands instances host) = None \/
      exists claims, PartitionHeadroom (tickInput e now prior demands instances host) claims = None
  | Stopped _ => Forall (fun ev => ~ applies ev) h
  end.

Lemma wp_planAndCommit now record prior instances host exits drained expired a h :
  In (Ev EngineNow now) h -> In (Ev (OnPlan ReadScheduler) (inr record)) h -> priorState record = Some prior ->
  In (Ev Inventory_ (instances, host)) h -> In (Ev (ExitsSince (TimeAdd now (- overdueDemandTTL))) (inr exits)) h ->
  assembledFrom h (obs_Value instances) exits now (as_demands a) ->
  wp engineAnswers mayTick h (planAndCommit e now prior instances host drained expired a) ticked.
Proof.
  intros Hn Hr Hp Hi Hx Ha. unfold planAndCommit.
  destruct (PlanTick (tickInput e now prior (as_demands a) instances host)) as [plan|] eqn:HP; [|simpl; eauto 10].
  assert (plannedFrom h now (as_demands a) plan) as Hpl by (exists record, prior, instances, host, exits; done).
  apply wp_bind. eapply wp_mono; [|apply wp_reads, wp_scaleSetHeadroom]. intros h1 headroom (hq & -> & Hh). simpl.
  destruct headroom as [headroom|]; [|simpl; destruct Hh; eauto 10]. apply wp_bind. set (h1 := h ++ map queueEvent hq).
  assert (incl h h1) as I1 by apply incl_app_left. apply (plannedFrom_mono _ h1) in Hpl; [|done].
  pose proof (wp_lift (@OnPlan) h1 planAnswers (mayApply (engineController e) plan "" now) engineAnswers mayTick) as Hl.
  eapply wp_mono; [|rewrite <- (app_nil_r h1) at 1; apply (Hl) with (h := []); [| |apply wp_Commit]].
  - intros h' [applied err] (hp & -> & Hrep). simpl. split; [apply in_or_app; by auto|].
    split; [eapply plannedFrom_mono; [apply incl_app_left|done]|]. split.
    { exists prior, instances, host, (as_waiting a), (as_held a), (as_undelivered a). split; [apply in_or_app; by auto|done]. }
    split.
    + intros ->. destruct Hrep as (-> & durable & Hlast & _). split; [done|]. exists durable.
      apply last_Some in Hlast as [hp' ->]. rewrite map_app, app_assoc. cbn [map]. by rewrite last_snoc.
    + intros reason cause. by destruct err; simpl; intros [= <- <-].
  - intros hp [X [] x]; simpl; done.
  - intros hp [X [] x] Hg; simpl; try done. destruct Hg as [Hent _]. exists h1, hp, now, (as_demands a), plan. by auto.
Qed.

Lemma wp_expireOverdue bindings now : forall h total,
  incl bindings (en_Bindings e) -> In (Ev EngineNow now) h ->
  wp engineAnswers mayTick h (onQueue (expireOverdueEach bindings {| oc_Now := now; oc_TTL := overdueDemandTTL |} total))
    (fun h' _ => quietly h h').
Proof.
  induction bindings as [|b bindings IH]; intros h total Hb Hn; cbn -[app].
  { apply quietly_refl. }
  assert (forall x, mayTick h (Ev (OnQueue (ExpireOverdue (durableKey b) {| oc_Now := now; oc_TTL := overdueDemandTTL |})) x)) as Hg.
  { intros x. split; [apply in_map, Hb; by left|]. done. }
  intros [err|count] _; (split; [apply (Hg (inr 0))|]); cbn -[app].
  - apply quietly_one; by intros [].
  - eapply wp_mono; [|apply IH; [intros x Hx; apply Hb; by right|apply in_or_app; by left]].
    intros h' r Hq. eapply quietly_trans; [|exact Hq]. apply quietly_one; by intros [].
Qed.

Lemma wp_sweepEach bindings : forall h drained,
  incl bindings (en_Bindings e) -> (en_Mode e = Canary \/ en_Mode e = Authority) -> Forall (fun ev => ~ observed ev) h ->
  wp engineAnswers mayTick h (onQueue (sweepEach bindings drained))
    (fun h' _ => quietly h h').
Proof.
  induction bindings as [|b bindings IH]; intros h drained Hb Hm Ho; cbn -[app].
  { apply quietly_refl. }
  assert (forall x, mayTick h (Ev (OnQueue (SweepRunners (durableKey b))) x)) as Hg.
  { intros x. split; [apply in_map, Hb; by left|]. done. }
  intros [runners [err|]] _; (split; [apply (Hg ([], None))|]); cbn -[app].
  - apply quietly_one; by intros [].
  - eapply wp_mono; [|apply IH; [intros x Hx; apply Hb; by right|done|]].
    + intros h' r Hq. eapply quietly_trans; [|exact Hq]. apply quietly_one; by intros [].
    + apply Forall_app. split; [done|]. constructor; [by intros []|constructor].
Qed.

Lemma wp_observeAndPlan now record prior drained h :
  In (Ev EngineNow now) h -> In (Ev (OnPlan ReadScheduler) (inr record)) h -> priorState record = Some prior ->
  Forall (fun ev => ~ applies ev) h ->
  wp engineAnswers mayTick h (observeAndPlan e now prior drained) ticked.
Proof.
  intros Hn Hr Hp Hq. unfold observeAndPlan. cbn -[app onQueue assemble planAndCommit expireOverdueDemands].
  intros [instances host] _. split; [done|]. apply wp_bind.
  set (h1 := h ++ [Ev Inventory_ (instances, host)]).
  assert (quietly h h1) as Q1 by (apply quietly_one; by intros []).
  eapply wp_mono; [|apply wp_expireOverdue; [apply incl_refl|by apply (quietly_incl _ _ Q1)]].
  intros h2 [expired err] Q2. pose proof (quietly_trans _ _ _ Q1 Q2) as Q.
  assert (forall h', quietly h h' -> Forall (fun ev => ~ applies ev) h') as Hquiet
    by (intros h' (more & -> & Hm); by apply Forall_app).
  destruct err as [err|]; [by apply Hquiet|]. cbn -[app onQueue assemble planAndCommit]. intros [err|exits] _; (split; [done|]).
  { apply Hquiet. eapply quietly_trans; [exact Q|]. apply quietly_one. by intros []. }
  set (h3 := h2 ++ [Ev (ExitsSince (TimeAdd now (- overdueDemandTTL))) (inr exits)]).
  assert (quietly h h3) as Q3 by (eapply quietly_trans; [exact Q|]; apply quietly_one; by intros []).
  apply wp_bind. eapply wp_mono; [|apply (wp_assemble (obs_Value instances)); [apply incl_refl|by split; [intros ? []|]]].
  intros h4 [err|a] [Q4 Ha]; [apply Hquiet; by eapply quietly_trans|].
  assert (incl h h4 /\ incl h2 h4 /\ incl h3 h4) as (I & I2 & I3).
  { split; [eapply quietly_incl, quietly_trans; [exact Q3|exact Q4]|].
    split; [eapply incl_tran; [|by apply quietly_incl]; apply incl_app_left|by apply quietly_incl]. }
  eapply (wp_planAndCommit now record prior instances host exits); [by auto|by auto|done| | |apply Ha].
  - apply I2, (quietly_incl _ _ Q2), in_or_app. right. by left.
  - apply I3, in_or_app. right. by left.
Qed.

Lemma wp_readState h :
  Forall (fun ev => ~ applies ev /\ ~ observed ev) h ->
  wp engineAnswers mayTick h readState (fun h' r => incl h h' /\ Forall (fun ev => ~ applies ev /\ ~ observed ev) h' /\
    match r with inr record => In (Ev (OnPlan ReadScheduler) (inr record)) h' | inl _ => True end).
Proof.
  intros Hq. unfold readState.
  assert (forall h' ev, incl h h' -> Forall (fun ev => ~ applies ev /\ ~ observed ev) h' -> ~ applies ev -> ~ observed ev ->
    incl h (h' ++ [ev]) /\ Forall (fun ev => ~ applies ev /\ ~ observed ev) (h' ++ [ev])) as Hx.
  { intros h' ev Hi Hf Ha Ho. split; [eapply incl_tran; [exact Hi|apply incl_app_left]|]. apply Forall_app. split; [done|by repeat constructor]. }
  cbn -[app]. intros prior _. split; [done|].
  destruct (Hx h (Ev (OnPlan ReadScheduler) prior) (incl_refl _) Hq) as [I1 F1]; [by intros []|by intros []|].
  destruct prior as [err|s]; [|split; [done|split; [done|apply in_or_app; right; by left]]].
  destruct err; try done. cbn -[app]. intros repaired _. split; [apply in_or_app; right; by left|].
  destruct (Hx _ (Ev Reseed repaired) I1 F1) as [I2 F2]; [by intros []|by intros []|].
  destruct repaired; [done|]. cbn -[app]. intros again _. split; [done|].
  destruct (Hx _ (Ev (OnPlan ReadScheduler) again) I2 F2) as [I3 F3]; [by intros []|by intros []|].
  split; [done|]. split; [done|]. destruct again; [done|]. apply in_or_app. right. by left.
Qed.

Lemma wp_Tick : wp engineAnswers mayTick [] (Tick e) ticked.
Proof.
  unfold Tick. destruct (_ || _ || _ || _); [constructor|]. cbn -[app readState sweepFirst observeAndPlan].
  intros now _. split; [done|]. destruct (IsZero now); [constructor; [by intros []|constructor]|].
  apply wp_bind. eapply wp_mono; [|apply wp_readState; constructor; [split; by intros []|constructor]].
  intros h [err|record] (Hi & Hq & Hr); [eapply Forall_impl; [exact Hq|]; by intros ev [? _]|].
  destruct (priorState record) as [prior|] eqn:P; [|eapply Forall_impl; [exact Hq|]; by intros ev [? _]].
  assert (Forall (fun ev => ~ applies ev) h /\ Forall (fun ev => ~ observed ev) h) as [Hqa Hqo]
    by (by apply Forall_and).
  assert (wp engineAnswers mayTick h (sweepFirst e) (fun h' _ => quietly h h')) as Hsweep.
  { unfold sweepFirst. destruct (en_Mode e) eqn:M; try apply quietly_refl;
      (apply wp_sweepEach; [apply incl_refl|by auto|done]). }
  apply wp_bind. eapply wp_mono; [|exact Hsweep]. intros h' [drained err] Q.
  assert (Forall (fun ev => ~ applies ev) h') as Hqa' by (destruct Q as (more & -> & Hm); by apply Forall_app).
  destruct err as [err|]; [done|]. eapply wp_observeAndPlan; [|by apply (quietly_incl _ _ Q)|exact P|done].
  apply (quietly_incl _ _ Q), Hi. by left.
Qed.

End Engine.

(** ** The claims *)

Section Claims.
Context `{ContentAddress} `{PlanEncoding} `{StateDecoding}.

(** The store answers a read of an instance with the row of that name, and a
    count GitHub reported is a machine integer. *)
Definition rowsByName (env : Env EngineCall) : Prop := forall (X : Set) h (c : EngineCall X), engineAnswers h (Ev c (env X h c)).

(** A tick acts on what it read in the same tick.  It reseeds the scheduler's
    state only when it found the row missing, drains finished runners only in a
    mode that runs executors and before it observes the node, expires demand only
    past the doubled job-start bound, and applies only the plan the scheduler made
    of the state, the inventory and the queues it read.  It reports that plan,
    reports it applied only when the store applied it, and a tick that stops
    before planning applies nothing. *)
Theorem tick_acts_on_what_it_read (env : Env EngineCall) e :
  rowsByName env ->
  (forall before ev after, fst (run env [] (Tick e)) = before ++ ev :: after -> mayTick e before ev) /\
  ticked e (fst (run env [] (Tick e))) (snd (run env [] (Tick e))).
Proof.
  intros Hc. destruct (wp_run engineAnswers (mayTick e) env _ [] 0 _ Hc (guardedFrom_refl _ []) (wp_Tick e)) as [Hr Hg].
  split; [|exact Hr]. intros before ev after E. apply (Hg before ev after E). lia.
Qed.

(** C5: A tick spawns nothing for a demand that is being served.  Every spawn of a
    planned tick is for a demand of the queue of one of the engine's bindings that
    no instance the tick observed incarnates and that is on no empty-exit hold;
    and no two spawns are for the same demand. *)
Theorem tick_spawns_only_unserved_demand (env : Env EngineCall) e result err :
  rowsByName env -> snd (run env [] (Tick e)) = Ticked result err ->
  List.NoDup (map op_Demand (List.filter isSpawn (plan_Operations (tick_Plan result)))) /\
  exists instances host exits,
    In (Ev Inventory_ (instances, host)) (fst (run env [] (Tick e))) /\
    In (Ev (ExitsSince (TimeAdd (tick_At result) (- overdueDemandTTL))) (inr exits)) (fst (run env [] (Tick e))) /\
    forall op, In op (plan_Operations (tick_Plan result)) -> op_Kind op = OperationSpawn ->
      exists d, op_Demand op = demand_Key d /\ queuedBy e (fst (run env [] (Tick e))) d /\
        plannable e (obs_Value instances) exits (tick_At result) d.
Proof.
  intros Hc Hrun.
  destruct (wp_run engineAnswers (mayTick e) env _ [] 0 _ Hc (guardedFrom_refl _ []) (wp_Tick e)) as [Ht _].
  rewrite Hrun in Ht. destruct Ht as (_ & (record & prior & instances & host & exits & _ & _ & Ho & Hx & Ha & HP) & _).
  destruct (PlanTick_spawns _ _ HP) as [Hn Hs]. split; [exact Hn|]. exists instances, host, exits.
  split; [exact Ho|]. split; [exact Hx|]. intros op Hop Hk. destruct (Hs op Hop Hk) as (d & Hd & Ed & _).
  apply normalizedDemands_In in Hd as [Hd _]. exists d. split; [exact Ed|]. by apply Ha.
Qed.

End Claims.

(** ** A node with one job *)

#[local] Instance namedPlans : PlanEncoding := {|
  encodeState st := "{next}"; encodeReservation r := "[]"; encodeCursor s := s; encodePayload op o := op_ID op;
  canonicalJSON s := Some s; hash8 s := s; hash12 s := s |}.
#[local] Instance coldStates : StateDecoding := {| decodeState s := Some zeroState |}.
#[local] Existing Instance plainAddress.

Definition smallBinding : Binding :=
  {| b_StoreKey := 0; b_ScaleSetID := 4; b_Scope := "acme"; b_Targets := []; b_ScaleSetLabels := ["small"];
     b_RequiredLabels := []; b_Profile := Node.profile "small" PlatformLinux (Node.vec 2 2048 1) 0;
     b_SharedLabels := false; b_Capacity := 4 |}.

Definition waitingRecord : DemandRecord :=
  {| dr_ScaleSetID := 4; dr_RunnerRequestID := 11; dr_Status := DemandJobAvailable; dr_Owner := "acme"; dr_Repository := "app";
     dr_WorkflowRunID := 7; dr_JobID := "j"; dr_DisplayName := "test"; dr_WorkflowRef := ""; dr_LogicalKey := "k";
     dr_EventName := "push"; dr_Labels := ["small"]; dr_QueueTime := Node.now - Hour; dr_FirstQueueTime := zeroTime;
     dr_WorkflowJobID := 0; dr_RunAttempt := 0; dr_RunnerID := 0; dr_RunnerName := ""; dr_Result := "";
     dr_UpdatedAt := Node.now - Hour |}.

Definition oneOffered : DemandStatistics :=
  {| stat_MessageID := 3; stat_Available := 1; stat_Acquired := 0; stat_Assigned := 0; stat_Running := 0;
     stat_Registered := 0; stat_Busy := 0; stat_Idle := 0; stat_ObservedAt := Node.now |}.

Definition smallEngine : Engine :=
  {| en_Store := true; en_Inventory := true; en_Demand := exampleCoordinator; en_Config := Node.config;
     en_Bindings := [smallBinding]; en_ControllerID := "fleet"; en_Mode := Canary; en_Images := ∅ |}.

Definition smallNode (X : Set) (h : EngineCalls) (c : EngineCall X) : X :=
  match c in EngineCall X return X with
  | EngineNow => Node.now
  | OnPlan c =>
      match c in PlanCall X return X with
      | ReadScheduler => inr coldState
      | ReadInstance _ => inl ErrNotFound
      | SpawnsBefore _ => inr 0
      | DrainsOf _ => inr 0
      | Apply _ => inr true
      end
  | OnQueue c =>
      match c in QueueCall X return X with
      | QueueNow => Node.now
      | Active _ => inr [waitingRecord]
      | StatisticsOf _ => inr oneOffered
      | PutStatistics _ _ => inr true
      | Batch _ _ _ => inl ErrConflict
      | Project _ _ => None
      | PutSnapshot _ _ => inr true
      | ExpireGhosts _ _ => inr 0
      | ExpireOverdue _ _ => inr 0
      | QueuedJobs _ => inr []
      | SweepRunners _ => ([], None)
      end
  | Reseed => None
  | Inventory_ => (Fresh [] Node.now, Fresh Node.host Node.now)
  | ExitsSince _ => inr ∅
  end.

Lemma smallNode_rows : rowsByName smallNode.
Proof. intros X h c. destruct c as [|? c|? c| | |]; try done; by destruct c. Qed.

Lemma tick_acts_on_what_it_read_witness :
  length (fst (run smallNode [] (Tick smallEngine))) = 15%nat /\
  ticked smallEngine (fst (run smallNode [] (Tick smallEngine))) (snd (run smallNode [] (Tick smallEngine))).
Proof.
  split; [vm_compute; reflexivity|]. apply (tick_acts_on_what_it_read smallNode smallEngine smallNode_rows).
Defined.

Definition smallResult : TickResult :=
  match snd (run smallNode [] (Tick smallEngine)) with
  | Ticked r _ => r
  | _ => {| tick_At := 0; tick_Plan := newPlan PlanReady zeroState; tick_Applied := false; tick_Demands := []; tick_Queues := ∅;
            tick_ScopeInstances := None; tick_ScopeQueues := []; tick_Instances := []; tick_HostMode := None;
            tick_Host := Node.host; tick_HostHealthy := false; tick_ExpiredOverdue := 0; tick_CompletedDrains := [];
            tick_Headroom := None; tick_EmptyExitBackoffs := [] |}
  end.

Lemma tick_spawns_only_unserved_demand_witness :
  tick_Applied smallResult = true /\ map op_Kind (plan_Operations (tick_Plan smallResult)) = [OperationSpawn] /\
  List.NoDup (map op_Demand (List.filter isSpawn (plan_Operations (tick_Plan smallResult)))).
Proof.
  split; [vm_compute; reflexivity|]. split; [vm_compute; reflexivity|].
  apply (tick_spawns_only_unserved_demand smallNode smallEngine smallResult None smallNode_rows).
  vm_compute. reflexivity.
Defined.
