(* ===== verification/Worker.v ===== *)
(** * The durable worker (internal/operations/worker.go)

    The worker claims operations, executes each one and settles it: completed,
    due for another attempt, or dead.  What an execution came to is what the
    executors of [Drain] and [Provision] return; what happens to the lease in the
    meantime is the outcome of the renewals. *)

From Stdlib Require Import ZArith Lia String List.
From stdpp Require Import base tactics list gmap strings pretty relations.
From S2P Require Import Prelude GoStrings Liveness Domain Operations Failure Effects Store Ports Knowledge.
From S2P Require Import Drain DrainSpec DrainSafety Outbox Durability.

Record Worker := {
  w_Executors : gset string;
  w_Owner : string;
  w_MaxConcurrent : Z;
  w_LeaseFor : Duration;
  w_RenewEvery : Duration;
  w_OperationDeadline : Duration;
  w_Retry : RetryPolicy;
  w_RetryByKind : gmap string RetryPolicy
}.

Definition concurrency (w : Worker) : Z := if w_MaxConcurrent w <=? 0 then 1 else w_MaxConcurrent w.

Definition leaseFor (w : Worker) : Duration := if w_LeaseFor w <=? 0 then Minute else w_LeaseFor w.

Definition renewEvery (w : Worker) : Duration :=
  if (w_RenewEvery w <=? 0) || (leaseFor w <=? w_RenewEvery w) then Z.quot (leaseFor w) 3 else w_RenewEvery w.

Definition operationDeadline (w : Worker) : Duration :=
  if w_OperationDeadline w <? 0 then 0
  else if w_OperationDeadline w =? 0 then 30 * Second else w_OperationDeadline w.

Definition retryPolicy (w : Worker) (kind : string) : RetryPolicy :=
  match w_RetryByKind w !! kind with Some policy => policy | None => w_Retry w end.

(** What an execution came to: [nil], or an error by its text and by whether
    [errors.Is] finds [ErrExhausted] in it. *)
Inductive Executed :=
  | Succeeded
  | Errored (text : string) (exhausted : bool).

(** [ctxText] is the text of the context's error. *)
Definition execText (ctxText : string) (err : ExecError) : string :=
  match err with
  | Staged e => errorText e
  | Sentinel ErrInvalid => "invalid operation"
  | Sentinel ErrConflict => "state conflict"
  | Sentinel _ => ""
  | ContextDone => ctxText
  end.

(** An execution returns, or panics with a value. *)
Definition executeSafely (ctxText : string) (outcome : Exec + string) : Executed :=
  match outcome with
  | inr recovered => Errored ("executor panic: " +:+ recovered) false
  | inl None => Succeeded
  | inl (Some err) =>
      Errored (execText ctxText err) (match err with Staged e => err_exhausted e | _ => false end)
  end.

(** The decision on a failed execution; [None] parks the operation. *)
Definition nextAttempt (w : Worker) (op : DurableOperation) (exhausted : bool) (now : Time) : option Time :=
  if exhausted then None
  else Next (retryPolicy w (do_Kind op)) (add64 (do_Attempts op) 1) now (do_CreatedAt op).

(** One claimed operation, once it has been executed.  [db] is the database the
    settling transaction finds, [clock] the store's own clock. *)
Definition runOperation (w : Worker) (clock now : Time) (db : Db) (op : DurableOperation)
    (executed : Executed) (renewal : option StoreError) : Db * bool * option StoreError :=
  let settle (answer : Result Db) :=
    match answer with inl err => (db, false, Some err) | inr db' => (db', false, None) end in
  if negb (bool_decide (do_Kind op ∈ w_Executors w))
  then settle (Retry clock db (do_ID op) (w_Owner w) "unknown operation kind" now true)
  else match renewal with
  | Some err => (db, false, Some err)
  | None =>
      match executed with
      | Errored text exhausted =>
          let next := nextAttempt w op exhausted now in
          settle (Retry clock db (do_ID op) (w_Owner w) text (default zeroTime next)
                    (match next with None => true | Some _ => false end))
      | Succeeded =>
          match Complete db (do_ID op) (w_Owner w) (do_EffectKey op) now with
          | inl err => (db, false, Some err)
          | inr (db', _) => (db', true, None)
          end
      end
  end.

(** What one operation of a batch meets: its outcome, the renewals of its lease,
    the two clocks, and what others write before it is settled. *)
Record Meeting := {
  m_executed : Executed;
  m_renewal : option StoreError;
  m_clock : Time;
  m_now : Time;
  m_others : Db -> Db
}.

(** The goroutines of a batch, in the order in which they settle. *)
Fixpoint settleAll (w : Worker) (meets : DurableOperation -> Meeting) (db : Db) (ops : list DurableOperation)
    : Db * Z * option StoreError :=
  match ops with
  | [] => (db, 0, None)
  | op :: rest =>
      let m := meets op in
      let '(db1, done, err) :=
        runOperation w (m_clock m) (m_now m) (m_others m db) op (m_executed m) (m_renewal m) in
      let '(db2, completed, firstErr) := settleAll w meets db1 rest in
      (db2, completed + (if done then 1 else 0), match err with Some x => Some x | None => firstErr end)
  end.

(** [order] is the order in which the claimed operations settle. *)
Definition RunOnce (w : Worker) (now : Time) (meets : DurableOperation -> Meeting)
    (order : list DurableOperation -> list DurableOperation) (db : Db) : Db * Z * option StoreError :=
  if bool_decide (w_Owner w = "") then (db, 0, Some ErrInvalid)
  else match Claim db (w_Owner w) (concurrency w) now (leaseFor w) with
  | inl err => (db, 0, Some err)
  | inr (db1, claimed) => settleAll w meets db1 (order claimed)
  end.

(** ** What the worker makes of its executions

    A batch of the worker is a sequence of the store's transactions, so every
    invariant of the outbox holds through it; and a drain whose guest will not
    stop climbs the ladder one attempt at a time until it is parked. *)

(** ** A batch refines the outbox *)

Section Refinement.
Context `{PlanDigest} `{CleanupIdentity}.
Variable w : Worker.

Lemma runOperation_steps clock now db op executed renewal :
  rtc DbStep db (fst (fst (runOperation w clock now db op executed renewal))).
Proof.
  unfold runOperation. destruct (negb _).
  { destruct (Retry _ _ _ _ _ _ _) eqn:R; simpl; [apply rtc_refl|]. eapply rtc_once, step_retry, R. }
  destruct renewal; [apply rtc_refl|]. destruct executed as [|text exhausted].
  - destruct (Complete _ _ _ _ _) as [|[db' b]] eqn:C; simpl; [apply rtc_refl|]. eapply rtc_once, step_complete, C.
  - destruct (Retry _ _ _ _ _ _ _) eqn:R; simpl; [apply rtc_refl|]. eapply rtc_once, step_retry, R.
Qed.

Lemma settleAll_steps meets ops db :
  (forall op d, rtc DbStep d (m_others (meets op) d)) ->
  rtc DbStep db (fst (fst (settleAll w meets db ops))).
Proof.
  intros Ho. revert db. induction ops as [|op ops IH]; intros db; simpl; [apply rtc_refl|].
  pose proof (runOperation_steps (m_clock (meets op)) (m_now (meets op)) (m_others (meets op) db) op
    (m_executed (meets op)) (m_renewal (meets op))) as Hr.
  destruct (runOperation _ _ _ _ _ _ _) as [[db1 d] err]. specialize (IH db1).
  destruct (settleAll w meets db1 ops) as [[db2 c] first]. simpl in *.
  etransitivity; [apply Ho|]. by etransitivity.
Qed.

End Refinement.

(** ** The ladder *)

Definition ladder : Z := GracefulStopAttempts + ForcedStopAttempts + DestructiveStopAttempts.

Lemma StopAttempts_range op : 0 <= StopAttempts op <= ladder.
Proof.
  unfold StopAttempts. destruct (List.find _ _) as [n|] eqn:F; [|destruct (_ && _); vm_compute; by split].
  apply find_some in F as [Hn _]. apply list_elem_of_In, elem_of_seqZ in Hn. unfold ladder. lia.
Qed.

(** The text of the [n]th failed stop reads back as [n] attempts. *)
Lemma StopAttempts_readback op n :
  1 <= n <= ladder -> do_LastError op = errorText (stopError n) -> StopAttempts op = n.
Proof.
  intros Hn He. unfold StopAttempts. rewrite He.
  assert (n = 1 \/ n = 2 \/ n = 3 \/ n = 4 \/ n = 5 \/ n = 6 \/ n = 7 \/ n = 8 \/ n = 9) as Hc
    by (change ladder with 9 in Hn; lia).
  destruct Hc as [->|[->|[->|[->|[->|[->|[->|[->| ->]]]]]]]]; vm_compute; reflexivity.
Qed.

Lemma StopEscalation_exhausted n : StopEscalation n = StopExhausted <-> ladder <= n.
Proof.
  unfold StopEscalation, ladder. change GracefulStopAttempts with 3. change ForcedStopAttempts with 3.
  change DestructiveStopAttempts with 3.
  destruct (Z.ltb_spec n 3), (Z.ltb_spec n (3 + 3)), (Z.ltb_spec n (3 + 3 + 3)); split; intros; try done; lia.
Qed.

Lemma drain_stop_explained e op env : stopExplained e op (snd (run env [] (Drain_Execute e op))).
Proof.
  eapply (wp_run anyAnswer (licensed e op) env _ [] 0 (fun _ r => stopExplained e op r));
    [done|by apply guardedFrom_refl|apply wp_Drain_Execute_licensed].
Qed.

(** What is left of an operation that was run and failed. *)
Lemma runOperation_failed w clock now db op text exhausted db' done :
  do_Kind op ∈ w_Executors w ->
  runOperation w clock now db op (Errored text exhausted) None = (db', done, None) ->
  exists row, db_operations db !! do_ID op = Some row /\
    db_operations db' !! do_ID op =
      Some (retried row (match nextAttempt w op exhausted now with None => OperationDead | Some _ => OperationPending end)
              (UnixNano (default zeroTime (nextAttempt w op exhausted now))) text (UnixNano clock)).
Proof.
  intros Hk. unfold runOperation. rewrite bool_decide_eq_true_2 by done. simpl.
  unfold Retry. destruct (db_operations db !! do_ID op) as [row|]; [|done].
  destruct (_ && _); [|done]. intros [= <- _]. exists row. split; [done|]. simpl. rewrite lookup_insert_eq.
  by destruct (nextAttempt w op exhausted now).
Qed.

(** A guest that will not stop is met with force, and then handed over.  When
    a drain fails at the stop step and the worker settles it, the durable row
    remembers one failed stop more than the attempt began with, so the next
    holder of the operation continues the ladder where it stood: three graceful
    stops, three forced ones, three removals; an attempt that begins with the
    ladder exhausted and fails parks the operation as dead, where an operator
    can discharge it. *)
Theorem failed_stop_climbs_the_ladder w e op env ctx clock now db db' done err :
  do_Kind op ∈ w_Executors w -> de_VM e = true ->
  snd (run env [] (Drain_Execute e op)) = Some (Staged err) -> err_stage err = StageStop ->
  runOperation w clock now db op (executeSafely ctx (inl (Some (Staged err)))) None = (db', done, None) ->
  exists row, db_operations db' !! do_ID op = Some row /\
    (StopAttempts op < ladder -> forall owner until at_,
       StopAttempts (scanOperation (do_ID op) (leasedBy row owner until at_)) = StopAttempts op + 1) /\
    (StopAttempts op = ladder -> o_status row = OperationDead).
Proof.
  intros Hk Hvm Hrun Hstage Hset. pose proof (drain_stop_explained e op env) as Hx. rewrite Hrun in Hx.
  specialize (Hx Hstage). pose proof (StopAttempts_range op) as Hrange.
  apply runOperation_failed in Hset as (row & _ & Hrow); [|done]. eexists. split; [exact Hrow|].
  destruct Hx as [[? _]|[[Hn ->]|[He ->]]]; [congruence| |].
  - rewrite StopEscalation_exhausted in Hn. split; [|lia]. intros Hlt owner until at_.
    rewrite add64_exact by (change ladder with 9 in *; unfold int64, minInt64, maxInt64; lia).
    apply StopAttempts_readback; [lia|done].
  - apply StopEscalation_exhausted in He. split; [lia|done].
Qed.

(** ** A worker on a concrete database *)

Definition oneWorker : Worker :=
  {| w_Executors := {[ OperationDrainKind; OperationProvisionKind ]}; w_Owner := "worker"; w_MaxConcurrent := 4;
     w_LeaseFor := 0; w_RenewEvery := 0; w_OperationDeadline := 0;
     w_Retry := DurableCleanupRetryPolicy Minute; w_RetryByKind := ∅ |}.

Definition allSucceed (op : DurableOperation) : Meeting :=
  {| m_executed := Succeeded; m_renewal := None; m_clock := noon; m_now := noon; m_others := fun db => db |}.


(** A guest past its deregistration that refuses every stop. *)
Definition stubborn : Env Call := fun X h c =>
  match c in Call X return X with
  | VMStop _ _ | VMTerminate _ _ | VMDestroy _ _ => false
  | VMPower _ => Some InstancePowerRunning
  | c => obligingOn drainDb _ h c
  end.

Definition claimedRow (lastError : string) : OpRow :=
  {| o_key := "key-1"; o_effect := "deregister:vm-1"; o_kind := OperationDrainKind; o_resource := "vm-1";
     o_payload := "{}"; o_status := OperationClaimed; o_attempts := 5; o_available := UnixNano midday;
     o_owner := "worker"; o_until := UnixNano midday; o_error := lastError; o_created := UnixNano midday;
     o_updated := UnixNano midday |}.

Definition heldDb (lastError : string) : Db := setOperations drainDb {[ "drain-1" := claimedRow lastError ]}.

Lemma failed_stop_climbs_the_ladder_witness :
  let op := scanOperation "drain-1" (claimedRow (errorText (stopError 2))) in
  StopAttempts op = 2 /\
  exists row, db_operations (fst (fst (runOperation oneWorker midday midday (heldDb (errorText (stopError 2))) op
      (executeSafely "" (inl (Some (Staged (stopError 3))))) None))) !! "drain-1" = Some row /\
    (2 < ladder -> forall owner until at_,
       StopAttempts (scanOperation "drain-1" (leasedBy row owner until at_)) = 2 + 1) /\
    (2 = ladder -> o_status row = OperationDead).
Proof.
  intros op. split; [vm_compute; reflexivity|].
  refine (failed_stop_climbs_the_ladder oneWorker fullExecutor op stubborn "" midday midday
    (heldDb (errorText (stopError 2))) _ false (stopError 3) _ _ _ _ _); try (vm_compute; reflexivity).
Defined.
