(* ===== verification/Broker.v ===== *)
(** * Failures of a broker session (internal/adapters/githubscaleset/session.go,
    pollcause.go, errors.go)

    An error of Go is a tree; the code asks it questions with [errors.Is] and
    [errors.As] and, in one place, matches its text.  A [Fault] is the answers to
    those questions.  On them rest the closed vocabulary an operator sees and the
    policy that decides when a failing session is given up. *)

From Stdlib Require Import ZArith Lia String List.
From stdpp Require Import base tactics list strings.
From S2P Require Import Prelude.


Inductive ErrorKind :=
  | Authentication | Authorization | NotFound | Conflict | Invalidity | RateLimited | Server | Unexpected.

#[export] Instance ErrorKind_eq_dec : EqDecision ErrorKind.
Proof. solve_decision. Defined.

Record APIError := {
  api_Kind : ErrorKind;
  api_Status : Z;
  api_RequestID : string;
  api_RetryAfter : Duration
}.

(** The kind of a response without a rate-limit budget of zero. *)
Definition kindOfStatus (status : Z) (exhausted : bool) : ErrorKind :=
  if status =? 401 then Authentication
  else if status =? 403 then (if exhausted then RateLimited else Authorization)
  else if status =? 404 then NotFound
  else if status =? 409 then Conflict
  else if status =? 422 then Invalidity
  else if status =? 429 then RateLimited
  else if 500 <=? status then Server
  else Unexpected.

(** What the code finds in an error: the outermost [SessionFailure] (its reason
    and the reason of the poll), the outermost [APIError], whether the error of a
    conflict in the store or an expired queue token is in it, whether its text is
    that of a refused session create, the code of the store's driver, and the
    marks of the transport. *)
Record Fault := {
  f_Session : option (string * string);
  f_API : option APIError;
  f_Conflict : bool;
  f_TokenExpired : bool;
  f_HeldText : bool;
  f_Code : option Z;
  f_Canceled : bool;
  f_DeadlineExceeded : bool;
  f_OSDeadline : bool;
  f_Timeout : bool;
  f_NetTimeout : bool;
  f_HTTP2 : bool;
  f_TLS : bool;
  f_DNS : bool;
  f_Op : bool;
  f_ConnRefused : bool;
  f_ConnReset : bool;
  f_EOF : bool
}.

Definition plainFault : Fault :=
  {| f_Session := None; f_API := None; f_Conflict := false; f_TokenExpired := false; f_HeldText := false; f_Code := None;
     f_Canceled := false; f_DeadlineExceeded := false; f_OSDeadline := false; f_Timeout := false; f_NetTimeout := false; f_HTTP2 := false;
     f_TLS := false; f_DNS := false; f_Op := false; f_ConnRefused := false; f_ConnReset := false; f_EOF := false |}.

(** [&SessionFailure{Reason, Poll, Cause}]: its text is its reason alone, and what
    it wraps stays visible. *)
Definition SessionFailure (reason poll : string) (cause : Fault) : Fault :=
  {| f_Session := Some (reason, poll); f_API := f_API cause; f_Conflict := f_Conflict cause;
     f_TokenExpired := f_TokenExpired cause; f_HeldText := false; f_Code := f_Code cause; f_Canceled := f_Canceled cause;
     f_DeadlineExceeded := f_DeadlineExceeded cause; f_OSDeadline := f_OSDeadline cause; f_Timeout := f_Timeout cause;
     f_NetTimeout := f_NetTimeout cause;
     f_HTTP2 := f_HTTP2 cause; f_TLS := f_TLS cause; f_DNS := f_DNS cause; f_Op := f_Op cause;
     f_ConnRefused := f_ConnRefused cause; f_ConnReset := f_ConnReset cause; f_EOF := f_EOF cause |}.

(** ** The closed vocabulary *)

Definition ReasonSessionExpired := "session_expired".
Definition ReasonSessionReleaseFailed := "session_release_failed".
Definition ReasonSessionCreateFailed := "session_create_failed".
Definition ReasonSessionHeld := "session_held".
Definition ReasonRecreatedAfterFailures := "recreated_after_failures".
Definition ReasonMessagePollFailed := "message_poll_failed".
Definition ReasonRateLimited := "rate_limited".
Definition ReasonServerError := "server_error".
Definition ReasonQueueObservationFailed := "queue_observation_failed".
Definition ReasonQueueObservationStale := "queue_observation_stale".
Definition ReasonQueueReconcileFailed := "queue_reconcile_failed".
Definition ReasonDemandCommitConflict := "demand_commit_conflict".

Definition failureReasons : list string :=
  [ReasonSessionExpired; ReasonSessionReleaseFailed; ReasonSessionCreateFailed; ReasonSessionHeld;
   ReasonRecreatedAfterFailures; ReasonMessagePollFailed; ReasonRateLimited; ReasonServerError;
   ReasonQueueObservationFailed; ReasonQueueObservationStale; ReasonQueueReconcileFailed; ReasonDemandCommitConflict].

Definition ValidFailureReason (reason : string) : bool := bool_decide (reason ∈ failureReasons).

Inductive Phase := PhasePoll | PhaseRelease | PhaseCreate | PhaseObserve | PhaseCommit.

Definition phaseFor (reason : string) : Phase :=
  if bool_decide (reason = ReasonSessionReleaseFailed) then PhaseRelease
  else if bool_decide (reason ∈ [ReasonSessionCreateFailed; ReasonSessionHeld]) then PhaseCreate
  else if bool_decide (reason ∈ [ReasonQueueObservationFailed; ReasonQueueObservationStale; ReasonQueueReconcileFailed])
  then PhaseObserve
  else if bool_decide (reason = ReasonDemandCommitConflict) then PhaseCommit
  else PhasePoll.

Definition FailureReason (e : Fault) : string :=
  match f_Session e with
  | Some (reason, _) => if ValidFailureReason reason then reason else ""
  | None => ""
  end.

(** The session can never succeed again. *)
Definition SessionTerminal (e : Fault) : bool :=
  f_TokenExpired e ||
  match f_API e with
  | Some api => bool_decide (api_Kind api ∈ [NotFound; Conflict; Authentication])
  | None => false
  end.

Definition SessionHeld (e : Fault) : bool := f_HeldText e.

(** A secondary limit is a refusal that says when to come back. *)
Definition throttled (api : APIError) : bool :=
  bool_decide (api_Kind api = RateLimited) || (bool_decide (api_Kind api = Authorization) && (0 <? api_RetryAfter api)).

Definition ingestReason (e : Fault) : string :=
  if SessionTerminal e then ReasonSessionExpired
  else if f_Conflict e then ReasonDemandCommitConflict
  else match f_API e with
       | Some api => if throttled api then ReasonRateLimited
                     else if bool_decide (api_Kind api = Server) then ReasonServerError
                     else ReasonMessagePollFailed
       | None => ReasonMessagePollFailed
       end.

Definition IngestFailureDetail (err : option Fault) : string :=
  match err with
  | None => ""
  | Some e =>
      match f_Session e with
      | Some (reason, _) => if ValidFailureReason reason then reason else ingestReason e
      | None => ingestReason e
      end
  end.

(** ** The cause of a failure GitHub did not answer *)

Definition CauseTimeout := "timeout".
Definition CauseCanceled := "canceled".
Definition CauseReset := "reset".
Definition CauseRefused := "refused".
Definition CauseEOF := "eof".
Definition CauseHTTP2 := "http2".
Definition CauseTLS := "tls".
Definition CauseDNS := "dns".
Definition CauseStoreBusy := "store_busy".
Definition CauseOther := "other".

Definition ValidPollCause (cause : string) : bool :=
  bool_decide (cause ∈ [CauseTimeout; CauseCanceled; CauseReset; CauseRefused; CauseEOF; CauseHTTP2; CauseTLS; CauseDNS;
                        CauseStoreBusy; CauseOther]).

Definition statuslessReason (reason : string) : bool :=
  bool_decide (reason ∈ [ReasonMessagePollFailed; ReasonSessionReleaseFailed; ReasonSessionCreateFailed;
                         ReasonRecreatedAfterFailures]).

Definition storeBusy (e : Fault) : bool :=
  match f_Code e with Some code => Z.land code 255 =? 5 | None => false end.

Definition timedOut (e : Fault) : bool := f_DeadlineExceeded e || f_OSDeadline e || f_NetTimeout e.

Definition pollCause (e : Fault) : string :=
  if storeBusy e then CauseStoreBusy
  else if f_Canceled e then CauseCanceled
  else if timedOut e then CauseTimeout
  else if f_HTTP2 e then CauseHTTP2
  else if f_TLS e then CauseTLS
  else if f_DNS e then CauseDNS
  else if f_ConnRefused e then CauseRefused
  else if f_ConnReset e then CauseReset
  else if f_EOF e then CauseEOF
  else CauseOther.

Record IngestFailure := {
  if_Reason : string;
  if_Phase : option Phase;
  if_Poll : string;
  if_Status : Z;
  if_RequestID : string;
  if_RetryAfter : Duration;
  if_Cause : string
}.

Definition noIngestFailure : IngestFailure :=
  {| if_Reason := ""; if_Phase := None; if_Poll := ""; if_Status := 0; if_RequestID := ""; if_RetryAfter := 0; if_Cause := "" |}.

Definition DescribeIngestFailure (err : option Fault) : IngestFailure :=
  let reason := IngestFailureDetail err in
  match err with
  | None => noIngestFailure
  | Some e =>
      if bool_decide (reason = "") then noIngestFailure
      else
        let status := match f_API e with Some api => api_Status api | None => 0 end in
        {| if_Reason := reason;
           if_Phase := Some (phaseFor reason);
           if_Poll := match f_Session e with
                      | Some (_, poll) => if negb (bool_decide (poll = reason)) && ValidFailureReason poll then poll else ""
                      | None => ""
                      end;
           if_Status := status;
           if_RequestID := match f_API e with Some api => api_RequestID api | None => "" end;
           if_RetryAfter := match f_API e with Some api => api_RetryAfter api | None => 0 end;
           if_Cause := if (status =? 0) && statuslessReason reason then pollCause e else "" |}
  end.

(** ** When a failing session is given up *)

Definition defaultSessionMaxIngestFailures : Z := 5.
Definition defaultSessionFailureWindow : Duration := 5 * Minute.

Record SessionRecoveryPolicy := { MaxConsecutiveFailures : Z; FailureWindow : Duration }.

Definition SessionRecoveryPolicy_normalized (p : SessionRecoveryPolicy) : SessionRecoveryPolicy :=
  {| MaxConsecutiveFailures := if MaxConsecutiveFailures p <=? 0 then defaultSessionMaxIngestFailures
                               else MaxConsecutiveFailures p;
     FailureWindow := if FailureWindow p <=? 0 then defaultSessionFailureWindow else FailureWindow p |}.

Definition ReleaseRefusalBound (p : SessionRecoveryPolicy) : Z :=
  MaxConsecutiveFailures (SessionRecoveryPolicy_normalized p).

Record SessionFailureState := { Consecutive : Z; Since : Time }.

Definition noFailures : SessionFailureState := {| Consecutive := 0; Since := zeroTime |}.

Record SessionRecoveryDecision := { dec_State : SessionFailureState; dec_Reason : string; dec_Discard : bool }.

Definition OnFailure (p : SessionRecoveryPolicy) (state : SessionFailureState) (err : Fault) (now : Time)
    : SessionRecoveryDecision :=
  let policy := SessionRecoveryPolicy_normalized p in
  let next := {| Consecutive := add64 (Consecutive state) 1;
                 Since := if IsZero (Since state) then now else Since state |} in
  if SessionTerminal err then {| dec_State := next; dec_Reason := ReasonSessionExpired; dec_Discard := true |}
  else if f_Conflict err then {| dec_State := next; dec_Reason := ReasonDemandCommitConflict; dec_Discard := false |}
  else if (MaxConsecutiveFailures policy <=? Consecutive next) || (FailureWindow policy <=? TimeSub now (Since next))
  then {| dec_State := next; dec_Reason := ReasonRecreatedAfterFailures; dec_Discard := true |}
  else {| dec_State := next; dec_Reason := ReasonMessagePollFailed; dec_Discard := false |}.

Lemma ReleaseRefusalBound_positive p : 0 < ReleaseRefusalBound p.
Proof.
  unfold ReleaseRefusalBound, SessionRecoveryPolicy_normalized, defaultSessionMaxIngestFailures. simpl.
  destruct (Z.leb_spec (MaxConsecutiveFailures p) 0); lia.
Qed.

(** ** The vocabulary is closed *)

Ltac in_vocabulary := apply bool_decide_eq_true_2; repeat (apply elem_of_cons; (by left) || right).

Lemma ingestReason_valid e : ValidFailureReason (ingestReason e) = true.
Proof. unfold ingestReason. repeat split_match; in_vocabulary. Qed.

Lemma pollCause_valid e : ValidPollCause (pollCause e) = true.
Proof. unfold pollCause. repeat split_match; in_vocabulary. Qed.

Lemma OnFailure_valid p s e now : ValidFailureReason (dec_Reason (OnFailure p s e now)) = true.
Proof. unfold OnFailure. repeat split_match; in_vocabulary. Qed.

Lemma IngestFailureDetail_valid e : ValidFailureReason (IngestFailureDetail (Some e)) = true.
Proof.
  unfold IngestFailureDetail. destruct (f_Session e) as [[reason poll]|]; [|apply ingestReason_valid].
  destruct (ValidFailureReason reason) eqn:Hv; [done|apply ingestReason_valid].
Qed.

(** Whatever an error carries, each word of its account is of the vocabulary or
    absent, its reason is never absent, and a transport cause is named only for a
    failure GitHub did not answer. *)
Theorem described_failure_is_closed e :
  let f := DescribeIngestFailure (Some e) in
  ValidFailureReason (if_Reason f) = true /\ if_Phase f = Some (phaseFor (if_Reason f)) /\
  (if_Poll f = "" \/ ValidFailureReason (if_Poll f) = true /\ if_Poll f <> if_Reason f) /\
  (if_Cause f = "" \/ ValidPollCause (if_Cause f) = true /\ if_Status f = 0).
Proof.
  unfold DescribeIngestFailure. pose proof (IngestFailureDetail_valid e) as Hv.
  destruct (bool_decide_reflect (IngestFailureDetail (Some e) = "")) as [E|_]; [by rewrite E in Hv|]. cbn [if_Reason if_Phase if_Poll if_Status if_Cause].
  split; [done|]. split; [done|]. split.
  - destruct (f_Session e) as [[reason poll]|]; [|by left].
    destruct (bool_decide_reflect (poll = IngestFailureDetail (Some e))) as [_|Hne]; [by left|]. simpl.
    destruct (ValidFailureReason poll) eqn:Hp; [by right|by left].
  - destruct (Z.eqb_spec (match f_API e with Some api => api_Status api | None => 0 end) 0) as [E|_]; [|by left]. simpl.
    destruct (statuslessReason _); [right; split; [apply pollCause_valid|done]|by left].
Qed.
