(* ===== verification/Sessions.v ===== *)
(** * The recovering source of a binding (internal/daemon/runtime.go)

    A binding polls GitHub through one message session.  The recovering source
    opens it, replaces it when it fails, gives it up when the node yields and
    closes it at the end, while the poll, the tick and the workers share it.  Every
    body under the mutex is a program over the calls to the broker with the state
    passed through; [Handle] is a program over those bodies, so others may come
    between two of them. *)

From Stdlib Require Import ZArith Lia String List.
From stdpp Require Import base tactics list gmap strings.
From S2P Require Import Prelude Effects Broker.

#[local] Open Scope prog_scope.

(** A session is the number of the client that was opened for it. *)
Record recoveringScaleSetSource := {
  rs_source : option nat;
  rs_closed : bool;
  rs_suspended : bool;
  rs_released : bool;
  rs_failures : SessionFailureState;
  rs_releaseRefusals : Z;
  rs_abandoned : option Fault
}.

(** [EnterLimiter] is false when the context ends first; [PollSession] is one
    [Handle] of the client. *)
Inductive BrokerCall : Set -> Type :=
  | OpenSession : BrokerCall (Fault + nat)
  | CloseSession (session : nat) : BrokerCall (option Fault)
  | PollSession (session : nat) : BrokerCall (option Fault)
  | EnterLimiter : BrokerCall bool
  | ContextErr : BrokerCall bool
  | SessionNow : BrokerCall Time.

Definition newRecoveringScaleSetSource (source : option nat) (pending : bool) : option recoveringScaleSetSource :=
  if negb (eqb (bool_decide (source = None)) pending) then None
  else Some {| rs_source := source; rs_closed := false; rs_suspended := false; rs_released := pending;
               rs_failures := noFailures; rs_releaseRefusals := 0; rs_abandoned := None |}.

Definition withFailures (s : recoveringScaleSetSource) (f : SessionFailureState) : recoveringScaleSetSource :=
  {| rs_source := rs_source s; rs_closed := rs_closed s; rs_suspended := rs_suspended s; rs_released := rs_released s;
     rs_failures := f; rs_releaseRefusals := rs_releaseRefusals s; rs_abandoned := rs_abandoned s |}.

Definition withReleased (s : recoveringScaleSetSource) : recoveringScaleSetSource :=
  {| rs_source := rs_source s; rs_closed := rs_closed s; rs_suspended := rs_suspended s; rs_released := true;
     rs_failures := rs_failures s; rs_releaseRefusals := rs_releaseRefusals s; rs_abandoned := rs_abandoned s |}.

Definition withRefusals (s : recoveringScaleSetSource) (n : Z) : recoveringScaleSetSource :=
  {| rs_source := rs_source s; rs_closed := rs_closed s; rs_suspended := rs_suspended s; rs_released := rs_released s;
     rs_failures := rs_failures s; rs_releaseRefusals := n; rs_abandoned := rs_abandoned s |}.

Definition withAbandoned (s : recoveringScaleSetSource) (e : Fault) : recoveringScaleSetSource :=
  {| rs_source := rs_source s; rs_closed := rs_closed s; rs_suspended := rs_suspended s; rs_released := rs_released s;
     rs_failures := rs_failures s; rs_releaseRefusals := rs_releaseRefusals s; rs_abandoned := Some e |}.

(** [s.source, s.released, s.failures = opened, false, SessionFailureState{}]. *)
Definition withSource (s : recoveringScaleSetSource) (session : nat) : recoveringScaleSetSource :=
  {| rs_source := Some session; rs_closed := rs_closed s; rs_suspended := rs_suspended s; rs_released := false;
     rs_failures := noFailures; rs_releaseRefusals := rs_releaseRefusals s; rs_abandoned := rs_abandoned s |}.

Definition transientStartupFailure (e : Fault) : bool := f_DeadlineExceeded e || f_Timeout e || f_DNS e || f_Op e.

Definition deferrableOpenFailure (e : Fault) : bool := transientStartupFailure e || SessionHeld e.

Definition openFailureReason (e : Fault) : string :=
  if SessionHeld e then ReasonSessionHeld else ReasonSessionCreateFailed.

(** What a poll returns other than success: the error of its context, the error of
    a binding that may not poll, or a failure. *)
Inductive Refusal := ContextDone | NoSession | Failed (e : Fault).

(** ** The bodies under the mutex *)

Definition pendingOpen (s : recoveringScaleSetSource) : bool :=
  negb (rs_closed s) && negb (rs_suspended s) && bool_decide (rs_source s = None).

(** The client for work that needs a session, and the one for the administration
    of runners, which does not. *)
Definition acquire (s : recoveringScaleSetSource) : option nat :=
  if rs_closed s || rs_suspended s then None else rs_source s.

Definition acquireAdmin (s : recoveringScaleSetSource) : option nat :=
  if rs_closed s then None else rs_source s.

Abbreviation Body X := (Prog BrokerCall (recoveringScaleSetSource * X)).

Definition openPending (s : recoveringScaleSetSource) : Body (option Refusal) :=
  entered <~ EnterLimiter ;;
  if negb entered then Ret (s, Some ContextDone)
  else if negb (pendingOpen s) then Ret (s, None)
  else
    opened <~ OpenSession ;;
    match opened with
    | inl err =>
        let failure := SessionFailure (openFailureReason err) "" err in
        ended <~ ContextErr ;;
        Ret (if negb ended && negb (deferrableOpenFailure err) then withAbandoned s failure else s, Some (Failed failure))
    | inr session => Ret (withSource s session, None)
    end.

(** The poll holds the read lock, so nobody writes while it waits. *)
Definition pollSource (s : recoveringScaleSetSource) : Body (option (nat * option Fault)) :=
  match acquire s with
  | None => Ret (s, None)
  | Some session => answer <~ PollSession session ;; Ret (s, Some (session, answer))
  end.

Section Policy.
Variable policy : SessionRecoveryPolicy.

Definition recordFailure (s : recoveringScaleSetSource) (err : Fault) : Body SessionRecoveryDecision :=
  now <~ SessionNow ;;
  let decision := OnFailure policy (rs_failures s) err now in
  Ret (withFailures s (dec_State decision), decision).

Definition clearFailures (s : recoveringScaleSetSource) : recoveringScaleSetSource := withFailures s noFailures.

Definition recordReleaseRefusal (s : recoveringScaleSetSource) : recoveringScaleSetSource :=
  withRefusals s (add64 (rs_releaseRefusals s) 1).

Definition releaseRefusalsExceeded (s : recoveringScaleSetSource) : bool :=
  ReleaseRefusalBound policy <=? rs_releaseRefusals s.

Inductive ReplaceError := ReplaceContext | ErrScaleSetClose | ErrScaleSetOpen.

#[export] Instance ReplaceError_eq_dec : EqDecision ReplaceError.
Proof. solve_decision. Defined.

Definition openReplacement (s : recoveringScaleSetSource) : Body (option ReplaceError) :=
  opened <~ OpenSession ;;
  match opened with
  | inl _ => Ret (s, Some ErrScaleSetOpen)
  | inr session => Ret (withRefusals (withSource s session) 0, None)
  end.

Definition replace (s : recoveringScaleSetSource) (failed : nat) (discard : bool) : Body (option ReplaceError) :=
  entered <~ EnterLimiter ;;
  if negb entered then Ret (s, Some ReplaceContext)
  else if rs_closed s || rs_suspended s || negb (bool_decide (rs_source s = Some failed)) then Ret (s, None)
  else if rs_released s then openReplacement s
  else
    answer <~ CloseSession failed ;;
    if bool_decide (answer <> None) && negb discard then Ret (s, Some ErrScaleSetClose)
    else openReplacement (withReleased s).

Definition suspended (s : recoveringScaleSetSource) : recoveringScaleSetSource :=
  {| rs_source := rs_source s; rs_closed := rs_closed s; rs_suspended := true; rs_released := rs_released s;
     rs_failures := rs_failures s; rs_releaseRefusals := rs_releaseRefusals s; rs_abandoned := rs_abandoned s |}.

Definition Suspend (s : recoveringScaleSetSource) : Body (option Fault) :=
  if rs_closed s || rs_suspended s then Ret (s, None)
  else
    match rs_source s with
    | Some session =>
        if rs_released s then Ret (suspended s, None)
        else
          answer <~ CloseSession session ;;
          match answer with
          | Some err => Ret (s, Some err)
          | None => Ret (suspended (withReleased s), None)
          end
    | None => Ret (suspended s, None)
    end.

(** The second component is whether the open failed. *)
Definition Resume (s : recoveringScaleSetSource) : Body bool :=
  if rs_closed s || negb (rs_suspended s) then Ret (s, false)
  else
    opened <~ OpenSession ;;
    match opened with
    | inl _ => Ret (s, true)
    | inr session =>
        Ret ({| rs_source := Some session; rs_closed := rs_closed s; rs_suspended := false; rs_released := false;
                rs_failures := noFailures; rs_releaseRefusals := rs_releaseRefusals s; rs_abandoned := None |}, false)
    end.

Definition Close (s : recoveringScaleSetSource) : Body (option Fault) :=
  if rs_closed s then Ret (s, None)
  else
    let s' := {| rs_source := rs_source s; rs_closed := true; rs_suspended := rs_suspended s; rs_released := rs_released s;
                 rs_failures := rs_failures s; rs_releaseRefusals := rs_releaseRefusals s;
                 rs_abandoned := rs_abandoned s |} in
    match rs_source s with
    | Some session => if rs_released s then Ret (s', None) else answer <~ CloseSession session ;; Ret (s', answer)
    | None => Ret (s', None)
    end.

(** ** One poll *)

Inductive SectionCall : Set -> Type :=
  | Abandonment : SectionCall (option Fault)
  | PendingOpen : SectionCall bool
  | OpenPending : SectionCall (option Refusal)
  | PollSource : SectionCall (option (nat * option Fault))
  | PollContext : SectionCall bool
  | ClearFailures : SectionCall unit
  | RecordFailure (err : Fault) : SectionCall SessionRecoveryDecision
  | RefusalsExceeded : SectionCall bool
  | Replace (failed : nat) (discard : bool) : SectionCall (option ReplaceError)
  | RecordReleaseRefusal : SectionCall unit.

Definition replacementReason (err : option ReplaceError) (classified : string) : string :=
  match err with
  | Some ErrScaleSetClose => ReasonSessionReleaseFailed
  | Some ErrScaleSetOpen => ReasonSessionCreateFailed
  | _ => classified
  end.

(** What follows a poll that failed on [session]. *)
Definition recover (session : nat) (err : Fault) : Prog SectionCall (option Refusal) :=
  decision <~ RecordFailure err ;;
  discard <~~ (if dec_Discard decision then Ret true else Do RefusalsExceeded Ret) ;;
  replaced <~ Replace session discard ;;
  _ <~~ (if bool_decide (replaced = Some ErrScaleSetClose) then Do RecordReleaseRefusal Ret else Ret tt) ;;
  Ret (Some (Failed (SessionFailure (replacementReason replaced (dec_Reason decision)) (dec_Reason decision) err))).

Definition pollOnce : Prog SectionCall (option Refusal) :=
  polled <~ PollSource ;;
  match polled with
  | None => Ret (Some NoSession)
  | Some (_, None) => _ <~ ClearFailures ;; Ret None
  | Some (session, Some err) =>
      ended <~ PollContext ;;
      if (ended : bool) then Ret (Some (Failed err)) else recover session err
  end.

Definition Handle : Prog SectionCall (option Refusal) :=
  abandoned <~ Abandonment ;;
  match abandoned with
  | Some err => Ret (Some (Failed err))
  | None =>
      pending <~ PendingOpen ;;
      opened <~~ (if (pending : bool) then Do OpenPending Ret else Ret None) ;;
      match opened with
      | Some err => ended <~ PollContext ;; Ret (Some (if (ended : bool) then ContextDone else err))
      | None => pollOnce
      end
  end.

Definition section (s : recoveringScaleSetSource) {X : Set} (c : SectionCall X) : Body X :=
  match c in SectionCall X return Body X with
  | Abandonment => Ret (s, rs_abandoned s)
  | PendingOpen => Ret (s, pendingOpen s)
  | OpenPending => openPending s
  | PollSource => pollSource s
  | PollContext => ended <~ ContextErr ;; Ret (s, ended)
  | ClearFailures => Ret (clearFailures s, tt)
  | RecordFailure err => recordFailure s err
  | RefusalsExceeded => Ret (s, releaseRefusalsExceeded s)
  | Replace failed discard => replace s failed discard
  | RecordReleaseRefusal => Ret (recordReleaseRefusal s, tt)
  end.

(** A poll nobody comes between. *)
Fixpoint alone {A : Set} (s : recoveringScaleSetSource) (p : Prog SectionCall A) : Body A :=
  match p with
  | Ret a => Ret (s, a)
  | Do c k => bindProg (section s c) (fun '(s', x) => alone s' (k x))
  end.

End Policy.
