(* ===== verification/SessionSpec.v ===== *)
(** * What the recovering source promises

    The broker is seen through what it answered: which sessions it handed out,
    which it has not agreed to release, and which it refused to. *)

From Stdlib Require Import ZArith Lia String List.
From stdpp Require Import base tactics list gmap strings.
From S2P Require Import Prelude Effects Broker Sessions.

(** [b_open] are the sessions handed out and not seen to be released, [b_refused]
    those of which a release was refused, [b_again] whether one was released
    twice, [b_done] whether the context has ended. *)
Record Broker := { b_next : nat; b_open : gset nat; b_refused : gset nat; b_again : bool; b_done : bool }.

Definition handOut (b : Broker) : Broker :=
  {| b_next := S (b_next b); b_open := {[b_next b]} ∪ b_open b; b_refused := b_refused b; b_again := b_again b;
     b_done := b_done b |}.

Definition takeBack (b : Broker) (session : nat) : Broker :=
  {| b_next := b_next b; b_open := b_open b ∖ {[session]}; b_refused := b_refused b;
     b_again := b_again b || bool_decide (session ∉ b_open b); b_done := b_done b |}.

Definition refuse (b : Broker) (session : nat) : Broker :=
  {| b_next := b_next b; b_open := b_open b; b_refused := {[session]} ∪ b_refused b;
     b_again := b_again b || bool_decide (session ∉ b_open b); b_done := b_done b |}.

(** Any answer is possible; a client that is opened is a new one. *)
Definition brokerStep {X : Set} (b : Broker) (c : BrokerCall X) : Broker -> X -> Prop :=
  match c in BrokerCall X return Broker -> X -> Prop with
  | OpenSession => fun b' x => match x with inl _ => b' = b | inr session => session = b_next b /\ b' = handOut b end
  | CloseSession session => fun b' x => match x with None => b' = takeBack b session | Some _ => b' = refuse b session end
  | PollSession _ => fun b' _ => b' = b
  | EnterLimiter => fun b' x => b' = b /\ (x = false -> b_done b = true)
  | ContextErr => fun b' x => b' = b /\ x = b_done b
  | SessionNow => fun b' _ => b' = b
  end.

Fixpoint runsTo {A : Set} (b : Broker) (p : Prog BrokerCall A) (b' : Broker) (a : A) : Prop :=
  match p with
  | Ret x => b' = b /\ a = x
  | Do c k => exists b1 x, brokerStep b c b1 x /\ runsTo b1 (k x) b' a
  end.

Lemma runsTo_bind {A B : Set} (p : Prog BrokerCall A) (f : A -> Prog BrokerCall B) b b' r :
  runsTo b (bindProg p f) b' r -> exists b1 a, runsTo b p b1 a /\ runsTo b1 (f a) b' r.
Proof.
  revert b. induction p as [a|X c k IH]; intros b; simpl; [intros H; by exists b, a|].
  intros (b1 & x & Hs & (b2 & a & Ha & Hf)%IH). exists b2, a. split; [by exists b1, x|done].
Qed.

(** Whoever holds the lock next: a body of some poll, a yield, a rejoin, the end,
    or the end of the context. *)
Inductive SessionStep (policy : SessionRecoveryPolicy) : recoveringScaleSetSource * Broker -> recoveringScaleSetSource * Broker -> Prop :=
  | step_section (X : Set) (c : SectionCall X) s b s' b' x :
      runsTo b (section policy s c) b' (s', x) -> SessionStep policy (s, b) (s', b')
  | step_suspend s b s' b' x : runsTo b (Suspend s) b' (s', x) -> SessionStep policy (s, b) (s', b')
  | step_resume s b s' b' x : runsTo b (Resume s) b' (s', x) -> SessionStep policy (s, b) (s', b')
  | step_close s b s' b' x : runsTo b (Close s) b' (s', x) -> SessionStep policy (s, b) (s', b')
  | step_cancel s b : SessionStep policy (s, b)
      (s, {| b_next := b_next b; b_open := b_open b; b_refused := b_refused b; b_again := b_again b; b_done := true |}).

Definition beforeAll : Broker := {| b_next := 0; b_open := ∅; b_refused := ∅; b_again := false; b_done := false |}.

(** A binding starts with an open session or, when the network did not answer,
    without one. *)
Inductive Lives (policy : SessionRecoveryPolicy) : recoveringScaleSetSource * Broker -> Prop :=
  | lives_open s : newRecoveringScaleSetSource (Some 0%nat) false = Some s -> Lives policy (s, handOut beforeAll)
  | lives_pending s : newRecoveringScaleSetSource None true = Some s -> Lives policy (s, beforeAll)
  | lives_step w w' : Lives policy w -> SessionStep policy w w' -> Lives policy w'.

(** ** The invariant *)

(** The session this source answers for. *)
Definition holding (s : recoveringScaleSetSource) : option nat :=
  if rs_closed s || rs_suspended s || rs_released s then None else rs_source s.

Record Accounted (s : recoveringScaleSetSource) (b : Broker) : Prop := {
  acc_open : forall session, session ∈ b_open b -> session ∈ b_refused b \/ holding s = Some session;
  acc_held : forall session, holding s = Some session -> session ∈ b_open b;
  acc_next : forall session, session ∈ b_open b -> (session < b_next b)%nat;
  acc_source : forall session, rs_source s = Some session -> (session < b_next b)%nat;
  acc_pending : rs_source s = None -> rs_released s = true;
  acc_suspended : rs_suspended s = true -> rs_released s = true;
  acc_again : b_again b = false
}.

Lemma holding_source s session : holding s = Some session ->
  rs_source s = Some session /\ rs_closed s = false /\ rs_suspended s = false /\ rs_released s = false.
Proof. unfold holding. destruct (rs_closed s), (rs_suspended s), (rs_released s); naive_solver. Qed.

(** Only what the invariant reads matters. *)
Lemma accounted_same s s' b : Accounted s b -> holding s' = holding s -> rs_source s' = rs_source s ->
  rs_released s' = rs_released s -> rs_suspended s' = rs_suspended s -> Accounted s' b.
Proof. intros [H1 H2 H3 H4 H5 H6 H7] Eh Es Er Eu. constructor; rewrite ?Eh, ?Es, ?Er, ?Eu; done. Qed.

Lemma accounted_opened s s' b : Accounted s b -> holding s = None -> rs_source s' = Some (b_next b) ->
  rs_closed s' = false -> rs_suspended s' = false -> rs_released s' = false -> Accounted s' (handOut b).
Proof.
  intros [H1 H2 H3 H4 H5 H6 H7] Hn Es Ec Eu Er.
  assert (holding s' = Some (b_next b)) as Eh by (unfold holding; by rewrite Ec, Eu, Er).
  constructor; simpl; rewrite ?Eh.
  - intros session [->%elem_of_singleton|Hs]%elem_of_union; [by right|].
    destruct (H1 _ Hs) as [?|?]; [by left|congruence].
  - intros session [= <-]. by apply elem_of_union_l, elem_of_singleton.
  - intros session [->%elem_of_singleton|Hs%H3]%elem_of_union; lia.
  - rewrite Es. intros session [= <-]. lia.
  - by rewrite Es.
  - by rewrite Eu.
  - done.
Qed.

Lemma again_false s b session : Accounted s b -> holding s = Some session ->
  b_again b || bool_decide (session ∉ b_open b) = false.
Proof.
  intros Ha Hh. rewrite (acc_again _ _ Ha). apply bool_decide_eq_false_2. intros Hn. by apply Hn, (acc_held _ _ Ha).
Qed.

Lemma accounted_released s s' b session : Accounted s b -> holding s = Some session -> holding s' = None ->
  rs_source s' = rs_source s -> (rs_suspended s' = true -> rs_released s' = true) -> Accounted s' (takeBack b session).
Proof.
  intros Ha Hh Hn Es Eu. pose proof (again_false _ _ _ Ha Hh) as Hag. apply holding_source in Hh as Hs. destruct Hs as [Hs _].
  destruct Ha as [H1 H2 H3 H4 H5 H6 H7]. constructor; simpl; rewrite ?Es; try done.
  - intros x [Hx Hne]%elem_of_difference. destruct (H1 _ Hx) as [?|E]; [by left|].
    rewrite Hh in E. injection E as ->. destruct Hne. by apply elem_of_singleton.
  - by rewrite Hn.
  - intros x [Hx _]%elem_of_difference. by apply H3.
  - by rewrite Hs.
Qed.

Lemma accounted_refused s s' b session : Accounted s b -> holding s = Some session ->
  holding s' = None \/ holding s' = holding s -> rs_source s' = rs_source s ->
  (rs_suspended s' = true -> rs_released s' = true) -> Accounted s' (refuse b session).
Proof.
  intros Ha Hh Hn Es Eu. pose proof (again_false _ _ _ Ha Hh) as Hag. apply holding_source in Hh as Hs. destruct Hs as [Hs _].
  destruct Ha as [H1 H2 H3 H4 H5 H6 H7]. constructor; simpl; rewrite ?Es; try done.
  - intros x Hx. left. apply elem_of_union. destruct (H1 _ Hx) as [?|E]; [by right|].
    rewrite Hh in E. injection E as ->. left. by apply elem_of_singleton.
  - intros x. destruct Hn as [->| ->]; [done|apply H2].
  - by rewrite Hs.
Qed.

(** ** Every body keeps it *)

Lemma openReplacement_accounted s b s' b' x : Accounted s b -> rs_released s = true -> rs_closed s = false ->
  rs_suspended s = false -> runsTo b (openReplacement s) b' (s', x) -> Accounted s' b'.
Proof.
  intros Ha Hr Hc Hu (b1 & [err|session] & Hs & Hrun); simpl in Hs, Hrun.
  - subst b1. by destruct Hrun as [-> [= -> ->]].
  - destruct Hs as [-> ->]. destruct Hrun as [-> [= -> ->]].
    apply (accounted_opened s); try done. unfold holding. by rewrite Hc, Hu, Hr.
Qed.

Lemma replace_accounted s b failed discard s' b' x : Accounted s b -> runsTo b (replace s failed discard) b' (s', x) ->
  Accounted s' b'.
Proof.
  intros Ha (b1 & entered & [-> _] & Hrun). destruct entered; simpl in Hrun; [|by destruct Hrun as [-> [= -> ->]]].
  destruct (rs_closed s) eqn:Hc; [by destruct Hrun as [-> [= -> ->]]|].
  destruct (rs_suspended s) eqn:Hu; [by destruct Hrun as [-> [= -> ->]]|].
  destruct (bool_decide_reflect (rs_source s = Some failed)) as [Es|_]; [|by destruct Hrun as [-> [= -> ->]]].
  destruct (rs_released s) eqn:Hr; [by eapply openReplacement_accounted|]. simpl in Hrun.
  assert (holding s = Some failed) as Hh by (unfold holding; by rewrite Hc, Hu, Hr).
  assert (holding (withReleased s) = None) as Hn by (unfold holding; simpl; by rewrite Hc, Hu).
  destruct Hrun as (b1 & answer & Hs & Hrun).
  assert (Accounted s b1 \/ answer = None) as Hk.
  { destruct answer; [left; subst b1; apply (accounted_refused s); auto; by rewrite Hu|by right]. }
  destruct (bool_decide (answer <> None) && negb discard) eqn:Hd.
  { apply andb_true_iff in Hd as [Hd _]. apply bool_decide_eq_true_1 in Hd.
    destruct Hrun as [-> [= -> ->]]. by destruct Hk. }
  apply (openReplacement_accounted (withReleased s) b1 s' b' x); [|done..|exact Hrun].
  destruct answer; subst b1; [apply (accounted_refused s)|apply (accounted_released s)]; auto.
Qed.

Lemma openPending_accounted s b s' b' x : Accounted s b -> runsTo b (openPending s) b' (s', x) -> Accounted s' b'.
Proof.
  intros Ha (b1 & entered & [-> _] & Hrun). destruct entered; simpl in Hrun; [|by destruct Hrun as [-> [= -> ->]]].
  destruct (pendingOpen s) eqn:Hp; simpl in Hrun; [|by destruct Hrun as [-> [= -> ->]]].
  unfold pendingOpen in Hp. bool_to_prop. destruct Hrun as (b1 & [err|session] & Hs & Hrun); simpl in Hs, Hrun.
  - subst b1. destruct Hrun as (b1 & ended & [-> _] & [-> [= -> ->]]).
    destruct (negb ended && negb (deferrableOpenFailure err)); [|done]. by apply (accounted_same s).
  - destruct Hs as [-> ->]. destruct Hrun as [-> [= -> ->]]. apply (accounted_opened s); try done.
    unfold holding. rewrite (acc_pending _ _ Ha) by done. by rewrite !orb_true_r.
Qed.

Lemma section_accounted policy s b (X : Set) (c : SectionCall X) s' b' x :
  Accounted s b -> runsTo b (section policy s c) b' (s', x) -> Accounted s' b'.
Proof.
  intros Ha. destruct c; simpl.
  - by intros [-> [= -> ->]].
  - by intros [-> [= -> ->]].
  - by apply openPending_accounted.
  - unfold pollSource. destruct (acquire s) as [session|]; [|by intros [-> [= -> ->]]].
    by intros (b1 & answer & -> & [-> [= -> ->]]).
  - by intros (b1 & ended & [-> _] & [-> [= -> ->]]).
  - intros [-> [= -> ->]]. by apply (accounted_same s).
  - intros (b1 & now & -> & [-> [= -> ->]]). by apply (accounted_same s).
  - by intros [-> [= -> ->]].
  - by apply replace_accounted.
  - intros [-> [= -> ->]]. by apply (accounted_same s).
Qed.

Lemma Suspend_accounted s b s' b' x : Accounted s b -> runsTo b (Suspend s) b' (s', x) -> Accounted s' b'.
Proof.
  intros Ha. unfold Suspend. destruct (rs_closed s) eqn:Hc; [by intros [-> [= -> ->]]|].
  destruct (rs_suspended s) eqn:Hu; [by intros [-> [= -> ->]]|]. simpl.
  assert (forall t, rs_released t = true -> holding t = None) as Hrel
    by (intros t Ht; unfold holding; by rewrite Ht, !orb_true_r).
  assert (rs_released s = true -> Accounted (suspended s) b) as Hdone.
  { intros Hr. destruct Ha as [H1 H2 H3 H4 H5 H6 H7]. constructor; simpl; rewrite ?Hrel by done; try done.
    intros session Hs. destruct (H1 _ Hs) as [?|E]; [by left|]. by rewrite Hrel in E. }
  destruct (rs_source s) as [session|] eqn:Es; [|intros [-> [= -> ->]]; by apply Hdone, (acc_pending _ _ Ha)].
  destruct (rs_released s) eqn:Hr; [intros [-> [= -> ->]]; by apply Hdone|]. simpl.
  assert (holding s = Some session) as Hh by (unfold holding; by rewrite Hc, Hu, Hr).
  intros (b1 & [err|] & -> & [-> [= -> ->]]); [apply (accounted_refused s)|apply (accounted_released s)]; auto; by rewrite ?Hu.
Qed.

Lemma Resume_accounted s b s' b' x : Accounted s b -> runsTo b (Resume s) b' (s', x) -> Accounted s' b'.
Proof.
  intros Ha. unfold Resume. destruct (rs_closed s) eqn:Hc; [by intros [-> [= -> ->]]|].
  destruct (rs_suspended s) eqn:Hu; [|by intros [-> [= -> ->]]]. simpl.
  intros (b1 & [err|session] & Hs & Hrun); simpl in Hs, Hrun.
  - subst b1. by destruct Hrun as [-> [= -> ->]].
  - destruct Hs as [-> ->]. destruct Hrun as [-> [= -> ->]]. apply (accounted_opened s); try done.
    unfold holding. by rewrite Hu, orb_true_r.
Qed.

Lemma Close_accounted s b s' b' x : Accounted s b -> runsTo b (Close s) b' (s', x) -> Accounted s' b'.
Proof.
  intros Ha. unfold Close. destruct (rs_closed s) eqn:Hc; [by intros [-> [= -> ->]]|].
  set (s1 := {| rs_closed := true |}). assert (holding s1 = None) as Hn by done.
  assert (rs_suspended s1 = true -> rs_released s1 = true) as Hsr by apply (acc_suspended _ _ Ha).
  assert (holding s = None -> Accounted s1 b) as Hdone.
  { intros Hh. destruct Ha as [H1 H2 H3 H4 H5 H6 H7]. constructor; rewrite ?Hn; try done. by rewrite <- Hh. }
  unfold holding in Hdone. rewrite Hc in Hdone. simpl in Hdone.
  destruct (rs_source s) as [session|] eqn:Es; [|intros [-> [= -> ->]]; apply Hdone; by destruct (_ || _)].
  destruct (rs_released s) eqn:Hr; [intros [-> [= -> ->]]; apply Hdone; by rewrite orb_true_r|].
  destruct (rs_suspended s) eqn:Hu; [by pose proof (acc_suspended _ _ Ha Hu); congruence|].
  assert (holding s = Some session) as Hh by (unfold holding; by rewrite Hc, Hu, Hr).
  intros (b1 & [err|] & -> & [-> [= -> ->]]); [apply (accounted_refused s)|apply (accounted_released s)]; auto.
Qed.

Lemma Lives_accounted policy w : Lives policy w -> Accounted (fst w) (snd w).
Proof.
  induction 1 as [s Hs|s Hs|[s b] w' _ IH Hstep].
  - injection Hs as <-. constructor; simpl; try done.
    + intros session [->%elem_of_singleton|[]%elem_of_empty]%elem_of_union. by right.
    + intros session [= <-]. by apply elem_of_union_l, elem_of_singleton.
    + intros session [->%elem_of_singleton|[]%elem_of_empty]%elem_of_union. lia.
    + intros session [= <-]. lia.
  - injection Hs as <-. constructor; simpl; try done; intros session []%elem_of_empty.
  - inversion Hstep; subst; simpl in *.
    + by eapply section_accounted.
    + by eapply Suspend_accounted.
    + by eapply Resume_accounted.
    + by eapply Close_accounted.
    + destruct IH as [H1 H2 H3 H4 H5 H6 H7]. by constructor.
Qed.

(** ** A poll nobody comes between *)

Lemma alone_accounted policy {A : Set} (p : Prog SectionCall A) : forall s b s' b' a,
  Accounted s b -> runsTo b (alone policy s p) b' (s', a) -> Accounted s' b'.
Proof.
  induction p as [a0|X c k IH]; intros s b s' b' a Ha; simpl; [by intros [-> [= -> ->]]|].
  intros (b1 & [s1 x] & Hc & Hk)%runsTo_bind. apply (IH x s1 b1 s' b' a); [|done]. by eapply section_accounted.
Qed.

Lemma alone_lives policy {A : Set} (p : Prog SectionCall A) : forall s b s' b' a,
  Lives policy (s, b) -> runsTo b (alone policy s p) b' (s', a) -> Lives policy (s', b').
Proof.
  induction p as [a0|X c k IH]; intros s b s' b' a Hl; simpl; [by intros [-> [= -> ->]]|].
  intros (b1 & [s1 x] & Hc & Hk)%runsTo_bind. apply (IH x s1 b1 s' b' a); [|done].
  eapply lives_step; [exact Hl|]. by eapply step_section.
Qed.

Lemma runsTo_done {A : Set} (p : Prog BrokerCall A) : forall b b' a, runsTo b p b' a -> b_done b' = b_done b.
Proof.
  induction p as [x|X c k IH]; intros b b' a; simpl; [by intros [-> _]|].
  intros (b1 & x & Hs & ->%IH). destruct c; simpl in Hs;
    [destruct x; [by subst|by destruct Hs as [_ ->]]|destruct x; by subst|by subst|by destruct Hs as [-> _]|by destruct Hs as [-> _]|by subst].
Qed.

Section OnePoll.
Variables (policy : SessionRecoveryPolicy) (session : nat).

Definition refusalBound : Z := ReleaseRefusalBound policy.

(** What a failed poll does to the session it failed on: GitHub refused to release
    it and it is kept, it is replaced, or it is released without a replacement. *)
Inductive Recovery (s s' : recoveringScaleSetSource) (b b' : Broker) (e : Fault) : Prop :=
  | kept : holding s' = Some session -> rs_releaseRefusals s < refusalBound ->
      rs_releaseRefusals s' = add64 (rs_releaseRefusals s) 1 -> session ∈ b_refused b' -> SessionTerminal e = false ->
      IngestFailureDetail (Some e) = ReasonSessionReleaseFailed -> Recovery s s' b b' e
  | replaced : holding s' = Some (b_next b) -> rs_releaseRefusals s' = 0 -> rs_failures s' = noFailures -> Recovery s s' b b' e
  | withdrawn : rs_source s' = Some session -> rs_released s' = true ->
      IngestFailureDetail (Some e) = ReasonSessionCreateFailed -> Recovery s s' b b' e.

Lemma replace_recovers s b discard s' b' x : holding s = Some session -> b_done b = false ->
  runsTo b (replace s session discard) b' (s', x) ->
  (x = Some ErrScaleSetClose /\ discard = false /\ s' = s /\ session ∈ b_refused b') \/
  (x = None /\ holding s' = Some (b_next b) /\ rs_releaseRefusals s' = 0 /\ rs_failures s' = noFailures /\
   rs_abandoned s' = rs_abandoned s) \/
  (x = Some ErrScaleSetOpen /\ s' = withReleased s).
Proof.
  intros Hh Hb (b1 & entered & [-> He] & Hrun).
  destruct entered; [|rewrite Hb in He; by specialize (He eq_refl)]. simpl in Hrun.
  destruct (holding_source _ _ Hh) as (Es & Hc & Hu & Hr). rewrite Es, Hc, Hu, Hr in Hrun.
  rewrite bool_decide_eq_true_2 in Hrun by done. simpl in Hrun. destruct Hrun as (b1 & answer & Hs & Hrun).
  assert (b_next b1 = b_next b) as Hb1 by (destruct answer; by subst b1).
  destruct (bool_decide (answer <> None) && negb discard) eqn:Hd.
  - apply andb_true_iff in Hd as [Hd Hdis]. apply bool_decide_eq_true_1 in Hd. destruct answer; [|done].
    destruct Hrun as [-> [= -> ->]]. left. subst b1. repeat split; [by destruct discard|].
    by apply elem_of_union_l, elem_of_singleton.
  - right. destruct Hrun as (b2 & [err|opened] & Ho & Hrun); simpl in Ho, Hrun.
    + destruct Hrun as [-> [= -> ->]]. by right.
    + destruct Ho as [-> ->]. destruct Hrun as [-> [= -> ->]]. left. rewrite <- Hb1.
      unfold holding. simpl. by rewrite Hc, Hu.
Qed.

(** The reason a failed poll is reported with. *)
Lemma IngestFailureDetail_session reason poll e :
  ValidFailureReason reason = true -> IngestFailureDetail (Some (SessionFailure reason poll e)) = reason.
Proof. unfold IngestFailureDetail. simpl. by intros ->. Qed.

Lemma SessionTerminal_session reason poll e : SessionTerminal (SessionFailure reason poll e) = SessionTerminal e.
Proof. done. Qed.

Lemma recover_recovers s b err s' b' r : holding s = Some session -> b_done b = false ->
  runsTo b (alone policy s (recover session err)) b' (s', r) ->
  exists e, r = Some (Failed e) /\ Recovery s s' b b' e /\ rs_abandoned s' = rs_abandoned s.
Proof.
  intros Hh Hb (b1 & now & -> & Hrun). cbn [bindProg] in Hrun.
  set (d := OnFailure policy (rs_failures s) err now) in Hrun. set (s1 := withFailures s (dec_State d)) in Hrun.
  assert (holding s1 = Some session) as Hh1 by done.
  assert (exists discard : bool, (discard = false -> dec_Discard d = false /\ releaseRefusalsExceeded policy s1 = false) /\
    runsTo b (alone policy s1 (Do (Replace session discard) (fun x =>
      bindProg (if bool_decide (x = Some ErrScaleSetClose) then Do RecordReleaseRefusal Ret else Ret tt) (fun _ =>
        Ret (Some (Failed (SessionFailure (replacementReason x (dec_Reason d)) (dec_Reason d) err))))))) b' (s', r)) as (discard & Hd & Hrep).
  { destruct (dec_Discard d) eqn:Ed; [by exists true|]. exists (releaseRefusalsExceeded policy s1). split; [done|exact Hrun]. }
  clear Hrun. cbn [alone section] in Hrep. apply runsTo_bind in Hrep as (b2 & [s2 x] & Hx & Hrep).
  apply replace_recovers in Hx as [(-> & Hdis & -> & Hin)|[(-> & Hn & Hz & Hf & Hab)|(-> & ->)]]; try done.
  - destruct Hrep as [-> [= -> ->]]. eexists. split; [done|]. split; [|done]. destruct (Hd Hdis) as [Hd1 Hd2].
    unfold releaseRefusalsExceeded in Hd2. apply Z.leb_gt in Hd2. apply kept; try done.
    rewrite SessionTerminal_session. destruct (SessionTerminal err) eqn:Ht; [|done].
    unfold d, OnFailure in Hd1. by rewrite Ht in Hd1.
  - destruct Hrep as [-> [= -> ->]]. eexists. split; [done|]. split; [by apply replaced|done].
  - destruct Hrep as [-> [= -> ->]]. eexists. split; [done|]. split; [|done].
    apply withdrawn; [by destruct (holding_source _ _ Hh1)|done|by apply IngestFailureDetail_session].
Qed.

Lemma Handle_recovers s b s' b' r : holding s = Some session -> b_done b = false -> rs_abandoned s = None ->
  runsTo b (alone policy s Handle) b' (s', r) ->
  rs_abandoned s' = None /\
  ((r = None /\ s' = clearFailures s /\ b' = b) \/ exists e, r = Some (Failed e) /\ Recovery s s' b b' e).
Proof.
  intros Hh Hb Hab. destruct (holding_source _ _ Hh) as (Es & Hc & Hu & Hr). cbn [alone section Handle bindProg].
  rewrite Hab. cbn [alone section bindProg]. replace (pendingOpen s) with false
    by (unfold pendingOpen; rewrite Es; by rewrite andb_false_r). cbn [alone section bindProg pollOnce].
  unfold pollSource, acquire. rewrite Hc, Hu, Es. cbn [orb bindProg runsTo].
  intros (b1 & answer & -> & Hrun). destruct answer as [err|]; [|destruct Hrun as [-> [= -> ->]]; by split; [|left]].
  destruct Hrun as (b1 & ended & [-> Hended] & Hrun). cbn [bindProg] in Hrun. rewrite Hended, Hb in Hrun.
  apply recover_recovers in Hrun as (e & -> & He & Ha); [|done..]. split; [congruence|]. right. by exists e.
Qed.

End OnePoll.

(** Polls one after the other while the binding answers for [session]; the number
    counts those that failed. *)
Inductive Polls (policy : SessionRecoveryPolicy) (session : nat) (w : recoveringScaleSetSource * Broker)
    : Z -> recoveringScaleSetSource * Broker -> Prop :=
  | polls_none : Polls policy session w 0 w
  | polls_next n s b s' b' r : Polls policy session w n (s, b) -> holding s = Some session ->
      runsTo b (alone policy s Handle) b' (s', r) ->
      Polls policy session w (match r with None => n | Some _ => n + 1 end) (s', b').

(** What polls leave of the session they were made on. *)
Definition givenUp (session : nat) (s : recoveringScaleSetSource) : Prop :=
  (exists fresh, holding s = Some fresh /\ fresh <> session /\ rs_releaseRefusals s = 0 /\ rs_failures s = noFailures) \/
  (rs_source s = Some session /\ rs_released s = true).

Lemma Polls_bound policy session s0 b0 n w : int64 (MaxConsecutiveFailures policy) -> Accounted s0 b0 ->
  holding s0 = Some session -> rs_abandoned s0 = None -> b_done b0 = false -> 0 <= rs_releaseRefusals s0 ->
  Polls policy session (s0, b0) n w ->
  Accounted (fst w) (snd w) /\ b_done (snd w) = false /\ rs_abandoned (fst w) = None /\ 0 <= n /\
  (holding (fst w) = Some session /\ rs_releaseRefusals (fst w) = rs_releaseRefusals s0 + n /\
   n <= Z.max 0 (ReleaseRefusalBound policy - rs_releaseRefusals s0) \/
   givenUp session (fst w) /\ n <= Z.max 0 (ReleaseRefusalBound policy - rs_releaseRefusals s0) + 1).
Proof.
  intros Hi Ha Hh Hab Hb Hr Hp. induction Hp as [|n s b s' b' r Hp IH Hs Hrun]; simpl in *.
  { split; [done|]. split; [done|]. split; [done|]. split; [lia|]. left. split; [done|]. lia. }
  destruct IH as (Hacc & Hd & Hab' & Hn & Hcase).
  pose proof (alone_accounted _ _ _ _ _ _ _ Hacc Hrun) as Hacc'. pose proof (runsTo_done _ _ _ _ Hrun) as Hd'.
  assert (rs_releaseRefusals s = rs_releaseRefusals s0 + n /\ n <= Z.max 0 (ReleaseRefusalBound policy - rs_releaseRefusals s0)) as [Hq Hm].
  { destruct Hcase as [(_ & ? & ?)|[[(f & Hf & Hne & _)|[_ Hrel]] _]]; [done|congruence|].
    destruct (holding_source _ _ Hs) as (_ & _ & _ & ?). congruence. }
  destruct (Handle_recovers policy session s b s' b' r Hs Hd Hab' Hrun) as [Hab'' Hres].
  split; [done|]. split; [congruence|]. split; [done|].
  destruct Hres as [(-> & -> & _)|(e & -> & [Hk Hlt Hadd _ _ _|Hnew Hz Hf|Hsrc Hrel _])].
  - split; [done|]. left. done.
  - split; [lia|]. left. split; [done|]. unfold refusalBound in Hlt. rewrite Hadd, add64_exact; [lia|].
    assert (ReleaseRefusalBound policy <= maxInt64).
    { unfold ReleaseRefusalBound, SessionRecoveryPolicy_normalized, defaultSessionMaxIngestFailures. simpl.
      unfold int64, maxInt64 in *. destruct (_ <=? 0); lia. }
    unfold int64, minInt64. lia.
  - split; [lia|]. right. split; [|lia]. left. exists (b_next b). split; [done|]. split; [|done].
    pose proof (acc_source _ _ Hacc session (proj1 (holding_source _ _ Hs))). lia.
  - split; [lia|]. right. split; [|lia]. by right.
Qed.

(** ** The claims *)

(** C25: A binding leaks no session.  Whatever polls, yields, rejoins, cancellations
    and the end do, in whatever order they take the lock and whatever the broker
    answers, every session that was opened and not released is the one the binding
    polls, or GitHub refused to release it.  So a binding has at most one session
    it never tried to release, a binding that yielded or was closed has none, and
    no session is released a second time. *)
Theorem binding_leaks_no_session policy s b : Lives policy (s, b) ->
  (forall session, session ∈ b_open b -> session ∉ b_refused b ->
     rs_source s = Some session /\ rs_closed s = false /\ rs_suspended s = false /\ rs_released s = false) /\
  b_again b = false.
Proof.
  intros Ha%Lives_accounted. simpl in Ha. split; [|by apply acc_again in Ha].
  intros session Ho Hr. destruct (acc_open _ _ Ha _ Ho) as [?|Hh]; [done|]. by apply holding_source.
Qed.

(** C26: A session GitHub will not release is given up.  While a binding polls one
    session, a failed poll either leaves it in place, which takes a refused release
    and is counted, or gives it up: it is replaced by a fresh one whose counts are
    zero, or released until one can be opened.  Healthy polls in between change
    nothing of it, so the session outlives at most as many failed polls as the
    policy allows consecutive failures. *)
Theorem refused_session_is_given_up policy session s0 b0 n s b : int64 (MaxConsecutiveFailures policy) ->
  Lives policy (s0, b0) -> rs_abandoned s0 = None -> b_done b0 = false -> rs_releaseRefusals s0 = 0 ->
  holding s0 = Some session -> Polls policy session (s0, b0) n (s, b) ->
  (holding s = Some session /\ rs_releaseRefusals s = n /\ n <= ReleaseRefusalBound policy) \/
  (givenUp session s /\ n <= ReleaseRefusalBound policy + 1).
Proof.
  intros Hi Ha%Lives_accounted Hab Hb Hz Hh Hp. pose proof (ReleaseRefusalBound_positive policy).
  destruct (Polls_bound policy session s0 b0 n (s, b) Hi Ha Hh Hab Hb ltac:(lia) Hp) as (_ & _ & _ & _ & [(H1 & H2 & H3)|[H1 H2]]);
    simpl in *; [left|right]; (split; [done|]); lia.
Qed.

(** No error of a poll is reported as a rate limit or a fault of the server, in its
    reason or in the reason of the poll: the policy classifies it first. *)
Theorem poll_failure_hides_throttling policy session s b err s' b' r :
  holding s = Some session -> b_done b = false ->
  runsTo b (alone policy s (recover session err)) b' (s', r) ->
  exists e, r = Some (Failed e) /\
  forall word, In word [if_Reason (DescribeIngestFailure (Some e)); if_Poll (DescribeIngestFailure (Some e))] ->
    word <> ReasonRateLimited /\ word <> ReasonServerError.
Proof.
  intros Hh Hb (b1 & now & -> & Hrun). cbn [bindProg] in Hrun.
  set (d := OnFailure policy (rs_failures s) err now) in Hrun.
  assert (exists x, r = Some (Failed (SessionFailure (replacementReason x (dec_Reason d)) (dec_Reason d) err))) as [x ->].
  { destruct (dec_Discard d); cbn [bindProg alone section] in Hrun;
      apply runsTo_bind in Hrun as (b2 & [s2 x] & _ & Hrun); exists x; destruct (bool_decide (x = Some ErrScaleSetClose));
      by destruct Hrun as [_ [= _ ->]]. }
  eexists. split; [done|].
  assert (In (dec_Reason d) [ReasonSessionExpired; ReasonDemandCommitConflict; ReasonRecreatedAfterFailures; ReasonMessagePollFailed]) as Hd.
  { unfold d, OnFailure. repeat split_match; simpl; tauto. }
  assert (forall c, In c [ReasonSessionExpired; ReasonDemandCommitConflict; ReasonRecreatedAfterFailures; ReasonMessagePollFailed] ->
    forall word, In word [if_Reason (DescribeIngestFailure (Some (SessionFailure (replacementReason x c) c err)));
                          if_Poll (DescribeIngestFailure (Some (SessionFailure (replacementReason x c) c err)))] ->
    word <> ReasonRateLimited /\ word <> ReasonServerError) as Hall; [|by apply Hall].
  intros c Hc word Hw. destruct x as [[]|]; (destruct Hc as [<-|[<-|[<-|[<-|[]]]]]); (destruct Hw as [<-|[<-|[]]]); done.
Qed.

(** ** A binding whose broker refuses a release once *)

Module Refusing.

Definition policy : SessionRecoveryPolicy := {| MaxConsecutiveFailures := 1; FailureWindow := Hour |}.
Definition patient : SessionRecoveryPolicy := {| MaxConsecutiveFailures := 3; FailureWindow := Hour |}.

Definition start : recoveringScaleSetSource :=
  {| rs_source := Some 0%nat; rs_closed := false; rs_suspended := false; rs_released := false; rs_failures := noFailures;
     rs_releaseRefusals := 0; rs_abandoned := None |}.

(** A conflict of the store fails the poll without a verdict on the session. *)
Definition conflicting : Fault :=
  {| f_Session := None; f_API := None; f_Conflict := true; f_TokenExpired := false; f_HeldText := false; f_Code := None;
     f_Canceled := false; f_DeadlineExceeded := false; f_OSDeadline := false; f_Timeout := false; f_NetTimeout := false;
     f_HTTP2 := false; f_TLS := false; f_DNS := false; f_Op := false; f_ConnRefused := false; f_ConnReset := false;
     f_EOF := false |}.

Definition once (p : SessionRecoveryPolicy) : recoveringScaleSetSource :=
  withRefusals (withFailures start (dec_State (OnFailure p noFailures conflicting Hour))) 1.

Definition refusedOnce : Broker := refuse (handOut beforeAll) 0.

Lemma failing_poll p : 1 <= ReleaseRefusalBound p ->
  exists e, runsTo (handOut beforeAll) (alone p start Handle) refusedOnce (once p, Some (Failed e)).
Proof.
  intros Hp. eexists. cbn [alone section Handle bindProg rs_abandoned start].
  cbn [pendingOpen rs_source start bindProg alone section pollOnce pollSource acquire].
  eexists _, (Some conflicting). split; [reflexivity|]. cbn [bindProg alone section].
  eexists _, false. split; [split; reflexivity|]. cbn [bindProg alone section recover recordFailure].
  eexists _, Hour. split; [reflexivity|]. cbn [bindProg alone section OnFailure SessionTerminal conflicting f_TokenExpired f_API f_Conflict orb dec_Discard].
  replace (releaseRefusalsExceeded p _) with false by (symmetry; apply Z.leb_gt; simpl; lia).
  cbn [bindProg alone section replace].
  eexists _, true. split; [split; [reflexivity|done]|]. cbn.
  eexists _, (Some plainFault). split; [reflexivity|]. cbn. split; reflexivity.
Qed.

Lemma starts p : Lives p (start, handOut beforeAll).
Proof. by apply lives_open. Qed.

Definition yielded : recoveringScaleSetSource := suspended (withReleased start).

Lemma yields p : Lives p (yielded, takeBack (handOut beforeAll) 0).
Proof.
  eapply lives_step; [apply starts|]. apply (step_suspend _ _ _ _ _ None). cbn.
  eexists _, None. split; [reflexivity|]. split; reflexivity.
Qed.

(** A binding that yielded has released its session. *)
Lemma binding_leaks_no_session_witness :
  (0%nat ∉ b_open (takeBack (handOut beforeAll) 0)) /\ b_again (takeBack (handOut beforeAll) 0) = false.
Proof.
  destruct (binding_leaks_no_session patient yielded (takeBack (handOut beforeAll) 0) (yields patient)) as [H1 H2].
  split; [|exact H2]. intros Ho. destruct (H1 0%nat Ho) as (_ & _ & Hu & _).
  - apply not_elem_of_empty.
  - vm_compute in Hu. discriminate.
Defined.

(** After one refused release of three the session is still polled. *)
Lemma refused_session_is_given_up_witness :
  (holding (once patient) = Some 0%nat /\ rs_releaseRefusals (once patient) = 1 /\ 1 <= ReleaseRefusalBound patient) \/
  (givenUp 0 (once patient) /\ 1 <= ReleaseRefusalBound patient + 1).
Proof.
  destruct (failing_poll patient) as [e He]; [vm_compute; discriminate|].
  refine (refused_session_is_given_up patient 0 start (handOut beforeAll) 1 (once patient) refusedOnce _ (starts patient) eq_refl
    eq_refl eq_refl eq_refl (polls_next patient 0 (start, handOut beforeAll) 0 start (handOut beforeAll) (once patient) refusedOnce
      (Some (Failed e)) (polls_none patient 0 (start, handOut beforeAll)) eq_refl He)).
  vm_compute. split; discriminate.
Defined.

(** The count of refused releases survives a yield.  The session opened when the
    node rejoins has never been refused, and yet its first failed poll discards it,
    for the refusals of the session before it. *)
Example resumed_session_inherits_refusals : exists s b, Lives policy (s, b) /\ holding s = Some 1%nat /\
  (1%nat ∉ b_refused b) /\ releaseRefusalsExceeded policy s = true.
Proof.
  destruct (failing_poll policy) as [e He]; [vm_compute; discriminate|].
  eexists _, _. split.
  - eapply lives_step; [eapply lives_step; [exact (alone_lives _ _ _ _ _ _ _ (starts policy) He)|]|].
    + eapply step_suspend with (x := None). cbn. eexists _, None. split; [reflexivity|]. split; reflexivity.
    + eapply step_resume with (x := false). cbn. eexists _, (inr 1%nat). split; [split; reflexivity|]. split; reflexivity.
  - repeat split. cbn. rewrite union_empty_r_L. by intros ?%elem_of_singleton.
Qed.

End Refusing.
