(* ===== verification/Poll.v ===== *)
(** * The client of a scale set (internal/adapters/githubscaleset/scaleset.go)

    One long poll takes at most one message, commits it and then deletes it at
    GitHub, which is its acknowledgement.  The official client behind it is the
    calls it gets; the records of its package carry the fields the source reads. *)

From Stdlib Require Import ZArith Lia String Ascii List.
From stdpp Require Import base tactics list strings pretty gmap.
From S2P Require Import Prelude Domain Store Inbox Projection Bindings Queue QueueSpec Ports Router Broker.
From S2P Require Import Effects.

#[local] Open Scope prog_scope.

(** ** What the official client returns *)

Record JobMessageBase := {
  jm_RunnerRequestID : Z;
  jm_OwnerName : string;
  jm_RepositoryName : string;
  jm_WorkflowRunID : Z;
  jm_JobID : string;
  jm_JobDisplayName : string;
  jm_JobWorkflowRef : string;
  jm_EventName : string;
  jm_RequestLabels : list string;
  jm_QueueTime : Time;
  jm_ScaleSetAssignTime : Time;
  jm_RunnerAssignTime : Time;
  jm_FinishTime : Time
}.

Record JobMessage := { jm_Base : JobMessageBase; jm_RunnerID : Z; jm_RunnerName : string; jm_Result : string }.

Record RunnerScaleSetStatistic := {
  TotalAvailableJobs : Z;
  TotalAcquiredJobs : Z;
  TotalAssignedJobs : Z;
  TotalRunningJobs : Z;
  TotalRegisteredRunners : Z;
  TotalBusyRunners : Z;
  TotalIdleRunners : Z
}.

(** The lists hold pointers, which may be nil. *)
Record RunnerScaleSetMessage := {
  rm_MessageID : Z;
  rm_Statistics : option RunnerScaleSetStatistic;
  rm_JobAvailable : list (option JobMessageBase);
  rm_JobAssigned : list (option JobMessageBase);
  rm_JobStarted : list (option JobMessage);
  rm_JobCompleted : list (option JobMessage)
}.

(** [GetRunnerByName] and [RemoveRunner] may fail with the error that there is no
    such runner, which is [inl true] and [Some true]. *)
Inductive PollCall : Set -> Type :=
  | GetMessage (cursor capacity : Z) : PollCall (Fault + option RunnerScaleSetMessage)
  | DeleteMessage (id : Z) : PollCall (option Fault)
  | AskCapacity : PollCall Z
  | Committing {X : Set} (c : QueueCall X) : PollCall X
  | OfficialAcquire (requests : list Z) : PollCall (Fault + list Z)
  | GenerateJitRunnerConfig (name folder : string) (id : Z) : PollCall (Fault + option string)
  | GetRunnerByName (name : string) : PollCall (bool + option Z)
  | RemoveRunner (id : Z) : PollCall (option bool).

Definition committing {A : Set} (p : Prog QueueCall A) : Prog PollCall A := interp (fun X c => Do (Committing c) Ret) p.

(** ** The events of a message *)

(** The first eight bytes of a SHA-256 sum, as an unsigned number. *)
Class JobSum := jobSum : string -> Z.

Section Events.
Context {J : JobSum}.

Definition NUL : string := String Ascii.zero EmptyString.

Definition preassignedRequestID (v : JobMessageBase) : Z :=
  if bool_decide (jm_OwnerName v = "") || bool_decide (jm_RepositoryName v = "") || (jm_WorkflowRunID v <=? 0)
     || bool_decide (jm_JobID v = "") then 0
  else Z.lor preassignedRequestIDFloor
         (Z.land (jobSum (jm_OwnerName v +:+ NUL +:+ jm_RepositoryName v +:+ NUL +:+ pretty (jm_WorkflowRunID v)
                          +:+ NUL +:+ jm_JobID v)) (preassignedRequestIDFloor - 1)).

Definition firstTime (values : list Time) : Time :=
  match List.filter (fun t => negb (IsZero t)) values with [] => zeroTime | t :: _ => t end.

Definition eventFromBase (kind : DemandEventKind) (v : JobMessageBase) : JobEvent :=
  let queueTime := if IsZero (jm_QueueTime v) then firstTime [jm_ScaleSetAssignTime v; jm_RunnerAssignTime v; jm_FinishTime v]
                   else jm_QueueTime v in
  let given := if (0 <? jm_RunnerRequestID v) && IsPreassignedRequestID (jm_RunnerRequestID v) then 0
               else jm_RunnerRequestID v in
  let derives := (given =? 0) && negb (bool_decide (kind = DemandJobAvailable)) in
  let request := if derives then preassignedRequestID v else given in
  {| je_Kind := if derives && (0 <? request) && bool_decide (kind = DemandJobAssigned) then DemandJobAvailable else kind;
     je_RunnerRequestID := request; je_Owner := jm_OwnerName v; je_Repository := jm_RepositoryName v;
     je_WorkflowRunID := jm_WorkflowRunID v; je_JobID := jm_JobID v; je_DisplayName := jm_JobDisplayName v;
     je_WorkflowRef := jm_JobWorkflowRef v; je_EventName := jm_EventName v; je_Labels := jm_RequestLabels v;
     je_QueueTime := queueTime; je_RunnerID := 0; je_RunnerName := ""; je_Result := "" |}.

Definition withRunner (e : JobEvent) (id : Z) (name result : string) : JobEvent :=
  {| je_Kind := je_Kind e; je_RunnerRequestID := je_RunnerRequestID e; je_Owner := je_Owner e; je_Repository := je_Repository e;
     je_WorkflowRunID := je_WorkflowRunID e; je_JobID := je_JobID e; je_DisplayName := je_DisplayName e;
     je_WorkflowRef := je_WorkflowRef e; je_EventName := je_EventName e; je_Labels := je_Labels e;
     je_QueueTime := je_QueueTime e; je_RunnerID := id; je_RunnerName := name; je_Result := result |}.

Definition appendEvents (m : RunnerScaleSetMessage) : list JobEvent :=
  map (eventFromBase DemandJobAvailable) (omap id (rm_JobAvailable m)) ++
  map (eventFromBase DemandJobAssigned) (omap id (rm_JobAssigned m)) ++
  map (fun v => withRunner (eventFromBase DemandJobStarted (jm_Base v)) (jm_RunnerID v) (jm_RunnerName v) "")
    (omap id (rm_JobStarted m)) ++
  map (fun v => withRunner (eventFromBase DemandJobCompleted (jm_Base v)) (jm_RunnerID v) (jm_RunnerName v) (jm_Result v))
    (omap id (rm_JobCompleted m)).

Definition demandOf (m : RunnerScaleSetMessage) : BrokerMessage :=
  {| bm_MessageID := rm_MessageID m;
     bm_Statistics := match rm_Statistics m with
                      | Some s => {| stat_MessageID := rm_MessageID m; stat_Available := TotalAvailableJobs s;
                                     stat_Acquired := TotalAcquiredJobs s; stat_Assigned := TotalAssignedJobs s;
                                     stat_Running := TotalRunningJobs s; stat_Registered := TotalRegisteredRunners s;
                                     stat_Busy := TotalBusyRunners s; stat_Idle := TotalIdleRunners s;
                                     stat_ObservedAt := zeroTime |}
                      | None => {| stat_MessageID := 0; stat_Available := 0; stat_Acquired := 0; stat_Assigned := 0;
                                   stat_Running := 0; stat_Registered := 0; stat_Busy := 0; stat_Idle := 0;
                                   stat_ObservedAt := zeroTime |}
                      end;
     bm_Events := appendEvents m |}.

(** ** The client *)

(** [cl_advertises] is whether the capacity is asked for on every poll. *)
Record Client := {
  cl_id : Z;
  cl_capacity : Z;
  cl_advertises : bool;
  cl_admin : bool;
  cl_cursor : Z;
  cl_outstanding : bool
}.

Definition NewScaleSet (id capacity initialCursor : Z) (advertises admin : bool) : option Client :=
  if (id <=? 0) || (capacity <? 0) || (initialCursor <? 0) then None
  else Some {| cl_id := id; cl_capacity := capacity; cl_advertises := advertises; cl_admin := admin;
               cl_cursor := initialCursor; cl_outstanding := false |}.

Definition withOutstanding (c : Client) (outstanding : bool) : Client :=
  {| cl_id := cl_id c; cl_capacity := cl_capacity c; cl_advertises := cl_advertises c; cl_admin := cl_admin c;
     cl_cursor := cl_cursor c; cl_outstanding := outstanding |}.

Definition withCursor (c : Client) (cursor : Z) : Client :=
  {| cl_id := cl_id c; cl_capacity := cl_capacity c; cl_advertises := cl_advertises c; cl_admin := cl_admin c;
     cl_cursor := cursor; cl_outstanding := cl_outstanding c |}.

Definition advertisedCapacity (c : Client) : Prog PollCall Z :=
  if cl_advertises c then answer <~ AskCapacity ;; Ret (Z.min (cl_capacity c) (Z.max 0 answer)) else Ret (cl_capacity c).

Definition ErrUnackedMessage : Fault := plainFault.

(** No message, an error, or a message that is now in flight. *)
Definition NextMessage (c : Client) : Prog PollCall (Client * (Fault + option BrokerMessage)) :=
  if cl_outstanding c then Ret (c, inl ErrUnackedMessage)
  else
    capacity <~~ advertisedCapacity c ;;
    answer <~ GetMessage (cl_cursor c) capacity ;;
    match answer with
    | inl err => Ret (c, inl err)
    | inr None => Ret (c, inr None)
    | inr (Some m) => Ret (withOutstanding c true, inr (Some (demandOf m)))
    end.

(** A message in flight; [pm_done] once it was given up or acknowledged. *)
Record PendingMessage := { pm_id : Z; pm_done : bool; pm_err : option Fault }.

Definition Nack (c : Client) (m : PendingMessage) : Client * PendingMessage :=
  if pm_done m then (c, m)
  else (withOutstanding c false, {| pm_id := pm_id m; pm_done := true; pm_err := pm_err m |}).

Definition Ack (c : Client) (m : PendingMessage) : Prog PollCall (Client * PendingMessage) :=
  if pm_done m then Ret (c, m)
  else
    answer <~ DeleteMessage (pm_id m) ;;
    match answer with
    | Some err => Ret (c, {| pm_id := pm_id m; pm_done := false; pm_err := Some err |})
    | None => Ret (withOutstanding (withCursor c (pm_id m)) false, {| pm_id := pm_id m; pm_done := true; pm_err := None |})
    end.

(** The errors of a commit, joined: the only one the callers look for is the
    conflict. *)
Definition storeFault (errors : list StoreError) : Fault :=
  {| f_Session := None; f_API := None; f_Conflict := bool_decide (ErrConflict ∈ errors); f_TokenExpired := false;
     f_HeldText := false; f_Code := None; f_Canceled := false; f_DeadlineExceeded := false; f_OSDeadline := false;
     f_Timeout := false; f_NetTimeout := false; f_HTTP2 := false; f_TLS := false; f_DNS := false; f_Op := false;
     f_ConnRefused := false; f_ConnReset := false; f_EOF := false |}.

(** What follows the commit of a message in flight; the first component of the
    result is whether anything became durable. *)
Definition settle (c : Client) (demand : BrokerMessage) (committed : bool * list StoreError)
    : Prog PollCall (Client * (bool * option Fault)) :=
  let pending := {| pm_id := bm_MessageID demand; pm_done := false; pm_err := None |} in
  match committed with
  | (changed, []) =>
      acked <~~ Ack c pending ;;
      match pm_err (snd acked) with
      | None => Ret (fst acked, (changed, None))
      | Some err => Ret (fst (Nack (fst acked) (snd acked)), (changed, Some err))
      end
  | (changed, errors) => Ret (fst (Nack c pending), (changed, Some (storeFault errors)))
  end.

Definition HandleMessage (c : Client) (commit : BrokerMessage -> Prog QueueCall (bool * list StoreError))
    : Prog PollCall (Client * (bool * option Fault)) :=
  next <~~ NextMessage c ;;
  match next with
  | (c1, inl err) => Ret (c1, (false, Some err))
  | (c1, inr None) => Ret (c1, (false, None))
  | (c1, inr (Some demand)) => committed <~~ committing (commit demand) ;; settle c1 demand committed
  end.

(** One poll of a binding ([DemandCoordinator.IngestOnceResult]). *)
Definition IngestOnceResult (co : DemandCoordinator) (b : Bindings.Binding) (c : Client)
    : Prog PollCall (Client * (bool * option Fault)) :=
  if negb (Bindings.Binding_valid b) then Ret (c, (false, Some (storeFault [ErrInvalid])))
  else HandleMessage c (ingest co b).

End Events.

(** ** Runners and their secrets *)

(** [^[A-Za-z0-9][A-Za-z0-9._-]{0,127}$], the grammar of an instance's name. *)
Definition validScaleSetToken (name : string) : bool := instanceName name.

Record AcquireResult := { Acquired : list Z; Rejected : list Z }.

Definition AcquireJobs (requests : list Z) : Prog PollCall (Fault + AcquireResult) :=
  answer <~ OfficialAcquire requests ;;
  match answer with
  | inl err => Ret (inl err)
  | inr acquired => Ret (inr {| Acquired := acquired; Rejected := List.filter (fun id => bool_decide (id ∉ acquired)) requests |})
  end.

(** An empty configuration is an error of its own. *)
Definition GenerateJIT (c : Client) (name folder : string) : Prog PollCall (Fault + string) :=
  answer <~ GenerateJitRunnerConfig name folder (cl_id c) ;;
  match answer with
  | inl err => Ret (inl err)
  | inr None | inr (Some EmptyString) => Ret (inl plainFault)
  | inr (Some encoded) => Ret (inr encoded)
  end.

Definition ErrJobNotAcquired : Fault := plainFault.

Definition AcquireAndGenerateJIT (c : Client) (request : Z) (name folder : string) : Prog PollCall (Fault + string) :=
  result <~~ AcquireJobs [request] ;;
  match result with
  | inl err => Ret (inl err)
  | inr r => if bool_decide (Acquired r = [request]) then GenerateJIT c name folder else Ret (inl ErrJobNotAcquired)
  end.

Inductive RunnerAdminError := ErrRunnerAdminUnavailable | ErrRunnerLookup | ErrRunnerRemoval.

Definition RunnerRegistered (c : Client) (name : string) : Prog PollCall (RunnerAdminError + bool) :=
  if negb (cl_admin c) || negb (validScaleSetToken name) then Ret (inl ErrRunnerAdminUnavailable)
  else
    answer <~ GetRunnerByName name ;;
    match answer with
    | inl _ => Ret (inl ErrRunnerLookup)
    | inr runner => Ret (inr (bool_decide (runner <> None)))
    end.

Definition RunnerDeregister (c : Client) (name : string) : Prog PollCall (option RunnerAdminError) :=
  if negb (cl_admin c) || negb (validScaleSetToken name) then Ret (Some ErrRunnerAdminUnavailable)
  else
    answer <~ GetRunnerByName name ;;
    match answer with
    | inl true | inr None => Ret None
    | inl false => Ret (Some ErrRunnerLookup)
    | inr (Some id) =>
        removed <~ RemoveRunner id ;;
        match removed with
        | None | Some true => Ret None
        | Some false => Ret (Some ErrRunnerRemoval)
        end
    end.

(** ** What a poll promises

    A message is acknowledged only when all of it is durable, and the reserved
    identifiers are only ever derived here. *)

Section Poll.
Context {J : JobSum}.

(** ** The events of a message *)

(** A derived identifier is in the reserved quarter of the positive integers. *)
Lemma preassignedRequestID_reserved v : 0 < preassignedRequestID v ->
  preassignedRequestIDFloor <= preassignedRequestID v <= maxInt64.
Proof.
  unfold preassignedRequestID. destruct (_ || _); [lia|]. intros _.
  set (x := jobSum _). set (low := Z.land x (preassignedRequestIDFloor - 1)).
  assert (0 <= low < preassignedRequestIDFloor) as Hlow.
  { unfold low. change (preassignedRequestIDFloor - 1) with (Z.ones 62). rewrite Z.land_ones by lia.
    by apply Z.mod_pos_bound. }
  assert (Z.land preassignedRequestIDFloor low = 0) as Hdisjoint.
  { apply Z.bits_inj'. intros n Hn. rewrite Z.land_spec, Z.bits_0. unfold preassignedRequestIDFloor.
    rewrite Z.shiftl_spec by lia. destruct (decide (n = 62)) as [->|Hne].
    - replace (Z.testbit low 62) with false; [apply andb_false_r|]. symmetry. unfold low.
      change (preassignedRequestIDFloor - 1) with (Z.ones 62). 
      rewrite Z.land_spec, (Z.ones_spec_high 62 62) by lia. apply andb_false_r.
    - replace (Z.testbit 1 (n - 62)) with false; [done|]. symmetry. destruct (decide (n < 62)).
      + apply Z.testbit_neg_r. lia.
      + apply Z.bits_above_log2; [done|]. change (Z.log2 1) with 0. lia. }
  rewrite <- Z.add_nocarry_lor by done. unfold maxInt64.
  change preassignedRequestIDFloor with 4611686018427387904 in *. lia.
Qed.

(** An identifier GitHub gives in the reserved space is not believed: an event has
    a reserved identifier exactly when it was derived from the job's identity, and
    then an assignment counts as an offer. *)
Lemma eventFromBase_reserved kind v : let e := eventFromBase kind v in
  (IsPreassignedRequestID (je_RunnerRequestID e) = true <->
     0 < preassignedRequestID v /\ je_RunnerRequestID e = preassignedRequestID v) /\
  (IsPreassignedRequestID (je_RunnerRequestID e) = true -> kind <> DemandJobAvailable /\ je_Kind e <> DemandJobAssigned).
Proof.
  pose proof (preassignedRequestID_reserved v) as Hp. unfold eventFromBase. cbn [je_RunnerRequestID je_Kind].
  set (given := if (0 <? jm_RunnerRequestID v) && IsPreassignedRequestID (jm_RunnerRequestID v) then 0 else jm_RunnerRequestID v).
  assert (IsPreassignedRequestID given = false) as Hg.
  { unfold given. destruct (Z.ltb_spec 0 (jm_RunnerRequestID v)) as [H|H]; simpl.
    - by destruct (IsPreassignedRequestID (jm_RunnerRequestID v)) eqn:E.
    - apply Z.leb_gt. change preassignedRequestIDFloor with 4611686018427387904. lia. }
  unfold IsPreassignedRequestID in *. apply Z.leb_gt in Hg as Hg'. rewrite Z.leb_le.
  assert (0 < preassignedRequestIDFloor) by done.
  destruct ((given =? 0) && negb (bool_decide (kind = DemandJobAvailable))) eqn:Hd; simpl.
  - apply andb_true_iff in Hd as [_ Hk]. apply negb_true_iff, bool_decide_eq_false_1 in Hk. split.
    + split; [intros Hf; split; [lia|done]|intros [Hpos _]; by apply Hp].
    + intros Hf. split; [done|]. rewrite (proj2 (Z.ltb_lt _ _)) by lia. simpl.
      by destruct (bool_decide_reflect (kind = DemandJobAssigned)).
  - split; [|lia]. split; [lia|]. intros [Hpos E]. apply Hp in Hpos. lia.
Qed.

(** ** One poll *)

Variables (co : DemandCoordinator) (b : Binding) (c : Client).

Definition ofMessage (m : RunnerScaleSetMessage) : list DemandEvent := ownEvents b (appendEvents m).

(** Every event of the message is durable: the batch was accepted and each was
    projected without an error. *)
Definition allDurable (h : list (Event PollCall)) (m : RunnerScaleSetMessage) : Prop :=
  (exists batch, In (Ev (Committing (Batch (durableKey b) (rm_MessageID m) (ofMessage m))) (inr batch)) h) /\
  (forall e, In e (ofMessage m) -> In (Ev (Committing (Project (durableKey b) e)) None) h).

Definition received (h : list (Event PollCall)) (m : RunnerScaleSetMessage) : Prop :=
  exists capacity, In (Ev (GetMessage (cl_cursor c) capacity) (inr (Some m))) h.

Definition mayPoll (h : list (Event PollCall)) (ev : Event PollCall) : Prop :=
  match ev with
  | Ev AskCapacity _ => h = []
  | Ev (GetMessage cursor capacity) _ => cursor = cl_cursor c /\ (0 <= cl_capacity c -> 0 <= capacity <= cl_capacity c)
  | Ev (Committing _) _ => exists m, received h m
  | Ev (DeleteMessage id) _ => exists m, received h m /\ id = rm_MessageID m /\ allDurable h m
  | _ => False
  end.

(** A commit made something durable. *)
Definition madeDurable (h : list (Event PollCall)) : Prop :=
  (exists s, In (Ev (Committing (PutStatistics (durableKey b) s)) (inr true)) h) \/
  exists m batch, In (Ev (Committing (Batch (durableKey b) (rm_MessageID m) (ofMessage m))) (inr batch)) h /\ Applied batch = true.

(** The client afterwards: only a deletion GitHub accepted moves the cursor, and
    no message is left in flight. *)
Definition polled (h : list (Event PollCall)) (r : Client * (bool * option Fault)) : Prop :=
  cl_outstanding (fst r) = cl_outstanding c /\
  (fst (snd r) = true -> madeDurable h) /\
  (forall id, In (Ev (DeleteMessage id) None) h -> cl_cursor (fst r) = id /\ snd (snd r) = None) /\
  (cl_cursor (fst r) = cl_cursor c \/ In (Ev (DeleteMessage (cl_cursor (fst r))) None) h) /\
  (snd (snd r) = None -> forall m, received h m -> In (Ev (DeleteMessage (rm_MessageID m)) None) h).

Lemma in_lifted base hE (ev : Event QueueCall) : In ev hE -> In (liftEvent (@Committing) ev) (base ++ map (liftEvent (@Committing)) hE).
Proof. intros Hin. apply in_or_app. right. by apply in_map. Qed.

(** What a commit leaves behind, seen from the poll. *)
Lemma wp_commit base m (post : list (Event PollCall) -> bool * list StoreError -> Prop) : received base m ->
  (forall hE r, ingested b (demandOf m) hE r -> post (base ++ map (liftEvent (@Committing)) hE) r) ->
  wp anyAnswer mayPoll base (committing (ingest co b (demandOf m))) post.
Proof.
  intros Hr Hpost. rewrite <- (app_nil_r base) at 1. change [] with (map (liftEvent (@Committing)) []) at 1.
  eapply wp_mono; [|apply (wp_lift (@Committing) base anyAnswer (mayIngest b (demandOf m)) anyAnswer mayPoll)].
  - intros h' r (hE & -> & Hi). by apply Hpost.
  - done.
  - intros h [X q x] _. simpl. exists m. destruct Hr as [capacity Hin]. exists capacity. apply in_or_app. by left.
  - apply wp_ingest.
Qed.

Lemma durable_lifted base m hE (r : bool * list StoreError) : ingested b (demandOf m) hE r -> snd r = [] ->
  allDurable (base ++ map (liftEvent (@Committing)) hE) m.
Proof.
  intros (_ & _ & Hok) Hr. destruct (Hok Hr) as [[batch Hb] Hp]. split.
  - exists batch. by apply (in_lifted base hE (Ev _ _)) in Hb.
  - intros e He. apply Hp in He. by apply (in_lifted base hE (Ev _ _)) in He.
Qed.

Definition deletionOf (ev : Event PollCall) : option (Z * option Fault) :=
  match ev with Ev (DeleteMessage id) x => Some (id, x) | _ => None end.

Definition receiptOf (ev : Event PollCall) : option RunnerScaleSetMessage :=
  match ev with Ev (GetMessage _ _) (inr (Some m)) => Some m | _ => None end.

Lemma in_omap {A B} (f : A -> option B) l x y : In x l -> f x = Some y -> In y (omap f l).
Proof. intros Hin Hf. apply list_elem_of_In, list_elem_of_omap. exists x. split; [by apply list_elem_of_In|done]. Qed.

Lemma omap_lifted {B} (f : Event PollCall -> option B) hE : (forall (X : Set) (q : QueueCall X) x, f (Ev (Committing q) x) = None) ->
  omap f (map (liftEvent (@Committing)) hE) = [].
Proof. intros Hf. induction hE as [|[X q x] hE IH]; [done|]. simpl. by rewrite Hf. Qed.

Lemma wp_NextMessage : wp anyAnswer mayPoll [] (NextMessage c) (fun h r =>
  omap deletionOf h = [] /\
  match snd r with
  | inr (Some d) => exists m, d = demandOf m /\ fst r = withOutstanding c true /\ cl_outstanding c = false /\ received h m /\
                    omap receiptOf h = [m]
  | _ => fst r = c /\ omap receiptOf h = []
  end).
Proof.
  unfold NextMessage. destruct (cl_outstanding c) eqn:Ho; [done|].
  assert (forall h capacity, (h = [] \/ exists x, h = [Ev AskCapacity x]) -> (0 <= cl_capacity c -> 0 <= capacity <= cl_capacity c) ->
    wp anyAnswer mayPoll h (Do (GetMessage (cl_cursor c) capacity) (fun answer =>
      match answer with
      | inl err => Ret (c, inl err)
      | inr None => Ret (c, inr None)
      | inr (Some m) => Ret (withOutstanding c true, inr (Some (demandOf m)))
      end)) (fun h r => omap deletionOf h = [] /\
  match snd r with
  | inr (Some d) => exists m, d = demandOf m /\ fst r = withOutstanding c true /\ false = false /\ received h m /\
                    omap receiptOf h = [m]
  | _ => fst r = c /\ omap receiptOf h = []
  end)) as Hget.
  { intros h capacity Hh Hcap answer _. split; [done|].
    assert (omap deletionOf h = [] /\ omap receiptOf h = []) as [Hd Hr] by (destruct Hh as [->|[x ->]]; done).
    destruct answer as [err|[m|]]; simpl; rewrite !omap_app, Hd, Hr; try done. split; [done|]. exists m.
    repeat split; try done. exists capacity. apply in_or_app. right. by left. }
  unfold advertisedCapacity. destruct (cl_advertises c); [|apply Hget; [by left|lia]].
  simpl. intros answer _. split; [done|]. apply Hget; [right; by exists answer|lia].
Qed.

Lemma madeDurable_app h h2 : madeDurable h -> madeDurable (h ++ h2).
Proof.
  intros [[s Hs]|(m & batch & Hb & Ha)]; [left; exists s|right; exists m, batch; split; [|done]]; apply in_or_app; by left.
Qed.

Lemma madeDurable_lifted base m hE (r : bool * list StoreError) : ingested b (demandOf m) hE r -> fst r = true ->
  madeDurable (base ++ map (liftEvent (@Committing)) hE).
Proof.
  intros (Hch & _ & _) Hc. destruct (Hch Hc) as [[s Hs]|(batch & Hb & Ha)]; [left; exists s|right; exists m, batch; split; [|done]].
  - by apply (in_lifted base hE (Ev _ _)) in Hs.
  - by apply (in_lifted base hE (Ev _ _)) in Hb.
Qed.

Lemma wp_settle h m committed : cl_outstanding c = false -> received h m -> omap deletionOf h = [] -> omap receiptOf h = [m] ->
  (snd committed = [] -> allDurable h m) -> (fst committed = true -> madeDurable h) ->
  wp anyAnswer mayPoll h (settle (withOutstanding c true) (demandOf m) committed) polled.
Proof.
  intros Ho Hrec Hd Hr Hall Hch. destruct committed as [changed errors]. simpl in Hall, Hch.
  assert (forall id x h2, In (Ev (DeleteMessage id) x) (h ++ h2) -> In (id, x) (omap deletionOf h2)) as Hdel.
  { intros id x h2 Hin. apply (in_omap deletionOf _ _ (id, x)) in Hin; [|done]. by rewrite omap_app, Hd in Hin. }
  destruct errors as [|e errors]; cbn -[app].
  - intros [err|] _; (split; [exists m; split; [done|]; split; [done|by apply Hall]|]).
    + split; [done|]. split; [intros Hc; by apply madeDurable_app, Hch|]. split; [|split; [by left|done]].
      intros id Hin. apply Hdel in Hin as [[= _]|[]].
    + split; [done|]. split; [intros Hc; by apply madeDurable_app, Hch|]. split; [|split].
      * intros id Hin. apply Hdel in Hin as [[= <-]|[]]. done.
      * right. apply in_or_app. right. by left.
      * intros _ m' [capacity Hin]. apply (in_omap receiptOf _ _ m') in Hin; [|done]. rewrite omap_app, Hr in Hin.
        destruct Hin as [<-|[]]. apply in_or_app. right. by left.
  - split; [done|]. split; [done|]. split; [|split; [by left|done]].
    intros id Hin. rewrite <- (app_nil_r h) in Hin. by apply Hdel in Hin.
Qed.

Lemma wp_HandleMessage : wp anyAnswer mayPoll [] (HandleMessage c (ingest co b)) polled.
Proof.
  unfold HandleMessage. apply wp_bind. eapply wp_mono; [|apply wp_NextMessage]. intros h [c1 next] [Hd Hn]. simpl in Hn.
  assert (forall err, omap receiptOf h = [] -> polled h (c, (false, err))) as Hidle.
  { intros err Hr. split; [done|]. split; [done|]. split; [|split; [by left|]].
    - intros id Hin. apply (in_omap deletionOf _ _ (id, None)) in Hin; [|done]. by rewrite Hd in Hin.
    - intros _ m [capacity Hin]. apply (in_omap receiptOf _ _ m) in Hin; [|done]. by rewrite Hr in Hin. }
  destruct next as [err|[d|]]; [destruct Hn as [-> Hr]; by apply Hidle| |destruct Hn as [-> Hr]; by apply Hidle].
  destruct Hn as (m & -> & -> & Ho & Hrec & Hr). apply wp_bind, (wp_commit h m); [done|].
  intros hE r Hi. apply wp_settle; [done| | | | |].
  - destruct Hrec as [capacity Hin]. exists capacity. apply in_or_app. by left.
  - by rewrite omap_app, Hd, omap_lifted.
  - by rewrite omap_app, Hr, omap_lifted.
  - by apply durable_lifted.
  - by eapply madeDurable_lifted.
Qed.

Lemma wp_IngestOnceResult : wp anyAnswer mayPoll [] (IngestOnceResult co b c) polled.
Proof.
  unfold IngestOnceResult. destruct (Binding_valid b); [apply wp_HandleMessage|].
  split; [done|]. split; [done|]. split; [by intros ? []|]. split; [by left|done].
Qed.

End Poll.

(** ** The claim *)

(** C24: A message is acknowledged only when all of it is durable.  One poll asks
    GitHub from its own cursor for no more than the configured capacity.  It deletes
    a message, which is its acknowledgement, only when it received that message in
    the same poll, the store accepted the events of the binding as one batch and
    every one of them was projected.  Only a deletion GitHub accepted moves the
    cursor; without an error no received message is left undeleted; and whatever
    failed, no message stays in flight, so the next poll is not refused. *)
Theorem message_is_acknowledged_after_it_is_durable {J : JobSum} (env : Env PollCall) co b c :
  (forall before ev after, fst (run env [] (IngestOnceResult co b c)) = before ++ ev :: after -> mayPoll b c before ev) /\
  polled b c (fst (run env [] (IngestOnceResult co b c))) (snd (run env [] (IngestOnceResult co b c))).
Proof.
  destruct (wp_run anyAnswer (mayPoll b c) env _ [] 0 _ ltac:(done) (guardedFrom_refl _ []) (wp_IngestOnceResult co b c)) as [Hr Hg].
  split; [|exact Hr]. intros before ev after E. apply (Hg before ev after E). lia.
Qed.
