(* ===== verification/Yield.v ===== *)
(** * Yielding the sessions of a node (internal/daemon/sessionyield.go)

    A node that cannot admit gives up its sessions, so that GitHub offers its jobs
    to others, and takes them again once it can.  [SessionYield_Observe] is the
    decision of one tick, [Yield_Apply] drives every source towards it. *)

From Stdlib Require Import ZArith Lia String List.
From stdpp Require Import base tactics list gmap strings.
From S2P Require Import Domain Tick Prelude Broker Sessions SessionSpec Effects.

#[local] Open Scope prog_scope.

Inductive sessionYieldAction := sessionYieldNone | sessionYieldWithdraw | sessionYieldRejoin.

#[export] Instance sessionYieldAction_eq_dec : EqDecision sessionYieldAction.
Proof. solve_decision. Defined.

Record sessionYieldPolicy := { sy_Enabled : bool; sy_BlockedFor : Duration; sy_HealthyFor : Duration }.

Record sessionYieldFacts := {
  sy_At : Time;
  sy_AdmissionAllowed : bool;
  sy_LiveInstances : Z;
  sy_BusyOperations : Z
}.

Record sessionYieldState := {
  sy_yielded : bool;
  sy_streakSince : Time;
  sy_streakBlocked : bool;
  sy_observed : bool
}.

Definition newSessionYieldState : sessionYieldState :=
  {| sy_yielded := false; sy_streakSince := zeroTime; sy_streakBlocked := false; sy_observed := false |}.

Definition inFlight (facts : sessionYieldFacts) : bool := (0 <? sy_LiveInstances facts) || (0 <? sy_BusyOperations facts).

Definition restarted (s : sessionYieldState) (at_ : Time) : sessionYieldState :=
  {| sy_yielded := sy_yielded s; sy_streakSince := at_; sy_streakBlocked := sy_streakBlocked s; sy_observed := sy_observed s |}.

Definition turned (s : sessionYieldState) (yielded : bool) (at_ : Time) : sessionYieldState :=
  {| sy_yielded := yielded; sy_streakSince := at_; sy_streakBlocked := sy_streakBlocked s; sy_observed := sy_observed s |}.

(** The streak this tick belongs to; a clock that went back starts a new one. *)
Definition streak (s : sessionYieldState) (facts : sessionYieldFacts) : sessionYieldState :=
  let blocked := negb (sy_AdmissionAllowed facts) in
  if negb (sy_observed s) || negb (eqb (sy_streakBlocked s) blocked) || Before (sy_At facts) (sy_streakSince s)
  then {| sy_yielded := sy_yielded s; sy_streakSince := sy_At facts; sy_streakBlocked := blocked; sy_observed := true |}
  else s.

Definition SessionYield_Observe (policy : sessionYieldPolicy) (s : sessionYieldState) (facts : sessionYieldFacts)
    : sessionYieldState * sessionYieldAction :=
  if negb (sy_Enabled policy) then
    if sy_yielded s
    then ({| sy_yielded := false; sy_streakSince := sy_streakSince s; sy_streakBlocked := sy_streakBlocked s;
             sy_observed := false |}, sessionYieldRejoin)
    else (s, sessionYieldNone)
  else
    let blocked := negb (sy_AdmissionAllowed facts) in
    let s := streak s facts in
    let held := TimeSub (sy_At facts) (sy_streakSince s) in
    if sy_yielded s then
      if negb blocked && (sy_HealthyFor policy <=? held)
      then (turned s false (sy_At facts), sessionYieldRejoin)
      else (s, sessionYieldNone)
    else if negb blocked then (s, sessionYieldNone)
    else if inFlight facts then (restarted s (sy_At facts), sessionYieldNone)
    else if sy_BlockedFor policy <=? held then (turned s true (sy_At facts), sessionYieldWithdraw)
    else (s, sessionYieldNone).

(** The facts of a tick ([engineTicker.applySessionYield]); [busy] is the number of
    operations that wait for a retry. *)
Definition yieldFacts (result : TickResult) (busy : Z) : sessionYieldFacts :=
  {| sy_At := tick_At result; sy_AdmissionAllowed := AdmissionAllowed (host_Pressure (tick_Host result));
     sy_LiveInstances := Z.of_nat (length (List.filter Live (tick_Instances result))); sy_BusyOperations := busy |}.

(** ** The controller *)

(** A source and whether the membership ladder excludes its binding. *)
Definition reconciled (yielded excluded : bool) (s : recoveringScaleSetSource) : Prog BrokerCall (recoveringScaleSetSource * bool) :=
  let want := yielded || excluded in
  if eqb (rs_suspended s) want then Ret (s, false)
  else if want then answer <~~ Suspend s ;; Ret (fst answer, bool_decide (snd answer <> None))
  else Resume s.

Fixpoint reconcileEach (yielded : bool) (sources : list (recoveringScaleSetSource * bool)) (failures : Z)
    : Prog BrokerCall (list (recoveringScaleSetSource * bool) * Z) :=
  match sources with
  | [] => Ret ([], failures)
  | (s, excluded) :: rest =>
      answer <~~ reconciled yielded excluded s ;;
      others <~~ reconcileEach yielded rest (if snd answer then add64 failures 1 else failures) ;;
      Ret ((fst answer, excluded) :: fst others, snd others)
  end.

Record YieldOutcome := {
  yo_state : sessionYieldState;
  yo_action : sessionYieldAction;
  yo_sources : list (recoveringScaleSetSource * bool);
  yo_failures : Z
}.

Definition Yield_Apply (policy : sessionYieldPolicy) (state : sessionYieldState)
    (sources : list (recoveringScaleSetSource * bool)) (facts : sessionYieldFacts) : Prog BrokerCall YieldOutcome :=
  let '(state, action) := SessionYield_Observe policy state facts in
  answer <~~ reconcileEach (sy_yielded state) sources 0 ;;
  Ret {| yo_state := state; yo_action := action; yo_sources := fst answer; yo_failures := snd answer |}.

(** How many bindings there are and how many have no session on purpose. *)
Definition Yield_Bindings (sources : list (recoveringScaleSetSource * bool)) : Z * Z :=
  (Z.of_nat (length sources), Z.of_nat (length (List.filter (fun p => rs_suspended (fst p)) sources))).

(** ** When a node yields and rejoins

    A decision is judged against the ticks that led to it. *)

Section Streaks.
Variable policy : sessionYieldPolicy.
Hypothesis enabled : sy_Enabled policy = true.

Fixpoint observeAll (s : sessionYieldState) (ticks : list sessionYieldFacts) : sessionYieldState :=
  match ticks with
  | [] => s
  | facts :: rest => observeAll (fst (SessionYield_Observe policy s facts)) rest
  end.

Lemma observeAll_snoc s ticks facts :
  observeAll s (ticks ++ [facts]) = fst (SessionYield_Observe policy (observeAll s ticks) facts).
Proof. revert s. induction ticks as [|f ticks IH]; intros s; [done|]. apply IH. Qed.

(** The last ticks, from [first] on: admission was refused (or allowed) in all of
    them, none is older than the first, and where it matters nothing was in flight
    after the first. *)
Record Unbroken (blocked idle : bool) (first : sessionYieldFacts) (rest : list sessionYieldFacts) : Prop := {
  un_blocked : Forall (fun f => negb (sy_AdmissionAllowed f) = blocked) (first :: rest);
  un_after : Forall (fun f => sy_At first <= sy_At f) rest;
  un_idle : idle = true -> Forall (fun f => inFlight f = false) rest
}.

Definition streakOf (s : sessionYieldState) (ticks : list sessionYieldFacts) : Prop :=
  sy_observed s = true -> exists before first rest, ticks = before ++ first :: rest /\ sy_At first = sy_streakSince s /\
    Unbroken (sy_streakBlocked s) (sy_streakBlocked s && negb (sy_yielded s)) first rest.

Lemma Unbroken_first blocked idle facts : negb (sy_AdmissionAllowed facts) = blocked -> Unbroken blocked idle facts [].
Proof. intros H. split; by repeat constructor. Qed.

(** A streak that starts with this tick. *)
Lemma streak_starts s ticks facts : sy_observed s = true -> sy_At facts = sy_streakSince s ->
  negb (sy_AdmissionAllowed facts) = sy_streakBlocked s -> streakOf s (ticks ++ [facts]).
Proof. intros _ Ha Hb _. exists ticks, facts, []. split; [done|]. split; [done|]. by apply Unbroken_first. Qed.

(** A streak that goes on. *)
Lemma streak_goes_on s ticks facts : streakOf s ticks -> sy_observed s = true ->
  sy_streakBlocked s = negb (sy_AdmissionAllowed facts) -> sy_streakSince s <= sy_At facts ->
  (sy_streakBlocked s && negb (sy_yielded s) = true -> inFlight facts = false) -> streakOf s (ticks ++ [facts]).
Proof.
  intros Hs Ho Hb Ha Hi _. destruct (Hs Ho) as (before & first & rest & -> & Hf & [H1 H2 H3]).
  exists before, first, (rest ++ [facts]). split; [by rewrite <- app_assoc|]. split; [done|]. split.
  - rewrite app_comm_cons. apply Forall_app. split; [done|]. by repeat constructor.
  - apply Forall_app. split; [done|]. repeat constructor. lia.
  - intros Hc. apply Forall_app. split; [by apply H3|]. repeat constructor. by apply Hi.
Qed.

(** After [streak] the tick belongs to the streak, but for what is in flight. *)
Lemma streak_cases s facts : let s1 := streak s facts in
  sy_observed s1 = true /\ sy_streakBlocked s1 = negb (sy_AdmissionAllowed facts) /\ sy_yielded s1 = sy_yielded s /\
  (sy_streakSince s1 = sy_At facts \/ s1 = s /\ sy_streakSince s <= sy_At facts).
Proof.
  unfold streak. destruct (sy_observed s) eqn:Ho; simpl; [|by repeat split; left].
  destruct (eqb (sy_streakBlocked s) (negb (sy_AdmissionAllowed facts))) eqn:Hb; simpl; [|by repeat split; left].
  apply eqb_prop in Hb. unfold Before. destruct (Z.ltb_spec (sy_At facts) (sy_streakSince s)); [by repeat split; left|].
  repeat split; try done. by right.
Qed.

Lemma streak_of_tick s ticks facts : streakOf s ticks ->
  (negb (sy_AdmissionAllowed facts) && negb (sy_yielded s) = true -> inFlight facts = false) ->
  streakOf (streak s facts) (ticks ++ [facts]).
Proof.
  intros Hs Hi. destruct (streak_cases s facts) as (Ho & Hb & Hy & [Ha|[E Ha]]); [by apply streak_starts|].
  apply streak_goes_on; by rewrite ?E, ?Hb, ?Hy in *.
Qed.

Lemma observe_streak s ticks facts : streakOf s ticks -> streakOf (fst (SessionYield_Observe policy s facts)) (ticks ++ [facts]).
Proof.
  intros Hs. unfold SessionYield_Observe. rewrite enabled. simpl.
  destruct (streak_cases s facts) as (Ho & Hb & Hy & _). rewrite Hy. destruct (sy_yielded s) eqn:Ey.
  - destruct (negb (negb (sy_AdmissionAllowed facts)) && _); [by apply streak_starts|]. apply streak_of_tick; [done|].
    by rewrite Ey, andb_false_r.
  - destruct (sy_AdmissionAllowed facts) eqn:Ea; simpl; [apply streak_of_tick; [done|by rewrite Ea]|].
    destruct (inFlight facts) eqn:Ef; [apply streak_starts; simpl; by rewrite ?Ho, ?Hb, ?Ea|].
    destruct (_ <=? _); [apply streak_starts; simpl; by rewrite ?Ho, ?Hb, ?Ea|]. by apply streak_of_tick.
Qed.

Lemma observeAll_streak ticks : streakOf (observeAll newSessionYieldState ticks) ticks.
Proof.
  induction ticks as [|facts ticks IH] using rev_ind; [done|]. rewrite observeAll_snoc. by apply observe_streak.
Qed.

(** The ticks behind a turn: from [first] to this one, the whole bound long. *)
Definition heldFor (bound : Duration) (blocked idle : bool) (ticks : list sessionYieldFacts) (facts : sessionYieldFacts) : Prop :=
  exists before first rest, ticks ++ [facts] = before ++ first :: rest /\ Unbroken blocked idle first rest /\
    bound <= TimeSub (sy_At facts) (sy_At first).

Lemma turn_was_held ticks facts : let s := observeAll newSessionYieldState ticks in
  (snd (SessionYield_Observe policy s facts) = sessionYieldWithdraw ->
     sy_yielded s = false /\ inFlight facts = false /\ heldFor (sy_BlockedFor policy) true true ticks facts) /\
  (snd (SessionYield_Observe policy s facts) = sessionYieldRejoin ->
     sy_yielded s = true /\ heldFor (sy_HealthyFor policy) false false ticks facts).
Proof.
  intros s. pose proof (observeAll_streak ticks) as Hs. fold s in Hs.
  assert (forall bound, (negb (sy_AdmissionAllowed facts) && negb (sy_yielded s) = true -> inFlight facts = false) ->
    bound <= TimeSub (sy_At facts) (sy_streakSince (streak s facts)) ->
    heldFor bound (negb (sy_AdmissionAllowed facts)) (negb (sy_AdmissionAllowed facts) && negb (sy_yielded s)) ticks facts) as Hheld.
  { intros bound Hi Hle. destruct (streak_cases s facts) as (Ho & Hb & Hy & _).
    destruct (streak_of_tick s ticks facts Hs Hi Ho) as (before & first & rest & E & Ha & Hu).
    exists before, first, rest. rewrite Hb, Hy in Hu. by rewrite Ha. }
  unfold SessionYield_Observe. rewrite enabled. simpl. destruct (streak_cases s facts) as (_ & _ & Hy & _). rewrite Hy.
  destruct (sy_yielded s); simpl.
  - destruct (sy_AdmissionAllowed facts); simpl; [|by split]. destruct (Z.leb_spec (sy_HealthyFor policy) (TimeSub (sy_At facts) (sy_streakSince (streak s facts)))); [|by split].
    split; [done|]. intros _. split; [done|]. by apply Hheld.
  - destruct (sy_AdmissionAllowed facts); simpl; [by split|]. destruct (inFlight facts); simpl; [by split|].
    destruct (Z.leb_spec (sy_BlockedFor policy) (TimeSub (sy_At facts) (sy_streakSince (streak s facts)))); [|by split].
    split; [|done]. intros _. split; [done|]. split; [done|]. by apply Hheld.
Qed.

End Streaks.

Lemma disabled_does_nothing policy ticks : sy_Enabled policy = false ->
  observeAll policy newSessionYieldState ticks = newSessionYieldState.
Proof.
  intros Hd. induction ticks as [|facts ticks IH] using rev_ind; [done|]. rewrite observeAll_snoc, IH.
  unfold SessionYield_Observe. by rewrite Hd.
Qed.

(** What a decision makes of the state. *)
Lemma turned_by policy s facts :
  let '(s', action) := SessionYield_Observe policy s facts in
  match action with
  | sessionYieldWithdraw => sy_yielded s' = true
  | sessionYieldRejoin => sy_yielded s' = false
  | sessionYieldNone => sy_yielded s' = sy_yielded s
  end.
Proof.
  destruct (streak_cases s facts) as (_ & _ & Hy & _). unfold SessionYield_Observe. rewrite Hy.
  destruct (sy_Enabled policy), (sy_yielded s) eqn:Ey; simpl; try done.
  - by destruct (negb _ && _); simpl; rewrite ?Hy.
  - destruct (negb (negb _)); [done|]. destruct (inFlight facts); [done|]. by destruct (_ <=? _); simpl; rewrite ?Hy.
Qed.

(** ** The sources *)

(** A source is where the decision wants it; a closed one stays closed. *)
Definition settledTo (yielded : bool) (p : recoveringScaleSetSource * bool) : Prop :=
  rs_closed (fst p) = true \/ rs_suspended (fst p) = yielded || snd p.

Lemma reconciled_settles yielded excluded s b b' s' failed :
  runsTo b (reconciled yielded excluded s) b' (s', failed) -> failed = false -> settledTo yielded (s', excluded).
Proof.
  unfold reconciled, settledTo. simpl. destruct (eqb (rs_suspended s) (yielded || excluded)) eqn:He.
  { intros [_ [= -> _]] _. right. by apply eqb_prop. }
  apply eqb_false_iff in He. destruct (yielded || excluded).
  - intros (b1 & [s1 answer] & Hs & [_ [= -> ->]])%runsTo_bind Hf. simpl in *. unfold Suspend in Hs.
    destruct (rs_closed s) eqn:Hc; [left; destruct Hs as [_ [= -> _]]; done|].
    destruct (rs_suspended s) eqn:Hu; [done|]. simpl in Hs. right.
    destruct (rs_source s) as [session|]; [|by destruct Hs as [_ [= -> _]]].
    destruct (rs_released s); [by destruct Hs as [_ [= -> _]]|].
    destruct Hs as (b2 & [err|] & _ & [_ [= -> ->]]); done.
  - unfold Resume. destruct (rs_closed s) eqn:Hc; [intros [_ [= -> _]] _; by left|].
    destruct (rs_suspended s); [|done]. intros (b2 & [err|session] & _ & [_ [= -> ->]]) Hf; [done|by right].
Qed.

Lemma reconcileEach_settles yielded sources : forall failures b b' r, 0 <= failures ->
  failures + Z.of_nat (length sources) <= maxInt64 -> runsTo b (reconcileEach yielded sources failures) b' r ->
  failures <= snd r /\ (snd r = failures -> Forall (settledTo yielded) (fst r)).
Proof.
  induction sources as [|[s excluded] sources IH]; intros failures b b' r Hp Hle; cbn [reconcileEach].
  { intros [_ ->]. simpl. split; [lia|]. by constructor. }
  intros (b1 & [s1 failed] & Hs & (b2 & [others total] & Ho & [_ ->])%runsTo_bind)%runsTo_bind. simpl in *.
  assert (failed = true -> add64 failures 1 = failures + 1) as Hadd
    by (intros _; apply add64_exact; unfold int64, minInt64; lia).
  apply IH in Ho as [Hle' Hall]; [|destruct failed; rewrite ?Hadd by done; lia..]. simpl in *.
  destruct failed; [rewrite Hadd in * by done; split; [|intros]; lia|]. split; [done|]. intros E. constructor; [|by apply Hall].
  by eapply reconciled_settles.
Qed.

(** ** The claim *)

(** C31: A node yields only after it was idle and refused work for the whole bound.
    It withdraws on a tick only if from some earlier tick on, that bound ago or
    longer, every tick refused admission and, after the first, none had an instance
    or a retrying operation in flight, this one included; a clock that went back
    counts for nothing.  It rejoins only after admission was allowed without a
    break for the other bound, and otherwise changes nothing.  An application
    without a failure leaves every open binding suspended exactly when the node has
    yielded or the ladder excludes it. *)
Theorem node_yields_only_when_idle policy ticks facts sources b b' out :
  Z.of_nat (length sources) <= maxInt64 ->
  runsTo b (Yield_Apply policy (observeAll policy newSessionYieldState ticks) sources facts) b' out ->
  (yo_action out = sessionYieldWithdraw -> sy_yielded (yo_state out) = true /\ sy_Enabled policy = true /\
     inFlight facts = false /\ heldFor (sy_BlockedFor policy) true true ticks facts) /\
  (yo_action out = sessionYieldRejoin -> sy_yielded (yo_state out) = false /\ sy_Enabled policy = true /\
     heldFor (sy_HealthyFor policy) false false ticks facts) /\
  (yo_action out = sessionYieldNone ->
     sy_yielded (yo_state out) = sy_yielded (observeAll policy newSessionYieldState ticks)) /\
  (yo_failures out = 0 -> Forall (settledTo (sy_yielded (yo_state out))) (yo_sources out)).
Proof.
  intros Hlen. unfold Yield_Apply. destruct (SessionYield_Observe policy (observeAll policy newSessionYieldState ticks) facts)
    as [state action] eqn:Eo.
  intros (b1 & r & Hr & [_ ->])%runsTo_bind. simpl.
  pose proof (turned_by policy (observeAll policy newSessionYieldState ticks) facts) as yielded_of.
  rewrite Eo in yielded_of. simpl in yielded_of.
  assert (sy_Enabled policy = true \/ action = sessionYieldNone) as Hen.
  { destruct (sy_Enabled policy) eqn:He; [by left|right]. rewrite (disabled_does_nothing _ _ He) in Eo.
    unfold SessionYield_Observe in Eo. rewrite He in Eo. by injection Eo as _ <-. }
  apply reconcileEach_settles in Hr as [_ Hall]; [|lia..].
  destruct Hen as [He| ->]; [|by repeat split; try discriminate].
  pose proof (turn_was_held policy He ticks facts) as [Hw Hj]. rewrite Eo in Hw, Hj. simpl in Hw, Hj.
  split; [|split; [|split; [|done]]]; intros ->; [|by destruct (Hj eq_refl)|done].
  destruct (Hw eq_refl) as (_ & Hf & Hh). done.
Qed.

(** ** A node that refused work for ten minutes *)

Module Blocked.

Definition policy : sessionYieldPolicy := {| sy_Enabled := true; sy_BlockedFor := 5 * Minute; sy_HealthyFor := 2 * Minute |}.

Definition tick (at_ : Time) : sessionYieldFacts :=
  {| sy_At := at_; sy_AdmissionAllowed := false; sy_LiveInstances := 0; sy_BusyOperations := 0 |}.

Definition before : sessionYieldState := observeAll policy newSessionYieldState [tick Hour].

Definition withdrawn : YieldOutcome :=
  {| yo_state := turned before true (Hour + 10 * Minute); yo_action := sessionYieldWithdraw;
     yo_sources := [(Refusing.yielded, false)]; yo_failures := 0 |}.

Lemma node_yields_only_when_idle_witness :
  heldFor (5 * Minute) true true [tick Hour] (tick (Hour + 10 * Minute)) /\
  Forall (settledTo true) [(Refusing.yielded, false)].
Proof.
  destruct (node_yields_only_when_idle policy [tick Hour] (tick (Hour + 10 * Minute)) [(Refusing.start, false)]
    (handOut beforeAll) (takeBack (handOut beforeAll) 0) withdrawn) as (Hw & _ & _ & Hall).
  - vm_compute. discriminate.
  - exists (takeBack (handOut beforeAll) 0), None. split; [reflexivity|]. split; reflexivity.
  - split; [apply (Hw eq_refl)|apply (Hall eq_refl)].
Defined.

End Blocked.
