(* ===== verification/Guard.v ===== *)
(** * The guard of the controller's lease (internal/daemon/runtime.go)

    A controller acts only while it holds the lease.  It waits out a lease that was
    left behind, renews its own in time, and surrenders when it can no longer prove
    that it holds it. *)

From Stdlib Require Import ZArith Lia String List.
From stdpp Require Import base tactics list gmap strings.
From S2P Require Import Prelude Store Effects.

#[local] Open Scope prog_scope.

Definition authorityLeaseName : string := "tart-runner-fleet-authority".
Definition authorityLeaseTTL : Duration := 30 * Second.
Definition authorityLeaseRenewInterval : Duration := 10 * Second.
Definition authorityLeaseAcquireWindow : Duration := authorityLeaseTTL * 3 / 2.
Definition authorityLeaseAcquireRetry : Duration := 1 * Second.
Definition authorityLeaseRenewRetry : Duration := 2 * Second.

(** An error of the store by what the guard asks of it: the lease was lost, the
    request was invalid, or neither; and of an acquisition, that it is held. *)
Inductive RenewError := RenewLost | RenewInvalid | RenewIncomplete.
Inductive AcquireError := LeaseHeld | AcquireFailed.

(** [Sleep] is false when the context ends first.  A renewal may take its budget. *)
Inductive GuardCall : Set -> Type :=
  | GuardNow : GuardCall Time
  | Sleep (d : Duration) : GuardCall bool
  | TryAcquire (owner : string) (now : Time) : GuardCall (AcquireError + Lease_)
  | TryRenew (lease : Lease_) (began : Time) (budget : Duration) : GuardCall (RenewError + Lease_).

(** ** Acquiring *)

Inductive AcquireEnd := AcquireStopped | AcquireRefused (e : AcquireError) | AcquireGot (lease : Lease_) | AcquireUnfinished.

(** One turn of the loop for each unit of fuel. *)
Fixpoint acquireLoop (fuel : nat) (owner : string) (deadline : Time) : Prog GuardCall AcquireEnd :=
  match fuel with
  | O => Ret AcquireUnfinished
  | S fuel =>
      now <~ GuardNow ;;
      answer <~ TryAcquire owner now ;;
      match answer with
      | inr lease => Ret (AcquireGot lease)
      | inl AcquireFailed => Ret (AcquireRefused AcquireFailed)
      | inl LeaseHeld =>
          now <~ GuardNow ;;
          if negb (Before now deadline) then Ret (AcquireRefused LeaseHeld)
          else
            fired <~ Sleep authorityLeaseAcquireRetry ;;
            if (fired : bool) then acquireLoop fuel owner deadline else Ret AcquireStopped
      end
  end.

Definition acquireAuthorityLease (fuel : nat) (owner : string) : Prog GuardCall AcquireEnd :=
  now <~ GuardNow ;;
  acquireLoop fuel owner (TimeAdd now authorityLeaseAcquireWindow).

(** ** Renewing *)

Definition nextRenewal (now expiresAt : Time) : Duration :=
  Z.max 0 (TimeSub (TimeAdd expiresAt (sub64 authorityLeaseRenewInterval authorityLeaseTTL)) now).

Definition renewRetryFits (now expiresAt : Time) : bool := Before (TimeAdd now authorityLeaseRenewRetry) expiresAt.

Definition transientRenewFailure (e : RenewError) : bool :=
  match e with RenewIncomplete => true | RenewLost | RenewInvalid => false end.

(** The guard was told to stop, surrendered, or goes on with a lease and a delay. *)
Inductive Turn := Stopped | Surrendered (held : Lease_) (e : RenewError) | GoesOn (held : Lease_) (delay : Duration).

Definition renewTurn (lease : Lease_) (delay : Duration) : Prog GuardCall Turn :=
  fired <~ Sleep delay ;;
  if negb fired then Ret Stopped
  else
    began <~ GuardNow ;;
    let budget := TimeSub (lease_ExpiresAt lease) began in
    if budget <=? 0 then Ret (Surrendered lease RenewLost)
    else
      answer <~ TryRenew lease began budget ;;
      match answer with
      | inr renewed => now <~ GuardNow ;; Ret (GoesOn renewed (nextRenewal now (lease_ExpiresAt renewed)))
      | inl err =>
          if negb (transientRenewFailure err) then Ret (Surrendered lease err)
          else
            now <~ GuardNow ;;
            if negb (renewRetryFits now (lease_ExpiresAt lease)) then Ret (Surrendered lease err)
            else Ret (GoesOn lease authorityLeaseRenewRetry)
      end.

(** [turns] turns of the loop, or as many as it takes to end. *)
Fixpoint renewTurns (turns : nat) (lease : Lease_) (delay : Duration) : Prog GuardCall Turn :=
  match turns with
  | O => Ret (GoesOn lease delay)
  | S turns =>
      turn <~~ renewTurn lease delay ;;
      match turn with
      | GoesOn lease delay => renewTurns turns lease delay
      | ended => Ret ended
      end
  end.

Definition renew (turns : nat) (lease : Lease_) : Prog GuardCall Turn := renewTurns turns lease authorityLeaseRenewInterval.

(** ** What the guard of the lease promises

    Timers and the store may be late, by no more than [late]; everything else about
    the clock and the answers is arbitrary. *)

Abbreviation GuardCalls := (list (Event GuardCall)).

Definition reading (ev : Event GuardCall) : option Time :=
  match ev with Ev GuardNow t => Some t | _ => None end.

Definition renewal (ev : Event GuardCall) : option Lease_ :=
  match ev with Ev (TryRenew _ _ _) (inr renewed) => Some renewed | _ => None end.

Definition lastReading (h : GuardCalls) : option Time := last (omap reading h).

(** The last lease the store granted, from [lease] on. *)
Definition heldAfter (lease : Lease_) (h : GuardCalls) : Lease_ := default lease (last (omap renewal h)).

Section Timely.
Variable late : Duration.

(** By when the clock is read after the last call. *)
Definition dueBy (h : GuardCalls) (t0 t : Time) : Prop :=
  match last h with
  | Some (Ev (Sleep d) true) => t0 + Z.max 0 d <= t <= t0 + Z.max 0 d + late
  | Some (Ev (TryRenew lease began budget) _) => t <= Z.max t0 (began + budget) + late
  | _ => True
  end.

(** The clock does not go back, a timer fires when it is due, an attempt is
    cancelled at its deadline, and a granted renewal is stamped with its
    beginning, as [Store.RenewLease] does. *)
Definition timely (h : GuardCalls) (ev : Event GuardCall) : Prop :=
  match ev with
  | Ev GuardNow t => forall t0, lastReading h = Some t0 -> t0 <= t /\ dueBy h t0 t
  | Ev (TryRenew lease began _) (inr renewed) => exists db db', RenewLease db lease began authorityLeaseTTL = inr (db', renewed)
  | _ => True
  end.

Variable first : Lease_.

(** Only an unexpired lease is renewed, it is the last one granted, and the
    attempt ends with it. *)
Definition mayRenew (h : GuardCalls) (ev : Event GuardCall) : Prop :=
  match ev with
  | Ev (TryRenew lease began budget) _ => lease = heldAfter first h /\ lastReading h = Some began /\
      began < lease_ExpiresAt lease /\ budget = lease_ExpiresAt lease - began
  | Ev (TryAcquire _ _) _ => False
  | _ => True
  end.

(** Before a turn: waking up in time for the lease. *)
Definition ready (h : GuardCalls) (lease : Lease_) (delay : Duration) : Prop :=
  lease = heldAfter first h /\ 0 <= delay /\ exists t, lastReading h = Some t /\
  t + delay <= lease_ExpiresAt lease + late /\ lease_ExpiresAt lease <= t + authorityLeaseTTL.

Definition turned (h : GuardCalls) (r : Turn) : Prop :=
  match r with
  | Stopped => True
  | Surrendered held e => held = heldAfter first h /\ exists t, lastReading h = Some t /\
      t <= lease_ExpiresAt held + 2 * late /\ (e = RenewIncomplete -> lease_ExpiresAt held <= t + authorityLeaseRenewRetry)
  | GoesOn lease delay => ready h lease delay
  end.

Hypothesis lateness : 0 <= late.

Lemma lastReading_snoc h ev : lastReading (h ++ [ev]) = match reading ev with Some t => Some t | None => lastReading h end.
Proof.
  unfold lastReading. rewrite omap_app. simpl. destruct (reading ev); [by rewrite last_snoc|by rewrite app_nil_r].
Qed.

Lemma heldAfter_snoc h ev : heldAfter first (h ++ [ev]) = match renewal ev with Some l => l | None => heldAfter first h end.
Proof.
  unfold heldAfter. rewrite omap_app. simpl. destruct (renewal ev); [by rewrite last_snoc|by rewrite app_nil_r].
Qed.

Lemma RenewLease_expiry db lease now ttl db' renewed :
  RenewLease db lease now ttl = inr (db', renewed) -> lease_ExpiresAt renewed = now + ttl.
Proof.
  unfold RenewLease. destruct (db_leases db !! lease_Name lease) as [row|]; [|done].
  destruct (holdsRow lease row && _); [|done]. by intros [= _ <-].
Qed.

Lemma TimeSub_le t u : TimeSub t u <= Z.max 0 (t - u).
Proof. unfold TimeSub, minInt64, maxInt64. lia. Qed.

Lemma nextRenewal_le now expiresAt :
  now + nextRenewal now expiresAt <= Z.max now (expiresAt + authorityLeaseRenewInterval - authorityLeaseTTL).
Proof.
  unfold nextRenewal. pose proof (TimeSub_le (TimeAdd expiresAt (sub64 authorityLeaseRenewInterval authorityLeaseTTL)) now) as H.
  assert (sub64 authorityLeaseRenewInterval authorityLeaseTTL = authorityLeaseRenewInterval - authorityLeaseTTL) as E by done.
  rewrite E in *. unfold TimeAdd in *. lia.
Qed.

(** What follows an attempt that began in time. *)
Lemma wp_attempt h lease began : lease = heldAfter first h -> lastReading h = Some began -> began < lease_ExpiresAt lease ->
  lease_ExpiresAt lease <= began + authorityLeaseTTL ->
  wp timely mayRenew h (Do (TryRenew lease began (TimeSub (lease_ExpiresAt lease) began)) (fun answer =>
      match answer with
      | inr renewed => Do GuardNow (fun now => Ret (GoesOn renewed (nextRenewal now (lease_ExpiresAt renewed))))
      | inl err =>
          if negb (transientRenewFailure err) then Ret (Surrendered lease err)
          else Do GuardNow (fun now =>
            if negb (renewRetryFits now (lease_ExpiresAt lease)) then Ret (Surrendered lease err)
            else Ret (GoesOn lease authorityLeaseRenewRetry))
      end)) turned.
Proof.
  intros Hl Hr Hlt Hcap. unfold authorityLeaseTTL, Second in Hcap.
  assert (TimeSub (lease_ExpiresAt lease) began = lease_ExpiresAt lease - began) as Hb
    by (apply TimeSub_exact; unfold int64, minInt64, maxInt64; lia). rewrite Hb.
  intros [err|renewed] Hans; (split; [done|]); cbn -[app].
  - destruct (transientRenewFailure err) eqn:Ht; cbn -[app].
    + intros now Hnow. split; [done|]. rewrite lastReading_snoc in Hnow. simpl in Hnow.
      destruct (Hnow began Hr) as [Hge Hdue]. unfold dueBy in Hdue. rewrite last_snoc in Hdue.
      unfold renewRetryFits, Before, TimeAdd.
      destruct (Z.ltb_spec (now + authorityLeaseRenewRetry) (lease_ExpiresAt lease)) as [Hfit|Hfit]; cbn -[app].
      * unfold ready. rewrite !heldAfter_snoc, lastReading_snoc. split; [done|]. split; [done|]. exists now. split; [done|].
        unfold authorityLeaseTTL, Second. lia.
      * unfold turned. rewrite !heldAfter_snoc, lastReading_snoc. split; [done|]. exists now. split; [done|]. split; lia.
    + unfold turned. rewrite heldAfter_snoc, lastReading_snoc. split; [done|]. exists began. split; [done|]. split; [lia|].
      by destruct err.
  - intros now Hnow. split; [done|]. rewrite lastReading_snoc in Hnow. simpl in Hnow.
    destruct (Hnow began Hr) as [Hge Hdue]. unfold dueBy in Hdue. rewrite last_snoc in Hdue.
    destruct Hans as (db & db' & Hexp%RenewLease_expiry). unfold ready. rewrite !heldAfter_snoc, lastReading_snoc.
    split; [done|]. split; [unfold nextRenewal; lia|]. exists now. split; [done|].
    pose proof (nextRenewal_le now (lease_ExpiresAt renewed)) as Hn.
    unfold authorityLeaseTTL, authorityLeaseRenewInterval, Second in *. lia.
Qed.

Lemma wp_renewTurn h lease delay : ready h lease delay -> wp timely mayRenew h (renewTurn lease delay) turned.
Proof.
  intros (Hl & Hd & t & Hr & Hw & Hcap). unfold renewTurn. cbn -[app TimeSub]. intros fired _. split; [done|].
  destruct fired; [|done]. cbn -[app TimeSub]. intros began Hbegan. split; [done|].
  rewrite lastReading_snoc in Hbegan. destruct (Hbegan t Hr) as [Hge Hdue]. unfold dueBy in Hdue. rewrite last_snoc in Hdue.
  destruct (Z.leb_spec (TimeSub (lease_ExpiresAt lease) began) 0) as [Hx|Hx].
  - cbn [wp turned]. rewrite !heldAfter_snoc, lastReading_snoc. split; [done|]. exists began. split; [done|]. split; [lia|done].
  - assert (began < lease_ExpiresAt lease) by (unfold TimeSub, minInt64, maxInt64 in Hx; lia).
    apply wp_attempt; rewrite ?heldAfter_snoc, ?lastReading_snoc; try done. lia.
Qed.

Lemma wp_renewTurns turns : forall h lease delay, ready h lease delay ->
  wp timely mayRenew h (renewTurns turns lease delay) turned.
Proof.
  induction turns as [|turns IH]; intros h lease delay Hr; [done|]. cbn [renewTurns]. apply wp_bind.
  eapply wp_mono; [|by apply wp_renewTurn]. intros h' [|held e|held d] Hp; [done|done|by apply IH].
Qed.

End Timely.

(** ** Acquiring ends *)

(** A timer takes at least its time. *)
Definition patient (h : GuardCalls) (ev : Event GuardCall) : Prop :=
  match ev with
  | Ev GuardNow t => forall t0, lastReading h = Some t0 -> t0 <= t /\
      match last h with Some (Ev (Sleep d) true) => t0 + d <= t | _ => True end
  | _ => True
  end.

(** The next reading is [t] or later. *)
Definition notBefore (h : GuardCalls) (t : Time) : Prop := forall now, patient h (Ev GuardNow now) -> t <= now.

Lemma notBefore_reading h now : notBefore (h ++ [Ev GuardNow now]) now.
Proof. intros now' Hp. unfold patient in Hp. rewrite lastReading_snoc in Hp. by destruct (Hp now eq_refl). Qed.

Lemma wp_acquireLoop owner deadline fuel : forall h t, notBefore h t -> deadline <= t + (Z.of_nat fuel - 1) * Second ->
  (0 < fuel)%nat -> wp patient (fun _ _ => True) h (acquireLoop fuel owner deadline) (fun _ r => r <> AcquireUnfinished).
Proof.
  induction fuel as [|fuel IH]; intros h t Hb Hle Hpos; [lia|]. cbn -[app Z.mul Z.of_nat]. intros now1 H1%Hb. split; [done|].
  intros [[|]|lease] _; (split; [done|]); [|done..]. cbn -[app Z.mul Z.of_nat]. intros now2 H2. split; [done|].
  rewrite lastReading_snoc in H2. cbn [reading] in H2. rewrite lastReading_snoc in H2. destruct (H2 now1 eq_refl) as [H12 _].
  unfold Before. destruct (Z.ltb_spec now2 deadline) as [Hlt|Hge]; [|done]. cbn -[app Z.mul Z.of_nat].
  intros fired _. split; [done|]. destruct fired; [|done].
  apply (IH _ (now2 + authorityLeaseAcquireRetry)).
  - intros now3 H3. unfold patient in H3. rewrite lastReading_snoc in H3. cbn [reading] in H3. rewrite lastReading_snoc in H3.
    destruct (H3 now2 eq_refl) as [_ Hs]. by rewrite last_snoc in Hs.
  - unfold authorityLeaseAcquireRetry, Second in *. lia.
  - unfold Second in *. destruct fuel; lia.
Qed.

(** A controller that waits for a lease gives up or gets it within forty-six
    attempts, one a second of the window and one more. *)
Theorem acquisition_ends env owner : (forall (X : Set) h (c : GuardCall X), patient h (Ev c (env X h c))) ->
  snd (run env [] (acquireAuthorityLease 46 owner)) <> AcquireUnfinished.
Proof.
  intros Hp. apply (wp_run patient (fun _ _ => True) env (acquireAuthorityLease 46 owner) [] 0 (fun _ r => r <> AcquireUnfinished));
    [done|apply (guardedFrom_refl _ [])|].
  intros now _. split; [done|]. eapply wp_acquireLoop; [apply (notBefore_reading [] now)| |lia].
  unfold TimeAdd. change authorityLeaseAcquireWindow with (45 * Second). change (Z.of_nat 46) with 46. lia.
Qed.

(** ** The claim *)

(** C20: A controller surrenders with its lease.  Whatever the store answers, the
    guard renews only the last lease it was granted, only before that lease runs
    out, and for no longer than it lasts.  If timers fire, and attempts end, no more
    than [late] after they are due, the guard knows by the expiry of its lease, and
    twice [late], that it was not renewed: by then it has surrendered, unless it was
    told to stop or holds a newer one.  It keeps a lease through a failed attempt
    only while another attempt fits. *)
Theorem guard_surrenders_with_its_lease late (env : Env GuardCall) lease acquired turns :
  0 <= late -> (forall (X : Set) h (c : GuardCall X), timely late h (Ev c (env X h c))) ->
  lease_ExpiresAt lease = acquired + authorityLeaseTTL ->
  let start := [Ev GuardNow acquired] in
  (forall before ev after, fst (run env start (renew turns lease)) = before ++ ev :: after -> (1 <= length before)%nat ->
     mayRenew lease before ev) /\
  turned late lease (fst (run env start (renew turns lease))) (snd (run env start (renew turns lease))).
Proof.
  intros Hlate Hc He start.
  destruct (wp_run (timely late) (mayRenew lease) env (renew turns lease) start 1 (turned late lease)) as [Hp Hg].
  - done.
  - apply (guardedFrom_refl _ start).
  - apply wp_renewTurns; [done|]. split; [done|]. split; [done|]. exists acquired. split; [done|].
    rewrite He. unfold authorityLeaseRenewInterval, authorityLeaseTTL, Second. lia.
  - split; [|done]. intros before ev after E Hl. by apply (Hg before ev after E).
Qed.

(** ** A store that never answers *)

Module Unanswered.

Definition lease : Lease_ :=
  {| lease_Name := authorityLeaseName; lease_Owner := "node/1"; lease_Token := 1; lease_ExpiresAt := Hour + 30 * Second |}.

(** Timers are exact, and every renewal uses up its budget. *)
Definition env (X : Set) (h : GuardCalls) (c : GuardCall X) : X :=
  match c in GuardCall X return X with
  | GuardNow =>
      let t0 := default Hour (lastReading h) in
      match last h with
      | Some (Ev (Sleep d) true) => t0 + Z.max 0 d
      | Some (Ev (TryRenew _ began budget) _) => Z.max t0 (began + budget)
      | _ => t0
      end
  | Sleep _ => true
  | TryAcquire _ _ => inl AcquireFailed
  | TryRenew _ _ _ => inl RenewIncomplete
  end.

Lemma env_timely (X : Set) h (c : GuardCall X) : timely 0 h (Ev c (env X h c)).
Proof.
  destruct c; try done. intros t0 Hr. unfold dueBy. simpl. rewrite Hr. simpl.
  destruct (last h) as [[Y [| |owner now|l began budget] y]|]; try (split; lia). destruct y; split; lia.
Qed.

(** The guard surrenders at the very instant its lease runs out. *)
Lemma guard_surrenders_with_its_lease_witness :
  snd (run env [Ev GuardNow Hour] (renew 5 lease)) = Surrendered lease RenewIncomplete /\
  lastReading (fst (run env [Ev GuardNow Hour] (renew 5 lease))) = Some (lease_ExpiresAt lease) /\
  turned 0 lease (fst (run env [Ev GuardNow Hour] (renew 5 lease))) (snd (run env [Ev GuardNow Hour] (renew 5 lease))).
Proof.
  split; [vm_compute; reflexivity|]. split; [vm_compute; reflexivity|].
  apply (guard_surrenders_with_its_lease 0 env lease Hour 5); [lia|exact env_timely|reflexivity].
Defined.

End Unanswered.
