(* ===== verification/Provisioning.v ===== *)
(** * Scale sets as objects of GitHub (internal/provision,
    internal/adapters/githubscaleset/provision.go)

    An operator creates the scale sets of a configuration, replaces one that
    stopped being served, and removes one that a moved scope left behind.  The
    administration API is a set of calls at a URL; deleting is the only one that
    destroys anything. *)

From Stdlib Require Import ZArith Lia String Ascii List.
From stdpp Require Import base tactics list gmap strings.
From S2P Require Import Prelude GoStrings Domain Inbox Store Bindings Config Labels Validation ScopeRules.
From S2P Require Import ConfigSpec Effects.

#[local] Open Scope prog_scope.

Record Label := { lb_Name : string; lb_Type : string }.

#[export] Instance Label_eq_dec : EqDecision Label.
Proof. solve_decision. Defined.

(** The fields of the official client's object the source reads. *)
Record RunnerScaleSet := {
  ob_ID : Z;
  ob_Name : string;
  ob_RunnerGroupID : Z;
  ob_Labels : list Label;
  ob_DisableUpdate : bool
}.

Record ScaleSetSpec := { sp_Name : string; sp_RunnerGroup : string; sp_Labels : list string }.

Inductive ScaleSetAction := ScaleSetCreate | ScaleSetReuse | ScaleSetUpdate.

Record ScaleSetPlan := { pl_Action : ScaleSetAction; pl_ID : Z }.

Record ScaleSetStatistics := {
  ss_AvailableJobs : Z;
  ss_AcquiredJobs : Z;
  ss_AssignedJobs : Z;
  ss_RunningJobs : Z;
  ss_RegisteredRunners : Z;
  ss_BusyRunners : Z;
  ss_IdleRunners : Z
}.

Record ScaleSetSummary := { su_ID : Z; su_Name : string; su_Labels : list string; su_Statistics : option ScaleSetStatistics }.

(** An error of package operations, any other error, or a panic. *)
Inductive AdminError := AdminOp (e : StoreError) | AdminOther | AdminPanic.

(** [LoadKey] may fail ([None]) or find no key.  [OpenAt] opens a client for a URL
    and an installation.  An object that does not exist is [inr None]. *)
Inductive AdminCall : Set -> Type :=
  | LoadKey : AdminCall (option bool)
  | OpenAt (url : string) (installation : Z) : AdminCall bool
  | GroupAt (url name : string) : AdminCall (unit + option Z)
  | SetAt (url : string) (group : Z) (name : string) : AdminCall (unit + option RunnerScaleSet)
  | CreateAt (url : string) (desired : RunnerScaleSet) : AdminCall (unit + option RunnerScaleSet)
  | UpdateAt (url : string) (id : Z) (desired : RunnerScaleSet) : AdminCall (unit + option RunnerScaleSet)
  | DeleteAt (url : string) (id : Z) : AdminCall bool
  | ListAt (url group : string) : AdminCall (option (list ScaleSetSummary))
  | StatisticsAt (url : string) (id : Z) : AdminCall (option ScaleSetStatistics).

(** ** The provisioner at one URL *)

(** [slices.Compact]. *)
Fixpoint compacted (l : list string) : list string :=
  match l with
  | a :: (b :: _) as rest => if bool_decide (a = b) then compacted rest else a :: compacted rest
  | _ => l
  end.

Definition systemLabel (name : string) : Label := {| lb_Name := name; lb_Type := "System" |}.

Definition desiredLabels (spec : ScaleSetSpec) : AdminError + list Label :=
  let names := sp_Labels spec ++ [sp_Name spec] in
  if forallb instanceName names then inr (map systemLabel (compacted (sortBy strLess names))) else inl (AdminOp ErrInvalid).

Definition normalizedLabels (labels : list Label) : option (list Label) :=
  if forallb (fun l => (bool_decide (lb_Type l = "") || EqualFold (lb_Type l) "System") && instanceName (lb_Name l)) labels
  then Some (sortBy (fun a b => strLess (lb_Name a) (lb_Name b)) (map (fun l => systemLabel (lb_Name l)) labels))
  else None.

Definition exactScaleSet (actual desired : RunnerScaleSet) : bool :=
  negb ((ob_ID actual <=? 0) || negb (bool_decide (ob_Name actual = ob_Name desired))
        || negb (ob_RunnerGroupID actual =? ob_RunnerGroupID desired)
        || negb (eqb (ob_DisableUpdate actual) (ob_DisableUpdate desired)))
  && match normalizedLabels (ob_Labels actual), normalizedLabels (ob_Labels desired) with
     | Some a, Some d => bool_decide (a = d)
     | _, _ => false
     end.

Definition defaultRunnerGroupID : Z := 1.

Definition desiredSet (spec : ScaleSetSpec) (group : Z) (labels : list Label) : RunnerScaleSet :=
  {| ob_ID := 0; ob_Name := sp_Name spec; ob_RunnerGroupID := group; ob_Labels := labels; ob_DisableUpdate := true |}.

Definition withID (o : RunnerScaleSet) (id : Z) : RunnerScaleSet :=
  {| ob_ID := id; ob_Name := ob_Name o; ob_RunnerGroupID := ob_RunnerGroupID o; ob_Labels := ob_Labels o;
     ob_DisableUpdate := ob_DisableUpdate o |}.

Record inspection := { is_desired : RunnerScaleSet; is_current : option RunnerScaleSet; is_drifted : bool }.

Section Provisioner.
Variables (url : string) (reconcileDrift : bool).

Definition resolveGroup (spec : ScaleSetSpec) : Prog AdminCall (AdminError + Z) :=
  let name := trimmed (sp_RunnerGroup spec) in
  if bool_decide (name = "") || EqualFold name "default" then Ret (inr defaultRunnerGroupID)
  else
    answer <~ GroupAt url name ;;
    match answer with
    | inl _ => Ret (inl AdminOther)
    | inr None => Ret (inl (AdminOp ErrUncertain))
    | inr (Some id) => if id <=? 0 then Ret (inl (AdminOp ErrUncertain)) else Ret (inr id)
    end.

Definition inspect (spec : ScaleSetSpec) : Prog AdminCall (AdminError + inspection) :=
  if negb (instanceName (sp_Name spec)) then Ret (inl (AdminOp ErrInvalid))
  else
    match desiredLabels spec with
    | inl err => Ret (inl err)
    | inr labels =>
        group <~~ resolveGroup spec ;;
        match group with
        | inl err => Ret (inl err)
        | inr group =>
            existing <~ SetAt url group (sp_Name spec) ;;
            let desired := desiredSet spec group labels in
            match existing with
            | inl _ => Ret (inl AdminOther)
            | inr None => Ret (inr {| is_desired := desired; is_current := None; is_drifted := false |})
            | inr (Some current) =>
                if exactScaleSet current desired
                then Ret (inr {| is_desired := desired; is_current := Some current; is_drifted := false |})
                else if reconcileDrift
                then Ret (inr {| is_desired := desired; is_current := Some current; is_drifted := true |})
                else Ret (inl (AdminOp ErrConflict))
            end
        end
    end.

Definition Inspect (spec : ScaleSetSpec) : Prog AdminCall (AdminError + ScaleSetPlan) :=
  answer <~~ inspect spec ;;
  match answer with
  | inl err => Ret (inl err)
  | inr i =>
      match is_current i with
      | Some current =>
          Ret (inr {| pl_Action := if is_drifted i then ScaleSetUpdate else ScaleSetReuse; pl_ID := ob_ID current |})
      | None => Ret (inr {| pl_Action := ScaleSetCreate; pl_ID := 0 |})
      end
  end.

Definition Ensure (spec : ScaleSetSpec) : Prog AdminCall (AdminError + RunnerScaleSet) :=
  answer <~~ inspect spec ;;
  match answer with
  | inl err => Ret (inl err)
  | inr i =>
      match is_current i with
      | Some current =>
          if negb (is_drifted i) then Ret (inr current)
          else
            updated <~ UpdateAt url (ob_ID current) (withID (is_desired i) (ob_ID current)) ;;
            match updated with
            | inl _ => Ret (inl AdminOther)
            | inr None => Ret (inl (AdminOp ErrUncertain))
            | inr (Some updated) =>
                if negb (ob_ID updated =? ob_ID current) then Ret (inl (AdminOp ErrUncertain))
                else if negb (exactScaleSet updated (is_desired i)) then Ret (inl (AdminOp ErrUncertain))
                else Ret (inr updated)
            end
      | None =>
          created <~ CreateAt url (is_desired i) ;;
          match created with
          | inl _ => Ret (inl AdminOther)
          | inr None => Ret (inl (AdminOp ErrUncertain))
          | inr (Some created) =>
              if (ob_ID created <=? 0) || negb (exactScaleSet created (is_desired i)) then Ret (inl (AdminOp ErrUncertain))
              else Ret (inr created)
          end
      end
  end.

Definition DeleteSet (id : Z) : Prog AdminCall (option AdminError) :=
  if id <=? 0 then Ret (Some (AdminOp ErrInvalid))
  else deleted <~ DeleteAt url id ;; Ret (if (deleted : bool) then None else Some AdminOther).

End Provisioner.

(** ** What every request starts with *)

Definition installationOf (c : Config) (scope : GitHubScope) : Z :=
  fold_left (fun id i => if bool_decide (in_Name i = sc_Installation scope) then in_InstallationID i else id)
    (h_Installations (c_GitHub c)) 0.

Definition specOf (c : Config) (scope : GitHubScope) (set : ScaleSet) : ScaleSetSpec :=
  {| sp_Name := s_Name set; sp_RunnerGroup := sc_RunnerGroup scope;
     sp_Labels := LabelSet_Advertise (default noLabels (ProfileLabelSets c !! s_Profile set)) (s_Labels set) |}.

Section Requests.
Context `{NetText}.

(** The configuration is scoped and has authority. *)
Definition admitted (c : Config) : option AdminError :=
  match h_Scopes (c_GitHub c) with
  | [] => Some (AdminOp ErrInvalid)
  | _ => match ValidateAuthority c with
         | Some None => None
         | Some (Some _) => Some (AdminOp ErrInvalid)
         | None => Some AdminPanic
         end
  end.

Definition keyed {A : Set} (k : Prog AdminCall (AdminError + A)) : Prog AdminCall (AdminError + A) :=
  key <~ LoadKey ;;
  match key with
  | None => Ret (inl AdminOther)
  | Some false => Ret (inl (AdminOp ErrInvalid))
  | Some true => k
  end.

(** ** Replacing a set *)

Record Located := { lo_scopeIndex : nat; lo_setIndex : nat; lo_scope : GitHubScope; lo_set : ScaleSet }.

Definition setsOf (entry : nat * GitHubScope) (setName : string) : list Located :=
  omap (fun s : nat * ScaleSet =>
          if bool_decide (s_Name (snd s) = setName)
          then Some {| lo_scopeIndex := fst entry; lo_setIndex := fst s; lo_scope := snd entry; lo_set := snd s |} else None)
    (imap pair (sc_ScaleSets (snd entry))).

Definition located (c : Config) (scopeName setName : string) : list Located :=
  concat (map (fun entry => setsOf entry setName)
    (List.filter (fun entry : nat * GitHubScope => bool_decide (scopeName = "") || bool_decide (sc_Name (snd entry) = scopeName))
       (imap pair (h_Scopes (c_GitHub c))))).

Definition locate (c : Config) (scopeName setName : string) : AdminError + Located :=
  match located c scopeName setName with
  | [] => inl (AdminOp ErrNotFound)
  | [found] => inr found
  | _ => inl (AdminOp ErrConflict)
  end.

Definition withSetID (s : ScaleSet) (id : Z) : ScaleSet :=
  {| s_Profile := s_Profile s; s_Name := s_Name s; s_ID := id; s_MaxCapacity := s_MaxCapacity s; s_Labels := s_Labels s;
     s_SharedLabels := s_SharedLabels s; s_RequiresCapabilities := s_RequiresCapabilities s; s_RequiresTools := s_RequiresTools s |}.

(** [cfg.GitHub.Scopes[i].ScaleSets[j].ID = id], as the scopes afterwards. *)
Definition assignSetID (scopes : list GitHubScope) (i j : nat) (id : Z) : list GitHubScope :=
  alter (fun scope =>
    {| sc_Name := sc_Name scope; sc_Kind := sc_Kind scope; sc_ConfigURL := sc_ConfigURL scope;
       sc_Installation := sc_Installation scope; sc_RunnerGroup := sc_RunnerGroup scope; sc_Targets := sc_Targets scope;
       sc_ScaleSets := alter (fun s => withSetID s id) j (sc_ScaleSets scope) |}) i scopes.

Record RecreateResult := { rr_Scopes : list GitHubScope; rr_Scope : string; rr_Name : string; rr_OldID : Z; rr_NewID : Z }.

Definition installReplacement (c : Config) (l : Located) : Prog AdminCall (AdminError + RecreateResult) :=
  let id := s_ID (lo_set l) in
  created <~~ Ensure (sc_ConfigURL (lo_scope l)) true (specOf c (lo_scope l) (lo_set l)) ;;
  match created with
  | inl err => Ret (inl err)
  | inr created =>
      if (ob_ID created <=? 0) || (ob_ID created =? id) then Ret (inl (AdminOp ErrUncertain))
      else Ret (inr {| rr_Scopes := assignSetID (h_Scopes (c_GitHub c)) (lo_scopeIndex l) (lo_setIndex l) (ob_ID created);
                       rr_Scope := sc_Name (lo_scope l); rr_Name := s_Name (lo_set l); rr_OldID := id;
                       rr_NewID := ob_ID created |})
  end.

(** The set is deleted only while GitHub holds the configured one under its name. *)
Definition replacePlanned (c : Config) (l : Located) (plan : ScaleSetPlan) : Prog AdminCall (AdminError + RecreateResult) :=
  let id := s_ID (lo_set l) in
  deleted <~~ (if pl_ID plan =? id then DeleteSet (sc_ConfigURL (lo_scope l)) id else Ret None) ;;
  match deleted with
  | Some err => Ret (inl err)
  | None => installReplacement c l
  end.

Definition replaceAt (c : Config) (l : Located) : Prog AdminCall (AdminError + RecreateResult) :=
  plan <~~ Inspect (sc_ConfigURL (lo_scope l)) true (specOf c (lo_scope l) (lo_set l)) ;;
  match plan with
  | inl err => Ret (inl err)
  | inr plan => replacePlanned c l plan
  end.

Definition Recreate (c : Config) (scopeName name : string) : Prog AdminCall (AdminError + RecreateResult) :=
  if bool_decide (name = "") then Ret (inl (AdminOp ErrInvalid))
  else
    match admitted c with
    | Some err => Ret (inl err)
    | None =>
        match locate c scopeName name with
        | inl err => Ret (inl err)
        | inr l =>
            if s_ID (lo_set l) <=? 0 then Ret (inl (AdminOp ErrConflict))
            else keyed (
              opened <~ OpenAt (sc_ConfigURL (lo_scope l)) (installationOf c (lo_scope l)) ;;
              if (opened : bool) then replaceAt c l else Ret (inl AdminOther))
        end
    end.

(** ** Removing what a moved scope left behind *)

Definition ScopeURLKey (raw : string) : option string :=
  u ← parseConfigURL raw;
  let parts := pathParts (u_Path u) in
  if (negb (bool_decide (length parts = 1%nat)) && negb (bool_decide (length parts = 2%nat))) || bool_decide ("" ∈ parts)
  then None else Some (scopeURLKey u parts).

Definition ScopeURLIsRepository (key : string) : bool :=
  match parseURL key with Some u => bool_decide (length (pathParts (u_Path u)) = 2%nat) | None => false end.

Fixpoint retiredScope (scopes : list GitHubScope) (scopeName setName : string) : AdminError + (GitHubScope * ScaleSet) :=
  match scopes with
  | [] => inl (AdminOp ErrNotFound)
  | scope :: rest =>
      if negb (bool_decide (sc_Name scope = scopeName)) then retiredScope rest scopeName setName
      else match List.find (fun s => bool_decide (s_Name s = setName) && (0 <? s_ID s)) (sc_ScaleSets scope) with
           | Some set => inr (scope, set)
           | None => inl (AdminOp ErrConflict)
           end
  end.

Definition boundScaleSet (c : Config) (id : Z) : bool :=
  existsb (fun scope => existsb (fun s => s_ID s =? id) (sc_ScaleSets scope)) (h_Scopes (c_GitHub c)).

Definition findScaleSet (url group name : string) : Prog AdminCall (option (option ScaleSetSummary)) :=
  listed <~ ListAt url group ;;
  Ret (match listed with None => None | Some sets => Some (List.find (fun s => bool_decide (su_Name s = name)) sets) end).

(** GitHub counts nothing that the set still holds. *)
Definition drained (s : ScaleSetStatistics) : bool :=
  negb ((0 <? ss_AssignedJobs s) || (0 <? ss_RunningJobs s) || (0 <? ss_BusyRunners s) || (0 <? ss_RegisteredRunners s)).

Definition removeAt (c : Config) (from : string) (old : ScaleSetSummary) : Prog AdminCall (AdminError + Z) :=
  if su_ID old <=? 0 then Ret (inl (AdminOp ErrUncertain))
  else if boundScaleSet c (su_ID old) then Ret (inl (AdminOp ErrConflict))
  else
    stats <~ StatisticsAt from (su_ID old) ;;
    match stats with
    | None => Ret (inl (AdminOp ErrUncertain))
    | Some stats =>
        if negb (drained stats) then Ret (inl (AdminOp ErrConflict))
        else
          deleted <~~ DeleteSet from (su_ID old) ;;
          match deleted with Some err => Ret (inl err) | None => Ret (inr (su_ID old)) end
    end.

Definition retireFrom (c : Config) (from fromKey : string) (scope : GitHubScope) (set : ScaleSet) : Prog AdminCall (AdminError + Z) :=
  current <~ OpenAt (sc_ConfigURL scope) (installationOf c scope) ;;
  if negb current then Ret (inl AdminOther)
  else
    replacement <~~ findScaleSet (sc_ConfigURL scope) (sc_RunnerGroup scope) (s_Name set) ;;
    match replacement with
    | None => Ret (inl AdminOther)
    | Some None => Ret (inl (AdminOp ErrConflict))
    | Some (Some replacement) =>
        if negb (su_ID replacement =? s_ID set) then Ret (inl (AdminOp ErrConflict))
        else
          client <~ OpenAt from (installationOf c scope) ;;
          if negb client then Ret (inl AdminOther)
          else
            old <~~ findScaleSet from (if ScopeURLIsRepository fromKey then "" else sc_RunnerGroup scope) (s_Name set) ;;
            match old with
            | None => Ret (inl AdminOther)
            | Some None => Ret (inl (AdminOp ErrNotFound))
            | Some (Some old) => removeAt c from old
            end
    end.

Definition Retire (c : Config) (scopeName name from : string) : Prog AdminCall (AdminError + Z) :=
  if bool_decide (name = "") || bool_decide (scopeName = "") then Ret (inl (AdminOp ErrInvalid))
  else
    match admitted c with
    | Some err => Ret (inl err)
    | None =>
        match ScopeURLKey from with
        | None => Ret (inl (AdminOp ErrInvalid))
        | Some fromKey =>
            match retiredScope (h_Scopes (c_GitHub c)) scopeName name with
            | inl err => Ret (inl err)
            | inr (scope, set) =>
                if existsb (fun configured => bool_decide (default "" (ScopeURLKey (sc_ConfigURL configured)) = fromKey))
                     (h_Scopes (c_GitHub c))
                then Ret (inl (AdminOp ErrConflict))
                else keyed (retireFrom c from fromKey scope set)
            end
        end
    end.

(** ** Provisioning a configuration *)

Record planned := { pn_scopeIndex : nat; pn_setIndex : nat; pn_url : string; pn_spec : ScaleSetSpec; pn_plan : ScaleSetPlan }.

Section Provision.
Variables (c : Config) (reconcileDrift : bool).

(** A configured identifier must be the one GitHub reports. *)
Definition differs (set : ScaleSet) (plan : ScaleSetPlan) : bool :=
  (0 <? s_ID set) && (0 <? pl_ID plan) && negb (s_ID set =? pl_ID plan).

Fixpoint planSets (index : nat) (scope : GitHubScope) (sets : list (nat * ScaleSet)) : Prog AdminCall (AdminError + list planned) :=
  match sets with
  | [] => Ret (inr [])
  | (j, set) :: rest =>
      let spec := specOf c scope set in
      plan <~~ Inspect (sc_ConfigURL scope) reconcileDrift spec ;;
      match plan with
      | inl err => Ret (inl err)
      | inr plan =>
          if differs set plan then Ret (inl (AdminOp ErrConflict))
          else
            others <~~ planSets index scope rest ;;
            match others with
            | inl err => Ret (inl err)
            | inr others => Ret (inr ({| pn_scopeIndex := index; pn_setIndex := j; pn_url := sc_ConfigURL scope; pn_spec := spec;
                                         pn_plan := plan |} :: others))
            end
      end
  end.

Fixpoint planScopes (scopes : list (nat * GitHubScope)) : Prog AdminCall (AdminError + list planned) :=
  match scopes with
  | [] => Ret (inr [])
  | (i, scope) :: rest =>
      opened <~ OpenAt (sc_ConfigURL scope) (installationOf c scope) ;;
      if negb opened then Ret (inl AdminOther)
      else
        plans <~~ planSets i scope (sortBy (fun a b => strLess (s_Name (snd a)) (s_Name (snd b))) (imap pair (sc_ScaleSets scope))) ;;
        match plans with
        | inl err => Ret (inl err)
        | inr plans =>
            others <~~ planScopes rest ;;
            match others with inl err => Ret (inl err) | inr others => Ret (inr (plans ++ others)) end
        end
  end.

Definition identify (item : planned) : Prog AdminCall (AdminError + Z) :=
  match pl_Action (pn_plan item) with
  | ScaleSetReuse => Ret (inr (pl_ID (pn_plan item)))
  | ScaleSetCreate | ScaleSetUpdate =>
      created <~~ Ensure (pn_url item) reconcileDrift (pn_spec item) ;;
      match created with inl err => Ret (inl err) | inr created => Ret (inr (ob_ID created)) end
  end.

(** The scopes with the identifiers so far, and the error that stopped it. *)
Fixpoint applyPlans (scopes : list GitHubScope) (plans : list planned) : Prog AdminCall (list GitHubScope * option AdminError) :=
  match plans with
  | [] => Ret (scopes, None)
  | item :: rest =>
      id <~~ identify item ;;
      match id with
      | inl err => Ret (scopes, Some err)
      | inr id =>
          if id <=? 0 then Ret (scopes, Some (AdminOp ErrUncertain))
          else applyPlans (assignSetID scopes (pn_scopeIndex item) (pn_setIndex item) id) rest
      end
  end.

Definition Provision_Run (apply : bool) : Prog AdminCall (list GitHubScope * option AdminError) :=
  let scopes := h_Scopes (c_GitHub c) in
  match admitted c with
  | Some err => Ret ([], Some err)
  | None =>
      plans <~~ keyed (planScopes (sortBy (fun a b => strLess (sc_Name (snd a)) (sc_Name (snd b))) (imap pair scopes))) ;;
      match plans with
      | inl err => Ret ([], Some err)
      | inr plans => if negb apply then Ret (scopes, None) else applyPlans scopes plans
      end
  end.

End Provision.

End Requests.

(** ** What the operator's tools may do to GitHub

    A retirement deletes only what nobody needs, and a recreation can be
    interrupted anywhere and started again. *)

(** ** Retiring *)

Section Retiring.
Context `{NetText}.
Variables (c : Config) (scopeName name from : string).

Abbreviation AdminCalls := (list (Event AdminCall)).

Definition deletionAt (ev : Event AdminCall) : option bool :=
  match ev with Ev (DeleteAt _ _) deleted => Some deleted | _ => None end.

(** [url] was seen to hold the set [name] as [id]. *)
Definition listed (h : AdminCalls) (url name : string) (id : Z) : Prop :=
  exists group sets set, In (Ev (ListAt url group) (Some sets)) h /\ In set sets /\ su_Name set = name /\ su_ID set = id.

(** Only a set left at the former URL is deleted, once its successor was seen at
    the URL of its scope, no scope binds it or lives at that URL, and GitHub counts
    nothing it still holds. *)
Definition mayRetire (h : AdminCalls) (ev : Event AdminCall) : Prop :=
  match ev with
  | Ev (DeleteAt url id) _ =>
      url = from /\ 0 < id /\ boundScaleSet c id = false /\ omap deletionAt h = [] /\
      (forall scope, In scope (h_Scopes (c_GitHub c)) -> ScopeURLKey (sc_ConfigURL scope) <> ScopeURLKey from) /\
      (exists scope set, retiredScope (h_Scopes (c_GitHub c)) scopeName name = inr (scope, set) /\
         listed h (sc_ConfigURL scope) (s_Name set) (s_ID set) /\ listed h from (s_Name set) id) /\
      exists stats, In (Ev (StatisticsAt from id) (Some stats)) h /\ drained stats = true
  | Ev (CreateAt _ _) _ | Ev (UpdateAt _ _ _) _ | Ev (SetAt _ _ _) _ | Ev (GroupAt _ _) _ => False
  | _ => True
  end.

(** The set is reported as removed exactly when GitHub deleted it. *)
Definition retired (h : AdminCalls) (r : AdminError + Z) : Prop :=
  match r with
  | inr id => In (Ev (DeleteAt from id) true) h
  | inl _ => omap deletionAt h = [] \/ omap deletionAt h = [false]
  end.

Lemma wp_findScaleSet h url group set post :
  (forall h', omap deletionAt h' = omap deletionAt h -> incl h h' -> post h' None) ->
  (forall h', omap deletionAt h' = omap deletionAt h -> incl h h' -> post h' (Some None)) ->
  (forall h' found, omap deletionAt h' = omap deletionAt h -> incl h h' -> listed h' url set (su_ID found) ->
     post h' (Some (Some found))) ->
  wp anyAnswer mayRetire h (findScaleSet url group set) post.
Proof.
  intros H1 H2 H3 answer _. split; [done|]. cbn -[app].
  assert (omap deletionAt (h ++ [Ev (ListAt url group) answer]) = omap deletionAt h) as Ho by (rewrite omap_app; apply app_nil_r).
  assert (incl h (h ++ [Ev (ListAt url group) answer])) as Hi by apply incl_appl, incl_refl.
  destruct answer as [sets|]; [|by apply H1].
  destruct (List.find (fun s => bool_decide (su_Name s = set)) sets) as [found|] eqn:E; [|by apply H2]. apply H3; [done..|].
  apply List.find_some in E as [Hin Hn%bool_decide_eq_true_1]. exists group, sets, found.
  split; [apply in_or_app; right; by left|done].
Qed.

Lemma listed_incl h h' url set id : incl h h' -> listed h url set id -> listed h' url set id.
Proof. intros Hi (group & sets & x & Hin & Hr). exists group, sets, x. split; [by apply Hi|done]. Qed.

Lemma wp_removeAt h scope set old :
  (forall scope, In scope (h_Scopes (c_GitHub c)) -> ScopeURLKey (sc_ConfigURL scope) <> ScopeURLKey from) ->
  retiredScope (h_Scopes (c_GitHub c)) scopeName name = inr (scope, set) ->
  listed h (sc_ConfigURL scope) (s_Name set) (s_ID set) -> listed h from (s_Name set) (su_ID old) -> omap deletionAt h = [] ->
  wp anyAnswer mayRetire h (removeAt c from old) retired.
Proof.
  intros Hk Hs Hl1 Hl2 Hd. unfold removeAt. destruct (Z.leb_spec (su_ID old) 0) as [Hle|Hpos]; [by left|].
  destruct (boundScaleSet c (su_ID old)) eqn:Hb; [by left|]. intros stats _. split; [done|].
  set (h1 := h ++ [Ev (StatisticsAt from (su_ID old)) stats]).
  assert (omap deletionAt h1 = []) as Hd1 by (unfold h1; by rewrite omap_app, Hd).
  destruct stats as [stats|]; [|by left]. destruct (drained stats) eqn:Hdr; [|by left].
  unfold DeleteSet. rewrite (proj2 (Z.leb_gt _ _)) by done. cbn -[app h1]. intros deleted _. split.
  - split; [done|]. split; [done|]. split; [done|]. split; [done|]. split; [done|]. split.
    + exists scope, set. split; [done|]. split; eapply listed_incl; eauto; by apply incl_appl, incl_refl.
    + exists stats. split; [apply in_or_app; right; by left|done].
  - destruct deleted; cbn -[app h1]; [apply in_or_app; right; by left|]. right. by rewrite omap_app, Hd1.
Qed.

Lemma wp_Retire : wp anyAnswer mayRetire [] (Retire c scopeName name from) retired.
Proof.
  unfold Retire. destruct (bool_decide (name = "") || bool_decide (scopeName = "")); [by left|].
  destruct (admitted c); [by left|]. destruct (ScopeURLKey from) as [fromKey|] eqn:Ef; [|by left].
  destruct (retiredScope (h_Scopes (c_GitHub c)) scopeName name) as [err|[scope set]] eqn:Es; [by left|].
  destruct (existsb _ (h_Scopes (c_GitHub c))) eqn:Ek; [by left|].
  assert (forall scope, In scope (h_Scopes (c_GitHub c)) -> ScopeURLKey (sc_ConfigURL scope) <> ScopeURLKey from) as Hk.
  { intros x Hx E. rewrite Ef in E. apply not_true_iff_false in Ek. apply Ek, existsb_exists. exists x. split; [done|].
    apply bool_decide_eq_true_2. by rewrite E. }
  intros key _. split; [done|]. destruct key as [[|]|]; [|by left..]. unfold retireFrom. intros current _. split; [done|].
  destruct current; [|by left]. apply wp_bind, wp_findScaleSet; [by left|by left|].
  intros h1 replacement Hd1 Hi1 Hl1. destruct (Z.eqb_spec (su_ID replacement) (s_ID set)) as [Eid|_]; [|by left].
  intros client _. split; [done|]. set (h2 := h1 ++ _). assert (omap deletionAt h2 = []) as Hd2 by (unfold h2; by rewrite omap_app, Hd1).
  destruct client; [|by left]. apply wp_bind, wp_findScaleSet; [left; congruence..|].
  intros h3 old Hd3 Hi3 Hl3. apply (wp_removeAt h3 scope set); [done|done| |done|congruence].
  rewrite <- Eid. eapply listed_incl; [|exact Hl1]. intros x Hx. apply Hi3, in_or_app. by left.
Qed.

End Retiring.

(** ** GitHub, as far as scale sets go *)

(** The sets at one URL by identifier, the next identifier, the runner groups. *)
Record Hub := { hb_sets : gmap Z RunnerScaleSet; hb_next : Z; hb_groups : gmap string Z }.

Definition added (w : Hub) (desired : RunnerScaleSet) : Hub :=
  {| hb_sets := <[hb_next w := withID desired (hb_next w)]> (hb_sets w); hb_next := hb_next w + 1; hb_groups := hb_groups w |}.

Definition removed (w : Hub) (id : Z) : Hub :=
  {| hb_sets := delete id (hb_sets w); hb_next := hb_next w; hb_groups := hb_groups w |}.

(** The set [name] of the group [group] is the object [o]. *)
Definition holds (w : Hub) (group : Z) (name : string) (o : RunnerScaleSet) : Prop :=
  hb_sets w !! ob_ID o = Some o /\ ob_RunnerGroupID o = group /\ ob_Name o = name.

(** Every call may fail, and a call that changes GitHub may fail after it did.  A
    second set of the same name in a group is refused, and labels stay what they
    were at creation. *)
Definition hubStep {X : Set} (w : Hub) (call : AdminCall X) : Hub -> X -> Prop :=
  match call in AdminCall X return Hub -> X -> Prop with
  | GroupAt _ name => fun w' x => w' = w /\ match x with inl _ => True | inr found => found = hb_groups w !! name end
  | SetAt _ group name => fun w' x => w' = w /\
      match x with
      | inl _ => True
      | inr (Some o) => holds w group name o
      | inr None => forall o, ~ holds w group name o
      end
  | CreateAt _ desired => fun w' x =>
      match x with
      | inl _ => w' = w \/ w' = added w desired /\ forall o, ~ holds w (ob_RunnerGroupID desired) (ob_Name desired) o
      | inr found => w' = added w desired /\ found = Some (withID desired (hb_next w)) /\
          forall o, ~ holds w (ob_RunnerGroupID desired) (ob_Name desired) o
      end
  | UpdateAt _ id _ => fun w' x => w' = w /\ match x with inl _ => True | inr found => found = hb_sets w !! id end
  | DeleteAt _ id => fun w' deleted => w' = removed w id \/ deleted = false /\ w' = w
  | _ => fun w' _ => w' = w
  end.

Section Resuming.
Variable inv : Hub -> Prop.

(** [inv] holds before every call of every run and at its end, and [post] at the end. *)
Fixpoint safely {A : Set} (w : Hub) (p : Prog AdminCall A) (post : Hub -> A -> Prop) : Prop :=
  inv w /\ match p with
           | Ret a => post w a
           | Do call k => forall w1 x, hubStep w call w1 x -> safely w1 (k x) post
           end.

Lemma safely_bind {A B : Set} (p : Prog AdminCall A) (f : A -> Prog AdminCall B) post : forall w,
  safely w p (fun w' a => safely w' (f a) post) -> safely w (bindProg p f) post.
Proof.
  induction p as [a|X call k IH]; intros w; simpl; [by intros [_ ?]|]. intros [Hi Hk]. split; [done|].
  intros w1 x Hs. apply IH. by apply Hk.
Qed.

Lemma safely_mono {A : Set} (p : Prog AdminCall A) (post post' : Hub -> A -> Prop) : forall w,
  (forall w' a, inv w' -> post w' a -> post' w' a) -> safely w p post -> safely w p post'.
Proof.
  induction p as [a|X call k IH]; intros w Hp; simpl; intros [Hi Hk]; (split; [done|]); [by apply Hp|].
  intros w1 x Hs. apply IH; [done|]. by apply Hk.
Qed.

End Resuming.

(** What GitHub is after a run, and after a run that was interrupted. *)
Fixpoint endsIn {A : Set} (w : Hub) (p : Prog AdminCall A) (w' : Hub) (a : A) : Prop :=
  match p with
  | Ret x => w' = w /\ a = x
  | Do call k => exists w1 x, hubStep w call w1 x /\ endsIn w1 (k x) w' a
  end.

Fixpoint interrupted {A : Set} (w : Hub) (p : Prog AdminCall A) (w' : Hub) : Prop :=
  w' = w \/ match p with Ret _ => False | Do call k => exists w1 x, hubStep w call w1 x /\ interrupted w1 (k x) w' end.

Lemma interrupted_here {A : Set} w (p : Prog AdminCall A) : interrupted w p w.
Proof. destruct p; by left. Qed.

Lemma safely_interrupted inv {A : Set} (p : Prog AdminCall A) post : forall w w', safely inv w p post -> interrupted w p w' -> inv w'.
Proof.
  induction p as [a|X call k IH]; intros w w' [Hi Hk]; simpl; [by intros [->|[]]|].
  intros [->|(w1 & x & Hs & Hr)]; [done|]. by apply (IH x w1 w'); [apply Hk|].
Qed.

Lemma safely_ends inv {A : Set} (p : Prog AdminCall A) post : forall w w' a, safely inv w p post -> endsIn w p w' a -> post w' a.
Proof.
  induction p as [x|X call k IH]; intros w w' a [Hi Hk]; simpl; [by intros [-> ->]|].
  intros (w1 & x & Hs & Hr). by apply (IH x w1 w' a); [apply Hk|].
Qed.

Lemma endsIn_interrupted {A : Set} (p : Prog AdminCall A) : forall w w' a, endsIn w p w' a -> interrupted w p w'.
Proof.
  induction p as [x|X call k IH]; intros w w' a; simpl; [intros [-> _]; by left|].
  intros (w1 & x & Hs & Hr). right. exists w1, x. split; [done|]. by eapply IH.
Qed.

Lemma endsIn_bind {A B : Set} (p : Prog AdminCall A) (f : A -> Prog AdminCall B) w w1 w2 a b :
  endsIn w p w1 a -> endsIn w1 (f a) w2 b -> endsIn w (bindProg p f) w2 b.
Proof.
  revert w. induction p as [x|X call k IH]; intros w; simpl; [by intros [-> ->]|].
  intros (w' & x & Hs & Hr) Hf. exists w', x. split; [done|]. by apply IH.
Qed.

(** ** Labels *)

Lemma compacted_incl l : incl (compacted l) l.
Proof.
  induction l as [|a [|b l] IH]; try apply incl_refl. cbn [compacted].
  destruct (bool_decide (a = b)); [by apply incl_tl|]. apply incl_cons; [by left|by apply incl_tl].
Qed.

Lemma desiredLabels_normalized spec labels : desiredLabels spec = inr labels -> exists l, normalizedLabels labels = Some l.
Proof.
  unfold desiredLabels. destruct (forallb instanceName (sp_Labels spec ++ [sp_Name spec])) eqn:Hall; [|done].
  intros [= <-]. unfold normalizedLabels. destruct (forallb _ (map systemLabel _)) eqn:E; [by eexists|].
  apply not_true_iff_false in E. destruct E. apply forallb_forall. intros x (n & <- & Hin)%in_map_iff. simpl. rewrite forallb_forall in Hall. apply Hall.
  by apply compacted_incl, sortBy_in in Hin.
Qed.

(** A new object is what was asked for. *)
Lemma withID_exact spec group labels id : desiredLabels spec = inr labels -> 0 < id ->
  exactScaleSet (withID (desiredSet spec group labels) id) (desiredSet spec group labels) = true.
Proof.
  intros (l & Hl)%desiredLabels_normalized Hid. unfold exactScaleSet. cbn [ob_Labels withID desiredSet]. rewrite Hl.
  cbn [ob_ID ob_Name ob_RunnerGroupID ob_DisableUpdate withID desiredSet].
  rewrite (proj2 (Z.leb_gt id 0)), Z.eqb_refl, !bool_decide_eq_true_2 by done. done.
Qed.

(** ** Recreating *)

Section Recreating.
Context `{NetText}.
Variables (c : Config) (l : Located) (group : Z) (labels : list Label).

Abbreviation theSpec := (specOf c (lo_scope l) (lo_set l)).
Abbreviation theName := (s_Name (lo_set l)).
Abbreviation theURL := (sc_ConfigURL (lo_scope l)).
Abbreviation old := (s_ID (lo_set l)).
Abbreviation desired := (desiredSet theSpec group labels).

Hypothesis valid : desiredLabels theSpec = inr labels.
Hypothesis configured : 0 < old.

(** The runner group of the scope, as GitHub resolves it. *)
Definition resolves (w : Hub) : Prop :=
  let name := trimmed (sc_RunnerGroup (lo_scope l)) in
  if bool_decide (name = "") || EqualFold name "default" then group = defaultRunnerGroupID
  else hb_groups w !! name = Some group /\ 0 < group.

(** Identifiers are never reused, a group has one set of a name, and a set of this
    name other than the configured one is the replacement. *)
Record Sound (w : Hub) : Prop := {
  so_groups : resolves w;
  so_ids : forall id o, hb_sets w !! id = Some o -> ob_ID o = id /\ 0 < id < hb_next w;
  so_old : old < hb_next w;
  so_one : forall o1 o2, holds w group theName o1 -> holds w group theName o2 -> o1 = o2;
  so_exact : forall o, holds w group theName o -> ob_ID o <> old -> exactScaleSet o desired = true
}.

(** Nothing but the configured set is touched. *)
Definition kept (w0 w : Hub) : Prop := forall id o, id <> old -> hb_sets w0 !! id = Some o -> hb_sets w !! id = Some o.

Lemma removed_sound w : Sound w -> Sound (removed w old).
Proof.
  intros [H1 H2 H3 H4 H5]. assert (forall o, holds (removed w old) group theName o -> holds w group theName o) as Hh.
  { intros o [Ho Hr]. split; [|done]. simpl in Ho. by apply lookup_delete_Some in Ho as [_ Ho]. }
  split; [done| |done|by eauto|by eauto]. intros id o Ho. simpl in *. apply lookup_delete_Some in Ho as [_ Ho]. by apply H2.
Qed.

Lemma removed_kept w0 w : kept w0 w -> kept w0 (removed w old).
Proof. intros Hk id o Hne Ho. simpl. rewrite lookup_delete_ne by done. by apply Hk. Qed.

(** Only the one set could bear the name. *)
Lemma removed_none w o : Sound w -> holds w group theName o -> ob_ID o = old -> forall o', ~ holds (removed w old) group theName o'.
Proof.
  intros Hs Ho Hid o' [Ho' Hr]. simpl in Ho'. apply lookup_delete_Some in Ho' as [Hne Ho'].
  apply Hne. rewrite <- Hid. f_equal. by apply (so_one w Hs o o').
Qed.

Lemma added_sound w : Sound w -> (forall o, ~ holds w group theName o) -> Sound (added w desired).
Proof.
  intros [H1 H2 H3 H4 H5] Hn.
  assert (forall o, holds (added w desired) group theName o -> o = withID desired (hb_next w)) as Hh.
  { intros o [Ho Hr]. simpl in Ho. destruct (decide (ob_ID o = hb_next w)) as [E|E].
    - rewrite E, lookup_insert_eq in Ho. congruence.
    - rewrite lookup_insert_ne in Ho by done. by destruct (Hn o). }
  split; [done| |simpl; lia| |].
  - intros id o Ho. simpl in *. destruct (decide (id = hb_next w)) as [->|E].
    + rewrite lookup_insert_eq in Ho. injection Ho as <-. simpl. lia.
    + rewrite lookup_insert_ne in Ho by done. apply H2 in Ho as [? ?]. lia.
  - intros o1 o2 ->%Hh ->%Hh. done.
  - intros o ->%Hh _. apply withID_exact; [done|]. lia.
Qed.

Lemma added_kept w0 w o : Sound w -> kept w0 w -> kept w0 (added w o).
Proof.
  intros Hs Hk id o' Hne Ho. simpl. rewrite lookup_insert_ne; [by apply Hk|]. intros <-.
  destruct (so_ids w Hs _ _ (Hk _ _ Hne Ho)). lia.
Qed.

(** What an inspection finds. *)
Definition inspected (w : Hub) (i : inspection) : Prop :=
  is_desired i = desired /\
  match is_current i with
  | Some o => holds w group theName o /\ is_drifted i = negb (exactScaleSet o desired)
  | None => forall o, ~ holds w group theName o
  end.

Lemma safely_inspect inv w (post : Hub -> AdminError + inspection -> Prop) : Sound w -> inv w ->
  (forall err, post w (inl err)) -> (forall i, inspected w i -> post w (inr i)) ->
  safely inv w (inspect theURL true theSpec) post.
Proof.
  intros Hs Hi He Hp. unfold inspect. destruct (negb (instanceName (sp_Name theSpec))); [done|]. rewrite valid.
  apply safely_bind.
  assert (forall g, g = group -> safely inv w (Do (SetAt theURL g (sp_Name theSpec)) (fun existing =>
    match existing with
    | inl _ => Ret (inl AdminOther)
    | inr None => Ret (inr {| is_desired := desiredSet theSpec g labels; is_current := None; is_drifted := false |})
    | inr (Some current) =>
        if exactScaleSet current (desiredSet theSpec g labels)
        then Ret (inr {| is_desired := desiredSet theSpec g labels; is_current := Some current; is_drifted := false |})
        else Ret (inr {| is_desired := desiredSet theSpec g labels; is_current := Some current; is_drifted := true |})
    end)) post) as Hget.
  { intros g ->. split; [done|]. intros w1 x [-> Hx]. destruct x as [|[o|]]; [by split| |by split; [|apply Hp]].
    destruct (exactScaleSet o desired) eqn:Ex; (split; [done|]); apply Hp; (split; [done|]); simpl; by rewrite Ex. }
  pose proof (so_groups w Hs) as Hg. unfold resolves in Hg. unfold resolveGroup.
  change (sp_RunnerGroup theSpec) with (sc_RunnerGroup (lo_scope l)).
  destruct (bool_decide (trimmed (sc_RunnerGroup (lo_scope l)) = "") || EqualFold (trimmed (sc_RunnerGroup (lo_scope l))) "default").
  - split; [done|]. by apply Hget.
  - split; [done|]. intros w1 x [-> Hx]. destruct Hg as [Hg Hpos]. destruct x as [|found]; [by repeat split|].
    rewrite Hx, Hg. rewrite (proj2 (Z.leb_gt group 0)) by done. split; [done|]. by apply Hget.
Qed.

(** Before every call of a run from [w0]. *)
Definition undisturbed (w0 w : Hub) : Prop := Sound w /\ kept w0 w.

Lemma safely_Ensure w0 w (post : Hub -> AdminError + RunnerScaleSet -> Prop) : undisturbed w0 w ->
  (forall w' err, undisturbed w0 w' -> post w' (inl err)) ->
  (forall w' o, undisturbed w0 w' -> holds w' group theName o -> exactScaleSet o desired = true -> post w' (inr o)) ->
  safely (undisturbed w0) w (Ensure theURL true theSpec) post.
Proof.
  intros [Hs Hk] He Hp. apply safely_bind, safely_inspect; [done|done|by split; [|apply He]|].
  intros i [Hd Hcur]. destruct (is_current i) as [o|].
  - destruct Hcur as [Ho Hdr]. rewrite Hdr, negb_involutive. destruct (exactScaleSet o desired) eqn:Ex; [by split; [|apply Hp]|].
    split; [done|]. intros w1 x [-> Hx]. destruct x as [|[o'|]]; [by split; [|apply He]| |by split; [|apply He]].
    destruct (negb (ob_ID o' =? ob_ID o)); [by split; [|apply He]|]. rewrite Hd.
    assert (o' = o) as -> by (destruct Ho as [Ho _]; congruence). rewrite Ex. by split; [|apply He].
  - rewrite Hd. split; [done|]. intros w1 x Hx. destruct x as [|found].
    + destruct Hx as [->|[-> _]]; [by split; [|apply He]|].
      assert (undisturbed w0 (added w desired)) by (split; [by apply added_sound|by apply added_kept]). by split; [|apply He].
    + destruct Hx as (-> & -> & _). destruct (_ || _) eqn:Hbad.
      * assert (undisturbed w0 (added w desired)) by (split; [by apply added_sound|by apply added_kept]). by split; [|apply He].
      * assert (undisturbed w0 (added w desired)) as Hu by (split; [by apply added_sound|by apply added_kept]). split; [done|].
        apply orb_false_iff in Hbad as [_ Hex%negb_false_iff]. apply Hp; [done| |done].
        split; [|done]. simpl. apply lookup_insert_eq.
Qed.

(** What a recreation that succeeds has done. *)
Definition recreated (w : Hub) (r : RecreateResult) : Prop :=
  rr_OldID r = old /\ rr_NewID r <> old /\ 0 < rr_NewID r /\
  rr_Scopes r = assignSetID (h_Scopes (c_GitHub c)) (lo_scopeIndex l) (lo_setIndex l) (rr_NewID r) /\
  (exists o, holds w group theName o /\ ob_ID o = rr_NewID r /\ exactScaleSet o desired = true) /\
  forall o, holds w group theName o -> ob_ID o = rr_NewID r.

Definition succeeds (w : Hub) (r : AdminError + RecreateResult) : Prop :=
  match r with inl _ => True | inr r => recreated w r end.

Lemma safely_installReplacement w0 w : undisturbed w0 w -> safely (undisturbed w0) w (installReplacement c l) succeeds.
Proof.
  intros Hu. apply safely_bind, (safely_Ensure w0); [done|by split|]. intros w2 o Hu2 Ho Hex.
  destruct (Z.leb_spec (ob_ID o) 0); [by split|]. destruct (Z.eqb_spec (ob_ID o) old); [by split|].
  split; [done|]. repeat split; try done; [by exists o|]. intros o' Ho'. simpl. f_equal. by apply (so_one w2 (proj1 Hu2)).
Qed.

Lemma safely_replacePlanned w0 w plan : undisturbed w0 w -> safely (undisturbed w0) w (replacePlanned c l plan) succeeds.
Proof.
  intros Hu. apply safely_bind. destruct (pl_ID plan =? old); [|split; [done|by apply safely_installReplacement]].
  unfold DeleteSet. rewrite (proj2 (Z.leb_gt old 0)) by done. split; [done|]. intros w1 deleted Hdel.
  assert (undisturbed w0 w1) as Hu1.
  { destruct Hu. destruct Hdel as [->|[_ ->]]; [split; [by apply removed_sound|by apply removed_kept]|done]. }
  destruct deleted; (split; [done|]); [by apply safely_installReplacement|by split].
Qed.

Lemma safely_replaceAt w0 w : undisturbed w0 w -> safely (undisturbed w0) w (replaceAt c l) succeeds.
Proof.
  intros Hu. destruct (Hu) as [Hs Hk]. apply safely_bind, safely_bind, safely_inspect; [done|done|intros err; split; [done|]; by split|].
  intros i Hi. destruct (is_current i); (split; [done|]); by apply safely_replacePlanned.
Qed.

(** ** The recreation that nobody interrupts *)

Lemma holds_dec w : Sound w -> (exists o, holds w group theName o) \/ forall o, ~ holds w group theName o.
Proof.
  intros Hs. set (p := fun e : Z * RunnerScaleSet => bool_decide (ob_RunnerGroupID (snd e) = group /\ ob_Name (snd e) = theName)).
  destruct (List.find p (map_to_list (hb_sets w))) as [[id o]|] eqn:E.
  - apply List.find_some in E as [Hin%list_elem_of_In%elem_of_map_to_list Hp%bool_decide_eq_true_1]. left. exists o.
    destruct (so_ids w Hs id o Hin) as [Hid _]. split; [by rewrite Hid|done].
  - right. intros o [Ho Hr]. assert (p (ob_ID o, o) = false) as Hf; [|by apply bool_decide_eq_false_1 in Hf].
    apply (List.find_none p _ E). by apply list_elem_of_In, elem_of_map_to_list.
Qed.

Lemma can_inspect w : Sound w -> exists i, inspected w i /\ endsIn w (inspect theURL true theSpec) w (inr i).
Proof.
  intros Hs. assert (instanceName (sp_Name theSpec) = true) as Hn.
  { pose proof valid as Hv. unfold desiredLabels in Hv. destruct (forallb _ _) eqn:Hall; [|done].
    rewrite forallb_forall in Hall. apply Hall, in_or_app. right. by left. }
  unfold inspect. rewrite Hn, valid.
  assert (endsIn w (resolveGroup theURL theSpec) w (inr group)) as Hg.
  { pose proof (so_groups w Hs) as Hg. unfold resolves in Hg. unfold resolveGroup.
    change (sp_RunnerGroup theSpec) with (sc_RunnerGroup (lo_scope l)). destruct (_ || _); [split; [done|by rewrite Hg]|].
    destruct Hg as [Hg Hpos]. exists w, (inr (Some group)). split; [split; [done|symmetry; exact Hg]|].
    cbn -[Z.leb]. by rewrite (proj2 (Z.leb_gt group 0)). }
  destruct (holds_dec w Hs) as [[o Ho]|Hno].
  - exists {| is_desired := desired; is_current := Some o; is_drifted := negb (exactScaleSet o desired) |}. split; [done|].
    eapply endsIn_bind; [exact Hg|]. exists w, (inr (Some o)). split; [done|]. by destruct (exactScaleSet o desired).
  - exists {| is_desired := desired; is_current := None; is_drifted := false |}. split; [done|].
    eapply endsIn_bind; [exact Hg|]. by exists w, (inr None).
Qed.

Lemma can_install w : Sound w -> (forall o, holds w group theName o -> ob_ID o <> old) ->
  exists w' r, endsIn w (installReplacement c l) w' (inr r).
Proof.
  intros Hs Hno. destruct (can_inspect w Hs) as (i & [Hd Hi] & Hrun). unfold installReplacement, Ensure.
  destruct (is_current i) as [o|] eqn:Ec.
  - destruct Hi as [Ho Hdr]. exists w. eexists. eapply endsIn_bind; [eapply endsIn_bind; [exact Hrun|]|].
    + cbv beta iota. rewrite Ec, Hdr, (so_exact w Hs o Ho (Hno o Ho)). split; reflexivity.
    + destruct Ho as [Hin Hr]. destruct (so_ids w Hs _ _ Hin) as [_ Hpos].
      cbv beta iota. rewrite (proj2 (Z.leb_gt _ 0)) by apply Hpos. rewrite (proj2 (Z.eqb_neq _ _)) by (by apply Hno). split; reflexivity.
  - exists (added w desired). eexists. pose proof (so_old w Hs) as Hold.
    eapply endsIn_bind; [eapply endsIn_bind; [exact Hrun|]|].
    + cbv beta iota. rewrite Ec, Hd. exists (added w desired), (inr (Some (withID desired (hb_next w)))). split; [done|].
      rewrite withID_exact by (done || lia). cbn [ob_ID withID]. rewrite (proj2 (Z.leb_gt _ 0)) by lia. split; reflexivity.
    + cbv beta iota. cbn [ob_ID withID]. rewrite (proj2 (Z.leb_gt _ 0)), (proj2 (Z.eqb_neq _ _)) by lia. split; reflexivity.
Qed.

Lemma can_replace w : Sound w -> exists w' r, endsIn w (replaceAt c l) w' (inr r).
Proof.
  intros Hs. destruct (can_inspect w Hs) as (i & [Hd Hi] & Hrun).
  assert (forall id, (exists w' r, endsIn w (replacePlanned c l {| pl_Action := ScaleSetCreate; pl_ID := id |}) w' (inr r)) ->
    forall action, exists w' r, endsIn w (replacePlanned c l {| pl_Action := action; pl_ID := id |}) w' (inr r)) as Hact by done.
  assert (forall plan, (exists w' r, endsIn w (replacePlanned c l plan) w' (inr r)) ->
    endsIn w (Inspect theURL true theSpec) w (inr plan) -> exists w' r, endsIn w (replaceAt c l) w' (inr r)) as Hplan.
  { intros plan (w' & r & Hr) Hp. exists w', r. by eapply endsIn_bind. }
  destruct (is_current i) as [o|] eqn:Ec.
  - destruct Hi as [Ho _]. eapply Hplan; [|eapply endsIn_bind; [exact Hrun|]; cbv beta iota; rewrite Ec; split; reflexivity]. apply Hact.
    unfold replacePlanned. cbn [pl_ID]. destruct (Z.eqb_spec (ob_ID o) old) as [E|E].
    + destruct (can_install (removed w old)) as (w' & r & Hr); [by apply removed_sound| |].
      { intros o' Ho'. by destruct (removed_none w o Hs Ho E o'). }
      exists w', r. eapply (endsIn_bind _ _ _ _ _ None); [|exact Hr]. unfold DeleteSet. rewrite (proj2 (Z.leb_gt old 0)) by done.
      exists (removed w old), true. split; [by left|done].
    + destruct (can_install w) as (w' & r & Hr); [done|intros o' Ho'; by rewrite (so_one w Hs o' o)|]. exists w', r.
      by eapply (endsIn_bind _ _ _ _ _ None); [|exact Hr].
  - eapply Hplan; [|eapply endsIn_bind; [exact Hrun|]; cbv beta iota; rewrite Ec; split; reflexivity]. apply Hact.
    unfold replacePlanned. cbn [pl_ID]. rewrite (proj2 (Z.eqb_neq 0 old)) by lia.
    destruct (can_install w) as (w' & r & Hr); [done|intros o' Ho'; by destruct (Hi o')|]. exists w', r.
    by eapply (endsIn_bind _ _ _ _ _ None); [|exact Hr].
Qed.

(** The whole request, with its checks and its key. *)
Lemma Recreate_request scopeName name : name <> "" -> admitted c = None -> locate c scopeName name = inr l ->
  Recreate c scopeName name = keyed (Do (OpenAt theURL (installationOf c (lo_scope l))) (fun opened =>
    if (opened : bool) then replaceAt c l else Ret (inl AdminOther))).
Proof.
  intros Hn Ha Hl. unfold Recreate. rewrite bool_decide_eq_false_2 by done. rewrite Ha, Hl.
  by rewrite (proj2 (Z.leb_gt old 0)) by done.
Qed.

Lemma safely_Recreate scopeName name w0 w : name <> "" -> admitted c = None -> locate c scopeName name = inr l ->
  undisturbed w0 w -> safely (undisturbed w0) w (Recreate c scopeName name) succeeds.
Proof.
  intros Hn Ha Hl Hu. rewrite (Recreate_request scopeName name Hn Ha Hl). split; [done|]. intros w1 key ->.
  destruct key as [[|]|]; [|by split..]. split; [done|]. intros w1 opened ->.
  destruct opened; [by apply safely_replaceAt|by split].
Qed.

Lemma can_Recreate scopeName name w : name <> "" -> admitted c = None -> locate c scopeName name = inr l ->
  Sound w -> exists w' r, endsIn w (Recreate c scopeName name) w' (inr r).
Proof.
  intros Hn Ha Hl Hs. rewrite (Recreate_request scopeName name Hn Ha Hl). destruct (can_replace w Hs) as (w' & r & Hr).
  exists w', r. exists w, (Some true). split; [done|]. by exists w, true.
Qed.

End Recreating.

(** ** Provisioning *)

(** Every call a program can make is of a kind. *)
Fixpoint onlyCalls {A : Set} (kind : forall X : Set, AdminCall X -> bool) (p : Prog AdminCall A) : Prop :=
  match p with
  | Ret _ => True
  | Do call k => kind _ call = true /\ forall x, onlyCalls kind (k x)
  end.

Lemma onlyCalls_bind {A B : Set} kind (p : Prog AdminCall A) (f : A -> Prog AdminCall B) :
  onlyCalls kind p -> (forall a, onlyCalls kind (f a)) -> onlyCalls kind (bindProg p f).
Proof.
  intros Hp Hf. induction p as [a|X call k IH]; simpl; [apply Hf|]. destruct Hp as [Hc Hk]. split; [done|]. intros x. by apply IH.
Qed.

Lemma onlyCalls_weaken {A : Set} (kind kind' : forall X : Set, AdminCall X -> bool) (p : Prog AdminCall A) :
  (forall (X : Set) (call : AdminCall X), kind X call = true -> kind' X call = true) -> onlyCalls kind p -> onlyCalls kind' p.
Proof.
  intros Hk. induction p as [a|X call k IH]; [done|]. intros [Hc Hr]. split; [by apply Hk|]. intros x. by apply IH.
Qed.

Definition reads (X : Set) (call : AdminCall X) : bool :=
  match call with CreateAt _ _ | UpdateAt _ _ _ | DeleteAt _ _ => false | _ => true end.

Definition spares (X : Set) (call : AdminCall X) : bool := match call with DeleteAt _ _ => false | _ => true end.

Section Provision.
Context `{NetText}.
Variables (c : Config) (drift : bool).

Lemma inspect_reads url spec : onlyCalls reads (inspect url drift spec).
Proof.
  unfold inspect. destruct (negb _); [done|]. destruct (desiredLabels spec); [done|]. apply onlyCalls_bind.
  - unfold resolveGroup. destruct (_ || _); [done|]. split; [done|]. intros [|[id|]]; [done| |done]. by destruct (id <=? 0).
  - intros [err|group]; [done|]. split; [done|]. intros [|[o|]]; [done| |done].
    destruct (exactScaleSet _ _); [done|]. by destruct drift.
Qed.

Lemma Inspect_reads url spec : onlyCalls reads (Inspect url drift spec).
Proof. apply onlyCalls_bind; [apply inspect_reads|]. intros [err|i]; [done|by destruct (is_current i)]. Qed.

Lemma planSets_reads index scope sets : onlyCalls reads (planSets c drift index scope sets).
Proof.
  induction sets as [|[j set] sets IH]; [done|]. apply onlyCalls_bind; [apply Inspect_reads|]. intros [err|plan]; [done|].
  destruct (differs set plan); [done|]. apply onlyCalls_bind; [done|by intros [|]].
Qed.

Lemma planScopes_reads scopes : onlyCalls reads (planScopes c drift scopes).
Proof.
  induction scopes as [|[i scope] scopes IH]; [done|]. split; [done|]. intros [|]; [|done].
  apply onlyCalls_bind; [apply planSets_reads|]. intros [err|plans]; [done|]. apply onlyCalls_bind; [done|by intros [|]].
Qed.

Lemma Ensure_spares url spec : onlyCalls spares (Ensure url drift spec).
Proof.
  apply onlyCalls_bind.
  - apply (onlyCalls_weaken reads); [by intros X []|]. apply inspect_reads.
  - intros [err|i]; [done|]. destruct (is_current i) as [o|].
    + destruct (negb (is_drifted i)); [done|]. split; [done|]. intros [|[o'|]]; [done| |done].
      destruct (negb _); [done|]. by destruct (negb _).
    + split; [done|]. intros [|[o'|]]; [done| |done]. by destruct (_ || _).
Qed.

(** Provisioning never deletes a set, and a run that is not applied changes
    nothing at GitHub. *)
Theorem provisioning_never_deletes (apply : bool) : onlyCalls (if apply then spares else reads) (Provision_Run c drift apply).
Proof.
  unfold Provision_Run. destruct (admitted c); [by destruct apply|].
  apply onlyCalls_bind.
  - apply (onlyCalls_weaken reads); [by destruct apply; intros X []|]. split; [done|]. intros [[|]|]; [apply planScopes_reads|done|done].
  - intros [err|plans]; [done|]. destruct apply; [|done]. simpl. generalize (h_Scopes (c_GitHub c)).
    induction plans as [|item plans IH]; intros scopes; [done|]. apply onlyCalls_bind.
    + unfold identify. destruct (pl_Action (pn_plan item)); [| |]; try done;
        (apply onlyCalls_bind; [apply Ensure_spares|by intros [|]]).
    + intros [err|id]; [done|]. destruct (id <=? 0); [done|]. apply IH.
Qed.

End Provision.

(** ** The claims *)



(** ** A set that is replaced after an interruption *)

Module Stranded.
Import ConfigSpec.Sample.

Definition place : Located :=
  match locate config "" "repo-small" with
  | inr l => l
  | inl _ => {| lo_scopeIndex := 0; lo_setIndex := 0; lo_scope := {| sc_Name := ""; sc_Kind := ""; sc_ConfigURL := "";
                  sc_Installation := ""; sc_RunnerGroup := ""; sc_Targets := []; sc_ScaleSets := [] |};
                lo_set := scaleSet "" "" 0 0 [] |}
  end.

Definition stale : RunnerScaleSet :=
  {| ob_ID := 11; ob_Name := "repo-small"; ob_RunnerGroupID := 1; ob_Labels := [systemLabel "linux-small"]; ob_DisableUpdate := true |}.

Definition hub : Hub := {| hb_sets := {[11 := stale]}; hb_next := 40; hb_groups := ∅ |}.

Definition wanted : list Label := map systemLabel ["linux-small"; "repo-small"; "self-hosted"; "trf-linux-arm64-2x4"].

Lemma hub_sound : Sound config place 1 wanted hub.
Proof.
  assert (forall id o, hb_sets hub !! id = Some o -> id = 11 /\ o = stale) as Hall.
  { intros id o Ho. cbn in Ho. by apply lookup_singleton_Some in Ho as [<- <-]. }
  split.
  - vm_compute. reflexivity.
  - intros id o [-> ->]%Hall. split; [reflexivity|]. vm_compute. split; reflexivity.
  - vm_compute. reflexivity.
  - intros o1 o2 [[_ ->]%Hall _] [[_ ->]%Hall _]. reflexivity.
  - intros o [[_ ->]%Hall _] Hne. destruct Hne. vm_compute. reflexivity.
Qed.

Lemma interrupted_after_delete : interrupted hub (Recreate config "" "repo-small") (removed hub 11).
Proof.
  rewrite (Recreate_request config place ltac:(vm_compute; reflexivity) "" "repo-small"); [|discriminate|vm_compute; reflexivity..].
  right. exists hub, (Some true). split; [reflexivity|]. right. exists hub, true. split; [reflexivity|].
  unfold replaceAt, Inspect, inspect. replace (desiredLabels _) with (inr wanted : AdminError + list Label) by (vm_compute; reflexivity).
  right. exists hub, (inr (Some stale)). split; [split; [reflexivity|]; split; [|split]; vm_compute; reflexivity|].
  right. exists (removed hub 11), true. split; [left; reflexivity|]. apply interrupted_here.
Qed.


End Stranded.
