(* ===== verification/SetAudit.v ===== *)
(** * The audit of scale sets (internal/scalesetaudit, internal/daemon/runtime.go)

    The auditor lists the scale sets GitHub has for the scopes of a node and says
    which of them the node serves.  A served set that holds work nobody delivers,
    for longer than a boot takes, is a verdict the membership ladder acts on. *)

From Stdlib Require Import ZArith Lia String List.
From stdpp Require Import base tactics list gmap strings.
From S2P Require Import Prelude GoStrings Domain Inbox Store Membership Config ConfigSpec Provisioning Effects.

#[local] Open Scope prog_scope.

(** One set as the audit saw it; [au_Bound] is whether this node serves it.  A
    count of the node itself is absent when the node was not observed. *)
Record AuditedSet := {
  au_Scope : string;
  au_ID : Z;
  au_Name : string;
  au_Bound : bool;
  au_Profile : string;
  au_Labels : list string;
  au_Statistics : ScaleSetStatistics;
  au_Stranding : bool;
  au_ObservedAt : Time;
  au_Instances : option Z;
  au_Queued : option Z;
  au_HoldingSince : option Time;
  au_Wedged : bool
}.

Record LocalObservation := { lo_Instances : Z; lo_Queued : Z; lo_HoldingSince : Time }.

Definition keyOf (s : AuditedSet) : Key := {| Scope := au_Scope s; ID := au_ID s |}.

Definition Holding (s : AuditedSet) : bool :=
  (0 <? ss_AssignedJobs (au_Statistics s)) || (0 <? ss_BusyRunners (au_Statistics s)).

Definition Stranded (s : AuditedSet) : bool := Holding s && (ss_RegisteredRunners (au_Statistics s) =? 0).

Definition Starving (s : AuditedSet) : bool :=
  au_Bound s && (0 <? ss_AssignedJobs (au_Statistics s)) && (0 <? ss_BusyRunners (au_Statistics s))
  && (ss_RegisteredRunners (au_Statistics s) =? 0) && bool_decide (au_Instances s = Some 0) && bool_decide (au_Queued s = Some 0).

Definition Wedging (s : AuditedSet) (now : Time) (bootTimeout : Duration) : bool :=
  if negb (Starving s) || (bootTimeout <=? 0) then false
  else match au_HoldingSince s with
       | None => false
       | Some since => if IsZero since then false else bootTimeout <? TimeSub now since
       end.

(** Since when each set has been starving without a break. *)
Definition Track (previous : gmap Key Time) (rows : list AuditedSet) (now : Time) : gmap Key Time :=
  fold_left (fun tracked s =>
    if Starving s
    then <[keyOf s := match previous !! keyOf s with
                      | Some earlier => if IsZero earlier then now else earlier
                      | None => now
                      end]> tracked
    else tracked) rows ∅.

(** ** One scope *)

(** An identifier binds the object it names; a name binds only while no
    identifier is configured. *)
Definition boundIDs (sets : list ScaleSet) : gmap Z string :=
  fold_left (fun m s => if 0 <? s_ID s then <[s_ID s := s_Profile s]> m else m) sets ∅.

Definition boundNames (sets : list ScaleSet) : gmap string string :=
  fold_left (fun m s => if (0 <? s_ID s) || bool_decide (s_Name s = "") then m else <[s_Name s := s_Profile s]> m) sets ∅.

Definition bindingOf (scope : GitHubScope) (summary : ScaleSetSummary) : option string :=
  match boundIDs (sc_ScaleSets scope) !! su_ID summary with
  | Some profile => Some profile
  | None => boundNames (sc_ScaleSets scope) !! su_Name summary
  end.

(** What a set is, from what was read about it. *)
Definition auditedSet (scope : GitHubScope) (summary : ScaleSetSummary) (statistics : ScaleSetStatistics) (observedAt : Time)
    (local : option LocalObservation) : AuditedSet :=
  let profile := bindingOf scope summary in
  let bound := bool_decide (profile <> None) in
  let local := if bound then local else None in
  {| au_Scope := sc_Name scope; au_ID := su_ID summary; au_Name := su_Name summary; au_Bound := bound;
     au_Profile := default "" profile; au_Labels := su_Labels summary; au_Statistics := statistics;
     au_Stranding := negb bound && ((0 <? ss_AssignedJobs statistics) || (0 <? ss_BusyRunners statistics))
                     && (ss_RegisteredRunners statistics =? 0);
     au_ObservedAt := observedAt;
     au_Instances := lo_Instances <$> local; au_Queued := lo_Queued <$> local;
     au_HoldingSince := match local with
                        | Some o => if IsZero (lo_HoldingSince o) then None else Some (lo_HoldingSince o)
                        | None => None
                        end;
     au_Wedged := false |}.

Definition judged (s : AuditedSet) (bootTimeout : Duration) : AuditedSet :=
  {| au_Scope := au_Scope s; au_ID := au_ID s; au_Name := au_Name s; au_Bound := au_Bound s; au_Profile := au_Profile s;
     au_Labels := au_Labels s; au_Statistics := au_Statistics s; au_Stranding := au_Stranding s;
     au_ObservedAt := au_ObservedAt s; au_Instances := au_Instances s; au_Queued := au_Queued s;
     au_HoldingSince := au_HoldingSince s; au_Wedged := Wedging s (au_ObservedAt s) bootTimeout |}.

Section Audit.
Variable c : Config.
Variable local : string -> Z -> option LocalObservation.
Variable observedAt : Time.

Fixpoint auditSets (scope : GitHubScope) (listed : list ScaleSetSummary) : Prog AdminCall (option (list AuditedSet)) :=
  match listed with
  | [] => Ret (Some [])
  | summary :: rest =>
      statistics <~~ match su_Statistics summary with
                     | Some s => Ret (Some s)
                     | None => Do (StatisticsAt (sc_ConfigURL scope) (su_ID summary)) Ret
                     end ;;
      match statistics with
      | None => Ret None
      | Some statistics =>
          others <~~ auditSets scope rest ;;
          Ret (match others with
               | None => None
               | Some others =>
                   Some (judged (auditedSet scope summary statistics observedAt (local (sc_Name scope) (su_ID summary)))
                           (to_Boot (c_Timeouts c)) :: others)
               end)
      end
  end.

Definition auditScope (scope : GitHubScope) : Prog AdminCall (option (list AuditedSet)) :=
  listed <~ ListAt (sc_ConfigURL scope) (sc_RunnerGroup scope) ;;
  match listed with
  | None => Ret None
  | Some listed =>
      sets <~~ auditSets scope listed ;;
      Ret (match sets with None => None | Some sets => Some (sortBy (fun a b => au_ID a <? au_ID b) sets) end)
  end.

Fixpoint auditScopes (scopes : list GitHubScope) : Prog AdminCall (option (list AuditedSet)) :=
  match scopes with
  | [] => Ret (Some [])
  | scope :: rest =>
      opened <~ OpenAt (sc_ConfigURL scope) (installationOf c scope) ;;
      if negb opened then Ret None
      else
        sets <~~ auditScope scope ;;
        match sets with
        | None => Ret None
        | Some sets => others <~~ auditScopes rest ;; Ret (match others with None => None | Some others => Some (sets ++ others) end)
        end
  end.

(** [None] is an error: an audit that was not completed publishes nothing. *)
Definition Audit_Run : Prog AdminCall (option (list AuditedSet)) :=
  match h_Scopes (c_GitHub c) with
  | [] => Ret None
  | scopes => auditScopes (sortBy (fun a b => strLess (sc_Name a) (sc_Name b)) scopes)
  end.

End Audit.

(** ** The auditor of the daemon *)

(** What the auditor keeps between two audits. *)
Record parkedScaleSetAuditor := { pa_interval : Duration; pa_next : Time; pa_holding : gmap Key Time }.

Definition rowOf (key : Key) (rows : list (Key * Z)) : option Z :=
  snd <$> List.find (fun row => bool_decide (fst row = key)) rows.

(** What the node published about a set: its instances and its queue.  Only both
    rows together are an observation. *)
Definition parkedScaleSetAuditor_local (instances queues : list (Key * Z)) (a : parkedScaleSetAuditor) (scope : string) (id : Z)
    : option LocalObservation :=
  let key := {| Scope := scope; ID := id |} in
  match rowOf key instances with
  | None => None
  | Some instances =>
      match rowOf key queues with
      | None => None
      | Some queued =>
          Some {| lo_Instances := instances; lo_Queued := queued; lo_HoldingSince := default zeroTime (pa_holding a !! key) |}
      end
  end.

(** When the audit starts: at [now], or at [woken] when it had to wait. *)
Definition auditStart (a : parkedScaleSetAuditor) (now woken : Time) : Time :=
  if 0 <? TimeSub (pa_next a) now then woken else now.

(** One audit: the auditor after it, and the rows it publishes. *)
Definition parkedScaleSetAuditor_Ingest (c : Config) (instances queues : list (Key * Z)) (a : parkedScaleSetAuditor)
    (now woken : Time) : Prog AdminCall (parkedScaleSetAuditor * option (list AuditedSet)) :=
  if pa_interval a <=? 0 then Ret (a, None)
  else
    let start := auditStart a now woken in
    let paced := {| pa_interval := pa_interval a; pa_next := TimeAdd start (pa_interval a); pa_holding := pa_holding a |} in
    rows <~~ Audit_Run c (parkedScaleSetAuditor_local instances queues a) start ;;
    match rows with
    | None => Ret (paced, None)
    | Some rows =>
        Ret ({| pa_interval := pa_interval a; pa_next := pa_next paced; pa_holding := Track (pa_holding a) rows start |}, Some rows)
    end.

(** The keys the membership ladder is handed. *)
Definition wedgedKeys (rows : list AuditedSet) : list Key := map keyOf (List.filter au_Wedged rows).

(** ** What a verdict of the audit rests on

    The auditor is followed over any number of audits, each answered by any
    environment.  A set is judged wedged exactly when the unbroken run of
    completed audits that found it starving is older than a boot may take. *)

(** ** The memory of the auditor *)

Definition starvesIn (key : Key) (rows : list AuditedSet) : bool :=
  existsb (fun s => bool_decide (keyOf s = key) && Starving s) rows.

Definition firstSeen (previous : gmap Key Time) (key : Key) (now : Time) : Time :=
  match previous !! key with
  | Some earlier => if IsZero earlier then now else earlier
  | None => now
  end.

Lemma Track_lookup previous rows now key :
  Track previous rows now !! key = if starvesIn key rows then Some (firstSeen previous key now) else None.
Proof.
  unfold Track, starvesIn.
  enough (forall acc : gmap Key Time, fold_left (fun tracked s => if Starving s then <[keyOf s := firstSeen previous (keyOf s) now]> tracked else tracked)
    rows acc !! key = if existsb (fun s => bool_decide (keyOf s = key) && Starving s) rows
                      then Some (firstSeen previous key now) else acc !! key) as Hf.
  { rewrite <- (lookup_empty (M := gmap Key) (A := Time) key). apply Hf. }
  induction rows as [|s rows IH]; intros acc; simpl; [done|]. rewrite IH.
  destruct (existsb _ rows); [by rewrite orb_true_r|]. rewrite orb_false_r.
  destruct (Starving s); [|by rewrite andb_false_r]. rewrite andb_true_r.
  case_bool_decide as Hk; [rewrite <- Hk; apply lookup_insert_eq|by apply lookup_insert_ne].
Qed.

(** A completed audit: when it started and what it published. *)
Definition Completed : Type := Time * list AuditedSet.

Definition starving (key : Key) (audit : Completed) : Prop := starvesIn key (snd audit) = true.

(** [first :: rest] is the whole run of audits, up to the last one, that found
    the set starving. *)
Definition lastRun (key : Key) (audits : list Completed) (first : Completed) : Prop :=
  exists before rest, audits = before ++ first :: rest /\ Forall (starving key) (first :: rest) /\
    forall older last, before = older ++ [last] -> starvesIn key (snd last) = false.

Lemma lastRun_snoc key audits first audit : starving key audit ->
  lastRun key audits first -> lastRun key (audits ++ [audit]) first.
Proof.
  intros Ha (before & rest & -> & Hall & Hb). exists before, (rest ++ [audit]).
  split; [by rewrite <- app_assoc|]. split; [|done]. rewrite app_comm_cons. apply Forall_app. by rewrite Forall_singleton.
Qed.

Lemma lastRun_start key audits audit : starving key audit ->
  (forall older last, audits = older ++ [last] -> starvesIn key (snd last) = false) -> lastRun key (audits ++ [audit]) audit.
Proof. intros Ha Hb. exists audits, []. split; [done|]. split; [by rewrite Forall_singleton|done]. Qed.

Lemma lastRun_last key audits first older last : lastRun key audits first -> audits = older ++ [last] -> starving key last.
Proof.
  intros (before & rest & -> & Hall & _) E. destruct rest as [|r rest _] using rev_ind.
  - apply app_inj_tail in E as [_ <-]. by inversion Hall.
  - rewrite app_comm_cons, app_assoc in E. apply app_inj_tail in E as [_ <-].
    rewrite app_comm_cons in Hall. apply Forall_app in Hall as [_ Hr]. by inversion Hr.
Qed.

(** Both runs end the audits and both are whole, so they start together. *)
Lemma lastRun_unique key audits first first' : lastRun key audits first -> lastRun key audits first' -> first = first'.
Proof.
  intros (b & r & E & Ha & Hb) (b' & r' & E' & Ha' & Hb').
  assert (forall (b b' : list Completed) f f' r r', b ++ f :: r = b' ++ f' :: r' -> Forall (starving key) (f' :: r') ->
    (forall older last, b = older ++ [last] -> starvesIn key (snd last) = false) -> (length b <= length b')%nat) as Hle.
  { clear. intros b b' f f' r r' E Ha Hb. destruct (Nat.le_gt_cases (length b) (length b')) as [|Hlt]; [done|exfalso].
    destruct b as [|l b _] using rev_ind; [simpl in Hlt; lia|].
    assert (In l (f' :: r')) as Hl.
    { rewrite length_app in Hlt. simpl in Hlt. rewrite <- app_assoc in E. simpl in E.
      assert (exists m, b = b' ++ m) as [m ->].
      { exists (drop (length b') b). rewrite <- (take_drop (length b') b) at 1. f_equal.
        apply (f_equal (take (length b'))) in E. rewrite take_app_le in E by lia. rewrite E. by rewrite take_app_length. }
      rewrite <- app_assoc in E. apply app_inv_head in E. rewrite <- E. apply in_or_app. right. by left. }
    rewrite List.Forall_forall in Ha. specialize (Ha l Hl). unfold starving in Ha.
    by rewrite (Hb b l eq_refl) in Ha. }
  rewrite E in E'. assert (length b = length b') as Hlen.
  { apply Nat.le_antisymm; [by eapply Hle|]. by eapply Hle; [symmetry|..]. }
  apply app_inj_1 in E' as [_ [= <- _]]; done.
Qed.

Lemma lastRun_exists key audits : forall older last, audits = older ++ [last] -> starving key last -> exists first, lastRun key audits first.
Proof.
  intros older last ->. revert last. induction older as [|l older IH] using rev_ind; intros last Hl.
  - exists last. apply (lastRun_start key []); [done|]. by intros [] ?.
  - destruct (starvesIn key (snd l)) eqn:El.
    + destruct (IH l El) as [first Hr]. exists first. by apply lastRun_snoc.
    + exists last. apply lastRun_start; [done|]. intros older' last' E. by apply app_inj_tail in E as [_ <-].
Qed.

(** The auditor remembers, of each set, when the run it is in began. *)
Definition remembers (holding : gmap Key Time) (audits : list Completed) : Prop :=
  forall key since, holding !! key = Some since <-> exists first, lastRun key audits first /\ fst first = since.

Lemma remembers_nothing : remembers ∅ [].
Proof. intros key since. rewrite lookup_empty. split; [done|]. intros (first & (before & rest & E & _) & _). by destruct before. Qed.

Lemma Track_remembers holding audits audit :
  Forall (fun a => fst a <> zeroTime) audits -> remembers holding audits ->
  remembers (Track holding (snd audit) (fst audit)) (audits ++ [audit]).
Proof.
  intros Hz Hh key since. rewrite Track_lookup. destruct (starvesIn key (snd audit)) eqn:Es.
  2: { split; [done|]. intros (first & Hr & _). pose proof (lastRun_last _ _ _ _ _ Hr eq_refl) as Hs. unfold starving in Hs. congruence. }
  assert (exists first, lastRun key (audits ++ [audit]) first /\ fst first = firstSeen holding key (fst audit)) as (first & Hr & Hf).
  { unfold firstSeen. destruct (holding !! key) as [e|] eqn:Eh.
    - apply Hh in Eh as (first & Hr & <-). exists first. split; [by apply lastRun_snoc|].
      destruct Hr as (b & r & -> & _). apply Forall_app in Hz as [_ Hz]. apply Forall_cons in Hz as [Hz _].
      unfold IsZero. destruct (Z.eqb_spec (fst first) 0); done.
    - exists audit. split; [|done]. apply lastRun_start; [done|]. intros older last ->. apply not_true_iff_false. intros Hl.
      destruct (lastRun_exists key _ older last eq_refl Hl) as [first Hr].
      assert (holding !! key = Some (fst first)) as He by (apply Hh; by exists first). congruence. }
  rewrite <- Hf. split; [intros [= <-]; by exists first|].
  intros (first' & Hr' & <-). by rewrite (lastRun_unique _ _ _ _ Hr Hr').
Qed.

(** ** What one audit reports *)

(** A row is judged by the memory the audit started from. *)
Definition verdictBy (boot : Duration) (holding : gmap Key Time) (start : Time) (s : AuditedSet) : Prop :=
  au_Wedged s = true <->
  Starving s = true /\ 0 < boot /\ exists since, holding !! keyOf s = Some since /\ since <> zeroTime /\ boot < TimeSub start since.

Section Rows.
Variable c : Config.
Variable instances queues : list (Key * Z).
Variable a : parkedScaleSetAuditor.
Variable start : Time.

#[local] Abbreviation boot := (to_Boot (c_Timeouts c)).
#[local] Abbreviation local := (parkedScaleSetAuditor_local instances queues a).
#[local] Abbreviation reported := (fun (_ : list (Event AdminCall)) (rows : option (list AuditedSet)) =>
  forall l, rows = Some l -> Forall (verdictBy boot (pa_holding a) start) l).

Lemma row_judged scope summary statistics :
  verdictBy boot (pa_holding a) start
    (judged (auditedSet scope summary statistics start (local (sc_Name scope) (su_ID summary))) boot).
Proof.
  unfold verdictBy. set (s := auditedSet _ _ _ _ _). change (au_Wedged (judged s boot)) with (Wedging s start boot).
  change (Starving (judged s boot)) with (Starving s). change (keyOf (judged s boot)) with (keyOf s).
  unfold Wedging. destruct (Starving s) eqn:Es; [|by split; [|intros [? _]]]. cbn [negb orb].
  destruct (Z.leb_spec boot 0); [split; [done|lia]|].
  assert (au_HoldingSince s = match pa_holding a !! keyOf s with Some e => if IsZero e then None else Some e | None => None end) as ->.
  { unfold Starving in Es. rewrite !andb_true_iff in Es. destruct Es as [[_ Hi] _]. apply bool_decide_eq_true in Hi.
    revert Hi. unfold s, auditedSet, keyOf. simpl. destruct (bool_decide _); [|done].
    unfold parkedScaleSetAuditor_local. destruct (rowOf _ instances); [|done]. destruct (rowOf _ queues); [|done]. simpl. intros _.
    by destruct (pa_holding a !! _). }
  destruct (pa_holding a !! keyOf s) as [e|]; [|split; [done|by intros (_ & _ & ? & ? & _)]].
  unfold IsZero. destruct (Z.eqb_spec e 0) as [->|Hne].
  - split; [done|]. intros (_ & _ & since & [= <-] & Hz & _). done.
  - unfold IsZero. rewrite (proj2 (Z.eqb_neq e 0) Hne). split.
    + intros Hlt%Z.ltb_lt. split; [done|]. split; [lia|]. by exists e.
    + intros (_ & _ & since & [= <-] & _ & Hlt). by apply Z.ltb_lt.
Qed.

Lemma auditSets_judged guard scope listed h : (forall h ev, guard h ev) ->
  wp anyAnswer guard h (auditSets c local start scope listed) reported.
Proof.
  intros Hg. revert h. induction listed as [|summary listed IH]; intros h; simpl; [by intros l [= <-]|].
  apply wp_bind. assert (forall h s, wp anyAnswer guard h (match s with
    | Some statistics => bindProg (auditSets c local start scope listed) (fun others => Ret (match others with
        | Some others => Some (judged (auditedSet scope summary statistics start (local (sc_Name scope) (su_ID summary))) boot :: others)
        | None => None end))
    | None => Ret None end) reported) as Hk.
  { intros h' [statistics|]; [|done]. apply wp_bind. eapply wp_mono; [|apply IH]. simpl. intros _ [others|] Ho l; [|done].
    intros [= <-]. constructor; [apply row_judged|by apply Ho]. }
  destruct (su_Statistics summary) as [s|]; simpl; [apply (Hk h (Some s))|]. intros x _. split; [apply Hg|]. apply Hk.
Qed.

Lemma auditScopes_judged guard scopes h : (forall h ev, guard h ev) ->
  wp anyAnswer guard h (auditScopes c local start scopes) reported.
Proof.
  intros Hg. revert h. induction scopes as [|scope scopes IH]; intros h; simpl; [by intros l [= <-]|].
  intros opened _. split; [apply Hg|]. destruct opened; simpl; [|done]. intros listed _. split; [apply Hg|].
  apply wp_bind. destruct listed as [listed|]; simpl; [|done]. apply wp_bind.
  eapply wp_mono; [|by apply auditSets_judged]. simpl. intros h' [sets|] Hs; simpl; [|done]. apply wp_bind.
  eapply wp_mono; [|apply IH]. simpl. intros _ [others|] Ho l; [|done]. intros [= <-]. apply Forall_app.
  split; [|by apply Ho]. specialize (Hs sets eq_refl). rewrite List.Forall_forall in Hs |- *. intros s. rewrite sortBy_in. apply Hs.
Qed.

Lemma Audit_Run_judged guard h : (forall h ev, guard h ev) -> wp anyAnswer guard h (Audit_Run c local start) reported.
Proof. intros Hg. unfold Audit_Run. destruct (h_Scopes (c_GitHub c)); [done|]. by apply auditScopes_judged. Qed.

End Rows.

(** ** Audits one after another *)

(** What one call of the auditor meets: the clock, what the node published, and
    the answers of GitHub. *)
Record Round := { rd_env : Env AdminCall; rd_instances : list (Key * Z); rd_queues : list (Key * Z); rd_now : Time; rd_woken : Time }.

Section Rounds.
Variable c : Config.

Definition auditRound (a : parkedScaleSetAuditor) (r : Round) : parkedScaleSetAuditor * option (list AuditedSet) :=
  snd (run (rd_env r) [] (parkedScaleSetAuditor_Ingest c (rd_instances r) (rd_queues r) a (rd_now r) (rd_woken r))).

Definition startOf (a : parkedScaleSetAuditor) (r : Round) : Time := auditStart a (rd_now r) (rd_woken r).

Definition auditNext (st : parkedScaleSetAuditor * list Completed) (r : Round) : parkedScaleSetAuditor * list Completed :=
  let '(a, audits) := st in
  let '(a', rows) := auditRound a r in
  (a', match rows with Some rows => audits ++ [(startOf a r, rows)] | None => audits end).

Definition auditAll (interval : Duration) (rounds : list Round) : parkedScaleSetAuditor * list Completed :=
  fold_left auditNext rounds ({| pa_interval := interval; pa_next := zeroTime; pa_holding := ∅ |}, []).

Lemma auditRound_cases a r :
  (pa_holding (fst (auditRound a r)) = pa_holding a /\ snd (auditRound a r) = None) \/
  exists rows, snd (auditRound a r) = Some rows /\ pa_holding (fst (auditRound a r)) = Track (pa_holding a) rows (startOf a r) /\
    Forall (verdictBy (to_Boot (c_Timeouts c)) (pa_holding a) (startOf a r)) rows.
Proof.
  unfold auditRound, parkedScaleSetAuditor_Ingest. destruct (pa_interval a <=? 0); [by left|].
  set (p := bindProg _ _).
  assert (wp anyAnswer (fun _ _ => True) [] p (fun _ out =>
    (pa_holding (fst out) = pa_holding a /\ snd out = None) \/
    exists rows, snd out = Some rows /\ pa_holding (fst out) = Track (pa_holding a) rows (startOf a r) /\
      Forall (verdictBy (to_Boot (c_Timeouts c)) (pa_holding a) (startOf a r)) rows)) as Hw.
  { apply wp_bind. eapply wp_mono; [|by apply Audit_Run_judged]. simpl. intros h' [rows|] Hr; simpl; [right|by left].
    exists rows. split; [done|]. split; [done|]. by apply Hr. }
  by destruct (wp_run anyAnswer (fun _ _ => True) (rd_env r) p [] 0 _ ltac:(done) (guardedFrom_refl _ []) Hw) as [Hp _].
Qed.

Lemma auditAll_remembers interval rounds :
  Forall (fun audit => fst audit <> zeroTime) (snd (auditAll interval rounds)) ->
  remembers (pa_holding (fst (auditAll interval rounds))) (snd (auditAll interval rounds)).
Proof.
  unfold auditAll. induction rounds as [|r rounds IH] using rev_ind; [intros _; exact remembers_nothing|].
  rewrite fold_left_app. simpl. destruct (fold_left _ rounds _) as [a audits]. simpl in IH |- *.
  destruct (auditRound_cases a r) as [[Hh Hn]|(rows & Hr & Hh & _)]; destruct (auditRound a r) as [a' out]; simpl in *; subst out; rewrite Hh.
  - exact IH.
  - intros Hz. apply Forall_app in Hz as [Hz _]. by apply (Track_remembers _ _ (startOf a r, rows)); [|apply IH].
Qed.

(** C35: A verdict is an unbroken run of audits.  However many audits completed,
    failed or were never answered before, a set is judged wedged exactly when the
    present audit finds it starving (this node serves it, GitHub holds assigned
    and busy work for it, no runner is registered, and the node observed neither
    an instance nor a queued job of its own) and so did every completed audit
    since one that started longer ago than a runner may take to boot.  One
    completed audit that found it otherwise, or could not observe the node,
    starts the count again. *)
Theorem wedged_is_an_unbroken_run interval rounds r rows s :
  let a := fst (auditAll interval rounds) in
  let audits := snd (auditAll interval rounds) in
  let boot := to_Boot (c_Timeouts c) in
  Forall (fun audit => fst audit <> zeroTime) audits -> snd (auditRound a r) = Some rows -> In s rows ->
  (au_Wedged s = true <->
   Starving s = true /\ 0 < boot /\ exists first, lastRun (keyOf s) audits first /\ boot < TimeSub (startOf a r) (fst first)).
Proof.
  intros a audits boot Hz Hr Hs. pose proof (auditAll_remembers interval rounds Hz) as Hm. fold a audits in Hm.
  destruct (auditRound_cases a r) as [[_ Hn]|(rows' & Hr' & _ & Hj)]; [congruence|].
  assert (rows' = rows) as -> by congruence. rewrite List.Forall_forall in Hj. specialize (Hj s Hs). unfold verdictBy in Hj. rewrite Hj. fold boot.
  split; intros (Hst & Hb & Hx); (split; [done|]; split; [done|]).
  - destruct Hx as (since & Hh & _ & Hlt). apply Hm in Hh as (first & Hrun & <-). by exists first.
  - destruct Hx as (first & Hrun & Hlt). exists (fst first). split; [apply Hm; by exists first|]. split; [|done].
    destruct Hrun as (before & rest & E & _). rewrite E in Hz. apply Forall_app in Hz as [_ Hz].
    by apply Forall_cons in Hz as [Hz _].
Qed.

End Rounds.

(** ** A set GitHub stopped delivering for *)

Module Undelivered.
Import ConfigSpec.Sample.

Definition counters : ScaleSetStatistics :=
  {| ss_AvailableJobs := 0; ss_AcquiredJobs := 0; ss_AssignedJobs := 3; ss_RunningJobs := 0; ss_RegisteredRunners := 0;
     ss_BusyRunners := 3; ss_IdleRunners := 0 |}.

Definition answers : Env AdminCall := fun X _ call =>
  match call with
  | LoadKey => Some true
  | OpenAt _ _ => true
  | GroupAt _ _ => inr None
  | SetAt _ _ _ => inr None
  | CreateAt _ _ => inr None
  | UpdateAt _ _ _ => inr None
  | DeleteAt _ _ => false
  | ListAt _ _ => Some [{| su_ID := 11; su_Name := "repo-small"; su_Labels := []; su_Statistics := None |}]
  | StatisticsAt _ _ => Some counters
  end.

Definition idle : list (Key * Z) := [({| Scope := "repo"; ID := 11 |}, 0)].
Definition at_ (minutes : Z) : Round :=
  {| rd_env := answers; rd_instances := idle; rd_queues := idle; rd_now := minutes * Minute; rd_woken := minutes * Minute |}.

Definition rounds : list Round := [at_ 10; at_ 20; at_ 30].
Definition final : list AuditedSet := default [] (snd (auditRound config (fst (auditAll config (10 * Minute) rounds)) (at_ 40))).

Lemma wedged_is_an_unbroken_run_witness :
  map keyOf (List.filter au_Wedged final) = [{| Scope := "repo"; ID := 11 |}] /\
  exists first, lastRun {| Scope := "repo"; ID := 11 |} (snd (auditAll config (10 * Minute) rounds)) first /\
    to_Boot (c_Timeouts config) < TimeSub (40 * Minute) (fst first).
Proof.
  split; [vm_compute; reflexivity|].
  assert (exists s, final = [s] /\ au_Wedged s = true /\ keyOf s = {| Scope := "repo"; ID := 11 |}) as (s & Hf & Hw & <-)
    by (eexists; vm_compute; done).
  apply (wedged_is_an_unbroken_run config (10 * Minute) rounds (at_ 40) final s); [| |rewrite Hf; left; reflexivity|exact Hw].
  - repeat constructor; vm_compute; discriminate.
  - vm_compute. reflexivity.
Defined.

End Undelivered.
